(* ===== verification/_CoqProject ===== *)
-Q . S2P
Prelude.v
Async.v
JsNumber.v
Rounding.v
JsValue.v
Base64.v
Encoding.v
EncodingFacts.v
BufferCore.v
BufferCoreFacts.v
Codecs.v
BufferInt.v
BufferIntFacts.v
BufferOps.v
BufferOpsFacts.v
BufferSearchFacts.v
BufferMisc.v
Ieee754.v
Ieee754Facts.v
Ieee754Single.v
BufferSafety.v
BufferTypes.v
Event.v
EventFacts.v
AsyncHooks.v
AsyncFacts.v
AsyncSpec.v
Streams.v
Timers.v
HttpEcho.v
HttpEchoFacts.v
EchoApp.v
TestSuite.v
TestFacts.v
EventTest.v
PromiseTest.v
ByteBuffers.v
HmacTest.v
HmacFacts.v
ShaTest.v
ShaFacts.v
TimerTest.v
TimerFacts.v
UuidTest.v
UuidFacts.v
Script.v
UrlTest.v
UrlSpec.v
UrlFacts.v
FormTest.v
FormSpec.v
FormFacts.v
DecoderTest.v
DecoderSpec.v
DecoderFacts.v
NativeTests.v
NativeFacts.v
BodyTests.v
BodyFacts.v
LipFuzz.v
LipFuzzFacts.v
AbortTest.v
AbortFacts.v
CacheTest.v
CacheFacts.v
CacheSuite.v
CacheSpec.v
CacheRun.v
CacheRunFacts.v
