(* ===== verification/Prelude.v ===== *)
(** * The JavaScript library of WinterJS, in Rocq

    WinterJS is a JavaScript runtime: a server in Rust embeds an engine and gives
    the programs it runs a library that is partly native and partly written in
    JavaScript.  This development models the JavaScript part: the modules a
    program imports or finds as globals, the two example applications, and of the
    test suite the helpers, the router and twenty-one test files.

    ** The program and its model

    Paths are those of the repository; js/ stands for
    src/builtins/internal_js_modules/.

    - js/__winterjs_internal/base64-js.js: [Base64], a codec between bytes and text.
    - js/__winterjs_internal/ieee754.js: [Ieee754], a codec between Numbers and
      the words of single and double precision.
    - js/node/buffer.js, the class [Buffer], built on both: [Encoding] (strings to
      bytes and back), [BufferCore] (allocation, [from], [slice], [write], [copy],
      [fill]), [BufferInt] (integer accessors, range checks and their errors),
      [BufferOps] (comparison, [concat], [swap16] to [swap64], [toString],
      searching), [Ieee754] (the Float and Double accessors), [BufferMisc]
      (constants, accessors, public names, the error class).
    - src/builtins/js_globals/event.js, compiled from event.ts: [Event], events and
      event targets.
    - js/node/async_hooks.js, compiled from async_hooks.ts: [AsyncHooks], the stack
      of context frames behind [AsyncLocalStorage] and [AsyncResource], the promise
      hooks and the timers it wraps.
    - src/builtins/js_globals/readable-stream.js: [Streams].
    - examples/http-echo/src/index.js: [HttpEcho]; examples/echo/app/app.js: [EchoApp].
    - test-suite/js-test-app/src/test-utils.js and main.js: [TestSuite], with the tests
      whose bodies answer promises in [PromiseTest] and [delay] and [flushAsyncEvents]
      in [Timers]; in test-files/, 18-event.js, which runs on [Event]: [EventTest];
      16.1-crypto-hmac.js: [HmacTest]; 16.2-crypto-sha.js: [ShaTest]; 16-crypto.js:
      [UuidTest]; 15-timers.js: [TimerTest]; 19-abort.js: [AbortTest];
      8.1-search-params.js: [UrlTest]; 14-form-data.js: [FormTest];
      12.3-text-decoder-stream.js: [DecoderTest]; 17-cache.js: its helpers in
      [CacheTest], its tests in [CacheSuite], all of it in [CacheRun]; the transformers
      of 12.1-transform-stream.js and the test of a case: [LipFuzz]; 2-blob.js,
      2.1-file.js, 5-response.js, 6-text-encoder.js, 7-text-decoder.js, 8-url.js,
      10-atob-btoa.js and 11-fetch.js: [NativeTests]; 3-headers.js and
      11.1-fetch-body.js: [BodyTests].

    The test files with promises run on [Async]: a promise is a chain of turns on a
    shared state, [then_] and [await_call] make longer chains of shorter ones, and
    [step] lets any chain of a pool take the next turn.  [settles] says of a chain
    what it comes to whatever the others do to the state, as far as a relation
    between states allows; [common_results] carries that over every run.
    [ByteBuffers] has the typed arrays and array buffers of the crypto tests.  In
    [Timers] the pending timers are a list in the order they were started, and a
    turn fires one of them; [TimerTest] runs its tests on it.

    The tests of [UrlTest], [FormTest], [DecoderTest] and [CacheSuite] are [Script]s:
    programs that ask operations of native classes and go on with the answers, their
    objects numbered in the order the operations hand them out.  An implementation runs
    a script with a state of its own; [UrlSpec], [FormSpec], [DecoderSpec] and
    [CacheSpec] are documented behaviours of the operations, on lists of pairs, of
    entries, of bytes to decode, and of requests with their responses, and an
    implementation [agrees] with one when related states answer alike wherever the
    specification says what the answer is; where the standards leave a choice, or where a
    specification would have to go into what no test needs, it says nothing.  A script then does on the implementation
    what it does on the specification ([script_refines]).  An operation whose answer is
    a promise stands for the call and the wait; the calls of a [Promise.all] are made in
    order; and the one test that is not waited for takes its turns before the next test
    begins.

    Below them, [Prelude] holds the monad of computations that update a state and
    may throw, the tactics and the lemmas on lists and integers; [JsNumber] the
    Numbers, which are the binary64 values of the Standard Library's [SpecFloat]
    with its correctly rounded operations, and the lemmas that make integer and
    dyadic arithmetic exact; [Rounding] what a sum gives that is not exact;
    [JsValue] the values, strings (lists of UTF-16 code units), errors and the
    store.

    The store maps array buffers to bytes, and a Buffer is a window on one of them,
    so slices alias their parent as they do in the sources; methods take their
    arguments as JavaScript values wherever the code inspects them, and throw the
    errors of the sources as values, with their messages as lists of parts.
    Definitions carry the names of the functions they model.  A file
    [XFacts] holds the lemmas and theorems on the definitions of [X].

    ** What the theorems show

    - Memory ([BufferSafety]): the store stays well formed and every view stays in
      its array buffer in every state that calls of Buffer methods reach, on
      arguments of any type; no call writes outside the views it may write to.
      Two sets of lemmas, in the hint databases [reads] and [safe], say so of every
      helper; the theorem is an induction over the calls.
    - Types ([BufferTypes]): in those states every call that answers answers a value
      of its type, read as the set of its values: Buffers, integers in the range of
      an accessor, offsets inside the Buffer, texts well written in their encoding.
    - Integers ([BufferIntFacts]): all 36 accessors read and write two's complement
      words, least or most significant byte first, between the bounds the code
      checks, with the exact error of each failing check; reading gives back what
      was written.
    - Floating point ([Ieee754Facts], [Ieee754Single]): reads give the IEEE 754
      value of the bytes; a write stores the nearest word (the larger magnitude at
      a tie in single precision, which is not what IEEE 754 asks for) with overflow
      to infinity and gradual underflow; representable values round-trip.
    - Text ([EncodingFacts], [Codecs], [BufferCoreFacts], [BufferOpsFacts]): the
      UTF-8 decoder against an inductive definition of maximal well-formed
      sequences, the encoder against the scalar values of the string, base64
      against a decoder of sextets.  The class [TextCodec] states what a Buffer
      relies on of an encoding, the six encodings are its instances, and the round
      trips through [from] and [toString] are proved from the class.
    - Buffers as byte strings ([BufferCoreFacts], [BufferOpsFacts],
      [BufferSearchFacts]): each method has an equation on the bytes before and
      after it, on every branch: clipping, overlap, truncation, padding, errors.
    - Events ([EventFacts]): listener lists hold no duplicates in any reachable
      state; adding and removing; the order, the end and the errors of a dispatch,
      whatever the listeners do; [composedPath] against a specification by nesting
      depth.
    - Context ([AsyncFacts], [AsyncSpec]): the frame stack is balanced whatever is
      thrown; bound functions, timers and promise reactions see the context of
      their creation; programs over storages and resources compute what their
      meaning over plain environments says (a refinement, proved by simulation).
    - Applications ([HttpEchoFacts], [EchoApp]): JSON responses read back with a
      parser written from the grammar; the pages of echo.
    - The test suite ([TestFacts], [EventTest], [Timers]): the life of an asynchronous
      test, whose flag says when its promise has settled and which does nothing after
      that; routes exclude each other; the library passes its test of events;
      [flushAsyncEvents] waits for the one-shot timers that are due and for three
      generations of timers that their callbacks start.
    - What the tests accept ([HmacFacts], [ShaFacts], [UuidFacts], [TimerFacts],
      [AbortFacts]): each answers a success exactly when the native functions do what it
      is about, or whenever they do what is documented.  The 32 chains of the HMAC test
      share the key of their vector and run in any order, and the answer is the same in
      all of them; it always comes, and so does that of the timers ([runs_end] by a
      well-founded order on pools, [explore] by running every order of events).
    - Whole tests against a specification ([UrlFacts], [FormFacts], [DecoderFacts],
      [CacheRunFacts]): what the tests of search parameters, of form data, of decoder
      streams and of the cache answer on every implementation that agrees with what is
      documented (refinements): a success, for form data when a renamed File keeps its
      time and for the cache when a default cache is listed, and otherwise 500; what the
      loops over the entries of an object accept.
    - The helpers of the cache test ([CacheFacts]): the comparisons of arrays, and a
      cache filled in advance does what its code says without promises.

    - Small tests ([NativeFacts], [BodyFacts]): each answers a success exactly when the
      native functions answer its calls as stated, and the test of headers, on documented
      headers, with the text and the headers of the first route that the path contains; no class whose hosts show their ports passes the test of [URL].
    - The transformer of the transform stream tests ([LipFuzzFacts]): it replaces the
      tags of a text however the text is cut, as long as its index of the end of the
      last substitution is right, which it is not after substitutions of another
      length than their tags.

    ** Recursion and its bounds

    Loops over a list or a count are structural.  The others run on fuel, and the
    theorems that use them show it is enough: [utf8_slice_loop] and the conversions
    of digits get the number of elements left; [pad4] at most three turns; [shift_in],
    [put_mantissa] and [put_exponent] the number of bytes; the searches of
    [BufferOps] [search_fuel], more than the turns between the offset and either
    end; the readers of a stream ([for_await], [read_all]) one more than the
    chunks; [for_of] any number of turns from fifteen on in [UrlTest], six in
    [FormTest]; [decode_chunks] one more than the pieces of ten units; a loop of these
    two kinds that has not ended by then fails, so that a success says that all loops
    ended; [replace_tags] one more than the text; the JSON parser the size of the value; [explore] the longest
    order of timers.  Promises need none: a chain is a finite tree of turns.

    ** What is assumed of code that is not here

    Native code is an argument: [Math.log] (its quotient by [Math.LN2] gives the binary
    exponent up to one: [log_estimate], [log_close]; the logarithm of 0 is minus
    infinity; [Ieee754Single.sample_log_close] shows a function that meets this for
    every Number), the functions a program registers as listeners, callbacks and timers,
    [AbortSignal], the state of a promise, the original timer functions, [eval], [URL],
    the reader of a stream, and the page template of echo. [crypto.subtle] answers what
    it likes of the bytes a buffer held at the call and at the end, a signature or a
    digest being bytes; [crypto.randomUUID] and [crypto.getRandomValues] what they like;
    a [service] of timers is [documented] when it clears what it is told to, takes a
    missing delay for 0 and fires no timer before an earlier one of the same delay or a
    shorter one; [AbortController] and [AbortSignal] are arguments in their test,
    [documented] when a signal is live until it is aborted and keeps its first reason;
    the message of the errors the runtime aborts with is a parameter, since the
    standard fixes their name only.
    The classes [URLSearchParams], [URL], [FormData], [Blob], [File] and
    [TextDecoderStream], the global [caches], [fetch] and the classes of requests and
    responses are implementations of operations; [url_standard], [form_standard],
    [decoder_standard] and [cache_standard] follow the standards the tests are taken
    from, and say nothing of inputs that need more than the model has: Numbers past
    2^53, characters that are encoded differently from one kind of URL to another, names
    and values of headers out of their grammar, addresses of other shapes than those of
    the tests.  [form_standard] takes the clock, which is steady ([steady_clock]: two
    readings in a row are less than a fifth of a second apart), and the time of a
    renamed File as parameters; [cache_standard] takes the [backend]: the address at
    which it serves, the type its responses show and whether they show the phrases of
    their status, and the state a run begins in lists a default cache among the names
    or does not ([fresh_storage]).  The backend answers with exactly the status, the
    Vary header and the content type asked for; the theorem is for two addresses and
    three types.  Documented headers ([documented_headers]) are maps on names and
    values of letters and hyphens. [Math.pow(2, k)] is
    exact.

    ** Limits of the model

    An object used as a Number is NaN: its conversion methods are not run.  A numeric
    argument given as a string is read as a Number where the code would concatenate.
    There are no SharedArrayBuffer and DataView values, no foreign objects with an
    [_isBuffer] of their own and no values that contain themselves; array buffers have
    less than 2^31 bytes.  An interval keeps its delay when it repeats, without the least
    delay of nested timers.  The byte length of the variable-width signed accessors is
    whole.  Letters are lower-cased in ASCII. In error messages a Number past 2^53 stays
    the Number, and quotation marks are left out.  The table of the transformer has its
    own properties only, not those an object inherits.  The assertions of the cache test
    compare objects of the three classes and primitive values.  Option dictionaries do
    not change after they are passed; event types are strings.  The stack of contexts is
    a list with its top first.  Loose equality in the test helpers is that of primitive
    values.

    ** Not modelled

    The Rust runtime (server, request loop, runners, fetch, cache, crypto, module
    loader), which is foreign calls in another language; core.js, which re-exports
    native functions; the feature test and the stack traces of buffer.js; the
    tests of 12.1-transform-stream.js but for the one of a case, and the other test
    files, which are calls of native functions with assertions on the results;
    benchmarks. *)

From stdpp Require Import base numbers list.

Local Open Scope Z_scope.

(** ** Computations that update a state and may throw

    A JavaScript function that mutates shared state and may throw is a
    [comp S E A]: it maps a state to the state it leaves behind and either a
    result or a thrown value.  The state survives a [throw], as the effects of
    a JavaScript function do. *)

Inductive outcome (E A : Type) : Type :=
| Ok (a : A)
| Throw (e : E).
Arguments Ok {E A} a.
Arguments Throw {E A} e.

Definition comp (S E A : Type) : Type := S -> S * outcome E A.

Definition ret {S E A} (a : A) : comp S E A := fun s => (s, Ok a).
Definition throw {S E A} (e : E) : comp S E A := fun s => (s, Throw e).
Definition bind {S E A B} (m : comp S E A) (f : A -> comp S E B) : comp S E B :=
  fun s => match m s with
           | (s', Ok a) => f a s'
           | (s', Throw e) => (s', Throw e)
           end.
Definition read {S E A} (f : S -> A) : comp S E A := fun s => (s, Ok (f s)).
Definition modify {S E} (f : S -> S) : comp S E unit := fun s => (f s, Ok tt).

(** [try { m } finally { f }]. *)
Definition try_finally {S E A} (m : comp S E A) (f : comp S E unit) : comp S E A :=
  fun s => match m s with
           | (s', r) => match f s' with
                        | (s'', Ok _) => (s'', r)
                        | (s'', Throw e) => (s'', Throw e)
                        end
           end.

Declare Scope js_scope.
Delimit Scope js_scope with js.
Notation "'let!' x := m 'in' k" := (bind m (fun x => k))
  (at level 10, x name, m at level 100, k at level 200) : js_scope.
Notation "'do!' m 'in' k" := (bind m (fun _ => k))
  (at level 10, m at level 100, k at level 200) : js_scope.

Lemma bind_ok {S E A B} (m : comp S E A) (f : A -> comp S E B) s s' a :
  m s = (s', Ok a) -> bind m f s = f a s'.
Proof. intros H. unfold bind. rewrite H. reflexivity. Qed.

Lemma bind_throw {S E A B} (m : comp S E A) (f : A -> comp S E B) s s' e :
  m s = (s', Throw e) -> bind m f s = (s', Throw e).
Proof. intros H. unfold bind. rewrite H. reflexivity. Qed.

Lemma bind_assoc {S E A B C} (m : comp S E A) (f : A -> comp S E B) (g : B -> comp S E C) s :
  bind (bind m f) g s = bind m (fun a => bind (f a) g) s.
Proof. unfold bind. destruct (m s) as [s' [a|e]]; reflexivity. Qed.

(** ** Automation

    [js_run] holds the run equations of the primitive operations: each lemma
    concludes [m s = (s', Ok a)] or [m s = (s', Throw e)]. *)
Create HintDb js_run.

(** Run the first computation of a [bind] with an equation from [js_run]. *)
Ltac run1 :=
  first [ erewrite bind_ok by (eauto with js_run) | erewrite bind_throw by (eauto with js_run) ].

(** Decide the boolean comparisons of the goal that [lia] settles. *)
Ltac zbool :=
  repeat match goal with
  | |- context [?a <? ?b] =>
      first [ rewrite (proj2 (Z.ltb_lt a b)) by lia | rewrite (proj2 (Z.ltb_ge a b)) by lia ]
  | |- context [?a <=? ?b] =>
      first [ rewrite (proj2 (Z.leb_le a b)) by lia | rewrite (proj2 (Z.leb_gt a b)) by lia ]
  | |- context [?a =? ?b] =>
      first [ rewrite (proj2 (Z.eqb_eq a b)) by lia | rewrite (proj2 (Z.eqb_neq a b)) by lia ]
  end.

(** ** Bytes and little-endian values *)

Definition byte (z : Z) : Prop := 0 <= z < 256.

(** The value of a byte string, least significant byte first. *)
Fixpoint le_val (l : list Z) : Z :=
  match l with [] => 0 | b :: l' => b + 256 * le_val l' end.

(** The [n] low bytes of [z], least significant first. *)
Fixpoint le_split (n : nat) (z : Z) : list Z :=
  match n with O => [] | S n' => z mod 256 :: le_split n' (z / 256) end.

Lemma le_split_length n z : length (le_split n z) = n.
Proof. revert z. induction n as [|n IH]; intros z; simpl; [reflexivity|]. f_equal. apply IH. Qed.

Lemma le_split_bytes n z : Forall byte (le_split n z).
Proof.
  revert z. induction n as [|n IH]; intros z; simpl; constructor; [|apply IH].
  apply Z.mod_pos_bound. lia.
Qed.

Lemma le_val_split n z : le_val (le_split n z) = z mod 256 ^ Z.of_nat n.
Proof.
  revert z. induction n as [|n IH]; intros z; cbn [le_val le_split].
  - symmetry. apply Z.mod_1_r.
  - rewrite IH, Nat2Z.inj_succ, Z.pow_succ_r by lia.
    rewrite (Z.mul_comm 256 (256 ^ _)), Z.mul_comm.
    assert (0 < 256 ^ Z.of_nat n) by (apply Z.pow_pos_nonneg; lia).
    rewrite (Z.mul_comm (256 ^ _) 256), Z.rem_mul_r by lia. lia.
Qed.

Lemma le_split_val l : Forall byte l -> le_split (length l) (le_val l) = l.
Proof.
  induction 1 as [|b l Hb _ IH]; cbn [le_val le_split length]; [reflexivity|].
  unfold byte in Hb. f_equal.
  - rewrite (Z.mul_comm 256), Z.mod_add by lia. apply Z.mod_small. exact Hb.
  - rewrite (Z.mul_comm 256), Z.div_add by lia. rewrite Z.div_small by exact Hb. exact IH.
Qed.

Lemma le_val_bounds l : Forall byte l -> 0 <= le_val l < 256 ^ Z.of_nat (length l).
Proof.
  intros H. rewrite <- (le_split_val l H) at 1 2. rewrite le_val_split.
  apply Z.mod_pos_bound, Z.pow_pos_nonneg; lia.
Qed.

Lemma le_val_app l1 l2 : le_val (l1 ++ l2) = le_val l1 + 256 ^ Z.of_nat (length l1) * le_val l2.
Proof.
  induction l1 as [|b l IH]; cbn [le_val app length]; [lia|].
  rewrite IH, Nat2Z.inj_succ, Z.pow_succ_r by lia. ring.
Qed.

Lemma le_split_mod n z : le_split n (z mod 256 ^ Z.of_nat n) = le_split n z.
Proof.
  rewrite <- le_val_split. rewrite <- (le_split_length n z) at 1.
  apply le_split_val, le_split_bytes.
Qed.

Lemma le_split_snoc n z : le_split (S n) z = le_split n z ++ [(z / 256 ^ Z.of_nat n) mod 256].
Proof.
  revert z. induction n as [|n IH]; intros z.
  - cbn [le_split app]. rewrite Z.pow_0_r, Z.div_1_r. reflexivity.
  - change (le_split (S (S n)) z) with (z mod 256 :: le_split (S n) (z / 256)). rewrite IH.
    cbn [le_split app]. rewrite Nat2Z.inj_succ, Z.pow_succ_r by lia.
    rewrite Z.div_div by (try apply Z.pow_pos_nonneg; lia). reflexivity.
Qed.

(** ** Lists *)

(** [l[i]] for an integer index; [None] is JavaScript's [undefined]. *)
Definition zget {A} (l : list A) (i : Z) : option A :=
  if 0 <=? i then l !! Z.to_nat i else None.

Lemma zget_nat {A} (l : list A) (i : nat) : zget l (Z.of_nat i) = l !! i.
Proof. unfold zget. rewrite (proj2 (Z.leb_le _ _)) by lia. rewrite Nat2Z.id. reflexivity. Qed.

Lemma zget_cons {A} (x : A) l i : 0 < i -> zget (x :: l) i = zget l (i - 1).
Proof.
  intros Hi. unfold zget. rewrite !(proj2 (Z.leb_le _ _)) by lia.
  replace (Z.to_nat i) with (S (Z.to_nat (i - 1))) by lia. reflexivity.
Qed.

Lemma zget_app_l {A} (l k : list A) i : i < Z.of_nat (length l) -> zget (l ++ k) i = zget l i.
Proof.
  intros H. unfold zget. destruct (Z.leb_spec 0 i); [|reflexivity].
  apply lookup_app_l. lia.
Qed.

Lemma zget_app_r {A} (l k : list A) i :
  Z.of_nat (length l) <= i -> zget (l ++ k) i = zget k (i - Z.of_nat (length l)).
Proof.
  intros H. unfold zget. rewrite !(proj2 (Z.leb_le _ _)) by lia.
  rewrite lookup_app_r by lia. f_equal. lia.
Qed.

Lemma Forall_byte_lookup l i b : Forall byte l -> l !! i = Some b -> byte b.
Proof. intros H Hi. eapply Forall_lookup_1; eassumption. Qed.

Lemma list_inserts_overwrite {A} i (k l l' : list A) :
  (length k + i <= length l)%nat -> l' = take i l ++ k ++ drop (i + length k) l ->
  list_inserts i k l = l'.
Proof.
  intros Hl ->. apply list_eq. intros j.
  destruct (decide (j < i)%nat) as [H1|H1].
  - rewrite list_lookup_inserts_lt by lia. rewrite lookup_app_l by (rewrite length_take; lia).
    rewrite lookup_take_lt by lia. reflexivity.
  - rewrite lookup_app_r by (rewrite length_take; lia). rewrite length_take.
    replace (j - i `min` length l)%nat with (j - i)%nat by lia.
    destruct (decide (j < i + length k)%nat) as [H2|H2].
    + rewrite list_lookup_inserts by lia. rewrite lookup_app_l by lia. reflexivity.
    + rewrite list_lookup_inserts_ge by lia. rewrite lookup_app_r by lia.
      rewrite lookup_drop. f_equal. lia.
Qed.

(** ** Bit operations as arithmetic *)

Lemma testbit_above a k i : 0 <= a < 2 ^ k -> 0 <= k <= i -> Z.testbit a i = false.
Proof.
  intros Ha Hi. rewrite <- (Z.mod_small a (2 ^ k)) by exact Ha. apply Z.mod_pow2_bits_high. lia.
Qed.

Lemma lor_disjoint a b k :
  0 <= k -> 0 <= b < 2 ^ k -> Z.lor (a * 2 ^ k) b = a * 2 ^ k + b.
Proof.
  intros Hk Hb. rewrite <- Z.add_lor_land.
  enough (Z.land (a * 2 ^ k) b = 0) as -> by lia.
  apply Z.bits_inj'. intros i Hi. rewrite Z.land_spec, Z.bits_0.
  destruct (Z.lt_ge_cases i k).
  - rewrite Z.mul_pow2_bits_low by lia. reflexivity.
  - rewrite (testbit_above b k) by lia. apply andb_false_r.
Qed.

Lemma land_mask x k : 0 <= k -> Z.land x (2 ^ k - 1) = x mod 2 ^ k.
Proof. intros Hk. rewrite <- Z.land_ones by exact Hk. rewrite Z.ones_equiv. reflexivity. Qed.

Lemma land_63 x : Z.land x 63 = x mod 64.
Proof. apply (land_mask x 6). lia. Qed.
Lemma land_255 x : Z.land x 255 = x mod 256.
Proof. apply (land_mask x 8). lia. Qed.

(** ** Counted loops

    [indices lo hi step] lists the values [i] takes in
    [for (let i = lo; i < hi; i += step)] when the body leaves [i] alone. *)

Definition indices (lo hi step : Z) : list Z :=
  (fun k => lo + step * Z.of_nat k) <$> seq 0 (Z.to_nat ((hi - lo + step - 1) / step)).

(** The loop itself, as a function of the state its body updates. *)
Definition for_range {S} (lo hi step : Z) (body : Z -> S -> S) (s : S) : S :=
  fold_left (fun s i => body i s) (indices lo hi step) s.

Fixpoint for_each {S E} (l : list Z) (body : Z -> comp S E unit) : comp S E unit :=
  match l with
  | [] => ret tt
  | i :: l' => bind (body i) (fun _ => for_each l' body)
  end.

Lemma indices_nil lo hi step : 0 < step -> hi <= lo -> indices lo hi step = [].
Proof.
  intros Hs H. unfold indices.
  replace (Z.to_nat ((hi - lo + step - 1) / step)) with O; [reflexivity|].
  assert ((hi - lo + step - 1) / step < 1) by (apply Z.div_lt_upper_bound; lia). lia.
Qed.

Lemma indices_cons lo hi step :
  0 < step -> lo < hi -> indices lo hi step = lo :: indices (lo + step) hi step.
Proof.
  intros Hs H. unfold indices.
  set (n := (hi - (lo + step) + step - 1) / step).
  assert (0 <= n) by (apply Z.div_pos; lia).
  replace ((hi - lo + step - 1) / step) with (n + 1).
  - replace (Z.to_nat (n + 1)) with (S (Z.to_nat n)) by lia. cbn [seq fmap list_fmap].
    f_equal; [lia|]. rewrite <- fmap_S_seq, <- list_fmap_compose. apply list_fmap_ext.
    intros i k _. unfold compose. lia.
  - unfold n. rewrite <- Z.div_add by lia. f_equal. lia.
Qed.

Lemma indices_app lo n hi step :
  0 < step -> 0 <= n -> lo + step * n <= hi ->
  indices lo hi step = indices lo (lo + step * n) step ++ indices (lo + step * n) hi step.
Proof.
  intros Hs Hn H. revert lo H. pattern n. apply natlike_ind; [| |exact Hn].
  - intros lo _. rewrite Z.mul_0_r, Z.add_0_r. rewrite (indices_nil lo lo) by lia. reflexivity.
  - intros m Hm IH lo H. rewrite (indices_cons lo hi) by nia.
    rewrite (indices_cons lo (lo + step * Z.succ m)) by nia.
    rewrite IH by lia. cbn [app].
    replace (lo + step + step * m) with (lo + step * Z.succ m) by lia. reflexivity.
Qed.

Lemma indices_shift lo hi step d :
  indices (lo + d) (hi + d) step = (fun i => i + d) <$> indices lo hi step.
Proof.
  unfold indices. rewrite <- list_fmap_compose.
  replace (hi + d - (lo + d)) with (hi - lo) by lia.
  apply list_fmap_ext. intros i k _. unfold compose. lia.
Qed.

Lemma elem_of_indices lo hi step i :
  0 < step -> i ∈ indices lo hi step -> lo <= i < hi.
Proof.
  intros Hs H. unfold indices in H. apply list_elem_of_fmap in H as (k & -> & H).
  apply elem_of_seq in H. pose proof (Z.mul_div_le (hi - lo + step - 1) step Hs).
  set (q := (hi - lo + step - 1) / step) in *. nia.
Qed.

Lemma elem_of_indices_1 lo hi i : lo <= i < hi -> i ∈ indices lo hi 1.
Proof.
  intros H. unfold indices. apply list_elem_of_fmap. exists (Z.to_nat (i - lo)).
  split; [cbv beta; lia|]. apply elem_of_seq. rewrite Z.div_1_r. lia.
Qed.

(** A loop that only pushes is a map. *)
Lemma for_range_push {A} lo hi step (f : Z -> A) acc :
  for_range lo hi step (fun i out => out ++ [f i]) acc = acc ++ map f (indices lo hi step).
Proof.
  unfold for_range. revert acc. induction (indices lo hi step) as [|i l IH]; intros acc; cbn.
  - rewrite app_nil_r. reflexivity.
  - rewrite IH, <- app_assoc. reflexivity.
Qed.

Lemma indices_count lo hi hi' step :
  (hi - lo + step - 1) / step = (hi' - lo + step - 1) / step ->
  indices lo hi step = indices lo hi' step.
Proof. intros E. unfold indices. rewrite E. reflexivity. Qed.

(** A counted loop whose [j]-th turn takes the state [st j] to [st (j + 1)]. *)
Lemma for_each_steps {S E} (body : Z -> comp S E unit) (st : nat -> S) step n : 0 < step ->
  forall lo, (forall j, (j < n)%nat -> body (lo + step * Z.of_nat j) (st j) = (st (Datatypes.S j), Ok tt)) ->
  for_each (indices lo (lo + step * Z.of_nat n) step) body (st 0%nat) = (st n, Ok tt).
Proof.
  intros Hs. revert st. induction n as [|n IH]; intros st lo H.
  - rewrite indices_nil by lia. reflexivity.
  - rewrite indices_cons by lia. cbn [for_each].
    pose proof (H 0%nat ltac:(lia)) as H0. rewrite Z.mul_0_r, Z.add_0_r in H0. rewrite (bind_ok _ _ _ _ _ H0).
    replace (lo + step * Z.of_nat (Datatypes.S n)) with (lo + step + step * Z.of_nat n) by lia.
    apply (IH (fun j => st (Datatypes.S j))). intros j Hj. rewrite <- (H (Datatypes.S j)) by lia. f_equal. lia.
Qed.

Lemma land_shifted a m k : 0 <= k -> Z.land (a * 2 ^ k) (m * 2 ^ k) = Z.land a m * 2 ^ k.
Proof.
  intros Hk. rewrite <- !Z.shiftl_mul_pow2 by exact Hk. rewrite Z.shiftl_land. reflexivity.
Qed.
