(* ===== verification/Async.v ===== *)
(** Promises: chains of callbacks that run one turn at a time on a shared state,
    the interleavings of several chains, and what every interleaving has in
    common.

    A turn of the event loop runs one callback to its end.  Which promise
    settles first is not fixed: [step] lets any chain that has not settled take
    the next turn, so what holds for every run of [step] holds for the order the
    engine chooses. *)

From stdpp Require Import base list relations.
From S2P Require Import Prelude.

Local Open Scope js_scope.

(** A promise: settled, or waiting for a later turn, which acts on the state and
    leaves another promise. *)
#[warnings="-register-all"]
Inductive async (S E A : Type) : Type :=
| Settled (r : outcome E A)
| Turn (k : S -> S * async S E A).
Arguments Settled {S E A} r.
Arguments Turn {S E A} k.

(** A function that answers a promise: what it does before it returns. *)
Abbreviation starts S E A := (S -> S * async S E A).

Section Chains.
Context {S E : Type}.

(** Code that runs at once, and whose result or exception is the promise's. *)
Definition at_once {A} (m : comp S E A) : starts S E A := fun s => let '(s', r) := m s in (s', Settled r).

(** A native operation: its promise settles in a later turn, with a result that
    may depend on the state then. *)
Definition native {A} (f : S -> S * outcome E A) : async S E A :=
  Turn (fun s => let '(s', r) := f s in (s', Settled r)).

(** [p.then(onFulfilled, onRejected)]: the callback runs in a later turn than the
    one that settles [p], and answers a promise, which the result follows. *)
Fixpoint then_ {A B} (p : async S E A) (onFulfilled : A -> starts S E B) (onRejected : E -> starts S E B) : async S E B :=
  match p with
  | Settled (Ok a) => Turn (onFulfilled a)
  | Settled (Throw e) => Turn (onRejected e)
  | Turn k => Turn (fun s => let '(s', p') := k s in (s', then_ p' onFulfilled onRejected))
  end.

Definition rethrow {A} (e : E) : starts S E A := at_once (throw e).

(** [p.then(f)], and [await p] followed by [f]. *)
Definition and_then {A B} (p : async S E A) (f : A -> starts S E B) : async S E B := then_ p f rethrow.

(** A call of a function that answers a promise, then [await]. *)
Definition await_call {A B} (f : starts S E A) (k : A -> starts S E B) : starts S E B :=
  fun s => let '(s', p) := f s in (s', and_then p k).

(** [do] the first part at once, then the rest. *)
Definition first {A B} (m : comp S E A) (k : A -> starts S E B) : starts S E B :=
  fun s => match m s with
           | (s', Ok a) => k a s'
           | (s', Throw e) => (s', Settled (Throw e))
           end.

(** A promise alone in the event loop: its turns one after another. *)
Fixpoint settle_alone {A} (p : async S E A) : comp S E A :=
  match p with
  | Settled r => fun s => (s, r)
  | Turn k => fun s => let '(s', p') := k s in settle_alone p' s'
  end.

(** ** The event loop *)

Record pool (A : Type) : Type := Pool { shared : S; promises : list (async S E A) }.
Arguments Pool {A} shared promises.
Arguments shared {A} p.
Arguments promises {A} p.

(** Any promise that has not settled takes the next turn. *)
Inductive step {A} : pool A -> pool A -> Prop :=
| step_turn s ps i k s' p' :
    ps !! i = Some (Turn k) -> k s = (s', p') -> step (Pool s ps) (Pool s' (<[i := p']> ps)).

(** [for (let p of ps) await p]: the first rejection in the order of the list, as
    soon as everything before it has settled. *)
Fixpoint await_each {A} (ps : list (async S E A)) : option (outcome E unit) :=
  match ps with
  | [] => Some (Ok tt)
  | Settled (Ok _) :: ps => await_each ps
  | Settled (Throw e) :: _ => Some (Throw e)
  | Turn _ :: _ => None
  end.

(** The same on results. *)
Fixpoint first_failure {A} (rs : list (outcome E A)) : outcome E unit :=
  match rs with
  | [] => Ok tt
  | Ok _ :: rs => first_failure rs
  | Throw e :: _ => Throw e
  end.

Lemma await_each_settled {A} (rs : list (outcome E A)) : await_each (Settled <$> rs) = Some (first_failure rs).
Proof. induction rs as [|[a|e] rs IH]; cbn; [reflexivity|exact IH|reflexivity]. Qed.

Lemma first_failure_ok {A} (rs : list (outcome E A)) :
  first_failure rs = Ok tt <-> Forall (fun r => exists a, r = Ok a) rs.
Proof.
  induction rs as [|[a|e] rs IH]; cbn; [split; [constructor|reflexivity]|..].
  - rewrite IH, Forall_cons. split; [intros H; split; [eauto|exact H]|intros [_ H]; exact H].
  - rewrite Forall_cons. split; [discriminate|intros [[a H] _]; discriminate].
Qed.

(** ** Every run ends *)

(** What a turn leaves of a promise. *)
Definition next_of {A} (p' p : async S E A) : Prop := exists k s s', p = Turn k /\ k s = (s', p').

Lemma next_of_wf {A} : well_founded (@next_of A).
Proof.
  unfold well_founded. fix IH 1. intros p. constructor. intros p' H. destruct p as [r|k].
  - destruct H as (k & s & s' & E' & _). discriminate.
  - destruct H as (k' & s & s' & E' & H). injection E' as <-. specialize (IH (k s).2). rewrite H in IH. exact IH.
Qed.

(** One promise of a list took a turn. *)
Definition one_next {A} (qs ps : list (async S E A)) : Prop :=
  exists i p p', ps !! i = Some p /\ next_of p' p /\ qs = <[i := p']> ps.

Lemma one_next_acc {A} (ps : list (async S E A)) : Acc one_next ps.
Proof.
  induction ps as [|p ps IH].
  { constructor. intros qs (i & p & p' & H & _). discriminate. }
  revert ps IH. induction p as [p IHp] using (well_founded_induction next_of_wf).
  intros ps H. induction H as [ps Hps IHps]. constructor. intros qs (i & q & q' & Hi & Hn & ->).
  destruct i as [|i]; cbn in Hi |- *.
  - injection Hi as <-. apply IHp; [exact Hn|]. constructor. exact Hps.
  - apply IHps. exists i, q, q'. auto.
Qed.

(** No run goes on for ever, whatever order the promises settle in... *)
Theorem runs_end {A} (P : pool A) : sn step P.
Proof.
  destruct P as [s ps]. revert s. induction (one_next_acc ps) as [ps _ IH]. intros s. constructor.
  intros Q H. unfold flip in H. inversion H as [s0 ps0 i k s' p' Hi Hk E1]; subst. apply IH.
  exists i, (Turn k), p'. split; [exact Hi|]. split; [|reflexivity]. exists k, s, s'. auto.
Qed.

Definition is_settled {A} (p : async S E A) : Prop := exists r, p = Settled r.

Lemma settled_list {A} (ps : list (async S E A)) : Forall is_settled ps <-> exists rs, ps = Settled <$> rs.
Proof.
  split.
  - induction 1 as [|p ps [r ->] _ [rs ->]]; [exists []; reflexivity|exists (r :: rs); reflexivity].
  - intros [rs ->]. apply Forall_fmap, Forall_forall. intros r _. exists r. reflexivity.
Qed.

(** ... and a run that cannot go on has settled every promise. *)
Lemma ended {A} (P : pool A) : nf step P <-> Forall is_settled (promises P).
Proof.
  destruct P as [s ps]. cbn. split.
  - intros H. apply Forall_lookup. intros i [r|k] Hi; [exists r; reflexivity|]. exfalso. apply H.
    destruct (k s) as [s' p'] eqn:Hk. eexists. econstructor; eassumption.
  - intros H [Q St]. inversion St as [s0 ps0 i k s' p' Hi Hk E1]; subst.
    rewrite Forall_lookup in H. destruct (H i _ Hi). discriminate.
Qed.

Lemma progress {A} (P : pool A) : nf step P \/ red step P.
Proof.
  destruct P as [s ps]. rewrite ended. cbn.
  assert (D : Forall is_settled ps \/ exists i k, ps !! i = Some (Turn k)).
  { induction ps as [|[r|k] ps [IH|(i & k' & IH)]].
    - left. constructor.
    - left. constructor; [exists r; reflexivity|exact IH].
    - right. exists (Datatypes.S i), k'. exact IH.
    - right. exists 0, k. reflexivity.
    - right. exists (Datatypes.S i), k'. exact IH. }
  destruct D as [D|(i & k & Hi)]; [left; exact D|right]. destruct (k s) as [s' p'] eqn:Hk. eexists. econstructor; eassumption.
Qed.

(** A run can always be continued to its end. *)
Lemma finishes {A} (P : pool A) : exists Q, rtc step P Q /\ nf step Q.
Proof.
  induction (runs_end P) as [P _ IH]. pose proof (progress P) as D.
  destruct D as [N|[P' St]]; [exists P; split; [constructor|exact N]|].
  destruct (IH P' St) as (Q & R & N). exists Q. split; [econstructor; eassumption|exact N].
Qed.

(** ** What every interleaving has in common

    [inv] holds between turns, and [later s s'] says what the other promises may
    have done to the state in between. *)
Section Common.
Context (inv : S -> Prop) (later : relation S) `{!PreOrder later}.

(** What stays true whatever the others do. *)
Definition stable (post : S -> Prop) : Prop := forall s s', later s s' -> post s -> post s'.

(** The promise settles with [r], in a state where [post] holds, whatever else
    runs, and its turns do to the state what [later] allows. *)
Inductive settles {A} (post : S -> Prop) : S -> async S E A -> outcome E A -> Prop :=
| settles_now s r : post s -> settles post s (Settled r) r
| settles_later s k r :
    (forall s1, later s s1 -> inv s1 -> forall s2 p, k s1 = (s2, p) -> later s1 s2 /\ inv s2) ->
    (forall s1, later s s1 -> inv s1 -> forall s2 p, k s1 = (s2, p) -> settles post s2 p r) ->
    settles post s (Turn k) r.

(** A function that answers such a promise. *)
Definition starts_ok {A} (post : S -> Prop) (s0 : S) (f : starts S E A) (r : outcome E A) : Prop :=
  forall s1, later s0 s1 -> inv s1 -> forall s2 p, f s1 = (s2, p) -> later s1 s2 /\ inv s2 /\ settles post s2 p r.

Lemma settles_mono {A} post s s' (p : async S E A) r :
  stable post -> settles post s p r -> later s s' -> settles post s' p r.
Proof.
  intros St H L. destruct H as [s r H|s k r H1 H2]; constructor; [eapply St; eassumption|..]; intros s1 L1;
    [apply H1|apply H2]; etransitivity; eassumption.
Qed.

Lemma settles_turn {A} post s (f : starts S E A) r : starts_ok post s f r -> settles post s (Turn f) r.
Proof. intros H. constructor; intros s1 L I s2 p E1; destruct (H s1 L I s2 p E1) as (? & ? & ?); auto. Qed.

Lemma starts_mono {A} post s s' (f : starts S E A) r : starts_ok post s f r -> later s s' -> starts_ok post s' f r.
Proof. intros H L s1 L1. apply H. etransitivity; eassumption. Qed.

Lemma settles_then {A B} post post' s (p : async S E A) r (f : A -> starts S E B) (g : E -> starts S E B) q :
  settles post s p r ->
  (forall s', later s s' -> post s' ->
     match r with Ok a => starts_ok post' s' (f a) q | Throw e => starts_ok post' s' (g e) q end) ->
  settles post' s (then_ p f g) q.
Proof.
  intros H. induction H as [s r Hp|s k r H _ IH]; intros Hq; cbn.
  - specialize (Hq s ltac:(reflexivity) Hp). destruct r; apply settles_turn, Hq.
  - apply settles_turn. intros s1 L1 I1 s2 p E1. destruct (k s1) as [s2' p'] eqn:Hk. injection E1 as <- <-.
    destruct (H s1 L1 I1 s2' p' Hk) as (L2 & I2). split; [exact L2|]. split; [exact I2|].
    apply (IH s1 L1 I1 s2' p' Hk). intros s' L'. apply Hq. do 2 (etransitivity; [eassumption|]). exact L'.
Qed.

(** In every state a run reaches, the promises still settle with the same results. *)
Lemma common_results {A} post (P Q : pool A) rs : stable post -> rtc step P Q -> inv (shared P) ->
  Forall2 (settles post (shared P)) (promises P) rs ->
  later (shared P) (shared Q) /\ inv (shared Q) /\ Forall2 (settles post (shared Q)) (promises Q) rs.
Proof.
  intros Stb. induction 1 as [P|P P' Q St _ IH]; intros I H; [split; [reflexivity|auto]|].
  assert (N : later (shared P) (shared P') /\ inv (shared P') /\ Forall2 (settles post (shared P')) (promises P') rs).
  { inversion St as [s ps i k s' p' Hi Hk]; subst. cbn in *.
    destruct (Forall2_lookup_l _ _ _ _ _ H Hi) as (r & Hr & K). inversion K as [|? ? ? K1 K2']; subst.
    destruct (K1 s ltac:(reflexivity) I s' p' Hk) as (L & I').
    pose proof (K2' s ltac:(reflexivity) I s' p' Hk) as K2. split; [exact L|]. split; [exact I'|].
    rewrite <- (list_insert_id rs i r Hr). apply Forall2_insert; [|exact K2].
    eapply Forall2_impl; [exact H|]. intros p q Hp. eapply settles_mono; eassumption. }
  destruct N as (L & I' & H'). destruct (IH I' H') as (L2 & I2 & H2). split; [etransitivity; eassumption|auto].
Qed.

(** A run that has ended has given those results. *)
Lemma final_results {A} post (P Q : pool A) rs : stable post -> rtc step P Q -> nf step Q -> inv (shared P) ->
  Forall2 (settles post (shared P)) (promises P) rs -> promises Q = Settled <$> rs.
Proof.
  intros Stb R N I H. destruct (common_results post P Q rs Stb R I H) as (_ & _ & K). apply ended in N.
  revert N. generalize (shared Q), (promises Q), K. clear. intros s ps K.
  induction K as [|p r ps rs K _ IH]; intros N; [reflexivity|]. apply Forall_cons in N as [[r' ->] N].
  cbn. rewrite IH by exact N. inversion K; subst. reflexivity.
Qed.

(** Alone in the event loop it settles with that result too. *)
Lemma settles_alone {A} post s (p : async S E A) r : settles post s p r -> inv s ->
  exists s', settle_alone p s = (s', r) /\ later s s' /\ inv s' /\ post s'.
Proof.
  induction 1 as [s r P|s k r H _ IH]; intros I; cbn; [exists s; split; [reflexivity|]; split; [reflexivity|auto]|].
  destruct (k s) as [s1 p1] eqn:Ek. destruct (H s ltac:(reflexivity) I s1 p1 Ek) as [L I1].
  destruct (IH s ltac:(reflexivity) I s1 p1 Ek I1) as (s2 & E2 & L2 & I2 & P2). exists s2. split; [exact E2|].
  split; [etransitivity; eassumption|auto].
Qed.

(** *** The pieces chains are made of *)

Lemma starts_now {A} post s0 (m : comp S E A) r :
  (forall s1, later s0 s1 -> inv s1 -> exists s2, m s1 = (s2, r) /\ later s1 s2 /\ inv s2 /\ post s2) ->
  starts_ok post s0 (at_once m) r.
Proof.
  intros H s1 L I s2 p E1. destruct (H s1 L I) as (s2' & Em & L2 & I2 & P2). unfold at_once in E1. rewrite Em in E1.
  injection E1 as <- <-. split; [exact L2|]. split; [exact I2|]. constructor. exact P2.
Qed.

(** Code that neither reads nor changes the state. *)
Lemma starts_pure {A} (post : S -> Prop) s0 (r : outcome E A) : stable post -> post s0 -> starts_ok post s0 (at_once (fun s => (s, r))) r.
Proof.
  intros St P. apply starts_now. intros s1 L I. exists s1. split; [reflexivity|]. split; [reflexivity|]. split; [exact I|].
  eapply St; eassumption.
Qed.

Lemma starts_first {A B} post (mid : A -> S -> Prop) s0 (m : comp S E A) (k : A -> starts S E B) r :
  (forall s1, later s0 s1 -> inv s1 -> exists s2 a, m s1 = (s2, Ok a) /\ later s1 s2 /\ inv s2 /\ mid a s2) ->
  (forall a s2, later s0 s2 -> inv s2 -> mid a s2 -> starts_ok post s2 (k a) r) ->
  starts_ok post s0 (first m k) r.
Proof.
  intros Hm Hk s1 L I s3 p E1. destruct (Hm s1 L I) as (s2 & a & Em & L2 & I2 & M). unfold first in E1. rewrite Em in E1.
  assert (L3 : later s0 s2) by (etransitivity; eassumption).
  destruct (Hk a s2 L3 I2 M s2 ltac:(reflexivity) I2 s3 p E1) as (L4 & I4 & H4). split; [etransitivity; eassumption|auto].
Qed.

(** [f().then(g, h)], and [await f()]. *)
Lemma starts_then {A B} post post' s0 (f : starts S E A) r (g : A -> starts S E B) (h : E -> starts S E B) q :
  starts_ok post s0 f r ->
  (forall s, later s0 s -> post s -> match r with Ok a => starts_ok post' s (g a) q | Throw e => starts_ok post' s (h e) q end) ->
  starts_ok post' s0 (fun s => let '(s', p) := f s in (s', then_ p g h)) q.
Proof.
  intros Hf Hg s1 L I s2 p E1. destruct (f s1) as [s2' p'] eqn:Ef. injection E1 as <- <-.
  destruct (Hf s1 L I s2' p' Ef) as (L2 & I2 & H2). split; [exact L2|]. split; [exact I2|].
  eapply settles_then; [exact H2|]. intros s L3. apply Hg. do 2 (etransitivity; [eassumption|]). exact L3.
Qed.

(** [await f()] for one function after the other. *)
Lemma starts_await_call {A B} post post' s0 (f : starts S E A) r (g : A -> starts S E B) (q : outcome E B) :
  starts_ok post s0 f r -> stable post' ->
  match r with
  | Ok a => forall s, later s0 s -> post s -> starts_ok post' s (g a) q
  | Throw e => q = Throw e /\ forall s, post s -> post' s
  end -> starts_ok post' s0 (await_call f g) q.
Proof.
  intros Hf St H. eapply starts_then; [exact Hf|]. intros s L P. destruct r as [a|e]; [apply H; assumption|].
  destruct H as [-> H]. apply starts_pure; [exact St|apply H, P].
Qed.

(** A native operation. *)
Lemma starts_native {A} post s0 (op : S -> S -> S * outcome E A) r :
  (forall s1 s2, later s0 s1 -> inv s1 -> later s1 s2 -> inv s2 ->
     exists s3, op s1 s2 = (s3, r) /\ later s2 s3 /\ inv s3 /\ post s3) ->
  starts_ok post s0 (fun s => (s, native (op s))) r.
Proof.
  intros H s1 L I s2 p E1. injection E1 as <- <-. split; [reflexivity|]. split; [exact I|].
  apply settles_turn. intros s2 L2 I2 s3 p E2. destruct (H s1 s2 L I L2 I2) as (s3' & Eo & L3 & I3 & P3).
  rewrite Eo in E2. injection E2 as <- <-. split; [exact L3|]. split; [exact I3|]. constructor. exact P3.
Qed.

End Common.
End Chains.

Arguments Pool {S E A} shared promises.
Arguments shared {S E A} p.
Arguments promises {S E A} p.
