(* ===== verification/JsNumber.v ===== *)
(** JavaScript Numbers.

    A Number is an IEEE-754 binary64 value; the model is the Standard Library's
    [spec_float] at precision 53 and maximal exponent 1024, with its correctly
    rounded operations.  The file gives the conversions the sources use
    ([ToInt32], [ToUint32], the element conversion of a [Uint8Array]) and the
    lemmas that make integer code simple to reason about: on integers, and more
    generally on dyadic numbers [z * 2^k] that binary64 represents, addition,
    multiplication, division by a power of two and comparison are exact. *)

From Stdlib Require Import SpecFloat.
From stdpp Require Import base numbers.
From S2P Require Import Prelude.

Local Open Scope Z_scope.

Abbreviation num := spec_float.

(** ** Definitions *)

Definition prec : Z := 53.
Definition emax : Z := 1024.

(** The Number nearest to [z * 2^k]. *)
Definition dy (z k : Z) : num := binary_normalize prec emax z k false.
(** The Number of an integer literal, or of an int32/uint32 result. *)
Definition of_Z (z : Z) : num := dy z 0.

Definition NaN : num := S754_nan.
Definition Infinity : num := S754_infinity false.

Definition fadd (x y : num) : num := SFadd prec emax x y.
Definition fsub (x y : num) : num := SFsub prec emax x y.
Definition fmul (x y : num) : num := SFmul prec emax x y.
Definition fdiv (x y : num) : num := SFdiv prec emax x y.
Definition fopp (x : num) : num := SFopp x.
Definition fabs (x : num) : num := SFabs x.
(** [x < y], [x <= y] and [x === y] on Numbers: false when either is NaN. *)
Definition flt (x y : num) : bool := SFltb x y.
Definition fle (x y : num) : bool := SFleb x y.
Definition feq (x y : num) : bool := SFeqb x y.

Definition is_nan (x : num) : bool :=
  match x with S754_nan => true | _ => false end.
Definition is_finite (x : num) : bool :=
  match x with S754_nan | S754_infinity _ => false | _ => true end.
(** ToBoolean on Numbers: false for 0, -0 and NaN. *)
Definition num_truthy (x : num) : bool :=
  match x with S754_nan | S754_zero _ => false | _ => true end.

(** ToIntegerOrInfinity, with NaN and the infinities sent to 0 (the modular
    conversions below send them to 0 as well). *)
Definition to_integer (x : num) : Z :=
  match x with
  | S754_finite s m e =>
      let t := if 0 <=? e then Z.pos m * 2 ^ e else Z.pos m / 2 ^ (- e) in
      if s then - t else t
  | _ => 0
  end.

(** The two's-complement reading of the low 32 bits. *)
Definition sint32 (z : Z) : Z :=
  let u := z mod 2 ^ 32 in if u <? 2 ^ 31 then u else u - 2 ^ 32.

Definition ToInt32 (x : num) : Z := sint32 (to_integer x).
Definition ToUint32 (x : num) : Z := to_integer x mod 2 ^ 32.
(** What a [Uint8Array] stores when [x] is assigned to an element. *)
Definition ToUint8 (x : num) : Z := to_integer x mod 2 ^ 8.

(** int32 operators, on the int32 values of their operands. *)
Definition shl32 (x k : Z) : Z := sint32 (Z.shiftl x (k mod 32)).
Definition sar32 (x k : Z) : Z := Z.shiftr x (k mod 32).
Definition shr32u (x k : Z) : Z := Z.shiftr (x mod 2 ^ 32) (k mod 32).
Definition or32 (x y : Z) : Z := Z.lor x y.
Definition and32 (x y : Z) : Z := Z.land x y.

(** ** Dyadic values *)

(** [z * 2^k = z' * 2^k'], stated without fractions. *)
Definition dyeq (z k z' k' : Z) : Prop :=
  exists b, b <= k /\ b <= k' /\ z * 2 ^ (k - b) = z' * 2 ^ (k' - b).

(** [z * 2^k] is a binary64 value. *)
Definition fits (z k : Z) : Prop :=
  exists z' k', Z.abs z' < 2 ^ 53 /\ -1074 <= k' <= 971 /\ dyeq z k z' k'.

Lemma dyeq_at b z k z' k' :
  dyeq z k z' k' -> b <= k -> b <= k' -> z * 2 ^ (k - b) = z' * 2 ^ (k' - b).
Proof.
  intros (c & Hc & Hc' & E) Hb Hb'. destruct (Z.le_ge_cases b c) as [Hbc|Hbc].
  - replace (k - b) with ((k - c) + (c - b)) by lia.
    replace (k' - b) with ((k' - c) + (c - b)) by lia.
    rewrite !Z.pow_add_r by lia. rewrite !Z.mul_assoc, E. reflexivity.
  - replace (k - c) with ((k - b) + (b - c)) in E by lia.
    replace (k' - c) with ((k' - b) + (b - c)) in E by lia.
    rewrite !Z.pow_add_r, !Z.mul_assoc in E by lia.
    apply Z.mul_cancel_r in E; [exact E|]. apply Z.pow_nonzero; lia.
Qed.

Lemma dyeq_refl z k : dyeq z k z k.
Proof. exists k. split; [lia|split; [lia|reflexivity]]. Qed.

Lemma dyeq_sym z k z' k' : dyeq z k z' k' -> dyeq z' k' z k.
Proof. intros (b & ? & ? & E). exists b. auto. Qed.

Lemma dyeq_trans z1 k1 z2 k2 z3 k3 :
  dyeq z1 k1 z2 k2 -> dyeq z2 k2 z3 k3 -> dyeq z1 k1 z3 k3.
Proof.
  intros H1 H2. exists (Z.min k1 (Z.min k2 k3)).
  split; [lia|]. split; [lia|].
  rewrite (dyeq_at _ _ _ _ _ H1) by lia. apply (dyeq_at _ _ _ _ _ H2); lia.
Qed.

Lemma dyeq_shift z k n : 0 <= n -> dyeq (z * 2 ^ n) k z (k + n).
Proof.
  intros Hn. exists k. split; [lia|]. split; [lia|].
  rewrite Z.sub_diag, Z.pow_0_r. replace (k + n - k) with n by lia. lia.
Qed.

Lemma dyeq_opp z k z' k' : dyeq z k z' k' -> dyeq (- z) k (- z') k'.
Proof. intros (b & ? & ? & E). exists b. rewrite !Z.mul_opp_l, E. auto. Qed.

Lemma dyeq_add a j a' j' b k b' :
  dyeq a j a' j' -> dyeq b k b' j' -> j = k -> dyeq (a + b) j (a' + b') j'.
Proof.
  intros H1 H2 ->. exists (Z.min k j'). split; [lia|]. split; [lia|].
  rewrite !Z.mul_add_distr_r, (dyeq_at _ _ _ _ _ H1), (dyeq_at _ _ _ _ _ H2) by lia.
  reflexivity.
Qed.

Lemma dyeq_mul a j a' j' b k b' k' :
  dyeq a j a' j' -> dyeq b k b' k' -> dyeq (a * b) (j + k) (a' * b') (j' + k').
Proof.
  intros (c & ? & ? & E1) (d & ? & ? & E2). exists (c + d).
  split; [lia|]. split; [lia|].
  replace (j + k - (c + d)) with ((j - c) + (k - d)) by lia.
  replace (j' + k' - (c + d)) with ((j' - c) + (k' - d)) by lia.
  rewrite !Z.pow_add_r by lia.
  transitivity ((a * 2 ^ (j - c)) * (b * 2 ^ (k - d))); [ring|]. rewrite E1, E2. ring.
Qed.

Lemma dyeq_pos z k z' k' : dyeq z k z' k' -> 0 < z -> 0 < z'.
Proof.
  intros (b & ? & ? & E) Hz.
  assert (0 < 2 ^ (k - b)) by (apply Z.pow_pos_nonneg; lia).
  assert (0 < 2 ^ (k' - b)) by (apply Z.pow_pos_nonneg; lia). nia.
Qed.

Lemma dyeq_zero k z' k' : dyeq 0 k z' k' -> z' = 0.
Proof.
  intros (b & ? & ? & E). rewrite Z.mul_0_l in E. symmetry in E.
  apply Z.mul_eq_0 in E as [?|E]; [assumption|].
  apply Z.pow_nonzero in E; [contradiction|lia|lia].
Qed.

Lemma fits_dyeq z k z' k' : dyeq z k z' k' -> fits z k -> fits z' k'.
Proof.
  intros H (a & j & Ha & Hj & E). exists a, j. split; [assumption|]. split; [assumption|].
  eapply dyeq_trans; [apply dyeq_sym, H|exact E].
Qed.

Lemma fits_small z k : Z.abs z < 2 ^ 53 -> -1074 <= k <= 971 -> fits z k.
Proof. intros. exists z, k. auto using dyeq_refl. Qed.

Lemma fits_int z : Z.abs z <= 2 ^ 53 -> fits z 0.
Proof.
  intros H. destruct (Z.eq_dec (Z.abs z) (2 ^ 53)) as [E|E].
  - assert (Hz : z = Z.sgn z * 2 ^ 53) by (rewrite <- E; symmetry; rewrite Z.mul_comm; apply Z.abs_sgn).
    exists (Z.sgn z), 53. split; [destruct z; simpl; lia|]. split; [lia|].
    rewrite Hz at 1. apply (dyeq_shift _ 0 53). lia.
  - apply fits_small; lia.
Qed.

Lemma fits_opp z k : fits z k -> fits (- z) k.
Proof.
  intros (a & j & Ha & Hj & E). exists (- a), j. rewrite Z.abs_opp. auto using dyeq_opp.
Qed.

(** ** Exact rounding *)

Lemma digits_bounds p :
  2 ^ (Z.pos (digits2_pos p) - 1) <= Z.pos p < 2 ^ Z.pos (digits2_pos p).
Proof.
  induction p as [p IH|p IH|]; cbn [digits2_pos]; rewrite ?Pos2Z.inj_succ;
    try (split; vm_compute; congruence).
  - replace (Z.succ (Z.pos (digits2_pos p)) - 1) with ((Z.pos (digits2_pos p) - 1) + 1) by lia.
    rewrite Z.pow_succ_r, Z.pow_add_r by lia. lia.
  - replace (Z.succ (Z.pos (digits2_pos p)) - 1) with ((Z.pos (digits2_pos p) - 1) + 1) by lia.
    rewrite Z.pow_succ_r, Z.pow_add_r by lia. lia.
Qed.

Lemma digits_unique p d :
  0 < d -> 2 ^ (d - 1) <= Z.pos p < 2 ^ d -> Z.pos (digits2_pos p) = d.
Proof.
  intros Hd [Hl Hu]. pose proof (digits_bounds p) as [Hl' Hu'].
  destruct (Z.lt_trichotomy (Z.pos (digits2_pos p)) d) as [H|[H|H]]; [|exact H|].
  - pose proof (Z.pow_le_mono_r 2 (Z.pos (digits2_pos p)) (d - 1)). lia.
  - pose proof (Z.pow_le_mono_r 2 d (Z.pos (digits2_pos p) - 1)). lia.
Qed.

Lemma digits_mul_pow2 p q n :
  0 <= n -> Z.pos q = Z.pos p * 2 ^ n ->
  Z.pos (digits2_pos q) = Z.pos (digits2_pos p) + n.
Proof.
  intros Hn E. apply digits_unique; [lia|]. rewrite E.
  pose proof (digits_bounds p) as [Hl Hu].
  assert (0 < 2 ^ n) by (apply Z.pow_pos_nonneg; lia).
  replace (Z.pos (digits2_pos p) + n - 1) with (Z.pos (digits2_pos p) - 1 + n) by lia.
  rewrite !Z.pow_add_r by lia. nia.
Qed.

Lemma iter_pos_nat {A} (f : A -> A) p x :
  SpecFloat.iter_pos f p x = Nat.iter (Pos.to_nat p) f x.
Proof.
  revert x. induction p as [p IH|p IH|]; intros x; cbn [SpecFloat.iter_pos]; [| |reflexivity].
  - rewrite !IH. rewrite <- Nat.iter_add. rewrite <- Nat.iter_succ_r. f_equal. lia.
  - rewrite !IH. rewrite <- Nat.iter_add. f_equal. lia.
Qed.

Lemma shr_1_exact m :
  0 < m -> shr_1 {| shr_m := m * 2; shr_r := false; shr_s := false |}
           = {| shr_m := m; shr_r := false; shr_s := false |}.
Proof. intros Hm. rewrite Z.mul_comm. destruct m; [lia|reflexivity|lia]. Qed.

Lemma shr_iter_exact n m :
  0 < m ->
  Nat.iter n shr_1 {| shr_m := m * 2 ^ Z.of_nat n; shr_r := false; shr_s := false |}
  = {| shr_m := m; shr_r := false; shr_s := false |}.
Proof.
  intros Hm. induction n as [|n IH]; [rewrite Z.mul_1_r; reflexivity|].
  rewrite Nat.iter_succ_r. rewrite Nat2Z.inj_succ, Z.pow_succ_r, Z.mul_assoc by lia.
  replace (m * 2 * 2 ^ Z.of_nat n) with ((m * 2 ^ Z.of_nat n) * 2) by ring.
  rewrite shr_1_exact; [apply IH|]. apply Z.mul_pos_pos; [lia|]. apply Z.pow_pos_nonneg; lia.
Qed.

Lemma bounded_inv m e :
  bounded prec emax m e = true ->
  fexp prec emax (Z.pos (digits2_pos m) + e) = e /\ e <= 971.
Proof.
  unfold bounded, canonical_mantissa. rewrite andb_true_iff, Z.eqb_eq, Z.leb_le.
  intros [H1 H2]. split; [exact H1|exact H2].
Qed.

(** The shift [binary_round_aux] performs brings an exact multiple back. *)
Lemma shr_fexp_exact m e mx ex :
  bounded prec emax mx ex = true -> e <= ex -> Z.pos m = Z.pos mx * 2 ^ (ex - e) ->
  shr_fexp prec emax (Z.pos m) e loc_Exact
  = ({| shr_m := Z.pos mx; shr_r := false; shr_s := false |}, ex).
Proof.
  intros Hb He Hm. destruct (bounded_inv _ _ Hb) as [Hf _].
  unfold shr_fexp. cbn [Zdigits2 shr_record_of_loc].
  rewrite (digits_mul_pow2 mx m (ex - e)) by (lia || exact Hm).
  replace (Z.pos (digits2_pos mx) + (ex - e) + e) with (Z.pos (digits2_pos mx) + ex) by lia.
  rewrite Hf. unfold shr. destruct (ex - e) as [|p|p] eqn:E; [| |lia].
  - rewrite Hm, Z.mul_1_r. replace e with ex by lia. reflexivity.
  - rewrite iter_pos_nat, Hm, <- (positive_nat_Z p).
    rewrite shr_iter_exact by lia. f_equal. lia.
Qed.

Lemma round_aux_exact s m e mx ex :
  bounded prec emax mx ex = true -> e <= ex -> Z.pos m = Z.pos mx * 2 ^ (ex - e) ->
  binary_round_aux prec emax s (Z.pos m) e loc_Exact = S754_finite s mx ex.
Proof.
  intros Hb He Hm. unfold binary_round_aux.
  rewrite (shr_fexp_exact m e mx ex) by assumption. cbn [shr_m loc_of_shr_record round_nearest_even].
  rewrite (shr_fexp_exact mx ex mx ex); [|assumption|lia|rewrite Z.sub_diag; lia].
  cbn [shr_m]. destruct (bounded_inv _ _ Hb) as [_ H].
  rewrite (proj2 (Z.leb_le _ _)); [reflexivity|exact H].
Qed.

Lemma iter_xO_pos p n : Z.pos (Pos.iter xO p n) = Z.pos p * 2 ^ Z.pos n.
Proof.
  induction n as [|n IH] using Pos.peano_ind; [simpl; lia|].
  rewrite Pos.iter_succ, Pos2Z.inj_succ, Z.pow_succ_r by lia.
  rewrite (Pos2Z.inj_xO (Pos.iter xO p n)), IH. ring.
Qed.

Lemma round_exact s m e mx ex :
  bounded prec emax mx ex = true -> dyeq (Z.pos m) e (Z.pos mx) ex ->
  binary_round prec emax s m e = S754_finite s mx ex.
Proof.
  intros Hb H. destruct (bounded_inv _ _ Hb) as [Hf _]. unfold binary_round, shl_align.
  destruct (Z.le_ge_cases e ex) as [He|He].
  - pose proof (dyeq_at e _ _ _ _ H ltac:(lia) ltac:(lia)) as E.
    rewrite Z.sub_diag, Z.pow_0_r, Z.mul_1_r in E.
    rewrite (digits_mul_pow2 mx m (ex - e)) by (lia || exact E).
    replace (Z.pos (digits2_pos mx) + (ex - e) + e) with (Z.pos (digits2_pos mx) + ex) by lia.
    rewrite Hf. destruct (ex - e) as [|p|p] eqn:D; [| |lia];
      (apply round_aux_exact; [exact Hb|lia|rewrite D; exact E]).
  - pose proof (dyeq_at ex _ _ _ _ H ltac:(lia) ltac:(lia)) as E.
    rewrite Z.sub_diag, Z.pow_0_r, Z.mul_1_r in E. symmetry in E.
    pose proof (digits_mul_pow2 m mx (e - ex) ltac:(lia) E) as D.
    replace (Z.pos (digits2_pos m) + e) with (Z.pos (digits2_pos mx) + ex) by lia.
    rewrite Hf. destruct (ex - e) as [|p|p] eqn:P; [|lia|].
    + apply round_aux_exact; [exact Hb|lia|]. rewrite P. replace (e - ex) with 0 in E by lia.
      lia.
    + apply round_aux_exact; [exact Hb|lia|].
      rewrite iter_xO_pos, Z.sub_diag, E. replace (e - ex) with (Z.pos p) by lia. lia.
Qed.

(** Every representable positive dyadic number has a canonical form. *)
Lemma canonical_exists z k :
  0 < z < 2 ^ 53 -> -1074 <= k <= 971 ->
  exists mx ex, bounded prec emax mx ex = true /\ dyeq z k (Z.pos mx) ex.
Proof.
  intros Hz Hk. destruct z as [|p|p]; [lia| |lia].
  pose proof (digits_bounds p) as [Hl Hu]. set (d := Z.pos (digits2_pos p)) in *.
  assert (Hd : d <= 53).
  { destruct (Z.le_gt_cases d 53) as [?|?]; [assumption|].
    pose proof (Z.pow_le_mono_r 2 53 (d - 1)). lia. }
  set (ex := Z.max (d + k - 53) (-1074)). set (q := Z.pos p * 2 ^ (k - ex)).
  assert (Hex : ex <= k) by lia.
  assert (Hq : 0 < q) by (apply Z.mul_pos_pos; [lia|apply Z.pow_pos_nonneg; lia]).
  exists (Z.to_pos q), ex. rewrite Z2Pos.id by exact Hq. split.
  - unfold bounded, canonical_mantissa.
    rewrite (digits_mul_pow2 p (Z.to_pos q) (k - ex)) by (rewrite ?Z2Pos.id; lia || reflexivity).
    apply andb_true_iff. split.
    + apply Z.eqb_eq. unfold fexp, emin, prec, emax. fold d. lia.
    + apply Z.leb_le. unfold prec, emax. lia.
  - unfold q. apply dyeq_sym. replace k with (ex + (k - ex)) at 2 by lia.
    apply dyeq_shift. lia.
Qed.

(** The canonical form of a representable number, and [dy] computes it. *)
Lemma dy_cases z k :
  fits z k ->
  (z = 0 /\ dy z k = S754_zero false) \/
  exists mx ex, bounded prec emax mx ex = true /\ dyeq (Z.abs z) k (Z.pos mx) ex /\
    z <> 0 /\ dy z k = S754_finite (z <? 0) mx ex.
Proof.
  intros (a & j & Ha & Hj & E). destruct (Z.eq_dec z 0) as [->|Hz]; [left; auto|right].
  assert (Ea : dyeq (Z.abs z) k (Z.abs a) j).
  { destruct (Z.abs_spec z) as [[? ->]|[? ->]], (Z.abs_spec a) as [[? ->]|[? ->]];
      try assumption; try (apply dyeq_opp; assumption).
    - apply dyeq_pos in E; [|lia]. lia.
    - apply dyeq_opp, dyeq_pos in E; [|lia]. lia. }
  pose proof (dyeq_pos _ _ _ _ Ea ltac:(lia)) as Hap.
  destruct (canonical_exists (Z.abs a) j ltac:(lia) Hj) as (mx & ex & Hb & Hc).
  exists mx, ex. split; [exact Hb|].
  assert (Hd : dyeq (Z.abs z) k (Z.pos mx) ex) by (eapply dyeq_trans; eassumption).
  split; [exact Hd|]. split; [exact Hz|]. unfold dy, binary_normalize.
  destruct z as [|p|p]; [lia| |]; apply round_exact; assumption.
Qed.

Lemma norm_exact s n e z k :
  fits z k -> dyeq n e z k -> n <> 0 -> binary_normalize prec emax n e s = dy z k.
Proof.
  intros Hf H Hn. destruct (dy_cases z k Hf) as [[-> _]|(mx & ex & Hb & Hd & Hz & ->)].
  { apply dyeq_sym, dyeq_zero in H. contradiction. }
  destruct n as [|p|p]; [contradiction| |]; unfold binary_normalize.
  - pose proof (dyeq_pos _ _ _ _ H ltac:(lia)). rewrite (proj2 (Z.ltb_ge z 0)) by lia.
    apply round_exact; [exact Hb|]. rewrite Z.abs_eq in Hd by lia.
    eapply dyeq_trans; eassumption.
  - pose proof (dyeq_pos _ _ _ _ (dyeq_opp _ _ _ _ H) ltac:(lia)).
    rewrite (proj2 (Z.ltb_lt z 0)) by lia.
    apply round_exact; [exact Hb|]. rewrite Z.abs_neq in Hd by lia.
    eapply dyeq_trans; [|eassumption]. apply (dyeq_opp (Z.neg p)). exact H.
Qed.

Lemma dy_dyeq z k z' k' : fits z k -> dyeq z k z' k' -> dy z k = dy z' k'.
Proof.
  intros Hf H. destruct (Z.eq_dec z 0) as [->|Hz].
  - rewrite (dyeq_zero _ _ _ H). reflexivity.
  - apply norm_exact; [eapply fits_dyeq; eassumption|exact H|exact Hz].
Qed.

Lemma shl_align_dyeq m e ez :
  ez <= e -> dyeq (Z.pos (fst (shl_align m e ez))) ez (Z.pos m) e.
Proof.
  intros H. unfold shl_align. destruct (ez - e) as [|p|p] eqn:E; [|lia|].
  - replace ez with e by lia. apply dyeq_refl.
  - cbn [fst]. rewrite iter_xO_pos. replace e with (ez + Z.pos p) by lia.
    apply dyeq_shift. lia.
Qed.

Lemma cond_Zopp_dyeq z k m e :
  dyeq (Z.abs z) k (Z.pos m) e -> dyeq (cond_Zopp (z <? 0) (Z.pos m)) e z k.
Proof.
  intros H. apply dyeq_sym. destruct (Z.ltb_spec z 0); cbn [cond_Zopp].
  - rewrite Z.abs_neq in H by lia. apply dyeq_opp in H. rewrite Z.opp_involutive in H. exact H.
  - rewrite Z.abs_eq in H by lia. exact H.
Qed.

Lemma aligned_dyeq z k m e ez :
  dyeq (Z.abs z) k (Z.pos m) e -> ez <= e ->
  dyeq (cond_Zopp (z <? 0) (Z.pos (fst (shl_align m e ez)))) ez z k.
Proof.
  intros H He. eapply dyeq_trans; [|apply cond_Zopp_dyeq, H].
  pose proof (shl_align_dyeq m e ez He) as A.
  destruct (z <? 0); cbn [cond_Zopp]; [apply dyeq_opp, A|exact A].
Qed.

Lemma norm_sum n e z k :
  fits z k -> dyeq n e z k -> binary_normalize prec emax n e false = dy z k.
Proof.
  intros Hf H. destruct (Z.eq_dec n 0) as [->|Hn]; [|apply norm_exact; assumption].
  rewrite (dyeq_zero _ _ _ H). reflexivity.
Qed.

(** Addition of representable numbers with a representable sum is exact. *)
Lemma fadd_dy a b k :
  fits a k -> fits b k -> fits (a + b) k -> fadd (dy a k) (dy b k) = dy (a + b) k.
Proof.
  intros Ha Hb Hs. unfold fadd.
  destruct (dy_cases a k Ha) as [[-> ->]|(m1 & e1 & B1 & D1 & N1 & E1)].
  - destruct (dy_cases b k Hb) as [[-> ->]|(m2 & e2 & B2 & D2 & N2 & E2)]; [reflexivity|].
    rewrite Z.add_0_l, E2. reflexivity.
  - destruct (dy_cases b k Hb) as [[-> ->]|(m2 & e2 & B2 & D2 & N2 & E2)].
    { rewrite Z.add_0_r, E1. reflexivity. }
    rewrite E1, E2. cbn [SFadd]. apply norm_sum; [exact Hs|].
    apply dyeq_add with (k := Z.min e1 e2); [| |reflexivity];
      apply aligned_dyeq; assumption || lia.
Qed.

Lemma fsub_dy a b k :
  fits a k -> fits b k -> fits (a - b) k -> fsub (dy a k) (dy b k) = dy (a - b) k.
Proof.
  intros Ha Hb Hs. unfold fsub.
  destruct (dy_cases a k Ha) as [[-> ->]|(m1 & e1 & B1 & D1 & N1 & E1)].
  - destruct (dy_cases b k Hb) as [[-> ->]|(m2 & e2 & B2 & D2 & N2 & E2)]; [reflexivity|].
    rewrite E2. cbn [SFsub]. destruct (dy_cases (0 - b) k Hs) as [[? _]|(m & e & B & D & N & E)]; [lia|].
    rewrite E. replace (0 - b <? 0) with (negb (b <? 0)) by (destruct (Z.ltb_spec b 0), (Z.ltb_spec (0 - b) 0); cbn [negb]; lia).
    replace (Z.abs (0 - b)) with (Z.abs b) in D by lia.
    enough (S754_finite false m2 e2 = S754_finite false m e) as [= -> ->] by reflexivity.
    rewrite <- (round_exact false m2 e2 m2 e2 B2 (dyeq_refl _ _)).
    apply round_exact; [exact B|]. eapply dyeq_trans; [apply dyeq_sym, D2|exact D].
  - destruct (dy_cases b k Hb) as [[-> ->]|(m2 & e2 & B2 & D2 & N2 & E2)].
    { rewrite Z.sub_0_r, E1. reflexivity. }
    rewrite E1, E2. cbn [SFsub]. apply norm_sum; [exact Hs|].
    rewrite <- !Z.add_opp_r.
    apply dyeq_add with (k := Z.min e1 e2); [| |reflexivity].
    + apply aligned_dyeq; assumption || lia.
    + apply dyeq_opp, aligned_dyeq; assumption || lia.
Qed.

Lemma dyeq_digits p e q f :
  dyeq (Z.pos p) e (Z.pos q) f ->
  Z.pos (digits2_pos p) + e = Z.pos (digits2_pos q) + f.
Proof.
  intros H. destruct (Z.le_ge_cases e f) as [L|L].
  - pose proof (dyeq_at e _ _ _ _ H ltac:(lia) ltac:(lia)) as E.
    rewrite Z.sub_diag, Z.mul_1_r in E. rewrite (digits_mul_pow2 q p (f - e)); lia.
  - pose proof (dyeq_at f _ _ _ _ H ltac:(lia) ltac:(lia)) as E.
    rewrite Z.sub_diag, Z.mul_1_r in E. rewrite (digits_mul_pow2 p q (e - f)); lia.
Qed.

Lemma digits_mul_ge p q :
  Z.pos (digits2_pos p) + Z.pos (digits2_pos q) - 1 <= Z.pos (digits2_pos (p * q)).
Proof.
  pose proof (digits_bounds p) as [Hp _]. pose proof (digits_bounds q) as [Hq _].
  pose proof (digits_bounds (p * q)) as [_ H].
  set (a := Z.pos (digits2_pos p)) in *. set (b := Z.pos (digits2_pos q)) in *.
  set (c := Z.pos (digits2_pos (p * q))) in *.
  destruct (Z.le_gt_cases (a + b - 1) c) as [L|L]; [exact L|exfalso].
  assert (2 ^ c <= 2 ^ (a - 1) * 2 ^ (b - 1)).
  { rewrite <- Z.pow_add_r by (subst a b; lia). apply Z.pow_le_mono_r; lia. }
  rewrite Pos2Z.inj_mul in H. assert (0 <= 2 ^ (a - 1)) by (apply Z.pow_nonneg; lia).
  assert (0 <= 2 ^ (b - 1)) by (apply Z.pow_nonneg; lia). nia.
Qed.

(** Multiplication of representable numbers with a representable product. *)
Lemma fmul_dy a j b k :
  fits a j -> fits b k -> fits (a * b) (j + k) -> 0 <= a /\ 0 <= b \/ a * b <> 0 ->
  fmul (dy a j) (dy b k) = dy (a * b) (j + k).
Proof.
  intros Ha Hb Hp Hs. unfold fmul.
  destruct (dy_cases a j Ha) as [[-> ->]|(m1 & e1 & B1 & D1 & N1 & E1)].
  - destruct (dy_cases b k Hb) as [[-> ->]|(m2 & e2 & B2 & D2 & N2 & E2)]; [reflexivity|].
    rewrite E2. cbn [SFmul]. rewrite (proj2 (Z.ltb_ge b 0)) by lia. reflexivity.
  - destruct (dy_cases b k Hb) as [[-> ->]|(m2 & e2 & B2 & D2 & N2 & E2)].
    + rewrite E1, Z.mul_0_r. cbn [SFmul]. rewrite (proj2 (Z.ltb_ge a 0)) by lia. reflexivity.
    + rewrite E1, E2. cbn [SFmul].
      destruct (dy_cases (a * b) (j + k) Hp) as [[? _]|(m & e & B & D & N & E)]; [nia|].
      rewrite E. replace (xorb (a <? 0) (b <? 0)) with (a * b <? 0)
        by (destruct (Z.ltb_spec a 0), (Z.ltb_spec b 0), (Z.ltb_spec (a * b) 0); cbn [xorb]; nia).
      rewrite Z.abs_mul in D.
      assert (V : dyeq (Z.pos (m1 * m2)) (e1 + e2) (Z.pos m) e).
      { rewrite Pos2Z.inj_mul. eapply dyeq_trans; [|exact D].
        apply dyeq_mul; apply dyeq_sym; assumption. }
      pose proof (dyeq_digits _ _ _ _ V) as G. pose proof (digits_mul_ge m1 m2) as L.
      apply bounded_inv in B1 as [F1 _]. apply bounded_inv in B2 as [F2 _].
      destruct (bounded_inv _ _ B) as [F _]. unfold fexp, emin, prec, emax in F, F1, F2.
      assert (O : e1 + e2 <= e) by lia.
      pose proof (dyeq_at (e1 + e2) _ _ _ _ V ltac:(lia) O) as X.
      rewrite Z.sub_diag, Z.mul_1_r in X. apply round_aux_exact; assumption.
Qed.

Lemma dy_pow2 n :
  -1022 <= n <= 1023 -> dy 1 n = S754_finite false 4503599627370496 (n - 52).
Proof.
  intros Hn. apply round_exact.
  - unfold bounded, canonical_mantissa. apply andb_true_iff. split.
    + apply Z.eqb_eq. change (Z.pos (digits2_pos 4503599627370496)) with 53.
      unfold fexp, emin, prec, emax. lia.
    + apply Z.leb_le. unfold emax, prec. lia.
  - apply dyeq_sym. replace n with (n - 52 + 52) at 2 by lia.
    apply (dyeq_shift 1 (n - 52) 52). lia.
Qed.

(** Division by a power of two. *)
Lemma fdiv_pow2 a j n :
  fits a j -> -1022 <= n <= 1023 -> fits a (j - n) ->
  fdiv (dy a j) (dy 1 n) = dy a (j - n).
Proof.
  intros Ha Hn Hq. rewrite dy_pow2 by exact Hn. unfold fdiv.
  destruct (dy_cases a j Ha) as [[-> ->]|(m1 & e1 & B1 & D1 & N1 & E1)]; [reflexivity|].
  destruct (dy_cases a (j - n) Hq) as [[? _]|(m & e & B & D & N & E)]; [contradiction|].
  rewrite E1, E. cbn [SFdiv]. unfold SFdiv_core_binary. cbn [Zdigits2].
  change (Z.pos (digits2_pos 4503599627370496)) with 53.
  set (d1 := Z.pos (digits2_pos m1)). replace (53 + (n - 52)) with (n + 1) by lia.
  assert (V : dyeq (Z.pos m1) (e1 - n) (Z.pos m) e).
  { eapply dyeq_trans; [|exact D]. apply dyeq_sym in D1.
    pose proof (dyeq_mul _ _ _ _ _ _ _ _ D1 (dyeq_refl 1 (- n))) as X.
    rewrite !Z.mul_1_r in X. exact X. }
  pose proof (dyeq_digits _ _ _ _ V) as G. fold d1 in G.
  destruct (bounded_inv _ _ B) as [F _].
  set (e' := Z.min (fexp prec emax (d1 + e1 - (n + 1))) (e1 - (n - 52))).
  assert (He' : e' <= e /\ e' <= e1 - n + 52)
    by (unfold e'; unfold fexp, emin, prec, emax in *; lia).
  set (s := e1 - (n - 52) - e'). assert (Hs : 0 <= s) by (unfold s; lia).
  assert (M : match s with Z0 => Z.pos m1 | Z.pos _ => Z.shiftl (Z.pos m1) s | Z.neg _ => 0 end
              = Z.pos m * 2 ^ (e - e') * 2 ^ 52).
  { transitivity (Z.pos m1 * 2 ^ s).
    - destruct s; [lia|apply Z.shiftl_mul_pow2; lia|lia].
    - rewrite <- Z.mul_assoc, <- Z.pow_add_r by lia.
      pose proof (dyeq_at (e' - 52) _ _ _ _ V ltac:(lia) ltac:(lia)) as X.
      unfold s. replace (e1 - (n - 52) - e') with (e1 - n - (e' - 52)) by lia.
      replace (e - e' + 52) with (e - (e' - 52)) by lia. exact X. }
  rewrite M. change (Z.pos 4503599627370496) with (2 ^ 52).
  pose proof (Z_div_mod (Z.pos m * 2 ^ (e - e') * 2 ^ 52) (2 ^ 52) ltac:(lia)) as DM.
  destruct (Z.div_eucl _ _) as [q r]. destruct DM as [DM Hr].
  assert (r = 0 /\ q = Z.pos m * 2 ^ (e - e')) as [-> ->] by lia.
  rewrite xorb_false_r. cbn [new_location new_location_even Z.even Z.pow Z.eqb].
  assert (P : 0 < Z.pos m * 2 ^ (e - e'))
    by (apply Z.mul_pos_pos; [lia|apply Z.pow_pos_nonneg; lia]).
  destruct (Z.pos m * 2 ^ (e - e')) as [|p|p] eqn:Q; [lia| |lia].
  apply round_aux_exact; [exact B|lia|congruence].
Qed.

(** Comparison of representable numbers. *)
Lemma bounded_lt m1 e1 m2 e2 :
  bounded prec emax m1 e1 = true -> bounded prec emax m2 e2 = true -> e1 < e2 ->
  Z.pos m1 < Z.pos m2 * 2 ^ (e2 - e1).
Proof.
  intros B1 B2 L. apply bounded_inv in B1 as [F1 _]. apply bounded_inv in B2 as [F2 _].
  unfold fexp, emin, prec, emax in F1, F2.
  pose proof (digits_bounds m1) as [_ H1]. pose proof (digits_bounds m2) as [H2 _].
  assert (D1 : Z.pos (digits2_pos m1) <= 53) by lia.
  assert (D2 : Z.pos (digits2_pos m2) = 53) by lia. rewrite D2 in H2.
  pose proof (Z.pow_le_mono_r 2 _ 53 ltac:(lia) D1).
  pose proof (Z.pow_le_mono_r 2 1 (e2 - e1) ltac:(lia) ltac:(lia)). lia.
Qed.

Lemma SFcompare_pos a b k m1 e1 m2 e2 :
  bounded prec emax m1 e1 = true -> bounded prec emax m2 e2 = true ->
  dyeq a k (Z.pos m1) e1 -> dyeq b k (Z.pos m2) e2 ->
  match e1 ?= e2 with
  | Lt => Lt | Gt => Gt | Eq => Pos.compare_cont Eq m1 m2
  end = (a ?= b).
Proof.
  intros B1 B2 D1 D2. set (c := Z.min k (Z.min e1 e2)).
  pose proof (dyeq_at c _ _ _ _ D1 ltac:(lia) ltac:(lia)) as X1.
  pose proof (dyeq_at c _ _ _ _ D2 ltac:(lia) ltac:(lia)) as X2.
  assert (Pk : 0 < 2 ^ (k - c)) by (apply Z.pow_pos_nonneg; lia).
  assert (C : (a ?= b) = (Z.pos m1 * 2 ^ (e1 - c) ?= Z.pos m2 * 2 ^ (e2 - c))).
  { rewrite <- X1, <- X2. rewrite !(Z.mul_comm _ (2 ^ (k - c))).
    apply Zmult_compare_compat_l. lia. }
  rewrite C. destruct (Z.compare_spec e1 e2) as [->|L|L].
  - change (Pos.compare_cont Eq m1 m2) with (Z.pos m1 ?= Z.pos m2).
    rewrite !(Z.mul_comm _ (2 ^ (e2 - c))). apply Zmult_compare_compat_l.
    pose proof (Z.pow_pos_nonneg 2 (e2 - c) ltac:(lia) ltac:(lia)). lia.
  - symmetry. apply Z.compare_lt_iff. pose proof (bounded_lt _ _ _ _ B1 B2 L).
    replace (e2 - c) with ((e2 - e1) + (e1 - c)) by lia. rewrite Z.pow_add_r by lia.
    assert (0 < 2 ^ (e1 - c)) by (apply Z.pow_pos_nonneg; lia). nia.
  - symmetry. apply Z.compare_gt_iff. pose proof (bounded_lt _ _ _ _ B2 B1 L).
    replace (e1 - c) with ((e1 - e2) + (e2 - c)) by lia. rewrite Z.pow_add_r by lia.
    assert (0 < 2 ^ (e2 - c)) by (apply Z.pow_pos_nonneg; lia). nia.
Qed.

Lemma SFcompare_dy a b k :
  fits a k -> fits b k -> SFcompare (dy a k) (dy b k) = Some (a ?= b).
Proof.
  intros Ha Hb.
  destruct (dy_cases a k Ha) as [[-> ->]|(m1 & e1 & B1 & D1 & N1 & ->)],
    (dy_cases b k Hb) as [[-> ->]|(m2 & e2 & B2 & D2 & N2 & ->)]; cbn [SFcompare].
  - reflexivity.
  - destruct b; [contradiction|reflexivity|reflexivity].
  - destruct a; [contradiction|reflexivity|reflexivity].
  - f_equal. pose proof (SFcompare_pos _ _ _ _ _ _ _ B1 B2 D1 D2) as C.
    destruct (Z.ltb_spec a 0), (Z.ltb_spec b 0).
    + rewrite !Z.abs_neq, Z.compare_opp in C by lia.
      rewrite (Z.compare_antisym b a), <- C. destruct (e1 ?= e2); reflexivity.
    + symmetry. apply Z.compare_lt_iff. lia.
    + symmetry. apply Z.compare_gt_iff. lia.
    + rewrite !Z.abs_eq in C by lia. exact C.
Qed.

Lemma flt_dy a b k : fits a k -> fits b k -> flt (dy a k) (dy b k) = (a <? b).
Proof.
  intros Ha Hb. unfold flt, SFltb. rewrite SFcompare_dy by assumption. unfold Z.ltb. destruct (a ?= b); reflexivity.
Qed.

Lemma fle_dy a b k : fits a k -> fits b k -> fle (dy a k) (dy b k) = (a <=? b).
Proof.
  intros Ha Hb. unfold fle, SFleb. rewrite SFcompare_dy by assumption. unfold Z.leb. destruct (a ?= b); reflexivity.
Qed.

(** Truncation of a dyadic number. *)
Lemma trunc_at b z k :
  b <= 0 -> b <= k ->
  (if 0 <=? k then z * 2 ^ k else z / 2 ^ (- k)) = (z * 2 ^ (k - b)) / 2 ^ (- b).
Proof.
  intros Hb Hk. destruct (Z.leb_spec 0 k).
  - replace (k - b) with (k + - b) by lia. rewrite Z.pow_add_r, Z.mul_assoc by lia.
    rewrite Z.div_mul; [reflexivity|]. apply Z.pow_nonzero; lia.
  - replace (- b) with (- k + (k - b)) by lia. rewrite Z.pow_add_r by lia.
    rewrite Z.div_mul_cancel_r; [reflexivity| |]; apply Z.pow_nonzero; lia.
Qed.

Lemma to_integer_dy z k :
  fits z k ->
  to_integer (dy z k) =
    Z.sgn z * (if 0 <=? k then Z.abs z * 2 ^ k else Z.abs z / 2 ^ (- k)).
Proof.
  intros Hf. destruct (dy_cases z k Hf) as [[-> ->]|(m & e & B & D & N & ->)]; [reflexivity|].
  cbn [to_integer]. set (c := Z.min 0 (Z.min k e)).
  rewrite !(trunc_at c) by lia. rewrite (dyeq_at c _ _ _ _ D) by lia.
  destruct (Z.ltb_spec z 0); [rewrite Z.sgn_neg by lia|rewrite Z.sgn_pos by lia]; lia.
Qed.

(** ** Integers *)

Lemma of_Z_pow2 n : 0 <= n <= 971 -> of_Z (2 ^ n) = dy 1 n.
Proof.
  intros Hn. assert (H : dyeq 1 n (2 ^ n) 0).
  { apply dyeq_sym. pose proof (dyeq_shift 1 0 n ltac:(lia)) as X.
    rewrite Z.mul_1_l in X. exact X. }
  symmetry. apply dy_dyeq; [|exact H]. apply fits_small; lia.
Qed.

Lemma to_integer_of_Z z : Z.abs z <= 2 ^ 53 -> to_integer (of_Z z) = z.
Proof.
  intros H. unfold of_Z. rewrite to_integer_dy by (apply fits_int, H).
  cbn [Z.leb Z.compare]. rewrite Z.pow_0_r, Z.mul_1_r. rewrite Z.mul_comm. apply Z.abs_sgn.
Qed.

Lemma of_Z_inj a b : Z.abs a <= 2 ^ 53 -> Z.abs b <= 2 ^ 53 -> of_Z a = of_Z b -> a = b.
Proof.
  intros Ha Hb E. rewrite <- (to_integer_of_Z a), <- (to_integer_of_Z b), E by assumption.
  reflexivity.
Qed.

Lemma fadd_of_Z a b :
  Z.abs a <= 2 ^ 53 -> Z.abs b <= 2 ^ 53 -> Z.abs (a + b) <= 2 ^ 53 ->
  fadd (of_Z a) (of_Z b) = of_Z (a + b).
Proof. intros. apply fadd_dy; apply fits_int; assumption. Qed.

Lemma fsub_of_Z a b :
  Z.abs a <= 2 ^ 53 -> Z.abs b <= 2 ^ 53 -> Z.abs (a - b) <= 2 ^ 53 ->
  fsub (of_Z a) (of_Z b) = of_Z (a - b).
Proof. intros. apply fsub_dy; apply fits_int; assumption. Qed.

Lemma fmul_of_Z a b :
  0 <= a <= 2 ^ 53 -> 0 <= b <= 2 ^ 53 -> a * b <= 2 ^ 53 ->
  fmul (of_Z a) (of_Z b) = of_Z (a * b).
Proof.
  intros. unfold of_Z. rewrite fmul_dy; try (apply fits_int; nia); [reflexivity|left; lia].
Qed.

Lemma fmul_of_Z_nonzero a b :
  Z.abs a <= 2 ^ 53 -> Z.abs b <= 2 ^ 53 -> Z.abs (a * b) <= 2 ^ 53 -> a * b <> 0 ->
  fmul (of_Z a) (of_Z b) = of_Z (a * b).
Proof.
  intros. unfold of_Z. rewrite fmul_dy; try (apply fits_int; nia); [reflexivity|right; lia].
Qed.

(** [z / 2^n], then ToInt32 or a [Uint8Array] store, truncates towards zero. *)
Lemma to_integer_fdiv_pow2 z n :
  Z.abs z <= 2 ^ 53 -> 0 <= n <= 971 ->
  to_integer (fdiv (of_Z z) (of_Z (2 ^ n))) = Z.quot z (2 ^ n).
Proof.
  intros Hz Hn. rewrite of_Z_pow2 by exact Hn. unfold of_Z.
  assert (F : fits z (0 - n)).
  { destruct (Z.eq_dec (Z.abs z) (2 ^ 53)) as [E|E].
    - exists (Z.sgn z), (53 - n). split; [destruct z; simpl; lia|]. split; [lia|].
      rewrite <- (Z.abs_sgn z) at 1. rewrite E, Z.mul_comm.
      replace (53 - n) with (0 - n + 53) by lia. apply dyeq_shift. lia.
    - apply fits_small; lia. }
  rewrite fdiv_pow2; [|apply fits_int, Hz|lia|exact F]. rewrite to_integer_dy by exact F.
  assert (P : 0 < 2 ^ n) by (apply Z.pow_pos_nonneg; lia).
  replace (if 0 <=? 0 - n then Z.abs z * 2 ^ (0 - n) else Z.abs z / 2 ^ (- (0 - n)))
    with (Z.abs z / 2 ^ n).
  - rewrite Z.quot_div by lia. rewrite (Z.sgn_pos (2 ^ n)), (Z.abs_eq (2 ^ n)) by lia. lia.
  - destruct (Z.leb_spec 0 (0 - n)).
    + assert (n = 0) as -> by lia. rewrite Z.sub_diag, !Z.pow_0_r. rewrite Z.div_1_r. lia.
    + f_equal. f_equal. lia.
Qed.

Lemma SFcompare_of_Z a b :
  Z.abs a <= 2 ^ 53 -> Z.abs b <= 2 ^ 53 -> SFcompare (of_Z a) (of_Z b) = Some (a ?= b).
Proof. intros. apply SFcompare_dy; apply fits_int; assumption. Qed.

Lemma flt_of_Z a b :
  Z.abs a <= 2 ^ 53 -> Z.abs b <= 2 ^ 53 -> flt (of_Z a) (of_Z b) = (a <? b).
Proof.
  intros. unfold flt, SFltb. rewrite SFcompare_of_Z by assumption. unfold Z.ltb.
  destruct (a ?= b); reflexivity.
Qed.

Lemma fle_of_Z a b :
  Z.abs a <= 2 ^ 53 -> Z.abs b <= 2 ^ 53 -> fle (of_Z a) (of_Z b) = (a <=? b).
Proof.
  intros. unfold fle, SFleb. rewrite SFcompare_of_Z by assumption. unfold Z.leb.
  destruct (a ?= b); reflexivity.
Qed.

Lemma feq_of_Z a b :
  Z.abs a <= 2 ^ 53 -> Z.abs b <= 2 ^ 53 -> feq (of_Z a) (of_Z b) = (a =? b).
Proof.
  intros. unfold feq, SFeqb. rewrite SFcompare_of_Z by assumption.
  rewrite Z.eqb_compare. destruct (a ?= b); reflexivity.
Qed.

Lemma of_Z_shape z :
  Z.abs z <= 2 ^ 53 ->
  (z = 0 /\ of_Z z = S754_zero false) \/
  (z <> 0 /\ exists s m e, of_Z z = S754_finite s m e).
Proof.
  intros H. destruct (dy_cases z 0 (fits_int z H)) as [?|(m & e & _ & _ & ? & E)]; [auto|].
  right. split; [assumption|]. eauto.
Qed.

Lemma is_nan_of_Z z : Z.abs z <= 2 ^ 53 -> is_nan (of_Z z) = false.
Proof. intros H. destruct (of_Z_shape z H) as [[? ->]|(? & ? & ? & ? & ->)]; reflexivity. Qed.

Lemma is_finite_of_Z z : Z.abs z <= 2 ^ 53 -> is_finite (of_Z z) = true.
Proof. intros H. destruct (of_Z_shape z H) as [[? ->]|(? & ? & ? & ? & ->)]; reflexivity. Qed.

Lemma num_truthy_of_Z z : Z.abs z <= 2 ^ 53 -> num_truthy (of_Z z) = negb (z =? 0).
Proof.
  intros H. destruct (of_Z_shape z H) as [[-> ->]|(? & ? & ? & ? & ->)]; [reflexivity|].
  cbn [num_truthy]. destruct (Z.eqb_spec z 0); [contradiction|reflexivity].
Qed.

Lemma sint32_small z : - 2 ^ 31 <= z < 2 ^ 31 -> sint32 z = z.
Proof.
  intros H. unfold sint32. destruct (Z.ltb_spec z 0) as [L|L].
  - assert (E : z mod 2 ^ 32 = z + 2 ^ 32)
      by (symmetry; apply (Z.mod_unique_pos z (2 ^ 32) (-1)); lia).
    rewrite E, (proj2 (Z.ltb_ge _ _)); lia.
  - rewrite Z.mod_small by lia. rewrite (proj2 (Z.ltb_lt _ _)); lia.
Qed.

Lemma sint32_range z : - 2 ^ 31 <= sint32 z < 2 ^ 31.
Proof.
  unfold sint32. pose proof (Z.mod_pos_bound z (2 ^ 32) ltac:(lia)).
  destruct (Z.ltb_spec (z mod 2 ^ 32) (2 ^ 31)); lia.
Qed.

Lemma sint32_mod z k : 0 <= k <= 32 -> sint32 z mod 2 ^ k = z mod 2 ^ k.
Proof.
  intros Hk. assert (P : 0 < 2 ^ k) by (apply Z.pow_pos_nonneg; lia).
  assert (D : (2 ^ 32) = 2 ^ (32 - k) * 2 ^ k) by (rewrite <- Z.pow_add_r by lia; f_equal; lia).
  assert (E : (z mod 2 ^ 32) mod 2 ^ k = z mod 2 ^ k).
  { rewrite (Z.mod_eq z (2 ^ 32)) by lia. set (q := z / 2 ^ 32). rewrite D.
    replace (z - 2 ^ (32 - k) * 2 ^ k * q) with (z + (- q * 2 ^ (32 - k)) * 2 ^ k) by ring.
    apply Z.mod_add. lia. }
  unfold sint32. destruct (Z.ltb_spec (z mod 2 ^ 32) (2 ^ 31)); [exact E|].
  rewrite <- E. replace (z mod 2 ^ 32 - 2 ^ 32)
    with (z mod 2 ^ 32 + Z.opp (2 ^ (32 - k)) * 2 ^ k) by (rewrite Z.mul_opp_l, <- D; lia).
  apply Z.mod_add. lia.
Qed.

Lemma ToInt32_of_Z z : Z.abs z <= 2 ^ 53 -> ToInt32 (of_Z z) = sint32 z.
Proof. intros H. unfold ToInt32. rewrite to_integer_of_Z by exact H. reflexivity. Qed.

Lemma ToUint32_of_Z z : Z.abs z <= 2 ^ 53 -> ToUint32 (of_Z z) = z mod 2 ^ 32.
Proof. intros H. unfold ToUint32. rewrite to_integer_of_Z by exact H. reflexivity. Qed.

Lemma ToUint8_of_Z z : Z.abs z <= 2 ^ 53 -> ToUint8 (of_Z z) = z mod 2 ^ 8.
Proof. intros H. unfold ToUint8. rewrite to_integer_of_Z by exact H. reflexivity. Qed.

(** int32 operators as arithmetic. *)
Lemma shl32_small x k : 0 <= k < 32 -> 0 <= x * 2 ^ k < 2 ^ 31 -> shl32 x k = x * 2 ^ k.
Proof.
  intros Hk Hx. unfold shl32. rewrite Z.mod_small by lia. rewrite Z.shiftl_mul_pow2 by lia.
  apply sint32_small. lia.
Qed.

Lemma sar32_div x k : 0 <= k < 32 -> sar32 x k = x / 2 ^ k.
Proof. intros Hk. unfold sar32. rewrite Z.mod_small by lia. apply Z.shiftr_div_pow2. lia. Qed.

Lemma or32_disjoint a b k : 0 <= k -> 0 <= b < 2 ^ k -> or32 (a * 2 ^ k) b = a * 2 ^ k + b.
Proof. apply lor_disjoint. Qed.
