(* ===== verification/Rounding.v ===== *)
(** Rounding to the nearest Number, ties to even: what [dy] and a sum give when
    the exact value needs more than 53 bits. *)

From Stdlib Require Import SpecFloat.
From stdpp Require Import base numbers.
From S2P Require Import Prelude JsNumber.

Local Open Scope Z_scope.

(** [m / 2^n] rounded to the nearest integer, ties to even. *)
Definition nearest_even (m n : Z) : Z :=
  let q := m / 2 ^ n in
  let r := m mod 2 ^ n in
  if (2 ^ (n - 1) <? r) || ((r =? 2 ^ (n - 1)) && Z.odd q) then q + 1 else q.

Lemma nearest_even_range m n : m / 2 ^ n <= nearest_even m n <= m / 2 ^ n + 1.
Proof. unfold nearest_even. destruct (_ || _); lia. Qed.

Lemma nearest_even_error m n : 0 < n -> 2 * Z.abs (nearest_even m n * 2 ^ n - m) <= 2 ^ n.
Proof.
  intros Hn. unfold nearest_even. pose proof (Z.pow_pos_nonneg 2 (n - 1) ltac:(lia) ltac:(lia)) as P.
  assert (E : 2 ^ n = 2 * 2 ^ (n - 1)) by (rewrite <- Z.pow_succ_r by lia; f_equal; lia).
  pose proof (Z_div_mod_eq_full m (2 ^ n)) as D. pose proof (Z.mod_pos_bound m (2 ^ n) ltac:(lia)) as B.
  destruct (Z.ltb_spec (2 ^ (n - 1)) (m mod 2 ^ n)); cbn [orb]; [nia|].
  destruct (Z.eqb_spec (m mod 2 ^ n) (2 ^ (n - 1))); cbn [andb]; [destruct (Z.odd _); nia|nia].
Qed.

(** The scale of a dyadic number does not matter. *)
Lemma nearest_even_scale m n i : 0 < n -> 0 <= i -> nearest_even (m * 2 ^ i) (n + i) = nearest_even m n.
Proof.
  intros Hn Hi. unfold nearest_even. pose proof (Z.pow_pos_nonneg 2 i ltac:(lia) Hi) as P.
  pose proof (Z.pow_pos_nonneg 2 n ltac:(lia) ltac:(lia)) as Q.
  replace (n + i - 1) with (n - 1 + i) by lia. rewrite !Z.pow_add_r by lia.
  rewrite Z.div_mul_cancel_r by lia. rewrite Z.mul_mod_distr_r by lia.
  replace (2 ^ (n - 1) * 2 ^ i <? m mod 2 ^ n * 2 ^ i) with (2 ^ (n - 1) <? m mod 2 ^ n).
  2: { destruct (Z.ltb_spec (2 ^ (n - 1)) (m mod 2 ^ n)); symmetry; [apply Z.ltb_lt|apply Z.ltb_ge]; nia. }
  replace (m mod 2 ^ n * 2 ^ i =? 2 ^ (n - 1) * 2 ^ i) with (m mod 2 ^ n =? 2 ^ (n - 1)); [reflexivity|].
  destruct (Z.eqb_spec (m mod 2 ^ n) (2 ^ (n - 1))) as [->|N]; symmetry; [apply Z.eqb_refl|].
  apply Z.eqb_neq. intros E. apply N. nia.
Qed.

Lemma nearest_even_exact q n : 0 < n -> nearest_even (q * 2 ^ n) n = q.
Proof.
  intros Hn. unfold nearest_even. pose proof (Z.pow_pos_nonneg 2 n ltac:(lia) ltac:(lia)).
  pose proof (Z.pow_pos_nonneg 2 (n - 1) ltac:(lia) ltac:(lia)).
  rewrite Z.div_mul, Z.mod_mul by lia. rewrite (proj2 (Z.ltb_ge _ _)) by lia.
  rewrite (proj2 (Z.eqb_neq 0 _)) by lia. reflexivity.
Qed.

(** One bit off the end: the round bit, and whether anything was lost before. *)
Lemma shr_1_step m r s : 0 <= m ->
  shr_1 {| shr_m := m; shr_r := r; shr_s := s |} = {| shr_m := m / 2; shr_r := Z.odd m; shr_s := r || s |}.
Proof.
  intros Hm. rewrite <- Z.div2_div. destruct m as [|[p|p|]|p]; [reflexivity..|lia].
Qed.

Lemma mod_split m n : 0 <= n -> m mod 2 ^ (n + 1) = (if Z.odd (m / 2 ^ n) then 2 ^ n else 0) + m mod 2 ^ n.
Proof.
  intros Hn. pose proof (Z.pow_pos_nonneg 2 n ltac:(lia) Hn) as P. rewrite Z.pow_add_r, Z.pow_1_r by lia.
  rewrite Z.rem_mul_r by lia. rewrite Zmod_odd. destruct (Z.odd (m / 2 ^ n)); lia.
Qed.

Lemma shr_iter m n : 0 <= m ->
  Nat.iter (S n) shr_1 {| shr_m := m; shr_r := false; shr_s := false |} =
  {| shr_m := m / 2 ^ (Z.of_nat n + 1); shr_r := Z.odd (m / 2 ^ Z.of_nat n); shr_s := negb (m mod 2 ^ Z.of_nat n =? 0) |}.
Proof.
  intros Hm. induction n as [|n IH].
  - cbn [Nat.iter nat_rect]. rewrite shr_1_step by exact Hm. change (2 ^ Z.of_nat 0) with 1.
    rewrite Z.div_1_r, Z.mod_1_r. reflexivity.
  - rewrite Nat.iter_succ, IH. pose proof (Z.pow_pos_nonneg 2 (Z.of_nat n) ltac:(lia) ltac:(lia)) as P.
    rewrite shr_1_step by (apply Z.div_pos; [lia|apply Z.pow_pos_nonneg; lia]).
    replace (Z.of_nat (S n)) with (Z.of_nat n + 1) by lia. f_equal.
    + rewrite Z.div_div by (try lia; apply Z.pow_nonzero; lia). f_equal. rewrite (Z.pow_add_r 2 (Z.of_nat n + 1)) by lia. reflexivity.
    + rewrite mod_split by lia. pose proof (Z.mod_pos_bound m (2 ^ Z.of_nat n) P) as B.
      destruct (Z.odd (m / 2 ^ Z.of_nat n)); [|reflexivity]. symmetry. cbn [orb]. apply negb_true_iff, Z.eqb_neq. lia.
Qed.

Lemma shr_pos m e n : 0 <= m -> 0 < n ->
  shr {| shr_m := m; shr_r := false; shr_s := false |} e n =
  ({| shr_m := m / 2 ^ n; shr_r := Z.odd (m / 2 ^ (n - 1)); shr_s := negb (m mod 2 ^ (n - 1) =? 0) |}, e + n).
Proof.
  intros Hm Hn. destruct n as [|p|p]; [lia| |lia]. cbn [shr]. rewrite iter_pos_nat.
  destruct (Pos2Nat.is_succ p) as [i Hi]. rewrite Hi, shr_iter by exact Hm.
  assert (E : Z.pos p = Z.of_nat i + 1) by lia. rewrite E. replace (Z.of_nat i + 1 - 1) with (Z.of_nat i) by lia. reflexivity.
Qed.

Lemma round_shifted m n : 0 < n ->
  round_nearest_even (m / 2 ^ n)
    (loc_of_shr_record {| shr_m := m / 2 ^ n; shr_r := Z.odd (m / 2 ^ (n - 1)); shr_s := negb (m mod 2 ^ (n - 1) =? 0) |}) =
  nearest_even m n.
Proof.
  intros Hn. unfold nearest_even. pose proof (mod_split m (n - 1) ltac:(lia)) as E.
  replace (n - 1 + 1) with n in E by lia. rewrite E.
  pose proof (Z.pow_pos_nonneg 2 (n - 1) ltac:(lia) ltac:(lia)) as P. pose proof (Z.mod_pos_bound m _ P) as B.
  destruct (Z.odd (m / 2 ^ (n - 1))), (Z.eqb_spec (m mod 2 ^ (n - 1)) 0) as [->|N];
    cbn [negb loc_of_shr_record round_nearest_even].
  - rewrite Z.add_0_r, Z.ltb_irrefl, Z.eqb_refl. cbn [orb andb].
    rewrite <- Z.negb_odd. destruct (Z.odd _); reflexivity.
  - rewrite (proj2 (Z.ltb_lt _ _)) by lia. reflexivity.
  - rewrite (proj2 (Z.ltb_ge _ _)), (proj2 (Z.eqb_neq _ _)) by lia. reflexivity.
  - rewrite (proj2 (Z.ltb_ge _ _)), (proj2 (Z.eqb_neq _ _)) by lia. reflexivity.
Qed.

(** ** Rounding a positive dyadic number *)

Lemma digits_of_quotient p n d : 0 < n -> 0 < d -> 2 ^ (d - 1) <= Z.pos p / 2 ^ n < 2 ^ d -> Z.pos (digits2_pos p) = d + n.
Proof.
  intros Hn Hd H. pose proof (Z.pow_pos_nonneg 2 n ltac:(lia) ltac:(lia)) as P. apply digits_unique; [lia|].
  replace (d + n - 1) with (d - 1 + n) by lia. rewrite !Z.pow_add_r by lia.
  pose proof (Z_div_mod_eq_full (Z.pos p) (2 ^ n)) as E. pose proof (Z.mod_pos_bound (Z.pos p) (2 ^ n) P). nia.
Qed.

(** The second shift of [binary_round_aux], after the mantissa has been rounded. *)
Lemma renormalize q t : 2 ^ 52 <= q <= 2 ^ 53 -> -1074 <= t ->
  shr_fexp prec emax q t loc_Exact =
  if q =? 2 ^ 53 then ({| shr_m := 2 ^ 52; shr_r := false; shr_s := false |}, t + 1)
  else ({| shr_m := q; shr_r := false; shr_s := false |}, t).
Proof.
  intros Hq Ht. unfold shr_fexp. destruct q as [|p|p]; [lia| |lia]. cbn [Zdigits2 shr_record_of_loc].
  destruct (Z.eqb_spec (Z.pos p) (2 ^ 53)) as [E|N].
  - rewrite (digits_unique p 54) by (rewrite ?E; lia). unfold fexp, emin, prec, emax.
    replace (Z.max (54 + t - 53) (3 - 1024 - 53) - t) with 1 by lia. rewrite shr_pos by lia. rewrite E. reflexivity.
  - rewrite (digits_unique p 53) by lia. unfold fexp, emin, prec, emax.
    replace (Z.max (53 + t - 53) (3 - 1024 - 53) - t) with 0 by lia. reflexivity.
Qed.

(** A rounded mantissa, with the carry into the next binade. *)
Definition canonical (q t : Z) : num :=
  if q =? 2 ^ 53 then S754_finite false 4503599627370496 (t + 1) else S754_finite false (Z.to_pos q) t.

Lemma finish_round q t : 2 ^ 52 <= q <= 2 ^ 53 -> -1074 <= t <= 970 ->
  (let '(mrs, e) := shr_fexp prec emax q t loc_Exact in
   match shr_m mrs with
   | Z0 => S754_zero false
   | Z.pos m => if e <=? emax - prec then S754_finite false m e else S754_infinity false
   | _ => S754_nan
   end) = canonical q t.
Proof.
  intros Hq Ht. rewrite renormalize by lia. unfold canonical, emax, prec. destruct (Z.eqb_spec q (2 ^ 53)) as [E|E]; cbn [shr_m].
  - change (2 ^ 52) with (Z.pos 4503599627370496). cbv iota. rewrite (proj2 (Z.leb_le _ _)) by lia. reflexivity.
  - destruct q as [|x|x]; [lia| |lia]. rewrite (proj2 (Z.leb_le _ _)) by lia. reflexivity.
Qed.

Lemma dy_canonical q t : 2 ^ 52 <= q <= 2 ^ 53 -> -1074 <= t <= 970 -> dy q t = canonical q t.
Proof.
  intros Hq Ht. unfold dy, binary_normalize. destruct q as [|x|x] eqn:Q; [lia| |lia].
  unfold binary_round, shl_align.
  assert (F : exists y, fexp prec emax (Z.pos (digits2_pos x) + t) - t = y /\ 0 <= y).
  { eexists. split; [reflexivity|]. unfold fexp, emin, prec, emax.
    pose proof (digits_bounds x) as B. destruct (Z.le_gt_cases 53 (Z.pos (digits2_pos x))) as [G|G]; [lia|].
    pose proof (Z.pow_le_mono_r 2 (Z.pos (digits2_pos x)) 52). lia. }
  destruct F as (y & -> & Hy).
  assert (A : binary_round_aux prec emax false (Z.pos x) t loc_Exact = canonical (Z.pos x) t).
  { unfold binary_round_aux. rewrite renormalize by lia. destruct (Z.eqb_spec (Z.pos x) (2 ^ 53)) as [E|E];
      cbn [shr_m loc_of_shr_record round_nearest_even].
    - unfold canonical. rewrite E, Z.eqb_refl. rewrite renormalize by lia. unfold emax, prec.
      change (2 ^ 52 =? 2 ^ 53) with false. cbv iota. cbn [shr_m].
      change (2 ^ 52) with (Z.pos 4503599627370496). cbv iota. rewrite (proj2 (Z.leb_le _ _)) by lia. reflexivity.
    - apply finish_round; lia. }
  destruct y as [|y|y]; [exact A|exact A|lia].
Qed.

Lemma round_dy m e n : 0 < n -> 2 ^ 52 <= m / 2 ^ n < 2 ^ 53 -> -1074 <= e + n <= 970 ->
  dy m e = dy (nearest_even m n) (e + n).
Proof.
  intros Hn Hq He. pose proof (Z.pow_pos_nonneg 2 n ltac:(lia) ltac:(lia)) as P.
  pose proof (nearest_even_range m n) as R. rewrite (dy_canonical (nearest_even m n)) by lia.
  assert (Hm : 0 < m) by (pose proof (Z_div_mod_eq_full m (2 ^ n)); pose proof (Z.mod_pos_bound m (2 ^ n) P); nia).
  unfold dy, binary_normalize. destruct m as [|p|p]; [lia| |lia].
  assert (D : Z.pos (digits2_pos p) = 53 + n) by (apply digits_of_quotient; [lia|lia|exact Hq]).
  unfold binary_round, shl_align. rewrite D.
  replace (fexp prec emax (53 + n + e) - e) with n by (unfold fexp, emin, prec, emax; lia).
  assert (A : binary_round_aux prec emax false (Z.pos p) e loc_Exact = canonical (nearest_even (Z.pos p) n) (e + n)).
  { unfold binary_round_aux, shr_fexp at 1. cbn [Zdigits2 shr_record_of_loc]. rewrite D.
    replace (fexp prec emax (53 + n + e) - e) with n by (unfold fexp, emin, prec, emax; lia).
    rewrite shr_pos by lia. cbn [shr_m]. rewrite round_shifted by lia. apply finish_round; lia. }
  destruct n as [|n|n]; [lia|exact A|lia].
Qed.

(** ** A rounded sum *)

Lemma round_dyeq m e a j n : 0 < n -> dyeq m e a j -> 2 ^ 52 <= a / 2 ^ n < 2 ^ 53 -> -1074 <= j + n <= 970 ->
  dy m e = dy (nearest_even a n) (j + n).
Proof.
  intros Hn V Hq Hj. pose proof (Z.pow_pos_nonneg 2 n ltac:(lia) ltac:(lia)) as P.
  pose proof (Z_div_mod_eq_full a (2 ^ n)) as Da. pose proof (Z.mod_pos_bound a (2 ^ n) P) as Ba.
  destruct (Z.lt_ge_cases e (j + n)) as [L|L].
  - set (b := Z.min e j). pose proof (dyeq_at b _ _ _ _ V ltac:(lia) ltac:(lia)) as E.
    assert (Pe : 0 < 2 ^ (e - b)) by (apply Z.pow_pos_nonneg; lia).
    assert (Pj : 0 < 2 ^ (j - b)) by (apply Z.pow_pos_nonneg; lia).
    assert (N : nearest_even m (j + n - e) = nearest_even a n).
    { rewrite <- (nearest_even_scale m (j + n - e) (e - b)), <- (nearest_even_scale a n (j - b)) by lia.
      rewrite E. f_equal. lia. }
    assert (Q : m / 2 ^ (j + n - e) = a / 2 ^ n).
    { rewrite <- (Z.div_mul_cancel_r m _ (2 ^ (e - b))), <- (Z.div_mul_cancel_r a _ (2 ^ (j - b)))
        by (try apply Z.pow_nonzero; lia). rewrite E, <- !Z.pow_add_r by lia. do 2 f_equal. lia. }
    rewrite (round_dy m e (j + n - e)) by lia. rewrite N. f_equal. lia.
  - pose proof (dyeq_at j _ _ _ _ V ltac:(lia) ltac:(lia)) as E. rewrite Z.sub_diag, Z.mul_1_r in E.
    replace (e - j) with (e - (j + n) + n) in E by lia. rewrite Z.pow_add_r, Z.mul_assoc in E by lia.
    rewrite <- E in *. rewrite Z.div_mul in Hq by lia. rewrite nearest_even_exact by exact Hn.
    symmetry. apply dy_dyeq; [apply fits_small; lia|].
    replace e with (j + n + (e - (j + n))) at 2 by lia. apply dyeq_shift. lia.
Qed.

Lemma fadd_round a b j n : fits a j -> fits b j -> 0 < a -> 0 < b -> 0 < n ->
  2 ^ 52 <= (a + b) / 2 ^ n < 2 ^ 53 -> -1074 <= j + n <= 970 ->
  fadd (dy a j) (dy b j) = dy (nearest_even (a + b) n) (j + n).
Proof.
  intros Fa Fb Ha Hb Hn Hq Hj. unfold fadd.
  destruct (dy_cases a j Fa) as [[? _]|(m1 & e1 & B1 & D1 & N1 & E1)]; [lia|].
  destruct (dy_cases b j Fb) as [[? _]|(m2 & e2 & B2 & D2 & N2 & E2)]; [lia|].
  rewrite E1, E2. cbn [SFadd]. apply round_dyeq; [exact Hn| |exact Hq|exact Hj].
  apply dyeq_add with (k := Z.min e1 e2); [| |reflexivity]; apply aligned_dyeq; assumption || lia.
Qed.
