(* ===== verification/JsValue.v ===== *)
(** JavaScript values, strings, errors, and the shared store of array buffers.

    Strings are lists of UTF-16 code units.  A typed array is a window on an
    array buffer of the store, so two views of one buffer alias, as they do in
    the sources ([Buffer.prototype.slice] relies on it).  A function that reads
    or writes the store, or throws, is a [comp heap exn]. *)

From Stdlib Require Import SpecFloat String Ascii.
From stdpp Require Import base numbers list gmap.
From S2P Require Import Prelude JsNumber.

Local Open Scope Z_scope.
Local Open Scope js_scope.

(** ** Strings *)

Abbreviation jsstr := (list Z).

(** A string literal of the sources. *)
Definition js (s : string) : jsstr :=
  map (fun c => Z.of_N (N_of_ascii c)) (list_ascii_of_string s).

Definition str_eqb (s t : jsstr) : bool := bool_decide (s = t).

(** [toLowerCase], on ASCII letters; the sources only compare its result with
    ASCII names, and no other character lowers to a letter of those names. *)
Definition lower (c : Z) : Z := if (65 <=? c) && (c <=? 90) then c + 32 else c.
Definition toLowerCase (s : jsstr) : jsstr := map lower s.

(** [s.startsWith(p)]. *)
Fixpoint startsWith (p s : jsstr) : bool :=
  match p, s with
  | [], _ => true
  | a :: p, b :: s => (a =? b) && startsWith p s
  | _ :: _, [] => false
  end.

(** WhiteSpace and LineTerminator of the language, and [String.prototype.trim]. *)
Definition is_space (c : Z) : bool :=
  existsb (Z.eqb c) [9; 10; 11; 12; 13; 32; 160; 5760; 8232; 8233; 8239; 8287; 12288; 65279]
  || ((8192 <=? c) && (c <=? 8202)).

Fixpoint trim_start (s : jsstr) : jsstr :=
  match s with
  | [] => []
  | c :: s' => if is_space c then trim_start s' else s
  end.
Definition trim (s : jsstr) : jsstr := reverse (trim_start (reverse (trim_start s))).

(** ** Values *)

(** A typed array over bytes: an element window of the array buffer [vab].
    [vid] is the identity of the object, [vbuffer] tells whether its prototype
    is [Buffer.prototype]. *)
Record view := View { vid : nat; vbuffer : bool; vab : nat; voff : Z; vlen : Z }.

(** An ordinary object is given by its own properties, by what [valueOf]
    returns ([None]: the object itself) and by what [Symbol.toPrimitive] with
    hint "string" returns when the object has one.  [VTyped] is a typed array
    of another element type, by its elements. *)
#[warnings="-register-all"]
Inductive val : Type :=
| Undefined
| Null
| Bool (b : bool)
| Num (n : num)
| BigInt (z : Z)
| Str (s : jsstr)
| VView (v : view)
| VArrayBuffer (a : nat)
| VTyped (bytesPerElement : Z) (l : list num)
| VArray (l : list val)
| VObj (props : list (jsstr * val)) (valueOf : option val) (toPrimitive : option val).

Definition is_undefined (v : val) : bool := match v with Undefined => true | _ => false end.
Definition is_string (v : val) : bool := match v with Str _ => true | _ => false end.

(** [typeof v]. *)
Definition typeof (v : val) : jsstr :=
  js match v with
     | Undefined => "undefined"
     | Bool _ => "boolean"
     | Num _ => "number"
     | BigInt _ => "bigint"
     | Str _ => "string"
     | _ => "object"
     end.

(** ToBoolean. *)
Definition truthy (v : val) : bool :=
  match v with
  | Undefined | Null => false
  | Bool b => b
  | Num n => num_truthy n
  | BigInt z => negb (z =? 0)
  | Str s => match s with [] => false | _ => true end
  | _ => true
  end.

(** ** Errors *)

(** The message of a thrown error: literal text and interpolated values.
    Quotation marks inside a message are left out. *)
Inductive part := Txt (s : string) | Of (v : val).

Inductive exn : Type :=
| EError (m : list part)
| ETypeError (m : list part)
| ERangeError (m : list part)
| ENodeError (sym : string) (m : list part).

(** What a program that runs on the library can see thrown: the errors of the
    library's own modules and the values its own functions throw. *)
Inductive fault : Type :=
| DOMException (message name : string)
| TypeError (message : string)
| Error (message : string)
| UserError (v : val).

(** ** Numeric value of a string (StringToNumber) *)

Definition digit_of (c : Z) : option Z :=
  if (48 <=? c) && (c <=? 57) then Some (c - 48)
  else if (97 <=? c) && (c <=? 122) then Some (c - 87)
  else if (65 <=? c) && (c <=? 90) then Some (c - 55)
  else None.

(** The digits of [base] at the head of [s]: their value after [acc], how many, the rest. *)
Fixpoint take_digits (base acc n : Z) (s : jsstr) : Z * Z * jsstr :=
  match s with
  | c :: s' =>
      match digit_of c with
      | Some d => if d <? base then take_digits base (acc * base + d) (n + 1) s' else (acc, n, s)
      | None => (acc, n, s)
      end
  | [] => (acc, n, [])
  end.

(** The Number nearest to [m * 10^e]. *)
Definition decimal_num (m e : Z) : num :=
  if 0 <=? e then dy (m * 10 ^ e) 0
  else match m with
       | Z.pos p =>
           let '(q, ex, l) := SFdiv_core_binary prec emax (Z.pos p) 0 (10 ^ (- e)) 0 in
           binary_round_aux prec emax false q ex l
       | _ => of_Z 0
       end.

(** An optional exponent part: its value, or [None] when [s] is not one. *)
Definition exponent_part (s : jsstr) : option Z :=
  match s with
  | [] => Some 0
  | c :: s' =>
      if (c =? 101) || (c =? 69) then
        let '(neg, s'') := match s' with
                           | 45 :: t => (true, t)
                           | 43 :: t => (false, t)
                           | _ => (false, s')
                           end in
        match take_digits 10 0 0 s'' with
        | (v, n, []) => if n =? 0 then None else Some (if neg then - v else v)
        | _ => None
        end
      else None
  end.

Definition unsigned_decimal (s : jsstr) : num :=
  if str_eqb s (js "Infinity") then Infinity
  else
    let '(v, n, s1) := take_digits 10 0 0 s in
    match s1 with
    | 46 :: s2 =>
        let '(v', n', s3) := take_digits 10 v 0 s2 in
        if n + n' =? 0 then NaN
        else match exponent_part s3 with Some e => decimal_num v' (e - n') | None => NaN end
    | _ =>
        if n =? 0 then NaN
        else match exponent_part s1 with Some e => decimal_num v e | None => NaN end
    end.

Definition radix_literal (base : Z) (s : jsstr) : num :=
  match take_digits base 0 0 s with
  | (v, n, []) => if n =? 0 then NaN else of_Z v
  | _ => NaN
  end.

Definition StringToNumber (s : jsstr) : num :=
  match trim s with
  | [] => of_Z 0
  | 45 :: t => fopp (unsigned_decimal t)
  | 43 :: t => unsigned_decimal t
  | 48 :: c :: t =>
      if (c =? 120) || (c =? 88) then radix_literal 16 t
      else if (c =? 111) || (c =? 79) then radix_literal 8 t
      else if (c =? 98) || (c =? 66) then radix_literal 2 t
      else unsigned_decimal (48 :: c :: t)
  | t => unsigned_decimal t
  end.

Lemma str_eqb_spec s u : reflect (s = u) (str_eqb s u).
Proof. unfold str_eqb. apply bool_decide_reflect. Qed.

(** ** The store *)

Record heap := Heap { mem : gmap nat (list Z); fresh : nat }.

Abbreviation M A := (comp heap exn A).

Definition throw_type {A} (m : list part) : M A := throw (ETypeError m).
Definition throw_range {A} (m : list part) : M A := throw (ERangeError m).

(** ToNumber.  An object used as a Number answers NaN: the model does not run
    its conversion methods. *)
Definition toNum (v : val) : M num :=
  match v with
  | Undefined => ret NaN
  | Null => ret (of_Z 0)
  | Bool b => ret (of_Z (if b then 1 else 0))
  | Num n => ret n
  | BigInt _ => throw_type [Txt "can't convert BigInt to number"]
  | Str s => ret (StringToNumber s)
  | _ => ret NaN
  end.

(** [v >>> 0]. *)
Definition toU32 (v : val) : M Z := let! n := toNum v in ret (ToUint32 n).

(** The contents of an array buffer, of a view, and one element of a view. *)
Definition ab_bytes (h : heap) (a : nat) : list Z := default [] (mem h !! a).

Definition bytes (h : heap) (v : view) : list Z :=
  take (Z.to_nat (vlen v)) (drop (Z.to_nat (voff v)) (ab_bytes h (vab v))).

Definition elt (h : heap) (v : view) (i : Z) : option Z :=
  zget (bytes h v) i.

(** [v[i]] as a value ([undefined] out of range), and read as a Number. *)
Definition get (v : view) (i : Z) : M val :=
  read (fun h => match elt h v i with Some b => Num (of_Z b) | None => Undefined end).
Definition getn (v : view) (i : Z) : M num :=
  read (fun h => match elt h v i with Some b => of_Z b | None => NaN end).
(** The int32 value of [v[i]], the operand of a bit operation. *)
Definition geti (v : view) (i : Z) : M Z :=
  let! n := getn v i in ret (ToInt32 n).

(** Write [l] over the elements of [v] from index [i]. *)
Definition store (h : heap) (v : view) (i : Z) (l : list Z) : heap :=
  Heap (<[vab v := list_inserts (Z.to_nat (voff v + i)) l (ab_bytes h (vab v))]> (mem h)) (fresh h).

(** [v[i] = n]: a store out of range does nothing. *)
Definition put (v : view) (i : Z) (n : num) : M unit :=
  modify (fun h => if (0 <=? i) && (i <? vlen v) then store h v i [ToUint8 n] else h).

(** [new ArrayBuffer] with the given contents. *)
Definition new_ab (l : list Z) : M nat :=
  fun h => (Heap (<[fresh h := l]> (mem h)) (S (fresh h)), Ok (fresh h)).

(** A new view object on a buffer. *)
Definition new_view (isbuf : bool) (a : nat) (off len : Z) : M view :=
  fun h => (Heap (mem h) (S (fresh h)), Ok (View (fresh h) isbuf a off len)).

(** A fresh Buffer holding [l]: [new Uint8Array], its prototype set. *)
Definition new_buffer (isbuf : bool) (l : list Z) : M view :=
  let! a := new_ab l in new_view isbuf a 0 (Z.of_nat (length l)).

(** ** Well-formed stores *)

Definition heap_ok (h : heap) : Prop :=
  (forall a l, mem h !! a = Some l -> Forall byte l /\ (a < fresh h)%nat).

Definition view_ok (h : heap) (v : view) : Prop :=
  0 <= voff v /\ 0 <= vlen v /\ voff v + vlen v <= Z.of_nat (length (ab_bytes h (vab v))) /\
  vlen v < 2 ^ 32 /\ mem h !! vab v <> None.

(** ** Laws of the store *)

Lemma ab_bytes_store h v i l a :
  ab_bytes (store h v i l) a =
    if decide (a = vab v) then list_inserts (Z.to_nat (voff v + i)) l (ab_bytes h (vab v))
    else ab_bytes h a.
Proof.
  unfold ab_bytes at 1, store. cbn [mem]. destruct (decide (a = vab v)) as [->|Hne].
  - rewrite lookup_insert_eq. reflexivity.
  - rewrite lookup_insert_ne by congruence. reflexivity.
Qed.

Lemma length_ab_store h v i l a : length (ab_bytes (store h v i l) a) = length (ab_bytes h a).
Proof.
  rewrite ab_bytes_store. destruct (decide (a = vab v)) as [->|]; [|reflexivity].
  apply length_inserts.
Qed.

Lemma length_bytes h v : view_ok h v -> Z.of_nat (length (bytes h v)) = vlen v.
Proof. intros (?&?&?&?&?). unfold bytes. rewrite length_take, length_drop. lia. Qed.

Lemma view_ok_store h v i l w : view_ok h w -> view_ok (store h v i l) w.
Proof.
  unfold view_ok. rewrite length_ab_store. intros (H1&H2&H3&H4&H5). repeat (split; [assumption|]).
  unfold store. cbn [mem]. destruct (decide (vab w = vab v)) as [->|].
  - rewrite lookup_insert_eq. discriminate.
  - rewrite lookup_insert_ne by congruence. exact H5.
Qed.

Lemma heap_ok_bytes h v : heap_ok h -> Forall byte (bytes h v).
Proof.
  intros H. unfold bytes, ab_bytes. apply Forall_take, Forall_drop.
  destruct (mem h !! vab v) as [l|] eqn:E; [apply (H _ _ E)|constructor].
Qed.

Lemma heap_ok_store h v i l :
  heap_ok h -> view_ok h v -> Forall byte l -> heap_ok (store h v i l).
Proof.
  intros H Hv Hl a k. pose proof (proj2 (proj2 (proj2 (proj2 Hv)))) as Hm. unfold store. cbn [mem fresh].
  destruct (decide (a = vab v)) as [->|Hne].
  - rewrite lookup_insert_eq. intros [= <-].
    destruct (mem h !! vab v) as [l0|] eqn:E; [|contradiction].
    destruct (H _ _ E) as [Hb Hf]. split; [|exact Hf].
    unfold ab_bytes. rewrite E. cbn. apply Forall_lookup_2. intros j x Hj.
    apply list_lookup_inserts_Some in Hj as [[_ Hj]|(_ & Hj)].
    + eapply Forall_lookup_1; eassumption.
    + eapply Forall_lookup_1; [exact Hl|apply Hj].
  - rewrite lookup_insert_ne by congruence. apply H.
Qed.

(** Overwrite a segment of a byte string. *)
Definition splice (i : Z) (l bs : list Z) : list Z :=
  take (Z.to_nat i) bs ++ l ++ drop (Z.to_nat i + length l) bs.

Lemma length_splice i l bs :
  0 <= i -> i + Z.of_nat (length l) <= Z.of_nat (length bs) -> length (splice i l bs) = length bs.
Proof. intros. unfold splice. rewrite !length_app, length_take, length_drop. lia. Qed.

Lemma splice_inserts i l bs :
  0 <= i -> i + Z.of_nat (length l) <= Z.of_nat (length bs) ->
  splice i l bs = list_inserts (Z.to_nat i) l bs.
Proof. intros. symmetry. apply list_inserts_overwrite; [lia|reflexivity]. Qed.

(** Writing through a view overwrites that segment of its bytes. *)
Lemma bytes_store h v i l :
  view_ok h v -> 0 <= i -> i + Z.of_nat (length l) <= vlen v ->
  bytes (store h v i l) v = splice i l (bytes h v).
Proof.
  intros Hv Hi Hl. pose proof (length_bytes h v Hv) as Hlen.
  rewrite splice_inserts by lia. destruct Hv as (H1 & H2 & H3 & _).
  unfold bytes in *. rewrite ab_bytes_store, decide_True by reflexivity.
  set (k := ab_bytes h (vab v)) in *. apply list_eq. intros j.
  destruct (decide (j < Z.to_nat (vlen v))%nat) as [Hj|Hj].
  2:{ rewrite lookup_take_ge by lia. symmetry. apply lookup_ge_None_2.
      rewrite length_inserts. lia. }
  rewrite lookup_take_lt, lookup_drop by exact Hj.
  destruct (decide (j < Z.to_nat i)%nat).
  { rewrite !list_lookup_inserts_lt by lia. rewrite lookup_take_lt, lookup_drop by lia. reflexivity. }
  destruct (decide (j < Z.to_nat i + length l)%nat).
  - rewrite !list_lookup_inserts by lia. f_equal. lia.
  - rewrite !list_lookup_inserts_ge by lia. rewrite lookup_take_lt, lookup_drop by lia. reflexivity.
Qed.

(** A write does not touch the bytes of a view of another buffer, nor those of
    a disjoint window of the same buffer. *)
Definition disjoint (v : view) (i n : Z) (w : view) : Prop :=
  vab v <> vab w \/ voff v + i + n <= voff w \/ voff w + vlen w <= voff v + i.

Lemma bytes_store_disjoint h v i l w :
  view_ok h w -> 0 <= voff v + i -> disjoint v i (Z.of_nat (length l)) w ->
  bytes (store h v i l) w = bytes h w.
Proof.
  intros (H1 & H2 & H3 & _) Hi Hd. unfold bytes. rewrite ab_bytes_store.
  destruct (decide (vab w = vab v)) as [E|E]; [|reflexivity].
  destruct Hd as [Hd|Hd]; [congruence|]. rewrite <- E. apply list_eq. intros j.
  destruct (decide (j < Z.to_nat (vlen w))%nat) as [Hj|Hj].
  - rewrite !lookup_take_lt, !lookup_drop by exact Hj. destruct Hd as [Hd|Hd].
    + rewrite list_lookup_inserts_ge by lia. reflexivity.
    + rewrite list_lookup_inserts_lt by lia. reflexivity.
  - rewrite !lookup_take_ge by lia. reflexivity.
Qed.

Lemma heap_ext h h' : mem h = mem h' -> fresh h = fresh h' -> h = h'.
Proof. destruct h, h'. cbn. congruence. Qed.

(** Consecutive writes merge. *)
Lemma store_app h v i l1 l2 :
  0 <= voff v + i ->
  store (store h v i l1) v (i + Z.of_nat (length l1)) l2 = store h v i (l1 ++ l2).
Proof.
  intros Hi. apply heap_ext; [|reflexivity]. unfold store at 1. cbn [mem].
  rewrite ab_bytes_store, decide_True by reflexivity. unfold store. cbn [mem].
  rewrite insert_insert_eq. f_equal. rewrite list_inserts_app_l. f_equal. lia.
Qed.

Lemma store_app_before h v i l1 l2 :
  0 <= voff v + i ->
  store (store h v (i + Z.of_nat (length l1)) l2) v i l1 = store h v i (l1 ++ l2).
Proof.
  intros Hi. apply heap_ext; [|reflexivity]. unfold store at 1. cbn [mem].
  rewrite ab_bytes_store, decide_True by reflexivity. unfold store. cbn [mem].
  rewrite insert_insert_eq. f_equal. apply list_eq. intros j.
  set (k := ab_bytes h (vab v)). replace (Z.to_nat (voff v + (i + Z.of_nat (length l1))))
    with (length l1 + Z.to_nat (voff v + i))%nat by lia.
  set (n := Z.to_nat (voff v + i)).
  rewrite list_inserts_app_l.
  destruct (decide (j < n)%nat); [rewrite !list_lookup_inserts_lt by lia; reflexivity|].
  destruct (decide (j < n + length l1)%nat).
  - rewrite (list_lookup_inserts_lt _ (length l1 + n)) by lia.
    destruct (decide (j < length k)%nat).
    + rewrite !list_lookup_inserts by (rewrite ?length_inserts; lia). reflexivity.
    + rewrite !lookup_ge_None_2 by (rewrite ?length_inserts; lia). reflexivity.
  - rewrite list_lookup_inserts_ge by lia.
    destruct (decide (j < length l1 + n + length l2)%nat).
    + destruct (decide (j < length k)%nat).
      * rewrite !list_lookup_inserts by (rewrite ?length_inserts; lia). reflexivity.
      * rewrite !lookup_ge_None_2 by (rewrite ?length_inserts; lia). reflexivity.
    + rewrite !list_lookup_inserts_ge by lia. reflexivity.
Qed.

Lemma store_nil h v i : view_ok h v -> store h v i [] = h.
Proof.
  intros (_&_&_&_&H). apply heap_ext; [|reflexivity]. unfold store, ab_bytes. cbn.
  destruct (mem h !! vab v) as [l|] eqn:E; [|contradiction]. cbn. apply insert_id. exact E.
Qed.

(** ** Run equations *)

Lemma elt_inside h v i :
  view_ok h v -> 0 <= i < vlen v -> exists b, elt h v i = Some b /\ bytes h v !! Z.to_nat i = Some b.
Proof.
  intros Hv Hi. unfold elt, zget. rewrite (proj2 (Z.leb_le _ _)) by lia.
  destruct (lookup_lt_is_Some_2 (bytes h v) (Z.to_nat i)) as [b Hb].
  { pose proof (length_bytes h v Hv). lia. }
  eauto.
Qed.

Lemma elt_outside h v i : view_ok h v -> ~ (0 <= i < vlen v) -> elt h v i = None.
Proof.
  intros Hv Hi. unfold elt, zget. destruct (Z.leb_spec 0 i); [|reflexivity].
  apply lookup_ge_None_2. pose proof (length_bytes h v Hv). lia.
Qed.

(** The byte at an index, for statements. *)
Definition byte_at (h : heap) (v : view) (i : Z) : Z := default 0 (elt h v i).

Lemma byte_at_byte h v i : heap_ok h -> byte (byte_at h v i).
Proof.
  intros H. unfold byte_at, elt, zget. destruct (0 <=? i); [|unfold byte; cbn; lia].
  destruct (bytes h v !! Z.to_nat i) eqn:E; [|unfold byte; cbn; lia].
  eapply Forall_byte_lookup; [apply heap_ok_bytes, H|exact E].
Qed.

Lemma elt_byte_at h v i :
  view_ok h v -> 0 <= i < vlen v -> elt h v i = Some (byte_at h v i).
Proof.
  intros Hv Hi. destruct (elt_inside h v i Hv Hi) as (b & E & _).
  unfold byte_at. rewrite E. reflexivity.
Qed.

Lemma get_run h v i :
  view_ok h v -> 0 <= i < vlen v -> get v i h = (h, Ok (Num (of_Z (byte_at h v i)))).
Proof. intros Hv Hi. unfold get, read. rewrite (elt_byte_at h v i Hv Hi). reflexivity. Qed.

Lemma getn_run h v i :
  view_ok h v -> 0 <= i < vlen v -> getn v i h = (h, Ok (of_Z (byte_at h v i))).
Proof. intros Hv Hi. unfold getn, read. rewrite (elt_byte_at h v i Hv Hi). reflexivity. Qed.

Lemma get_run_out h v i :
  view_ok h v -> ~ (0 <= i < vlen v) -> get v i h = (h, Ok Undefined).
Proof. intros Hv Hi. unfold get, read. rewrite (elt_outside h v i Hv Hi). reflexivity. Qed.

Lemma sint32_byte b : byte b -> sint32 b = b.
Proof. unfold byte. intros. apply sint32_small. lia. Qed.

Lemma geti_run h v i :
  heap_ok h -> view_ok h v -> 0 <= i < vlen v -> geti v i h = (h, Ok (byte_at h v i)).
Proof.
  intros Hh Hv Hi. unfold geti. erewrite bind_ok by (apply getn_run; assumption).
  pose proof (byte_at_byte h v i Hh) as B.
  rewrite ToInt32_of_Z by (unfold byte in B; lia). rewrite sint32_byte by exact B. reflexivity.
Qed.

Lemma put_run h v i n :
  0 <= i < vlen v -> put v i n h = (store h v i [ToUint8 n], Ok tt).
Proof. intros Hi. unfold put, modify. zbool. reflexivity. Qed.

Lemma put_run_out h v i n : ~ (0 <= i < vlen v) -> put v i n h = (h, Ok tt).
Proof.
  intros Hi. unfold put, modify. destruct (Z.leb_spec 0 i); [|reflexivity].
  rewrite (proj2 (Z.ltb_ge _ _)) by lia. reflexivity.
Qed.

Lemma toU32_run h z : 0 <= z < 2 ^ 32 -> toU32 (Num (of_Z z)) h = (h, Ok z).
Proof.
  intros Hz. unfold toU32, toNum, bind, ret. rewrite ToUint32_of_Z by lia.
  rewrite Z.mod_small by lia. reflexivity.
Qed.

#[export] Hint Resolve get_run getn_run geti_run put_run toU32_run : js_run.

(** ** Comparisons of values *)

(** The Number a relational operator reads from a value. *)
Definition num_of (v : val) : num :=
  match v with
  | Null => of_Z 0
  | Bool b => of_Z (if b then 1 else 0)
  | Num n => n
  | BigInt z => of_Z z
  | Str s => StringToNumber s
  | _ => NaN
  end.

Fixpoint str_ltb (s t : jsstr) : bool :=
  match s, t with
  | _, [] => false
  | [], _ :: _ => true
  | a :: s', b :: t' => if a =? b then str_ltb s' t' else a <? b
  end.

(** A BigInt against a Number, exactly ([None] for NaN). *)
Definition big_num_compare (z : Z) (n : num) : option comparison :=
  match n with
  | S754_nan => None
  | S754_infinity s => Some (if s then Gt else Lt)
  | S754_zero _ => Some (z ?= 0)
  | S754_finite s m e =>
      let m := if s then Z.neg m else Z.pos m in
      Some (if 0 <=? e then z ?= m * 2 ^ e else z * 2 ^ (- e) ?= m)
  end.

(** [StringToBigInt]. *)
Definition StringToBigInt (s : jsstr) : option Z :=
  let whole base t := match take_digits base 0 0 t with
                      | (v, n, []) => if n =? 0 then None else Some v
                      | _ => None
                      end in
  match trim s with
  | [] => Some 0
  | 45 :: t => option_map Z.opp (whole 10 t)
  | 43 :: t => whole 10 t
  | 48 :: c :: t =>
      if (c =? 120) || (c =? 88) then whole 16 t
      else if (c =? 111) || (c =? 79) then whole 8 t
      else if (c =? 98) || (c =? 66) then whole 2 t
      else whole 10 (48 :: c :: t)
  | t => whole 10 t
  end.

(** A BigInt against another value. *)
Definition big_compare (z : Z) (v : val) : option comparison :=
  match v with
  | BigInt y => Some (z ?= y)
  | Str s => option_map (Z.compare z) (StringToBigInt s)
  | _ => big_num_compare z (num_of v)
  end.

(** [a < b] and [a <= b]; two strings compare by code units. *)
Definition js_lt (a b : val) : bool :=
  match a, b with
  | Str s, Str t => str_ltb s t
  | BigInt x, _ => match big_compare x b with Some Lt => true | _ => false end
  | _, BigInt y => match big_compare y a with Some Gt => true | _ => false end
  | _, _ => flt (num_of a) (num_of b)
  end.
Definition js_le (a b : val) : bool :=
  match a, b with
  | Str s, Str t => negb (str_ltb t s)
  | BigInt x, _ => match big_compare x b with Some Lt | Some Eq => true | _ => false end
  | _, BigInt y => match big_compare y a with Some Gt | Some Eq => true | _ => false end
  | _, _ => fle (num_of a) (num_of b)
  end.

(** [a === b] on the values the sources compare this way. *)
Definition strict_eq (a b : val) : bool :=
  match a, b with
  | Undefined, Undefined | Null, Null => true
  | Bool x, Bool y => eqb x y
  | Num x, Num y => feq x y
  | BigInt x, BigInt y => x =? y
  | Str s, Str t => str_eqb s t
  | VView v, VView w => Nat.eqb (vid v) (vid w)
  | VArrayBuffer x, VArrayBuffer y => Nat.eqb x y
  | _, _ => false
  end.

Lemma js_lt_num a b :
  Z.abs a <= 2 ^ 53 -> Z.abs b <= 2 ^ 53 -> js_lt (Num (of_Z a)) (Num (of_Z b)) = (a <? b).
Proof. apply flt_of_Z. Qed.
Lemma js_le_num a b :
  Z.abs a <= 2 ^ 53 -> Z.abs b <= 2 ^ 53 -> js_le (Num (of_Z a)) (Num (of_Z b)) = (a <=? b).
Proof. apply fle_of_Z. Qed.
Lemma strict_eq_num a b :
  Z.abs a <= 2 ^ 53 -> Z.abs b <= 2 ^ 53 -> strict_eq (Num (of_Z a)) (Num (of_Z b)) = (a =? b).
Proof. apply feq_of_Z. Qed.
Lemma truthy_num a : Z.abs a <= 2 ^ 53 -> truthy (Num (of_Z a)) = negb (a =? 0).
Proof. apply num_truthy_of_Z. Qed.
Lemma js_lt_undef_l v : js_lt Undefined v = false.
Proof. destruct v; reflexivity. Qed.
Lemma js_lt_undef_r n : js_lt (Num n) Undefined = false.
Proof. destruct n; reflexivity. Qed.

(** ** A sample store: one array buffer of eight bytes, and views of it *)

Definition sample_heap : heap := Heap (<[0%nat := [1; 2; 3; 4; 5; 6; 7; 200]]> ∅) 3.
Definition sample_view : view := View 0 true 0 0 8.
Definition sample_tail : view := View 1 true 0 2 6.

Lemma sample_heap_ok : heap_ok sample_heap.
Proof.
  intros a l H. cbn [mem sample_heap fresh] in *.
  destruct (decide (a = 0%nat)) as [->|N].
  - rewrite lookup_insert_eq in H. injection H as <-. split; [|lia]. repeat constructor; lia.
  - rewrite lookup_insert_ne in H by congruence. rewrite lookup_empty in H. discriminate.
Qed.

Lemma sample_view_ok : view_ok sample_heap sample_view.
Proof. repeat split; try lia; try (vm_compute; congruence). Qed.

Lemma sample_tail_ok : view_ok sample_heap sample_tail.
Proof. repeat split; try lia; try (vm_compute; congruence). Qed.
