(* ===== verification/Base64.v ===== *)
(** [src/builtins/internal_js_modules/__winterjs_internal/base64-js.js]:
    the Base64 codec behind [Buffer]'s "base64" encoding.

    Definitions follow the module function by function.  The decoder is shown
    equal to a reference decoder of sextets, the chunked encoder equal to a
    reference encoder, and the two inverse to each other. *)

From Stdlib Require Import String.
From stdpp Require Import base numbers list gmap.
From S2P Require Import Prelude JsNumber JsValue.

Local Open Scope Z_scope.

Module base64.

(** ** Tables *)

Definition code : jsstr :=
  js "ABCDEFGHIJKLMNOPQRSTUVWXYZabcdefghijklmnopqrstuvwxyz0123456789+/".

(** [lookup[i]]: a one-character string, [undefined] past the table (string
    concatenation then inserts the word). *)
Definition lookup (i : Z) : jsstr :=
  match zget code i with Some c => [c] | None => js "undefined" end.

(** [revLookup], built by the loop over [code] and the two URL-safe entries. *)
Definition revLookup : gmap Z Z :=
  <[95 := 63]> (<[45 := 62]>
    (for_range 0 (Z.of_nat (length code)) 1
       (fun i m => match zget code i with Some c => <[c := i]> m | None => m end) ∅)).

(** [revLookup[b64.charCodeAt(i)]] as the operand of a bit operation:
    [undefined] counts as 0. *)
Definition rev (b64 : jsstr) (i : Z) : Z :=
  match zget b64 i with Some c => default 0 (revLookup !! c) | None => 0 end.

(** ** Decoding *)

(** [b64.indexOf('=')], with -1 turned into the length by the caller. *)
Fixpoint index_eq (b64 : jsstr) : option Z :=
  match b64 with
  | [] => None
  | c :: s => if c =? 61 then Some 0 else (fun n => n + 1) <$> index_eq s
  end.

Definition getLens (b64 : jsstr) : outcome exn (Z * Z) :=
  let len := Z.of_nat (length b64) in
  if 0 <? len mod 4 then
    Throw (EError [Txt "Invalid string. Length must be a multiple of 4"])
  else
    let validLen := match index_eq b64 with Some n => n | None => len end in
    let placeHoldersLen := if validLen =? len then 0 else 4 - validLen mod 4 in
    Ok (validLen, placeHoldersLen).

Definition _byteLength (validLen placeHoldersLen : Z) : Z :=
  (validLen + placeHoldersLen) * 3 / 4 - placeHoldersLen.

Definition byteLength (b64 : jsstr) : outcome exn Z :=
  match getLens b64 with
  | Ok (validLen, placeHoldersLen) =>
      Ok ((validLen + placeHoldersLen) * 3 / 4 - placeHoldersLen)
  | Throw e => Throw e
  end.

(** [arr[curByte++] = x & 0xFF] on the array and its cursor. *)
Definition emit (x : Z) (st : list Z * nat) : list Z * nat :=
  (<[snd st := and32 x 255]> (fst st), S (snd st)).

(** One turn of the decoding loop: four characters, three bytes. *)
Definition decode_quad (b64 : jsstr) (i : Z) (st : list Z * nat) : list Z * nat :=
  let tmp := or32 (or32 (or32 (shl32 (rev b64 i) 18) (shl32 (rev b64 (i + 1)) 12))
                        (shl32 (rev b64 (i + 2)) 6)) (rev b64 (i + 3)) in
  emit tmp (emit (sar32 tmp 8) (emit (sar32 tmp 16) st)).

Definition toByteArray (b64 : jsstr) : outcome exn (list Z) :=
  match getLens b64 with
  | Throw e => Throw e
  | Ok (validLen, placeHoldersLen) =>
      let n := _byteLength validLen placeHoldersLen in
      if n <? 0 then Throw (ERangeError [Txt "invalid array length"])
      else
        let arr := replicate (Z.to_nat n) 0 in
        let len := if 0 <? placeHoldersLen then validLen - 4 else validLen in
        let st := for_range 0 len 4 (decode_quad b64) (arr, 0%nat) in
        (* [i] keeps the value that ended the loop *)
        let i := Z.max 0 (4 * ((len + 3) / 4)) in
        let st :=
          if placeHoldersLen =? 2 then
            emit (or32 (shl32 (rev b64 i) 2) (sar32 (rev b64 (i + 1)) 4)) st
          else st in
        let st :=
          if placeHoldersLen =? 1 then
            let tmp := or32 (or32 (shl32 (rev b64 i) 10) (shl32 (rev b64 (i + 1)) 4))
                            (sar32 (rev b64 (i + 2)) 2) in
            emit tmp (emit (sar32 tmp 8) st)
          else st in
        Ok (fst st)
  end.

(** ** Encoding *)

(** The element [uint8[i]] as the operand of a bit operation. *)
Definition u8 (uint8 : list Z) (i : Z) : Z := default 0 (zget uint8 i).

Definition tripletToBase64 (num : Z) : jsstr :=
  lookup (and32 (sar32 num 18) 63) ++ lookup (and32 (sar32 num 12) 63) ++
  lookup (and32 (sar32 num 6) 63) ++ lookup (and32 num 63).

Definition encodeChunk (uint8 : list Z) (start end_ : Z) : jsstr :=
  concat (for_range start end_ 3
    (fun i output =>
       let tmp := and32 (shl32 (u8 uint8 i) 16) 16711680 +
                  and32 (shl32 (u8 uint8 (i + 1)) 8) 65280 +
                  and32 (u8 uint8 (i + 2)) 255 in
       output ++ [tripletToBase64 tmp]) []).

Definition maxChunkLength : Z := 16383.

Definition fromByteArray (uint8 : list Z) : jsstr :=
  let len := Z.of_nat (length uint8) in
  let extraBytes := len mod 3 in
  let len2 := len - extraBytes in
  let parts := for_range 0 len2 maxChunkLength
    (fun i parts =>
       parts ++ [encodeChunk uint8 i
                   (if len2 <? i + maxChunkLength then len2 else i + maxChunkLength)]) [] in
  let parts :=
    if extraBytes =? 1 then
      let tmp := u8 uint8 (len - 1) in
      parts ++ [lookup (sar32 tmp 2) ++ lookup (and32 (shl32 tmp 4) 63) ++ js "=="]
    else if extraBytes =? 2 then
      let tmp := shl32 (u8 uint8 (len - 2)) 8 + u8 uint8 (len - 1) in
      parts ++ [lookup (sar32 tmp 10) ++ lookup (and32 (sar32 tmp 4) 63) ++
                lookup (and32 (shl32 tmp 2) 63) ++ js "="]
    else parts in
  concat parts.

(** ** Reference codec *)

(** Base64 by groups of three bytes, read as one big-endian number in base 64. *)
Definition sextet (n : Z) : jsstr := lookup (n mod 64).

Fixpoint encode_spec (bs : list Z) : jsstr :=
  match bs with
  | a :: b :: c :: bs' =>
      let n := a * 65536 + b * 256 + c in
      sextet (n / 262144) ++ sextet (n / 4096) ++ sextet (n / 64) ++ sextet n ++ encode_spec bs'
  | [a; b] =>
      let n := (a * 256 + b) * 4 in
      sextet (n / 4096) ++ sextet (n / 64) ++ sextet n ++ js "="
  | [a] => sextet (a * 16 / 64) ++ sextet (a * 16) ++ js "=="
  | [] => []
  end.

(** Bytes of a list of sextets; leftover bits are dropped. *)
Fixpoint decode_spec (ss : list Z) : list Z :=
  match ss with
  | a :: b :: c :: d :: ss' =>
      let n := ((a * 64 + b) * 64 + c) * 64 + d in
      n / 65536 :: n / 256 mod 256 :: n mod 256 :: decode_spec ss'
  | [a; b; c] => let n := ((a * 64 + b) * 64 + c) / 4 in [n / 256; n mod 256]
  | [a; b] => [(a * 64 + b) / 16]
  | _ => []
  end.

(** The sextet a character stands for, 0 when it stands for none. *)
Definition char_sextet (c : Z) : Z := default 0 (revLookup !! c).

Example toByteArray_hello :
  toByteArray (js "SGVsbG8sIHdvcmxkIQ==") = Ok (js "Hello, world!").
Proof. vm_compute. reflexivity. Qed.
Example fromByteArray_hello :
  fromByteArray (js "Hello, world!") = js "SGVsbG8sIHdvcmxkIQ==".
Proof. vm_compute. reflexivity. Qed.

(** ** Tables *)

Lemma char_sextet_range c : 0 <= char_sextet c < 64.
Proof.
  unfold char_sextet. destruct (revLookup !! c) as [s|] eqn:E; [|cbn; lia]. cbn.
  assert (H : map_Forall (fun _ s => 0 <= s < 64) revLookup).
  { apply map_Forall_to_list. apply Forall_forall.
    assert (B : forallb (fun p => (0 <=? snd p) && (snd p <? 64)) (map_to_list revLookup) = true)
      by (vm_compute; reflexivity).
    rewrite forallb_forall in B. intros [k v] Hp. apply list_elem_of_In, B in Hp. cbn in *. lia. }
  exact (H c s E).
Qed.

Lemma rev_char s i c : zget s i = Some c -> rev s i = char_sextet c.
Proof. unfold rev. intros ->. reflexivity. Qed.

Lemma rev_range s i : 0 <= rev s i < 64.
Proof. unfold rev. destruct (zget s i); [apply char_sextet_range|lia]. Qed.

Lemma lookup_inverse i :
  0 <= i < 64 -> exists c, lookup i = [c] /\ char_sextet c = i /\ c <> 61.
Proof.
  intros Hi.
  assert (B : forallb (fun i => match lookup i with
                                | [c] => (char_sextet c =? i) && negb (c =? 61)
                                | _ => false end) (indices 0 64 1) = true)
    by (vm_compute; reflexivity).
  rewrite forallb_forall in B.
  assert (Hin : In i (indices 0 64 1)).
  { apply list_elem_of_In, elem_of_indices_1. lia. }
  specialize (B i Hin). cbv beta in B. destruct (lookup i) as [|c [|]]; try discriminate.
  apply andb_true_iff in B as [B1%Z.eqb_eq B2%negb_true_iff%Z.eqb_neq].
  exists c. auto.
Qed.

(** ** The decoder computes [decode_spec] *)

Lemma quad_value a b c d :
  0 <= a < 64 -> 0 <= b < 64 -> 0 <= c < 64 -> 0 <= d < 64 ->
  or32 (or32 (or32 (shl32 a 18) (shl32 b 12)) (shl32 c 6)) d = ((a * 64 + b) * 64 + c) * 64 + d.
Proof.
  intros. rewrite !shl32_small by lia.
  rewrite (or32_disjoint a _ 18) by lia.
  replace (a * 2 ^ 18 + b * 2 ^ 12) with ((a * 64 + b) * 2 ^ 12) by lia.
  rewrite (or32_disjoint _ _ 12) by lia.
  replace ((a * 64 + b) * 2 ^ 12 + c * 2 ^ 6) with (((a * 64 + b) * 64 + c) * 2 ^ 6) by lia.
  rewrite (or32_disjoint _ _ 6) by lia. lia.
Qed.

Lemma emit_at x w z m :
  emit x (w ++ z :: m, length w) = ((w ++ [x mod 256]) ++ m, length (w ++ [x mod 256])).
Proof.
  unfold emit, and32. cbn [fst snd]. rewrite land_255. f_equal.
  - rewrite insert_app_r_alt by lia. rewrite Nat.sub_diag. cbn. rewrite <- app_assoc. reflexivity.
  - rewrite length_app. cbn. lia.
Qed.

Lemma decode_quad_at s i w m :
  decode_quad s i (w ++ [0; 0; 0] ++ m, length w) =
  let bs := decode_spec [rev s i; rev s (i + 1); rev s (i + 2); rev s (i + 3)] in
  ((w ++ bs) ++ m, length (w ++ bs)).
Proof.
  unfold decode_quad.
  pose proof (rev_range s i). pose proof (rev_range s (i + 1)).
  pose proof (rev_range s (i + 2)). pose proof (rev_range s (i + 3)).
  rewrite quad_value by assumption. set (n := _ + rev s (i + 3)). cbn [app].
  rewrite !emit_at. rewrite !sar32_div by lia. cbn [decode_spec]. fold n.
  change (2 ^ 16) with 65536. change (2 ^ 8) with 256.
  rewrite (Z.mod_small (n / 65536)).
  - rewrite <- !app_assoc. reflexivity.
  - split; [apply Z.div_pos; lia|apply Z.div_lt_upper_bound; lia].
Qed.

Lemma take_drop_quad (s : list Z) (lo k : nat) :
  (lo + 4 * S k <= length s)%nat ->
  exists a b c d,
    take (4 * S k) (drop lo s) = a :: b :: c :: d :: take (4 * k) (drop (lo + 4) s) /\
    zget s (Z.of_nat lo) = Some a /\ zget s (Z.of_nat lo + 1) = Some b /\
    zget s (Z.of_nat lo + 2) = Some c /\ zget s (Z.of_nat lo + 3) = Some d.
Proof.
  intros H. rewrite <- drop_drop.
  assert (G : forall j, (j < 4)%nat -> zget s (Z.of_nat lo + Z.of_nat j) = drop lo s !! j).
  { intros j _. rewrite <- Nat2Z.inj_add, zget_nat, lookup_drop. reflexivity. }
  destruct (drop lo s) as [|a [|b [|c [|d r]]]] eqn:E;
    try (apply (f_equal length) in E; rewrite length_drop in E; cbn in E; lia).
  exists a, b, c, d. split; [|split; [|split; [|split]]].
  - replace (4 * S k)%nat with (S (S (S (S (4 * k)))))%nat by lia. reflexivity.
  - specialize (G 0%nat). rewrite Z.add_0_r in G. apply G. lia.
  - apply (G 1%nat). lia.
  - apply (G 2%nat). lia.
  - apply (G 3%nat). lia.
Qed.

Lemma decode_loop s k lo w m :
  (lo + 4 * k <= length s)%nat ->
  for_range (Z.of_nat lo) (Z.of_nat (lo + 4 * k)) 4 (decode_quad s)
            (w ++ replicate (3 * k) 0 ++ m, length w) =
  let bs := decode_spec (map char_sextet (take (4 * k) (drop lo s))) in
  ((w ++ bs) ++ m, length (w ++ bs)).
Proof.
  revert lo w. induction k as [|k IH]; intros lo w H.
  - unfold for_range. rewrite indices_nil by lia. cbn. rewrite app_nil_r. reflexivity.
  - unfold for_range. rewrite indices_cons by lia. cbn [fold_left].
    destruct (take_drop_quad s lo k H) as (a & b & c & d & Hq & Ha & Hb & Hc & Hd).
    replace (replicate (3 * S k) 0) with ([0; 0; 0] ++ replicate (3 * k) 0)
      by (replace (3 * S k)%nat with (S (S (S (3 * k)))) by lia; reflexivity).
    rewrite <- app_assoc. rewrite decode_quad_at. cbv zeta.
    rewrite (rev_char _ _ _ Ha), (rev_char _ _ _ Hb), (rev_char _ _ _ Hc), (rev_char _ _ _ Hd).
    specialize (IH (lo + 4)%nat (w ++ decode_spec [char_sextet a; char_sextet b; char_sextet c; char_sextet d])).
    unfold for_range in IH.
    replace (Z.of_nat lo + 4) with (Z.of_nat (lo + 4)) by lia.
    replace (lo + 4 * S k)%nat with (lo + 4 + 4 * k)%nat by lia.
    rewrite IH by lia. rewrite Hq. cbn [map decode_spec app]. rewrite <- !app_assoc. reflexivity.
Qed.

Lemma decode_spec_app k a b :
  length a = (4 * k)%nat -> decode_spec (a ++ b) = decode_spec a ++ decode_spec b.
Proof.
  revert a. induction k as [|k IH]; intros a H.
  - destruct a; [reflexivity|cbn in H; lia].
  - destruct a as [|x [|y [|z [|t a]]]]; cbn in H; try lia.
    cbn [app decode_spec]. rewrite IH by lia. reflexivity.
Qed.

Definition valid_len (s : jsstr) : Z :=
  match index_eq s with Some n => n | None => Z.of_nat (length s) end.

Lemma index_eq_range s n : index_eq s = Some n -> 0 <= n < Z.of_nat (length s).
Proof.
  revert n. induction s as [|c s IH]; intros n; cbn; [discriminate|].
  destruct (c =? 61); [intros [= <-]; lia|].
  destruct (index_eq s) as [k|]; cbn; [|discriminate].
  intros [= <-]. specialize (IH k eq_refl). lia.
Qed.

Lemma valid_len_range s : 0 <= valid_len s <= Z.of_nat (length s).
Proof.
  unfold valid_len. destruct (index_eq s) eqn:E; [apply index_eq_range in E|]; lia.
Qed.

Lemma tail2_value a b :
  0 <= a < 64 -> 0 <= b < 64 -> or32 (shl32 a 2) (sar32 b 4) = (a * 64 + b) / 16.
Proof.
  intros. rewrite shl32_small, sar32_div by lia. change (2 ^ 4) with 16.
  assert (0 <= b / 16 < 4) by (split; [apply Z.div_pos|apply Z.div_lt_upper_bound]; lia).
  rewrite (or32_disjoint a _ 2) by lia.
  replace (a * 64 + b) with (a * 4 * 16 + b) by lia. rewrite Z.div_add_l by lia. lia.
Qed.

Lemma tail3_value a b c :
  0 <= a < 64 -> 0 <= b < 64 -> 0 <= c < 64 ->
  or32 (or32 (shl32 a 10) (shl32 b 4)) (sar32 c 2) = ((a * 64 + b) * 64 + c) / 4.
Proof.
  intros. rewrite !shl32_small, sar32_div by lia. change (2 ^ 2) with 4.
  assert (0 <= c / 4 < 16) by (split; [apply Z.div_pos|apply Z.div_lt_upper_bound]; lia).
  rewrite (or32_disjoint a _ 10) by lia.
  replace (a * 2 ^ 10 + b * 2 ^ 4) with ((a * 64 + b) * 2 ^ 4) by lia.
  rewrite (or32_disjoint _ _ 4) by lia.
  replace ((a * 64 + b) * 64 + c) with ((a * 64 + b) * 16 * 4 + c) by lia.
  rewrite Z.div_add_l by lia. lia.
Qed.

(** The tail after the whole quads: nothing, or the bytes of 2 or 3 characters. *)
Lemma decode_tail s k r w :
  (4 * k + r <= length s)%nat -> (r < 4)%nat ->
  let i := Z.of_nat (4 * k) in
  let ph := if Nat.eqb r 0 then 0 else 4 - Z.of_nat r in
  let st := (w ++ replicate (r - 1) 0, length w) in
  let st := if ph =? 2 then emit (or32 (shl32 (rev s i) 2) (sar32 (rev s (i + 1)) 4)) st else st in
  let st := if ph =? 1 then
      let tmp := or32 (or32 (shl32 (rev s i) 10) (shl32 (rev s (i + 1)) 4))
                      (sar32 (rev s (i + 2)) 2) in
      emit tmp (emit (sar32 tmp 8) st) else st in
  fst st = w ++ decode_spec (map char_sextet (take r (drop (4 * k) s))).
Proof.
  intros H Hr. set (i := Z.of_nat (4 * k)).
  assert (G : forall j c, drop (4 * k) s !! j = Some c -> rev s (i + Z.of_nat j) = char_sextet c).
  { intros j c Hc. apply rev_char. unfold i. rewrite <- Nat2Z.inj_add, zget_nat.
    rewrite <- lookup_drop. exact Hc. }
  assert (L : (r <= length (drop (4 * k) s))%nat) by (rewrite length_drop; lia).
  pose proof (rev_range s i). pose proof (rev_range s (i + 1)). pose proof (rev_range s (i + 2)).
  destruct (drop (4 * k) s) as [|a [|b [|c l]]];
    destruct r as [|[|[|[|r]]]]; cbn [length] in L; try lia;
    cbn [Nat.eqb take map decode_spec Nat.sub replicate app];
    try (cbn; rewrite app_nil_r; reflexivity).
  1, 2: change (4 - Z.of_nat 2) with 2; cbn [Z.eqb Pos.eqb];
    rewrite emit_at; cbn [fst]; rewrite tail2_value by assumption;
    pose proof (G 0%nat a eq_refl) as Ga; pose proof (G 1%nat b eq_refl) as Gb;
    rewrite Z.add_0_r in Ga; change (Z.of_nat 1) with 1 in Gb;
    rewrite <- Ga, <- Gb, app_nil_r, Z.mod_small;
      [reflexivity|split; [apply Z.div_pos|apply Z.div_lt_upper_bound]; lia].
  change (4 - Z.of_nat 3) with 1. cbn [Z.eqb Pos.eqb].
  rewrite tail3_value by assumption. cbv zeta. rewrite !emit_at. cbn [fst].
  pose proof (G 0%nat a eq_refl) as Ga. pose proof (G 1%nat b eq_refl) as Gb.
  pose proof (G 2%nat c eq_refl) as Gc.
  rewrite Z.add_0_r in Ga. change (Z.of_nat 1) with 1 in Gb. change (Z.of_nat 2) with 2 in Gc.
  rewrite <- Ga, <- Gb, <- Gc, app_nil_r, <- app_assoc, sar32_div by lia.
  change (2 ^ 8) with 256. rewrite (Z.mod_small (_ / 256)); [reflexivity|].
  split; [apply Z.div_pos; [apply Z.div_pos|]|apply Z.div_lt_upper_bound; [|apply Z.div_lt_upper_bound]]; lia.
Qed.

Lemma getLens_ok s :
  Z.of_nat (length s) mod 4 = 0 ->
  getLens s = Ok (valid_len s,
    if valid_len s =? Z.of_nat (length s) then 0 else 4 - valid_len s mod 4).
Proof. intros H. unfold getLens. rewrite H. reflexivity. Qed.

Lemma decode_main s k r :
  Z.of_nat (length s) mod 4 = 0 -> valid_len s = Z.of_nat (4 * k + r) -> (r < 4)%nat ->
  (4 * k + r < length s -> r <> 0)%nat ->
  toByteArray s = Ok (decode_spec (map char_sextet (take (4 * k + r) s))).
Proof.
  intros Hm Hv Hr Hp. pose proof (valid_len_range s) as Hl.
  assert (Hr4 : Z.of_nat (4 * k + r) mod 4 = Z.of_nat r).
  { rewrite Nat2Z.inj_add, Nat2Z.inj_mul, Z.add_comm, Z.mul_comm, Z.mod_add by lia.
    apply Z.mod_small. lia. }
  unfold toByteArray. rewrite (getLens_ok s Hm), Hv, Hr4.
  set (ph := if Nat.eqb r 0 then 0 else 4 - Z.of_nat r).
  replace (if _ =? _ then 0 else 4 - Z.of_nat r) with ph.
  2:{ unfold ph. destruct (Z.eqb_spec (Z.of_nat (4 * k + r)) (Z.of_nat (length s))) as [E|E].
      - rewrite <- E, Hr4 in Hm. replace r with 0%nat by lia. reflexivity.
      - destruct (Nat.eqb_spec r 0); [lia|reflexivity]. }
  cbv zeta. set (len := if 0 <? ph then _ else _).
  assert (Hn : _byteLength (Z.of_nat (4 * k + r)) ph = Z.of_nat (3 * k + (r - 1))).
  { unfold _byteLength, ph. destruct (Nat.eqb_spec r 0) as [->|Hr0].
    - replace ((Z.of_nat (4 * k + 0) + 0) * 3) with (Z.of_nat k * 3 * 4) by lia.
      rewrite Z.div_mul; lia.
    - replace ((Z.of_nat (4 * k + r) + (4 - Z.of_nat r)) * 3) with ((Z.of_nat k + 1) * 3 * 4) by lia.
      rewrite Z.div_mul; lia. }
  assert (Hi : (len + 3) / 4 = Z.of_nat k).
  { unfold len, ph. destruct (Nat.eqb_spec r 0) as [->|Hr0]; [|destruct (Z.ltb_spec 0 (4 - Z.of_nat r)); [|lia]].
    - cbn [Z.ltb Z.compare]. symmetry. apply (Z.div_unique_pos _ 4 _ 3); lia.
    - symmetry. apply (Z.div_unique_pos _ 4 _ (Z.of_nat r - 1)); lia. }
  rewrite Hn, (proj2 (Z.ltb_ge _ 0)) by lia. rewrite Nat2Z.id.
  unfold for_range. rewrite (indices_count 0 len (Z.of_nat (4 * k)) 4).
  2:{ replace (len - 0 + 4 - 1) with (len + 3) by lia. rewrite Hi.
      apply (Z.div_unique_pos _ 4 _ 3); lia. }
  rewrite replicate_add.
  pose proof (decode_loop s k 0 [] (replicate (r - 1) 0) ltac:(lia)) as D.
  unfold for_range in D. cbn [app length] in D. change (Z.of_nat 0) with 0 in D.
  change (0 + 4 * k)%nat with (4 * k)%nat in D. rewrite D. cbv zeta. cbn [drop].
  rewrite Hi. replace (Z.max 0 (4 * Z.of_nat k)) with (Z.of_nat (4 * k)) by lia.
  f_equal. fold ph. pose proof (decode_tail s k r (decode_spec (map char_sextet (take (4 * k) s)))
    ltac:(lia) Hr) as T. cbv zeta in T. fold ph in T. etransitivity; [exact T|].
  rewrite <- (decode_spec_app k) by (rewrite length_map, length_take; lia).
  rewrite <- map_app. f_equal. f_equal.
  rewrite <- (take_drop (4 * k) (take (4 * k + r) s)) at 1.
  rewrite take_take, <- take_drop_commute. f_equal; f_equal; lia.
Qed.

Lemma toByteArray_run s :
  Z.of_nat (length s) mod 4 = 0 ->
  (valid_len s = Z.of_nat (length s) \/ valid_len s mod 4 <> 0) ->
  toByteArray s = Ok (decode_spec (map char_sextet (take (Z.to_nat (valid_len s)) s))).
Proof.
  intros Hm Hv. pose proof (valid_len_range s) as Hl.
  set (v := valid_len s) in *. pose proof (Z.div_mod v 4 ltac:(lia)) as E.
  pose proof (Z.mod_pos_bound v 4 ltac:(lia)) as B.
  replace (Z.to_nat v) with (4 * Z.to_nat (v / 4) + Z.to_nat (v mod 4))%nat by lia.
  apply decode_main; try assumption; fold v; lia.
Qed.

(** ** The encoder computes [encode_spec] *)

Definition chunk_triplet (u : list Z) (i : Z) : jsstr :=
  tripletToBase64 (and32 (shl32 (u8 u i) 16) 16711680 + and32 (shl32 (u8 u (i + 1)) 8) 65280 +
                   and32 (u8 u (i + 2)) 255).

Lemma encodeChunk_map u lo hi :
  encodeChunk u lo hi = concat (map (chunk_triplet u) (indices lo hi 3)).
Proof.
  unfold encodeChunk.
  rewrite (for_range_push lo hi 3 (fun i => tripletToBase64 (and32 (shl32 (u8 u i) 16) 16711680 +
    and32 (shl32 (u8 u (i + 1)) 8) 65280 + and32 (u8 u (i + 2)) 255))). reflexivity.
Qed.

Lemma encodeChunk_split u lo n hi :
  0 <= n -> lo + 3 * n <= hi ->
  encodeChunk u lo hi = encodeChunk u lo (lo + 3 * n) ++ encodeChunk u (lo + 3 * n) hi.
Proof.
  intros Hn H. rewrite !encodeChunk_map, (indices_app lo n hi) by lia.
  rewrite map_app, concat_app. reflexivity.
Qed.

(** Chunking does not show in the result. *)
Lemma chunks_concat u len2 N lo :
  len2 - lo <= maxChunkLength * Z.of_nat N ->
  concat (map (fun i => encodeChunk u i
     (if len2 <? i + maxChunkLength then len2 else i + maxChunkLength))
     (indices lo len2 maxChunkLength)) = encodeChunk u lo len2.
Proof.
  revert lo. unfold maxChunkLength. induction N as [|N IH]; intros lo H.
  - rewrite indices_nil by lia. rewrite encodeChunk_map, indices_nil by lia. reflexivity.
  - destruct (Z.lt_ge_cases lo len2) as [L|L].
    2:{ rewrite indices_nil by lia. rewrite encodeChunk_map, indices_nil by lia. reflexivity. }
    rewrite indices_cons by lia. cbn [map concat]. rewrite IH by lia.
    destruct (Z.ltb_spec len2 (lo + 16383)) as [C|C].
    + rewrite (encodeChunk_map u (lo + 16383)), indices_nil by lia. apply app_nil_r.
    + rewrite (encodeChunk_split u lo 5461 len2) by lia. reflexivity.
Qed.

Lemma u8_cons3 a b c u i : 0 <= i -> u8 (a :: b :: c :: u) (i + 3) = u8 u i.
Proof.
  intros Hi. unfold u8. rewrite !zget_cons by lia. f_equal. f_equal. lia.
Qed.

Lemma triplet_value a b c :
  byte a -> byte b -> byte c ->
  and32 (shl32 a 16) 16711680 + and32 (shl32 b 8) 65280 + and32 c 255
  = a * 65536 + b * 256 + c.
Proof.
  unfold byte. intros. rewrite !shl32_small by lia. unfold and32.
  change 16711680 with (255 * 2 ^ 16). change 65280 with (255 * 2 ^ 8).
  rewrite !land_shifted, !land_255 by lia. rewrite !Z.mod_small by lia. reflexivity.
Qed.

Lemma tripletToBase64_value n :
  tripletToBase64 n = sextet (n / 262144) ++ sextet (n / 4096) ++ sextet (n / 64) ++ sextet n.
Proof.
  unfold tripletToBase64, sextet, and32. rewrite !land_63, !sar32_div by lia. reflexivity.
Qed.

Lemma encodeChunk_cons3 a b c u n :
  byte a -> byte b -> byte c -> 0 <= n ->
  encodeChunk (a :: b :: c :: u) 0 (n + 3) =
  tripletToBase64 (a * 65536 + b * 256 + c) ++ encodeChunk u 0 n.
Proof.
  intros Ha Hb Hc Hn. rewrite !encodeChunk_map, indices_cons by lia. cbn [map concat]. f_equal.
  - unfold chunk_triplet. rewrite <- triplet_value by assumption. reflexivity.
  - rewrite (indices_shift 0 n 3 3). f_equal.
    rewrite <- (list_fmap_compose (fun i => i + 3) (chunk_triplet (a :: b :: c :: u))).
    apply list_fmap_ext. intros k i Hi. unfold compose, chunk_triplet.
    apply list_elem_of_lookup_2, elem_of_indices in Hi; [|lia].
    rewrite !(Z.add_shuffle0 i 3), !u8_cons3 by lia. reflexivity.
Qed.

(** The padded tail [fromByteArray] appends. *)
Definition encode_tail (u : list Z) : jsstr :=
  let len := Z.of_nat (length u) in
  if len mod 3 =? 1 then
    let tmp := u8 u (len - 1) in
    lookup (sar32 tmp 2) ++ lookup (and32 (shl32 tmp 4) 63) ++ js "=="
  else if len mod 3 =? 2 then
    let tmp := shl32 (u8 u (len - 2)) 8 + u8 u (len - 1) in
    lookup (sar32 tmp 10) ++ lookup (and32 (sar32 tmp 4) 63) ++
      lookup (and32 (shl32 tmp 2) 63) ++ js "="
  else [].

Lemma fromByteArray_split u :
  fromByteArray u =
  encodeChunk u 0 (Z.of_nat (length u) - Z.of_nat (length u) mod 3) ++ encode_tail u.
Proof.
  unfold fromByteArray, encode_tail. set (len := Z.of_nat (length u)).
  set (len2 := len - len mod 3).
  rewrite (for_range_push 0 len2 maxChunkLength (fun i => encodeChunk u i
     (if len2 <? i + maxChunkLength then len2 else i + maxChunkLength))). cbn [app].
  rewrite <- (chunks_concat u len2 (length u) 0).
  2:{ unfold maxChunkLength, len2, len.
      pose proof (Z.mod_pos_bound (Z.of_nat (length u)) 3 ltac:(lia)). lia. }
  destruct (len mod 3 =? 1); [|destruct (len mod 3 =? 2)].
  1, 2: rewrite concat_app; cbn [concat]; rewrite app_nil_r; reflexivity.
  rewrite app_nil_r. reflexivity.
Qed.

Lemma tail1_value a :
  byte a ->
  lookup (sar32 a 2) ++ lookup (and32 (shl32 a 4) 63) ++ js "==" = encode_spec [a].
Proof.
  unfold byte. intros Ha. cbn [encode_spec]. unfold sextet, and32.
  rewrite shl32_small, sar32_div, land_63 by lia. change (2 ^ 2) with 4. change (2 ^ 4) with 16.
  replace (a * 16 / 64 mod 64) with (a / 4); [reflexivity|].
  change (a * 16 / 64) with (a * 16 / (4 * 16)).
  rewrite (Z.div_mul_cancel_r a 4 16) by lia. symmetry. apply Z.mod_small.
  split; [apply Z.div_pos|apply Z.div_lt_upper_bound]; lia.
Qed.

Lemma tail2_enc_value a b :
  byte a -> byte b ->
  (let tmp := shl32 a 8 + b in
   lookup (sar32 tmp 10) ++ lookup (and32 (sar32 tmp 4) 63) ++
     lookup (and32 (shl32 tmp 2) 63) ++ js "=") = encode_spec [a; b].
Proof.
  unfold byte. intros Ha Hb. cbn [encode_spec]. unfold sextet, and32.
  rewrite (shl32_small a 8) by lia. cbv zeta. change (a * 2 ^ 8 + b) with (a * 256 + b).
  rewrite shl32_small, !sar32_div, !land_63 by lia.
  change (2 ^ 10) with 1024. change (2 ^ 4) with 16. change (2 ^ 2) with 4.
  set (n := a * 256 + b). change 4096 with (1024 * 4). change (n * 4 / 64) with (n * 4 / (16 * 4)).
  rewrite !Z.div_mul_cancel_r by lia. rewrite (Z.mod_small (n / 1024)); [reflexivity|].
  split; [apply Z.div_pos|apply Z.div_lt_upper_bound]; lia.
Qed.

Lemma encode_spec_split u :
  Forall byte u ->
  encode_spec u = encodeChunk u 0 (Z.of_nat (length u) - Z.of_nat (length u) mod 3) ++ encode_tail u.
Proof.
  induction u as [u IH] using (induction_ltof1 _ (@length Z)). unfold ltof in IH. intros Hu.
  destruct u as [|a [|b [|c u]]].
  - rewrite encodeChunk_map, indices_nil by (lia || (cbn [length]; vm_compute; discriminate)). reflexivity.
  - inversion_clear Hu as [|? ? Ha _]. rewrite encodeChunk_map, indices_nil by (lia || (cbn [length]; vm_compute; discriminate)).
    unfold encode_tail. cbn [length]. symmetry. apply tail1_value, Ha.
  - inversion_clear Hu as [|? ? Ha Hu']. inversion_clear Hu' as [|? ? Hb _].
    rewrite encodeChunk_map, indices_nil by (lia || (cbn [length]; vm_compute; discriminate)).
    unfold encode_tail. cbn [length]. symmetry. apply tail2_enc_value; assumption.
  - inversion_clear Hu as [|? ? Ha Hu']. inversion_clear Hu' as [|? ? Hb Hu''].
    inversion_clear Hu'' as [|? ? Hc Hu].
    assert (Hlen : Z.of_nat (length (a :: b :: c :: u)) = Z.of_nat (length u) + 1 * 3)
      by (cbn [length]; lia).
    rewrite Hlen, Z.mod_add by lia.
    replace (Z.of_nat (length u) + 1 * 3 - Z.of_nat (length u) mod 3)
      with (Z.of_nat (length u) - Z.of_nat (length u) mod 3 + 3) by lia.
    rewrite encodeChunk_cons3 by (try assumption;
      pose proof (Z.mod_le (Z.of_nat (length u)) 3 ltac:(lia) ltac:(lia)); lia).
    rewrite tripletToBase64_value. cbn [encode_spec].
    rewrite IH by (cbn [length]; lia || assumption).
    replace (encode_tail (a :: b :: c :: u)) with (encode_tail u).
    + rewrite <- !app_assoc. reflexivity.
    + unfold encode_tail. rewrite Hlen, Z.mod_add by lia.
      destruct (Z.eqb_spec (Z.of_nat (length u) mod 3) 1) as [E1|E1];
        [|destruct (Z.eqb_spec (Z.of_nat (length u) mod 3) 2) as [E2|E2]; [|reflexivity]].
      * replace (Z.of_nat (length u) + 1 * 3 - 1) with (Z.of_nat (length u) - 1 + 3) by lia.
        rewrite u8_cons3; [reflexivity|]. destruct (length u); [discriminate|lia].
      * assert (2 <= Z.of_nat (length u)) by (destruct (length u) as [|[|]]; [discriminate|discriminate|lia]).
        replace (Z.of_nat (length u) + 1 * 3 - 1) with (Z.of_nat (length u) - 1 + 3) by lia.
        replace (Z.of_nat (length u) + 1 * 3 - 2) with (Z.of_nat (length u) - 2 + 3) by lia.
        rewrite !u8_cons3 by lia. reflexivity.
Qed.

Lemma fromByteArray_run u : Forall byte u -> fromByteArray u = encode_spec u.
Proof. intros Hu. rewrite fromByteArray_split, encode_spec_split by exact Hu. reflexivity. Qed.

(** ** Round trip *)

Lemma quad_decode a b c :
  byte a -> byte b -> byte c ->
  let n := a * 65536 + b * 256 + c in
  let q := (((n / 262144 mod 64) * 64 + n / 4096 mod 64) * 64 + n / 64 mod 64) * 64 + n mod 64 in
  q = n /\ n / 65536 = a /\ n / 256 mod 256 = b /\ n mod 256 = c.
Proof.
  intros Ha Hb Hc n q. unfold byte in *. subst q. assert (Hn : 0 <= n < 64 * 64 * 64 * 64) by (unfold n; lia).
  split; [|split; [|split]].
  - replace (n / 262144) with (n / 64 / 64 / 64) by (rewrite !Z.div_div by lia; reflexivity).
    replace (n / 4096) with (n / 64 / 64) by (rewrite !Z.div_div by lia; reflexivity).
    rewrite (Z.mod_small (n / 64 / 64 / 64)).
    + pose proof (Z.div_mod n 64 ltac:(lia)). pose proof (Z.div_mod (n / 64) 64 ltac:(lia)).
      pose proof (Z.div_mod (n / 64 / 64) 64 ltac:(lia)). lia.
    + rewrite !Z.div_div by lia.
      split; [apply Z.div_pos|apply Z.div_lt_upper_bound]; lia.
  - symmetry. apply (Z.div_unique_pos _ 65536 _ (b * 256 + c)); unfold n; lia.
  - replace (n / 256) with (a * 256 + b)
      by (apply (Z.div_unique_pos _ 256 _ c); unfold n; lia).
    symmetry. apply (Z.mod_unique_pos _ 256 a); lia.
  - symmetry. apply (Z.mod_unique_pos _ 256 (a * 256 + b)); unfold n; lia.
Qed.

Definition six (n : Z) : Prop := 0 <= n < 64.

Lemma six_mod n : six (n mod 64).
Proof. apply Z.mod_pos_bound. lia. Qed.
#[local] Hint Resolve six_mod : core.

(** Two and three characters of a last group give back its bytes. *)
Lemma pair_decode a : byte a -> let n := a * 16 in (n / 64 mod 64 * 64 + n mod 64) / 16 = a.
Proof.
  unfold byte. intros Ha. cbv zeta. set (n := a * 16). rewrite (Z.mod_small (n / 64)).
  - pose proof (Z.div_mod n 64 ltac:(lia)). symmetry. apply (Z.div_unique_pos _ 16 _ 0); unfold n in *; lia.
  - split; [apply Z.div_pos|apply Z.div_lt_upper_bound]; unfold n; lia.
Qed.

Lemma triple_decode a b : byte a -> byte b -> let n := (a * 256 + b) * 4 in
  ((n / 4096 mod 64 * 64 + n / 64 mod 64) * 64 + n mod 64) / 4 = a * 256 + b.
Proof.
  unfold byte. intros Ha Hb. cbv zeta. set (n := (a * 256 + b) * 4).
  replace (n / 4096) with (n / 64 / 64) by (rewrite !Z.div_div by lia; reflexivity).
  rewrite (Z.mod_small (n / 64 / 64)).
  - symmetry. apply (Z.div_unique_pos _ 4 _ 0); [lia|].
    pose proof (Z.div_mod n 64 ltac:(lia)). pose proof (Z.div_mod (n / 64) 64 ltac:(lia)). unfold n in *. lia.
  - rewrite Z.div_div by lia. split; [apply Z.div_pos|apply Z.div_lt_upper_bound]; unfold n; lia.
Qed.

(** The text of [u] is a run of table characters and padding. *)
Definition shape (u ss : list Z) (p : nat) : Prop :=
  encode_spec u = concat (map lookup ss) ++ replicate p 61 /\
    Forall six ss /\ decode_spec ss = u /\
    Z.of_nat (length ss + p) mod 4 = 0 /\ (p = 0%nat \/ Z.of_nat (length ss) mod 4 <> 0).

Ltac shape_text n := cbn [encode_spec map concat]; fold n; unfold sextet; rewrite ?app_nil_r, <- !app_assoc; reflexivity.

Lemma shape_1 a : byte a -> let n := a * 16 in shape [a] [n / 64 mod 64; n mod 64] 2.
Proof.
  intros Ha. pose proof (pair_decode a Ha) as D. cbv zeta in *. set (n := a * 16) in *.
  split; [shape_text n|]. split; [auto|]. split; [cbn [decode_spec]; rewrite D; reflexivity|].
  split; [reflexivity|right; cbn; discriminate].
Qed.

Lemma shape_2 a b : byte a -> byte b -> let n := (a * 256 + b) * 4 in
  shape [a; b] [n / 4096 mod 64; n / 64 mod 64; n mod 64] 1.
Proof.
  intros Ha Hb. pose proof (triple_decode a b Ha Hb) as D. cbv zeta in *. set (n := (a * 256 + b) * 4) in *.
  split; [shape_text n|]. split; [auto|]. split; [|split; [reflexivity|right; cbn; discriminate]].
  cbn [decode_spec]. rewrite D. unfold byte in *. f_equal; [|f_equal]; symmetry;
    [apply (Z.div_unique_pos _ 256 _ b)|apply (Z.mod_unique_pos _ 256 a)]; lia.
Qed.

Lemma shape_3 a b c u ss p : byte a -> byte b -> byte c -> shape u ss p ->
  let n := a * 65536 + b * 256 + c in
  shape (a :: b :: c :: u) (n / 262144 mod 64 :: n / 4096 mod 64 :: n / 64 mod 64 :: n mod 64 :: ss) p.
Proof.
  intros Ha Hb Hc (E & Hs & Hd & Hm & Hp). destruct (quad_decode a b c Ha Hb Hc) as (Q & Qa & Qb & Qc).
  cbv zeta in *. set (n := a * 65536 + b * 256 + c) in *. split; [|split; [|split; [|split]]].
  - cbn [encode_spec map concat]. fold n. rewrite E. unfold sextet. rewrite <- !app_assoc. reflexivity.
  - auto.
  - cbn [decode_spec]. rewrite Q, Qa, Qb, Qc, Hd. reflexivity.
  - cbn [length]. replace (Z.of_nat (S (S (S (S (length ss)))) + p))
      with (Z.of_nat (length ss + p) + 1 * 4) by lia. rewrite Z.mod_add by lia. exact Hm.
  - destruct Hp as [Hp|Hp]; [left; exact Hp|right]. cbn [length].
    replace (Z.of_nat (S (S (S (S (length ss)))))) with (Z.of_nat (length ss) + 1 * 4) by lia.
    rewrite Z.mod_add by lia. exact Hp.
Qed.

Lemma encode_shape u : Forall byte u -> exists ss p, shape u ss p.
Proof.
  induction u as [u IH] using (induction_ltof1 _ (@length Z)). unfold ltof in IH. intros Hu.
  destruct Hu as [|a ? Ha Hu]; [exists [], 0%nat; repeat split; auto|].
  destruct Hu as [|b ? Hb Hu]; [do 2 eexists; apply shape_1, Ha|].
  destruct Hu as [|c u Hc Hu]; [do 2 eexists; apply shape_2; assumption|].
  destruct (IH u ltac:(cbn [length]; lia) Hu) as (ss & p & S). do 2 eexists. apply shape_3; eassumption.
Qed.

(** A run of table characters: its sextets, and that none is '='. *)
Lemma body_chars ss :
  Forall six ss ->
  let body := concat (map lookup ss) in
  length body = length ss /\ map char_sextet body = ss /\ Forall (fun c => c <> 61) body.
Proof.
  induction 1 as [|n ss Hn _ (IH1 & IH2 & IH3)]; [repeat split; constructor|].
  destruct (lookup_inverse n Hn) as (c & E & Ec & Hc). cbn [map concat]. rewrite E. cbn [app].
  cbn [length map]. rewrite IH1, IH2, Ec. auto.
Qed.

Lemma valid_len_body body p :
  Forall (fun c => c <> 61) body -> valid_len (body ++ replicate p 61) = Z.of_nat (length body).
Proof.
  intros H. unfold valid_len.
  assert (G : index_eq (body ++ replicate p 61) =
    match p with O => None | S _ => Some (Z.of_nat (length body)) end).
  { induction H as [|c body Hc _ IH]; cbn [app index_eq].
    - destruct p; reflexivity.
    - rewrite (proj2 (Z.eqb_neq _ _) Hc), IH. destruct p; cbn; [reflexivity|]. f_equal. lia. }
  rewrite G. destruct p; [|reflexivity]. cbn [replicate]. rewrite app_nil_r. reflexivity.
Qed.

Lemma decode_spec_length k r (ss : list Z) :
  length ss = (4 * k + r)%nat -> (r < 4)%nat ->
  length (decode_spec ss) = (3 * k + (r - 1))%nat.
Proof.
  revert ss. induction k as [|k IH]; intros ss H Hr.
  - destruct ss as [|a [|b [|c [|d ss]]]]; cbn in *; lia.
  - destruct ss as [|a [|b [|c [|d ss]]]]; cbn [length] in H; try lia.
    cbn [decode_spec length]. rewrite IH by lia. lia.
Qed.

Lemma encode_spec_length u : Z.of_nat (length (encode_spec u)) = 4 * ((Z.of_nat (length u) + 2) / 3).
Proof.
  assert (S1 : forall n, length (sextet n) = 1%nat).
  { intros n. unfold sextet. destruct (lookup_inverse (n mod 64)) as (c & -> & _); [apply six_mod|reflexivity]. }
  induction u as [u IH] using (induction_ltof1 _ (@length Z)). unfold ltof in IH.
  destruct u as [|a [|b [|c u]]]; cbn [encode_spec]; rewrite ?length_app, ?S1; [reflexivity..|].
  rewrite !Nat2Z.inj_add, IH by (cbn; lia). cbn [length].
  replace (Z.of_nat (S (S (S (length u)))) + 2) with (Z.of_nat (length u) + 2 + 1 * 3) by lia.
  rewrite Z.div_add by lia. lia.
Qed.

(** ** Properties *)

(** [toByteArray] rejects a string whose length is not a multiple of four,
    as [byteLength] does; otherwise it gives the bytes of the sextets before
    the padding, and [byteLength] is their number. *)
Theorem toByteArray_correct s :
  (Z.of_nat (length s) mod 4 <> 0 ->
     let e := EError [Txt "Invalid string. Length must be a multiple of 4"] in
     toByteArray s = Throw e /\ byteLength s = Throw e) /\
  (Z.of_nat (length s) mod 4 = 0 ->
     (valid_len s = Z.of_nat (length s) \/ valid_len s mod 4 <> 0) ->
     let bs := decode_spec (map char_sextet (take (Z.to_nat (valid_len s)) s)) in
     toByteArray s = Ok bs /\ byteLength s = Ok (Z.of_nat (length bs))).
Proof.
  pose proof (Z.mod_pos_bound (Z.of_nat (length s)) 4 ltac:(lia)) as B4. split.
  - intros H. unfold toByteArray, byteLength, getLens. zbool. split; reflexivity.
  - intros Hm Hv. cbv zeta. split; [apply toByteArray_run; assumption|].
    unfold byteLength. rewrite (getLens_ok s Hm). f_equal. pose proof (valid_len_range s) as Hl.
    set (v := valid_len s) in *. pose proof (Z.div_mod v 4 ltac:(lia)) as E.
    pose proof (Z.mod_pos_bound v 4 ltac:(lia)) as B.
    rewrite (decode_spec_length (Z.to_nat (v / 4)) (Z.to_nat (v mod 4)))
      by (rewrite ?length_map, ?length_take; lia).
    destruct (Z.eqb_spec v (Z.of_nat (length s))) as [Ev|Ev].
    + rewrite Ev in *. rewrite Hm in *. replace (Z.of_nat (length s) + 0) with (Z.of_nat (length s) / 4 * 4) by lia.
      replace (Z.of_nat (length s) / 4 * 4 * 3) with (Z.of_nat (length s) / 4 * 3 * 4) by lia.
      rewrite Z.div_mul by lia. lia.
    + replace ((v + (4 - v mod 4)) * 3) with ((v / 4 + 1) * 3 * 4) by lia.
      rewrite Z.div_mul by lia. lia.
Qed.

(** [fromByteArray] writes the standard base64 text of the bytes, four
    characters per three bytes or part of three. *)
Theorem fromByteArray_correct u : Forall byte u ->
  fromByteArray u = encode_spec u /\
  Z.of_nat (length (fromByteArray u)) = 4 * ((Z.of_nat (length u) + 2) / 3).
Proof.
  intros Hu. rewrite fromByteArray_run by exact Hu. split; [reflexivity|apply encode_spec_length].
Qed.

(** Decoding the text of a byte string gives the bytes back. *)
Theorem base64_roundtrip u : Forall byte u -> toByteArray (fromByteArray u) = Ok u.
Proof.
  intros Hu. rewrite fromByteArray_run by exact Hu.
  destruct (encode_shape u Hu) as (ss & p & -> & Hs & Hd & Hm & Hp).
  destruct (body_chars ss Hs) as (B1 & B2 & B3). set (body := concat (map lookup ss)) in *.
  rewrite toByteArray_run; rewrite ?valid_len_body by exact B3.
  - rewrite Nat2Z.id, take_app_length, B2, Hd. reflexivity.
  - rewrite length_app, length_replicate, B1. exact Hm.
  - rewrite length_app, length_replicate, B1. destruct Hp; [left|right]; lia || assumption.
Qed.

Lemma toByteArray_correct_witness :
  toByteArray (js "SGk=") = Ok (js "Hi") /\ byteLength (js "SGk=") = Ok 2.
Proof.
  assert (L : Z.of_nat (length (js "SGk=")) mod 4 = 0) by reflexivity.
  assert (V : valid_len (js "SGk=") mod 4 <> 0) by (vm_compute; discriminate).
  pose proof (proj2 (toByteArray_correct (js "SGk=")) L (or_intror V)) as H. cbv zeta in H.
  rewrite (proj1 H), (proj2 H). vm_compute. split; reflexivity.
Defined.

Lemma fromByteArray_correct_witness :
  Forall byte (js "Hi") /\ fromByteArray (js "Hi") = encode_spec (js "Hi").
Proof.
  assert (B : Forall byte (js "Hi")) by (repeat constructor; vm_compute; congruence).
  split; [exact B|]. apply (fromByteArray_correct (js "Hi") B).
Defined.

Lemma base64_roundtrip_witness :
  Forall byte [0; 255; 16] /\ toByteArray (fromByteArray [0; 255; 16]) = Ok [0; 255; 16].
Proof.
  assert (B : Forall byte [0; 255; 16]) by (repeat constructor; lia).
  exact (conj B (base64_roundtrip [0; 255; 16] B)).
Defined.

End base64.
