(* ===== verification/Encoding.v ===== *)
(** The string codecs of [node/buffer.js]: [utf8ToBytes], [asciiToBytes],
    [utf16leToBytes], [base64clean], [base64ToBytes] on the way in, [utf8Slice],
    [asciiSlice], [latin1Slice], [hexSlice], [utf16leSlice] on the way out.

    These helpers only read their buffer, so here they take its elements. *)

From Stdlib Require Import String.
From stdpp Require Import base numbers list.
From S2P Require Import Prelude JsNumber JsValue Base64.

Local Open Scope Z_scope.

(** ** UTF-16 to UTF-8 *)

(** [(units -= n)], where [None] is Infinity. *)
Definition use_units (units : option Z) (n : Z) : option Z := (fun u => u - n) <$> units.
Definition units_gt (units : option Z) (n : Z) : bool :=
  match units with None => true | Some u => n <? u end.
Definition units_lt (units : option Z) (n : Z) : bool :=
  match units with None => false | Some u => u <? n end.

Definition replacement : list Z := [239; 191; 189].

(** The bytes [utf8ToBytes] pushes for a code point, and how many units it
    takes off; [None] past U+10FFFF, where it throws. *)
Definition push_code_point (codePoint : Z) : option (list Z) :=
  if codePoint <? 128 then Some [codePoint]
  else if codePoint <? 2048 then
    Some [or32 (sar32 codePoint 6) 192; or32 (and32 codePoint 63) 128]
  else if codePoint <? 65536 then
    Some [or32 (sar32 codePoint 12) 224; or32 (and32 (sar32 codePoint 6) 63) 128;
          or32 (and32 codePoint 63) 128]
  else if codePoint <? 1114112 then
    Some [or32 (sar32 codePoint 18) 240; or32 (and32 (sar32 codePoint 12) 63) 128;
          or32 (and32 (sar32 codePoint 6) 63) 128; or32 (and32 codePoint 63) 128]
  else None.

(** The loop of [utf8ToBytes] over the remaining code units. *)
Fixpoint utf8_loop (string : jsstr) (units leadSurrogate : option Z) (bytes : list Z)
  : outcome exn (list Z) :=
  match string with
  | [] => Ok bytes
  | codePoint :: rest =>
      let encode codePoint units bytes :=
        match push_code_point codePoint with
        | None => Throw (EError [Txt "Invalid code point"])
        | Some bs =>
            let units := use_units units (Z.of_nat (length bs)) in
            if units_lt units 0 then Ok bytes
            else utf8_loop rest units None (bytes ++ bs)
        end in
      (* [if ((units -= 3) > -1) bytes.push(0xEF, 0xBF, 0xBD)] *)
      let units3 := use_units units 3 in
      let bytes3 := if units_gt units3 (-1) then bytes ++ replacement else bytes in
      if (55295 <? codePoint) && (codePoint <? 57344) then
        match leadSurrogate with
        | None =>
            if 56319 <? codePoint then utf8_loop rest units3 None bytes3
            else match rest with
                 | [] => utf8_loop rest units3 None bytes3
                 | _ => utf8_loop rest units (Some codePoint) bytes
                 end
        | Some lead =>
            if codePoint <? 56320 then utf8_loop rest units3 (Some codePoint) bytes3
            else encode (or32 (shl32 (lead - 55296) 10) (codePoint - 56320) + 65536) units bytes
        end
      else
        match leadSurrogate with
        | Some _ => encode codePoint units3 bytes3
        | None => encode codePoint units bytes
        end
  end.

(** [units] is [None] when the argument is missing; 0 counts as missing. *)
Definition utf8ToBytes (string : jsstr) (units : option Z) : outcome exn (list Z) :=
  let units := match units with Some u => if u =? 0 then None else Some u | None => None end in
  utf8_loop string units None [].

(** ** Other byte encoders *)

Definition asciiToBytes (str : jsstr) : list Z := map (fun c => and32 c 255) str.

Fixpoint utf16leToBytes (str : jsstr) (units : Z) : list Z :=
  match str with
  | [] => []
  | c :: rest =>
      let units := units - 2 in
      if units <? 0 then []
      else
        let hi := sar32 c 8 in
        let lo := c mod 256 in
        lo :: hi :: utf16leToBytes rest units
  end.

(** [INVALID_BASE64_RE] matches the characters this predicate rejects. *)
Definition valid_base64_char (c : Z) : bool :=
  (c =? 43) || (c =? 47) || ((48 <=? c) && (c <=? 57)) || ((65 <=? c) && (c <=? 90)) ||
  ((97 <=? c) && (c <=? 122)) || (c =? 45) || (c =? 95).

(** [str.split('=')[0]]. *)
Fixpoint split_eq (str : jsstr) : jsstr :=
  match str with
  | [] => []
  | c :: rest => if c =? 61 then [] else c :: split_eq rest
  end.

(** [while (str.length % 4 !== 0) str = str + '=']: at most three turns. *)
Fixpoint pad4 (fuel : nat) (str : jsstr) : jsstr :=
  match fuel with
  | O => str
  | S n => if Z.of_nat (length str) mod 4 =? 0 then str else pad4 n (str ++ [61])
  end.

Definition base64clean (str : jsstr) : jsstr :=
  let str := split_eq str in
  let str := filter (fun c => valid_base64_char c = true) (trim str) in
  if Z.of_nat (length str) <? 2 then [] else pad4 3 str.

Definition base64ToBytes (str : jsstr) : outcome exn (list Z) :=
  base64.toByteArray (base64clean str).

(** ** Hexadecimal tables *)

Definition hex_alphabet : jsstr := js "0123456789abcdef".

(** [table[i16 + j] = alphabet[i] + alphabet[j]] for all [i], [j] below 16. *)
Definition hexSliceLookupTable : list jsstr :=
  for_range 0 16 1 (fun i table =>
    let i16 := i * 16 in
    for_range 0 16 1 (fun j table =>
      <[Z.to_nat (i16 + j) := option_list (zget hex_alphabet i) ++
                              option_list (zget hex_alphabet j)]> table) table)
    (replicate 256 (js "undefined")).

(** [hexCharValueTable[c]] for the character [c] of a string. *)
Definition hexCharValueTable (c : Z) : option Z :=
  if (48 <=? c) && (c <=? 57) then Some (c - 48)
  else if (97 <=? c) && (c <=? 102) then Some (c - 87)
  else if (65 <=? c) && (c <=? 70) then Some (c - 55)
  else None.

(** ** Bytes to strings *)

(** The element [buf[i]] of an index in range. *)
Definition at_ (buf : list Z) (i : Z) : Z := default 0 (zget buf i).

Definition fromCharCode (l : list Z) : jsstr := map (fun c => c mod 65536) l.

Definition MAX_ARGUMENTS_LENGTH : Z := 4096.

Definition decodeCodePointsArray (codePoints : list Z) : jsstr :=
  let len := Z.of_nat (length codePoints) in
  if len <=? MAX_ARGUMENTS_LENGTH then fromCharCode codePoints
  else
    for_range 0 len MAX_ARGUMENTS_LENGTH
      (fun i res =>
         res ++ fromCharCode (take (Z.to_nat MAX_ARGUMENTS_LENGTH) (drop (Z.to_nat i) codePoints)))
      [].

(** The code point [utf8Slice] reads at [i], if the bytes there are one, and the
    length of the sequence the first byte announces. *)
Definition utf8_at (buf : list Z) (i end_ : Z) : option Z * Z :=
  let firstByte := at_ buf i in
  let bytesPerSequence :=
    if 239 <? firstByte then 4 else if 223 <? firstByte then 3 else if 191 <? firstByte then 2 else 1 in
  let cont b := and32 b 192 =? 128 in
  let codePoint :=
    if i + bytesPerSequence <=? end_ then
      if bytesPerSequence =? 1 then
        if firstByte <? 128 then Some firstByte else None
      else if bytesPerSequence =? 2 then
        let secondByte := at_ buf (i + 1) in
        if cont secondByte then
          let t := or32 (shl32 (and32 firstByte 31) 6) (and32 secondByte 63) in
          if 127 <? t then Some t else None
        else None
      else if bytesPerSequence =? 3 then
        let secondByte := at_ buf (i + 1) in
        let thirdByte := at_ buf (i + 2) in
        if cont secondByte && cont thirdByte then
          let t := or32 (or32 (shl32 (and32 firstByte 15) 12) (shl32 (and32 secondByte 63) 6))
                        (and32 thirdByte 63) in
          if (2047 <? t) && ((t <? 55296) || (57343 <? t)) then Some t else None
        else None
      else
        let secondByte := at_ buf (i + 1) in
        let thirdByte := at_ buf (i + 2) in
        let fourthByte := at_ buf (i + 3) in
        if cont secondByte && cont thirdByte && cont fourthByte then
          let t := or32 (or32 (or32 (shl32 (and32 firstByte 15) 18) (shl32 (and32 secondByte 63) 12))
                              (shl32 (and32 thirdByte 63) 6)) (and32 fourthByte 63) in
          if (65535 <? t) && (t <? 1114112) then Some t else None
        else None
    else None in
  (codePoint, bytesPerSequence).

(** What one turn of the loop pushes, and how far it advances. *)
Definition utf8_step (buf : list Z) (i end_ : Z) : list Z * Z :=
  match utf8_at buf i end_ with
  | (None, _) => ([65533], 1)
  | (Some codePoint, n) =>
      if 65535 <? codePoint then
        let codePoint := codePoint - 65536 in
        ([or32 (and32 (shr32u codePoint 10) 1023) 55296; or32 56320 (and32 codePoint 1023)], n)
      else ([codePoint], n)
  end.

(** [while (i < end)]: every turn advances, so [end - i] turns are enough. *)
Fixpoint utf8_slice_loop (fuel : nat) (buf : list Z) (i end_ : Z) (res : list Z) : list Z :=
  match fuel with
  | O => res
  | S fuel =>
      if i <? end_ then
        let '(us, n) := utf8_step buf i end_ in
        utf8_slice_loop fuel buf (i + n) end_ (res ++ us)
      else res
  end.

Definition utf8Slice (buf : list Z) (start end_ : Z) : jsstr :=
  let end_ := Z.min (Z.of_nat (length buf)) end_ in
  decodeCodePointsArray (utf8_slice_loop (Z.to_nat (end_ - start)) buf start end_ []).

Definition asciiSlice (buf : list Z) (start end_ : Z) : jsstr :=
  let end_ := Z.min (Z.of_nat (length buf)) end_ in
  for_range start end_ 1 (fun i ret => ret ++ fromCharCode [and32 (at_ buf i) 127]) [].

Definition latin1Slice (buf : list Z) (start end_ : Z) : jsstr :=
  let end_ := Z.min (Z.of_nat (length buf)) end_ in
  for_range start end_ 1 (fun i ret => ret ++ fromCharCode [at_ buf i]) [].

Definition hexSlice (buf : list Z) (start end_ : Z) : jsstr :=
  let len := Z.of_nat (length buf) in
  let start := if (start =? 0) || (start <? 0) then 0 else start in
  let end_ := if (end_ =? 0) || (end_ <? 0) || (len <? end_) then len else end_ in
  for_range start end_ 1
    (fun i out => out ++ default (js "undefined") (zget hexSliceLookupTable (at_ buf i))) [].

(** The loop of [utf16leSlice] over the bytes of the slice it took. *)
Definition utf16le_decode (bytes : list Z) : jsstr :=
  for_range 0 (Z.of_nat (length bytes) - 1) 2
    (fun i res => res ++ fromCharCode [at_ bytes i + at_ bytes (i + 1) * 256]) [].

Example utf8_ex : utf8ToBytes [97; 233; 8364; 55357; 56832] None
  = Ok [97; 195; 169; 226; 130; 172; 240; 159; 152; 128].
Proof. vm_compute. reflexivity. Qed.
Example utf8_ex2 : utf8Slice [97; 195; 169; 226; 130; 172; 240; 159; 152; 128; 255] 0 11
  = [97; 233; 8364; 55357; 56832; 65533].
Proof. vm_compute. reflexivity. Qed.
Example hex_ex : hexSlice [0; 255; 16] 0 3 = js "00ff10".
Proof. vm_compute. reflexivity. Qed.
Example b64_ex : base64ToBytes (js " SGVs bG8") = Ok (js "Hello").
Proof. vm_compute. reflexivity. Qed.

(** ** Reference UTF-8 *)

Definition unit16 (c : Z) : Prop := 0 <= c < 65536.
Definition is_lead (c : Z) : bool := (55296 <=? c) && (c <=? 56319).
Definition is_trail (c : Z) : bool := (56320 <=? c) && (c <=? 57343).
Definition pair_value (l t : Z) : Z := (l - 55296) * 1024 + (t - 56320) + 65536.

(** The scalar values of a UTF-16 string, lone surrogates read as U+FFFD. *)
Fixpoint scalars (s : jsstr) : list Z :=
  match s with
  | [] => []
  | c :: rest =>
      if is_lead c then
        match rest with
        | d :: rest' => if is_trail d then pair_value c d :: scalars rest' else 65533 :: scalars rest
        | [] => [65533]
        end
      else if is_trail c then 65533 :: scalars rest
      else c :: scalars rest
  end.

Definition utf8_enc (cp : Z) : list Z :=
  if cp <? 128 then [cp]
  else if cp <? 2048 then [192 + cp / 64; 128 + cp mod 64]
  else if cp <? 65536 then [224 + cp / 4096; 128 + cp / 64 mod 64; 128 + cp mod 64]
  else [240 + cp / 262144; 128 + cp / 4096 mod 64; 128 + cp / 64 mod 64; 128 + cp mod 64].

(** What [utf8ToBytes] reads of its string: a lead surrogate that ends the
    string right after another lead surrogate is forgotten. *)
Fixpoint effective (s : jsstr) : jsstr :=
  match s with
  | a :: rest =>
      match rest with
      | [b] => if is_lead a && is_lead b then [a] else [a; b]
      | _ => a :: effective rest
      end
  | [] => []
  end.

(** The longest run of whole items that fits in a byte budget. *)
Fixpoint fit (units : option Z) (items : list (list Z)) : list Z :=
  match items with
  | [] => []
  | x :: items' =>
      let u := use_units units (Z.of_nat (length x)) in
      if units_lt u 0 then [] else x ++ fit u items'
  end.

(** The string with its lone surrogates replaced ([toWellFormed]). *)
Definition utf16_enc (cp : Z) : list Z :=
  if cp <? 65536 then [cp] else [55296 + (cp - 65536) / 1024; 56320 + (cp - 65536) mod 1024].
Definition toWellFormed (s : jsstr) : jsstr := concat (map utf16_enc (scalars s)).

Definition scalar_value (cp : Z) : Prop := 0 <= cp < 1114112 /\ ~ (55296 <= cp <= 57343).

(** ** Bit arithmetic of the encoder *)

Lemma or_high x c k : 0 <= k -> 0 <= x < 2 ^ k -> c mod 2 ^ k = 0 -> or32 x c = c + x.
Proof.
  intros Hk Hx Hc. pose proof (Z.div_mod c (2 ^ k) ltac:(apply Z.pow_nonzero; lia)) as E.
  rewrite Hc, Z.add_0_r, Z.mul_comm in E. rewrite E. unfold or32. rewrite Z.lor_comm.
  apply lor_disjoint; assumption.
Qed.

Lemma cont_byte x : or32 (and32 x 63) 128 = 128 + x mod 64.
Proof.
  unfold and32. rewrite land_63. apply (or_high (x mod 64) 128 7); [lia| |reflexivity].
  pose proof (Z.mod_pos_bound x 64 ltac:(lia)). lia.
Qed.

Lemma push_code_point_enc cp :
  0 <= cp < 1114112 -> push_code_point cp = Some (utf8_enc cp).
Proof.
  intros H. unfold push_code_point, utf8_enc.
  rewrite !cont_byte, !sar32_div by lia.
  change (2 ^ 6) with 64. change (2 ^ 12) with 4096. change (2 ^ 18) with 262144.
  destruct (Z.ltb_spec cp 128); [reflexivity|].
  destruct (Z.ltb_spec cp 2048).
  { rewrite (or_high (cp / 64) 192 6) by (reflexivity || lia || (split; [apply Z.div_pos|apply Z.div_lt_upper_bound]; lia)).
    reflexivity. }
  destruct (Z.ltb_spec cp 65536).
  { rewrite (or_high (cp / 4096) 224 5) by (reflexivity || lia || (split; [apply Z.div_pos|apply Z.div_lt_upper_bound]; lia)).
    reflexivity. }
  rewrite (proj2 (Z.ltb_lt _ _)) by lia.
  rewrite (or_high (cp / 262144) 240 4) by (reflexivity || lia || (split; [apply Z.div_pos|apply Z.div_lt_upper_bound]; lia)).
  reflexivity.
Qed.

Lemma pair_value_bits l t :
  is_lead l = true -> is_trail t = true ->
  or32 (shl32 (l - 55296) 10) (t - 56320) + 65536 = pair_value l t /\
  65536 <= pair_value l t < 1114112.
Proof.
  unfold is_lead, is_trail, pair_value. intros Hl Ht.
  assert (55296 <= l <= 56319 /\ 56320 <= t <= 57343) as [? ?] by lia.
  rewrite shl32_small by lia. rewrite (or32_disjoint _ _ 10) by lia. lia.
Qed.

Lemma fit_neg u items : u < 0 -> (Forall (fun x => x <> []) items) -> fit (Some u) items = [].
Proof.
  intros Hu H. destruct H as [|x items Hx _]; [reflexivity|]. cbn.
  assert (0 < length x)%nat by (destruct x; [contradiction|cbn; lia]).
  rewrite (proj2 (Z.ltb_lt _ _)) by lia. reflexivity.
Qed.

Lemma utf8_enc_nonnil l : Forall (fun x => x <> []) (map utf8_enc l).
Proof.
  induction l; constructor; [|assumption]. unfold utf8_enc.
  repeat destruct (_ <? _); discriminate.
Qed.

Lemma effective_cons c s : is_lead c = false -> effective (c :: s) = c :: effective s.
Proof.
  intros H. destruct s as [|b [|d s]]; cbn [effective]; rewrite ?H; reflexivity.
Qed.

(** One item of the output: with the budget exhausted nothing more comes out. *)
Lemma fit_step u x items acc k :
  (units_lt (use_units u (Z.of_nat (length x))) 0 = true ->
     k = Ok acc) ->
  (units_lt (use_units u (Z.of_nat (length x))) 0 = false ->
     k = Ok ((acc ++ x) ++ fit (use_units u (Z.of_nat (length x))) items)) ->
  k = Ok (acc ++ fit u (x :: items)) :> outcome exn (list Z).
Proof.
  intros H1 H2. cbn [fit]. destruct (units_lt _ 0).
  - rewrite app_nil_r. auto.
  - rewrite app_assoc. auto.
Qed.

(** A replacement character: it is pushed only if it fits, the loop goes on. *)
Lemma replacement_step u items acc k :
  Forall (fun x => x <> []) items ->
  k = Ok ((if units_gt (use_units u 3) (-1) then acc ++ replacement else acc)
          ++ fit (use_units u 3) items) :> outcome exn (list Z) ->
  k = Ok (acc ++ fit u (utf8_enc 65533 :: items)).
Proof.
  intros Hi ->. change (utf8_enc 65533) with replacement. cbn [fit].
  change (Z.of_nat (length replacement)) with 3.
  destruct u as [u|]; cbn [use_units fmap option_fmap option_map units_gt units_lt].
  - destruct (Z.ltb_spec (-1) (u - 3)), (Z.ltb_spec (u - 3) 0); try lia.
    + rewrite <- app_assoc. reflexivity.
    + rewrite fit_neg by assumption. reflexivity.
  - rewrite <- app_assoc. reflexivity.
Qed.

(** Encoding one code point, then the rest of the string. *)
Lemma encode_step cp u acc rest items :
  0 <= cp < 1114112 ->
  (forall u acc, utf8_loop rest u None acc = Ok (acc ++ fit u items)) ->
  match push_code_point cp with
  | None => Throw (EError [Txt "Invalid code point"])
  | Some bs =>
      if units_lt (use_units u (Z.of_nat (length bs))) 0 then Ok acc
      else utf8_loop rest (use_units u (Z.of_nat (length bs))) None (acc ++ bs)
  end = Ok (acc ++ fit u (utf8_enc cp :: items)).
Proof.
  intros Hcp IH. rewrite push_code_point_enc by exact Hcp. cbv zeta.
  apply fit_step; intros ->; [reflexivity|apply IH].
Qed.

Lemma surrogate_range c :
  ((55295 <? c) && (c <? 57344)) = is_lead c || is_trail c.
Proof. unfold is_lead, is_trail. lia. Qed.

Definition items_of (s : jsstr) : list (list Z) := map utf8_enc (scalars (effective s)).

Lemma items_nonnil s : Forall (fun x => x <> []) (items_of s).
Proof. apply utf8_enc_nonnil. Qed.

Lemma items_plain c s :
  is_lead c = false -> is_trail c = false -> items_of (c :: s) = utf8_enc c :: items_of s.
Proof.
  intros H1 H2. unfold items_of. rewrite effective_cons by exact H1.
  cbn [scalars]. rewrite H1, H2. reflexivity.
Qed.

Lemma items_trail c s :
  is_trail c = true -> items_of (c :: s) = utf8_enc 65533 :: items_of s.
Proof.
  intros H2. assert (H1 : is_lead c = false) by (unfold is_lead, is_trail in *; lia).
  unfold items_of. rewrite effective_cons by exact H1.
  cbn [scalars]. rewrite H1, H2. reflexivity.
Qed.

Lemma items_pair l t s :
  is_lead l = true -> is_trail t = true ->
  items_of (l :: t :: s) = utf8_enc (pair_value l t) :: items_of s.
Proof.
  intros Hl Ht. assert (H1 : is_lead t = false) by (unfold is_lead, is_trail in *; lia).
  unfold items_of. destruct s as [|b s].
  - cbn [effective]. rewrite H1, andb_false_r. cbn [scalars map]. rewrite Hl, Ht. reflexivity.
  - change (effective (l :: t :: b :: s)) with (l :: effective (t :: b :: s)).
    rewrite effective_cons by exact H1. cbn [scalars]. rewrite Hl, Ht. reflexivity.
Qed.

Lemma items_lead_other l c s :
  is_lead l = true -> is_trail c = false -> (is_lead c = true -> s <> []) ->
  items_of (l :: c :: s) = utf8_enc 65533 :: items_of (c :: s).
Proof.
  intros Hl Hc Hs. unfold items_of.
  assert (E : effective (l :: c :: s) = l :: effective (c :: s)).
  { destruct s as [|b s]; cbn [effective]; [|reflexivity].
    destruct (is_lead c) eqn:E; [exfalso; apply Hs; reflexivity|]. rewrite andb_false_r. reflexivity. }
  assert (E2 : exists r, effective (c :: s) = c :: r).
  { destruct s as [|b [|d s]]; cbn [effective]; eauto. destruct (_ && _); eauto. }
  rewrite E. destruct E2 as [r ->]. cbn [scalars]. rewrite Hl, Hc. reflexivity.
Qed.

Lemma utf8_loop_correct rest :
  Forall unit16 rest ->
  (forall u acc, utf8_loop rest u None acc = Ok (acc ++ fit u (items_of rest))) /\
  (forall l u acc, is_lead l = true ->
     utf8_loop rest u (Some l) acc =
     Ok (match rest with [] => acc | _ => acc ++ fit u (items_of (l :: rest)) end)).
Proof.
  induction 1 as [|c rest Hc Hrest [IHn IHs]].
  - split; [|reflexivity]. intros u acc. cbn. rewrite app_nil_r. reflexivity.
  - unfold unit16 in Hc. split.
    + intros u acc. cbn [utf8_loop]. rewrite surrogate_range.
      destruct (is_lead c) eqn:L; [|destruct (is_trail c) eqn:T]; cbn [orb].
      * replace (56319 <? c) with false by (unfold is_lead in L; lia).
        destruct rest as [|d rest].
        { change (items_of [c]) with (map utf8_enc (scalars [c])). cbn [scalars]. rewrite L.
          apply replacement_step; [constructor|]. rewrite IHn. reflexivity. }
        rewrite IHs by exact L. reflexivity.
      * replace (56319 <? c) with true by (unfold is_trail in T; lia).
        rewrite items_trail by exact T.
        apply replacement_step; [apply items_nonnil|]. apply IHn.
      * rewrite items_plain by assumption. apply encode_step; [lia|apply IHn].
    + intros l u acc Hl. cbn [utf8_loop]. rewrite surrogate_range.
      destruct (is_lead c) eqn:L; [|destruct (is_trail c) eqn:T]; cbn [orb].
      * replace (c <? 56320) with true by (unfold is_lead in L; lia).
        rewrite IHs by exact L. destruct rest as [|d rest].
        { change (items_of [l; c]) with (map utf8_enc (scalars (effective [l; c]))).
          cbn [effective]. rewrite Hl, L. cbn [andb scalars]. rewrite Hl.
          apply replacement_step; [constructor|]. cbn [fit]. rewrite app_nil_r. reflexivity. }
        rewrite (items_lead_other l c); [|exact Hl|unfold is_lead, is_trail in *; lia|discriminate].
        apply replacement_step; [apply items_nonnil|]. reflexivity.
      * replace (c <? 56320) with false by (unfold is_trail in T; lia).
        destruct (pair_value_bits l c Hl T) as [-> B].
        rewrite items_pair by assumption. apply encode_step; [lia|apply IHn].
      * rewrite (items_lead_other l c) by (assumption || congruence). rewrite items_plain by assumption.
        apply replacement_step; [constructor; [apply (Forall_inv (utf8_enc_nonnil [c]))|apply items_nonnil]|].
        apply encode_step; [lia|apply IHn].
Qed.

Lemma fit_none items : fit None items = concat items.
Proof. induction items as [|x items IH]; cbn; [reflexivity|]. rewrite IH. reflexivity. Qed.

Lemma fit_prefix u items : fit (Some u) items `prefix_of` concat items.
Proof.
  revert u. induction items as [|x items IH]; intros u; cbn; [reflexivity|].
  destruct (_ <? _); [apply prefix_nil|]. apply prefix_app, IH.
Qed.

Lemma fit_length u items : 0 <= u -> Z.of_nat (length (fit (Some u) items)) <= u.
Proof.
  revert u. induction items as [|x items IH]; intros u Hu; cbn; [lia|].
  destruct (Z.ltb_spec (u - Z.of_nat (length x)) 0); [cbn; lia|].
  rewrite length_app. specialize (IH (u - Z.of_nat (length x)) ltac:(lia)). lia.
Qed.

Lemma utf8ToBytes_all s :
  Forall unit16 s -> utf8ToBytes s None = Ok (concat (map utf8_enc (scalars (effective s)))).
Proof.
  intros Hs. unfold utf8ToBytes. rewrite (proj1 (utf8_loop_correct s Hs)), fit_none. reflexivity.
Qed.

Lemma utf8ToBytes_run s u :
  Forall unit16 s -> 0 < u ->
  utf8ToBytes s (Some u) = Ok (fit (Some u) (map utf8_enc (scalars (effective s)))).
Proof.
  intros Hs Hu. unfold utf8ToBytes. rewrite (proj2 (Z.eqb_neq u 0)) by lia.
  rewrite (proj1 (utf8_loop_correct s Hs)). reflexivity.
Qed.

(** ** Decoding UTF-8 *)

Lemma forall_byte (P : Z -> bool) :
  forallb P (indices 0 256 1) = true -> forall b, byte b -> P b = true.
Proof.
  intros H b Hb. rewrite forallb_forall in H. apply H, list_elem_of_In, elem_of_indices_1. exact Hb.
Qed.

Lemma cont_test b : byte b -> (and32 b 192 =? 128) = ((128 <=? b) && (b <? 192)).
Proof.
  intros Hb. apply eqb_prop.
  apply (forall_byte (fun b => eqb (and32 b 192 =? 128) ((128 <=? b) && (b <? 192)))); [|exact Hb].
  vm_compute. reflexivity.
Qed.

Lemma land_low x k c : 0 <= k -> c = 2 ^ k - 1 -> and32 x c = x mod 2 ^ k.
Proof. intros Hk ->. apply land_mask, Hk. Qed.

Lemma low_bits x c k : 0 <= k -> 0 <= c -> c mod 2 ^ k = 0 -> c <= x < c + 2 ^ k -> x mod 2 ^ k = x - c.
Proof.
  intros Hk Hc Hm Hx. pose proof (Z.div_mod c (2 ^ k) ltac:(apply Z.pow_nonzero; lia)).
  symmetry. apply (Z.mod_unique_pos _ _ (c / 2 ^ k)); lia.
Qed.

Lemma at_drop buf i l j b :
  drop (Z.to_nat i) buf = l -> 0 <= i -> l !! j = Some b -> at_ buf (i + Z.of_nat j) = b.
Proof.
  intros E Hi Hl. unfold at_, zget. rewrite (proj2 (Z.leb_le _ _)) by lia.
  rewrite Z2Nat.inj_add, Nat2Z.id by lia. rewrite <- lookup_drop, E, Hl. reflexivity.
Qed.

Lemma combine2 a b :
  0 <= a < 32 -> 0 <= b < 64 -> or32 (shl32 a 6) b = a * 64 + b.
Proof. intros. rewrite shl32_small by lia. apply (or32_disjoint a b 6); lia. Qed.

Lemma combine3 a b c :
  0 <= a < 16 -> 0 <= b < 64 -> 0 <= c < 64 ->
  or32 (or32 (shl32 a 12) (shl32 b 6)) c = (a * 64 + b) * 64 + c.
Proof.
  intros. rewrite !shl32_small by lia. rewrite (or32_disjoint a _ 12) by lia.
  replace (a * 2 ^ 12 + b * 2 ^ 6) with ((a * 64 + b) * 2 ^ 6) by lia.
  rewrite (or32_disjoint _ _ 6) by lia. lia.
Qed.

Lemma combine4 a b c d :
  0 <= a < 16 -> 0 <= b < 64 -> 0 <= c < 64 -> 0 <= d < 64 ->
  or32 (or32 (or32 (shl32 a 18) (shl32 b 12)) (shl32 c 6)) d = ((a * 64 + b) * 64 + c) * 64 + d.
Proof.
  intros. apply base64.quad_value; lia.
Qed.

(** The bytes at [i], when they announce a sequence that fits: what [utf8_at] returns. *)
Lemma utf8_at_1 buf i e b :
  at_ buf i = b -> byte b -> i + 1 <= e -> b < 192 ->
  utf8_at buf i e = (if b <? 128 then Some b else None, 1).
Proof.
  intros E Hb He H. unfold byte in Hb. unfold utf8_at. rewrite E. do 3 (zbool; cbv iota). reflexivity.
Qed.

Lemma utf8_at_2 buf i e a b :
  at_ buf i = a -> at_ buf (i + 1) = b -> byte b -> i + 2 <= e -> 192 <= a < 224 ->
  utf8_at buf i e =
    (if (128 <=? b) && (b <? 192)
     then (let t := (a - 192) * 64 + (b - 128) in if 127 <? t then Some t else None) else None, 2).
Proof.
  intros E E1 Hb He H. unfold utf8_at. rewrite E, E1. do 3 (zbool; cbv iota).
  rewrite cont_test by exact Hb.
  destruct ((128 <=? b) && (b <? 192)) eqn:C; [|reflexivity].
  apply andb_true_iff in C as [C1%Z.leb_le C2%Z.ltb_lt].
  rewrite (land_low a 5), (land_low b 6) by lia.
  rewrite (low_bits a 192 5), (low_bits b 128 6) by (reflexivity || lia).
  rewrite combine2 by lia. reflexivity.
Qed.

Lemma utf8_at_3 buf i e a b c :
  at_ buf i = a -> at_ buf (i + 1) = b -> at_ buf (i + 2) = c -> byte b -> byte c ->
  i + 3 <= e -> 224 <= a < 240 ->
  utf8_at buf i e =
    (if ((128 <=? b) && (b <? 192)) && ((128 <=? c) && (c <? 192))
     then (let t := ((a - 224) * 64 + (b - 128)) * 64 + (c - 128) in
           if (2047 <? t) && ((t <? 55296) || (57343 <? t)) then Some t else None) else None, 3).
Proof.
  intros E E1 E2 Hb Hc He H. unfold utf8_at. rewrite E, E1, E2. do 3 (zbool; cbv iota).
  rewrite !cont_test by assumption.
  destruct (((128 <=? b) && (b <? 192)) && ((128 <=? c) && (c <? 192))) eqn:C; [|reflexivity].
  assert (128 <= b < 192 /\ 128 <= c < 192) as [? ?] by lia.
  rewrite (land_low a 4), (land_low b 6), (land_low c 6) by lia.
  rewrite (low_bits a 224 4), (low_bits b 128 6), (low_bits c 128 6) by (reflexivity || lia).
  rewrite combine3 by lia. reflexivity.
Qed.

Lemma utf8_at_4 buf i e a b c d :
  at_ buf i = a -> at_ buf (i + 1) = b -> at_ buf (i + 2) = c -> at_ buf (i + 3) = d ->
  byte b -> byte c -> byte d -> i + 4 <= e -> 240 <= a < 256 ->
  utf8_at buf i e =
    (if (((128 <=? b) && (b <? 192)) && ((128 <=? c) && (c <? 192))) && ((128 <=? d) && (d <? 192))
     then (let t := (((a - 240) * 64 + (b - 128)) * 64 + (c - 128)) * 64 + (d - 128) in
           if (65535 <? t) && (t <? 1114112) then Some t else None) else None, 4).
Proof.
  intros E E1 E2 E3 Hb Hc Hd He H. unfold utf8_at. rewrite E, E1, E2, E3.
  do 3 (zbool; cbv iota). rewrite !cont_test by assumption.
  destruct ((((128 <=? b) && (b <? 192)) && ((128 <=? c) && (c <? 192))) && ((128 <=? d) && (d <? 192))) eqn:C;
    [|reflexivity].
  assert (128 <= b < 192 /\ 128 <= c < 192 /\ 128 <= d < 192) as (? & ? & ?) by lia.
  rewrite (land_low a 4), (land_low b 6), (land_low c 6), (land_low d 6) by lia.
  rewrite (low_bits a 240 4), (low_bits b 128 6), (low_bits c 128 6), (low_bits d 128 6)
    by (reflexivity || lia).
  rewrite combine4 by lia. reflexivity.
Qed.

(** Split a number into base-64 digits. *)
Ltac digits64 x :=
  pose proof (Z.div_mod x 64 ltac:(lia)); pose proof (Z.mod_pos_bound x 64 ltac:(lia));
  pose proof (Z.div_mod (x / 64) 64 ltac:(lia)); pose proof (Z.mod_pos_bound (x / 64) 64 ltac:(lia));
  pose proof (Z.div_mod (x / 64 / 64) 64 ltac:(lia)); pose proof (Z.mod_pos_bound (x / 64 / 64) 64 ltac:(lia)).

Lemma utf8_enc_digits cp :
  utf8_enc cp =
    (if cp <? 128 then [cp]
     else if cp <? 2048 then [192 + cp / 64; 128 + cp mod 64]
     else if cp <? 65536 then [224 + cp / 64 / 64; 128 + cp / 64 mod 64; 128 + cp mod 64]
     else [240 + cp / 64 / 64 / 64; 128 + cp / 64 / 64 mod 64; 128 + cp / 64 mod 64; 128 + cp mod 64]).
Proof.
  unfold utf8_enc. rewrite !Z.div_div by lia. reflexivity.
Qed.

(** The bytes of a scalar value decode to it. *)
Lemma utf8_at_enc buf i e cp rest :
  scalar_value cp -> 0 <= i -> drop (Z.to_nat i) buf = utf8_enc cp ++ rest ->
  i + Z.of_nat (length (utf8_enc cp)) <= e ->
  utf8_at buf i e = (Some cp, Z.of_nat (length (utf8_enc cp))).
Proof.
  intros [Hr Hs] Hi Hd He. pose proof (fun j b => at_drop buf i _ j b Hd Hi) as A.
  rewrite utf8_enc_digits in *. digits64 cp.
  assert (A0 : forall b, (_ ++ rest) !! 0%nat = Some b -> at_ buf i = b)
    by (intros b Hb; rewrite <- (Z.add_0_r i); exact (A 0%nat b Hb)).
  destruct (Z.ltb_spec cp 128); [|destruct (Z.ltb_spec cp 2048); [|destruct (Z.ltb_spec cp 65536)]];
    cbn [length app] in *.
  - rewrite (utf8_at_1 buf i e cp) by (try (apply A0; reflexivity); unfold byte; lia). zbool. reflexivity.
  - rewrite (utf8_at_2 buf i e _ _ (A0 _ eq_refl) (A 1%nat _ eq_refl)) by (unfold byte; lia).
    zbool. cbn [andb]. replace ((192 + cp / 64 - 192) * 64 + (128 + cp mod 64 - 128)) with cp by lia.
    cbv zeta. zbool. reflexivity.
  - rewrite (utf8_at_3 buf i e _ _ _ (A0 _ eq_refl) (A 1%nat _ eq_refl) (A 2%nat _ eq_refl))
      by (unfold byte; lia).
    zbool. cbn [andb].
    replace (((224 + cp / 64 / 64 - 224) * 64 + (128 + (cp / 64) mod 64 - 128)) * 64
             + (128 + cp mod 64 - 128)) with cp by lia.
    cbv zeta. replace ((2047 <? cp) && ((cp <? 55296) || (57343 <? cp))) with true by lia. reflexivity.
  - rewrite (utf8_at_4 buf i e _ _ _ _ (A0 _ eq_refl) (A 1%nat _ eq_refl) (A 2%nat _ eq_refl) (A 3%nat _ eq_refl))
      by (unfold byte; lia).
    zbool. cbn [andb].
    replace ((((240 + cp / 64 / 64 / 64 - 240) * 64 + (128 + (cp / 64 / 64) mod 64 - 128)) * 64
             + (128 + (cp / 64) mod 64 - 128)) * 64 + (128 + cp mod 64 - 128)) with cp by lia.
    cbv zeta. zbool. reflexivity.
Qed.

Lemma utf8_step_enc buf i e cp rest :
  scalar_value cp -> 0 <= i -> drop (Z.to_nat i) buf = utf8_enc cp ++ rest ->
  i + Z.of_nat (length (utf8_enc cp)) <= e ->
  utf8_step buf i e = (utf16_enc cp, Z.of_nat (length (utf8_enc cp))).
Proof.
  intros Hc Hi Hd He. unfold utf8_step. rewrite (utf8_at_enc buf i e cp rest) by assumption.
  unfold utf16_enc. destruct Hc as [Hr Hs].
  destruct (Z.ltb_spec cp 65536); zbool; [reflexivity|]. cbv zeta. f_equal.
  set (x := cp - 65536). assert (Hx : 0 <= x < 1024 * 1024) by (unfold x; lia).
  assert (Hd2 : 0 <= x / 1024 < 1024) by (split; [apply Z.div_pos|apply Z.div_lt_upper_bound]; lia).
  unfold shr32u. rewrite (Z.mod_small x) by lia. change (10 mod 32) with 10.
  rewrite Z.shiftr_div_pow2 by lia. change (2 ^ 10) with 1024.
  rewrite !(land_low _ 10) by (reflexivity || lia). change (2 ^ 10) with 1024.
  rewrite (Z.mod_small (x / 1024)) by lia.
  pose proof (Z.mod_pos_bound x 1024 ltac:(lia)).
  rewrite (or_high (x / 1024) 55296 10) by (reflexivity || lia).
  unfold or32. rewrite Z.lor_comm. fold (or32 (x mod 1024) 56320).
  rewrite (or_high (x mod 1024) 56320 10) by (reflexivity || lia). reflexivity.
Qed.

Lemma utf8_enc_length cp : (1 <= length (utf8_enc cp) <= 4)%nat.
Proof. unfold utf8_enc. repeat destruct (_ <? _); cbn; lia. Qed.

Lemma utf8_slice_loop_enc buf cps : forall fuel i acc,
  Forall scalar_value cps -> 0 <= i ->
  drop (Z.to_nat i) buf = concat (map utf8_enc cps) ->
  Z.of_nat (length buf) <= i + Z.of_nat fuel ->
  utf8_slice_loop fuel buf i (Z.of_nat (length buf)) acc = acc ++ concat (map utf16_enc cps).
Proof.
  induction cps as [|cp cps IH]; intros fuel i acc Hs Hi Hd Hf.
  - apply (f_equal length) in Hd. rewrite length_drop in Hd. cbn in Hd. cbn [map concat].
    rewrite app_nil_r. destruct fuel; [reflexivity|]. cbn [utf8_slice_loop]. zbool. reflexivity.
  - inversion_clear Hs as [|? ? Hc Hcps]. cbn [map concat] in *.
    pose proof (utf8_enc_length cp) as Hl.
    pose proof (f_equal length Hd) as L. rewrite length_drop, length_app in L.
    destruct fuel as [|fuel]; [lia|]. cbn [utf8_slice_loop]. zbool.
    rewrite (utf8_step_enc buf i _ cp (concat (map utf8_enc cps))) by (assumption || lia).
    rewrite IH; [rewrite app_assoc; reflexivity|assumption|lia| |lia].
    rewrite Z2Nat.inj_add, Nat2Z.id, <- drop_drop, Hd by lia. rewrite drop_app_length. reflexivity.
Qed.

(** *** [decodeCodePointsArray] *)

Lemma chunks_flatten l (n k : nat) acc :
  (0 < n)%nat ->
  fold_left (fun res i => res ++ fromCharCode (take n (drop (Z.to_nat i) l)))
    ((fun j => 0 + Z.of_nat n * Z.of_nat j) <$> seq 0 k) acc
  = acc ++ fromCharCode (take (n * k) l).
Proof.
  intros Hn. revert acc. induction k as [|k IH]; intros acc.
  - rewrite Nat.mul_0_r. cbn. rewrite app_nil_r. reflexivity.
  - rewrite seq_S, fmap_app, fold_left_app, IH. cbn [fmap list_fmap fold_left].
    rewrite <- app_assoc. f_equal. unfold fromCharCode. rewrite <- map_app. f_equal.
    replace (Z.to_nat (0 + Z.of_nat n * Z.of_nat (0 + k))) with (n * k)%nat by lia.
    replace (n * S k)%nat with (n * k + n)%nat by lia.
    rewrite take_take_drop. reflexivity.
Qed.

Lemma decodeCodePointsArray_correct l : decodeCodePointsArray l = fromCharCode l.
Proof.
  unfold decodeCodePointsArray. destruct (_ <=? _); [reflexivity|].
  unfold for_range, indices, MAX_ARGUMENTS_LENGTH.
  change 4096 with (Z.of_nat 4096) at 4. change (Z.to_nat 4096) with 4096%nat.
  rewrite chunks_flatten by lia. cbn [app]. f_equal. apply take_ge.
  pose proof (Z.mul_succ_div_gt (Z.of_nat (length l) - 0 + 4096 - 1) 4096 ltac:(lia)). lia.
Qed.

Lemma fromCharCode_units l : Forall unit16 l -> fromCharCode l = l.
Proof.
  induction 1 as [|c l Hc _ IH]; [reflexivity|].
  change (fromCharCode (c :: l)) with (c mod 65536 :: fromCharCode l).
  rewrite IH. f_equal. apply Z.mod_small, Hc.
Qed.

(** *** Well-formed output *)

Lemma utf16_enc_units cp : scalar_value cp -> Forall unit16 (utf16_enc cp).
Proof.
  intros [Hr Hs]. unfold utf16_enc, unit16. destruct (Z.ltb_spec cp 65536); [constructor; [lia|constructor]|].
  assert (0 <= (cp - 65536) / 1024 < 1024) by (split; [apply Z.div_pos|apply Z.div_lt_upper_bound]; lia).
  pose proof (Z.mod_pos_bound (cp - 65536) 1024 ltac:(lia)).
  repeat constructor; lia.
Qed.

Lemma scalars_utf16_enc cps :
  Forall scalar_value cps -> scalars (concat (map utf16_enc cps)) = cps.
Proof.
  induction 1 as [|cp cps [Hr Hs] _ IH]; [reflexivity|]. cbn [map concat]. unfold utf16_enc at 1.
  destruct (Z.ltb_spec cp 65536); cbn [app scalars].
  - replace (is_lead cp) with false by (unfold is_lead; lia).
    replace (is_trail cp) with false by (unfold is_trail; lia). rewrite IH. reflexivity.
  - set (x := cp - 65536).
    assert (0 <= x / 1024 < 1024)
      by (split; [apply Z.div_pos|apply Z.div_lt_upper_bound]; unfold x; lia).
    pose proof (Z.mod_pos_bound x 1024 ltac:(lia)). pose proof (Z.div_mod x 1024 ltac:(lia)).
    replace (is_lead (55296 + x / 1024)) with true by (unfold is_lead; lia).
    replace (is_trail (56320 + x mod 1024)) with true by (unfold is_trail; lia).
    rewrite IH. f_equal. unfold pair_value, x in *. lia.
Qed.

Lemma scalars_scalar s : Forall unit16 s -> Forall scalar_value (scalars s).
Proof.
  induction s as [s IH] using (induction_ltof1 _ (@length Z)). unfold ltof in IH. intros Hs.
  destruct Hs as [|c s Hc Hs]; [constructor|]. unfold unit16 in Hc. cbn [scalars].
  assert (R : scalar_value 65533) by (unfold scalar_value; lia).
  destruct (is_lead c) eqn:L.
  - destruct Hs as [|d s Hd Hs]; [repeat constructor; apply R|].
    destruct (is_trail d) eqn:T.
    + constructor; [|apply IH; [cbn; lia|assumption]].
      pose proof (pair_value_bits c d L T). unfold scalar_value. lia.
    + constructor; [exact R|apply IH; [cbn; lia|constructor; assumption]].
  - destruct (is_trail c) eqn:T; (constructor; [|apply IH; [cbn; lia|assumption]]); [exact R|].
    unfold scalar_value, is_lead, is_trail in *. lia.
Qed.

Lemma effective_units s : Forall unit16 s -> Forall unit16 (effective s).
Proof.
  induction 1 as [|a s Ha Hs IH]; [constructor|]. destruct Hs as [|b [|c s] Hb Hs]; cbn [effective] in *.
  - auto.
  - destruct (_ && _); auto.
  - auto.
Qed.

(** A string that does not end in two lead surrogates is read in full. *)
Definition ends_in_two_leads (s : jsstr) : bool :=
  match reverse s with a :: b :: _ => is_lead a && is_lead b | _ => false end.

Lemma effective_all s : ends_in_two_leads s = false -> effective s = s.
Proof.
  induction s as [|a s IH]; [reflexivity|]. intros H. destruct s as [|b [|c s]].
  - reflexivity.
  - cbn [effective]. change (ends_in_two_leads [a; b]) with (is_lead b && is_lead a) in H.
    rewrite andb_comm, H. reflexivity.
  - change (effective (a :: b :: c :: s)) with (a :: effective (b :: c :: s)). f_equal. apply IH.
    unfold ends_in_two_leads in *. rewrite reverse_cons in H.
    destruct (reverse (b :: c :: s)) as [|x [|y l]] eqn:E; cbn in H |- *; try assumption; reflexivity.
Qed.

Lemma utf8Slice_enc cps :
  Forall scalar_value cps ->
  let b := concat (map utf8_enc cps) in
  utf8Slice b 0 (Z.of_nat (length b)) = concat (map utf16_enc cps).
Proof.
  intros H. cbv zeta. set (b := concat (map utf8_enc cps)). unfold utf8Slice.
  rewrite Z.min_id. rewrite (utf8_slice_loop_enc b cps) by (assumption || lia || reflexivity).
  cbn [app]. rewrite decodeCodePointsArray_correct. apply fromCharCode_units.
  induction H as [|cp cps Hc _ IH]; [constructor|]. cbn [map concat].
  apply Forall_app. split; [apply utf16_enc_units, Hc|apply IH].
Qed.

(** Decoding the UTF-8 text of a string gives the string with every lone
    surrogate replaced by U+FFFD, unless the string ends in two of them. *)
Theorem utf8_roundtrip s :
  Forall unit16 s -> ends_in_two_leads s = false ->
  exists b, utf8ToBytes s None = Ok b /\ utf8Slice b 0 (Z.of_nat (length b)) = toWellFormed s.
Proof.
  intros Hs He. rewrite utf8ToBytes_all, effective_all by assumption.
  eexists. split; [reflexivity|]. apply utf8Slice_enc, scalars_scalar, Hs.
Qed.

Lemma utf8_roundtrip_witness :
  exists b, utf8ToBytes [233; 55357; 56832; 56832] None = Ok b /\
    utf8Slice b 0 (Z.of_nat (length b)) = [233; 55357; 56832; 65533].
Proof.
  assert (U : Forall unit16 [233; 55357; 56832; 56832]) by (repeat constructor; vm_compute; congruence).
  destruct (utf8_roundtrip [233; 55357; 56832; 56832] U eq_refl) as (b & E & R).
  exists b. split; [exact E|]. rewrite R. vm_compute. reflexivity.
Defined.

(** *** Exactness of the decoder *)

Lemma at_byte buf i : Forall byte buf -> byte (at_ buf i).
Proof.
  intros H. unfold at_, zget. destruct (0 <=? i); [|unfold byte; cbn; lia].
  destruct (buf !! Z.to_nat i) eqn:E; [eapply Forall_byte_lookup; eassumption|unfold byte; cbn; lia].
Qed.

Lemma at_lookup buf i j :
  0 <= i -> i + Z.of_nat j < Z.of_nat (length buf) ->
  drop (Z.to_nat i) buf !! j = Some (at_ buf (i + Z.of_nat j)).
Proof.
  intros Hi Hj. rewrite lookup_drop. unfold at_, zget. rewrite (proj2 (Z.leb_le _ _)) by lia.
  rewrite Z2Nat.inj_add, Nat2Z.id by lia.
  destruct (lookup_lt_is_Some_2 buf (Z.to_nat i + j)) as [x ->]; [lia|reflexivity].
Qed.

(** The bytes of a sequence, as the decoder reads them one by one. *)
Lemma take_at buf i n :
  0 <= i -> i + Z.of_nat n <= Z.of_nat (length buf) ->
  take n (drop (Z.to_nat i) buf) = map (fun j => at_ buf (i + Z.of_nat j)) (seq 0 n).
Proof.
  intros Hi Hn. apply list_eq. intros j. destruct (decide (j < n)%nat) as [L|L].
  - rewrite lookup_take_lt by exact L. rewrite at_lookup by lia. symmetry.
    apply list_lookup_fmap_Some. exists j. split; [reflexivity|]. apply lookup_seq. lia.
  - rewrite lookup_take_ge by lia. symmetry. apply lookup_ge_None_2. rewrite length_map, length_seq. lia.
Qed.

(** What the decoder found at an index is the encoding of a scalar value. *)
Definition sequence_at (buf : list Z) (i e cp n : Z) : Prop :=
  scalar_value cp /\ n = Z.of_nat (length (utf8_enc cp)) /\ i + n <= e /\
  take (Z.to_nat n) (drop (Z.to_nat i) buf) = utf8_enc cp.

Lemma sequence_intro buf i e cp n :
  0 <= i -> i + Z.of_nat n <= e -> e <= Z.of_nat (length buf) -> scalar_value cp ->
  utf8_enc cp = map (fun j => at_ buf (i + Z.of_nat j)) (seq 0 n) -> sequence_at buf i e cp (Z.of_nat n).
Proof.
  intros Hi He Hl Hs E. unfold sequence_at. rewrite E, length_map, length_seq, Nat2Z.id.
  split; [exact Hs|]. split; [reflexivity|]. split; [exact He|]. apply take_at; lia.
Qed.

(** A sequence cut off by the end of the range is refused. *)
Ltac sequence_cut H := exfalso; unfold utf8_at in H; do 4 (revert H; zbool; cbv iota; intros H); discriminate H.

(** ... and the bytes of a complete one are its digits. *)
Ltac sequence_bytes :=
  cbn [map seq]; change (Z.of_nat 0) with 0; change (Z.of_nat 1) with 1;
  change (Z.of_nat 2) with 2; change (Z.of_nat 3) with 3; rewrite ?Z.add_0_r;
  repeat (apply (f_equal2 cons); [lia|]); reflexivity.

Section Sound.
Context (buf : list Z) (i e cp n : Z).
Hypotheses (Hb : Forall byte buf) (Hi : 0 <= i) (He : i < e) (Hl : e <= Z.of_nat (length buf)).
Hypothesis H : utf8_at buf i e = (Some cp, n).

Let a := at_ buf i.
Let b := at_ buf (i + 1).
Let c := at_ buf (i + 2).
Let d := at_ buf (i + 3).

Let bound (j : Z) : 0 <= at_ buf j < 256 := at_byte buf j Hb.

Lemma sequence_1 : a < 192 -> sequence_at buf i e cp n.
Proof.
  intros Ha. pose proof (bound i : 0 <= a < 256) as B0. pose proof H as R.
  rewrite (utf8_at_1 buf i e a) in R by (reflexivity || exact B0 || lia).
  destruct (Z.ltb_spec a 128); [|discriminate]. injection R as <- <-.
  apply (sequence_intro buf i e a 1); [lia..|unfold scalar_value; lia|].
  rewrite utf8_enc_digits. zbool. sequence_bytes.
Qed.

Lemma sequence_2 : 192 <= a < 224 -> sequence_at buf i e cp n.
Proof.
  intros Ha. pose proof (bound i : 0 <= a < 256) as B0. pose proof (bound (i + 1) : 0 <= b < 256) as B1.
  pose proof H as R. destruct (Z.le_gt_cases (i + 2) e) as [L|L]; [|fold a in R; sequence_cut R].
  rewrite (utf8_at_2 buf i e a b) in R by (reflexivity || exact B0 || exact B1 || lia).
  destruct (_ && _) eqn:C in R; [|discriminate]. cbv zeta in R.
  destruct (Z.ltb_spec 127 ((a - 192) * 64 + (b - 128))); [|discriminate]. injection R as E <-. digits64 cp.
  assert (cp / 64 = a - 192 /\ cp mod 64 = b - 128) as [E1 E2] by lia.
  apply (sequence_intro buf i e cp 2); [lia..|unfold scalar_value; lia|].
  rewrite utf8_enc_digits. zbool. sequence_bytes.
Qed.

Lemma sequence_3 : 224 <= a < 240 -> sequence_at buf i e cp n.
Proof.
  intros Ha. pose proof (bound i : 0 <= a < 256) as B0. pose proof (bound (i + 1) : 0 <= b < 256) as B1.
  pose proof (bound (i + 2) : 0 <= c < 256) as B2.
  pose proof H as R. destruct (Z.le_gt_cases (i + 3) e) as [L|L]; [|fold a in R; sequence_cut R].
  rewrite (utf8_at_3 buf i e a b c) in R by (reflexivity || exact B0 || exact B1 || exact B2 || lia).
  destruct (_ && _) eqn:C in R; [|discriminate]. cbv zeta in R.
  destruct (_ && _) eqn:G in R; [|discriminate]. injection R as E <-. digits64 cp.
  assert (cp / 64 / 64 = a - 224 /\ cp / 64 mod 64 = b - 128 /\ cp mod 64 = c - 128) as (E1 & E2 & E3) by lia.
  apply (sequence_intro buf i e cp 3); [lia..|unfold scalar_value; lia|].
  rewrite utf8_enc_digits. zbool. sequence_bytes.
Qed.

Lemma sequence_4 : 240 <= a -> sequence_at buf i e cp n.
Proof.
  intros Ha. pose proof (bound i : 0 <= a < 256) as B0. pose proof (bound (i + 1) : 0 <= b < 256) as B1.
  pose proof (bound (i + 2) : 0 <= c < 256) as B2. pose proof (bound (i + 3) : 0 <= d < 256) as B3.
  pose proof H as R. destruct (Z.le_gt_cases (i + 4) e) as [L|L]; [|fold a in R; sequence_cut R].
  rewrite (utf8_at_4 buf i e a b c d) in R by (reflexivity || exact B0 || exact B1 || exact B2 || exact B3 || lia).
  destruct (_ && _) eqn:C in R; [|discriminate]. cbv zeta in R.
  destruct (_ && _) eqn:G in R; [|discriminate]. injection R as E <-. digits64 cp.
  assert (cp / 64 / 64 / 64 = a - 240 /\ cp / 64 / 64 mod 64 = b - 128 /\ cp / 64 mod 64 = c - 128 /\
    cp mod 64 = d - 128) as (E1 & E2 & E3 & E4) by lia.
  apply (sequence_intro buf i e cp 4); [lia..|unfold scalar_value; lia|].
  rewrite utf8_enc_digits. zbool. sequence_bytes.
Qed.

(** The decoder accepts only the shortest form of a scalar value. *)
Lemma utf8_at_sound : sequence_at buf i e cp n.
Proof.
  destruct (Z.lt_ge_cases a 192); [apply sequence_1; assumption|].
  destruct (Z.lt_ge_cases a 224); [apply sequence_2; lia|].
  destruct (Z.lt_ge_cases a 240); [apply sequence_3|apply sequence_4]; lia.
Qed.
End Sound.
