(* ===== verification/EncodingFacts.v ===== *)
(** Round trips and exactness of the codecs of [Encoding]. *)

From Stdlib Require Import String.
From stdpp Require Import base numbers list.
From S2P Require Import Prelude JsNumber JsValue Base64 Encoding.

Local Open Scope Z_scope.

(** ** base64 as [buffer.js] uses it *)

(** The characters the decoder keeps: those before the first '=', trimmed, the
    valid ones. *)
Definition base64_chars (s : jsstr) : jsstr :=
  filter (fun c => valid_base64_char c = true) (trim (split_eq s)).

Lemma valid_not_eq c : valid_base64_char c = true -> c <> 61.
Proof. intros H ->. discriminate. Qed.

Lemma base64_chars_valid s : Forall (fun c => c <> 61) (base64_chars s).
Proof.
  apply Forall_forall. intros c Hc. apply list_elem_of_filter in Hc as [Hc _].
  apply valid_not_eq, Hc.
Qed.

Lemma pad4_spec s :
  exists p, pad4 3 s = s ++ replicate p 61 /\ Z.of_nat (length s + p) mod 4 = 0 /\
            (p = 0%nat \/ Z.of_nat (length s) mod 4 <> 0).
Proof.
  pose proof (Z.mod_pos_bound (Z.of_nat (length s)) 4 ltac:(lia)) as B.
  pose proof (Z.div_mod (Z.of_nat (length s)) 4 ltac:(lia)) as E.
  set (r := Z.of_nat (length s) mod 4) in *. set (q := Z.of_nat (length s) / 4) in *.
  assert (S : forall k, Z.of_nat (length s + k) mod 4 = (r + Z.of_nat k) mod 4).
  { intros k. rewrite Nat2Z.inj_add, E. rewrite <- Z.add_assoc, Z.add_comm, Z.mul_comm.
    apply Z.mod_add. lia. }
  assert (C : r = 0 \/ r = 1 \/ r = 2 \/ r = 3) by lia.
  cbn [pad4]. repeat rewrite length_app. cbn [length]. fold r.
  change (Z.of_nat (length s) mod 4) with r. rewrite <- !Nat.add_assoc, !S.
  destruct C as [->|[->|[->| ->]]];
    [exists 0%nat|exists 3%nat|exists 2%nat|exists 1%nat]; cbn [Nat.add replicate];
    (split; [cbn; rewrite ?app_nil_r, <- ?app_assoc; reflexivity|]); rewrite S;
    (split; [reflexivity|]); [left; reflexivity|right|right|right]; lia.
Qed.

(** [base64ToBytes] is total: the sextets of the characters it keeps. *)
Lemma base64ToBytes_run s :
  base64ToBytes s = Ok (base64.decode_spec (map base64.char_sextet (base64_chars s))).
Proof.
  unfold base64ToBytes, base64clean. fold (base64_chars s). pose proof (base64_chars_valid s) as V.
  set (c := base64_chars s) in *. destruct (Z.ltb_spec (Z.of_nat (length c)) 2) as [L|L].
  - rewrite base64.toByteArray_run by (cbn; auto).
    destruct c as [|x [|y c]]; [reflexivity|reflexivity|cbn in L; lia].
  - destruct (pad4_spec c) as (p & -> & Hm & Hp).
    rewrite base64.toByteArray_run; rewrite ?base64.valid_len_body by exact V.
    + rewrite Nat2Z.id, take_app_length. reflexivity.
    + rewrite length_app, length_replicate. exact Hm.
    + rewrite length_app, length_replicate. destruct Hp; [left; lia|right; assumption].
Qed.

Lemma table_chars n : base64.six n ->
  Forall (fun c => valid_base64_char c = true /\ is_space c = false) (base64.lookup n).
Proof.
  intros Hn. assert (B : forallb (fun i => forallb (fun c => valid_base64_char c && negb (is_space c))
                            (base64.lookup i)) (indices 0 64 1) = true) by (vm_compute; reflexivity).
  rewrite forallb_forall in B. specialize (B n). rewrite forallb_forall in B.
  apply Forall_forall. intros c Hc. apply list_elem_of_In in Hc.
  specialize (B ltac:(apply list_elem_of_In, elem_of_indices_1, Hn) c Hc). cbv beta in B.
  apply andb_prop in B as [B1 B2]. split; [exact B1|]. destruct (is_space c); [discriminate|reflexivity].
Qed.

Lemma body_clean ss : Forall base64.six ss ->
  Forall (fun c => valid_base64_char c = true /\ is_space c = false) (concat (map base64.lookup ss)).
Proof.
  induction 1 as [|n ss Hn _ IH]; cbn [map concat]; [constructor|].
  apply Forall_app. split; [apply table_chars, Hn|exact IH].
Qed.

Lemma trim_start_clean s : Forall (fun c => is_space c = false) s -> trim_start s = s.
Proof. destruct 1 as [|c s H _]; cbn; [reflexivity|]. rewrite H. reflexivity. Qed.

Lemma trim_clean s : Forall (fun c => is_space c = false) s -> trim s = s.
Proof.
  intros H. unfold trim. rewrite (trim_start_clean s) by exact H.
  rewrite trim_start_clean by (apply Forall_reverse, H). apply reverse_involutive.
Qed.

Lemma split_eq_body body p : Forall (fun c => c <> 61) body -> split_eq (body ++ replicate p 61) = body.
Proof.
  induction 1 as [|c body Hc _ IH]; cbn [app split_eq].
  - destruct p; reflexivity.
  - rewrite (proj2 (Z.eqb_neq _ _) Hc), IH. reflexivity.
Qed.

Lemma filter_all {A} (P : A -> Prop) `{forall x, Decision (P x)} l : Forall P l -> filter P l = l.
Proof.
  induction 1 as [|x l Hx _ IH]; [reflexivity|]. rewrite filter_cons_True by exact Hx. f_equal. exact IH.
Qed.

Lemma base64ToBytes_fromByteArray u : Forall byte u -> base64ToBytes (base64.fromByteArray u) = Ok u.
Proof.
  intros Hu. rewrite base64ToBytes_run, base64.fromByteArray_run by exact Hu.
  destruct (base64.encode_shape u Hu) as (ss & p & -> & Hs & Hd & _).
  destruct (base64.body_chars ss Hs) as (B1 & B2 & B3). pose proof (body_clean ss Hs) as B4.
  unfold base64_chars. rewrite split_eq_body by exact B3.
  rewrite trim_clean by (eapply Forall_impl; [exact B4|cbv beta; tauto]).
  rewrite filter_all by (eapply Forall_impl; [exact B4|cbv beta; tauto]).
  rewrite B2, Hd. reflexivity.
Qed.

(** ** One string per byte *)

(** The bytes from index [s] up to index [e]. *)
Definition sub (buf : list Z) (s e : Z) : list Z := take (Z.to_nat (e - s)) (drop (Z.to_nat s) buf).

Lemma sub_all buf : sub buf 0 (Z.of_nat (length buf)) = buf.
Proof. unfold sub. rewrite Z.sub_0_r, Nat2Z.id. apply firstn_all. Qed.

Lemma sub_bytes buf s e : Forall byte buf -> Forall byte (sub buf s e).
Proof. intros H. apply Forall_take, Forall_drop, H. Qed.

Lemma length_sub buf s e :
  0 <= s <= e -> e <= Z.of_nat (length buf) -> Z.of_nat (length (sub buf s e)) = e - s.
Proof. intros. unfold sub. rewrite length_take, length_drop. lia. Qed.

Lemma at_indices buf s e :
  0 <= s -> e <= Z.of_nat (length buf) -> map (at_ buf) (indices s e 1) = sub buf s e.
Proof.
  intros Hs He. destruct (Z.le_gt_cases e s) as [H|H].
  { rewrite indices_nil by lia. unfold sub. replace (Z.to_nat (e - s)) with O by lia. reflexivity. }
  apply list_eq. intros i. rewrite list_lookup_fmap. unfold indices.
  rewrite list_lookup_fmap. replace ((e - s + 1 - 1) / 1) with (e - s) by (rewrite Z.div_1_r; lia).
  unfold sub. destruct (decide (i < Z.to_nat (e - s))%nat) as [L|L].
  - rewrite lookup_seq_lt, lookup_take_lt, lookup_drop by exact L. cbn [fmap option_fmap option_map].
    unfold at_, zget. zbool. replace (Z.to_nat (s + 1 * Z.of_nat (0 + i))) with (Z.to_nat s + i)%nat by lia.
    destruct (lookup_lt_is_Some_2 buf (Z.to_nat s + i)) as [x ->]; [lia|reflexivity].
  - rewrite lookup_seq_ge, lookup_take_ge by lia. reflexivity.
Qed.

(** A loop that appends a string per turn. *)
Lemma for_range_append {A} lo hi step (f : Z -> list A) acc :
  for_range lo hi step (fun i out => out ++ f i) acc = acc ++ concat (map f (indices lo hi step)).
Proof.
  unfold for_range. revert acc. induction (indices lo hi step) as [|i l IH]; intros acc; cbn.
  - rewrite app_nil_r. reflexivity.
  - rewrite IH, <- app_assoc. reflexivity.
Qed.

Lemma asciiSlice_run buf s e :
  Forall byte buf -> 0 <= s -> e <= Z.of_nat (length buf) ->
  asciiSlice buf s e = map (fun b => b mod 128) (sub buf s e).
Proof.
  intros Hb Hs He. unfold asciiSlice. rewrite Z.min_r by lia.
  rewrite (for_range_push s e 1 (fun i => and32 (at_ buf i) 127 mod 65536)). cbn [app].
  rewrite <- at_indices, map_map by assumption. apply map_ext. intros i.
  rewrite (land_low _ 7) by (reflexivity || lia). change (2 ^ 7) with 128. apply Z.mod_small.
  pose proof (Z.mod_pos_bound (at_ buf i) 128 ltac:(lia)). lia.
Qed.

Lemma latin1Slice_run buf s e :
  Forall byte buf -> 0 <= s -> e <= Z.of_nat (length buf) -> latin1Slice buf s e = sub buf s e.
Proof.
  intros Hb Hs He. unfold latin1Slice. rewrite Z.min_r by lia.
  rewrite (for_range_push s e 1 (fun i => at_ buf i mod 65536)). cbn [app].
  rewrite <- at_indices by assumption. apply map_ext. intros i.
  apply Z.mod_small. pose proof (at_byte buf i Hb) as B. unfold byte in B. lia.
Qed.

(** The two hexadecimal digits of a byte. *)
Definition hex_digit (d : Z) : Z := if d <? 10 then 48 + d else 87 + d.
Definition hex_pair (b : Z) : jsstr := [hex_digit (b / 16); hex_digit (b mod 16)].

Lemma hex_table b : byte b -> default (js "undefined") (zget hexSliceLookupTable b) = hex_pair b.
Proof.
  intros Hb. apply (forall_byte (fun b => str_eqb (default (js "undefined") (zget hexSliceLookupTable b))
    (hex_pair b))) in Hb; [|vm_compute; reflexivity]. unfold str_eqb in Hb.
  apply bool_decide_eq_true_1 in Hb. exact Hb.
Qed.

Lemma hexSlice_run buf s e :
  Forall byte buf -> 0 <= s -> 0 < e <= Z.of_nat (length buf) ->
  hexSlice buf s e = concat (map hex_pair (sub buf s e)).
Proof.
  intros Hb Hs He. unfold hexSlice. rewrite (for_range_append _ _ _ _ []). cbn [app].
  replace (if (s =? 0) || (s <? 0) then 0 else s) with s
    by (destruct (Z.eqb_spec s 0); zbool; cbn; lia).
  zbool. cbn [orb]. rewrite <- at_indices, map_map by (assumption || lia). f_equal. apply map_ext.
  intros i. apply hex_table, at_byte, Hb.
Qed.

Lemma hex_value_digit d : 0 <= d < 16 -> hexCharValueTable (hex_digit d) = Some d.
Proof.
  intros Hd. unfold hexCharValueTable, hex_digit. destruct (Z.ltb_spec d 10); zbool; cbn [andb]; f_equal; lia.
Qed.

(** ** UTF-16LE *)

(** The bytes of a string's code units, and the units of a byte string (an odd
    last byte is dropped). *)
Definition utf16_bytes (s : jsstr) : list Z := concat (map (fun c => [c mod 256; c / 256]) s).
Fixpoint utf16_units (l : list Z) : jsstr :=
  match l with
  | a :: b :: l' => a + b * 256 :: utf16_units l'
  | _ => []
  end.

Lemma length_utf16_bytes s : length (utf16_bytes s) = (2 * length s)%nat.
Proof. induction s as [|c s IH]; [reflexivity|]. unfold utf16_bytes in *. cbn. rewrite IH. lia. Qed.

Lemma utf16_bytes_byte s : Forall unit16 s -> Forall byte (utf16_bytes s).
Proof.
  induction 1 as [|c s Hc _ IH]; [constructor|]. unfold utf16_bytes in *. cbn [map concat app].
  unfold unit16, byte in *. pose proof (Z.mod_pos_bound c 256 ltac:(lia)).
  assert (0 <= c / 256 < 256) by (split; [apply Z.div_pos|apply Z.div_lt_upper_bound]; lia).
  repeat constructor; (lia || exact IH).
Qed.

Lemma utf16leToBytes_run s u :
  0 <= u -> utf16leToBytes s u = take (Z.to_nat (2 * (u / 2))) (utf16_bytes s).
Proof.
  revert u. induction s as [|c s IH]; intros u Hu; [symmetry; apply take_nil|].
  cbn [utf16leToBytes]. destruct (Z.ltb_spec (u - 2) 0).
  - replace (u / 2) with 0 by (symmetry; apply Z.div_small; lia). reflexivity.
  - rewrite IH, sar32_div by lia. change (2 ^ 8) with 256.
    replace (u / 2) with ((u - 2) / 2 + 1) by (rewrite <- Z.div_add by lia; f_equal; lia).
    assert (0 <= (u - 2) / 2) by (apply Z.div_pos; lia).
    replace (Z.to_nat (2 * ((u - 2) / 2 + 1))) with (S (S (Z.to_nat (2 * ((u - 2) / 2))))) by lia.
    reflexivity.
Qed.

Lemma utf16leToBytes_all s u : 2 * Z.of_nat (length s) <= u -> utf16leToBytes s u = utf16_bytes s.
Proof.
  intros H. rewrite utf16leToBytes_run by lia. apply take_ge. rewrite length_utf16_bytes.
  pose proof (Z.div_le_mono (2 * Z.of_nat (length s)) u 2 ltac:(lia) H) as M.
  rewrite Z.mul_comm, Z.div_mul in M by lia. lia.
Qed.

Lemma at_cons2 a b l i : 0 <= i -> at_ (a :: b :: l) (i + 2) = at_ l i.
Proof. intros. unfold at_. rewrite !zget_cons by lia. do 2 f_equal. lia. Qed.

Lemma utf16le_decode_run l : Forall byte l -> utf16le_decode l = utf16_units l.
Proof.
  intros H. unfold utf16le_decode. rewrite (for_range_push _ _ 2 (fun i => (at_ l i + at_ l (i + 1) * 256) mod 65536)).
  cbn [app]. revert H. induction (well_founded_ltof _ (@length Z) l) as [l _ IH]. intros H.
  destruct l as [|a [|b l]]; [reflexivity|reflexivity|].
  apply Forall_cons in H as [Ha H]. apply Forall_cons in H as [Hb H]. unfold byte in Ha, Hb.
  cbn [length utf16_units]. rewrite indices_cons by lia. cbn [map]. f_equal.
  - change (at_ (a :: b :: l) 0) with a. change (at_ (a :: b :: l) (0 + 1)) with b. apply Z.mod_small. lia.
  - rewrite <- IH by (assumption || (unfold ltof; cbn; lia)).
    replace (Z.of_nat (S (S (length l))) - 1) with ((Z.of_nat (length l) - 1) + 2) by lia.
    rewrite indices_shift. change (fmap ?f ?k) with (map f k). rewrite map_map. apply map_ext_in.
    intros i Hi. apply list_elem_of_In, elem_of_indices in Hi; [|lia].
    rewrite at_cons2 by lia. replace (i + 2 + 1) with (i + 1 + 2) by lia. rewrite at_cons2 by lia. reflexivity.
Qed.

Lemma utf16_units_bytes s : Forall unit16 s -> utf16_units (utf16_bytes s) = s.
Proof.
  induction 1 as [|c s Hc _ IH]; [reflexivity|]. unfold utf16_bytes in *. cbn [map concat app utf16_units].
  rewrite IH. f_equal. pose proof (Z.div_mod c 256 ltac:(lia)). lia.
Qed.

Lemma utf16_bytes_units l : Forall byte l -> Z.of_nat (length l) mod 2 = 0 -> utf16_bytes (utf16_units l) = l.
Proof.
  induction (well_founded_ltof _ (@length Z) l) as [l _ IH]. intros H E.
  destruct l as [|a [|b l]]; [reflexivity|discriminate|].
  apply Forall_cons in H as [Ha H]. apply Forall_cons in H as [Hb H]. unfold byte in *.
  cbn [utf16_units]. unfold utf16_bytes in *. cbn [map concat app]. f_equal; [|f_equal].
  - rewrite Z.mod_add by lia. apply Z.mod_small, Ha.
  - rewrite Z.div_add by lia. rewrite Z.div_small by exact Ha. lia.
  - apply IH; [unfold ltof; cbn; lia|exact H|]. cbn [length] in E.
    replace (Z.of_nat (S (S (length l)))) with (Z.of_nat (length l) + 1 * 2) in E by lia.
    rewrite Z.mod_add in E by lia. exact E.
Qed.

Lemma utf16_units_unit16 l : Forall byte l -> Forall unit16 (utf16_units l).
Proof.
  induction (well_founded_ltof _ (@length Z) l) as [l _ IH]. intros H.
  destruct l as [|a [|b l]]; [constructor|constructor|].
  apply Forall_cons in H as [Ha H]. apply Forall_cons in H as [Hb H]. unfold byte in *.
  cbn [utf16_units]. constructor; [unfold unit16; lia|]. apply IH; [unfold ltof; cbn; lia|exact H].
Qed.

(** ** UTF-8 decoding *)

(** The scalar values a byte string decodes to: at each position a well-formed
    sequence gives its scalar value, and a byte that starts none gives U+FFFD. *)
Inductive decodes : list Z -> list Z -> Prop :=
| decodes_nil : decodes [] []
| decodes_scalar cp rest out :
    scalar_value cp -> decodes rest out -> decodes (utf8_enc cp ++ rest) (cp :: out)
| decodes_bad b rest out :
    (forall cp k, scalar_value cp -> utf8_enc cp ++ k <> b :: rest) ->
    decodes rest out -> decodes (b :: rest) (65533 :: out).

Lemma utf8_enc_cons cp : exists b l, utf8_enc cp = b :: l.
Proof. unfold utf8_enc. repeat destruct (_ <? _); eauto. Qed.

(** Well-formed sequences do not overlap: the first one is determined. *)
Lemma utf8_enc_inj cp cp' k k' :
  scalar_value cp -> scalar_value cp' -> utf8_enc cp ++ k = utf8_enc cp' ++ k' -> cp = cp' /\ k = k'.
Proof.
  intros H H' E. set (buf := utf8_enc cp ++ k).
  pose proof (utf8_at_enc buf 0 (Z.of_nat (length buf)) cp k H ltac:(lia) eq_refl) as A.
  pose proof (utf8_at_enc buf 0 (Z.of_nat (length buf)) cp' k' H' ltac:(lia) E) as A'.
  pose proof (f_equal length E) as L. unfold buf in A, A'. rewrite !length_app in *.
  rewrite A in A' by lia. injection (A' ltac:(lia)) as -> _.
  split; [reflexivity|]. apply app_inv_head in E. exact E.
Qed.

Lemma decodes_unique l out out' : decodes l out -> decodes l out' -> out = out'.
Proof.
  intros H. revert out'. induction H as [|cp rest out Hc _ IH|b rest out Hb _ IH]; intros out' H'.
  - inversion H' as [|cp k o Hc Hd E|]; [reflexivity|]. destruct (utf8_enc_cons cp) as (b & l & E').
    rewrite E' in E. discriminate.
  - remember (utf8_enc cp ++ rest) as l eqn:E. destruct H' as [|cp' k o Hc' Hd|b k o Hb Hd].
    + destruct (utf8_enc_cons cp) as (b & l & E'). rewrite E' in E. discriminate.
    + apply utf8_enc_inj in E as [-> ->]; [|assumption|assumption]. f_equal. apply IH, Hd.
    + destruct (Hb cp rest Hc (eq_sym E)).
  - remember (b :: rest) as l eqn:E. destruct H' as [|cp' k o Hc' Hd|b' k o Hb' Hd]; [discriminate| |].
    + destruct (Hb cp' k Hc' eq_refl).
    + injection E as -> ->. f_equal. apply IH, Hd.
Qed.

Lemma drop_add_Z {A} (l : list A) i n :
  0 <= i -> 0 <= n -> drop (Z.to_nat (i + n)) l = drop (Z.to_nat n) (drop (Z.to_nat i) l).
Proof. intros. rewrite drop_drop. f_equal. lia. Qed.

Lemma utf16_enc_step cp : scalar_value cp ->
  (if 65535 <? cp then
     [or32 (and32 (shr32u (cp - 65536) 10) 1023) 55296; or32 56320 (and32 (cp - 65536) 1023)]
   else [cp]) = utf16_enc cp.
Proof.
  intros H. pose proof (utf8_step_enc (utf8_enc cp) 0 (Z.of_nat (length (utf8_enc cp))) cp [] H ltac:(lia)
    ltac:(rewrite app_nil_r; reflexivity) ltac:(lia)) as S.
  unfold utf8_step in S. rewrite (utf8_at_enc _ 0 _ cp []) in S
    by (first [exact H | rewrite app_nil_r; reflexivity | lia]).
  destruct (65535 <? cp); injection S as <-; reflexivity.
Qed.

Lemma utf8_slice_loop_decodes buf : Forall byte buf -> forall fuel i acc,
  0 <= i <= Z.of_nat (length buf) -> Z.of_nat (length buf) <= i + Z.of_nat fuel ->
  exists out, decodes (drop (Z.to_nat i) buf) out /\ Forall scalar_value out /\
    utf8_slice_loop fuel buf i (Z.of_nat (length buf)) acc = acc ++ concat (map utf16_enc out).
Proof.
  intros Hb. induction fuel as [|fuel IH]; intros i acc Hi Hf.
  - exists []. rewrite drop_ge by lia. split; [constructor|]. split; [constructor|].
    cbn. rewrite app_nil_r. reflexivity.
  - cbn [utf8_slice_loop]. destruct (Z.ltb_spec i (Z.of_nat (length buf))) as [H|H].
    2:{ exists []. rewrite drop_ge by lia. split; [constructor|]. split; [constructor|].
        cbn. rewrite app_nil_r. reflexivity. }
    destruct (utf8_at buf i (Z.of_nat (length buf))) as [[cp|] n] eqn:E.
    + destruct (utf8_at_sound buf i _ cp n Hb ltac:(lia) H ltac:(lia) E) as (Hc & Hn & Hin & Ht).
      pose proof (utf8_enc_length cp) as L. unfold utf8_step. rewrite E.
      replace (if 65535 <? cp then _ else _) with (utf16_enc cp, n)
        by (rewrite <- (utf16_enc_step cp Hc); destruct (65535 <? cp); reflexivity).
      destruct (IH (i + n) (acc ++ utf16_enc cp) ltac:(lia) ltac:(lia)) as (out & Hd & Hs & ->).
      exists (cp :: out). split; [|split; [constructor; assumption|]].
      * rewrite <- (take_drop (Z.to_nat n) (drop _ buf)), Ht. constructor; [exact Hc|].
        rewrite <- drop_add_Z by lia. exact Hd.
      * cbn [map concat]. rewrite app_assoc. reflexivity.
    + unfold utf8_step. rewrite E.
      destruct (IH (i + 1) (acc ++ [65533]) ltac:(lia) ltac:(lia)) as (out & Hd & Hs & ->).
      exists (65533 :: out). split; [|split; [constructor; [unfold scalar_value; lia|exact Hs]|]].
      * destruct (lookup_lt_is_Some_2 buf (Z.to_nat i)) as [b Lb]; [lia|].
        rewrite (drop_S _ _ _ Lb). apply decodes_bad.
        -- intros cp k Hc Ek. rewrite <- (drop_S _ _ _ Lb) in Ek. symmetry in Ek.
           rewrite (utf8_at_enc buf i _ cp k Hc ltac:(lia) Ek) in E; [discriminate|].
           apply (f_equal length) in Ek. rewrite length_drop, length_app in Ek. lia.
        -- replace (S (Z.to_nat i)) with (Z.to_nat (i + 1)) by lia. exact Hd.
      * cbn [map concat]. rewrite <- app_assoc. reflexivity.
Qed.

Lemma scalars_units16 out : Forall scalar_value out -> Forall unit16 (concat (map utf16_enc out)).
Proof.
  induction 1 as [|cp out Hc _ IH]; cbn [map concat]; [constructor|].
  apply Forall_app. split; [apply utf16_enc_units, Hc|exact IH].
Qed.

Lemma utf8Slice_decodes buf : Forall byte buf ->
  exists out, decodes buf out /\ Forall scalar_value out /\
    utf8Slice buf 0 (Z.of_nat (length buf)) = concat (map utf16_enc out).
Proof.
  intros Hb. unfold utf8Slice. rewrite Z.min_id, decodeCodePointsArray_correct, Z.sub_0_r.
  destruct (utf8_slice_loop_decodes buf Hb (Z.to_nat (Z.of_nat (length buf))) 0 [] ltac:(lia) ltac:(lia))
    as (out & Hd & Hs & ->).
  exists out. split; [exact Hd|]. split; [exact Hs|]. apply fromCharCode_units, scalars_units16, Hs.
Qed.

(** A slice of the bytes decodes as the bytes of the slice. *)
Lemma at_sub buf s e j : 0 <= s -> 0 <= j < e - s -> e <= Z.of_nat (length buf) ->
  at_ (sub buf s e) j = at_ buf (s + j).
Proof.
  intros Hs Hj He. unfold at_, zget, sub. zbool. rewrite lookup_take_lt, lookup_drop by lia.
  do 2 f_equal. lia.
Qed.

Lemma utf8_at_sub buf s e i : 0 <= s -> 0 <= i < e - s -> e <= Z.of_nat (length buf) ->
  utf8_at (sub buf s e) i (e - s) = utf8_at buf (s + i) e.
Proof.
  intros Hs Hi He. unfold utf8_at. rewrite at_sub by lia.
  set (a := at_ buf (s + i)). set (n := if 239 <? a then 4 else if 223 <? a then 3 else if 191 <? a then 2 else 1).
  assert (Hn : n = 1 \/ n = 2 \/ n = 3 \/ n = 4)
    by (unfold n; repeat destruct (_ <? a); auto).
  replace (s + i + n <=? e) with (i + n <=? e - s) by lia. cbv zeta.
  destruct (Z.leb_spec (i + n) (e - s)) as [L|L]; [|reflexivity].
  destruct Hn as [->|[->|[->| ->]]]; [reflexivity|..];
    rewrite !at_sub by lia; rewrite <- !Z.add_assoc; reflexivity.
Qed.

Lemma utf8_at_length buf i e : 1 <= snd (utf8_at buf i e) <= 4.
Proof. unfold utf8_at. cbv zeta. cbn [snd]. repeat destruct (_ <? at_ buf i); lia. Qed.

(** Every turn of the loop advances. *)
Lemma utf8_step_advance buf i e : 1 <= snd (utf8_step buf i e) <= 4.
Proof.
  unfold utf8_step. pose proof (utf8_at_length buf i e) as L.
  destruct (utf8_at buf i e) as [[cp|] n]; cbn [snd] in *; [|lia].
  destruct (65535 <? cp); cbn [snd]; exact L.
Qed.

Lemma utf8_slice_loop_sub buf s e : 0 <= s -> e <= Z.of_nat (length buf) -> forall fuel i acc,
  0 <= i -> utf8_slice_loop fuel (sub buf s e) i (e - s) acc = utf8_slice_loop fuel buf (s + i) e acc.
Proof.
  intros Hs He. induction fuel as [|fuel IH]; intros i acc Hi; cbn [utf8_slice_loop]; [reflexivity|].
  replace (s + i <? e) with (i <? e - s) by lia. destruct (Z.ltb_spec i (e - s)) as [L|L]; [|reflexivity].
  pose proof (utf8_step_advance buf (s + i) e) as N.
  unfold utf8_step in *. rewrite utf8_at_sub by lia.
  destruct (utf8_at buf (s + i) e) as [[cp|] n].
  - destruct (65535 <? cp); cbn [snd] in N; rewrite IH, Z.add_assoc by lia; reflexivity.
  - rewrite IH, Z.add_assoc by lia. reflexivity.
Qed.

Lemma utf8Slice_sub buf s e : 0 <= s <= e -> e <= Z.of_nat (length buf) ->
  utf8Slice buf s e = utf8Slice (sub buf s e) 0 (Z.of_nat (length (sub buf s e))).
Proof.
  intros Hs He. unfold utf8Slice. rewrite Z.min_id, (Z.min_r _ e) by lia.
  rewrite length_sub, Z.sub_0_r by lia. f_equal.
  rewrite utf8_slice_loop_sub by lia. rewrite Z.add_0_r. reflexivity.
Qed.

(** [fit] takes as many whole items as the budget holds. *)
Lemma fit_longest u items : 0 <= u -> exists n,
  fit (Some u) items = concat (take n items) /\
  Z.of_nat (length (concat (take n items))) <= u /\
  ((n < length items)%nat -> u < Z.of_nat (length (concat (take (S n) items)))).
Proof.
  revert u. induction items as [|x items IH]; intros u Hu.
  - exists 0%nat. cbn. repeat split; lia.
  - cbn [fit use_units fmap option_fmap option_map units_lt].
    destruct (Z.ltb_spec (u - Z.of_nat (length x)) 0) as [L|L].
    + exists 0%nat. cbn [take concat length]. split; [reflexivity|]. split; [lia|]. intros _.
      rewrite length_app. lia.
    + destruct (IH (u - Z.of_nat (length x)) L) as (n & E & Hle & Hgt). exists (S n).
      cbn [take concat length]. rewrite E, !length_app. split; [reflexivity|]. split; [lia|].
      intros Hn. specialize (Hgt ltac:(lia)). lia.
Qed.

(** What is read of a string: all of it but a lead surrogate that ends it after
    another one. *)
Lemma effective_spec s : effective s = if ends_in_two_leads s then removelast s else s.
Proof.
  destruct (ends_in_two_leads s) eqn:E; [|apply effective_all, E]. revert E.
  induction s as [|a s IH]; [discriminate|]. intros H. destruct s as [|b [|c s]].
  - discriminate H.
  - change (ends_in_two_leads [a; b]) with (is_lead b && is_lead a) in H.
    cbn [effective removelast]. rewrite andb_comm, H. reflexivity.
  - change (effective (a :: b :: c :: s)) with (a :: effective (b :: c :: s)).
    change (removelast (a :: b :: c :: s)) with (a :: removelast (b :: c :: s)). f_equal. apply IH.
    unfold ends_in_two_leads in *. rewrite reverse_cons in H.
    destruct (reverse (b :: c :: s)) as [|x [|y l]] eqn:E; cbn in H |- *; [| |exact H];
      apply (f_equal length) in E; rewrite length_reverse in E; discriminate E.
Qed.

(** ** Properties *)

(** C24: [utf8ToBytes] gives the UTF-8 of the scalar values of the string, a
    lone surrogate read as U+FFFD; of a string that ends in two lead surrogates
    the last one is dropped. With a budget of bytes it gives the longest run of
    whole characters that fits. *)
Theorem utf8ToBytes_correct s : Forall unit16 s ->
  let read := if ends_in_two_leads s then removelast s else s in
  let items := map utf8_enc (scalars read) in
  utf8ToBytes s None = Ok (concat items) /\
  forall u, 0 < u -> exists n,
    utf8ToBytes s (Some u) = Ok (concat (take n items)) /\
    Z.of_nat (length (concat (take n items))) <= u /\
    ((n < length items)%nat -> u < Z.of_nat (length (concat (take (S n) items)))).
Proof.
  intros Hs read items. subst read. assert (I : items_of s = items) by (unfold items_of; rewrite effective_spec; reflexivity).
  rewrite <- I. split; [apply utf8ToBytes_all, Hs|]. intros u Hu.
  destruct (fit_longest u (items_of s) ltac:(lia)) as (n & E & Hle & Hgt).
  exists n. rewrite utf8ToBytes_run by assumption. fold (items_of s). rewrite E.
  split; [reflexivity|]. split; assumption.
Qed.

(** C23: [utf8Slice] decodes as the standard's decoder does up to its handling
    of truncated sequences: left to right, a shortest-form sequence of a scalar
    value gives that value in UTF-16, and any byte that starts none gives one
    U+FFFD; the decoding is unique, and the result never holds a lone
    surrogate. *)
Theorem utf8_decode_spec buf : Forall byte buf ->
  exists out, decodes buf out /\ (forall out', decodes buf out' -> out' = out) /\
    Forall scalar_value out /\
    utf8Slice buf 0 (Z.of_nat (length buf)) = concat (map utf16_enc out).
Proof.
  intros Hb. destruct (utf8Slice_decodes buf Hb) as (out & Hd & Hs & E). exists out.
  split; [exact Hd|]. split; [|split; assumption]. intros out' H'. eapply decodes_unique; eassumption.
Qed.

(** [base64ToBytes] never throws: whatever the string, it decodes the valid
    characters before the first '=', both alphabets, leftover bits dropped; on
    the text of a byte string it gives the bytes back. *)
Theorem base64ToBytes_spec s :
  base64ToBytes s = Ok (base64.decode_spec (map base64.char_sextet (base64_chars s))) /\
  (forall u, Forall byte u -> s = base64.fromByteArray u -> base64ToBytes s = Ok u).
Proof.
  split; [apply base64ToBytes_run|]. intros u Hu ->. apply base64ToBytes_fromByteArray, Hu.
Qed.

Lemma utf8ToBytes_correct_witness :
  Forall unit16 [97; 8364] /\ utf8ToBytes [97; 8364] None = Ok [97; 226; 130; 172].
Proof.
  assert (U : Forall unit16 [97; 8364]) by (repeat constructor; lia).
  exact (conj U (proj1 (utf8ToBytes_correct [97; 8364] U))).
Defined.

Lemma utf8_decode_spec_witness :
  exists out, decodes [97; 226; 130; 255] out /\
    utf8Slice [97; 226; 130; 255] 0 4 = concat (map utf16_enc out).
Proof.
  assert (B : Forall byte [97; 226; 130; 255]) by (repeat constructor; lia).
  destruct (utf8_decode_spec [97; 226; 130; 255] B) as (out & D & _ & _ & E).
  exists out. exact (conj D E).
Defined.
