(* ===== verification/BufferCore.v ===== *)
(** [src/builtins/internal_js_modules/node/buffer.js], part 1: how a Buffer is
    made, shared, written and copied ([from], [alloc], [slice], [write],
    [copy], [fill]).

    The methods act on views of the shared store, so a slice aliases its
    parent.  An argument that the code inspects dynamically is a [val]. *)

From Stdlib Require Import SpecFloat String.
From stdpp Require Import base numbers list gmap.
From S2P Require Import Prelude JsNumber JsValue Base64 Encoding.

Local Open Scope Z_scope.
Local Open Scope js_scope.

(** ** Constants *)

Definition K_MAX_LENGTH : Z := 2147483647.
Definition K_STRING_MAX_LENGTH : Z := Z.shiftl 1 28 - 16.

(** ** Type tests *)

Definition isBuffer (b : val) : bool :=
  match b with VView v => vbuffer v | _ => false end.

(** [isInstance(obj, Uint8Array)]. *)
Definition is_uint8array (b : val) : bool :=
  match b with VView _ => true | _ => false end.

(** [ArrayBuffer.isView(obj)]. *)
Definition isView (b : val) : bool :=
  match b with VView _ | VTyped _ _ => true | _ => false end.

(** ** Encodings *)

Inductive encoding := Hex | Utf8 | Ascii | Latin1 | Base64 | Ucs2.

(** The encoding names, as the [switch] statements list them. *)
Definition encoding_of (s : jsstr) : option encoding :=
  if str_eqb s (js "hex") then Some Hex
  else if str_eqb s (js "utf8") || str_eqb s (js "utf-8") then Some Utf8
  else if str_eqb s (js "ascii") then Some Ascii
  else if str_eqb s (js "latin1") || str_eqb s (js "binary") then Some Latin1
  else if str_eqb s (js "base64") then Some Base64
  else if str_eqb s (js "ucs2") || str_eqb s (js "ucs-2") || str_eqb s (js "utf16le") ||
          str_eqb s (js "utf-16le") then Some Ucs2
  else None.

(** The text of a value where it may name an encoding: [String(v)] for a string
    or a one-element array of one.  No other value converts to a name. *)
Fixpoint name_of (v : val) : option jsstr :=
  match v with
  | Str s => Some s
  | VArray [v'] => name_of v'
  | _ => None
  end.

Definition isEncoding (v : val) : bool :=
  match name_of v with
  | Some s => match encoding_of (toLowerCase s) with Some _ => true | None => false end
  | None => false
  end.

(** The [for (;;) switch (encoding)] loops: the name as given, then once in
    lower case; [None] when both miss. *)
Definition switch_encoding (v : val) : option encoding :=
  match match v with Str s => encoding_of s | _ => None end with
  | Some e => Some e
  | None =>
      match name_of v with
      | Some s => encoding_of (toLowerCase s)
      | None => None
      end
  end.

(** ** Allocation *)

(** [new Uint8Array(length)], which refuses a length out of range, with the
    prototype set to [Buffer.prototype]. *)
Definition createBuffer (length : num) : M view :=
  if flt (of_Z K_MAX_LENGTH) length then
    throw_range [Txt "The value "; Of (Num length); Txt " is invalid for option size"]
  else if (to_integer length <? 0) || (K_MAX_LENGTH <? to_integer length) then
    throw_range [Txt "invalid or out-of-range index"]
  else new_buffer true (replicate (Z.to_nat (to_integer length)) 0).

Definition checked (length : num) : M Z :=
  if fle (of_Z K_MAX_LENGTH) length then
    throw_range [Txt "Attempt to allocate Buffer larger than maximum size: 0x7fffffff bytes"]
  else ret (ToInt32 length).

Definition assertSize (size : val) : M unit :=
  match size with
  | Num n =>
      if flt n (of_Z 0) then
        throw_range [Txt "The value "; Of size; Txt " is invalid for option size"]
      else ret tt
  | _ => throw_type [Txt "size argument must be of type number"]
  end.

Definition allocUnsafe (size : val) : M view :=
  do! assertSize size in
  let! n := toNum size in
  if flt n (of_Z 0) then createBuffer (of_Z 0)
  else let! c := checked n in createBuffer (of_Z (sint32 c)).

(** ** Slices *)

(** [subarray] builds the view through the species constructor, which is
    [Buffer] itself: the result is a Buffer on the same array buffer. *)
Definition slice (this : view) (start end_ : val) : M view :=
  let len := vlen this in
  let! s := toNum start in
  let start := ToInt32 s in
  let! end_ := match end_ with
               | Undefined => ret len
               | _ => let! e := toNum end_ in ret (ToInt32 e)
               end in
  let start := if start <? 0 then (if start + len <? 0 then 0 else start + len)
               else if len <? start then len else start in
  let end_ := if end_ <? 0 then (if end_ + len <? 0 then 0 else end_ + len)
              else if len <? end_ then len else end_ in
  let end_ := if end_ <? start then start else end_ in
  new_view true (vab this) (voff this + start) (end_ - start).

(** ** Writing strings *)

(** [for (i = 0; i < length; ++i)] with its early exits; [n] turns are left. *)
Fixpoint blit_loop (n : nat) (i : Z) (src : list Z) (dst : view) (offset : Z) : M Z :=
  match n with
  | O => ret i
  | S n =>
      if (vlen dst <=? i + offset) || (Z.of_nat (length src) <=? i) then ret i
      else
        do! put dst (i + offset) (of_Z (at_ src i)) in
        blit_loop n (i + 1) src dst offset
  end.

Definition blitBuffer (src : list Z) (dst : view) (offset length : Z) : M Z :=
  blit_loop (Z.to_nat length) 0 src dst offset.

Definition lift {A} (r : outcome exn A) : M A := fun h => (h, r).

Fixpoint hex_loop (n : nat) (i : Z) (buf : view) (string : jsstr) (offset : Z) : M Z :=
  match n with
  | O => ret i
  | S n =>
      match zget string (i * 2) ≫= hexCharValueTable, zget string (i * 2 + 1) ≫= hexCharValueTable with
      | Some a, Some b =>
          do! put buf (offset + i) (of_Z (or32 (shl32 a 4) b)) in
          hex_loop n (i + 1) buf string offset
      | _, _ => ret i
      end
  end.

(** [length] may become the half-integer [strLen / 2]: it is kept doubled. *)
Definition hexWrite (buf : view) (string : jsstr) (offset length : Z) : M Z :=
  let remaining := vlen buf - offset in
  let length := if length =? 0 then remaining
                else if remaining <? length then remaining else length in
  let strLen := Z.of_nat (List.length string) in
  let length2 := if strLen <? 2 * length then strLen else 2 * length in
  hex_loop (Z.to_nat ((length2 + 1) / 2)) 0 buf string offset.

Definition utf8Write (buf : view) (string : jsstr) (offset length : Z) : M Z :=
  let! bs := lift (utf8ToBytes string (Some (vlen buf - offset))) in
  blitBuffer bs buf offset length.

Definition asciiWrite (buf : view) (string : jsstr) (offset length : Z) : M Z :=
  blitBuffer (asciiToBytes string) buf offset length.

Definition base64Write (buf : view) (string : jsstr) (offset length : Z) : M Z :=
  let! bs := lift (base64ToBytes string) in
  blitBuffer bs buf offset length.

Definition ucs2Write (buf : view) (string : jsstr) (offset length : Z) : M Z :=
  blitBuffer (utf16leToBytes string (vlen buf - offset)) buf offset length.

(** [isFinite(v)], which converts its argument. *)
Definition js_isFinite (v : val) : M bool := let! n := toNum v in ret (is_finite n).

(** The argument juggling at the head of [write]: the offset, the length if one
    was given, and the encoding. *)
Definition write_args (this : view) (offset length encoding : val)
  : M (Z * option Z * val) :=
  match offset, length with
  | Undefined, _ => ret (0, Some (vlen this), Str (js "utf8"))
  | Str _, Undefined => ret (0, Some (vlen this), offset)
  | _, _ =>
      let! fin := js_isFinite offset in
      if fin then
        let! offset := toU32 offset in
        let! finl := js_isFinite length in
        if finl then
          let! l := toU32 length in
          ret (offset, Some l, if is_undefined encoding then Str (js "utf8") else encoding)
        else ret (offset, None, length)
      else throw (EError
        [Txt "Buffer.write(string, encoding, offset[, length]) is no longer supported"])
  end.

Definition write (this : view) (string : jsstr) (offset length encoding : val) : M Z :=
  let! args := write_args this offset length encoding in
  let '(offset, length, encoding) := args in
  let remaining := vlen this - offset in
  let length := match length with
                | None => remaining
                | Some l => if remaining <? l then remaining else l
                end in
  if ((0 <? Z.of_nat (List.length string)) && ((length <? 0) || (offset <? 0))) ||
     (vlen this <? offset)
  then throw_range [Txt "Attempt to write outside buffer bounds"]
  else
    let encoding := if truthy encoding then encoding else Str (js "utf8") in
    match switch_encoding encoding with
    | Some Hex => hexWrite this string offset length
    | Some Utf8 => utf8Write this string offset length
    | Some Ascii | Some Latin1 => asciiWrite this string offset length
    | Some Base64 => base64Write this string offset length
    | Some Ucs2 => ucs2Write this string offset length
    | None => throw_type [Txt "Unknown encoding: "; Of encoding]
    end.

(** ** Byte length of a string *)

(** [byteLength(string, encoding)]; [mustMatch] is its undocumented third argument. *)
Definition byteLength (string encoding : val) (mustMatch : bool) : M Z :=
  match string with
  | VView v => ret (vlen v)
  | VTyped size l => ret (size * Z.of_nat (length l))
  | VArrayBuffer a => read (fun h => Z.of_nat (length (ab_bytes h a)))
  | Str s =>
      let len := Z.of_nat (length s) in
      if negb mustMatch && (len =? 0) then ret 0
      else
        match switch_encoding encoding with
        | Some Ascii | Some Latin1 => ret len
        | Some Utf8 => let! bs := lift (utf8ToBytes s None) in ret (Z.of_nat (length bs))
        | Some Ucs2 => ret (len * 2)
        | Some Hex => ret (shr32u len 1)
        | Some Base64 => let! bs := lift (base64ToBytes s) in ret (Z.of_nat (length bs))
        | None =>
            if mustMatch then ret (-1)
            else let! bs := lift (utf8ToBytes s None) in ret (Z.of_nat (length bs))
        end
  | _ => throw_type
      [Txt "The string argument must be one of type string, Buffer, or ArrayBuffer. Received type ";
       Of (Str (typeof string))]
  end.

(** ** [copy] *)

(** ToIntegerOrInfinity clamped to [0, len], the way [subarray] and
    [copyWithin] read a relative index. *)
Definition rel_index (n : num) (len : Z) : Z :=
  match n with
  | S754_infinity true => 0
  | S754_infinity false => len
  | _ =>
      let i := to_integer n in
      if i <? 0 then Z.max 0 (len + i) else Z.min i len
  end.

(** [target.set(this.subarray(start, end), targetStart)] and, when the objects
    are the same, [copyWithin]: both move the bytes as if through a copy. *)
Definition move_bytes (this target : view) (same : bool) (targetStart start end_ : num) : M unit :=
  fun h =>
    let s := rel_index start (vlen this) in
    let e := rel_index end_ (vlen this) in
    let src := take (Z.to_nat (e - s)) (drop (Z.to_nat s) (bytes h this)) in
    if same then
      let t := rel_index targetStart (vlen this) in
      (store h target t (take (Z.to_nat (vlen this - t)) src), Ok tt)
    else
      let t := to_integer targetStart in
      if vlen target <? t + Z.of_nat (length src) then
        (h, Throw (ERangeError [Txt "source array is too long"]))
      else (store h target t src, Ok tt).

Definition copy (this : view) (target targetStart start end_ : val) : M num :=
  match target with
  | VView tgt =>
      if negb (vbuffer tgt) then throw_type [Txt "argument should be a Buffer"]
      else
        let tlen := Num (of_Z (vlen tgt)) in
        let len := Num (of_Z (vlen this)) in
        let zero := Num (of_Z 0) in
        let start := if truthy start then start else zero in
        let end_ := if negb (truthy end_) && negb (strict_eq end_ zero) then len else end_ in
        let targetStart := if js_le tlen targetStart then tlen else targetStart in
        let targetStart := if truthy targetStart then targetStart else zero in
        let end_ := if js_lt zero end_ && js_lt end_ start then start else end_ in
        if strict_eq end_ start then ret (of_Z 0)
        else if (vlen tgt =? 0) || (vlen this =? 0) then ret (of_Z 0)
        else if js_lt targetStart zero then throw_range [Txt "targetStart out of bounds"]
        else if js_lt start zero || js_le len start then throw_range [Txt "Index out of range"]
        else if js_lt end_ zero then throw_range [Txt "sourceEnd out of bounds"]
        else
          let end_ := if js_lt len end_ then len else end_ in
          let! s := toNum start in
          let! e := toNum end_ in
          let! t := toNum targetStart in
          let room := fsub (of_Z (vlen tgt)) t in
          let e := if flt room (fsub e s) then fadd room s else e in
          let n := fsub e s in
          do! move_bytes this tgt (Nat.eqb (vid this) (vid tgt)) t s e in
          ret n
  | _ => throw_type [Txt "argument should be a Buffer"]
  end.

(** ** [from] *)

(** [buf[i] = array[i] & 255] over the elements of an array-like. *)
Fixpoint fill_elements (buf : view) (i : Z) (l : list val) : M unit :=
  match l with
  | [] => ret tt
  | v :: l' =>
      let! n := toNum v in
      do! put buf i (of_Z (and32 (ToInt32 n) 255)) in
      fill_elements buf (i + 1) l'
  end.

(** The property [k] of an object. *)
Definition prop (props : list (jsstr * val)) (k : string) : val :=
  match List.find (fun p => str_eqb (fst p) (js k)) props with
  | Some (_, v) => v
  | None => Undefined
  end.

(** The decimal text of an index, its property name. *)
Fixpoint dec_digits (fuel : nat) (z : Z) (acc : jsstr) : jsstr :=
  match fuel with
  | O => acc
  | S f => let acc := (48 + z mod 10) :: acc in if z <? 10 then acc else dec_digits f (z / 10) acc
  end.
Definition index_name (i : Z) : jsstr := dec_digits 12 i [].

Definition elem (props : list (jsstr * val)) (i : Z) : val :=
  match List.find (fun p => str_eqb (fst p) (index_name i)) props with
  | Some (_, v) => v
  | None => Undefined
  end.

(** [array.length] and the elements below a length, for the array-likes. *)
Definition length_of (v : val) : val :=
  match v with
  | VArray l => Num (of_Z (Z.of_nat (length l)))
  | VTyped _ l => Num (of_Z (Z.of_nat (length l)))
  | VObj props _ _ => prop props "length"
  | _ => Undefined
  end.
Definition elements_of (v : val) (n : Z) : list val :=
  match v with
  | VArray l => take (Z.to_nat n) l
  | VTyped _ l => take (Z.to_nat n) (map Num l)
  | VObj props _ _ => map (elem props) (indices 0 n 1)
  | _ => []
  end.

Definition fromArrayLike (array : val) : M view :=
  let! length :=
    if js_lt (length_of array) (Num (of_Z 0)) then ret 0
    else let! n := toNum (length_of array) in let! c := checked n in ret (sint32 c) in
  let! buf := createBuffer (of_Z length) in
  do! fill_elements buf 0 (elements_of array length) in
  ret buf.

(** [new Uint8Array(array, byteOffset, length)]: a view that shares the array
    buffer, or, when [array] is an ordinary object, a copy of its elements.
    ToIndex rejects a negative length; an array buffer of the runtime, a 32-bit
    program, holds at most 2^31 - 1 bytes. *)
Definition new_uint8array (array : val) (byteOffset : num) (length : val) : M view :=
  match array with
  | VArrayBuffer a =>
      let! byteLength := read (fun h => Z.of_nat (List.length (ab_bytes h a))) in
      let off := to_integer byteOffset in
      match length with
      | Undefined =>
          if byteLength <? off then throw_range [Txt "invalid or out-of-range index"]
          else new_view true a off (byteLength - off)
      | _ =>
          let! l := toNum length in
          let n := to_integer l in
          if (n <? 0) || (byteLength <? off + n) then
            throw_range [Txt "invalid or out-of-range index"]
          else new_view true a off n
      end
  | _ =>
      let n := Z.max 0 (to_integer (num_of (length_of array))) in
      if K_MAX_LENGTH <? n then throw_range [Txt "invalid or out-of-range index"]
      else
      let! buf := new_buffer true (replicate (Z.to_nat n) 0) in
      do! fill_elements buf 0 (elements_of array n) in
      ret buf
  end.

Definition fromArrayBuffer (array byteOffset length : val) : M view :=
  let! bl := match array with
             | VArrayBuffer a => read (fun h => Num (of_Z (Z.of_nat (List.length (ab_bytes h a)))))
             | VObj props _ _ => ret (prop props "byteLength")
             | _ => ret Undefined
             end in
  if js_lt byteOffset (Num (of_Z 0)) || js_lt bl byteOffset then
    throw_range [Txt "offset is outside of buffer bounds"]
  else
    let! o := toNum byteOffset in
    let! l := if truthy length then toNum length else ret (of_Z 0) in
    if js_lt bl (Num (fadd o l)) then
      throw_range [Txt "length is outside of buffer bounds"]
    else new_uint8array array o length.

Definition fromArrayView (arrayView : val) : M view :=
  match arrayView with
  | VView v =>
      let! l := read (fun h => bytes h v) in
      let! copy := new_buffer false l in
      fromArrayBuffer (VArrayBuffer (vab copy)) (Num (of_Z (voff copy))) (Num (of_Z (vlen copy)))
  | _ => fromArrayLike arrayView
  end.

Definition fromString (string : jsstr) (encoding : val) : M view :=
  let encoding := match encoding with
                  | Str (_ :: _) => encoding
                  | _ => Str (js "utf8")
                  end in
  if negb (isEncoding encoding) then throw_type [Txt "Unknown encoding: "; Of encoding]
  else
    let! length := byteLength (Str string) encoding false in
    let length := sint32 length in
    let! buf := createBuffer (of_Z length) in
    let! actual := write buf string encoding Undefined Undefined in
    if actual =? length then ret buf
    else slice buf (Num (of_Z 0)) (Num (of_Z actual)).

(** [fromObject]: [None] when the object is not array-like. *)
Definition fromObject (obj : val) : M (option view) :=
  if isBuffer obj then
    match obj with
    | VView v =>
        let! len := checked (of_Z (vlen v)) in
        let! buf := createBuffer (of_Z (sint32 len)) in
        if vlen buf =? 0 then ret (Some buf)
        else
          do! copy v (VView buf) (Num (of_Z 0)) (Num (of_Z 0)) (Num (of_Z (sint32 len))) in
          ret (Some buf)
    | _ => ret None
    end
  else
    match length_of obj with
    | Undefined =>
        match obj with
        | VObj props _ _ =>
            match prop props "type", prop props "data" with
            | Str t, VArray l =>
                if str_eqb t (js "Buffer") then let! b := fromArrayLike (VArray l) in ret (Some b)
                else ret None
            | _, _ => ret None
            end
        | _ => ret None
        end
    | Num n =>
        if is_nan n then let! b := createBuffer (of_Z 0) in ret (Some b)
        else let! b := fromArrayLike obj in ret (Some b)
    | _ => let! b := createBuffer (of_Z 0) in ret (Some b)
    end.

Definition from_type_error (value : val) : list part :=
  [Txt "The first argument must be one of type string, Buffer, ArrayBuffer, Array, or Array-like Object. Received type ";
   Of (Str (typeof value))].

(** [from]; the recursive calls are on what [valueOf] or [Symbol.toPrimitive]
    returned. *)
Fixpoint from (value encodingOrOffset length : val) : M view :=
  match value with
  | Str s => fromString s encodingOrOffset
  | VView _ | VTyped _ _ => fromArrayView value
  | Undefined | Null => throw_type (from_type_error value)
  | VArrayBuffer _ => fromArrayBuffer value encodingOrOffset length
  | Num _ => throw_type [Txt "The value argument must not be of type number. Received type number"]
  | VObj props valueOf toPrimitive =>
      match prop props "buffer" with
      | VArrayBuffer _ => fromArrayBuffer value encodingOrOffset length
      | _ =>
          let not_value_of :=
            let! b := fromObject value in
            match b with
            | Some b => ret b
            | None =>
                match toPrimitive with
                | Some p => from p encodingOrOffset length
                | None => throw_type (from_type_error value)
                end
            end in
          match valueOf with
          | Some Undefined | Some Null | None => not_value_of
          | Some v => from v encodingOrOffset length
          end
      end
  | VArray _ =>
      let! b := fromObject value in
      match b with
      | Some b => ret b
      | None => throw_type (from_type_error value)
      end
  | Bool _ | BigInt _ => throw_type (from_type_error value)
  end.

(** [Buffer(arg, encodingOrOffset, length)]. *)
Definition Buffer (arg encodingOrOffset length : val) : M view :=
  match arg with
  | Num _ =>
      if is_string encodingOrOffset then
        throw_type [Txt "The string argument must be of type string. Received type number"]
      else allocUnsafe arg
  | _ => from arg encodingOrOffset length
  end.

(** ** [fill] and [alloc] *)

(** What the string, number and boolean cases at the head of [fill] leave:
    the value, the bounds and the encoding. *)
Definition fill_args (this : view) (v start end_ encoding : val)
  : M (val * val * val * val) :=
  match v with
  | Str s =>
      let '(start, end_, encoding) :=
        match start, end_ with
        | Str _, _ => (Num (of_Z 0), Num (of_Z (vlen this)), start)
        | _, Str _ => (start, Num (of_Z (vlen this)), end_)
        | _, _ => (start, end_, encoding)
        end in
      if negb (is_undefined encoding) && negb (is_string encoding) then
        throw_type [Txt "encoding must be a string"]
      else if is_string encoding && negb (isEncoding encoding) then
        throw_type [Txt "Unknown encoding: "; Of encoding]
      else
        let v := match s with
                 | [code] =>
                     if (strict_eq encoding (Str (js "utf8")) && (code <? 128)) ||
                        strict_eq encoding (Str (js "latin1"))
                     then Num (of_Z code) else v
                 | _ => v
                 end in
        ret (v, start, end_, encoding)
  | Num n => ret (Num (of_Z (and32 (ToInt32 n) 255)), start, end_, encoding)
  | Bool b => ret (Num (of_Z (if b then 1 else 0)), start, end_, encoding)
  | _ => ret (v, start, end_, encoding)
  end.

(** [this[i + start] = bytes[i % len]]: [bytes] is read as the loop goes, it may
    alias [this]. *)
Definition fill_with (this : view) (start end_ : Z) (src : view) : M unit :=
  for_each (indices 0 (end_ - start) 1)
    (fun i => let! b := getn src (i mod vlen src) in put this (i + start) b).

Definition fill (this : view) (v start end_ encoding : val) : M view :=
  let! args := fill_args this v start end_ encoding in
  let '(v, start, end_, encoding) := args in
  let len := Num (of_Z (vlen this)) in
  if js_lt start (Num (of_Z 0)) || js_lt len start || js_lt len end_ then
    throw_range [Txt "Out of range index"]
  else if js_le end_ start then ret this
  else
    let! start := toU32 start in
    let! end_ := match end_ with Undefined => ret (vlen this) | _ => toU32 end_ end in
    let v := if truthy v then v else Num (of_Z 0) in
    match v with
    | Num n => do! for_each (indices start end_ 1) (fun i => put this i n) in ret this
    | _ =>
        let! src := match v with
                    | VView w => if vbuffer w then ret w else from v encoding Undefined
                    | _ => from v encoding Undefined
                    end in
        if vlen src =? 0 then
          throw_type [Txt "The value "; Of v; Txt " is invalid for argument value"]
        else do! fill_with this start end_ src in ret this
    end.

Definition alloc (size fill_ encoding : val) : M view :=
  do! assertSize size in
  let! n := toNum size in
  if fle n (of_Z 0) then createBuffer n
  else
    let! buf := createBuffer n in
    match fill_ with
    | Undefined => ret buf
    | _ => fill buf fill_ (if is_string encoding then encoding else Undefined) Undefined Undefined
    end.

(** [SlowBuffer(length)]: [+length != length] is true of NaN, and of a value
    whose loose comparison with its Number fails. *)
Definition SlowBuffer (length : val) : M view :=
  let! n := toNum length in
  let differs :=
    match length with
    | Num _ | Bool _ | Str _ => is_nan n
    | _ => true
    end in
  alloc (Num (if differs then of_Z 0 else n)) Undefined Undefined.

Definition h0 : heap := Heap ∅ 0.
Definition run {A} (m : M A) : outcome exn A := snd (m h0).

(** The bytes of the view a computation returns. *)
Definition result_bytes (m : M view) : outcome exn (list Z) :=
  match m h0 with
  | (h, Ok v) => Ok (bytes h v)
  | (_, Throw e) => Throw e
  end.

Example from_hex : result_bytes (from (Str (js "00ffxx12")) (Str (js "HEX")) Undefined) = Ok [0; 255].
Proof. vm_compute. reflexivity. Qed.
Example from_arr : result_bytes (from (VArray [Num (of_Z 1); Num (of_Z (-1)); Str (js "300")]) Undefined Undefined)
  = Ok [1; 255; 44].
Proof. vm_compute. reflexivity. Qed.
Example alloc_fill : result_bytes (alloc (Num (of_Z 5)) (Str (js "ab")) Undefined) = Ok [97; 98; 97; 98; 97].
Proof. vm_compute. reflexivity. Qed.
