(* ===== verification/BufferCoreFacts.v ===== *)
(** What the operations of [BufferCore] do: allocation, slices that share
    memory, writing and copying bytes, [from], [fill]. *)

From Stdlib Require Import SpecFloat String.
From stdpp Require Import base numbers list gmap.
From S2P Require Import Prelude JsNumber JsValue Base64 Encoding EncodingFacts BufferCore.

Local Open Scope Z_scope.
Local Open Scope js_scope.

(** ** Stores that grow

    [extends h h']: [h'] keeps every array buffer of [h], with its contents. *)
Definition extends (h h' : heap) : Prop := mem h ⊆ mem h' /\ (fresh h <= fresh h')%nat.

#[export] Instance extends_refl : Reflexive extends.
Proof. intros h. split; [reflexivity|lia]. Qed.
#[export] Instance extends_trans : Transitive extends.
Proof. intros a b c [H1 H2] [H3 H4]. split; [etransitivity; eassumption|lia]. Qed.

Lemma extends_ab h h' a : extends h h' -> mem h !! a <> None -> ab_bytes h' a = ab_bytes h a.
Proof.
  intros [H _] Ha. unfold ab_bytes. destruct (mem h !! a) as [l|] eqn:E; [|contradiction].
  rewrite (lookup_weaken _ _ _ _ E H). reflexivity.
Qed.

Lemma extends_view h h' v : extends h h' -> view_ok h v -> view_ok h' v /\ bytes h' v = bytes h v.
Proof.
  intros H (H1 & H2 & H3 & H4 & H5). unfold view_ok, bytes. rewrite (extends_ab h h') by assumption.
  split; [|reflexivity]. repeat (split; [assumption|]). destruct (mem h !! vab v) as [l|] eqn:E; [|contradiction].
  destruct H as [H _]. rewrite (lookup_weaken _ _ _ _ E H). discriminate.
Qed.

(** A write to an array buffer the older store does not have keeps that store. *)
Lemma extends_store h h' v i l : extends h h' -> mem h !! vab v = None -> extends h (store h' v i l).
Proof.
  intros [H1 H2] Hn. split; [|exact H2]. unfold store. cbn [mem].
  apply insert_subseteq_r; assumption.
Qed.

Lemma heap_ok_fresh h a : heap_ok h -> (fresh h <= a)%nat -> mem h !! a = None.
Proof.
  intros H Ha. destruct (mem h !! a) as [l|] eqn:E; [|reflexivity]. apply H in E as [_ E]. lia.
Qed.

(** ** Allocation *)

(** The store after [new_buffer], and the new view. *)
Definition grown (h : heap) (l : list Z) : heap := Heap (<[fresh h := l]> (mem h)) (S (S (fresh h))).
Definition fresh_view (h : heap) (isbuf : bool) (n : Z) : view := View (S (fresh h)) isbuf (fresh h) 0 n.

Lemma new_buffer_run isbuf l h :
  new_buffer isbuf l h = (grown h l, Ok (fresh_view h isbuf (Z.of_nat (length l)))).
Proof. reflexivity. Qed.

Lemma ab_grown h l : ab_bytes (grown h l) (fresh h) = l.
Proof. unfold ab_bytes, grown. cbn. rewrite lookup_insert_eq. reflexivity. Qed.

Lemma bytes_grown h l isbuf : bytes (grown h l) (fresh_view h isbuf (Z.of_nat (length l))) = l.
Proof. unfold bytes. cbn [vab voff vlen fresh_view]. rewrite ab_grown, Nat2Z.id. apply firstn_all. Qed.

Lemma view_ok_grown h l isbuf :
  Z.of_nat (length l) < 2 ^ 32 -> view_ok (grown h l) (fresh_view h isbuf (Z.of_nat (length l))).
Proof.
  intros Hl. unfold view_ok. cbn [vab voff vlen fresh_view]. rewrite ab_grown. repeat (split; [lia|]).
  unfold grown. cbn. rewrite lookup_insert_eq. discriminate.
Qed.

Lemma extends_grown h l : heap_ok h -> extends h (grown h l).
Proof.
  intros H. split; [|cbn; lia]. cbn. apply insert_subseteq, heap_ok_fresh; [exact H|lia].
Qed.

Lemma heap_ok_grown h l : heap_ok h -> Forall byte l -> heap_ok (grown h l).
Proof.
  intros H Hl a k. cbn [mem fresh grown]. destruct (decide (a = fresh h)) as [->|N].
  - rewrite lookup_insert_eq. intros [= <-]. split; [exact Hl|lia].
  - rewrite lookup_insert_ne by congruence. intros E. apply H in E as [E1 E2]. split; [exact E1|lia].
Qed.

Lemma zeros_bytes n : Forall byte (replicate n 0).
Proof. apply Forall_replicate. unfold byte. lia. Qed.

Lemma createBuffer_run n h :
  0 <= n <= K_MAX_LENGTH ->
  createBuffer (of_Z n) h = (grown h (replicate (Z.to_nat n) 0), Ok (fresh_view h true n)).
Proof.
  unfold K_MAX_LENGTH. intros Hn. unfold createBuffer. change K_MAX_LENGTH with 2147483647.
  rewrite flt_of_Z, to_integer_of_Z by lia. zbool. cbn [orb]. rewrite new_buffer_run.
  rewrite length_replicate, Z2Nat.id by lia. reflexivity.
Qed.

(** A new zero-filled Buffer of [n] bytes: what it is worth to a caller. *)
Record fresh_buffer (h h' : heap) (v : view) (l : list Z) : Prop := {
  fb_heap : heap_ok h';
  fb_view : view_ok h' v;
  fb_buffer : vbuffer v = true;
  fb_bytes : bytes h' v = l;
  fb_extends : extends h h';
  fb_fresh : mem h !! vab v = None;
}.

Lemma fresh_buffer_grown h l :
  heap_ok h -> Forall byte l -> Z.of_nat (length l) < 2 ^ 32 ->
  fresh_buffer h (grown h l) (fresh_view h true (Z.of_nat (length l))) l.
Proof.
  intros H Hl Hn. constructor; [apply heap_ok_grown|apply view_ok_grown|reflexivity|apply bytes_grown
    |apply extends_grown|cbn; apply heap_ok_fresh]; (assumption || lia).
Qed.

Lemma createBuffer_fresh n h :
  heap_ok h -> 0 <= n <= K_MAX_LENGTH ->
  fresh_buffer h (grown h (replicate (Z.to_nat n) 0)) (fresh_view h true n) (replicate (Z.to_nat n) 0).
Proof.
  unfold K_MAX_LENGTH. intros H Hn.
  pose proof (fresh_buffer_grown h (replicate (Z.to_nat n) 0) H (zeros_bytes _)) as F.
  rewrite length_replicate, Z2Nat.id in F by lia. apply F. lia.
Qed.

(** Writing to a fresh Buffer keeps it fresh. *)
Lemma fresh_buffer_store h h' v l i k :
  fresh_buffer h h' v l -> 0 <= i -> i + Z.of_nat (length k) <= vlen v -> Forall byte k ->
  fresh_buffer h (store h' v i k) v (splice i k l).
Proof.
  intros [F1 F2 F3 F4 F5 F6] Hi Hk Hb. constructor; [apply heap_ok_store|apply view_ok_store|exact F3|
    |apply extends_store|]; try assumption.
  rewrite bytes_store, F4 by assumption. reflexivity.
Qed.

(** ** Slices *)

(** How [slice] reads a relative index. *)
Definition clamp (len i : Z) : Z := if i <? 0 then Z.max 0 (i + len) else Z.min i len.
Definition slice_start (len s : Z) : Z := clamp len s.
Definition slice_end (len s e : Z) : Z := Z.max (clamp len s) (clamp len e).

(** The view [slice] makes. *)
Definition slice_view (h : heap) (this : view) (s e : Z) : view :=
  View (fresh h) true (vab this) (voff this + slice_start (vlen this) s)
       (slice_end (vlen this) s e - slice_start (vlen this) s).

Definition bumped (h : heap) : heap := Heap (mem h) (S (fresh h)).

Lemma clamp_code len i : 0 <= len ->
  (if i <? 0 then (if i + len <? 0 then 0 else i + len) else if len <? i then len else i) = clamp len i.
Proof.
  intros. unfold clamp. destruct (Z.ltb_spec i 0).
  - destruct (Z.ltb_spec (i + len) 0); lia.
  - destruct (Z.ltb_spec len i); lia.
Qed.

Lemma max_code a b : (if b <? a then a else b) = Z.max a b.
Proof. destruct (Z.ltb_spec b a); lia. Qed.

Lemma slice_run this s e h :
  0 <= vlen this ->
  - 2 ^ 31 <= s < 2 ^ 31 -> - 2 ^ 31 <= e < 2 ^ 31 ->
  slice this (Num (of_Z s)) (Num (of_Z e)) h = (bumped h, Ok (slice_view h this s e)).
Proof.
  intros Hl Hs He. unfold slice. erewrite bind_ok by reflexivity. cbv zeta.
  erewrite bind_ok by reflexivity. rewrite !ToInt32_of_Z, !sint32_small by lia.
  rewrite !clamp_code, max_code by exact Hl. reflexivity.
Qed.

Lemma slice_default this s h :
  0 <= vlen this < 2 ^ 31 -> - 2 ^ 31 <= s < 2 ^ 31 ->
  slice this (Num (of_Z s)) Undefined h = slice this (Num (of_Z s)) (Num (of_Z (vlen this))) h.
Proof.
  intros Hl Hs. unfold slice. erewrite !(bind_ok (toNum (Num _))) by reflexivity. cbv zeta.
  erewrite (bind_ok (ret _)) by reflexivity. erewrite (bind_ok (bind _ _)) by reflexivity.
  rewrite (ToInt32_of_Z (vlen this)), (sint32_small (vlen this)) by lia. reflexivity.
Qed.

Lemma clamp_range len i : 0 <= len -> 0 <= clamp len i <= len.
Proof. intros. unfold clamp. destruct (Z.ltb_spec i 0); lia. Qed.

Lemma clamp_inside len i : 0 <= i <= len -> clamp len i = i.
Proof. intros. unfold clamp. zbool. lia. Qed.

Lemma bytes_window h v id b o n :
  0 <= voff v -> 0 <= o -> 0 <= n -> o + n <= vlen v ->
  bytes h (View id b (vab v) (voff v + o) n) = sub (bytes h v) o (o + n).
Proof.
  intros. unfold bytes, sub. cbn [vab voff vlen].
  rewrite skipn_firstn_comm, drop_drop, firstn_firstn. f_equal; [lia|]. f_equal. lia.
Qed.

Lemma view_ok_window h v id b o n :
  view_ok h v -> 0 <= o -> 0 <= n -> o + n <= vlen v ->
  view_ok h (View id b (vab v) (voff v + o) n).
Proof. intros (H1 & H2 & H3 & H4 & H5) Ho Hn Hb. unfold view_ok. cbn. repeat (split; [lia|]). exact H5. Qed.

Lemma store_window h v id b o n i l :
  store h (View id b (vab v) (voff v + o) n) i l = store h v (o + i) l.
Proof. unfold store. cbn [vab voff]. do 4 f_equal. lia. Qed.

(** ** Writing bytes *)

Lemma put_store h v o l i x :
  view_ok h v -> 0 <= o -> i = o + Z.of_nat (length l) -> i < vlen v ->
  put v i x (store h v o l) = (store h v o (l ++ [ToUint8 x]), Ok tt).
Proof.
  intros (Hv & _) Ho -> Hi. rewrite put_run by lia. f_equal. apply store_app. lia.
Qed.

Lemma take_snoc_at (src : list Z) i :
  (i < length src)%nat -> take (S i) src = take i src ++ [at_ src (Z.of_nat i)].
Proof.
  intros H. destruct (lookup_lt_is_Some_2 src i H) as [x E]. unfold at_. rewrite zget_nat, E.
  apply take_S_r, E.
Qed.

Lemma at_byte_mod src i : Forall byte src -> ToUint8 (of_Z (at_ src i)) = at_ src i.
Proof.
  intros H. pose proof (at_byte src i H) as B. unfold byte in B.
  rewrite ToUint8_of_Z by lia. apply Z.mod_small. lia.
Qed.

(** [blitBuffer] stores the longest prefix that its length, the source and the
    room after the offset allow, and answers how long it is. *)
Lemma blit_loop_run h src dst o n i :
  view_ok h dst -> Forall byte src -> 0 <= o <= vlen dst ->
  (i <= length src)%nat -> o + Z.of_nat i <= vlen dst ->
  let k := Nat.min (i + n) (Nat.min (length src) (Z.to_nat (vlen dst - o))) in
  blit_loop n (Z.of_nat i) src dst o (store h dst o (take i src)) =
    (store h dst o (take k src), Ok (Z.of_nat k)).
Proof.
  intros Hv Hs Ho. revert i. induction n as [|n IH]; intros i Hi Hd; cbv zeta; cbn [blit_loop].
  { replace (Nat.min (i + 0) _) with i by lia. reflexivity. }
  destruct (Z.leb_spec (vlen dst) (Z.of_nat i + o)), (Z.leb_spec (Z.of_nat (length src)) (Z.of_nat i));
    cbn [orb]; try (replace (Nat.min (i + S n) _) with i by lia; reflexivity).
  erewrite bind_ok by (apply put_store; rewrite ?length_take; (assumption || lia)).
  rewrite at_byte_mod, <- take_snoc_at by (assumption || lia).
  replace (Z.of_nat i + 1) with (Z.of_nat (S i)) by lia. rewrite IH by lia. cbv zeta.
  replace (S i + n)%nat with (i + S n)%nat by lia. reflexivity.
Qed.

Lemma blit_run h src dst o len :
  view_ok h dst -> Forall byte src -> 0 <= o <= vlen dst -> 0 <= len ->
  let k := Z.min len (Z.min (Z.of_nat (length src)) (vlen dst - o)) in
  blitBuffer src dst o len h = (store h dst o (take (Z.to_nat k) src), Ok k).
Proof.
  intros Hv Hs Ho Hl. cbv zeta. unfold blitBuffer.
  pose proof (blit_loop_run h src dst o (Z.to_nat len) 0 Hv Hs Ho ltac:(lia) ltac:(lia)) as B.
  cbv zeta in B. rewrite take_0, store_nil in B by exact Hv. change (Z.of_nat 0) with 0 in B. rewrite B.
  set (m := (_ `min` _)%nat). replace (Z.to_nat (Z.min _ _)) with m by lia.
  do 2 f_equal. lia.
Qed.

(** The bytes [hexWrite] reads of a string: pairs of digits up to the first
    character that is not one; an odd last digit is dropped. *)
Fixpoint hex_decode (s : jsstr) : list Z :=
  match s with
  | x :: y :: s' =>
      match hexCharValueTable x, hexCharValueTable y with
      | Some a, Some b => a * 16 + b :: hex_decode s'
      | _, _ => []
      end
  | _ => []
  end.

Lemma hex_value_range c a : hexCharValueTable c = Some a -> 0 <= a < 16.
Proof.
  unfold hexCharValueTable. intros H. repeat case_match; simplify_eq; lia.
Qed.

Lemma hex_decode_bytes s : Forall byte (hex_decode s).
Proof.
  induction (well_founded_ltof _ (@length Z) s) as [s _ IH].
  destruct s as [|x [|y s]]; [constructor|constructor|]. cbn [hex_decode].
  destruct (hexCharValueTable x) as [a|] eqn:Ea; [|constructor].
  destruct (hexCharValueTable y) as [b|] eqn:Eb; [|constructor].
  apply hex_value_range in Ea, Eb. constructor; [unfold byte; lia|]. apply IH. unfold ltof. cbn. lia.
Qed.

Lemma hex_decode_length s : (length (hex_decode s) <= length s / 2)%nat.
Proof.
  induction (well_founded_ltof _ (@length Z) s) as [s _ IH].
  destruct s as [|x [|y s]]; [cbn; lia|cbn; lia|]. cbn [hex_decode].
  destruct (hexCharValueTable x); [|cbn [length]; lia].
  destruct (hexCharValueTable y); [|cbn [length]; lia].
  cbn [length]. replace (S (S (length s))) with (length s + 1 * 2)%nat by lia.
  rewrite Nat.div_add by lia. specialize (IH s ltac:(unfold ltof; cbn; lia)). lia.
Qed.

Lemma hex_byte a b : 0 <= a < 16 -> 0 <= b < 16 -> ToUint8 (of_Z (or32 (shl32 a 4) b)) = a * 16 + b.
Proof.
  intros. rewrite shl32_small by lia. change (2 ^ 4) with 16.
  replace (or32 (a * 16) b) with (a * 16 + b) by (symmetry; apply (or32_disjoint a b 4); lia).
  rewrite ToUint8_of_Z by lia. apply Z.mod_small. lia.
Qed.

Lemma zget_drop {A} (l : list A) i j : zget l (Z.of_nat i + Z.of_nat j) = drop i l !! j.
Proof. rewrite <- Nat2Z.inj_add, zget_nat, lookup_drop. reflexivity. Qed.

Lemma hex_loop_run h buf string o n i acc :
  view_ok h buf -> 0 <= o -> o + Z.of_nat (i + n) <= vlen buf -> length acc = i ->
  let l := acc ++ take n (hex_decode (drop (2 * i) string)) in
  hex_loop n (Z.of_nat i) buf string o (store h buf o acc) = (store h buf o l, Ok (Z.of_nat (length l))).
Proof.
  intros Hv Ho. revert i acc. induction n as [|n IH]; intros i acc Hb Ha; cbv zeta; cbn [hex_loop].
  { rewrite take_0, app_nil_r, Ha. reflexivity. }
  replace (Z.of_nat i * 2) with (Z.of_nat (2 * i) + Z.of_nat 0) by lia.
  replace (Z.of_nat (2 * i) + Z.of_nat 0 + 1) with (Z.of_nat (2 * i) + Z.of_nat 1) by lia.
  rewrite !zget_drop. replace (2 * S i)%nat with (2 * i + 2)%nat in IH by lia.
  assert (Stop : (store h buf o acc, Ok (Z.of_nat i)) =
    (store h buf o (acc ++ []), Ok (E := exn) (Z.of_nat (length (acc ++ []))))).
  { rewrite app_nil_r, Ha. reflexivity. }
  pose proof (IH (S i)) as IHi. replace (2 * S i)%nat with (2 * i + 2)%nat in IHi by lia.
  rewrite <- drop_drop in IHi.
  destruct (drop (2 * i) string) as [|x [|y s]]; cbn [lookup list_lookup mbind option_bind].
  - exact Stop.
  - destruct (hexCharValueTable x); exact Stop.
  - destruct (hexCharValueTable x) as [a|] eqn:Ea; [|cbn [hex_decode]; rewrite Ea; exact Stop].
    destruct (hexCharValueTable y) as [b|] eqn:Eb; [|cbn [hex_decode]; rewrite Ea, Eb; exact Stop].
    apply hex_value_range in Ea as Ra. apply hex_value_range in Eb as Rb.
    erewrite bind_ok by (apply put_store; (assumption || lia)). rewrite hex_byte by assumption.
    replace (Z.of_nat i + 1) with (Z.of_nat (S i)) by lia.
    rewrite IHi by (rewrite ?length_app; cbn [length]; lia). cbv zeta.
    cbn [hex_decode take drop]. rewrite Ea, Eb, <- app_assoc. reflexivity.
Qed.

(** ** Encodings of a string *)

(** The bytes of [s] in the encoding [e]. *)
Definition codec (e : encoding) (s : jsstr) : list Z :=
  match e with
  | Hex => hex_decode s
  | Utf8 => concat (map utf8_enc (scalars (effective s)))
  | Ascii | Latin1 => map (fun c => c mod 256) s
  | Base64 => base64.decode_spec (map base64.char_sextet (base64_chars s))
  | Ucs2 => utf16_bytes s
  end.

(** Those of them that [write] has room for: whole characters in UTF-8, whole
    units in UTF-16. *)
Definition codec_fit (e : encoding) (s : jsstr) (room : Z) : list Z :=
  match e with
  | Utf8 => fit (Some room) (map utf8_enc (scalars (effective s)))
  | Ucs2 => take (Z.to_nat (2 * (room / 2))) (utf16_bytes s)
  | _ => codec e s
  end.

(** The bytes a [write] of at most [len] bytes stores; a hexadecimal write of
    length 0 takes all the room. *)
Definition written (e : encoding) (s : jsstr) (room len : Z) : list Z :=
  let len := match e with Hex => if len =? 0 then room else len | _ => len end in
  take (Z.to_nat (Z.min len room)) (codec_fit e s room).

Lemma decode_spec_bytes ss : Forall base64.six ss -> Forall byte (base64.decode_spec ss).
Proof.
  induction (well_founded_ltof _ (@length Z) ss) as [ss _ IH]. intros H.
  assert (M : forall z, byte (z mod 256)) by (intros; apply Z.mod_pos_bound; lia).
  destruct ss as [|a [|b [|c [|d ss]]]]; cbn [base64.decode_spec]; try constructor;
    repeat match goal with H : Forall _ (_ :: _) |- _ => apply Forall_cons in H as [? H] end;
    unfold base64.six in *.
  - unfold byte. split; [apply Z.div_pos|apply Z.div_lt_upper_bound]; lia.
  - constructor.
  - unfold byte. rewrite Z.div_div by lia. split; [apply Z.div_pos|apply Z.div_lt_upper_bound]; lia.
  - constructor; [apply M|constructor].
  - unfold byte. split; [apply Z.div_pos|apply Z.div_lt_upper_bound]; lia.
  - constructor; [apply M|]. constructor; [apply M|]. apply IH; [unfold ltof; cbn; lia|exact H].
Qed.

Lemma utf8_enc_bytes cp : 0 <= cp < 1114112 -> Forall byte (utf8_enc cp).
Proof.
  intros H. assert (M : forall z, 0 <= z mod 64 < 64) by (intros; apply Z.mod_pos_bound; lia).
  assert (B : forall z, byte (128 + z mod 64)) by (intros z; unfold byte; specialize (M z); lia).
  unfold utf8_enc. destruct (Z.ltb_spec cp 128); [|destruct (Z.ltb_spec cp 2048);
    [|destruct (Z.ltb_spec cp 65536)]]; repeat constructor; try apply B; unfold byte.
  - lia.
  - lia.
  - assert (0 <= cp / 64 < 32) by (split; [apply Z.div_pos|apply Z.div_lt_upper_bound]; lia). lia.
  - assert (0 <= cp / 64 < 32) by (split; [apply Z.div_pos|apply Z.div_lt_upper_bound]; lia). lia.
  - assert (0 <= cp / 4096 < 16) by (split; [apply Z.div_pos|apply Z.div_lt_upper_bound]; lia). lia.
  - assert (0 <= cp / 4096 < 16) by (split; [apply Z.div_pos|apply Z.div_lt_upper_bound]; lia). lia.
  - assert (0 <= cp / 262144 < 5) by (split; [apply Z.div_pos|apply Z.div_lt_upper_bound]; lia). lia.
  - assert (0 <= cp / 262144 < 5) by (split; [apply Z.div_pos|apply Z.div_lt_upper_bound]; lia). lia.
Qed.

Lemma codec_bytes e s : Forall unit16 s -> Forall byte (codec e s).
Proof.
  intros Hs. destruct e; cbn [codec].
  - apply hex_decode_bytes.
  - apply Forall_concat, Forall_fmap. eapply Forall_impl; [apply scalars_scalar, effective_units, Hs|].
    intros cp [H _]. apply utf8_enc_bytes, H.
  - apply Forall_fmap, Forall_true. intros c. apply Z.mod_pos_bound. lia.
  - apply Forall_fmap, Forall_true. intros c. apply Z.mod_pos_bound. lia.
  - apply decode_spec_bytes, Forall_fmap, Forall_true. intros c. apply base64.char_sextet_range.
  - apply utf16_bytes_byte, Hs.
Qed.

Lemma codec_fit_prefix e s room : codec_fit e s room `prefix_of` codec e s.
Proof.
  destruct e; cbn [codec_fit codec]; try reflexivity; [apply fit_prefix|apply prefix_take].
Qed.

Lemma prefix_Forall {A} (P : A -> Prop) l k : l `prefix_of` k -> Forall P k -> Forall P l.
Proof. intros [x ->] H. apply Forall_app in H as [H _]. exact H. Qed.

Lemma codec_fit_bytes e s room : Forall unit16 s -> Forall byte (codec_fit e s room).
Proof. intros H. eapply prefix_Forall; [apply codec_fit_prefix|apply codec_bytes, H]. Qed.

Lemma asciiToBytes_run s : asciiToBytes s = map (fun c => c mod 256) s.
Proof. apply map_ext. intros c. unfold and32. apply land_255. Qed.


(** ** [write] *)

Section Write.
Context (h : heap) (this : view) (s : jsstr) (o : Z).
Hypothesis Hv : view_ok h this.
Hypothesis Hs : Forall unit16 s.
Hypothesis Ho : 0 <= o <= vlen this.

Lemma take_fit_min (l : list Z) len room :
  0 <= len <= room ->
  take (Z.to_nat (Z.min len (Z.min (Z.of_nat (length l)) room))) l = take (Z.to_nat (Z.min len room)) l /\
  Z.min len (Z.min (Z.of_nat (length l)) room) = Z.of_nat (length (take (Z.to_nat (Z.min len room)) l)).
Proof.
  intros H. rewrite length_take. split; [|lia].
  destruct (Z.le_ge_cases (Z.of_nat (length l)) len).
  - rewrite !take_ge by lia. reflexivity.
  - f_equal. lia.
Qed.

(** The writers that blit. *)
Lemma blit_written l len :
  Forall byte l -> 0 <= len <= vlen this - o ->
  blitBuffer l this o len h =
    (let w := take (Z.to_nat (Z.min len (vlen this - o))) l in
     (store h this o w, Ok (Z.of_nat (length w)))).
Proof.
  intros Hl Hlen. rewrite blit_run by (assumption || lia). cbv zeta.
  destruct (take_fit_min l len (vlen this - o) Hlen) as [E1 E2]. rewrite E1, <- E2. reflexivity.
Qed.

Lemma hex_decode_half l : 2 * Z.of_nat (length (hex_decode l)) <= Z.of_nat (length l).
Proof.
  pose proof (hex_decode_length l). pose proof (Nat.Div0.mul_div_le (length l) 2). lia.
Qed.

Lemma hexWrite_written len : 0 <= len <= vlen this - o ->
  hexWrite this s o len h =
    (let w := written Hex s (vlen this - o) len in (store h this o w, Ok (Z.of_nat (length w)))).
Proof.
  intros Hl. unfold hexWrite, written. cbv zeta. cbn [codec_fit codec].
  set (len' := if len =? 0 then vlen this - o else len).
  replace (if len =? 0 then vlen this - o else if vlen this - o <? len then vlen this - o else len)
    with len' by (unfold len'; destruct (Z.eqb_spec len 0); zbool; lia).
  assert (L : 0 <= len' <= vlen this - o) by (unfold len'; destruct (Z.eqb_spec len 0); lia).
  rewrite Z.min_l by lia. set (n := Z.to_nat _).
  pose proof (hex_decode_half s) as Hh.
  assert (N : Z.of_nat n = Z.min len' ((Z.of_nat (length s) + 1) / 2)).
  { unfold n. destruct (Z.ltb_spec (Z.of_nat (length s)) (2 * len')).
    - rewrite Z2Nat.id by (apply Z.div_pos; lia).
      rewrite Z.min_r; [reflexivity|]. apply Z.lt_succ_r, Z.div_lt_upper_bound; lia.
    - rewrite Z2Nat.id by (apply Z.div_pos; lia).
      replace (2 * len' + 1) with (1 + len' * 2) by lia. rewrite Z.div_add by lia.
      change (1 / 2) with 0. rewrite Z.min_l; [lia|]. apply Z.div_le_lower_bound; lia. }
  assert (T : take n (hex_decode s) = take (Z.to_nat len') (hex_decode s)).
  { assert (Z.of_nat (length (hex_decode s)) <= (Z.of_nat (length s) + 1) / 2)
      by (apply Z.div_le_lower_bound; lia).
    destruct (Z.le_ge_cases len' ((Z.of_nat (length s) + 1) / 2)).
    - f_equal. lia.
    - rewrite !take_ge by lia. reflexivity. }
  pose proof (hex_loop_run h this s o n 0 [] Hv ltac:(lia) ltac:(cbn; lia) eq_refl) as R.
  cbv zeta in R. rewrite store_nil in R by exact Hv. cbn [app] in R.
  change (Z.of_nat 0) with 0 in R. change (2 * 0)%nat with 0%nat in R. rewrite drop_0, T in R. exact R.
Qed.

(** The dispatch at the end of [write]. *)
Lemma write_dispatch e len : 0 <= len <= vlen this - o ->
  match e with
  | Hex => hexWrite this s o len
  | Utf8 => utf8Write this s o len
  | Ascii | Latin1 => asciiWrite this s o len
  | Base64 => base64Write this s o len
  | Ucs2 => ucs2Write this s o len
  end h =
  (let w := written e s (vlen this - o) len in (store h this o w, Ok (Z.of_nat (length w)))).
Proof.
  intros Hl. pose proof (codec_fit_bytes e s (vlen this - o) Hs) as B. destruct e.
  - apply hexWrite_written, Hl.
  - unfold utf8Write. destruct (Z.eq_dec (vlen this - o) 0) as [Z0|Z0].
    + rewrite Z0. unfold lift, bind, utf8ToBytes. cbn [Z.eqb].
      fold (utf8ToBytes s None). rewrite utf8ToBytes_all by exact Hs.
      rewrite blit_written; [|apply (codec_bytes Utf8), Hs|lia].
      unfold written. replace (Z.min len (vlen this - o)) with 0 by lia.
      rewrite Z.min_r by lia. reflexivity.
    + rewrite utf8ToBytes_run by (assumption || lia). unfold lift, bind.
      apply blit_written; [exact B|exact Hl].
  - unfold asciiWrite. rewrite asciiToBytes_run. apply blit_written; [exact B|exact Hl].
  - unfold asciiWrite. rewrite asciiToBytes_run. apply blit_written; [exact B|exact Hl].
  - unfold base64Write. rewrite base64ToBytes_run. apply blit_written; [exact B|exact Hl].
  - unfold ucs2Write. rewrite utf16leToBytes_run by lia. apply blit_written; [exact B|exact Hl].
Qed.
End Write.

Lemma nonempty_name name e : switch_encoding (Str name) = Some e -> truthy (Str name) = true.
Proof. destruct name; [intros H; vm_compute in H; discriminate|reflexivity]. Qed.

Lemma js_isFinite_run z h : Z.abs z <= 2 ^ 53 -> js_isFinite (Num (of_Z z)) h = (h, Ok true).
Proof.
  intros. unfold js_isFinite. erewrite bind_ok by reflexivity. rewrite is_finite_of_Z by assumption.
  reflexivity.
Qed.

Lemma string_write_run h this s o len name e :
  view_ok h this -> Forall unit16 s -> 0 <= o < 2 ^ 32 -> 0 <= len < 2 ^ 32 ->
  switch_encoding (Str name) = Some e ->
  write this s (Num (of_Z o)) (Num (of_Z len)) (Str name) h =
    if vlen this <? o then (h, Throw (ERangeError [Txt "Attempt to write outside buffer bounds"]))
    else let w := written e s (vlen this - o) (Z.min len (vlen this - o)) in
         (store h this o w, Ok (Z.of_nat (length w))).
Proof.
  intros Hv Hs Ho Hl He. unfold write.
  rewrite (bind_ok _ _ h h (o, Some len, Str name)).
  2:{ cbn [write_args]. do 2 (erewrite bind_ok by (apply js_isFinite_run; lia); cbv iota;
        erewrite bind_ok by (apply toU32_run; lia)). reflexivity. }
  cbv zeta iota beta. rewrite (nonempty_name name e He), He.
  destruct (Z.ltb_spec (vlen this) o) as [B|B].
  - rewrite orb_true_r. reflexivity.
  - replace (if vlen this - o <? len then vlen this - o else len) with (Z.min len (vlen this - o))
      by (destruct (Z.ltb_spec (vlen this - o) len); lia).
    rewrite (proj2 (Z.ltb_ge (Z.min _ _) 0)), (proj2 (Z.ltb_ge o 0)) by lia.
    rewrite andb_false_r. cbn [orb]. apply write_dispatch; (assumption || lia).
Qed.

(** ** [from] on strings *)

Lemma encoding_of_lower s e : encoding_of s = Some e -> toLowerCase s = s.
Proof.
  unfold encoding_of, str_eqb.
  repeat match goal with
  | |- context [bool_decide (s = ?k)] =>
      let E := fresh in
      destruct (decide (s = k)) as [E|E];
        [intros _; rewrite E; reflexivity|rewrite (bool_decide_eq_false_2 (s = k)) by exact E]
  end.
  cbn [orb]. discriminate.
Qed.

Lemma switch_isEncoding name e : switch_encoding (Str name) = Some e -> isEncoding (Str name) = true.
Proof.
  unfold switch_encoding, isEncoding. cbn [name_of]. destruct (encoding_of name) eqn:E.
  - intros _. rewrite (encoding_of_lower _ _ E), E. reflexivity.
  - intros ->. reflexivity.
Qed.

(** What [byteLength] answers for a string. *)
Definition byte_length (e : encoding) (s : jsstr) : Z :=
  match e with
  | Hex => Z.of_nat (length s) / 2
  | Ascii | Latin1 => Z.of_nat (length s)
  | Ucs2 => Z.of_nat (length s) * 2
  | _ => Z.of_nat (length (codec e s))
  end.

Lemma utf8_length s : Forall unit16 s -> (length (concat (map utf8_enc (scalars s))) <= 3 * length s)%nat.
Proof.
  assert (L3 : forall cp, cp < 65536 -> (length (utf8_enc cp) <= 3)%nat).
  { intros cp H. unfold utf8_enc. destruct (cp <? 128); [cbn; lia|]. destruct (cp <? 2048); [cbn; lia|].
    zbool. cbn. lia. }
  pose proof utf8_enc_length as L4.
  induction (well_founded_ltof _ (@length Z) s) as [s _ IH]. intros H. destruct s as [|c s]; [cbn; lia|].
  apply Forall_cons in H as [Hc H]. unfold unit16 in Hc.
  pose proof (IH s ltac:(unfold ltof; cbn; lia) H) as IHs.
  cbn [scalars]. destruct (is_lead c).
  - destruct s as [|d s]; [cbn; lia|]. destruct (is_trail d).
    + pose proof (IH s ltac:(unfold ltof; cbn; lia) (Forall_inv_tail H)) as IHd.
      cbn [map concat length]. rewrite length_app. specialize (L4 (pair_value c d)). lia.
    + cbn [map concat length] in *. rewrite length_app. specialize (L3 65533 ltac:(lia)). lia.
  - destruct (is_trail c); cbn [map concat length]; rewrite length_app.
    + specialize (L3 65533 ltac:(lia)). lia.
    + specialize (L3 c ltac:(lia)). lia.
Qed.

Lemma effective_length s : (length (effective s) <= length s)%nat.
Proof.
  induction s as [|a s IH]; [cbn; lia|]. cbn [effective]. destruct s as [|b [|c s]]; cbn [length] in *.
  - cbn in *. lia.
  - destruct (is_lead a && is_lead b); cbn; lia.
  - lia.
Qed.

Lemma decode_spec_short ss : (length (base64.decode_spec ss) <= length ss)%nat.
Proof.
  rewrite (base64.decode_spec_length (length ss / 4) (length ss mod 4));
    [|apply Nat.div_mod_eq|apply Nat.mod_upper_bound; lia].
  pose proof (Nat.div_mod_eq (length ss) 4). lia.
Qed.

Lemma trim_start_length s : (length (trim_start s) <= length s)%nat.
Proof. induction s as [|c s IH]; cbn; [lia|]. destruct (is_space c); cbn; lia. Qed.

Lemma base64_chars_length s : (length (base64_chars s) <= length s)%nat.
Proof.
  unfold base64_chars. etransitivity; [apply length_filter|]. unfold trim. rewrite length_reverse.
  etransitivity; [apply trim_start_length|]. rewrite length_reverse.
  etransitivity; [apply trim_start_length|]. induction s as [|c s IH]; cbn; [lia|].
  destruct (c =? 61); cbn; lia.
Qed.

(** A string the engine can hold never needs more than the largest Buffer. *)
Lemma byte_length_bound e s :
  Forall unit16 s -> Z.of_nat (length s) <= K_STRING_MAX_LENGTH -> 0 <= byte_length e s <= K_MAX_LENGTH.
Proof.
  change K_STRING_MAX_LENGTH with 268435440. change K_MAX_LENGTH with 2147483647. intros Hs Hl.
  destruct e; cbn [byte_length codec]; try lia.
  - split; [apply Z.div_pos; lia|]. apply Z.div_le_upper_bound; lia.
  - pose proof (utf8_length (effective s) (effective_units s Hs)). pose proof (effective_length s). lia.
  - pose proof (decode_spec_short (map base64.char_sextet (base64_chars s))).
    rewrite length_map in H. pose proof (base64_chars_length s). lia.
Qed.

Lemma byteLength_run e s name h :
  Forall unit16 s -> Z.of_nat (length s) <= K_STRING_MAX_LENGTH -> switch_encoding (Str name) = Some e ->
  byteLength (Str s) (Str name) false h = (h, Ok (byte_length e s)).
Proof.
  change K_STRING_MAX_LENGTH with 268435440. intros Hs Hl He. unfold byteLength. cbn [negb andb].
  destruct (Z.eqb_spec (Z.of_nat (length s)) 0) as [E|E].
  - destruct s; [|discriminate]. destruct e; reflexivity.
  - rewrite He. destruct e; try reflexivity.
    + cbn [byte_length]. unfold shr32u, ret. rewrite Z.mod_small by lia. change (1 mod 32) with 1.
      rewrite Z.shiftr_div_pow2 by lia. reflexivity.
    + unfold lift, bind. rewrite utf8ToBytes_all by exact Hs. reflexivity.
    + unfold lift, bind. rewrite base64ToBytes_run. reflexivity.
Qed.

(** A Buffer of the size [byteLength] answers has room for the whole string. *)
Lemma written_all e s :
  Forall unit16 s -> let n := byte_length e s in written e s n n = codec e s.
Proof.
  intros Hs n. subst n. unfold written.
  assert (Short : forall l : list Z, Z.of_nat (length l) <= byte_length e s -> 0 <= byte_length e s ->
    take (Z.to_nat (Z.min (byte_length e s) (byte_length e s))) l = l)
    by (intros; apply take_ge; lia).
  destruct e; cbn [codec_fit codec] in *.
  - destruct (_ =? 0); apply Short; cbn [byte_length]; try (apply Z.div_pos; lia);
      apply Z.div_le_lower_bound; [lia|apply hex_decode_half|lia|apply hex_decode_half].
  - destruct (fit_longest (byte_length Utf8 s) (map utf8_enc (scalars (effective s))) ltac:(cbn; lia))
      as (n & E & _ & Hgt). rewrite E. cbn [byte_length codec] in *.
    rewrite (take_ge (map _ _)).
    + apply take_ge. lia.
    + destruct (Nat.le_gt_cases (length (map utf8_enc (scalars (effective s)))) n) as [L|L]; [exact L|].
      specialize (Hgt L). pose proof (prefix_length _ _ (prefix_take (map utf8_enc (scalars (effective s))) (S n))).
      exfalso. rewrite <- (take_drop (S n) (map utf8_enc (scalars (effective s)))) in Hgt at 1.
      rewrite concat_app, length_app in Hgt. lia.
  - apply Short; cbn [byte_length]; rewrite ?length_map; lia.
  - apply Short; cbn [byte_length]; rewrite ?length_map; lia.
  - apply Short; cbn [byte_length codec]; lia.
  - cbn [byte_length]. rewrite Z.div_mul by lia. rewrite !take_ge; [reflexivity|..];
      rewrite ?length_take, ?length_utf16_bytes; lia.
Qed.

Lemma splice_prefix l bs : (length l <= length bs)%nat -> take (length l) (splice 0 l bs) = l.
Proof. intros. unfold splice. rewrite take_0. cbn [app]. apply take_app_length. Qed.

Lemma splice_full l bs : length l = length bs -> splice 0 l bs = l.
Proof. intros H. unfold splice. rewrite take_0, drop_ge by lia. apply app_nil_r. Qed.

(** Taking the head of a fresh Buffer through [slice]. *)
Lemma fresh_buffer_head h h' v l n :
  fresh_buffer h h' v l -> 0 <= n <= vlen v -> vlen v < 2 ^ 31 ->
  fresh_buffer h (bumped h') (slice_view h' v 0 n) (take (Z.to_nat n) l).
Proof.
  intros [F1 F2 F3 F4 F5 F6] Hn Hl. unfold slice_view, slice_start, slice_end.
  rewrite !clamp_inside by lia. rewrite Z.max_r, Z.sub_0_r by lia. constructor.
  - intros a k E. apply F1 in E as [E1 E2]. split; [exact E1|cbn; lia].
  - apply (view_ok_window (bumped h')); [exact F2|lia..].
  - reflexivity.
  - change (bytes (bumped h')) with (bytes h'). rewrite bytes_window by (destruct F2; lia).
    rewrite F4. unfold sub. rewrite Z.add_0_l, Z.sub_0_r. reflexivity.
  - destruct F5. split; [assumption|cbn; lia].
  - exact F6.
Qed.

Lemma fromString_run h s name e :
  heap_ok h -> Forall unit16 s -> Z.of_nat (length s) <= K_STRING_MAX_LENGTH ->
  switch_encoding (Str name) = Some e ->
  exists h' v, fromString s (Str name) h = (h', Ok v) /\ fresh_buffer h h' v (codec e s).
Proof.
  intros Hh Hs Hl He. pose proof (byte_length_bound e s Hs Hl) as B. set (n := byte_length e s) in *.
  assert (B31 : n < 2 ^ 31) by (unfold K_MAX_LENGTH in B; lia).
  destruct (createBuffer_fresh n h Hh B) as [F1 F2 F3 F4 F5 F6].
  pose proof (createBuffer_fresh n h Hh B) as F.
  set (h1 := grown h (replicate (Z.to_nat n) 0)) in *. set (v := fresh_view h true n) in *.
  pose proof (write_dispatch h1 v s 0 F2 Hs ltac:(cbn; lia) e n ltac:(cbn; lia)) as W.
  cbv zeta in W. change (vlen v) with n in W. rewrite Z.sub_0_r, written_all in W by exact Hs.
  assert (C : (length (codec e s) <= Z.to_nat n)%nat).
  { pose proof (written_all e s Hs) as T. cbv zeta in T. rewrite <- T at 1. unfold written.
    fold n. rewrite length_take. destruct e; lia. }
  pose proof (fresh_buffer_store h h1 v _ 0 (codec e s) F ltac:(lia) ltac:(cbn; lia) (codec_bytes e s Hs)) as F'.
  assert (E : fromString s (Str name) h =
    (if Z.of_nat (length (codec e s)) =? n then (store h1 v 0 (codec e s), Ok v)
     else slice v (Num (of_Z 0)) (Num (of_Z (Z.of_nat (length (codec e s))))) (store h1 v 0 (codec e s)))).
  { unfold fromString. destruct name as [|c name]; [vm_compute in He; discriminate|].
    set (nm := c :: name) in *. rewrite (switch_isEncoding nm e He). cbn [negb].
    rewrite (bind_ok _ _ _ _ _ (byteLength_run e s nm h Hs Hl He)). cbv zeta. fold n.
    rewrite sint32_small by lia.
    erewrite bind_ok by (apply createBuffer_run; exact B). fold v. fold h1.
    erewrite bind_ok.
    2:{ unfold write. erewrite bind_ok by reflexivity. cbv zeta iota beta.
        change (vlen v) with n. rewrite (nonempty_name nm e He), He.
        rewrite Z.sub_0_r. rewrite (proj2 (Z.ltb_irrefl n)) || rewrite Z.ltb_irrefl.
        rewrite (proj2 (Z.ltb_ge n 0)) by lia. change (0 <? 0) with false.
        rewrite andb_false_r. cbn [orb]. exact W. }
    destruct (Z.of_nat (length (codec e s)) =? n); reflexivity. }
  destruct (Z.eqb_spec (Z.of_nat (length (codec e s))) n) as [En|En].
  - exists (store h1 v 0 (codec e s)), v. split; [exact E|].
    rewrite splice_full in F' by (rewrite length_replicate; lia). exact F'.
  - exists (bumped (store h1 v 0 (codec e s))),
      (slice_view (store h1 v 0 (codec e s)) v 0 (Z.of_nat (length (codec e s)))).
    split; [rewrite E; apply slice_run; cbn; lia|].
    pose proof (fresh_buffer_head _ _ _ _ (Z.of_nat (length (codec e s))) F' ltac:(cbn; lia) ltac:(cbn; lia)) as G.
    rewrite Nat2Z.id, splice_prefix in G by (rewrite length_replicate; lia). exact G.
Qed.

(** ** [copy] *)

Lemma rel_index_of_Z z len :
  0 <= z <= 2 ^ 53 -> rel_index (of_Z z) len = Z.min z len.
Proof.
  intros Hz. unfold rel_index. pose proof (to_integer_of_Z z ltac:(lia)) as T.
  destruct (of_Z_shape z ltac:(lia)) as [[_ E]|(_ & sg & m & e & E)]; rewrite E in T |- *; rewrite T; zbool; reflexivity.
Qed.

Lemma store_take_id h v t l n : Z.of_nat (length l) <= n -> store h v t (take (Z.to_nat n) l) = store h v t l.
Proof. intros. rewrite take_ge by lia. reflexivity. Qed.

Lemma move_bytes_run h this tgt t s e :
  (vid this = vid tgt -> this = tgt) -> vlen this < 2 ^ 32 -> vlen tgt < 2 ^ 32 ->
  0 <= s <= e -> e <= vlen this -> 0 <= t -> t + (e - s) <= vlen tgt -> view_ok h this ->
  move_bytes this tgt (Nat.eqb (vid this) (vid tgt)) (of_Z t) (of_Z s) (of_Z e) h =
    (store h tgt t (sub (bytes h this) s e), Ok tt).
Proof.
  intros Hid L1 L2 Hs He Ht Hb Hv. unfold move_bytes. rewrite !rel_index_of_Z, to_integer_of_Z by lia.
  rewrite (Z.min_l s), (Z.min_l e) by lia. fold (sub (bytes h this) s e).
  pose proof (length_sub (bytes h this) s e Hs ltac:(rewrite length_bytes by exact Hv; lia)) as Ls.
  destruct (Nat.eqb_spec (vid this) (vid tgt)) as [E|E].
  - specialize (Hid E) as <-. rewrite Z.min_l, store_take_id by lia. reflexivity.
  - rewrite Ls. zbool. reflexivity.
Qed.

(** How many bytes [copy] moves, and where to, for integer arguments. *)
Definition copy_count (this tgt : view) (t s e : Z) : Z :=
  Z.min (Z.min e (vlen this) - s) (vlen tgt - Z.min t (vlen tgt)).

Lemma truthy_or_zero z : Z.abs z <= 2 ^ 53 ->
  (if truthy (Num (of_Z z)) then Num (of_Z z) else Num (of_Z 0)) = Num (of_Z z).
Proof. intros. rewrite truthy_num by assumption. destruct (Z.eqb_spec z 0) as [->|]; reflexivity. Qed.

Lemma copy_run h this tgt t s e :
  view_ok h this -> view_ok h tgt -> vbuffer tgt = true -> (vid this = vid tgt -> this = tgt) ->
  0 <= t < 2 ^ 32 -> 0 <= s <= e -> e < 2 ^ 32 ->
  copy this (VView tgt) (Num (of_Z t)) (Num (of_Z s)) (Num (of_Z e)) h =
    if (e =? s) || (vlen tgt =? 0) || (vlen this =? 0) then (h, Ok (of_Z 0))
    else if vlen this <=? s then (h, Throw (ERangeError [Txt "Index out of range"]))
    else let n := copy_count this tgt t s e in
         (store h tgt (Z.min t (vlen tgt)) (sub (bytes h this) s (s + n)), Ok (of_Z n)).
Proof.
  intros Hv Ht Hb Hid Ht0 Hs0 He0.
  assert (L1 : 0 <= vlen this < 2 ^ 32) by (destruct Hv as (?&?&?&?&?); lia).
  assert (L2 : 0 <= vlen tgt < 2 ^ 32) by (destruct Ht as (?&?&?&?&?); lia).
  unfold copy. rewrite Hb. cbn [negb].
  rewrite (truthy_or_zero s) by lia.
  replace (if negb (truthy (Num (of_Z e))) && negb (strict_eq (Num (of_Z e)) (Num (of_Z 0)))
           then Num (of_Z (vlen this)) else Num (of_Z e)) with (Num (of_Z e)).
  2:{ rewrite truthy_num, strict_eq_num by lia. destruct (Z.eqb_spec e 0); reflexivity. }
  rewrite js_le_num by lia.
  replace (if vlen tgt <=? t then Num (of_Z (vlen tgt)) else Num (of_Z t))
    with (Num (of_Z (Z.min t (vlen tgt)))) by (destruct (Z.leb_spec (vlen tgt) t); do 2 f_equal; lia).
  set (t' := Z.min t (vlen tgt)). assert (T : 0 <= t' <= vlen tgt) by lia.
  rewrite (truthy_or_zero t') by lia. rewrite !js_lt_num by lia.
  replace ((0 <? e) && (e <? s)) with false by lia.
  rewrite strict_eq_num by lia. destruct (Z.eqb_spec e s) as [Ees|Ees]; [reflexivity|].
  destruct (Z.eqb_spec (vlen tgt) 0) as [Z1|Z1]; [reflexivity|].
  destruct (Z.eqb_spec (vlen this) 0) as [Z2|Z2]; [reflexivity|]. cbn [orb].
  zbool. rewrite js_le_num by lia. cbn [orb].
  destruct (Z.leb_spec (vlen this) s) as [Z3|Z3]; [reflexivity|].
  rewrite !js_lt_num by lia. rewrite (proj2 (Z.ltb_ge e 0)) by lia.
  replace (if vlen this <? e then Num (of_Z (vlen this)) else Num (of_Z e))
    with (Num (of_Z (Z.min e (vlen this)))) by (destruct (Z.ltb_spec (vlen this) e); do 2 f_equal; lia).
  set (e' := Z.min e (vlen this)).
  do 3 (erewrite (bind_ok (toNum _)) by reflexivity).
  rewrite !fsub_of_Z, flt_of_Z by lia.
  replace (if vlen tgt - t' <? e' - s then fadd (of_Z (vlen tgt - t')) (of_Z s) else of_Z e')
    with (of_Z (s + copy_count this tgt t s e)).
  2:{ unfold copy_count. fold t' e'. destruct (Z.ltb_spec (vlen tgt - t') (e' - s)).
      - rewrite fadd_of_Z by lia. f_equal. lia.
      - f_equal. lia. }
  cbv zeta. assert (C : 0 <= copy_count this tgt t s e <= e' - s /\
                        copy_count this tgt t s e <= vlen tgt - t') by (unfold copy_count; lia).
  erewrite bind_ok by (apply move_bytes_run; (assumption || lia)).
  rewrite fsub_of_Z by lia. unfold ret. do 3 f_equal. lia.
Qed.

(** ** [fill] *)

(** [n] bytes of the pattern [p], repeated. *)
Definition cycle (p : list Z) (n : nat) : list Z :=
  map (fun i => at_ p (Z.of_nat i mod Z.of_nat (length p))) (seq 0 n).

Lemma length_cycle p n : length (cycle p n) = n.
Proof. unfold cycle. rewrite length_map, length_seq. reflexivity. Qed.

Lemma cycle_S p n : cycle p (S n) = cycle p n ++ [at_ p (Z.of_nat n mod Z.of_nat (length p))].
Proof. unfold cycle. rewrite seq_S, map_app. reflexivity. Qed.

Lemma cycle_bytes p n : Forall byte p -> Forall byte (cycle p n).
Proof. intros H. apply Forall_fmap, Forall_true. intros i. apply at_byte, H. Qed.

Lemma cycle_single b n : cycle [b] n = replicate n b.
Proof.
  induction n as [|n IH]; [reflexivity|]. rewrite cycle_S, IH, replicate_S_end. cbn [length].
  rewrite Z.mod_1_r. reflexivity.
Qed.

Lemma byte_at_bytes h v i : byte_at h v i = at_ (bytes h v) i.
Proof. reflexivity. Qed.

Lemma fill_num_loop h this x s n :
  view_ok h this -> 0 <= s -> s + Z.of_nat n <= vlen this ->
  for_each (indices s (s + Z.of_nat n) 1) (fun i => put this i x) h =
    (store h this s (replicate n (ToUint8 x)), Ok tt).
Proof.
  intros Hv Hs Hb.
  pose proof (for_each_steps (E := exn) (fun i => put this i x)
    (fun j => store h this s (replicate j (ToUint8 x))) 1 n ltac:(lia) s) as L.
  rewrite Z.mul_1_l in L. cbv beta in L. cbn [replicate] in L. rewrite store_nil in L by exact Hv. apply L.
  intros j Hj. rewrite Z.mul_1_l.
  erewrite put_store by (rewrite ?length_replicate; (assumption || lia)).
  rewrite <- replicate_S_end. reflexivity.
Qed.

Lemma fill_with_run h this src p s n :
  heap_ok h -> view_ok h this -> view_ok h src -> vab src <> vab this -> bytes h src = p -> p <> [] ->
  0 <= s -> s + Z.of_nat n <= vlen this ->
  fill_with this s (s + Z.of_nat n) src h = (store h this s (cycle p n), Ok tt).
Proof.
  intros Hh Hv Hw Hab Hp Hne Hs Hb. unfold fill_with.
  assert (Lp : vlen src = Z.of_nat (length p)) by (rewrite <- Hp; symmetry; apply length_bytes, Hw).
  assert (0 < vlen src) by (rewrite Lp; destruct p; [contradiction|cbn; lia]).
  replace (s + Z.of_nat n - s) with (0 + 1 * Z.of_nat n) by lia.
  match goal with |- for_each _ ?b _ = _ =>
    pose proof (for_each_steps b (fun j => store h this s (cycle p j)) 1 n ltac:(lia) 0) as L end.
  cbv beta in L. change (cycle p 0) with (@nil Z) in L. rewrite store_nil in L by exact Hv. apply L.
  intros j Hj. rewrite Z.mul_1_l, Z.add_0_l.
  pose proof (Z.mod_pos_bound (Z.of_nat j) (vlen src) ltac:(lia)) as B.
  erewrite bind_ok by (apply getn_run; [apply view_ok_store, Hw|exact B]).
  rewrite byte_at_bytes, bytes_store_disjoint, Hp;
    [|exact Hw|destruct Hv as (?&?); lia|left; congruence].
  erewrite put_store by (rewrite ?length_cycle; (assumption || lia)).
  rewrite cycle_S, <- Lp, at_byte_mod; [reflexivity|]. rewrite <- Hp. apply heap_ok_bytes, Hh.
Qed.

Lemma fill_num_run h this z s e enc :
  view_ok h this -> Z.abs z <= 2 ^ 53 -> 0 <= s < 2 ^ 32 -> 0 <= e < 2 ^ 32 ->
  fill this (Num (of_Z z)) (Num (of_Z s)) (Num (of_Z e)) enc h =
    if (vlen this <? s) || (vlen this <? e) then (h, Throw (ERangeError [Txt "Out of range index"]))
    else if e <=? s then (h, Ok this)
    else (store h this s (replicate (Z.to_nat (e - s)) (z mod 256)), Ok this).
Proof.
  intros Hv Hz Hs He. assert (L : 0 <= vlen this < 2 ^ 32) by (destruct Hv as (?&?&?&?&?); lia).
  unfold fill. cbn [fill_args]. erewrite bind_ok by reflexivity. cbv iota beta zeta.
  rewrite !js_lt_num, js_le_num by lia. rewrite (proj2 (Z.ltb_ge s 0)) by lia. cbn [orb].
  destruct ((vlen this <? s) || (vlen this <? e)) eqn:R; [reflexivity|].
  destruct (Z.leb_spec e s); [reflexivity|].
  erewrite bind_ok by (apply toU32_run; lia). erewrite bind_ok by (apply toU32_run; lia).
  assert (M : of_Z (and32 (ToInt32 (of_Z z)) 255) = of_Z (z mod 256)).
  { rewrite ToInt32_of_Z by lia. unfold and32. rewrite land_255. f_equal. apply (sint32_mod z 8). lia. }
  rewrite M. pose proof (Z.mod_pos_bound z 256 ltac:(lia)). rewrite truthy_or_zero by lia. cbv iota.
  replace e with (s + Z.of_nat (Z.to_nat (e - s))) at 1 by lia.
  erewrite bind_ok by (apply fill_num_loop; [exact Hv|lia|lia]).
  rewrite ToUint8_of_Z, Z.mod_mod by lia. reflexivity.
Qed.

(** The strings [fill] replaces by the code of their one character. *)
Definition fill_shortcut (t : jsstr) (name : jsstr) : bool :=
  match t with
  | [code] => (strict_eq (Str name) (Str (js "utf8")) && (code <? 128)) || strict_eq (Str name) (Str (js "latin1"))
  | _ => false
  end.

Section FillString.
Context (h : heap) (this : view) (t name : jsstr) (e : encoding) (s : Z) (n : nat).
Hypotheses (Hh : heap_ok h) (Hv : view_ok h this) (Ht : Forall unit16 t) (He : switch_encoding (Str name) = Some e).
Hypotheses (Hs : 0 <= s) (Hn : (0 < n)%nat) (Hb : s + Z.of_nat n <= vlen this).

Lemma fill_bound : 0 <= vlen this < 2 ^ 32.
Proof. clear Hn Hb. destruct Hv as (?&?&?&?&?). lia. Qed.

(** [fill] up to the test of its pattern. *)
Ltac fill_head :=
  unfold fill; cbn [fill_args]; cbn [is_undefined is_string negb andb];
  rewrite (switch_isEncoding name e He); cbn [negb].
Ltac fill_range :=
  erewrite bind_ok by reflexivity; cbv iota beta zeta;
  rewrite !js_lt_num, js_le_num by lia; zbool; cbn [orb];
  erewrite bind_ok by (apply toU32_run; lia); erewrite bind_ok by (apply toU32_run; lia).

(** The code of a single character is the one byte of its encoding. *)
Lemma shortcut_codec code : unit16 code -> fill_shortcut [code] name = true -> codec e [code] = [code mod 256].
Proof.
  intros Hc Sh. unfold unit16 in Hc. cbn [fill_shortcut strict_eq] in Sh. unfold str_eqb in Sh.
  apply orb_prop in Sh as [Sh|Sh]; [apply andb_prop in Sh as [Sh Sh']|];
    apply bool_decide_eq_true_1 in Sh; rewrite Sh in He; vm_compute in He; injection He as <-; [|reflexivity].
  apply Z.ltb_lt in Sh'. cbn [codec effective scalars]. unfold is_lead, is_trail, utf8_enc. zbool. cbn [andb].
  cbn [map concat app]. zbool. rewrite Z.mod_small by lia. reflexivity.
Qed.

Lemma fill_short_run : fill_shortcut t name = true ->
  fill this (Str t) (Num (of_Z s)) (Num (of_Z (s + Z.of_nat n))) (Str name) h =
    (store h this s (cycle (codec e t) n), Ok this).
Proof.
  pose proof fill_bound. destruct t as [|code [|]]; [discriminate| |discriminate]. intros Sh.
  apply Forall_cons in Ht as [Hc _]. rewrite (shortcut_codec code Hc Sh), cycle_single. unfold unit16 in Hc.
  fill_head. cbn [fill_shortcut] in Sh. rewrite Sh. fill_range. rewrite truthy_or_zero by lia. cbv iota.
  erewrite bind_ok by (apply fill_num_loop; [exact Hv|lia|lia]).
  rewrite ToUint8_of_Z by lia. reflexivity.
Qed.

Lemma fill_long_run : fill_shortcut t name = false -> t <> [] -> Z.of_nat (length t) <= K_STRING_MAX_LENGTH ->
  codec e t <> [] ->
  exists h1, extends h h1 /\ heap_ok h1 /\ view_ok h1 this /\
    fill this (Str t) (Num (of_Z s)) (Num (of_Z (s + Z.of_nat n))) (Str name) h =
      (store h1 this s (cycle (codec e t) n), Ok this).
Proof.
  pose proof fill_bound. intros Sh Hne Hlen Hp.
  destruct (fromString_run h t name e Hh Ht Hlen He) as (h1 & w & Hf & [F1 F2 F3 F4 F5 F6]).
  exists h1. split; [exact F5|]. split; [exact F1|].
  destruct (extends_view h h1 this F5 Hv) as [Hv1 _]. split; [exact Hv1|]. fill_head.
  replace (match t with
           | [code] => if (strict_eq (Str name) (Str (js "utf8")) && (code <? 128)) ||
                          strict_eq (Str name) (Str (js "latin1")) then Num (of_Z code) else Str t
           | _ => Str t end) with (Str t).
  2:{ destruct t as [|code [|]]; try reflexivity. cbn [fill_shortcut] in Sh. rewrite Sh. reflexivity. }
  fill_range. replace (truthy (Str t)) with true by (destruct t; [contradiction|reflexivity]). cbv iota.
  cbn [from]. rewrite (bind_ok _ _ _ _ _ Hf).
  assert (Lw : vlen w = Z.of_nat (length (codec e t))) by (rewrite <- F4; symmetry; apply length_bytes, F2).
  rewrite (proj2 (Z.eqb_neq (vlen w) 0)) by (rewrite Lw; destruct (codec e t); [contradiction|cbn; lia]).
  erewrite bind_ok; [reflexivity|]. apply fill_with_run; try assumption.
  intros E. rewrite E in F6. destruct Hv as (_&_&_&_&Hm). contradiction.
Qed.

(** The pattern a string stands for: the single-character shortcuts included. *)
Lemma fill_string_run : t <> [] -> Z.of_nat (length t) <= K_STRING_MAX_LENGTH -> codec e t <> [] ->
  exists h1, extends h h1 /\ heap_ok h1 /\ view_ok h1 this /\
    fill this (Str t) (Num (of_Z s)) (Num (of_Z (s + Z.of_nat n))) (Str name) h =
      (store h1 this s (cycle (codec e t) n), Ok this).
Proof.
  intros Hne Hlen Hp. destruct (fill_shortcut t name) eqn:Sh; [|apply fill_long_run; assumption].
  exists h. split; [reflexivity|]. split; [exact Hh|]. split; [exact Hv|]. apply fill_short_run, Sh.
Qed.
End FillString.

(** ** [from] on views and arrays *)

(** [Buffer.from] of a byte view is a fresh Buffer with the same bytes. *)
Definition copied (h : heap) (v : view) : heap :=
  Heap (<[fresh h := bytes h v]> (mem h)) (S (S (S (fresh h)))).
Definition copy_view (h : heap) (v : view) : view := View (S (S (fresh h))) true (fresh h) 0 (vlen v).

Lemma from_view_run h v enc len : view_ok h v -> from (VView v) enc len h = (copied h v, Ok (copy_view h v)).
Proof.
  intros Hv. pose proof (length_bytes h v Hv) as L.
  assert (B : 0 <= vlen v < 2 ^ 32) by (destruct Hv as (?&?&?&?&?); lia).
  unfold from, fromArrayView. erewrite bind_ok by reflexivity. rewrite (bind_ok _ _ _ _ _ (new_buffer_run _ _ _)).
  rewrite L. unfold fromArrayBuffer. cbn [vab voff vlen fresh_view].
  erewrite bind_ok by reflexivity. rewrite ab_grown, L. rewrite !js_lt_num by lia. zbool. cbn [orb].
  erewrite bind_ok by reflexivity.
  erewrite (bind_ok (if truthy _ then _ else _) _ _ (grown h (bytes h v)) (of_Z (vlen v))).
  2:{ rewrite truthy_num by lia. destruct (Z.eqb_spec (vlen v) 0) as [->|]; reflexivity. }
  rewrite fadd_of_Z, js_lt_num by lia. rewrite Z.add_0_l. zbool.
  unfold new_uint8array. erewrite bind_ok by reflexivity. rewrite ab_grown, L.
  erewrite bind_ok by reflexivity. rewrite !to_integer_of_Z by lia. zbool. reflexivity.
Qed.

Lemma copied_fresh h v :
  heap_ok h -> view_ok h v -> fresh_buffer h (copied h v) (copy_view h v) (bytes h v).
Proof.
  intros Hh Hv. pose proof (length_bytes h v Hv) as L.
  assert (B : 0 <= vlen v < 2 ^ 32) by (destruct Hv as (?&?&?&?&?); lia).
  destruct (fresh_buffer_grown h (bytes h v) Hh (heap_ok_bytes h v Hh) ltac:(lia)) as [F1 F2 F3 F4 F5 F6].
  rewrite L in F2, F4. constructor.
  - intros a k E. apply F1 in E as [E1 E2]. split; [exact E1|]. cbn in *. lia.
  - exact F2.
  - reflexivity.
  - exact F4.
  - destruct F5 as [G1 G2]. split; [exact G1|cbn; lia].
  - exact F6.
Qed.

(** The bytes of an array of integers. *)
Lemma fill_elements_run h buf zs done :
  view_ok h buf -> Forall (fun z => Z.abs z <= 2 ^ 53) zs ->
  Z.of_nat (length done + length zs) <= vlen buf ->
  fill_elements buf (Z.of_nat (length done)) (map (fun z => Num (of_Z z)) zs) (store h buf 0 done) =
    (store h buf 0 (done ++ map (fun z => z mod 256) zs), Ok tt).
Proof.
  intros Hv Hz. revert done. induction Hz as [|z zs Hz _ IH]; intros done Hl; cbn [map fill_elements].
  { rewrite app_nil_r. reflexivity. }
  cbn [length] in Hl. erewrite (bind_ok (toNum _)) by reflexivity.
  erewrite bind_ok by (apply put_store; (assumption || lia)).
  assert (E : ToUint8 (of_Z (and32 (ToInt32 (of_Z z)) 255)) = z mod 256).
  { rewrite ToInt32_of_Z by lia. unfold and32. rewrite land_255.
    pose proof (Z.mod_pos_bound (sint32 z) 256 ltac:(lia)).
    rewrite ToUint8_of_Z by lia. change (2 ^ 8) with 256. rewrite Z.mod_mod by lia. apply (sint32_mod z 8). lia. }
  rewrite E. specialize (IH (done ++ [z mod 256])). rewrite length_app in IH. cbn [length] in IH.
  replace (Z.of_nat (length done + 1)) with (Z.of_nat (length done) + 1) in IH by lia.
  rewrite IH by lia. rewrite <- app_assoc. reflexivity.
Qed.

Lemma from_array_run h zs enc len :
  heap_ok h -> Forall (fun z => Z.abs z <= 2 ^ 53) zs -> Z.of_nat (length zs) < K_MAX_LENGTH ->
  exists h' v, from (VArray (map (fun z => Num (of_Z z)) zs)) enc len h = (h', Ok v) /\
    fresh_buffer h h' v (map (fun z => z mod 256) zs).
Proof.
  intros Hh Hz Hl. set (n := Z.of_nat (length zs)) in *. change K_MAX_LENGTH with 2147483647 in Hl.
  pose proof (createBuffer_fresh n h Hh ltac:(unfold K_MAX_LENGTH; lia)) as F.
  set (h1 := grown h (replicate (Z.to_nat n) 0)) in *. set (v := fresh_view h true n) in *.
  exists (store h1 v 0 (map (fun z => z mod 256) zs)), v. split.
  - unfold from. cbn [fromObject isBuffer]. unfold fromObject. cbn [isBuffer length_of].
    rewrite length_map. fold n. rewrite is_nan_of_Z by lia. rewrite bind_assoc.
    unfold fromArrayLike. cbn [length_of]. rewrite length_map. fold n. rewrite js_lt_num by lia. zbool.
    rewrite bind_assoc. erewrite bind_ok.
    2:{ erewrite bind_ok by reflexivity. unfold checked. change K_MAX_LENGTH with 2147483647.
        rewrite fle_of_Z by lia. zbool. rewrite ToInt32_of_Z, !sint32_small by (rewrite ?sint32_small; lia).
        erewrite bind_ok by reflexivity. reflexivity. }
    rewrite sint32_small by lia. rewrite bind_assoc.
    erewrite bind_ok by (apply createBuffer_run; unfold K_MAX_LENGTH; lia). fold h1. fold v.
    rewrite bind_assoc. erewrite bind_ok.
    2:{ cbn [elements_of]. rewrite take_ge by (rewrite length_map; lia).
        pose proof (fill_elements_run h1 v zs [] (fb_view _ _ _ _ F) Hz ltac:(cbn; lia)) as L.
        rewrite store_nil in L by apply (fb_view _ _ _ _ F). exact L. }
    reflexivity.
  - pose proof (fresh_buffer_store h h1 v _ 0 (map (fun z => z mod 256) zs) F ltac:(lia)
      ltac:(rewrite length_map; cbn; lia)) as G.
    rewrite splice_full in G by (rewrite length_map, length_replicate; lia). apply G.
    apply Forall_fmap, Forall_true. intros z. apply Z.mod_pos_bound. lia.
Qed.

(** ** Properties *)

(** C27: [slice] copies nothing: the new Buffer lies on the same array buffer,
    its bytes are those between the clamped bounds, negative ones counted from
    the end, and a write through the slice is a write to the parent at the
    shifted index. *)
Theorem slice_shares_memory h this s e :
  view_ok h this -> - 2 ^ 31 <= s < 2 ^ 31 -> - 2 ^ 31 <= e < 2 ^ 31 ->
  exists h' w, slice this (Num (of_Z s)) (Num (of_Z e)) h = (h', Ok w) /\
    mem h' = mem h /\ vbuffer w = true /\ vab w = vab this /\ view_ok h' w /\
    bytes h' w = sub (bytes h this) (slice_start (vlen this) s) (slice_end (vlen this) s e) /\
    forall g i l, store g w i l = store g this (slice_start (vlen this) s + i) l.
Proof.
  intros Hv Hs He. pose proof Hv as (V1 & V2 & _).
  exists (bumped h), (slice_view h this s e). split; [apply slice_run; assumption|].
  unfold slice_view. set (a := slice_start (vlen this) s). set (b := slice_end (vlen this) s e).
  assert (R : 0 <= a <= b /\ b <= vlen this).
  { unfold a, b, slice_start, slice_end. pose proof (clamp_range (vlen this) s V2).
    pose proof (clamp_range (vlen this) e V2). lia. }
  repeat (split; [reflexivity|]). split; [apply (view_ok_window (bumped h)); [exact Hv|lia..]|]. split.
  - change (bytes (bumped h)) with (bytes h). rewrite bytes_window by lia. f_equal. lia.
  - intros g i l. apply store_window.
Qed.

(** C25: [write] at an offset past the end throws RangeError and stores nothing;
    otherwise it stores the string's bytes in the named encoding, as many as
    the length, the room after the offset and, in UTF-8 and UTF-16, whole
    characters allow, leaves every other byte, and answers their number.  In
    hexadecimal a length of 0 is no bound: all the room is written to. Base64 is
    clipped to the length as the others are, whatever the comment in the code says. *)
Theorem write_spec h this s o len name e :
  view_ok h this -> Forall unit16 s -> 0 <= o < 2 ^ 32 -> 0 <= len < 2 ^ 32 ->
  switch_encoding (Str name) = Some e ->
  if vlen this <? o then
    write this s (Num (of_Z o)) (Num (of_Z len)) (Str name) h =
      (h, Throw (ERangeError [Txt "Attempt to write outside buffer bounds"]))
  else exists h',
    let w := written e s (vlen this - o) (Z.min len (vlen this - o)) in
    write this s (Num (of_Z o)) (Num (of_Z len)) (Str name) h = (h', Ok (Z.of_nat (length w))) /\
    bytes h' this = splice o w (bytes h this) /\ Z.of_nat (length w) <= vlen this - o /\
    w `prefix_of` codec e s.
Proof.
  intros Hv Hs Ho Hl He. pose proof (string_write_run h this s o len name e Hv Hs Ho Hl He) as R.
  destruct (Z.ltb_spec (vlen this) o) as [B|B]; [exact R|]. cbv zeta in *.
  set (w := written e s (vlen this - o) (Z.min len (vlen this - o))) in *.
  assert (W : Z.of_nat (length w) <= vlen this - o).
  { unfold w, written. rewrite length_take. lia. }
  exists (store h this o w). split; [exact R|]. split; [apply bytes_store; (assumption || lia)|].
  split; [exact W|]. etransitivity; [apply prefix_take|apply codec_fit_prefix].
Qed.

(** [Buffer.from] of a string makes a Buffer on new memory that holds the
    string's bytes in the named encoding, UTF-8 when none is named. *)
Theorem from_string_spec h s enc name e len :
  heap_ok h -> Forall unit16 s -> Z.of_nat (length s) <= K_STRING_MAX_LENGTH ->
  (enc = Str name /\ switch_encoding enc = Some e \/ enc = Undefined /\ e = Utf8) ->
  exists h' v, from (Str s) enc len h = (h', Ok v) /\ fresh_buffer h h' v (codec e s).
Proof.
  intros Hh Hs Hl [[-> He]|[-> ->]]; cbn [from].
  - apply fromString_run; assumption.
  - destruct (fromString_run h s (js "utf8") Utf8 Hh Hs Hl eq_refl) as (h' & v & E & F).
    exists h', v. split; [exact E|exact F].
Qed.

(** [Buffer.from] of a byte view or of an array of integers makes a Buffer
    on new memory: a copy of the view's bytes, or the integers modulo 256. *)
Theorem from_copies h v zs enc len :
  heap_ok h -> view_ok h v -> Forall (fun z => Z.abs z <= 2 ^ 53) zs -> Z.of_nat (length zs) < K_MAX_LENGTH ->
  (exists h' w, from (VView v) enc len h = (h', Ok w) /\ fresh_buffer h h' w (bytes h v)) /\
  (exists h' w, from (VArray (map (fun z => Num (of_Z z)) zs)) enc len h = (h', Ok w) /\
     fresh_buffer h h' w (map (fun z => z mod 256) zs)).
Proof.
  intros Hh Hv Hz Hl. split; [|apply from_array_run; assumption].
  exists (copied h v), (copy_view h v). split; [apply from_view_run, Hv|apply copied_fresh; assumption].
Qed.

(** C26: [copy] with integer bounds moves the bytes as [memmove] does, also when
    source and target overlap: the target receives the source's bytes as they
    were before the call, clipped to both ends, and the count is returned; a
    start past the end of the source throws. *)
Theorem copy_spec h this tgt t s e :
  view_ok h this -> view_ok h tgt -> vbuffer tgt = true -> (vid this = vid tgt -> this = tgt) ->
  0 <= t < 2 ^ 32 -> 0 <= s < e -> e < 2 ^ 32 -> 0 < vlen tgt -> 0 < vlen this ->
  let n := copy_count this tgt t s e in
  if vlen this <=? s then
    copy this (VView tgt) (Num (of_Z t)) (Num (of_Z s)) (Num (of_Z e)) h =
      (h, Throw (ERangeError [Txt "Index out of range"]))
  else exists h',
    copy this (VView tgt) (Num (of_Z t)) (Num (of_Z s)) (Num (of_Z e)) h = (h', Ok (of_Z n)) /\
    bytes h' tgt = splice (Z.min t (vlen tgt)) (sub (bytes h this) s (s + n)) (bytes h tgt) /\
    0 <= n <= e - s.
Proof.
  intros Hv Ht Hb Hid Ht0 Hs0 He0 Lt Ls n.
  pose proof (copy_run h this tgt t s e Hv Ht Hb Hid Ht0 ltac:(lia) He0) as R.
  replace ((e =? s) || (vlen tgt =? 0) || (vlen this =? 0)) with false in R by lia.
  destruct (Z.leb_spec (vlen this) s) as [B|B]; [exact R|]. cbv zeta in R. fold n in R.
  assert (N : 0 <= n <= e - s /\ n <= vlen tgt - Z.min t (vlen tgt) /\ s + n <= vlen this)
    by (unfold n, copy_count; lia).
  eexists. split; [exact R|]. split; [|lia].
  apply bytes_store; [exact Ht|lia|]. rewrite length_sub; [lia|lia|]. rewrite length_bytes by exact Hv. lia.
Qed.

(** [fill] with a string repeats the string's bytes in the named encoding
    over the range and keeps the rest; with an integer it stores the integer
    modulo 256 over the range; bounds past the end throw. *)
Theorem fill_spec h this t name e z s f :
  heap_ok h -> view_ok h this -> Forall unit16 t -> t <> [] -> codec e t <> [] ->
  Z.of_nat (length t) <= K_STRING_MAX_LENGTH -> switch_encoding (Str name) = Some e ->
  Z.abs z <= 2 ^ 53 -> 0 <= s < f -> f < 2 ^ 32 ->
  if vlen this <? f then
    fill this (Num (of_Z z)) (Num (of_Z s)) (Num (of_Z f)) Undefined h =
      (h, Throw (ERangeError [Txt "Out of range index"]))
  else
    (exists h', fill this (Str t) (Num (of_Z s)) (Num (of_Z f)) (Str name) h = (h', Ok this) /\
       bytes h' this = splice s (cycle (codec e t) (Z.to_nat (f - s))) (bytes h this)) /\
    (exists h', fill this (Num (of_Z z)) (Num (of_Z s)) (Num (of_Z f)) Undefined h = (h', Ok this) /\
       bytes h' this = splice s (replicate (Z.to_nat (f - s)) (z mod 256)) (bytes h this)).
Proof.
  intros Hh Hv Ht Hne Hp Hlen He Hz Hs Hf.
  pose proof (fill_num_run h this z s f Undefined Hv Hz ltac:(lia) ltac:(lia)) as R.
  destruct (Z.ltb_spec (vlen this) f) as [B|B]; rewrite ?orb_true_r in R; [exact R|].
  rewrite (proj2 (Z.ltb_ge (vlen this) s)), (proj2 (Z.leb_gt f s)) in R by lia. cbn [orb] in R. split.
  - destruct (fill_string_run h this t name e s (Z.to_nat (f - s)) Hh Hv Ht He ltac:(lia) ltac:(lia)
      ltac:(lia) Hne Hlen Hp) as (h1 & X1 & X2 & X3 & E).
    replace (s + Z.of_nat (Z.to_nat (f - s))) with f in E by lia.
    eexists. split; [exact E|]. rewrite bytes_store by (rewrite ?length_cycle; (assumption || lia)).
    f_equal. apply (extends_view h h1 this X1 Hv).
  - eexists. split; [exact R|]. apply bytes_store; rewrite ?length_replicate; (assumption || lia).
Qed.

(** [alloc] gives zero-filled new memory; a size that is not a Number
    throws TypeError, a negative or too large one RangeError, and then the
    store is unchanged. *)
Theorem alloc_spec h n size :
  heap_ok h ->
  (0 <= n <= K_MAX_LENGTH -> exists h' v,
     alloc (Num (of_Z n)) Undefined Undefined h = (h', Ok v) /\
     fresh_buffer h h' v (replicate (Z.to_nat n) 0)) /\
  (n < 0 \/ K_MAX_LENGTH < n -> Z.abs n <= 2 ^ 53 ->
     alloc (Num (of_Z n)) Undefined Undefined h =
       (h, Throw (ERangeError [Txt "The value "; Of (Num (of_Z n)); Txt " is invalid for option size"]))) /\
  ((forall x, size <> Num x) ->
     alloc size Undefined Undefined h =
       (h, Throw (ETypeError [Txt "size argument must be of type number"]))).
Proof.
  intros Hh. split; [|split].
  - intros Hn. exists (grown h (replicate (Z.to_nat n) 0)), (fresh_view h true n).
    split; [|apply createBuffer_fresh; assumption]. unfold K_MAX_LENGTH in Hn.
    pose proof (createBuffer_run n h Hn) as R. unfold alloc, assertSize.
    rewrite flt_of_Z by lia. zbool. erewrite bind_ok by reflexivity. erewrite bind_ok by reflexivity.
    destruct (fle (of_Z n) (of_Z 0)); [exact R|]. erewrite bind_ok by exact R. reflexivity.
  - change K_MAX_LENGTH with 2147483647. intros [Hn|Hn] Ha; unfold alloc, assertSize;
      rewrite flt_of_Z by lia; zbool.
    + apply bind_throw. reflexivity.
    + erewrite bind_ok by reflexivity. erewrite bind_ok by reflexivity. rewrite fle_of_Z by lia. zbool.
      apply bind_throw. unfold createBuffer. change K_MAX_LENGTH with 2147483647.
      rewrite flt_of_Z by lia. zbool. reflexivity.
  - intros Hs. unfold alloc, assertSize. destruct size; try (apply bind_throw; reflexivity).
    destruct (Hs n0 eq_refl).
Qed.

(** ** Witnesses *)

Lemma ascii_units s : forallb (fun c => (0 <=? c) && (c <? 65536)) s = true -> Forall unit16 s.
Proof.
  intros H. apply Forall_forall. intros c Hc. rewrite forallb_forall in H.
  specialize (H c ltac:(apply list_elem_of_In, Hc)). unfold unit16. lia.
Qed.

Lemma slice_shares_memory_witness :
  exists h' w, slice sample_view (Num (of_Z (-3))) (Num (of_Z 100)) sample_heap = (h', Ok w) /\
    bytes h' w = [6; 7; 200] /\ bytes (store h' w 0 [0]) sample_view = [1; 2; 3; 4; 5; 0; 7; 200].
Proof.
  destruct (slice_shares_memory sample_heap sample_view (-3) 100 sample_view_ok ltac:(lia) ltac:(lia))
    as (h' & w & E & Hm & _ & _ & _ & B & S).
  exists h', w. split; [exact E|]. split; [exact B|]. rewrite S. unfold bytes, store, ab_bytes.
  cbn [mem]. rewrite Hm. reflexivity.
Defined.

Lemma write_spec_witness :
  exists h', write sample_view [233; 8364] (Num (of_Z 4)) (Num (of_Z 100)) (Str (js "UTF8")) sample_heap =
      (h', Ok 2) /\ bytes h' sample_view = [1; 2; 3; 4; 195; 169; 7; 200].
Proof.
  destruct (write_spec sample_heap sample_view [233; 8364] 4 100 (js "UTF8") Utf8 sample_view_ok
    (ascii_units [233; 8364] eq_refl) ltac:(lia) ltac:(lia) eq_refl) as (h' & E & B & _).
  exists h'. exact (conj E B).
Defined.

Lemma from_string_spec_witness :
  exists h' v, from (Str (js "00ffxx12")) (Str (js "hex")) Undefined sample_heap = (h', Ok v) /\
    bytes h' v = [0; 255].
Proof.
  destruct (from_string_spec sample_heap (js "00ffxx12") (Str (js "hex")) (js "hex") Hex Undefined
    sample_heap_ok (ascii_units (js "00ffxx12") eq_refl) ltac:(vm_compute; congruence) (or_introl (conj eq_refl eq_refl)))
    as (h' & v & E & F).
  exists h', v. exact (conj E (fb_bytes _ _ _ _ F)).
Defined.

Lemma from_copies_witness :
  (exists h' w, from (VView sample_tail) Undefined Undefined sample_heap = (h', Ok w) /\
     fresh_buffer sample_heap h' w [3; 4; 5; 6; 7; 200]) /\
  (exists h' w, from (VArray (map (fun z => Num (of_Z z)) [1; -1; 300])) Undefined Undefined sample_heap = (h', Ok w) /\
     fresh_buffer sample_heap h' w [1; 255; 44]).
Proof.
  exact (from_copies sample_heap sample_tail [1; -1; 300] Undefined Undefined sample_heap_ok sample_tail_ok
    ltac:(repeat constructor; lia) ltac:(vm_compute; congruence)).
Defined.

(** Source and target overlap. *)
Lemma copy_spec_witness :
  exists h', copy sample_view (VView sample_tail) (Num (of_Z 0)) (Num (of_Z 0)) (Num (of_Z 6)) sample_heap =
      (h', Ok (of_Z 6)) /\ bytes h' sample_tail = [1; 2; 3; 4; 5; 6].
Proof.
  destruct (copy_spec sample_heap sample_view sample_tail 0 0 6 sample_view_ok sample_tail_ok eq_refl
    ltac:(intros H; discriminate H) ltac:(lia) ltac:(lia) ltac:(lia) ltac:(cbn; lia) ltac:(cbn; lia))
    as (h' & E & B & _).
  exists h'. exact (conj E B).
Defined.

Lemma fill_spec_witness :
  exists h', fill sample_view (Str (js "ab")) (Num (of_Z 1)) (Num (of_Z 6)) (Str (js "ascii")) sample_heap =
      (h', Ok sample_view) /\ bytes h' sample_view = [1; 97; 98; 97; 98; 97; 7; 200].
Proof.
  destruct (fill_spec sample_heap sample_view (js "ab") (js "ascii") Ascii 0 1 6 sample_heap_ok sample_view_ok
    (ascii_units (js "ab") eq_refl) ltac:(discriminate) ltac:(discriminate) ltac:(vm_compute; congruence) eq_refl
    ltac:(lia) ltac:(lia) ltac:(lia)) as [(h' & E & B) _].
  exists h'. exact (conj E B).
Defined.

Lemma alloc_spec_witness :
  exists h' v, alloc (Num (of_Z 3)) Undefined Undefined sample_heap = (h', Ok v) /\ bytes h' v = [0; 0; 0].
Proof.
  destruct (proj1 (alloc_spec sample_heap 3 Undefined sample_heap_ok) ltac:(vm_compute; split; congruence))
    as (h' & v & E & F).
  exists h', v. exact (conj E (fb_bytes _ _ _ _ F)).
Defined.
