(* ===== verification/Codecs.v ===== *)
(** The text encodings as codecs: what a Buffer relies on when it turns bytes into
    text and back is the interface [TextCodec]; each encoding is an instance. *)

From Stdlib Require Import SpecFloat String.
From stdpp Require Import base numbers list gmap.
From S2P Require Import Prelude JsNumber JsValue Base64 Encoding EncodingFacts BufferCore BufferCoreFacts.

Local Open Scope Z_scope.

(** ** Interface

    [encode] and [decode] are inverse to each other on the byte strings and on the
    texts the encoding represents without loss; decoding always gives code units
    and no text for no bytes. *)
Class TextCodec (encode : jsstr -> list Z) (decode : list Z -> jsstr)
    (whole_bytes : list Z -> Prop) (whole_text : jsstr -> Prop) : Prop := {
  codec_text bs : Forall byte bs -> whole_bytes bs -> encode (decode bs) = bs;
  text_codec s : Forall unit16 s -> whole_text s -> decode (encode s) = s;
  text_units bs : Forall byte bs -> Forall unit16 (decode bs);
  text_nil : decode [] = [] }.

(** ** Hexadecimal *)

Definition hex_text (bs : list Z) : jsstr := List.concat (map hex_pair bs).

Lemma hex_decode_pairs bs : Forall byte bs -> hex_decode (hex_text bs) = bs.
Proof.
  unfold hex_text. induction 1 as [|b bs Hb _ IH]; [reflexivity|]. unfold byte in Hb.
  cbn [map List.concat hex_pair app hex_decode].
  assert (0 <= b / 16 < 16) by (split; [apply Z.div_pos|apply Z.div_lt_upper_bound]; lia).
  pose proof (Z.mod_pos_bound b 16 ltac:(lia)). rewrite !hex_value_digit by lia. rewrite IH.
  f_equal. pose proof (Z.div_mod b 16 ltac:(lia)). lia.
Qed.

#[export] Instance hex_codec :
  TextCodec hex_decode hex_text (fun _ => True) (fun s => exists bs, Forall byte bs /\ s = hex_text bs).
Proof.
  split.
  - intros bs Hb _. apply hex_decode_pairs, Hb.
  - intros s _ (bs & Hb & ->). rewrite hex_decode_pairs by exact Hb. reflexivity.
  - intros bs Hb. unfold hex_text. induction Hb as [|b bs H _ IH]; [constructor|]. cbn [map List.concat].
    apply Forall_app. split; [|exact IH].
    unfold byte in H. assert (0 <= b / 16 < 16) by (split; [apply Z.div_pos|apply Z.div_lt_upper_bound]; lia).
    pose proof (Z.mod_pos_bound b 16 ltac:(lia)). unfold hex_pair, hex_digit, unit16.
    repeat constructor; destruct (_ <? 10); lia.
  - reflexivity.
Qed.

(** ** UTF-8 *)

Definition utf8_encode (s : jsstr) : list Z := List.concat (map utf8_enc (scalars (effective s))).
Definition utf8_decode (bs : list Z) : jsstr := utf8Slice bs 0 (Z.of_nat (length bs)).

(** A well-formed string does not end in a lead surrogate. *)
Lemma well_formed_effective cps :
  Forall scalar_value cps ->
  effective (List.concat (map utf16_enc cps)) = List.concat (map utf16_enc cps).
Proof.
  intros H. apply effective_all. unfold ends_in_two_leads.
  destruct cps as [|cp init _] using rev_ind; [reflexivity|].
  apply Forall_app in H as [_ H]. apply Forall_inv in H. destruct H as [Hr Hs].
  rewrite map_app, List.concat_app, reverse_app. cbn [map List.concat]. rewrite app_nil_r.
  assert (exists u l, reverse (utf16_enc cp) = u :: l /\ is_lead u = false) as (u & l & -> & Hu).
  { unfold utf16_enc. destruct (Z.ltb_spec cp 65536).
    - exists cp, []. split; [reflexivity|]. unfold is_lead. lia.
    - exists (56320 + (cp - 65536) mod 1024), [55296 + (cp - 65536) / 1024]. split; [reflexivity|].
      pose proof (Z.mod_pos_bound (cp - 65536) 1024 ltac:(lia)). unfold is_lead. lia. }
  cbn [app]. rewrite Hu. destruct (l ++ _); reflexivity.
Qed.

#[export] Instance utf8_codec :
  TextCodec utf8_encode utf8_decode
    (fun bs => exists cps, Forall scalar_value cps /\ bs = List.concat (map utf8_enc cps)) (fun s => toWellFormed s = s).
Proof.
  unfold utf8_encode, utf8_decode. split.
  - intros bs Hb (cps & Hc & ->). rewrite utf8Slice_enc, well_formed_effective, scalars_utf16_enc by exact Hc. reflexivity.
  - intros s Hs Hf. pose proof (scalars_scalar s Hs) as Sc. unfold toWellFormed in Hf.
    replace (effective s) with s; [rewrite utf8Slice_enc by exact Sc; exact Hf|].
    rewrite <- Hf at 2. rewrite well_formed_effective by exact Sc. symmetry. exact Hf.
  - intros bs Hb. destruct (utf8Slice_decodes bs Hb) as (out & _ & Hs & ->). apply scalars_units16, Hs.
  - reflexivity.
Qed.

(** ** One byte per character *)

Definition low_bytes (s : jsstr) : list Z := map (fun c => c mod 256) s.

Lemma map_mod_small {m} l : Forall (fun c => 0 <= c < m) l -> map (fun c => c mod m) l = l.
Proof.
  induction 1 as [|c l Hc _ IH]; [reflexivity|]. cbn [map]. rewrite IH, Z.mod_small by exact Hc. reflexivity.
Qed.

Lemma seven_bits l : Forall (fun c => 0 <= c < 128) l -> Forall (fun c => 0 <= c < 256) l.
Proof. intros H. eapply Forall_impl; [exact H|cbv beta; lia]. Qed.

#[export] Instance ascii_codec :
  TextCodec low_bytes (map (fun b => b mod 128)) (Forall (fun b => b < 128)) (Forall (fun c => 0 <= c < 128)).
Proof.
  unfold low_bytes. split.
  - intros bs Hb Hf. assert (H128 : Forall (fun b => 0 <= b < 128) bs).
    { apply Forall_and. split; [eapply Forall_impl; [exact Hb|unfold byte; cbv beta; lia]|exact Hf]. }
    rewrite (map_mod_small (m := 128)) by exact H128. apply map_mod_small, seven_bits, H128.
  - intros s _ Hf. rewrite (map_mod_small (m := 256)) by apply seven_bits, Hf. apply map_mod_small, Hf.
  - intros bs Hb. apply Forall_fmap, Forall_true. intros b. pose proof (Z.mod_pos_bound b 128 ltac:(lia)).
    unfold unit16. cbv beta. unfold compose. lia.
  - reflexivity.
Qed.

#[export] Instance latin1_codec : TextCodec low_bytes (fun bs => bs) (fun _ => True) (Forall byte).
Proof.
  unfold low_bytes. split.
  - intros bs Hb _. apply map_mod_small, Hb.
  - intros s _ Hf. apply map_mod_small, Hf.
  - intros bs Hb. eapply Forall_impl; [exact Hb|]. unfold byte, unit16. cbv beta. lia.
  - reflexivity.
Qed.

(** ** base64 *)

Definition base64_encode (s : jsstr) : list Z := base64.decode_spec (map base64.char_sextet (base64_chars s)).

Lemma codec_base64_text bs : Forall byte bs -> base64_encode (base64.fromByteArray bs) = bs.
Proof.
  intros Hb. pose proof (base64ToBytes_fromByteArray bs Hb) as E. rewrite base64ToBytes_run in E.
  injection E as E. exact E.
Qed.

#[export] Instance base64_codec :
  TextCodec base64_encode base64.fromByteArray (fun _ => True)
    (fun s => exists bs, Forall byte bs /\ s = base64.fromByteArray bs).
Proof.
  split.
  - intros bs Hb _. apply codec_base64_text, Hb.
  - intros s _ (bs & Hb & ->). rewrite codec_base64_text by exact Hb. reflexivity.
  - intros bs Hb. rewrite base64.fromByteArray_run by exact Hb. destruct (base64.encode_shape bs Hb) as (ss & p & -> & Hs & _).
    apply Forall_app. split.
    + eapply Forall_impl; [apply body_clean, Hs|]. intros c [Hc _]. unfold valid_base64_char in Hc.
      unfold unit16. lia.
    + apply Forall_replicate. unfold unit16. lia.
  - reflexivity.
Qed.

(** ** UTF-16 *)

#[export] Instance ucs2_codec :
  TextCodec utf16_bytes utf16_units (fun bs => Z.of_nat (length bs) mod 2 = 0) (fun _ => True).
Proof.
  split.
  - intros bs Hb Hf. apply utf16_bytes_units; assumption.
  - intros s Hs _. apply utf16_units_bytes, Hs.
  - intros bs Hb. apply utf16_units_unit16, Hb.
  - reflexivity.
Qed.

(** ** The encodings a Buffer knows *)

(** The text of bytes in an encoding; [codec] is the other direction. *)
Definition text (e : encoding) (bs : list Z) : jsstr :=
  match e with
  | Hex => hex_text bs
  | Utf8 => utf8_decode bs
  | Ascii => map (fun b => b mod 128) bs
  | Latin1 => bs
  | Base64 => base64.fromByteArray bs
  | Ucs2 => utf16_units bs
  end.

(** Which byte strings an encoding writes without loss, and which strings. *)
Definition faithful_bytes (e : encoding) (bs : list Z) : Prop :=
  match e with
  | Hex | Latin1 | Base64 => True
  | Ascii => Forall (fun b => b < 128) bs
  | Ucs2 => Z.of_nat (length bs) mod 2 = 0
  | Utf8 => exists cps, Forall scalar_value cps /\ bs = List.concat (map utf8_enc cps)
  end.

Definition faithful_text (e : encoding) (s : jsstr) : Prop :=
  match e with
  | Ascii => Forall (fun c => 0 <= c < 128) s
  | Latin1 => Forall byte s
  | Ucs2 => True
  | Utf8 => toWellFormed s = s
  | Hex => exists bs, Forall byte bs /\ s = hex_text bs
  | Base64 => exists bs, Forall byte bs /\ s = base64.fromByteArray bs
  end.

#[export] Instance encoding_codec e : TextCodec (codec e) (text e) (faithful_bytes e) (faithful_text e).
Proof.
  destruct e; [exact hex_codec|exact utf8_codec|exact ascii_codec|exact latin1_codec|exact base64_codec|exact ucs2_codec].
Qed.
