(* ===== verification/BufferInt.v ===== *)
(** [src/builtins/internal_js_modules/node/buffer.js], part 3: the integer
    accessors ([readUIntLE] to [writeBigInt64BE]), their bounds checks and the
    Node-style errors they raise. *)

From Stdlib Require Import SpecFloat String.
From stdpp Require Import base numbers list gmap.
From S2P Require Import Prelude JsNumber JsValue BufferCore.

Local Open Scope Z_scope.
Local Open Scope js_scope.

(** ** Errors *)

(** [addNumericalSeparator(val)]: the loop takes three characters off the end
    while at least four digits are left of them. *)
Fixpoint separate (fuel : nat) (v : jsstr) (i start : Z) (res : jsstr) : jsstr :=
  match fuel with
  | O => take (Z.to_nat i) v ++ res
  | S fuel =>
      if start + 4 <=? i then
        separate fuel v (i - 3) start
          ([95] ++ take 3 (drop (Z.to_nat (i - 3)) v) ++ res)
      else take (Z.to_nat i) v ++ res
  end.

Definition addNumericalSeparator (v : jsstr) : jsstr :=
  let start := match zget v 0 with Some 45 => 1 | _ => 0 end in
  separate (length v) v (Z.of_nat (length v)) start [].

(** The decimal text of an integer ([String] of a BigInt or of a safe integer). *)
Definition int_text (z : Z) : jsstr :=
  let n := Z.abs z in
  let ds := dec_digits (S (Z.to_nat (Z.log2 n))) n [] in
  if z <? 0 then 45 :: ds else ds.

(** [received] of ERR_OUT_OF_RANGE.  The text of a Number past 2^53 is left as
    the Number itself. *)
Definition received (input : val) : part :=
  match input with
  | Num n =>
      let z := to_integer n in
      if feq (of_Z z) n && (2 ^ 32 <? Z.abs z) && (Z.abs z <=? 2 ^ 53)
      then Of (Str (addNumericalSeparator (int_text z)))
      else Of input
  | BigInt z =>
      let t := int_text z in
      let t := if (2 ^ 32 <? z) || (z <? - 2 ^ 32) then addNumericalSeparator t else t in
      Of (Str (t ++ js "n"))
  | _ => Of input
  end.

Definition ERR_OUT_OF_RANGE (str : string) (range : list part) (input : val) : exn :=
  ENodeError "ERR_OUT_OF_RANGE"
    ([Txt "The value of "; Txt str; Txt " is out of range. It must be "] ++ range ++
     [Txt ". Received "; received input]).

(** [E('ERR_INVALID_ARG_TYPE', function (name, actual) ...)]. *)
Definition ERR_INVALID_ARG_TYPE (name : string) (actual : val) : exn :=
  ENodeError "ERR_INVALID_ARG_TYPE"
    [Txt "The "; Txt name; Txt " argument must be of type number. Received type ";
     Of (Str (typeof actual))].

Definition ERR_BUFFER_OUT_OF_BOUNDS (name : option string) : exn :=
  ENodeError "ERR_BUFFER_OUT_OF_BOUNDS"
    match name with
    | Some n => [Txt n; Txt " is outside of buffer bounds"]
    | None => [Txt "Attempt to access memory outside buffer bounds"]
    end.

(** The constructor receives [(name, 'number', value)], so its second parameter
    is the string "number". *)
Definition validateNumber (value : val) (name : string) : M unit :=
  match value with
  | Num _ => ret tt
  | _ => throw (ERR_INVALID_ARG_TYPE name (Str (js "number")))
  end.

(** [Math.floor(value) === value]: the infinities too. *)
Definition is_floor (value : num) : bool :=
  match value with
  | S754_infinity _ => true
  | _ => feq (of_Z (to_integer value)) value
  end.

Definition boundsError {A} (value : num) (length : Z) (type : option string) : M A :=
  let name := match type with Some t => t | None => "offset"%string end in
  if negb (is_floor value) then
    throw (ERR_OUT_OF_RANGE name [Txt "an integer"] (Num value))
  else if length <? 0 then throw (ERR_BUFFER_OUT_OF_BOUNDS None)
  else throw (ERR_OUT_OF_RANGE name
    [Txt (match type with Some _ => ">= 1" | None => ">= 0" end); Txt " and <= ";
     Of (Num (of_Z length))] (Num value)).

(** ** Checks *)

Definition checkOffset (offset ext length : Z) : M unit :=
  if negb (offset mod 1 =? 0) || (offset <? 0) then throw_range [Txt "offset is not uint"]
  else if length <? offset + ext then throw_range [Txt "Trying to access beyond buffer length"]
  else ret tt.

Definition checkInt (buf : view) (value : num) (offset ext : Z) (max min : num) : M unit :=
  if negb (vbuffer buf) then throw_type [Txt "buffer argument must be a Buffer instance"]
  else if flt max value || flt value min then throw_range [Txt "value argument is out of bounds"]
  else if vlen buf <? offset + ext then throw_range [Txt "Index out of range"]
  else ret tt.

(** The element at a Number index, [undefined] unless it is a valid one. *)
Definition has_index (buf : view) (i : num) : bool :=
  let z := to_integer i in feq (of_Z z) i && (0 <=? z) && (z <? vlen buf).

Definition checkBounds (buf : view) (offset : val) (byteLength : Z) : M unit :=
  do! validateNumber offset "offset" in
  let! o := toNum offset in
  if negb (has_index buf o) || negb (has_index buf (fadd o (of_Z byteLength))) then
    boundsError o (vlen buf - (byteLength + 1)) None
  else ret tt.

(** [checkIntBI] is only called with BigInt bounds and [byteLength] 7. *)
Definition checkIntBI (value : val) (min max : Z) (buf : view) (offset : val) (byteLength : Z) : M unit :=
  if js_lt (BigInt max) value || js_lt value (BigInt min) then
    let bits := (byteLength + 1) * 8 in
    let range :=
      if 3 <? byteLength then
        if min =? 0 then [Txt ">= 0n and < 2n ** "; Of (Num (of_Z bits)); Txt "n"]
        else [Txt ">= -(2n ** "; Of (Num (of_Z (bits - 1))); Txt "n) and < 2 ** ";
              Of (Num (of_Z (bits - 1))); Txt "n"]
      else [Txt ">= "; Of (BigInt min); Txt "n and <= "; Of (BigInt max); Txt "n"] in
    throw (ERR_OUT_OF_RANGE "value" range value)
  else checkBounds buf offset byteLength.

Definition assert_offset (noAssert : val) (offset ext : Z) (this : view) : M unit :=
  if truthy noAssert then ret tt else checkOffset offset ext (vlen this).

Definition assert_int (noAssert : val) (this : view) (value : num) (offset ext : Z) (max min : num)
  : M unit :=
  if truthy noAssert then ret tt else checkInt this value offset ext max min.

(** ** Reading integers *)

(** [val += this[offset + i] * mul], with [undefined] read as NaN. *)
Definition accumulate (v : val) (x mul : num) : val := Num (fadd (num_of v) (fmul x mul)).

(** [while (++i < byteLength && (mul *= 0x100))]: [mul] is never zero. *)
Fixpoint read_le_loop (n : nat) (this : view) (offset i : Z) (v : val) (mul : num) : M (val * num) :=
  match n with
  | O => ret (v, mul)
  | S n =>
      let mul := fmul mul (of_Z 256) in
      let! x := getn this (offset + i) in
      read_le_loop n this offset (i + 1) (accumulate v x mul) mul
  end.

(** [while (i > 0 && (mul *= 0x100)) val += this[offset + --i] * mul]. *)
Fixpoint read_be_loop (n : nat) (this : view) (offset : Z) (v : val) (mul : num) : M (val * num) :=
  match n with
  | O => ret (v, mul)
  | S n =>
      let mul := fmul mul (of_Z 256) in
      let! x := getn this (offset + Z.of_nat n) in
      read_be_loop n this offset (accumulate v x mul) mul
  end.

Definition readUIntLE (this : view) (offset byteLength noAssert : val) : M val :=
  let! offset := toU32 offset in
  let! byteLength := toU32 byteLength in
  do! assert_offset noAssert offset byteLength this in
  let! v := get this offset in
  let! r := read_le_loop (Z.to_nat (byteLength - 1)) this offset 1 v (of_Z 1) in
  ret (fst r).

Definition readUIntBE (this : view) (offset byteLength noAssert : val) : M val :=
  let! offset := toU32 offset in
  let! byteLength := toU32 byteLength in
  do! assert_offset noAssert offset byteLength this in
  let byteLength := byteLength - 1 in
  let! v := get this (offset + byteLength) in
  let! r := read_be_loop (Z.to_nat byteLength) this offset v (of_Z 1) in
  ret (fst r).

Definition readUInt8 (this : view) (offset noAssert : val) : M val :=
  let! offset := toU32 offset in
  do! assert_offset noAssert offset 1 this in
  get this offset.

Definition readUInt16LE (this : view) (offset noAssert : val) : M val :=
  let! offset := toU32 offset in
  do! assert_offset noAssert offset 2 this in
  let! a := geti this offset in
  let! b := geti this (offset + 1) in
  ret (Num (of_Z (or32 a (shl32 b 8)))).

Definition readUInt16BE (this : view) (offset noAssert : val) : M val :=
  let! offset := toU32 offset in
  do! assert_offset noAssert offset 2 this in
  let! a := geti this offset in
  let! b := geti this (offset + 1) in
  ret (Num (of_Z (or32 (shl32 a 8) b))).

Definition readUInt32LE (this : view) (offset noAssert : val) : M val :=
  let! offset := toU32 offset in
  do! assert_offset noAssert offset 4 this in
  let! a := geti this offset in
  let! b := geti this (offset + 1) in
  let! c := geti this (offset + 2) in
  let! d := getn this (offset + 3) in
  ret (Num (fadd (of_Z (or32 (or32 a (shl32 b 8)) (shl32 c 16))) (fmul d (of_Z 16777216)))).

Definition readUInt32BE (this : view) (offset noAssert : val) : M val :=
  let! offset := toU32 offset in
  do! assert_offset noAssert offset 4 this in
  let! a := getn this offset in
  let! b := geti this (offset + 1) in
  let! c := geti this (offset + 2) in
  let! d := geti this (offset + 3) in
  ret (Num (fadd (fmul a (of_Z 16777216)) (of_Z (or32 (or32 (shl32 b 16) (shl32 c 8)) d)))).

(** [val -= Math.pow(2, 8 * byteLength)] when the sign bit is set. *)
Definition sign_fix (v : val) (mul : num) (byteLength : Z) : val :=
  let mul := fmul mul (of_Z 128) in
  if js_le (Num mul) v then Num (fsub (num_of v) (dy 1 (8 * byteLength))) else v.

Definition readIntLE (this : view) (offset byteLength noAssert : val) : M val :=
  let! offset := toU32 offset in
  let! byteLength := toU32 byteLength in
  do! assert_offset noAssert offset byteLength this in
  let! v := get this offset in
  let! r := read_le_loop (Z.to_nat (byteLength - 1)) this offset 1 v (of_Z 1) in
  ret (sign_fix (fst r) (snd r) byteLength).

Definition readIntBE (this : view) (offset byteLength noAssert : val) : M val :=
  let! offset := toU32 offset in
  let! byteLength := toU32 byteLength in
  do! assert_offset noAssert offset byteLength this in
  let i := byteLength - 1 in
  let! v := get this (offset + i) in
  let! r := read_be_loop (Z.to_nat i) this offset v (of_Z 1) in
  ret (sign_fix (fst r) (snd r) byteLength).

Definition readInt8 (this : view) (offset noAssert : val) : M val :=
  let! offset := toU32 offset in
  do! assert_offset noAssert offset 1 this in
  let! x := geti this offset in
  if and32 x 128 =? 0 then get this offset
  else
    let! v := getn this offset in
    ret (Num (fmul (fadd (fsub (of_Z 255) v) (of_Z 1)) (of_Z (-1)))).

Definition sign16 (v : Z) : Z := if and32 v 32768 =? 0 then v else or32 v (-65536).

Definition readInt16LE (this : view) (offset noAssert : val) : M val :=
  let! offset := toU32 offset in
  do! assert_offset noAssert offset 2 this in
  let! a := geti this offset in
  let! b := geti this (offset + 1) in
  ret (Num (of_Z (sign16 (or32 a (shl32 b 8))))).

Definition readInt16BE (this : view) (offset noAssert : val) : M val :=
  let! offset := toU32 offset in
  do! assert_offset noAssert offset 2 this in
  let! b := geti this (offset + 1) in
  let! a := geti this offset in
  ret (Num (of_Z (sign16 (or32 b (shl32 a 8))))).

Definition readInt32LE (this : view) (offset noAssert : val) : M val :=
  let! offset := toU32 offset in
  do! assert_offset noAssert offset 4 this in
  let! a := geti this offset in
  let! b := geti this (offset + 1) in
  let! c := geti this (offset + 2) in
  let! d := geti this (offset + 3) in
  ret (Num (of_Z (or32 (or32 (or32 a (shl32 b 8)) (shl32 c 16)) (shl32 d 24)))).

Definition readInt32BE (this : view) (offset noAssert : val) : M val :=
  let! offset := toU32 offset in
  do! assert_offset noAssert offset 4 this in
  let! a := geti this offset in
  let! b := geti this (offset + 1) in
  let! c := geti this (offset + 2) in
  let! d := geti this (offset + 3) in
  ret (Num (of_Z (or32 (or32 (or32 (shl32 a 24) (shl32 b 16)) (shl32 c 8)) d))).

(** ** Reading 64-bit integers *)

(** [BigInt(n)]: an integral Number only. *)
Definition toBigInt (n : num) : M Z :=
  if feq (of_Z (to_integer n)) n then ret (to_integer n)
  else throw_range [Txt "can't be converted to BigInt because it isn't an integer"].

(** The 64-bit readers check the first and the last byte. *)
Definition check_first_last (this : view) (offset : Z) : M unit :=
  do! validateNumber (Num (of_Z offset)) "offset" in
  let! first := get this offset in
  let! last := get this (offset + 7) in
  if is_undefined first || is_undefined last then boundsError (of_Z offset) (vlen this - 8) None
  else ret tt.

(** [a + b * 2 ** 8 + c * 2 ** 16 + d * 2 ** 24] of four elements. *)
Definition word_sum (a b c d : num) : num :=
  fadd (fadd (fadd a (fmul b (of_Z 256))) (fmul c (of_Z 65536))) (fmul d (of_Z 16777216)).
(** The same sum written from the most significant element. *)
Definition word_sum_be (a b c d : num) : num :=
  fadd (fadd (fadd (fmul a (of_Z 16777216)) (fmul b (of_Z 65536))) (fmul c (of_Z 256))) d.

Definition get4 (this : view) (offset : Z) : M (num * num * num * num) :=
  let! a := getn this offset in
  let! b := getn this (offset + 1) in
  let! c := getn this (offset + 2) in
  let! d := getn this (offset + 3) in
  ret (a, b, c, d).

Definition readBigUInt64LE (this : view) (offset : val) : M val :=
  let! offset := toU32 offset in
  do! check_first_last this offset in
  let! l := get4 this offset in
  let! u := get4 this (offset + 4) in
  let '(l0, l1, l2, l3) := l in
  let '(h0, h1, h2, h3) := u in
  let! lo := toBigInt (word_sum l0 l1 l2 l3) in
  let! hi := toBigInt (word_sum h0 h1 h2 h3) in
  ret (BigInt (lo + Z.shiftl hi 32)).

Definition readBigUInt64BE (this : view) (offset : val) : M val :=
  let! offset := toU32 offset in
  do! check_first_last this offset in
  let! u := get4 this offset in
  let! l := get4 this (offset + 4) in
  let '(h0, h1, h2, h3) := u in
  let '(l0, l1, l2, l3) := l in
  let! hi := toBigInt (word_sum_be h0 h1 h2 h3) in
  let! lo := toBigInt (word_sum_be l0 l1 l2 l3) in
  ret (BigInt (Z.shiftl hi 32 + lo)).

Definition readBigInt64LE (this : view) (offset : val) : M val :=
  let! offset := toU32 offset in
  do! check_first_last this offset in
  let! l := get4 this offset in
  let! u := get4 this (offset + 4) in
  let '(l0, l1, l2, l3) := l in
  let '(h0, h1, h2, last) := u in
  (* [last << 24] overflows into the sign *)
  let v := fadd (fadd (fadd h0 (fmul h1 (of_Z 256))) (fmul h2 (of_Z 65536)))
                (of_Z (shl32 (ToInt32 last) 24)) in
  let! hi := toBigInt v in
  let! lo := toBigInt (word_sum l0 l1 l2 l3) in
  ret (BigInt (Z.shiftl hi 32 + lo)).

Definition readBigInt64BE (this : view) (offset : val) : M val :=
  let! offset := toU32 offset in
  do! check_first_last this offset in
  let! u := get4 this offset in
  let! l := get4 this (offset + 4) in
  let '(first, h1, h2, h3) := u in
  let '(l0, l1, l2, l3) := l in
  let v := fadd (fadd (fadd (of_Z (shl32 (ToInt32 first) 24)) (fmul h1 (of_Z 65536)))
                      (fmul h2 (of_Z 256))) h3 in
  let! hi := toBigInt v in
  let! lo := toBigInt (word_sum_be l0 l1 l2 l3) in
  ret (BigInt (Z.shiftl hi 32 + lo)).

(** ** Writing integers

    A writer returns the offset after the bytes it wrote. *)

(** [this[offset + i] = (value / mul) & 0xFF], least significant byte first. *)
Fixpoint write_le_loop (n : nat) (this : view) (value : num) (offset i : Z) (mul : num) : M unit :=
  match n with
  | O => ret tt
  | S n =>
      let mul := fmul mul (of_Z 256) in
      do! put this (offset + i) (of_Z (and32 (ToInt32 (fdiv value mul)) 255)) in
      write_le_loop n this value offset (i + 1) mul
  end.

(** [while (--i >= 0 && (mul *= 0x100))]. *)
Fixpoint write_be_loop (n : nat) (this : view) (value : num) (offset : Z) (mul : num) : M unit :=
  match n with
  | O => ret tt
  | S n =>
      let mul := fmul mul (of_Z 256) in
      do! put this (offset + Z.of_nat n) (of_Z (and32 (ToInt32 (fdiv value mul)) 255)) in
      write_be_loop n this value offset mul
  end.

(** [value & 0xff] and [value >>> k], as the Number stored. *)
Definition low_byte (value : num) : num := of_Z (and32 (ToInt32 value) 255).
Definition shifted (value : num) (k : Z) : num := of_Z (shr32u (ToInt32 value) k).

Definition writeUIntLE (this : view) (value offset byteLength noAssert : val) : M Z :=
  let! value := toNum value in
  let! offset := toU32 offset in
  let! byteLength := toU32 byteLength in
  do! assert_int noAssert this value offset byteLength
        (fsub (dy 1 (8 * byteLength)) (of_Z 1)) (of_Z 0) in
  do! put this offset (low_byte value) in
  do! write_le_loop (Z.to_nat (byteLength - 1)) this value offset 1 (of_Z 1) in
  ret (offset + byteLength).

Definition writeUIntBE (this : view) (value offset byteLength noAssert : val) : M Z :=
  let! value := toNum value in
  let! offset := toU32 offset in
  let! byteLength := toU32 byteLength in
  do! assert_int noAssert this value offset byteLength
        (fsub (dy 1 (8 * byteLength)) (of_Z 1)) (of_Z 0) in
  let i := byteLength - 1 in
  do! put this (offset + i) (low_byte value) in
  do! write_be_loop (Z.to_nat i) this value offset (of_Z 1) in
  ret (offset + byteLength).

Definition writeUInt8 (this : view) (value offset noAssert : val) : M Z :=
  let! value := toNum value in
  let! offset := toU32 offset in
  do! assert_int noAssert this value offset 1 (of_Z 255) (of_Z 0) in
  do! put this offset (low_byte value) in
  ret (offset + 1).

Definition writeUInt16LE (this : view) (value offset noAssert : val) : M Z :=
  let! value := toNum value in
  let! offset := toU32 offset in
  do! assert_int noAssert this value offset 2 (of_Z 65535) (of_Z 0) in
  do! put this offset (low_byte value) in
  do! put this (offset + 1) (shifted value 8) in
  ret (offset + 2).

Definition writeUInt16BE (this : view) (value offset noAssert : val) : M Z :=
  let! value := toNum value in
  let! offset := toU32 offset in
  do! assert_int noAssert this value offset 2 (of_Z 65535) (of_Z 0) in
  do! put this offset (shifted value 8) in
  do! put this (offset + 1) (low_byte value) in
  ret (offset + 2).

Definition writeUInt32LE (this : view) (value offset noAssert : val) : M Z :=
  let! value := toNum value in
  let! offset := toU32 offset in
  do! assert_int noAssert this value offset 4 (of_Z 4294967295) (of_Z 0) in
  do! put this (offset + 3) (shifted value 24) in
  do! put this (offset + 2) (shifted value 16) in
  do! put this (offset + 1) (shifted value 8) in
  do! put this offset (low_byte value) in
  ret (offset + 4).

Definition writeUInt32BE (this : view) (value offset noAssert : val) : M Z :=
  let! value := toNum value in
  let! offset := toU32 offset in
  do! assert_int noAssert this value offset 4 (of_Z 4294967295) (of_Z 0) in
  do! put this offset (shifted value 24) in
  do! put this (offset + 1) (shifted value 16) in
  do! put this (offset + 2) (shifted value 8) in
  do! put this (offset + 3) (low_byte value) in
  ret (offset + 4).

(** [writeIntLE] and [writeIntBE] do not convert [byteLength]: it is taken as
    the whole number it is documented to be.

    [sub] becomes 1 once the byte written before is not zero: the quotient of a
    negative value is then one too high. *)
Fixpoint write_int_le_loop (n : nat) (this : view) (value : num) (offset i : Z) (mul : num) (sub : Z)
  : M unit :=
  match n with
  | O => ret tt
  | S n =>
      let mul := fmul mul (of_Z 256) in
      let! before := get this (offset + i - 1) in
      let sub := if flt value (of_Z 0) && (sub =? 0) && negb (strict_eq before (Num (of_Z 0)))
                 then 1 else sub in
      do! put this (offset + i) (of_Z (and32 (sint32 (ToInt32 (fdiv value mul) - sub)) 255)) in
      write_int_le_loop n this value offset (i + 1) mul sub
  end.

Fixpoint write_int_be_loop (n : nat) (this : view) (value : num) (offset : Z) (mul : num) (sub : Z)
  : M unit :=
  match n with
  | O => ret tt
  | S n =>
      let mul := fmul mul (of_Z 256) in
      let! before := get this (offset + Z.of_nat n + 1) in
      let sub := if flt value (of_Z 0) && (sub =? 0) && negb (strict_eq before (Num (of_Z 0)))
                 then 1 else sub in
      do! put this (offset + Z.of_nat n) (of_Z (and32 (sint32 (ToInt32 (fdiv value mul) - sub)) 255)) in
      write_int_be_loop n this value offset mul sub
  end.

Definition writeIntLE (this : view) (value offset : val) (byteLength : Z) (noAssert : val) : M Z :=
  let! value := toNum value in
  let! offset := toU32 offset in
  let limit := dy 1 (8 * byteLength - 1) in
  do! assert_int noAssert this value offset byteLength (fsub limit (of_Z 1)) (fopp limit) in
  do! put this offset (low_byte value) in
  do! write_int_le_loop (Z.to_nat (byteLength - 1)) this value offset 1 (of_Z 1) 0 in
  ret (offset + byteLength).

Definition writeIntBE (this : view) (value offset : val) (byteLength : Z) (noAssert : val) : M Z :=
  let! value := toNum value in
  let! offset := toU32 offset in
  let limit := dy 1 (8 * byteLength - 1) in
  do! assert_int noAssert this value offset byteLength (fsub limit (of_Z 1)) (fopp limit) in
  let i := byteLength - 1 in
  do! put this (offset + i) (low_byte value) in
  do! write_int_be_loop (Z.to_nat i) this value offset (of_Z 1) 0 in
  ret (offset + byteLength).

(** [if (value < 0) value = m + value + 1]. *)
Definition wrap_negative (value m : num) : num :=
  if flt value (of_Z 0) then fadd (fadd m value) (of_Z 1) else value.

Definition writeInt8 (this : view) (value offset noAssert : val) : M Z :=
  let! value := toNum value in
  let! offset := toU32 offset in
  do! assert_int noAssert this value offset 1 (of_Z 127) (of_Z (-128)) in
  do! put this offset (low_byte (wrap_negative value (of_Z 255))) in
  ret (offset + 1).

Definition writeInt16LE (this : view) (value offset noAssert : val) : M Z :=
  let! value := toNum value in
  let! offset := toU32 offset in
  do! assert_int noAssert this value offset 2 (of_Z 32767) (of_Z (-32768)) in
  do! put this offset (low_byte value) in
  do! put this (offset + 1) (shifted value 8) in
  ret (offset + 2).

Definition writeInt16BE (this : view) (value offset noAssert : val) : M Z :=
  let! value := toNum value in
  let! offset := toU32 offset in
  do! assert_int noAssert this value offset 2 (of_Z 32767) (of_Z (-32768)) in
  do! put this offset (shifted value 8) in
  do! put this (offset + 1) (low_byte value) in
  ret (offset + 2).

Definition writeInt32LE (this : view) (value offset noAssert : val) : M Z :=
  let! value := toNum value in
  let! offset := toU32 offset in
  do! assert_int noAssert this value offset 4 (of_Z 2147483647) (of_Z (-2147483648)) in
  do! put this offset (low_byte value) in
  do! put this (offset + 1) (shifted value 8) in
  do! put this (offset + 2) (shifted value 16) in
  do! put this (offset + 3) (shifted value 24) in
  ret (offset + 4).

Definition writeInt32BE (this : view) (value offset noAssert : val) : M Z :=
  let! value := toNum value in
  let! offset := toU32 offset in
  do! assert_int noAssert this value offset 4 (of_Z 2147483647) (of_Z (-2147483648)) in
  let value := wrap_negative value (of_Z 4294967295) in
  do! put this offset (shifted value 24) in
  do! put this (offset + 1) (shifted value 16) in
  do! put this (offset + 2) (shifted value 8) in
  do! put this (offset + 3) (low_byte value) in
  ret (offset + 4).

(** ** Writing 64-bit integers *)

(** [value & BigInt(0xffffffff)]: mixing a BigInt with another type throws. *)
Definition bigint_operand (v : val) : M Z :=
  match v with
  | BigInt z => ret z
  | _ => throw_type [Txt "can't convert BigInt to number"]
  end.

(** The four stores of one word: [buf[o] = w; w = w >> 8; ...] at [o],
    [o + step], ...  The first store converts the Number, the shifts its int32. *)
Definition put_word (buf : view) (o step w : Z) : M unit :=
  do! put buf o (of_Z w) in
  let w := sar32 (sint32 w) 8 in
  do! put buf (o + step) (of_Z w) in
  let w := sar32 w 8 in
  do! put buf (o + 2 * step) (of_Z w) in
  let w := sar32 w 8 in
  put buf (o + 3 * step) (of_Z w).

Definition wrtBigUInt64LE (buf : view) (value offset : val) (min max : Z) : M Z :=
  do! checkIntBI value min max buf offset 7 in
  let! o := toNum offset in
  let o := to_integer o in
  let! value := bigint_operand value in
  do! put_word buf o 1 (Z.land value 4294967295) in
  do! put_word buf (o + 4) 1 (Z.land (Z.shiftr value 32) 4294967295) in
  ret (o + 8).

Definition wrtBigUInt64BE (buf : view) (value offset : val) (min max : Z) : M Z :=
  do! checkIntBI value min max buf offset 7 in
  let! o := toNum offset in
  let o := to_integer o in
  let! value := bigint_operand value in
  do! put_word buf (o + 7) (-1) (Z.land value 4294967295) in
  do! put_word buf (o + 3) (-1) (Z.land (Z.shiftr value 32) 4294967295) in
  ret (o + 8).

(** [offset = 0] when the argument is missing. *)
Definition default_offset (offset : val) : val :=
  if is_undefined offset then Num (of_Z 0) else offset.

Definition writeBigUInt64LE (this : view) (value offset : val) : M Z :=
  wrtBigUInt64LE this value (default_offset offset) 0 18446744073709551615.

Definition writeBigUInt64BE (this : view) (value offset : val) : M Z :=
  wrtBigUInt64BE this value (default_offset offset) 0 18446744073709551615.

Definition writeBigInt64LE (this : view) (value offset : val) : M Z :=
  wrtBigUInt64LE this value (default_offset offset) (-9223372036854775808) 9223372036854775807.

Definition writeBigInt64BE (this : view) (value offset : val) : M Z :=
  wrtBigUInt64BE this value (default_offset offset) (-9223372036854775808) 9223372036854775807.
