(* ===== verification/BufferIntFacts.v ===== *)
(** The integer accessors of [BufferInt] read and write the two's-complement
    representation of an integer, least or most significant byte first. *)

From Stdlib Require Import SpecFloat String.
From stdpp Require Import base numbers list gmap.
From S2P Require Import Prelude JsNumber JsValue BufferCore BufferInt.

Local Open Scope Z_scope.
Local Open Scope js_scope.

(** ** Specification *)

(** [n] bytes of a view from index [o]. *)
Definition seg (h : heap) (v : view) (o : Z) (n : nat) : list Z :=
  take n (drop (Z.to_nat o) (bytes h v)).

(** The signed reading of an [n]-byte unsigned value. *)
Definition signed (n : nat) (u : Z) : Z :=
  if u <? 2 ^ (8 * Z.of_nat n - 1) then u else u - 2 ^ (8 * Z.of_nat n).

(** The bytes in the order of significance, and a value as bytes in memory order. *)
Definition ordered (big : bool) (l : list Z) : list Z := if big then reverse l else l.
Definition encode (big : bool) (n : nat) (z : Z) : list Z := ordered big (le_split n z).
Definition decode (big sgn : bool) (l : list Z) : Z :=
  let u := le_val (ordered big l) in if sgn then signed (length l) u else u.

(** The integers an [n]-byte accessor holds. *)
Definition in_range (sgn : bool) (n : nat) (z : Z) : Prop :=
  if sgn then - 2 ^ (8 * Z.of_nat n - 1) <= z < 2 ^ (8 * Z.of_nat n - 1)
  else 0 <= z < 2 ^ (8 * Z.of_nat n).

(** [offset >>> 0] of an argument, whatever the store. *)
Definition offset_is (v : val) (o : Z) : Prop := forall h, toU32 v h = (h, Ok o).

Lemma offset_is_num o : 0 <= o < 2 ^ 32 -> offset_is (Num (of_Z o)) o.
Proof. intros H h. apply toU32_run, H. Qed.

Lemma offset_is_undefined : offset_is Undefined 0.
Proof. intros h. reflexivity. Qed.

Lemma pow256 n : 256 ^ Z.of_nat n = 2 ^ (8 * Z.of_nat n).
Proof. rewrite Z.pow_mul_r by lia. reflexivity. Qed.

Lemma length_ordered big l : length (ordered big l) = length l.
Proof. destruct big; [apply length_reverse|reflexivity]. Qed.

Lemma ordered_involutive big l : ordered big (ordered big l) = l.
Proof. destruct big; [apply reverse_involutive|reflexivity]. Qed.

Lemma length_encode big n z : length (encode big n z) = n.
Proof. unfold encode. rewrite length_ordered. apply le_split_length. Qed.

Lemma encode_bytes big n z : Forall byte (encode big n z).
Proof. destruct big; unfold encode, ordered; [apply Forall_reverse|]; apply le_split_bytes. Qed.

(** Decoding what was encoded gives the value back. *)
Lemma decode_encode big sgn n z :
  in_range sgn n z -> decode big sgn (encode big n z) = z.
Proof.
  intros H. unfold decode, encode. rewrite ordered_involutive, length_ordered, le_split_length.
  rewrite le_val_split, pow256.
  destruct sgn; unfold in_range in H; [|apply Z.mod_small, H].
  destruct n as [|n]; [change (8 * Z.of_nat 0 - 1) with (-1) in H; cbn in H; lia|].
  set (k := 8 * Z.of_nat (S n)) in *. assert (E : 2 ^ k = 2 * 2 ^ (k - 1)).
  { rewrite <- Z.pow_succ_r by lia. f_equal. lia. }
  unfold signed. fold k. destruct (Z.lt_ge_cases z 0) as [Hz|Hz].
  - rewrite <- (Z.mod_unique z (2 ^ k) (-1) (z + 2 ^ k)) by lia. zbool. lia.
  - rewrite Z.mod_small by lia. zbool. reflexivity.
Qed.

(** ** Segments *)

Lemma length_seg h v o n :
  view_ok h v -> 0 <= o -> o + Z.of_nat n <= vlen v -> length (seg h v o n) = n.
Proof.
  intros Hv Ho Hn. pose proof (length_bytes h v Hv). unfold seg.
  rewrite length_take, length_drop. lia.
Qed.

Lemma seg_S h v o n :
  view_ok h v -> 0 <= o < vlen v -> seg h v o (S n) = byte_at h v o :: seg h v (o + 1) n.
Proof.
  intros Hv Ho. destruct (elt_inside h v o Hv Ho) as (b & E & L).
  unfold seg, byte_at. rewrite E. rewrite (drop_S _ _ _ L). cbn [take default].
  do 3 f_equal. lia.
Qed.

Lemma seg_1 h v o : view_ok h v -> 0 <= o < vlen v -> seg h v o 1 = [byte_at h v o].
Proof. intros. rewrite seg_S by assumption. reflexivity. Qed.

Lemma le_val_seg_1 h v o :
  view_ok h v -> 0 <= o < vlen v -> le_val (seg h v o 1) = byte_at h v o.
Proof. intros. rewrite seg_1 by assumption. cbn [le_val]. lia. Qed.

Lemma reverse_seg_1 h v o :
  view_ok h v -> 0 <= o < vlen v -> reverse (seg h v o 1) = seg h v o 1.
Proof. intros. rewrite seg_1 by assumption. reflexivity. Qed.

Lemma seg_snoc h v o n :
  view_ok h v -> 0 <= o -> o + Z.of_nat n < vlen v ->
  seg h v o (S n) = seg h v o n ++ [byte_at h v (o + Z.of_nat n)].
Proof.
  intros Hv Ho Hn. destruct (elt_inside h v (o + Z.of_nat n) Hv ltac:(lia)) as (b & E & L).
  unfold byte_at. rewrite E. unfold seg. apply take_S_r. rewrite lookup_drop.
  replace (Z.to_nat o + n)%nat with (Z.to_nat (o + Z.of_nat n)) by lia. exact L.
Qed.

Lemma seg_bytes h v o n : heap_ok h -> Forall byte (seg h v o n).
Proof. intros H. apply Forall_take, Forall_drop, heap_ok_bytes, H. Qed.

(** The bytes written are read back. *)
Lemma seg_store h v o l :
  view_ok h v -> 0 <= o -> o + Z.of_nat (length l) <= vlen v ->
  seg (store h v o l) v o (length l) = l.
Proof.
  intros Hv Ho Hl. unfold seg. rewrite bytes_store by assumption. unfold splice.
  pose proof (length_bytes h v Hv).
  rewrite drop_app_length' by (rewrite length_take; lia). apply take_app_length.
Qed.

(** ** Checks *)

Lemma checkOffset_ok o ext len h :
  0 <= o -> o + ext <= len -> checkOffset o ext len h = (h, Ok tt).
Proof.
  intros. unfold checkOffset. rewrite Z.mod_1_r. zbool. reflexivity.
Qed.

Lemma checkOffset_beyond o ext len h :
  0 <= o -> len < o + ext ->
  checkOffset o ext len h = (h, Throw (ERangeError [Txt "Trying to access beyond buffer length"])).
Proof.
  intros. unfold checkOffset. rewrite Z.mod_1_r. zbool. reflexivity.
Qed.

Lemma assert_offset_ok na o ext v h :
  0 <= o -> o + ext <= vlen v -> assert_offset na o ext v h = (h, Ok tt).
Proof. intros. unfold assert_offset. destruct (truthy na); [reflexivity|]. apply checkOffset_ok; lia. Qed.

Lemma assert_int_ok na v z o ext max min h :
  vbuffer v = true -> flt max z = false -> flt z min = false -> o + ext <= vlen v ->
  assert_int na v z o ext max min h = (h, Ok tt).
Proof.
  intros Hb H1 H2 H3. unfold assert_int. destruct (truthy na); [reflexivity|].
  unfold checkInt. rewrite Hb, H1, H2. zbool. reflexivity.
Qed.

#[export] Hint Resolve assert_offset_ok : js_run.

(** ** Words of bytes *)

Lemma shl32_byte b k : byte b -> 0 <= k <= 16 -> shl32 b k = b * 2 ^ k.
Proof.
  unfold byte. intros Hb Hk. apply shl32_small; [lia|].
  pose proof (Z.pow_le_mono_r 2 k 16 ltac:(lia) ltac:(lia)).
  assert (0 < 2 ^ k) by (apply Z.pow_pos_nonneg; lia). nia.
Qed.

Lemma or32_comm x y : or32 x y = or32 y x.
Proof. apply Z.lor_comm. Qed.

Lemma or32_small a b : 0 <= a < 256 -> or32 a (b * 2 ^ 8) = a + 256 * b.
Proof. intros. rewrite or32_comm, or32_disjoint by lia. lia. Qed.

Lemma word16 a b : byte a -> byte b -> or32 a (shl32 b 8) = le_val [a; b].
Proof.
  unfold byte. intros Ha Hb. rewrite shl32_byte by (unfold byte; lia). rewrite or32_small by lia.
  cbn. lia.
Qed.

Lemma word24 a b c :
  byte a -> byte b -> byte c -> or32 (or32 a (shl32 b 8)) (shl32 c 16) = le_val [a; b; c].
Proof.
  unfold byte. intros Ha Hb Hc. rewrite word16, shl32_byte by (unfold byte; lia).
  rewrite or32_comm, or32_disjoint by (cbn; lia). cbn. lia.
Qed.

Lemma word24_be a b c :
  byte a -> byte b -> byte c -> or32 (or32 (shl32 c 16) (shl32 b 8)) a = le_val [a; b; c].
Proof.
  intros. rewrite (or32_comm (shl32 c 16)), or32_comm. unfold or32. rewrite Z.lor_assoc.
  apply word24; assumption.
Qed.

(** The top byte shifted by 24 becomes the sign. *)
Lemma shl32_top d : byte d -> shl32 d 24 = signed 1 d * 2 ^ 24.
Proof.
  unfold byte, shl32, signed. intros Hd. change (24 mod 32) with 24.
  rewrite Z.shiftl_mul_pow2 by lia. unfold sint32.
  rewrite Z.mod_small by lia. change (8 * Z.of_nat 1) with 8.
  destruct (Z.ltb_spec d 128).
  - rewrite (proj2 (Z.ltb_lt d (2 ^ (8 - 1)))) by lia. zbool. reflexivity.
  - rewrite (proj2 (Z.ltb_ge d (2 ^ (8 - 1)))) by lia. zbool. lia.
Qed.

Lemma signed_le_val a b c d :
  byte a -> byte b -> byte c -> byte d ->
  signed 1 d * 2 ^ 24 + le_val [a; b; c] = signed 4 (le_val [a; b; c; d]).
Proof.
  unfold byte, signed. intros. change (8 * Z.of_nat 1) with 8. change (8 * Z.of_nat 4) with 32.
  cbn [le_val]. destruct (Z.ltb_spec d (2 ^ (8 - 1))).
  - rewrite (proj2 (Z.ltb_lt _ (2 ^ (32 - 1)))) by lia. lia.
  - rewrite (proj2 (Z.ltb_ge _ (2 ^ (32 - 1)))) by lia. lia.
Qed.

Lemma word32_signed a b c d :
  byte a -> byte b -> byte c -> byte d ->
  or32 (or32 (or32 a (shl32 b 8)) (shl32 c 16)) (shl32 d 24) = signed 4 (le_val [a; b; c; d]).
Proof.
  intros. rewrite word24, shl32_top by assumption. rewrite or32_comm, or32_disjoint.
  - apply signed_le_val; assumption.
  - lia.
  - unfold byte in *. cbn. lia.
Qed.

Lemma word32_signed_be a b c d :
  byte a -> byte b -> byte c -> byte d ->
  or32 (or32 (or32 (shl32 d 24) (shl32 c 16)) (shl32 b 8)) a = signed 4 (le_val [a; b; c; d]).
Proof.
  intros. rewrite <- word32_signed by assumption. symmetry. unfold or32.
  rewrite (Z.lor_comm _ (shl32 d 24)), (Z.lor_comm _ (shl32 c 16)), (Z.lor_comm a).
  rewrite !Z.lor_assoc. reflexivity.
Qed.

(** Testing and extending the sign of a 16-bit word. *)
Lemma land_top_bit v k : 0 <= k -> 0 <= v < 2 ^ (k + 1) -> (Z.land v (2 ^ k) =? 0) = (v <? 2 ^ k).
Proof.
  intros Hk Hv. rewrite Z.pow_add_r in Hv by lia.
  assert (P : 0 < 2 ^ k) by (apply Z.pow_pos_nonneg; lia).
  replace v with (v / 2 ^ k * 2 ^ k + v mod 2 ^ k) at 1 by (pose proof (Z.div_mod v (2 ^ k)); lia).
  rewrite <- lor_disjoint by (try lia; apply Z.mod_pos_bound; lia).
  rewrite Z.land_lor_distr_l. replace (Z.land (v mod 2 ^ k) (2 ^ k)) with 0.
  2:{ symmetry. rewrite Z.land_comm. rewrite <- (Z.mul_1_l (2 ^ k)) at 1.
      apply Z.bits_inj'. intros i Hi. rewrite Z.land_spec, Z.bits_0.
      destruct (Z.lt_ge_cases i k).
      - rewrite Z.mul_pow2_bits_low by lia. reflexivity.
      - rewrite (testbit_above (v mod 2 ^ k) k) by (try lia; apply Z.mod_pos_bound; lia).
        apply andb_false_r. }
  rewrite Z.lor_0_r. rewrite <- (Z.mul_1_l (2 ^ k)) at 3. rewrite land_shifted by lia.
  destruct (Z.lt_ge_cases v (2 ^ k)).
  - rewrite Z.div_small by lia. zbool. reflexivity.
  - replace (v / 2 ^ k) with 1 by (apply Z.div_unique with (v - 2 ^ k); lia).
    change (Z.land 1 1) with 1. zbool. reflexivity.
Qed.

Lemma sign16_signed v : 0 <= v < 2 ^ 16 -> sign16 v = signed 2 v.
Proof.
  intros Hv. unfold sign16, and32, signed. change (8 * Z.of_nat 2) with 16.
  change 32768 with (2 ^ 15). rewrite land_top_bit by lia. change (16 - 1) with 15.
  destruct (v <? 2 ^ 15); [reflexivity|]. change (-65536) with (-1 * 2 ^ 16).
  rewrite or32_comm, or32_disjoint by lia. lia.
Qed.

(** ** The loops of the variable-width accessors *)

Lemma pow256_le n : (n <= 6)%nat -> 1 <= 256 ^ Z.of_nat n <= 2 ^ 48.
Proof. intros. do 7 (destruct n as [|n]; [cbn; lia|]). lia. Qed.

Lemma mul_step n : (n < 6)%nat ->
  fmul (of_Z (256 ^ Z.of_nat n)) (of_Z 256) = of_Z (256 ^ Z.of_nat (S n)).
Proof.
  intros Hn. pose proof (pow256_le (S n) ltac:(lia)). pose proof (pow256_le n ltac:(lia)).
  rewrite Nat2Z.inj_succ, Z.pow_succ_r in * by lia. rewrite fmul_of_Z by lia. f_equal. lia.
Qed.

Lemma accumulate_run acc b n :
  (n < 6)%nat -> 0 <= acc < 256 ^ Z.of_nat n -> byte b ->
  accumulate (Num (of_Z acc)) (of_Z b) (of_Z (256 ^ Z.of_nat n)) =
    Num (of_Z (acc + b * 256 ^ Z.of_nat n)).
Proof.
  unfold byte. intros Hn Ha Hb. pose proof (pow256_le (S n) ltac:(lia)) as P.
  rewrite Nat2Z.inj_succ, Z.pow_succ_r in P by lia. unfold accumulate, num_of.
  set (q := 256 ^ Z.of_nat n) in *. assert (b * q <= 255 * q) by nia.
  rewrite fmul_of_Z by nia. rewrite fadd_of_Z by nia. reflexivity.
Qed.

Lemma read_le_loop_run h this o n k :
  heap_ok h -> view_ok h this -> 0 <= o -> o + Z.of_nat k + Z.of_nat n <= vlen this ->
  (k + n <= 6)%nat -> (0 < k)%nat ->
  read_le_loop n this o (Z.of_nat k) (Num (of_Z (le_val (seg h this o k))))
      (of_Z (256 ^ (Z.of_nat k - 1))) h =
    (h, Ok (Num (of_Z (le_val (seg h this o (k + n)))), of_Z (256 ^ (Z.of_nat (k + n) - 1)))).
Proof.
  intros Hh Hv Ho. revert k. induction n as [|n IH]; intros k Hb Hk H0; cbn [read_le_loop].
  { rewrite Nat.add_0_r. reflexivity. }
  replace (Z.of_nat k - 1) with (Z.of_nat (k - 1)) by lia.
  rewrite mul_step by lia. replace (S (k - 1)) with k by lia.
  rewrite (bind_ok _ _ h h (of_Z (byte_at h this (o + Z.of_nat k)))) by (apply getn_run; [assumption|lia]).
  rewrite accumulate_run.
  - replace (le_val (seg h this o k) + byte_at h this (o + Z.of_nat k) * 256 ^ Z.of_nat k)
      with (le_val (seg h this o (S k))).
    + replace (Z.of_nat k + 1) with (Z.of_nat (S k)) by lia.
      replace (Z.of_nat k) with (Z.of_nat (S k) - 1) by lia.
      rewrite IH by lia. replace (S k + n)%nat with (k + S n)%nat by lia. reflexivity.
    + rewrite seg_snoc by (assumption || lia). rewrite le_val_app, length_seg by (assumption || lia).
      cbn [le_val]. lia.
  - lia.
  - pose proof (le_val_bounds _ (seg_bytes h this o k Hh)) as B.
    rewrite length_seg in B by (assumption || lia). exact B.
  - apply byte_at_byte, Hh.
Qed.

Lemma reverse_seg_S h v o n :
  view_ok h v -> 0 <= o < vlen v ->
  reverse (seg h v o (S n)) = reverse (seg h v (o + 1) n) ++ [byte_at h v o].
Proof. intros. rewrite seg_S by assumption. apply reverse_cons. Qed.

(** [k] bytes have been read, from the last one down; [n] are left. *)
Lemma read_be_loop_run h this o n k :
  heap_ok h -> view_ok h this -> 0 <= o -> o + Z.of_nat k + Z.of_nat n <= vlen this ->
  (k + n <= 6)%nat -> (0 < k)%nat ->
  read_be_loop n this o (Num (of_Z (le_val (reverse (seg h this (o + Z.of_nat n) k)))))
      (of_Z (256 ^ (Z.of_nat k - 1))) h =
    (h, Ok (Num (of_Z (le_val (reverse (seg h this o (k + n))))), of_Z (256 ^ (Z.of_nat (k + n) - 1)))).
Proof.
  intros Hh Hv Ho. revert k. induction n as [|n IH]; intros k Hb Hk H0; cbn [read_be_loop].
  { rewrite Nat.add_0_r. replace (o + Z.of_nat 0) with o by lia. reflexivity. }
  replace (Z.of_nat k - 1) with (Z.of_nat (k - 1)) by lia.
  rewrite mul_step by lia. replace (S (k - 1)) with k by lia.
  rewrite (bind_ok _ _ h h (of_Z (byte_at h this (o + Z.of_nat n)))) by (apply getn_run; [assumption|lia]).
  assert (L : length (reverse (seg h this (o + Z.of_nat (S n)) k)) = k).
  { rewrite length_reverse. apply length_seg; (assumption || lia). }
  rewrite accumulate_run.
  - replace (le_val (reverse (seg h this (o + Z.of_nat (S n)) k)) +
             byte_at h this (o + Z.of_nat n) * 256 ^ Z.of_nat k)
      with (le_val (reverse (seg h this (o + Z.of_nat n) (S k)))).
    + replace (Z.of_nat k) with (Z.of_nat (S k) - 1) by lia.
      rewrite IH by lia. replace (S k + n)%nat with (k + S n)%nat by lia. reflexivity.
    + rewrite reverse_seg_S by (assumption || lia).
      replace (o + Z.of_nat n + 1) with (o + Z.of_nat (S n)) by lia.
      rewrite le_val_app, L. cbn [le_val]. lia.
  - lia.
  - assert (B : Forall byte (reverse (seg h this (o + Z.of_nat (S n)) k)))
      by (apply Forall_reverse, seg_bytes, Hh).
    apply le_val_bounds in B. rewrite L in B. exact B.
  - apply byte_at_byte, Hh.
Qed.

(** ** The Number accessors

    One name per pair of methods: the 8-, 16- and 32-bit ones and the ones that
    take the number of bytes. *)
Inductive accessor :=
| Acc8 (sgn : bool)
| Acc16 (sgn big : bool)
| Acc32 (sgn big : bool)
| AccN (sgn big : bool) (n : nat).

Definition width (a : accessor) : nat :=
  match a with Acc8 _ => 1 | Acc16 _ _ => 2 | Acc32 _ _ => 4 | AccN _ _ n => n end.
Definition is_signed (a : accessor) : bool :=
  match a with Acc8 s | Acc16 s _ | Acc32 s _ | AccN s _ _ => s end.
Definition is_big (a : accessor) : bool :=
  match a with Acc8 _ => false | Acc16 _ b | Acc32 _ b | AccN _ b _ => b end.

(** The documented widths. *)
Definition supported (a : accessor) : Prop := (1 <= width a <= 6)%nat.

Definition read_method (a : accessor) (this : view) (offset noAssert : val) : M val :=
  match a with
  | Acc8 false => readUInt8 this offset noAssert
  | Acc8 true => readInt8 this offset noAssert
  | Acc16 false false => readUInt16LE this offset noAssert
  | Acc16 false true => readUInt16BE this offset noAssert
  | Acc16 true false => readInt16LE this offset noAssert
  | Acc16 true true => readInt16BE this offset noAssert
  | Acc32 false false => readUInt32LE this offset noAssert
  | Acc32 false true => readUInt32BE this offset noAssert
  | Acc32 true false => readInt32LE this offset noAssert
  | Acc32 true true => readInt32BE this offset noAssert
  | AccN false false n => readUIntLE this offset (Num (of_Z (Z.of_nat n))) noAssert
  | AccN false true n => readUIntBE this offset (Num (of_Z (Z.of_nat n))) noAssert
  | AccN true false n => readIntLE this offset (Num (of_Z (Z.of_nat n))) noAssert
  | AccN true true n => readIntBE this offset (Num (of_Z (Z.of_nat n))) noAssert
  end.

Definition write_method (a : accessor) (this : view) (value offset noAssert : val) : M Z :=
  match a with
  | Acc8 false => writeUInt8 this value offset noAssert
  | Acc8 true => writeInt8 this value offset noAssert
  | Acc16 false false => writeUInt16LE this value offset noAssert
  | Acc16 false true => writeUInt16BE this value offset noAssert
  | Acc16 true false => writeInt16LE this value offset noAssert
  | Acc16 true true => writeInt16BE this value offset noAssert
  | Acc32 false false => writeUInt32LE this value offset noAssert
  | Acc32 false true => writeUInt32BE this value offset noAssert
  | Acc32 true false => writeInt32LE this value offset noAssert
  | Acc32 true true => writeInt32BE this value offset noAssert
  | AccN false false n => writeUIntLE this value offset (Num (of_Z (Z.of_nat n))) noAssert
  | AccN false true n => writeUIntBE this value offset (Num (of_Z (Z.of_nat n))) noAssert
  | AccN true false n => writeIntLE this value offset (Z.of_nat n) noAssert
  | AccN true true n => writeIntBE this value offset (Z.of_nat n) noAssert
  end.

Section Reading.
Context (h : heap) (this : view) (offset noAssert : val) (o : Z).
Hypothesis Hh : heap_ok h.
Hypothesis Hv : view_ok h this.
Hypothesis Hoff : offset_is offset o.
Hypothesis Ho : 0 <= o.

(** Run the conversions, the check and the element reads of a reader. *)
Local Ltac reads :=
  rewrite (bind_ok _ _ _ _ _ (Hoff h));
  rewrite (bind_ok _ _ h h tt) by (apply assert_offset_ok; lia);
  repeat first
    [ erewrite (bind_ok (geti this _)) by (apply geti_run; [assumption|assumption|lia])
    | erewrite (bind_ok (getn this _)) by (apply getn_run; [assumption|lia])
    | erewrite (bind_ok (get this _)) by (apply get_run; [assumption|lia]) ].

Local Ltac segs := repeat rewrite seg_S by (assumption || lia).

Lemma byte_here i : byte (byte_at h this i).
Proof. apply byte_at_byte, Hh. Qed.

Lemma read8_run sgn : o + 1 <= vlen this ->
  read_method (Acc8 sgn) this offset noAssert h =
    (h, Ok (Num (of_Z (decode false sgn (seg h this o 1))))).
Proof.
  intros Hb. unfold decode, ordered. rewrite seg_S by (assumption || lia).
  change (seg h this (o + 1) 0) with (@nil Z).
  pose proof (byte_here o) as B. unfold byte in B. cbn [length le_val].
  rewrite Z.mul_0_r, Z.add_0_r. destruct sgn; cbn [read_method].
  - unfold readInt8. reads. unfold and32. change 128 with (2 ^ 7). rewrite land_top_bit by lia.
    unfold signed. change (8 * Z.of_nat 1) with 8. change (8 - 1) with 7.
    destruct (Z.ltb_spec (byte_at h this o) (2 ^ 7)); [apply get_run; [assumption|lia]|].
    erewrite bind_ok by (apply getn_run; [assumption|lia]).
    rewrite fsub_of_Z, fadd_of_Z, fmul_of_Z_nonzero by lia. unfold ret. do 4 f_equal. lia.
  - unfold readUInt8. reads. apply get_run; [assumption|lia].
Qed.

Lemma read16_run sgn big : o + 2 <= vlen this ->
  read_method (Acc16 sgn big) this offset noAssert h =
    (h, Ok (Num (of_Z (decode big sgn (seg h this o 2))))).
Proof.
  intros Hb. unfold decode. rewrite length_seg by (assumption || lia). segs.
  change (seg h this (o + 1 + 1) 0) with (@nil Z).
  pose proof (byte_here o) as B0. pose proof (byte_here (o + 1)) as B1.
  assert (W : 0 <= le_val [byte_at h this o; byte_at h this (o + 1)] < 2 ^ 16 /\
              0 <= le_val [byte_at h this (o + 1); byte_at h this o] < 2 ^ 16)
    by (unfold byte in *; cbn; lia).
  destruct sgn, big; cbn [read_method ordered];
    unfold readUInt16LE, readUInt16BE, readInt16LE, readInt16BE; reads; unfold ret;
    rewrite ?(or32_comm (shl32 _ 8)), word16 by assumption; rewrite ?sign16_signed by tauto; reflexivity.
Qed.

Lemma read32_run sgn big : o + 4 <= vlen this ->
  read_method (Acc32 sgn big) this offset noAssert h =
    (h, Ok (Num (of_Z (decode big sgn (seg h this o 4))))).
Proof.
  intros Hb. unfold decode. rewrite length_seg by (assumption || lia). segs.
  change (seg h this (o + 1 + 1 + 1 + 1) 0) with (@nil Z).
  replace (o + 1 + 1) with (o + 2) by lia. replace (o + 2 + 1) with (o + 3) by lia.
  pose proof (byte_here o) as B0. pose proof (byte_here (o + 1)) as B1.
  pose proof (byte_here (o + 2)) as B2. pose proof (byte_here (o + 3)) as B3.
  destruct sgn, big; cbn [read_method ordered];
    unfold readUInt32LE, readUInt32BE, readInt32LE, readInt32BE; reads; unfold ret.
  - rewrite word32_signed_be by assumption. reflexivity.
  - rewrite word32_signed by assumption. reflexivity.
  - rewrite word24_be by assumption. unfold byte in *.
    rewrite fmul_of_Z, fadd_of_Z by (cbn [le_val]; lia). do 4 f_equal. cbn. lia.
  - rewrite word24 by assumption. unfold byte in *.
    rewrite fmul_of_Z, fadd_of_Z by (cbn [le_val]; lia). do 4 f_equal. cbn. lia.
Qed.

(** The sign test of [readIntLE] and [readIntBE]. *)
Lemma sign_fix_run n u :
  (1 <= n <= 6)%nat -> 0 <= u < 256 ^ Z.of_nat n ->
  sign_fix (Num (of_Z u)) (of_Z (256 ^ (Z.of_nat n - 1))) (Z.of_nat n) = Num (of_Z (signed n u)).
Proof.
  intros Hn Hu. pose proof (pow256_le n ltac:(lia)) as P. unfold sign_fix.
  assert (E : 256 ^ (Z.of_nat n - 1) * 128 = 2 ^ (8 * Z.of_nat n - 1)).
  { replace 256 with (2 ^ 8) by lia. rewrite <- Z.pow_mul_r by lia. change 128 with (2 ^ 7).
    rewrite <- Z.pow_add_r by lia. f_equal. lia. }
  rewrite pow256 in *.
  assert (D : 2 ^ (8 * Z.of_nat n) = 2 * 2 ^ (8 * Z.of_nat n - 1)).
  { rewrite <- Z.pow_succ_r by lia. f_equal. lia. }
  rewrite fmul_of_Z by nia. rewrite E. rewrite js_le_num by lia. unfold signed.
  destruct (Z.ltb_spec u (2 ^ (8 * Z.of_nat n - 1))); zbool; [reflexivity|].
  rewrite <- of_Z_pow2 by lia. unfold num_of. rewrite fsub_of_Z by lia. reflexivity.
Qed.

Lemma readN_run sgn big n : (1 <= n <= 6)%nat -> o + Z.of_nat n <= vlen this ->
  read_method (AccN sgn big n) this offset noAssert h =
    (h, Ok (Num (of_Z (decode big sgn (seg h this o n))))).
Proof.
  intros Hn Hb. unfold decode. rewrite length_seg by (assumption || lia).
  assert (F0 : Num (of_Z (byte_at h this o)) = Num (of_Z (le_val (seg h this o 1)))).
  { rewrite le_val_seg_1 by (assumption || lia). reflexivity. }
  assert (F1 : Num (of_Z (byte_at h this (o + (Z.of_nat n - 1)))) =
               Num (of_Z (le_val (reverse (seg h this (o + Z.of_nat (n - 1)) 1))))).
  { replace (o + (Z.of_nat n - 1)) with (o + Z.of_nat (n - 1)) by lia.
    rewrite reverse_seg_1, le_val_seg_1 by (assumption || lia). reflexivity. }
  assert (U : 0 <= le_val (ordered big (seg h this o n)) < 256 ^ Z.of_nat n).
  { assert (B : Forall byte (ordered big (seg h this o n)))
      by (destruct big; [apply Forall_reverse|]; apply seg_bytes, Hh).
    apply le_val_bounds in B. rewrite length_ordered, length_seg in B by (assumption || lia).
    exact B. }
  pose proof (fun x => toU32_run h (Z.of_nat n) x) as HU.
  destruct sgn, big; cbn [read_method ordered];
    unfold readUIntLE, readUIntBE, readIntLE, readIntBE;
    rewrite (bind_ok _ _ _ _ _ (Hoff h)), (bind_ok _ _ _ _ _ (HU ltac:(lia)));
    rewrite (bind_ok _ _ h h tt) by (apply assert_offset_ok; lia);
    erewrite bind_ok by (apply get_run; [assumption|lia]).
  - rewrite F1. replace (Z.to_nat (Z.of_nat n - 1)) with (n - 1)%nat by lia.
    erewrite bind_ok by (apply (read_be_loop_run h this o (n - 1) 1); (assumption || lia)).
    cbn [fst snd]. replace (1 + (n - 1))%nat with n by lia. unfold ret. rewrite sign_fix_run by assumption.
    reflexivity.
  - rewrite F0. replace (Z.to_nat (Z.of_nat n - 1)) with (n - 1)%nat by lia.
    erewrite bind_ok by (apply (read_le_loop_run h this o (n - 1) 1); (assumption || lia)).
    cbn [fst snd]. replace (1 + (n - 1))%nat with n by lia. unfold ret. rewrite sign_fix_run by assumption.
    reflexivity.
  - rewrite F1. replace (Z.to_nat (Z.of_nat n - 1)) with (n - 1)%nat by lia.
    erewrite bind_ok by (apply (read_be_loop_run h this o (n - 1) 1); (assumption || lia)).
    replace (1 + (n - 1))%nat with n by lia. reflexivity.
  - rewrite F0. replace (Z.to_nat (Z.of_nat n - 1)) with (n - 1)%nat by lia.
    erewrite bind_ok by (apply (read_le_loop_run h this o (n - 1) 1); (assumption || lia)).
    replace (1 + (n - 1))%nat with n by lia. reflexivity.
Qed.

Lemma read_run a : supported a -> o + Z.of_nat (width a) <= vlen this ->
  read_method a this offset noAssert h =
    (h, Ok (Num (of_Z (decode (is_big a) (is_signed a) (seg h this o (width a)))))).
Proof.
  intros Hs Hb. destruct a; [apply read8_run|apply read16_run|apply read32_run|apply readN_run];
    assumption.
Qed.
End Reading.

(** ** The 64-bit accessors *)

Definition read_big (sgn big : bool) (this : view) (offset : val) : M val :=
  match sgn, big with
  | false, false => readBigUInt64LE this offset
  | false, true => readBigUInt64BE this offset
  | true, false => readBigInt64LE this offset
  | true, true => readBigInt64BE this offset
  end.

Definition write_big (sgn big : bool) (this : view) (value offset : val) : M Z :=
  match sgn, big with
  | false, false => writeBigUInt64LE this value offset
  | false, true => writeBigUInt64BE this value offset
  | true, false => writeBigInt64LE this value offset
  | true, true => writeBigInt64BE this value offset
  end.

Lemma toBigInt_run z h : Z.abs z <= 2 ^ 53 -> toBigInt (of_Z z) h = (h, Ok z).
Proof.
  intros Hz. unfold toBigInt. rewrite to_integer_of_Z, feq_of_Z, Z.eqb_refl by exact Hz. reflexivity.
Qed.

(** What the 64-bit readers throw when a byte is missing. *)
Definition bigint_bounds_error (o len : Z) : exn :=
  if len <? 8 then ERR_BUFFER_OUT_OF_BOUNDS None
  else ERR_OUT_OF_RANGE "offset" [Txt ">= 0"; Txt " and <= "; Of (Num (of_Z (len - 8)))] (Num (of_Z o)).

Section ReadingBig.
Context (h : heap) (this : view) (offset : val) (o : Z).
Hypothesis Hh : heap_ok h.
Hypothesis Hv : view_ok h this.
Hypothesis Hoff : offset_is offset o.
Hypothesis Ho : 0 <= o < 2 ^ 32.

Lemma check_first_last_run :
  o + 8 <= vlen this -> check_first_last this o h = (h, Ok tt).
Proof.
  intros Hb. unfold check_first_last. erewrite (bind_ok (validateNumber _ _)) by reflexivity.
  erewrite bind_ok by (apply get_run; [assumption|lia]).
  erewrite bind_ok by (apply get_run; [assumption|lia]). reflexivity.
Qed.

Lemma boundsError_run len :
  Z.abs len <= 2 ^ 53 ->
  @boundsError unit (of_Z o) (len - 8) None h = (h, Throw (bigint_bounds_error o len)).
Proof.
  intros Hl. unfold boundsError. replace (is_floor (of_Z o)) with true.
  2:{ symmetry. unfold is_floor. rewrite to_integer_of_Z, feq_of_Z, Z.eqb_refl by lia.
      destruct (of_Z o); reflexivity. }
  cbn [negb]. unfold bigint_bounds_error. destruct (Z.ltb_spec len 8); zbool; reflexivity.
Qed.

Lemma check_first_last_beyond :
  vlen this < o + 8 -> check_first_last this o h = (h, Throw (bigint_bounds_error o (vlen this))).
Proof.
  intros Hb. assert (L : 0 <= vlen this < 2 ^ 32) by (destruct Hv as (?&?&?&?&?); lia).
  unfold check_first_last. erewrite (bind_ok (validateNumber _ _)) by reflexivity.
  destruct (Z.lt_ge_cases o (vlen this)).
  - erewrite bind_ok by (apply get_run; [assumption|lia]).
    erewrite bind_ok by (apply get_run_out; [assumption|lia]).
    apply boundsError_run. lia.
  - erewrite bind_ok by (apply get_run_out; [assumption|lia]).
    erewrite bind_ok by (apply get_run_out; [assumption|lia]).
    apply boundsError_run. lia.
Qed.

Lemma get4_run p : 0 <= p -> p + 4 <= vlen this ->
  get4 this p h = (h, Ok (of_Z (byte_at h this p), of_Z (byte_at h this (p + 1)),
                          of_Z (byte_at h this (p + 2)), of_Z (byte_at h this (p + 3)))).
Proof.
  intros. unfold get4.
  repeat (erewrite bind_ok by (apply getn_run; [assumption|lia])). reflexivity.
Qed.

Lemma word_sum_run a b c d : byte a -> byte b -> byte c -> byte d ->
  word_sum (of_Z a) (of_Z b) (of_Z c) (of_Z d) = of_Z (le_val [a; b; c; d]).
Proof.
  unfold byte, word_sum. intros. rewrite !fmul_of_Z by lia. rewrite !fadd_of_Z by lia.
  f_equal. cbn [le_val]. lia.
Qed.

Lemma word_sum_be_run a b c d : byte a -> byte b -> byte c -> byte d ->
  word_sum_be (of_Z d) (of_Z c) (of_Z b) (of_Z a) = of_Z (le_val [a; b; c; d]).
Proof.
  unfold byte, word_sum_be. intros. rewrite !fmul_of_Z by lia. rewrite !fadd_of_Z by lia.
  f_equal. cbn [le_val]. lia.
Qed.

Lemma signed1_bounds d : byte d -> -128 <= signed 1 d < 128.
Proof.
  unfold byte, signed. intros. change (8 * Z.of_nat 1) with 8.
  destruct (Z.ltb_spec d (2 ^ (8 - 1))); lia.
Qed.

Lemma top_word_run a b c d : byte a -> byte b -> byte c -> byte d ->
  fadd (fadd (fadd (of_Z a) (fmul (of_Z b) (of_Z 256))) (fmul (of_Z c) (of_Z 65536)))
       (of_Z (shl32 (ToInt32 (of_Z d)) 24)) = of_Z (signed 4 (le_val [a; b; c; d])).
Proof.
  intros. rewrite ToInt32_of_Z, sint32_byte, shl32_top, <- signed_le_val by (assumption || unfold byte in *; lia).
  pose proof (signed1_bounds d ltac:(assumption)). unfold byte in *.
  rewrite !fmul_of_Z by lia. rewrite !fadd_of_Z by lia. f_equal. cbn [le_val]. lia.
Qed.

Lemma top_word_be_run a b c d : byte a -> byte b -> byte c -> byte d ->
  fadd (fadd (fadd (of_Z (shl32 (ToInt32 (of_Z d)) 24)) (fmul (of_Z c) (of_Z 65536)))
       (fmul (of_Z b) (of_Z 256))) (of_Z a) = of_Z (signed 4 (le_val [a; b; c; d])).
Proof.
  intros. rewrite ToInt32_of_Z, sint32_byte, shl32_top, <- signed_le_val by (assumption || unfold byte in *; lia).
  pose proof (signed1_bounds d ltac:(assumption)). unfold byte in *.
  rewrite !fmul_of_Z by lia. rewrite !fadd_of_Z by lia. f_equal. cbn [le_val]. lia.
Qed.

(** Two words make a 64-bit integer, the high one giving the sign. *)
Lemma words64 l k : Forall byte l -> Forall byte k -> length l = 4%nat -> length k = 4%nat ->
  Z.shiftl (le_val k) 32 + le_val l = le_val (l ++ k).
Proof.
  intros Hl Hk Ll Lk. rewrite Z.shiftl_mul_pow2, le_val_app, Ll by lia.
  change (256 ^ Z.of_nat 4) with (2 ^ 32). lia.
Qed.

Lemma words64_signed l k : Forall byte l -> Forall byte k -> length l = 4%nat -> length k = 4%nat ->
  Z.shiftl (signed 4 (le_val k)) 32 + le_val l = signed 8 (le_val (l ++ k)).
Proof.
  intros Hl Hk Ll Lk. rewrite <- words64 by assumption. rewrite !Z.shiftl_mul_pow2 by lia.
  apply le_val_bounds in Hl, Hk. rewrite Ll in Hl. rewrite Lk in Hk.
  unfold signed. change (8 * Z.of_nat 4) with 32. change (8 * Z.of_nat 8) with 64.
  destruct (Z.ltb_spec (le_val k) (2 ^ (32 - 1))).
  - rewrite (proj2 (Z.ltb_lt _ (2 ^ (64 - 1)))) by lia. reflexivity.
  - rewrite (proj2 (Z.ltb_ge _ (2 ^ (64 - 1)))) by lia. lia.
Qed.

Lemma split8 (a b c d e f g i : Z) : [a; b; c; d; e; f; g; i] = [a; b; c; d] ++ [e; f; g; i].
Proof. reflexivity. Qed.

Lemma reverse8 (a b c d e f g i : Z) :
  reverse [a; b; c; d; e; f; g; i] = [i; g; f; e] ++ [d; c; b; a].
Proof. reflexivity. Qed.

Lemma word_bound a b c d : byte a -> byte b -> byte c -> byte d ->
  Z.abs (le_val [a; b; c; d]) <= 2 ^ 53 /\ Z.abs (signed 4 (le_val [a; b; c; d])) <= 2 ^ 53.
Proof.
  intros. rewrite <- signed_le_val by assumption. pose proof (signed1_bounds d ltac:(assumption)).
  unfold byte in *. cbn [le_val]. lia.
Qed.

Local Ltac solve_word := solve [reflexivity | repeat (constructor; [assumption|]); constructor].

Lemma read_big_run sgn big : o + 8 <= vlen this ->
  read_big sgn big this offset h = (h, Ok (BigInt (decode big sgn (seg h this o 8)))).
Proof.
  intros Hb. unfold decode. rewrite length_seg by (assumption || lia).
  repeat rewrite seg_S by (assumption || lia).
  change (seg h this (o + 1 + 1 + 1 + 1 + 1 + 1 + 1 + 1) 0) with (@nil Z).
  replace (o + 1 + 1 + 1 + 1 + 1 + 1 + 1) with (o + 4 + 3) by lia.
  replace (o + 1 + 1 + 1 + 1 + 1 + 1) with (o + 4 + 2) by lia.
  replace (o + 1 + 1 + 1 + 1 + 1) with (o + 4 + 1) by lia.
  replace (o + 1 + 1 + 1 + 1) with (o + 4) by lia.
  replace (o + 1 + 1 + 1) with (o + 3) by lia. replace (o + 1 + 1) with (o + 2) by lia.
  pose proof (byte_at_byte h this o Hh) as B0. pose proof (byte_at_byte h this (o + 1) Hh) as B1.
  pose proof (byte_at_byte h this (o + 2) Hh) as B2. pose proof (byte_at_byte h this (o + 3) Hh) as B3.
  pose proof (byte_at_byte h this (o + 4) Hh) as B4. pose proof (byte_at_byte h this (o + 4 + 1) Hh) as B5.
  pose proof (byte_at_byte h this (o + 4 + 2) Hh) as B6. pose proof (byte_at_byte h this (o + 4 + 3) Hh) as B7.
  destruct sgn, big; cbn [read_big ordered];
    unfold readBigUInt64LE, readBigUInt64BE, readBigInt64LE, readBigInt64BE;
    rewrite (bind_ok _ _ _ _ _ (Hoff h)), (bind_ok _ _ h h tt) by (apply check_first_last_run; lia);
    erewrite bind_ok by (apply get4_run; lia); erewrite bind_ok by (apply get4_run; lia);
    cbv beta iota zeta.
  - rewrite top_word_be_run, word_sum_be_run by assumption.
    do 2 (erewrite bind_ok by (apply toBigInt_run; apply word_bound; assumption)).
    apply (f_equal (fun z => (h, Ok (BigInt z)))). rewrite reverse8. apply words64_signed; solve_word.
  - rewrite top_word_run, word_sum_run by assumption.
    do 2 (erewrite bind_ok by (apply toBigInt_run; apply word_bound; assumption)).
    apply (f_equal (fun z => (h, Ok (BigInt z)))). rewrite split8. apply words64_signed; solve_word.
  - rewrite !word_sum_be_run by assumption.
    do 2 (erewrite bind_ok by (apply toBigInt_run; apply word_bound; assumption)).
    apply (f_equal (fun z => (h, Ok (BigInt z)))). rewrite reverse8. apply words64; solve_word.
  - rewrite !word_sum_run by assumption.
    do 2 (erewrite bind_ok by (apply toBigInt_run; apply word_bound; assumption)).
    apply (f_equal (fun z => (h, Ok (BigInt z)))). rewrite Z.add_comm, split8. apply words64; solve_word.
Qed.

Lemma read_big_beyond sgn big : vlen this < o + 8 ->
  read_big sgn big this offset h = (h, Throw (bigint_bounds_error o (vlen this))).
Proof.
  intros Hb. destruct sgn, big; cbn [read_big];
    unfold readBigUInt64LE, readBigUInt64BE, readBigInt64LE, readBigInt64BE;
    rewrite (bind_ok _ _ _ _ _ (Hoff h)); apply bind_throw, check_first_last_beyond, Hb.
Qed.
End ReadingBig.

(** ** Stores of bytes *)

Lemma store_join h v i j l k :
  0 <= voff v + i -> j = i + Z.of_nat (length l) ->
  store (store h v i l) v j k = store h v i (l ++ k).
Proof. intros H ->. apply store_app, H. Qed.

Lemma store_join_before h v i j l k :
  0 <= voff v + i -> j = i + Z.of_nat (length k) ->
  store (store h v j l) v i k = store h v i (k ++ l).
Proof. intros H ->. apply store_app_before, H. Qed.

Lemma store_snoc h v i j l x :
  0 <= voff v + i -> j = i + Z.of_nat (length l) ->
  store (store h v i l) v j [x] = store h v i (l ++ [x]).
Proof. intros H ->. apply store_app, H. Qed.

Lemma store_cons h v i j x l :
  0 <= voff v + i -> j = i + 1 -> store (store h v j l) v i [x] = store h v i (x :: l).
Proof. intros H ->. apply (store_app_before h v i [x] l), H. Qed.

Lemma byte_at_store h v o l k x :
  view_ok h v -> 0 <= o -> o + Z.of_nat (length l) <= vlen v -> l !! k = Some x ->
  byte_at (store h v o l) v (o + Z.of_nat k) = x.
Proof.
  intros Hv Ho Hl Hk. pose proof (length_bytes h v Hv) as L. unfold byte_at, elt, zget. zbool.
  rewrite bytes_store by assumption. unfold splice. apply lookup_lt_Some in Hk as Hk'.
  rewrite lookup_app_r by (rewrite length_take; lia).
  rewrite lookup_app_l by (rewrite length_take; lia). rewrite length_take.
  replace (Z.to_nat (o + Z.of_nat k) - Z.to_nat o `min` length (bytes h v))%nat with k by lia.
  rewrite Hk. reflexivity.
Qed.

(** ** The bytes stored *)

Lemma mod_byte z k : 0 <= k <= 24 -> (z mod 2 ^ 32 / 2 ^ k) mod 256 = (z / 2 ^ k) mod 256.
Proof.
  intros Hk. change 256 with (2 ^ 8). apply Z.bits_inj'. intros i Hi.
  rewrite <- !Z.shiftr_div_pow2 by lia. destruct (Z.lt_ge_cases i 8).
  - rewrite !Z.mod_pow2_bits_low, !Z.shiftr_spec, Z.mod_pow2_bits_low by lia. reflexivity.
  - rewrite !Z.mod_pow2_bits_high by lia. reflexivity.
Qed.

Lemma ToUint8_byte x : byte x -> ToUint8 (of_Z x) = x.
Proof. unfold byte. intros. rewrite ToUint8_of_Z by lia. apply Z.mod_small. lia. Qed.

Lemma sint32_mod_256 z : sint32 z mod 256 = z mod 256.
Proof. apply (sint32_mod z 8). lia. Qed.

Lemma low_int_run z : ToUint8 (of_Z (and32 (sint32 z) 255)) = z mod 256.
Proof.
  unfold and32. rewrite land_255, sint32_mod_256. apply ToUint8_byte, Z.mod_pos_bound. lia.
Qed.

Lemma low_byte_run z : Z.abs z <= 2 ^ 53 -> ToUint8 (low_byte (of_Z z)) = z mod 256.
Proof. intros. unfold low_byte. rewrite ToInt32_of_Z by lia. apply low_int_run. Qed.

Lemma shifted_run z k : Z.abs z <= 2 ^ 53 -> 0 <= k <= 24 ->
  ToUint8 (shifted (of_Z z) k) = (z / 2 ^ k) mod 256.
Proof.
  intros Hz Hk. unfold shifted, shr32u. rewrite ToInt32_of_Z by lia. rewrite (Z.mod_small k) by lia.
  rewrite sint32_mod, Z.shiftr_div_pow2 by lia.
  rewrite ToUint8_of_Z; [apply mod_byte, Hk|].
  pose proof (Z.mod_pos_bound z (2 ^ 32) ltac:(lia)). assert (0 < 2 ^ k) by (apply Z.pow_pos_nonneg; lia).
  pose proof (Z.div_pos (z mod 2 ^ 32) (2 ^ k) ltac:(lia) ltac:(lia)).
  pose proof (Z.div_le_upper_bound (z mod 2 ^ 32) (2 ^ k) (z mod 2 ^ 32) ltac:(lia) ltac:(nia)). lia.
Qed.

Lemma le_split_2 z : le_split 2 z = [z mod 256; (z / 2 ^ 8) mod 256].
Proof. reflexivity. Qed.
Lemma le_split_4 z :
  le_split 4 z = [z mod 256; (z / 2 ^ 8) mod 256; (z / 2 ^ 16) mod 256; (z / 2 ^ 24) mod 256].
Proof. cbn [le_split]. rewrite !Z.div_div by lia. reflexivity. Qed.

Lemma reverse_le_split_S k z :
  reverse (le_split (S k) z) = (z / 256 ^ Z.of_nat k) mod 256 :: reverse (le_split k z).
Proof. rewrite le_split_snoc, reverse_app. reflexivity. Qed.

(** ** The writing loops *)

Lemma quot_byte z n : 0 <= z <= 2 ^ 53 -> (n <= 6)%nat ->
  ToUint8 (of_Z (and32 (ToInt32 (fdiv (of_Z z) (of_Z (256 ^ Z.of_nat n)))) 255)) =
    (z / 256 ^ Z.of_nat n) mod 256.
Proof.
  intros Hz Hn. unfold ToInt32. rewrite low_int_run, pow256, to_integer_fdiv_pow2 by lia.
  rewrite Z.quot_div_nonneg; [reflexivity|lia|apply Z.pow_pos_nonneg; lia].
Qed.

Lemma write_le_loop_run h this o z n k :
  view_ok h this -> 0 <= o -> o + Z.of_nat k + Z.of_nat n <= vlen this ->
  0 <= z <= 2 ^ 53 -> (k + n <= 6)%nat -> (0 < k)%nat ->
  write_le_loop n this (of_Z z) o (Z.of_nat k) (of_Z (256 ^ (Z.of_nat k - 1)))
      (store h this o (le_split k z)) =
    (store h this o (le_split (k + n) z), Ok tt).
Proof.
  intros (Hv & _) Ho. revert k. induction n as [|n IH]; intros k Hb Hz Hk H0; cbn [write_le_loop].
  { rewrite Nat.add_0_r. reflexivity. }
  replace (Z.of_nat k - 1) with (Z.of_nat (k - 1)) by lia.
  rewrite mul_step by lia. replace (S (k - 1)) with k by lia.
  erewrite bind_ok by (apply put_run; lia). rewrite quot_byte by lia.
  rewrite store_snoc by (rewrite ?le_split_length; lia). rewrite <- le_split_snoc.
  replace (Z.of_nat k + 1) with (Z.of_nat (S k)) by lia.
  replace (Z.of_nat k) with (Z.of_nat (S k) - 1) by lia.
  rewrite IH by lia. replace (S k + n)%nat with (k + S n)%nat by lia. reflexivity.
Qed.

Lemma write_be_loop_run h this o z n k :
  view_ok h this -> 0 <= o -> o + Z.of_nat k + Z.of_nat n <= vlen this ->
  0 <= z <= 2 ^ 53 -> (k + n <= 6)%nat -> (0 < k)%nat ->
  write_be_loop n this (of_Z z) o (of_Z (256 ^ (Z.of_nat k - 1)))
      (store h this (o + Z.of_nat n) (reverse (le_split k z))) =
    (store h this o (reverse (le_split (k + n) z)), Ok tt).
Proof.
  intros (Hv & _) Ho. revert k. induction n as [|n IH]; intros k Hb Hz Hk H0; cbn [write_be_loop].
  { rewrite Nat.add_0_r. replace (o + Z.of_nat 0) with o by lia. reflexivity. }
  replace (Z.of_nat k - 1) with (Z.of_nat (k - 1)) by lia.
  rewrite mul_step by lia. replace (S (k - 1)) with k by lia.
  erewrite bind_ok by (apply put_run; lia). rewrite quot_byte by lia.
  rewrite store_cons by lia. rewrite <- reverse_le_split_S.
  replace (Z.of_nat k) with (Z.of_nat (S k) - 1) by lia.
  rewrite IH by lia. replace (S k + n)%nat with (k + S n)%nat by lia. reflexivity.
Qed.

(** The borrow of a negative value whose [k] low bytes are not all zero: with
    it, division towards zero becomes division towards minus infinity. *)
Definition borrow (z : Z) (k : nat) : Z :=
  if (z <? 0) && negb (z mod 256 ^ Z.of_nat k =? 0) then 1 else 0.

Lemma borrow_0 z : borrow z 0 = 0.
Proof. unfold borrow. rewrite Z.mod_1_r, andb_false_r. reflexivity. Qed.

Lemma quot_borrow z m : 0 < m ->
  Z.quot z m - (if (z <? 0) && negb (z mod m =? 0) then 1 else 0) = z / m.
Proof.
  intros Hm. pose proof (Z.quot_rem' z m) as E.
  destruct (Z.ltb_spec z 0) as [Hz|Hz]; cbn [andb].
  2:{ rewrite Z.quot_div_nonneg by lia. lia. }
  assert (R : - m < Z.rem z m <= 0) by (pose proof (Z.rem_bound_pos_neg z m ltac:(lia) ltac:(lia)); lia).
  destruct (Z.eq_dec (Z.rem z m) 0) as [R0|R0].
  - rewrite <- (Z.mod_unique z m (Z.quot z m) 0) by lia. cbn.
    rewrite (Z.div_unique z m (Z.quot z m) 0) by lia. lia.
  - rewrite <- (Z.mod_unique z m (Z.quot z m - 1) (Z.rem z m + m)) by lia.
    rewrite (proj2 (Z.eqb_neq _ 0)) by lia. cbn [negb].
    apply (Z.div_unique z m _ (Z.rem z m + m)); lia.
Qed.

Lemma borrow_step z k :
  (if (z <? 0) && (borrow z k =? 0) && negb ((z / 256 ^ Z.of_nat k) mod 256 =? 0)
   then 1 else borrow z k) = borrow z (S k).
Proof.
  unfold borrow. assert (P : 0 < 256 ^ Z.of_nat k) by (apply Z.pow_pos_nonneg; lia).
  rewrite Nat2Z.inj_succ, Z.pow_succ_r, Z.mul_comm, Z.rem_mul_r by lia.
  pose proof (Z.mod_pos_bound z (256 ^ Z.of_nat k) P).
  pose proof (Z.mod_pos_bound (z / 256 ^ Z.of_nat k) 256 ltac:(lia)).
  destruct (z <? 0); cbn [andb]; [|reflexivity].
  destruct (Z.eqb_spec (z mod 256 ^ Z.of_nat k) 0) as [E|E]; cbn [negb].
  - rewrite E. change (0 =? 0) with true. cbn [andb].
    destruct (Z.eqb_spec ((z / 256 ^ Z.of_nat k) mod 256) 0) as [E'|E']; cbn [negb].
    + rewrite E'. rewrite Z.mul_0_r. reflexivity.
    + rewrite (proj2 (Z.eqb_neq _ 0)) by nia. reflexivity.
  - change (1 =? 0) with false. cbn [andb]. rewrite (proj2 (Z.eqb_neq _ 0)) by nia. reflexivity.
Qed.

Lemma int_byte z n : Z.abs z <= 2 ^ 53 -> (n <= 6)%nat ->
  ToUint8 (of_Z (and32 (sint32 (ToInt32 (fdiv (of_Z z) (of_Z (256 ^ Z.of_nat n))) - borrow z n)) 255)) =
    (z / 256 ^ Z.of_nat n) mod 256.
Proof.
  intros Hz Hn. rewrite low_int_run, <- (quot_borrow z) by (apply Z.pow_pos_nonneg; lia).
  unfold ToInt32. rewrite pow256 at 1. rewrite to_integer_fdiv_pow2 by lia. rewrite <- pow256.
  rewrite Zminus_mod, sint32_mod_256, <- Zminus_mod. reflexivity.
Qed.

(** The choice of [sub] in one turn, after [k + 1] bytes. *)
Lemma sub_run z k :
  Z.abs z <= 2 ^ 53 ->
  (if flt (of_Z z) (of_Z 0) && (borrow z k =? 0) &&
      negb (strict_eq (Num (of_Z ((z / 256 ^ Z.of_nat k) mod 256))) (Num (of_Z 0)))
   then 1 else borrow z k) = borrow z (S k).
Proof.
  intros Hz. pose proof (Z.mod_pos_bound (z / 256 ^ Z.of_nat k) 256 ltac:(lia)).
  rewrite flt_of_Z, strict_eq_num by lia. apply borrow_step.
Qed.

Lemma write_int_le_loop_run h this o z n k :
  view_ok h this -> 0 <= o -> o + Z.of_nat (S k) + Z.of_nat n <= vlen this ->
  Z.abs z <= 2 ^ 53 -> (S k + n <= 6)%nat ->
  write_int_le_loop n this (of_Z z) o (Z.of_nat (S k)) (of_Z (256 ^ Z.of_nat k)) (borrow z k)
      (store h this o (le_split (S k) z)) =
    (store h this o (le_split (S k + n) z), Ok tt).
Proof.
  intros Hv Ho. revert k. induction n as [|n IH]; intros k Hb Hz Hk; cbn [write_int_le_loop].
  { rewrite Nat.add_0_r. reflexivity. }
  rewrite mul_step by lia.
  erewrite bind_ok by (apply get_run; [apply view_ok_store, Hv|lia]).
  replace (o + Z.of_nat (S k) - 1) with (o + Z.of_nat k) by lia.
  erewrite byte_at_store; [|exact Hv|lia|rewrite le_split_length; lia|].
  2:{ rewrite le_split_snoc. rewrite lookup_app_r by (rewrite le_split_length; lia).
      rewrite le_split_length, Nat.sub_diag. reflexivity. }
  rewrite sub_run by lia. destruct Hv as (Hv0 & Hv1).
  erewrite bind_ok by (apply put_run; lia). rewrite int_byte by lia.
  rewrite store_snoc by (rewrite ?le_split_length; lia). rewrite <- le_split_snoc.
  replace (Z.of_nat (S k) + 1) with (Z.of_nat (S (S k))) by lia.
  rewrite IH by (exact (conj Hv0 Hv1) || lia).
  replace (S (S k) + n)%nat with (S k + S n)%nat by lia. reflexivity.
Qed.

Lemma write_int_be_loop_run h this o z n k :
  view_ok h this -> 0 <= o -> o + Z.of_nat (S k) + Z.of_nat n <= vlen this ->
  Z.abs z <= 2 ^ 53 -> (S k + n <= 6)%nat ->
  write_int_be_loop n this (of_Z z) o (of_Z (256 ^ Z.of_nat k)) (borrow z k)
      (store h this (o + Z.of_nat n) (reverse (le_split (S k) z))) =
    (store h this o (reverse (le_split (S k + n) z)), Ok tt).
Proof.
  intros Hv Ho. revert k. induction n as [|n IH]; intros k Hb Hz Hk; cbn [write_int_be_loop].
  { rewrite Nat.add_0_r. replace (o + Z.of_nat 0) with o by lia. reflexivity. }
  rewrite mul_step by lia.
  erewrite bind_ok by (apply get_run; [apply view_ok_store, Hv|lia]).
  replace (o + Z.of_nat n + 1) with (o + Z.of_nat (S n) + Z.of_nat 0) by lia.
  erewrite byte_at_store; [|exact Hv|lia|rewrite length_reverse, le_split_length; lia|].
  2:{ rewrite reverse_le_split_S. reflexivity. }
  rewrite sub_run by lia. destruct Hv as (Hv0 & Hv1).
  erewrite bind_ok by (apply put_run; lia). rewrite int_byte by lia.
  rewrite store_cons by lia. rewrite <- reverse_le_split_S.
  rewrite IH by (exact (conj Hv0 Hv1) || lia).
  replace (S (S k) + n)%nat with (S k + S n)%nat by lia. reflexivity.
Qed.

Section Writing.
Context (h : heap) (this : view) (offset noAssert : val) (o z : Z).
Hypothesis Hv : view_ok h this.
Hypothesis Hbuf : vbuffer this = true.
Hypothesis Hoff : offset_is offset o.
Hypothesis Ho : 0 <= o.

Lemma width_bound n : (n <= 6)%nat -> 0 <= 2 ^ (8 * Z.of_nat n - 1) <= 2 ^ 47 /\ 2 ^ (8 * Z.of_nat n) <= 2 ^ 48.
Proof.
  intros. split; [split; [apply Z.pow_nonneg; lia|]|]; apply Z.pow_le_mono_r; lia.
Qed.

Lemma in_range_abs sgn n : (n <= 6)%nat -> in_range sgn n z -> Z.abs z <= 2 ^ 48.
Proof.
  intros Hn. pose proof (width_bound n Hn). destruct sgn; cbn [in_range]; lia.
Qed.

Lemma assert_int_run ext max min :
  o + ext <= vlen this -> min <= z <= max -> Z.abs min <= 2 ^ 53 -> Z.abs max <= 2 ^ 53 ->
  assert_int noAssert this (of_Z z) o ext (of_Z max) (of_Z min) h = (h, Ok tt).
Proof.
  intros. apply assert_int_ok; [exact Hbuf| | |assumption]; rewrite flt_of_Z by lia; apply Z.ltb_ge; lia.
Qed.

(** Run the head of a writer, the check against [min] and [max] included. *)
Local Ltac head :=
  erewrite (bind_ok (toNum (Num (of_Z z)))) by reflexivity;
  rewrite (bind_ok _ _ _ _ _ (Hoff h));
  erewrite bind_ok by (apply assert_int_run; lia).
Local Ltac puts := repeat (erewrite bind_ok by (apply put_run; lia)).
Local Ltac chunks := rewrite ?low_byte_run, ?shifted_run by lia;
  destruct Hv as (Hv0 & _); rewrite ?store_join by (cbn [length app]; lia); rewrite ?store_join_before by (cbn [length app]; lia).

Lemma write8_run sgn : o + 1 <= vlen this -> in_range sgn 1 z ->
  write_method (Acc8 sgn) this (Num (of_Z z)) offset noAssert h =
    (store h this o (encode false 1 z), Ok (o + 1)).
Proof.
  intros Hb Hr. unfold encode, ordered. cbn [le_split].
  destruct sgn; cbn [write_method in_range] in *.
  - change (8 * Z.of_nat 1 - 1) with 7 in Hr. unfold writeInt8. head.
    unfold wrap_negative. rewrite flt_of_Z by lia. destruct (Z.ltb_spec z 0).
    + rewrite !fadd_of_Z by lia. puts. rewrite low_byte_run by lia.
      replace (255 + z + 1) with (z + 1 * 256) by lia. rewrite Z.mod_add by lia. reflexivity.
    + puts. rewrite low_byte_run by lia. reflexivity.
  - change (8 * Z.of_nat 1) with 8 in Hr. unfold writeUInt8. head. puts.
    rewrite low_byte_run by lia. reflexivity.
Qed.

Lemma write16_run sgn big : o + 2 <= vlen this -> in_range sgn 2 z ->
  write_method (Acc16 sgn big) this (Num (of_Z z)) offset noAssert h =
    (store h this o (encode big 2 z), Ok (o + 2)).
Proof.
  intros Hb Hr. unfold encode. rewrite le_split_2.
  destruct sgn, big; cbn [write_method in_range ordered] in *;
    [change (8 * Z.of_nat 2 - 1) with 15 in Hr|change (8 * Z.of_nat 2 - 1) with 15 in Hr
    |change (8 * Z.of_nat 2) with 16 in Hr|change (8 * Z.of_nat 2) with 16 in Hr];
    unfold writeInt16BE, writeInt16LE, writeUInt16BE, writeUInt16LE; head; puts; chunks; reflexivity.
Qed.

Lemma write32_run sgn big : o + 4 <= vlen this -> in_range sgn 4 z ->
  write_method (Acc32 sgn big) this (Num (of_Z z)) offset noAssert h =
    (store h this o (encode big 4 z), Ok (o + 4)).
Proof.
  intros Hb Hr. unfold encode.
  destruct sgn, big; cbn [write_method in_range ordered] in *;
    [change (8 * Z.of_nat 4 - 1) with 31 in Hr|change (8 * Z.of_nat 4 - 1) with 31 in Hr
    |change (8 * Z.of_nat 4) with 32 in Hr|change (8 * Z.of_nat 4) with 32 in Hr].
  - unfold writeInt32BE. head. unfold wrap_negative. rewrite flt_of_Z by lia.
    destruct (Z.ltb_spec z 0).
    + assert (E : le_split 4 z = le_split 4 (4294967295 + z + 1)).
      { rewrite <- (le_split_mod 4 z), <- (le_split_mod 4 (_ + 1)).
        change (256 ^ Z.of_nat 4) with (2 ^ 32).
        replace (4294967295 + z + 1) with (z + 1 * 2 ^ 32) by lia. rewrite Z.mod_add by lia. reflexivity. }
      rewrite E, !fadd_of_Z by lia. cbv zeta. puts. chunks. rewrite le_split_4. reflexivity.
    + cbv zeta. puts. chunks. rewrite le_split_4. reflexivity.
  - unfold writeInt32LE. head. puts. chunks. rewrite le_split_4. reflexivity.
  - unfold writeUInt32BE. head. puts. chunks. rewrite le_split_4. reflexivity.
  - unfold writeUInt32LE. head. puts. chunks. rewrite le_split_4. reflexivity.
Qed.

(** [Math.pow(2, 8 * n)] less one, and the signed limits. *)
Lemma unsigned_limit n : (1 <= n <= 6)%nat ->
  fsub (dy 1 (8 * Z.of_nat n)) (of_Z 1) = of_Z (2 ^ (8 * Z.of_nat n) - 1).
Proof. intros. do 7 (destruct n as [|n]; [try lia; vm_compute; reflexivity|]). lia. Qed.

Lemma signed_limits n : (1 <= n <= 6)%nat ->
  fsub (dy 1 (8 * Z.of_nat n - 1)) (of_Z 1) = of_Z (2 ^ (8 * Z.of_nat n - 1) - 1) /\
  fopp (dy 1 (8 * Z.of_nat n - 1)) = of_Z (- 2 ^ (8 * Z.of_nat n - 1)).
Proof. intros. do 7 (destruct n as [|n]; [try lia; vm_compute; split; reflexivity|]). lia. Qed.

Lemma writeN_run sgn big n : (1 <= n <= 6)%nat -> o + Z.of_nat n <= vlen this -> in_range sgn n z ->
  write_method (AccN sgn big n) this (Num (of_Z z)) offset noAssert h =
    (store h this o (encode big n z), Ok (o + Z.of_nat n)).
Proof.
  intros Hn Hb Hr. pose proof (width_bound n ltac:(lia)) as W.
  pose proof (in_range_abs sgn n ltac:(lia) Hr) as A.
  pose proof (fun x => toU32_run h (Z.of_nat n) x) as HU. unfold encode.
  destruct sgn, big; cbn [write_method in_range ordered] in *.
  - unfold writeIntBE. destruct (signed_limits n Hn) as [-> ->]. head.
    erewrite bind_ok by (apply put_run; lia). rewrite low_byte_run by lia.
    replace (o + (Z.of_nat n - 1)) with (o + Z.of_nat (n - 1)) by lia.
    replace (Z.to_nat (Z.of_nat n - 1)) with (n - 1)%nat by lia.
    pose proof (write_int_be_loop_run h this o z (n - 1) 0) as L. rewrite borrow_0 in L.
    erewrite bind_ok by (apply L; (assumption || lia)).
    replace (1 + (n - 1))%nat with n by lia. reflexivity.
  - unfold writeIntLE. destruct (signed_limits n Hn) as [-> ->]. head.
    erewrite bind_ok by (apply put_run; lia). rewrite low_byte_run by lia.
    replace (Z.to_nat (Z.of_nat n - 1)) with (n - 1)%nat by lia.
    pose proof (write_int_le_loop_run h this o z (n - 1) 0) as L. rewrite borrow_0 in L.
    erewrite bind_ok by (apply L; (assumption || lia)).
    replace (1 + (n - 1))%nat with n by lia. reflexivity.
  - unfold writeUIntBE. erewrite (bind_ok (toNum (Num (of_Z z)))) by reflexivity.
    rewrite (bind_ok _ _ _ _ _ (Hoff h)), (bind_ok _ _ _ _ _ (HU ltac:(lia))), unsigned_limit by lia.
    erewrite bind_ok by (apply assert_int_run; lia).
    erewrite bind_ok by (apply put_run; lia). rewrite low_byte_run by lia.
    replace (o + (Z.of_nat n - 1)) with (o + Z.of_nat (n - 1)) by lia.
    replace (Z.to_nat (Z.of_nat n - 1)) with (n - 1)%nat by lia.
    erewrite bind_ok by (apply (write_be_loop_run h this o z (n - 1) 1); (assumption || lia)).
    replace (1 + (n - 1))%nat with n by lia. reflexivity.
  - unfold writeUIntLE. erewrite (bind_ok (toNum (Num (of_Z z)))) by reflexivity.
    rewrite (bind_ok _ _ _ _ _ (Hoff h)), (bind_ok _ _ _ _ _ (HU ltac:(lia))), unsigned_limit by lia.
    erewrite bind_ok by (apply assert_int_run; lia).
    erewrite bind_ok by (apply put_run; lia). rewrite low_byte_run by lia.
    replace (Z.to_nat (Z.of_nat n - 1)) with (n - 1)%nat by lia.
    erewrite bind_ok by (apply (write_le_loop_run h this o z (n - 1) 1); (assumption || lia)).
    replace (1 + (n - 1))%nat with n by lia. reflexivity.
Qed.

Lemma int_write_run a : supported a -> o + Z.of_nat (width a) <= vlen this ->
  in_range (is_signed a) (width a) z ->
  write_method a this (Num (of_Z z)) offset noAssert h =
    (store h this o (encode (is_big a) (width a) z), Ok (o + Z.of_nat (width a))).
Proof.
  intros Hs Hb Hr. destruct a; [apply write8_run|apply write16_run|apply write32_run|apply writeN_run];
    assumption.
Qed.
End Writing.

Section WritingBig.
Context (h : heap) (this : view) (o z : Z).
Hypothesis Hv : view_ok h this.
Hypothesis Ho : 0 <= o.

Lemma le_split_add n m z' : le_split (n + m) z' = le_split n z' ++ le_split m (z' / 256 ^ Z.of_nat n).
Proof.
  revert z'. induction n as [|n IH]; intros z'; cbn [le_split Nat.add app].
  - rewrite Z.pow_0_r, Z.div_1_r. reflexivity.
  - rewrite IH, Z.div_div by (try apply Z.pow_pos_nonneg; lia).
    rewrite Nat2Z.inj_succ, Z.pow_succ_r by lia. reflexivity.
Qed.

Lemma sar_byte w k : 0 <= k <= 24 -> (sint32 w / 2 ^ k) mod 256 = (w / 2 ^ k) mod 256.
Proof.
  intros Hk. rewrite <- (mod_byte (sint32 w)), sint32_mod, mod_byte by lia. reflexivity.
Qed.

Lemma sar_store w k : 0 <= k <= 24 -> ToUint8 (of_Z (sint32 w / 2 ^ k)) = (w / 2 ^ k) mod 256.
Proof.
  intros Hk. assert (P : 0 < 2 ^ k) by (apply Z.pow_pos_nonneg; lia).
  pose proof (sint32_range w). rewrite ToUint8_of_Z; [apply sar_byte, Hk|].
  assert (- 2 ^ 31 <= sint32 w / 2 ^ k) by (apply Z.div_le_lower_bound; nia).
  assert (sint32 w / 2 ^ k < 2 ^ 31) by (apply Z.div_lt_upper_bound; nia). lia.
Qed.

Lemma word_bytes w : 0 <= w < 2 ^ 32 ->
  let w1 := sar32 (sint32 w) 8 in let w2 := sar32 w1 8 in let w3 := sar32 w2 8 in
  [ToUint8 (of_Z w); ToUint8 (of_Z w1); ToUint8 (of_Z w2); ToUint8 (of_Z w3)] = le_split 4 w.
Proof.
  intros Hw. cbv zeta. pose proof (sint32_range w). rewrite le_split_4.
  rewrite !sar32_div by lia. rewrite !Z.div_div by lia.
  change (2 ^ 8 * 2 ^ 8) with (2 ^ 16). change (2 ^ 16 * 2 ^ 8) with (2 ^ 24).
  rewrite ToUint8_of_Z by lia. rewrite !sar_store by lia. reflexivity.
Qed.

Lemma put_word_le w p g : 0 <= voff this -> 0 <= p -> p + 4 <= vlen this -> 0 <= w < 2 ^ 32 ->
  put_word this p 1 w g = (store g this p (le_split 4 w), Ok tt).
Proof.
  intros. unfold put_word. repeat (erewrite bind_ok by (apply put_run; lia)). rewrite put_run by lia.
  rewrite <- word_bytes by assumption.
  rewrite !store_join by (cbn [length app]; lia). reflexivity.
Qed.

Lemma put_word_be w p g : 0 <= voff this -> 3 <= p -> p < vlen this -> 0 <= w < 2 ^ 32 ->
  put_word this p (-1) w g = (store g this (p - 3) (reverse (le_split 4 w)), Ok tt).
Proof.
  intros. unfold put_word. repeat (erewrite bind_ok by (apply put_run; lia)). rewrite put_run by lia.
  rewrite <- word_bytes by assumption.
  rewrite !store_join_before by (cbn [length app]; lia).
  replace (p + 3 * -1) with (p - 3) by lia. reflexivity.
Qed.

Lemma low_word x : 0 <= Z.land x 4294967295 < 2 ^ 32 /\ le_split 4 (Z.land x 4294967295) = le_split 4 x.
Proof.
  change 4294967295 with (2 ^ 32 - 1). rewrite land_mask by lia. split; [apply Z.mod_pos_bound; lia|].
  apply (le_split_mod 4 x).
Qed.

Lemma js_lt_big a b : js_lt (BigInt a) (BigInt b) = (a <? b).
Proof. cbn [js_lt big_compare]. unfold Z.ltb. destruct (a ?= b); reflexivity. Qed.

Lemma has_index_run i : 0 <= i < vlen this -> vlen this <= 2 ^ 53 -> has_index this (of_Z i) = true.
Proof.
  intros. unfold has_index. rewrite to_integer_of_Z, feq_of_Z, Z.eqb_refl by lia. zbool. reflexivity.
Qed.

Lemma checkIntBI_run min max :
  min <= z <= max -> o + 8 <= vlen this -> vlen this < 2 ^ 32 ->
  checkIntBI (BigInt z) min max this (Num (of_Z o)) 7 h = (h, Ok tt).
Proof.
  intros Hz Hb Hl. unfold checkIntBI. rewrite !js_lt_big. zbool. cbn [orb].
  unfold checkBounds. erewrite (bind_ok (validateNumber _ _)) by reflexivity.
  erewrite (bind_ok (toNum _)) by reflexivity.
  rewrite fadd_of_Z by lia. rewrite !has_index_run by lia. reflexivity.
Qed.

Lemma wrtBig_run (big : bool) min max :
  o + 8 <= vlen this -> min <= z <= max ->
  (if big then wrtBigUInt64BE else wrtBigUInt64LE) this (BigInt z) (Num (of_Z o)) min max h =
    (store h this o (encode big 8 z), Ok (o + 8)).
Proof.
  intros Hb Hz. assert (L : vlen this < 2 ^ 32) by (destruct Hv as (?&?&?&?&?); lia).
  destruct (low_word z) as [B0 E0]. destruct (low_word (Z.shiftr z 32)) as [B1 E1].
  assert (Hv0 : 0 <= voff this) by apply Hv.
  rewrite Z.shiftr_div_pow2 in B1, E1 by lia. change (2 ^ 32) with (256 ^ Z.of_nat 4) in E1.
  unfold encode. rewrite (le_split_add 4 4). rewrite <- E1, <- E0.
  destruct big; cbn [ordered]; [unfold wrtBigUInt64BE|unfold wrtBigUInt64LE];
    erewrite bind_ok by (apply checkIntBI_run; lia);
    erewrite (bind_ok (toNum _)) by reflexivity; cbv zeta; rewrite to_integer_of_Z by lia;
    erewrite (bind_ok (bigint_operand _)) by reflexivity; rewrite Z.shiftr_div_pow2 by lia.
  - erewrite bind_ok by (apply put_word_be; lia). erewrite bind_ok by (apply put_word_be; lia).
    rewrite store_join_before by (rewrite ?length_reverse, ?le_split_length; lia).
    replace (o + 3 - 3) with o by lia. rewrite reverse_app. reflexivity.
  - erewrite bind_ok by (apply put_word_le; lia). erewrite bind_ok by (apply put_word_le; lia).
    rewrite store_join by (rewrite ?le_split_length; lia). reflexivity.
Qed.

Lemma write_big_run sgn big :
  o + 8 <= vlen this -> in_range sgn 8 z ->
  write_big sgn big this (BigInt z) (Num (of_Z o)) h = (store h this o (encode big 8 z), Ok (o + 8)).
Proof.
  intros Hb Hr. unfold in_range in Hr. change (8 * Z.of_nat 8) with 64 in Hr.
  destruct sgn, big; [apply (wrtBig_run true)|apply (wrtBig_run false)
                     |apply (wrtBig_run true)|apply (wrtBig_run false)]; lia.
Qed.
End WritingBig.

(** ** Errors *)

#[export] Instance in_range_dec sgn n z : Decision (in_range sgn n z).
Proof. destruct sgn; unfold in_range; apply _. Defined.

Lemma offset_is_bounds v o : offset_is v o -> 0 <= o < 2 ^ 32.
Proof.
  intros H. specialize (H (Heap ∅ 0)). unfold toU32, bind in H.
  destruct (toNum v (Heap ∅ 0)) as [h [n|e]]; [|discriminate].
  unfold ret in H. injection H as _ <-. apply Z.mod_pos_bound. lia.
Qed.

(** The bounds a writer passes to [checkInt]. *)
Definition min_of (sgn : bool) (n : nat) : Z := if sgn then - 2 ^ (8 * Z.of_nat n - 1) else 0.
Definition max_of (sgn : bool) (n : nat) : Z :=
  if sgn then 2 ^ (8 * Z.of_nat n - 1) - 1 else 2 ^ (8 * Z.of_nat n) - 1.

Lemma in_range_bounds sgn n z : in_range sgn n z <-> min_of sgn n <= z <= max_of sgn n.
Proof. destruct sgn; unfold in_range, min_of, max_of; lia. Qed.

Section Heads.
Context (h : heap) (this : view) (offset noAssert : val) (o : Z).
Hypothesis Hoff : offset_is offset o.

(** Every reader checks its bounds before it reads, every writer before it writes. *)
Lemma read_head a : supported a ->
  exists K, read_method a this offset noAssert h =
            bind (assert_offset noAssert o (Z.of_nat (width a)) this) K h.
Proof.
  unfold supported. intros Hs.
  destruct a as [[]|[] []|[] []|[] [] n]; cbn [read_method width] in *;
    unfold readUInt8, readInt8, readUInt16BE, readUInt16LE, readInt16BE, readInt16LE, readUInt32BE,
      readUInt32LE, readInt32BE, readInt32LE, readUIntBE, readUIntLE, readIntBE, readIntLE;
    rewrite (bind_ok _ _ _ _ _ (Hoff h)); try (erewrite bind_ok by (apply toU32_run; lia));
    eexists; reflexivity.
Qed.

Lemma write_head a z : supported a ->
  exists K, write_method a this (Num (of_Z z)) offset noAssert h =
            bind (assert_int noAssert this (of_Z z) o (Z.of_nat (width a))
                    (of_Z (max_of (is_signed a) (width a))) (of_Z (min_of (is_signed a) (width a)))) K h.
Proof.
  unfold supported. intros Hs.
  destruct a as [[]|[] []|[] []|[] [] n]; cbn [write_method width is_signed max_of min_of] in *;
    unfold writeUInt8, writeInt8, writeUInt16BE, writeUInt16LE, writeInt16BE, writeInt16LE,
      writeUInt32BE, writeUInt32LE, writeInt32BE, writeInt32LE, writeUIntBE, writeUIntLE,
      writeIntBE, writeIntLE;
    erewrite (bind_ok (toNum _)) by reflexivity;
    rewrite (bind_ok _ _ _ _ _ (Hoff h)); try (erewrite bind_ok by (apply toU32_run; lia));
    cbv zeta; rewrite ?unsigned_limit by lia;
    try rewrite (proj1 (signed_limits n Hs)), (proj2 (signed_limits n Hs));
    eexists; reflexivity.
Qed.
End Heads.

Lemma max_of_bound sgn n : (1 <= n <= 6)%nat ->
  Z.abs (max_of sgn n) <= 2 ^ 53 /\ Z.abs (min_of sgn n) <= 2 ^ 53.
Proof.
  intros. pose proof (width_bound n ltac:(lia)).
  assert (0 < 2 ^ (8 * Z.of_nat n)) by (apply Z.pow_pos_nonneg; lia).
  destruct sgn; unfold max_of, min_of; lia.
Qed.

Lemma assert_int_spec noAssert this z o ext max min h :
  truthy noAssert = false -> Z.abs z <= 2 ^ 53 -> Z.abs max <= 2 ^ 53 /\ Z.abs min <= 2 ^ 53 ->
  assert_int noAssert this (of_Z z) o ext (of_Z max) (of_Z min) h =
    (h, if negb (vbuffer this) then Throw (ETypeError [Txt "buffer argument must be a Buffer instance"])
        else if decide (min <= z <= max) then
          if vlen this <? o + ext then Throw (ERangeError [Txt "Index out of range"]) else Ok tt
        else Throw (ERangeError [Txt "value argument is out of bounds"])).
Proof.
  intros Hn Hz [Hx Hm]. unfold assert_int, checkInt. rewrite Hn. destruct (vbuffer this); cbn [negb]; [|reflexivity].
  rewrite !flt_of_Z by assumption. case_decide as D.
  - zbool. cbn [orb]. destruct (vlen this <? o + ext); reflexivity.
  - destruct (Z.ltb_spec max z), (Z.ltb_spec z min); try lia; reflexivity.
Qed.

(** ** 64-bit errors *)

(** The range text of [checkIntBI] for the two pairs of bounds it is given. *)
Definition bigint_range (sgn : bool) : list part :=
  if sgn then [Txt ">= -(2n ** "; Of (Num (of_Z 63)); Txt "n) and < 2 ** "; Of (Num (of_Z 63)); Txt "n"]
  else [Txt ">= 0n and < 2n ** "; Of (Num (of_Z 64)); Txt "n"].

Lemma has_index_beyond this i :
  0 <= vlen this <= i -> i <= 2 ^ 53 -> has_index this (of_Z i) = false.
Proof.
  intros. unfold has_index. rewrite to_integer_of_Z by lia. rewrite (proj2 (Z.ltb_ge i _)) by lia.
  apply andb_false_r.
Qed.

Section BigErrors.
Context (h : heap) (this : view) (z : Z) (offset : val) (sgn : bool).

Lemma write_big_head big :
  exists K, write_big sgn big this (BigInt z) offset h =
    bind (checkIntBI (BigInt z) (min_of sgn 8) (max_of sgn 8) this (default_offset offset) 7) K h.
Proof. destruct sgn, big; eexists; reflexivity. Qed.

Lemma checkIntBI_value : ~ in_range sgn 8 z ->
  checkIntBI (BigInt z) (min_of sgn 8) (max_of sgn 8) this offset 7 h =
    (h, Throw (ERR_OUT_OF_RANGE "value" (bigint_range sgn) (BigInt z))).
Proof.
  rewrite in_range_bounds. intros R. unfold checkIntBI. rewrite !js_lt_big.
  replace ((max_of sgn 8 <? z) || (z <? min_of sgn 8)) with true.
  2:{ destruct (Z.ltb_spec (max_of sgn 8) z), (Z.ltb_spec z (min_of sgn 8)); try reflexivity; lia. }
  destruct sgn; reflexivity.
Qed.

Lemma checkIntBI_bounds : in_range sgn 8 z ->
  checkIntBI (BigInt z) (min_of sgn 8) (max_of sgn 8) this offset 7 h = checkBounds this offset 7 h.
Proof.
  intros R. apply in_range_bounds in R. unfold checkIntBI. rewrite !js_lt_big. zbool. reflexivity.
Qed.
End BigErrors.

(** ** Offsets of the 64-bit writers *)

(** The integer a Number is, when it is one. *)
Definition whole (x : num) : option Z :=
  match x with
  | S754_zero _ => Some 0
  | S754_finite s m e =>
      if 0 <=? e then Some (cond_Zopp s (Z.pos m * 2 ^ e))
      else if Z.pos m mod 2 ^ (- e) =? 0 then Some (cond_Zopp s (Z.pos m / 2 ^ (- e)))
      else None
  | _ => None
  end.

Definition is_infinite (x : num) : bool :=
  match x with S754_infinity _ => true | _ => false end.

(** A value whose Number, if it is one, is a binary64 value. *)
Definition number_ok (v : val) : Prop :=
  match v with Num x => valid_binary prec emax x = true | _ => True end.

(** Where a 64-bit writer of a view of [len] bytes stores, or what it throws. *)
Definition big_place (len : Z) (offset : val) : outcome exn Z :=
  match (match offset with Undefined => Num (of_Z 0) | v => v end) with
  | Num x =>
      let beyond :=
        if len <? 8 then ERR_BUFFER_OUT_OF_BOUNDS None
        else ERR_OUT_OF_RANGE "offset" [Txt ">= 0"; Txt " and <= "; Of (Num (of_Z (len - 8)))] (Num x) in
      match whole x with
      | Some o => if (0 <=? o) && (o + 8 <=? len) then Ok o else Throw beyond
      | None => if is_infinite x then Throw beyond
                else Throw (ERR_OUT_OF_RANGE "offset" [Txt "an integer"] (Num x))
      end
  | _ => Throw (ERR_INVALID_ARG_TYPE "offset" (Str (js "number")))
  end.

Lemma finite_is_dy s m e : bounded prec emax m e = true ->
  fits (cond_Zopp s (Z.pos m)) e /\ dy (cond_Zopp s (Z.pos m)) e = S754_finite s m e.
Proof.
  intros Hb. destruct (bounded_inv m e Hb) as [Hf He]. split.
  - unfold fexp, emin, prec, emax in Hf. pose proof (digits_bounds m) as [_ Hu].
    pose proof (Z.pow_le_mono_r 2 (Z.pos (digits2_pos m)) 53). apply fits_small; [|lia].
    destruct s; cbn [cond_Zopp]; lia.
  - unfold dy, binary_normalize. destruct s; cbn [cond_Zopp Z.opp]; apply round_exact; auto using dyeq_refl.
Qed.

(** [of_Z (to_integer x)] is [x] exactly for the integers. *)
Lemma feq_whole s m e : bounded prec emax m e = true ->
  let x := S754_finite s m e in
  feq (of_Z (to_integer x)) x = (match whole x with Some _ => true | None => false end) /\
  (forall o, whole x = Some o -> to_integer x = o /\ of_Z o = x).
Proof.
  intros Hb x. destruct (finite_is_dy s m e Hb) as [Fx Ex]. unfold x. cbn [whole to_integer].
  set (z := cond_Zopp s (Z.pos m)) in *.
  destruct (Z.leb_spec 0 e) as [He|He].
  - replace (if s then - (Z.pos m * 2 ^ e) else Z.pos m * 2 ^ e) with (z * 2 ^ e)
      by (unfold z; destruct s; cbn [cond_Zopp]; lia).
    replace (cond_Zopp s (Z.pos m * 2 ^ e)) with (z * 2 ^ e) by (unfold z; destruct s; cbn [cond_Zopp]; lia).
    assert (D : dyeq z e (z * 2 ^ e) 0).
    { exists 0. split; [lia|]. split; [lia|]. rewrite !Z.sub_0_r. lia. }
    assert (E : of_Z (z * 2 ^ e) = S754_finite s m e).
    { unfold of_Z. rewrite <- Ex. symmetry. apply dy_dyeq; assumption. }
    split; [|intros o [= <-]; auto]. rewrite E, <- Ex. unfold feq, SFeqb.
    rewrite SFcompare_dy, Z.compare_refl by exact Fx. reflexivity.
  - set (q := Z.pos m / 2 ^ (- e)). assert (P : 0 < 2 ^ (- e)) by (apply Z.pow_pos_nonneg; lia).
    pose proof (Z.div_mod (Z.pos m) (2 ^ (- e)) ltac:(lia)) as DM. fold q in DM.
    pose proof (Z.mod_pos_bound (Z.pos m) (2 ^ (- e)) P) as MB.
    assert (Q : 0 <= q <= Z.pos m) by nia.
    change (if s then - q else q) with (cond_Zopp s q).
    assert (Z53 : Z.pos m < 2 ^ 53).
    { destruct (bounded_inv m e Hb) as [Hf _]. unfold fexp, emin, prec, emax in Hf.
      pose proof (digits_bounds m) as [_ Hu]. pose proof (Z.pow_le_mono_r 2 (Z.pos (digits2_pos m)) 53). lia. }
    assert (D : dyeq (cond_Zopp s q) 0 (cond_Zopp s q * 2 ^ (- e)) e).
    { exists e. split; [lia|]. split; [lia|]. rewrite Z.sub_diag. replace (0 - e) with (- e) by lia. lia. }
    assert (Fq : fits (cond_Zopp s q) 0) by (apply fits_int; destruct s; cbn [cond_Zopp]; lia).
    assert (E : of_Z (cond_Zopp s q) = dy (cond_Zopp s q * 2 ^ (- e)) e) by (apply dy_dyeq; assumption).
    split.
    + rewrite E, <- Ex. unfold feq, SFeqb. rewrite SFcompare_dy by (first [exact Fx|eapply fits_dyeq; eassumption]).
      destruct (Z.eqb_spec (Z.pos m mod 2 ^ (- e)) 0) as [M|M].
      * replace (cond_Zopp s q * 2 ^ (- e)) with z by (unfold z; destruct s; cbn [cond_Zopp]; lia).
        rewrite Z.compare_refl. reflexivity.
      * destruct (Z.compare_spec (cond_Zopp s q * 2 ^ (- e)) z) as [C|C|C]; try reflexivity.
        exfalso. apply M. unfold z in C. destruct s; cbn [cond_Zopp] in C; lia.
    + intros o. destruct (Z.eqb_spec (Z.pos m mod 2 ^ (- e)) 0) as [M|M]; [|discriminate]. intros [= <-].
      split; [reflexivity|]. rewrite E, <- Ex. f_equal. unfold z. destruct s; cbn [cond_Zopp]; lia.
Qed.

Section Offsets.
Context (h : heap) (this : view) (x : num).
Hypothesis Hl : 0 <= vlen this < 2 ^ 32.
Hypothesis Hx : valid_binary prec emax x = true.

Lemma whole_integer o : whole x = Some o -> to_integer x = o /\ feq (of_Z o) x = true.
Proof using Hx.
  destruct x as [s| | |s m e]; try discriminate; [intros [= <-]; split; [reflexivity|destruct s; reflexivity]|].
  intros W. destruct (feq_whole s m e Hx) as [F G]. destruct (G o W) as [G1 _]. split; [exact G1|].
  rewrite <- G1, F, W. reflexivity.
Qed.

Lemma has_index_whole :
  has_index this x = match whole x with Some o => (0 <=? o) && (o <? vlen this) | None => false end.
Proof using Hx.
  destruct (whole x) as [o|] eqn:W.
  - destruct (whole_integer o W) as [T F]. unfold has_index. rewrite T, F. reflexivity.
  - unfold has_index. destruct x as [s|s| |s m e]; [discriminate|destruct s; reflexivity|reflexivity|].
    destruct (feq_whole s m e Hx) as [F _]. rewrite F, W. reflexivity.
Qed.

Lemma is_floor_whole : is_floor x = match whole x with Some _ => true | None => is_infinite x end.
Proof using Hx.
  destruct x as [s|s| |s m e]; try reflexivity.
  unfold is_floor. destruct (feq_whole s m e Hx) as [F _]. rewrite F. destruct (whole _); reflexivity.
Qed.

Lemma next_index o : whole x = Some o -> 0 <= o < vlen this -> fadd x (of_Z 7) = of_Z (o + 7).
Proof using Hl Hx.
  destruct x as [s| | |s m e]; try discriminate; intros W B.
  - injection W as <-. destruct s; reflexivity.
  - destruct (feq_whole s m e Hx) as [_ G]. destruct (G o W) as [_ <-]. apply fadd_of_Z; lia.
Qed.

Lemma boundsError_place :
  match whole x with Some o => vlen this < o + 8 \/ o < 0 | None => True end ->
  @boundsError unit x (vlen this - 8) None h =
    (h, match big_place (vlen this) (Num x) with Ok _ => Ok tt | Throw e => Throw e end).
Proof using Hl Hx.
  intros O. unfold boundsError, big_place. rewrite is_floor_whole. destruct (whole x) as [o|]; cbn [negb].
  - replace ((0 <=? o) && (o + 8 <=? vlen this)) with false by (symmetry; apply andb_false_iff; lia).
    destruct (Z.ltb_spec (vlen this) 8); zbool; reflexivity.
  - destruct (is_infinite x); cbn [negb]; [|reflexivity].
    destruct (Z.ltb_spec (vlen this) 8); zbool; reflexivity.
Qed.

Lemma checkBounds_place :
  checkBounds this (Num x) 7 h =
    (h, match big_place (vlen this) (Num x) with Ok _ => Ok tt | Throw e => Throw e end).
Proof using Hl Hx.
  unfold checkBounds. erewrite (bind_ok (validateNumber _ _)) by reflexivity.
  erewrite (bind_ok (toNum _)) by reflexivity. rewrite has_index_whole.
  change (7 + 1) with 8.
  destruct (whole x) as [o|] eqn:W; [|apply boundsError_place; rewrite W; exact I].
  destruct ((0 <=? o) && (o <? vlen this)) eqn:B; cbn [negb orb];
    [|apply boundsError_place; rewrite W; lia].
  rewrite (next_index o W) by lia. destruct (Z.le_gt_cases (o + 8) (vlen this)) as [L|L].
  - rewrite has_index_run by lia. unfold big_place. rewrite W. zbool. reflexivity.
  - rewrite has_index_beyond by lia. apply boundsError_place. rewrite W. lia.
Qed.
End Offsets.

(** A 64-bit writer depends on its offset only through the check and the
    integer the offset is. *)
Lemma write_big_at sgn big h this z x o :
  to_integer x = o -> 0 <= o -> o + 8 <= vlen this < 2 ^ 32 -> in_range sgn 8 z ->
  checkBounds this (Num x) 7 h = (h, Ok tt) ->
  write_big sgn big this (BigInt z) (Num x) h = write_big sgn big this (BigInt z) (Num (of_Z o)) h.
Proof.
  intros T O1 O2 R C. rewrite <- (checkIntBI_bounds h this z _ sgn R) in C.
  pose proof (checkIntBI_run h this o z O1 (min_of sgn 8) (max_of sgn 8)
    (proj1 (in_range_bounds sgn 8 z) R) ltac:(lia) ltac:(lia)) as C'.
  destruct sgn, big; cbn [write_big];
    unfold writeBigInt64BE, writeBigInt64LE, writeBigUInt64BE, writeBigUInt64LE, wrtBigUInt64BE, wrtBigUInt64LE;
    rewrite (bind_ok _ _ _ _ _ C), (bind_ok _ _ _ _ _ C');
    erewrite !(bind_ok (toNum _)) by reflexivity; cbv zeta; rewrite T, to_integer_of_Z by lia; reflexivity.
Qed.

(** A 64-bit writer of a value in range stores at its place or throws. *)
Lemma write_big_place sgn big h this z offset :
  view_ok h this -> in_range sgn 8 z -> number_ok offset ->
  write_big sgn big this (BigInt z) offset h =
    match big_place (vlen this) offset with
    | Ok o => (store h this o (encode big 8 z), Ok (o + 8))
    | Throw e => (h, Throw e)
    end.
Proof.
  intros Hv R Hn. assert (L : 0 <= vlen this < 2 ^ 32) by (destruct Hv as (?&?&?&?&?); lia).
  pose proof (checkIntBI_bounds h this z (default_offset offset) sgn R) as C.
  assert (D : big_place (vlen this) offset = big_place (vlen this) (default_offset offset)
              /\ write_big sgn big this (BigInt z) offset h = write_big sgn big this (BigInt z) (default_offset offset) h)
    by (destruct offset, sgn, big; split; reflexivity).
  assert (Hd : number_ok (default_offset offset)) by (destruct offset; first [exact Hn|exact I|reflexivity]).
  destruct D as [-> ->].
  destruct (write_big_head h this z (default_offset offset) sgn big) as [K E].
  replace (default_offset (default_offset offset)) with (default_offset offset) in E by (destruct offset; reflexivity).
  assert (U : default_offset offset <> Undefined) by (destruct offset; discriminate).
  destruct (default_offset offset) as [| | |x| | | | | | |]; [contradiction| | | | | | | | | |].
  all: try (rewrite E; apply bind_throw; rewrite C; reflexivity).
  rewrite checkBounds_place in C by assumption.
  pose proof (checkBounds_place h this x L Hd) as B.
  destruct (big_place (vlen this) (Num x)) as [o|e] eqn:P; [|rewrite E; apply bind_throw, C].
  assert (W : whole x = Some o /\ 0 <= o /\ o + 8 <= vlen this).
  { unfold big_place in P. destruct (whole x) as [o'|]; [|destruct (is_infinite x); discriminate].
    destruct ((0 <=? o') && (o' + 8 <=? vlen this)) eqn:I; [|discriminate]. injection P as <-. split; [reflexivity|lia]. }
  destruct W as (W & O1 & O2). destruct (whole_integer x Hd o W) as [T _].
  rewrite (write_big_at sgn big h this z x o) by (assumption || lia).
  apply write_big_run; (assumption || lia).
Qed.

(** ** Digit grouping *)

(** Digits from the last one, an underscore after every three that are not the last. *)
Fixpoint group (l : jsstr) : jsstr :=
  match l with
  | a :: b :: c :: (_ :: _) as t => a :: b :: c :: 95 :: group t
  | _ => l
  end.

Lemma group_step a b c l : l <> [] -> group (a :: b :: c :: l) = a :: b :: c :: 95 :: group l.
Proof. destruct l; [contradiction|reflexivity]. Qed.

Lemma group_short l : (length l < 4)%nat -> group l = l.
Proof. destruct l as [|a [|b [|c [|d l]]]]; cbn; try reflexivity. lia. Qed.

Lemma separate_group fuel pre ds k res :
  (k <= fuel)%nat -> (k <= length ds)%nat ->
  separate fuel (pre ++ ds) (Z.of_nat (length pre + k)) (Z.of_nat (length pre)) res =
    pre ++ reverse (group (reverse (take k ds))) ++ res.
Proof.
  revert k res. induction fuel as [|fuel IH]; intros k res Hk Hl; cbn [separate].
  { replace k with O by lia. rewrite Nat.add_0_r, Nat2Z.id, take_app_length. reflexivity. }
  destruct (Z.leb_spec (Z.of_nat (length pre) + 4) (Z.of_nat (length pre + k))) as [H|H].
  - replace (Z.of_nat (length pre + k) - 3) with (Z.of_nat (length pre + (k - 3))) by lia.
    rewrite IH by lia. rewrite Nat2Z.id, drop_app_add.
    destruct (drop (k - 3) ds) as [|a [|b [|c t]]] eqn:E;
      apply (f_equal length) in E as E'; rewrite length_drop in E'; cbn [length] in E'; try lia.
    cbn [take]. rewrite firstn_O.
    replace (take k ds) with (take (k - 3) ds ++ [a; b; c]).
    2:{ rewrite <- (take_drop (k - 3) ds) at 2. rewrite E, take_app_ge by (rewrite length_take; lia).
        rewrite length_take. replace (k - (k - 3) `min` length ds)%nat with 3%nat by lia. reflexivity. }
    rewrite reverse_app. change (reverse [a; b; c]) with [c; b; a]. cbn [app].
    rewrite group_step, !reverse_cons, <- !app_assoc; [reflexivity|].
    intros N. apply (f_equal length) in N. rewrite length_reverse, length_take in N. cbn in N. lia.
  - rewrite Nat2Z.id, take_app_add, group_short by (rewrite length_reverse, length_take; lia).
    rewrite reverse_involutive, <- app_assoc. reflexivity.
Qed.

Lemma separators_digits ds : Forall (fun c => c <> 45) ds ->
  addNumericalSeparator ds = reverse (group (reverse ds)).
Proof.
  intros H. unfold addNumericalSeparator. pose proof (separate_group (length ds) [] ds (length ds) []) as S.
  cbn [app length Nat.add] in S. rewrite firstn_all, app_nil_r in S.
  replace (match zget ds 0 with Some 45 => 1 | _ => 0 end) with 0; [apply S; lia|].
  unfold zget. cbn. destruct H as [|c l Hc H]; [reflexivity|]. cbn.
  destruct (Z.eq_dec c 45); [contradiction|].
  destruct c as [|p|p]; try reflexivity. do 6 (destruct p; try reflexivity). contradiction.
Qed.

Lemma separators_negative ds :
  addNumericalSeparator (45 :: ds) = 45 :: reverse (group (reverse ds)).
Proof.
  unfold addNumericalSeparator. pose proof (separate_group (S (length ds)) [45] ds (length ds) []) as S.
  cbn [app length] in S. rewrite firstn_all, app_nil_r in S. cbn [length].
  replace (zget (45 :: ds) 0) with (Some 45) by reflexivity. apply S; lia.
Qed.

(** Grouping adds only underscores. *)
Lemma filter_group l : Forall (fun c => c <> 95) l -> filter (fun c => c <> 95) (group l) = l.
Proof.
  induction (well_founded_ltof _ length l) as [l _ IH]. intros H.
  destruct l as [|a [|b [|c [|d l]]]];
    try (rewrite group_short by (cbn; lia); clear IH;
         induction H as [|x l Hx H IHl]; [reflexivity|]; rewrite filter_cons_True by exact Hx;
         f_equal; exact IHl).
  rewrite group_step by discriminate. apply Forall_cons in H as [Ha H].
  apply Forall_cons in H as [Hb H]. apply Forall_cons in H as [Hc H].
  rewrite !filter_cons_True, filter_cons_False by (assumption || (intros X; apply X; reflexivity)).
  do 3 f_equal. apply IH, H. unfold ltof. cbn. lia.
Qed.

(** ** Properties *)

(** C20: a checked integer read, of any width, signedness and byte order, answers
    the two's-complement value of the bytes at the offset, or throws
    RangeError when they do not all lie in the Buffer; it never changes the
    store. *)
Theorem int_read_spec a h this offset noAssert o :
  heap_ok h -> view_ok h this -> offset_is offset o -> supported a -> truthy noAssert = false ->
  read_method a this offset noAssert h =
    (h, if vlen this <? o + Z.of_nat (width a)
        then Throw (ERangeError [Txt "Trying to access beyond buffer length"])
        else Ok (Num (of_Z (decode (is_big a) (is_signed a) (seg h this o (width a)))))).
Proof.
  intros Hh Hv Hoff Hs Hn. pose proof (offset_is_bounds _ _ Hoff) as Ho.
  destruct (Z.ltb_spec (vlen this) (o + Z.of_nat (width a))).
  - destruct (read_head h this offset noAssert o Hoff a Hs) as [K ->]. apply bind_throw.
    unfold assert_offset. rewrite Hn. apply checkOffset_beyond; lia.
  - apply read_run; (assumption || lia).
Qed.

(** C19: a checked integer write throws TypeError on a view that is not a Buffer,
    RangeError on a value the width cannot hold, RangeError on bytes outside
    the Buffer, in that order and without changing the store; otherwise it
    stores the two's-complement bytes of the value in the method's byte order
    and answers the offset after them. *)
Theorem int_write_spec a h this z offset noAssert o :
  view_ok h this -> offset_is offset o -> supported a -> truthy noAssert = false -> Z.abs z <= 2 ^ 53 ->
  write_method a this (Num (of_Z z)) offset noAssert h =
    if negb (vbuffer this) then
      (h, Throw (ETypeError [Txt "buffer argument must be a Buffer instance"]))
    else if decide (in_range (is_signed a) (width a) z) then
      if vlen this <? o + Z.of_nat (width a) then (h, Throw (ERangeError [Txt "Index out of range"]))
      else (store h this o (encode (is_big a) (width a) z), Ok (o + Z.of_nat (width a)))
    else (h, Throw (ERangeError [Txt "value argument is out of bounds"])).
Proof.
  intros Hv Hoff Hs Hn Hz. pose proof (offset_is_bounds _ _ Hoff) as Ho.
  destruct (write_head h this offset noAssert o Hoff a z Hs) as [K E].
  pose proof (assert_int_spec noAssert this z o (Z.of_nat (width a)) (max_of (is_signed a) (width a))
                (min_of (is_signed a) (width a)) h Hn Hz (max_of_bound _ _ Hs)) as A.
  destruct (vbuffer this) eqn:B; cbn [negb] in *; [|rewrite E; apply bind_throw, A].
  destruct (decide (in_range (is_signed a) (width a) z)) as [R|R].
  - rewrite decide_True in A by (apply in_range_bounds, R).
    destruct (Z.ltb_spec (vlen this) (o + Z.of_nat (width a))); [rewrite E; apply bind_throw, A|].
    apply int_write_run; (assumption || lia).
  - rewrite decide_False in A by (rewrite <- in_range_bounds; exact R). rewrite E. apply bind_throw, A.
Qed.

(** C2: writing an integer the width holds and reading it back with the matching
    reader gives the integer, for every width, signedness and byte order; the
    bytes outside the written ones keep their values. *)
Theorem int_roundtrip a h this z offset noAssert o :
  heap_ok h -> view_ok h this -> vbuffer this = true -> offset_is offset o -> supported a ->
  o + Z.of_nat (width a) <= vlen this -> in_range (is_signed a) (width a) z ->
  exists h', write_method a this (Num (of_Z z)) offset noAssert h = (h', Ok (o + Z.of_nat (width a))) /\
    read_method a this offset noAssert h' = (h', Ok (Num (of_Z z))) /\
    bytes h' this = splice o (encode (is_big a) (width a) z) (bytes h this).
Proof.
  intros Hh Hv Hbuf Hoff Hs Hb Hr. pose proof (offset_is_bounds _ _ Hoff) as Ho.
  set (l := encode (is_big a) (width a) z).
  assert (Ll : length l = width a) by apply length_encode.
  exists (store h this o l). split; [apply int_write_run; (assumption || lia)|]. split.
  - rewrite (read_run _ _ _ _ o); [|apply heap_ok_store; [assumption|assumption|apply encode_bytes]
      |apply view_ok_store, Hv|assumption|lia|assumption|assumption].
    rewrite <- Ll at 1. rewrite seg_store by (assumption || lia).
    unfold l. rewrite decode_encode by exact Hr. reflexivity.
  - apply bytes_store; (assumption || lia).
Qed.

(** The 64-bit writers and readers: a BigInt in range comes back from the
    matching reader, and the bytes outside the eight written ones are kept. *)
Theorem bigint_roundtrip sgn big h this z o :
  heap_ok h -> view_ok h this -> 0 <= o -> o + 8 <= vlen this -> in_range sgn 8 z ->
  exists h', write_big sgn big this (BigInt z) (Num (of_Z o)) h = (h', Ok (o + 8)) /\
    read_big sgn big this (Num (of_Z o)) h' = (h', Ok (BigInt z)) /\
    bytes h' this = splice o (encode big 8 z) (bytes h this).
Proof.
  intros Hh Hv Ho Hb Hr. assert (L : vlen this < 2 ^ 32) by (destruct Hv as (?&?&?&?&?); lia).
  set (l := encode big 8 z). assert (Ll : length l = 8%nat) by apply length_encode.
  exists (store h this o l). split; [apply write_big_run; assumption|]. split.
  - rewrite (read_big_run _ _ _ o); [|apply heap_ok_store; [assumption|assumption|apply encode_bytes]
      |apply view_ok_store, Hv|apply offset_is_num; lia|lia|lia].
    rewrite <- Ll at 1. rewrite seg_store by (assumption || lia).
    unfold l. rewrite decode_encode by exact Hr. reflexivity.
  - apply bytes_store; (assumption || lia).
Qed.

(** C30: the 64-bit readers and writers of a BigInt at every offset. A reader
    takes the offset modulo 2^32 and throws when the eight bytes there are not
    all in the view. A writer checks the value first: out of range, it throws
    ERR_OUT_OF_RANGE with the range. It then takes a missing offset as 0 and throws
    ERR_INVALID_ARG_TYPE unless the offset is a Number, ERR_OUT_OF_RANGE
    ("an integer") unless it is an integer or infinite, and, when it is negative or
    the eight bytes are not all in the view, what the reader does:
    ERR_BUFFER_OUT_OF_BOUNDS in a view of fewer than eight bytes, otherwise
    ERR_OUT_OF_RANGE with the offsets allowed ([big_place]). A throw leaves the
    store as it was; otherwise the eight bytes are read or stored. *)
Theorem bigint_spec sgn big h this z offset :
  heap_ok h -> view_ok h this -> number_ok offset ->
  (forall o, offset_is offset o ->
     read_big sgn big this offset h =
       (h, if vlen this <? o + 8 then Throw (bigint_bounds_error o (vlen this))
           else Ok (BigInt (decode big sgn (seg h this o 8))))) /\
  write_big sgn big this (BigInt z) offset h =
    if decide (in_range sgn 8 z) then
      match big_place (vlen this) offset with
      | Ok o => (store h this o (encode big 8 z), Ok (o + 8))
      | Throw e => (h, Throw e)
      end
    else (h, Throw (ERR_OUT_OF_RANGE "value" (bigint_range sgn) (BigInt z))).
Proof.
  intros Hh Hv Hn. split.
  - intros o Hoff. pose proof (offset_is_bounds _ _ Hoff) as Ho.
    destruct (Z.ltb_spec (vlen this) (o + 8)).
    + apply (read_big_beyond _ _ _ o); assumption.
    + apply read_big_run; (assumption || lia).
  - destruct (decide (in_range sgn 8 z)) as [R|R]; [apply write_big_place; assumption|].
    destruct (write_big_head h this z offset sgn big) as [K ->]. apply bind_throw, checkIntBI_value, R.
Qed.

(** The fixed-width readers are the variable-width ones at that width. *)
Theorem fixed_width_agrees sgn big h this offset noAssert o :
  heap_ok h -> view_ok h this -> offset_is offset o -> o + 4 <= vlen this ->
  read_method (Acc8 sgn) this offset noAssert h = read_method (AccN sgn big 1) this offset noAssert h /\
  read_method (Acc16 sgn big) this offset noAssert h = read_method (AccN sgn big 2) this offset noAssert h /\
  read_method (Acc32 sgn big) this offset noAssert h = read_method (AccN sgn big 4) this offset noAssert h.
Proof.
  intros Hh Hv Hoff Hb. pose proof (offset_is_bounds _ _ Hoff) as Ho.
  rewrite !(read_run h this offset noAssert o) by (first [assumption | unfold supported; cbn; lia]).
  cbn [width is_big is_signed]. split; [|split; reflexivity]. unfold decode.
  rewrite seg_1 by (assumption || lia). destruct big; reflexivity.
Qed.

(** [addNumericalSeparator] groups the digits of a number by three from the
    right, after the sign, and taking the underscores out gives the text back. *)
Theorem separators ds :
  Forall (fun c => 48 <= c <= 57) ds ->
  addNumericalSeparator ds = reverse (group (reverse ds)) /\
  addNumericalSeparator (45 :: ds) = 45 :: reverse (group (reverse ds)) /\
  filter (fun c => c <> 95) (addNumericalSeparator ds) = ds.
Proof.
  intros H.
  assert (H45 : Forall (fun c => c <> 45) ds) by (eapply Forall_impl; [exact H|cbv beta; lia]).
  assert (H95 : Forall (fun c => c <> 95) (reverse ds))
    by (apply Forall_reverse; eapply Forall_impl; [exact H|cbv beta; lia]).
  split; [apply separators_digits, H45|]. split; [apply separators_negative|].
  rewrite separators_digits by exact H45. rewrite filter_reverse, filter_group by exact H95.
  apply reverse_involutive.
Qed.

(** ** Witnesses *)

Lemma supported_sample sgn big : supported (AccN sgn big 3).
Proof. unfold supported. cbn. lia. Qed.

Lemma int_read_spec_witness :
  read_method (AccN true true 3) sample_view (Num (of_Z 5)) Undefined sample_heap =
    (sample_heap, Ok (Num (of_Z 395208))) /\
  read_method (AccN true true 3) sample_view (Num (of_Z 6)) Undefined sample_heap =
    (sample_heap, Throw (ERangeError [Txt "Trying to access beyond buffer length"])).
Proof.
  split.
  - exact (int_read_spec (AccN true true 3) sample_heap sample_view (Num (of_Z 5)) Undefined 5
      sample_heap_ok sample_view_ok (offset_is_num 5 ltac:(lia)) (supported_sample true true) eq_refl).
  - exact (int_read_spec (AccN true true 3) sample_heap sample_view (Num (of_Z 6)) Undefined 6
      sample_heap_ok sample_view_ok (offset_is_num 6 ltac:(lia)) (supported_sample true true) eq_refl).
Defined.

Lemma int_write_spec_witness :
  write_method (AccN true true 3) sample_view (Num (of_Z (-2))) Undefined Undefined sample_heap =
    (store sample_heap sample_view 0 [255; 255; 254], Ok 3) /\
  write_method (AccN true true 3) sample_view (Num (of_Z 8388608)) Undefined Undefined sample_heap =
    (sample_heap, Throw (ERangeError [Txt "value argument is out of bounds"])).
Proof.
  split.
  - exact (int_write_spec (AccN true true 3) sample_heap sample_view (-2) Undefined Undefined 0
      sample_view_ok offset_is_undefined (supported_sample true true) eq_refl ltac:(lia)).
  - exact (int_write_spec (AccN true true 3) sample_heap sample_view 8388608 Undefined Undefined 0
      sample_view_ok offset_is_undefined (supported_sample true true) eq_refl ltac:(lia)).
Defined.

Lemma int_roundtrip_witness :
  exists h', write_method (Acc16 true false) sample_view (Num (of_Z (-300))) (Num (of_Z 2)) Undefined sample_heap =
      (h', Ok 4) /\
    read_method (Acc16 true false) sample_view (Num (of_Z 2)) Undefined h' = (h', Ok (Num (of_Z (-300)))) /\
    bytes h' sample_view = [1; 2; 212; 254; 5; 6; 7; 200].
Proof.
  exact (int_roundtrip (Acc16 true false) sample_heap sample_view (-300) (Num (of_Z 2)) Undefined 2
    sample_heap_ok sample_view_ok eq_refl (offset_is_num 2 ltac:(lia)) ltac:(unfold supported; cbn; lia)
    ltac:(cbn; lia) ltac:(cbn; lia)).
Defined.

Lemma bigint_roundtrip_witness :
  exists h', write_big true false sample_view (BigInt (-2)) (Num (of_Z 0)) sample_heap = (h', Ok 8) /\
    read_big true false sample_view (Num (of_Z 0)) h' = (h', Ok (BigInt (-2))) /\
    bytes h' sample_view = [254; 255; 255; 255; 255; 255; 255; 255].
Proof.
  exact (bigint_roundtrip true false sample_heap sample_view (-2) 0 sample_heap_ok sample_view_ok
    ltac:(lia) ltac:(cbn; lia) ltac:(cbn; lia)).
Defined.

(** Half an index, an infinite one, a string, and bytes beyond the end. *)
Lemma bigint_spec_witness :
  read_big false true sample_view (Num (of_Z 1)) sample_heap =
    (sample_heap, Throw (bigint_bounds_error 1 8)) /\
  write_big false true sample_view (BigInt 5) (Num (dy 1 (-1))) sample_heap =
    (sample_heap, Throw (ERR_OUT_OF_RANGE "offset" [Txt "an integer"] (Num (dy 1 (-1))))) /\
  write_big false true sample_view (BigInt 5) (Num (S754_infinity true)) sample_heap =
    (sample_heap, Throw (ERR_OUT_OF_RANGE "offset" [Txt ">= 0"; Txt " and <= "; Of (Num (of_Z 0))]
                          (Num (S754_infinity true)))) /\
  write_big false true sample_view (BigInt 5) (Str (js "0")) sample_heap =
    (sample_heap, Throw (ERR_INVALID_ARG_TYPE "offset" (Str (js "number")))) /\
  write_big false true sample_view (BigInt (-1)) (Num (of_Z 1)) sample_heap =
    (sample_heap, Throw (ERR_OUT_OF_RANGE "value" (bigint_range false) (BigInt (-1)))).
Proof.
  split; [exact (proj1 (bigint_spec false true sample_heap sample_view 5 (Num (of_Z 1))
    sample_heap_ok sample_view_ok eq_refl) 1 (offset_is_num 1 ltac:(lia)))|].
  split; [exact (proj2 (bigint_spec false true sample_heap sample_view 5 (Num (dy 1 (-1)))
    sample_heap_ok sample_view_ok eq_refl))|].
  split; [exact (proj2 (bigint_spec false true sample_heap sample_view 5 (Num (S754_infinity true))
    sample_heap_ok sample_view_ok eq_refl))|].
  split; [exact (proj2 (bigint_spec false true sample_heap sample_view 5 (Str (js "0"))
    sample_heap_ok sample_view_ok I))|].
  exact (proj2 (bigint_spec false true sample_heap sample_view (-1) (Num (of_Z 1))
    sample_heap_ok sample_view_ok eq_refl)).
Defined.

Lemma fixed_width_agrees_witness :
  readInt16LE sample_view (Num (of_Z 4)) Undefined sample_heap =
  readIntLE sample_view (Num (of_Z 4)) (Num (of_Z 2)) Undefined sample_heap.
Proof.
  exact (proj1 (proj2 (fixed_width_agrees true false sample_heap sample_view (Num (of_Z 4)) Undefined 4
    sample_heap_ok sample_view_ok (offset_is_num 4 ltac:(lia)) ltac:(cbn; lia)))).
Defined.

Lemma separators_witness :
  Forall (fun c => 48 <= c <= 57) (js "1234567") /\ addNumericalSeparator (js "1234567") = js "1_234_567".
Proof.
  assert (D : Forall (fun c => 48 <= c <= 57) (js "1234567")) by (repeat constructor; vm_compute; congruence).
  split; [exact D|]. rewrite (proj1 (separators (js "1234567") D)). reflexivity.
Defined.
