(* ===== verification/BufferOps.v ===== *)
(** [src/builtins/internal_js_modules/node/buffer.js], part 2: comparison,
    concatenation, byte swapping, conversion to strings and searching. *)

From Stdlib Require Import SpecFloat String.
From stdpp Require Import base numbers list gmap.
From S2P Require Import Prelude JsNumber JsValue Base64 Encoding BufferCore BufferInt.

Local Open Scope Z_scope.
Local Open Scope js_scope.

(** ** Comparison *)

(** The loop over the common length, and the final test on [x] and [y]. *)
Fixpoint first_difference (a b : list Z) (x y : Z) : Z * Z :=
  match a, b with
  | p :: a', q :: b' => if p =? q then first_difference a' b' x y else (p, q)
  | _, _ => (x, y)
  end.

Definition sign_of (xy : Z * Z) : Z :=
  if fst xy <? snd xy then -1 else if snd xy <? fst xy then 1 else 0.

(** A [Uint8Array] operand is replaced by [Buffer.from(a, a.offset, a.byteLength)],
    a copy. *)
Definition as_buffer (v : val) : M val :=
  if is_uint8array v then let! c := from v Undefined Undefined in ret (VView c) else ret v.

Definition compare (a b : val) : M Z :=
  let! a := as_buffer a in
  let! b := as_buffer b in
  match a, b with
  | VView va, VView vb =>
      if negb (vbuffer va) || negb (vbuffer vb) then
        throw_type [Txt "The buf1, buf2 arguments must be one of type Buffer or Uint8Array"]
      else if Nat.eqb (vid va) (vid vb) then ret 0
      else
        read (fun h => sign_of (first_difference (bytes h va) (bytes h vb) (vlen va) (vlen vb)))
  | _, _ => throw_type [Txt "The buf1, buf2 arguments must be one of type Buffer or Uint8Array"]
  end.

Definition equals (this : view) (b : val) : M bool :=
  if negb (isBuffer b) then throw_type [Txt "Argument must be a Buffer"]
  else if strict_eq (VView this) b then ret true
  else let! c := compare (VView this) b in ret (c =? 0).

Definition or_default (v d : val) : val := if is_undefined v then d else v.

(** [Buffer.prototype.compare(target, start, end, thisStart, thisEnd)]. *)
Definition prototype_compare (this : view) (target start end_ thisStart thisEnd : val) : M Z :=
  let! target := as_buffer target in
  match target with
  | VView t =>
      if negb (vbuffer t) then
        throw_type [Txt "The target argument must be one of type Buffer or Uint8Array. Received type ";
                    Of (Str (typeof target))]
      else
        let zero := Num (of_Z 0) in
        let start := or_default start zero in
        let end_ := or_default end_ (Num (of_Z (vlen t))) in
        let thisStart := or_default thisStart zero in
        let thisEnd := or_default thisEnd (Num (of_Z (vlen this))) in
        if js_lt start zero || js_lt (Num (of_Z (vlen t))) end_ ||
           js_lt thisStart zero || js_lt (Num (of_Z (vlen this))) thisEnd
        then throw_range [Txt "out of range index"]
        else if js_le thisEnd thisStart && js_le end_ start then ret 0
        else if js_le thisEnd thisStart then ret (-1)
        else if js_le end_ start then ret 1
        else
          let! start := toU32 start in
          let! end_ := toU32 end_ in
          let! thisStart := toU32 thisStart in
          let! thisEnd := toU32 thisEnd in
          if Nat.eqb (vid this) (vid t) then ret 0
          else
            let x := thisEnd - thisStart in
            let y := end_ - start in
            let len := Z.min x y in
            let! thisCopy := slice this (Num (of_Z thisStart)) (Num (of_Z thisEnd)) in
            let! targetCopy := slice t (Num (of_Z start)) (Num (of_Z end_)) in
            read (fun h => sign_of (first_difference
                     (take (Z.to_nat len) (bytes h thisCopy))
                     (take (Z.to_nat len) (bytes h targetCopy)) x y))
  | _ =>
      throw_type [Txt "The target argument must be one of type Buffer or Uint8Array. Received type ";
                  Of (Str (typeof target))]
  end.

(** ** Concatenation *)

(** [list[i].length] of an element, where the loop sums them. *)
Definition element_length (v : val) : M num :=
  match v with
  | VView w => ret (of_Z (vlen w))
  | Str s => ret (of_Z (Z.of_nat (length s)))
  | Undefined | Null => throw_type [Txt "element has no properties"]
  | _ => toNum (length_of v)
  end.

Fixpoint total_length (l : list val) (acc : num) : M num :=
  match l with
  | [] => ret acc
  | v :: l' => let! n := element_length v in total_length l' (fadd acc n)
  end.

(** One turn of the copying loop; [pos] is where the next element goes. *)
Fixpoint concat_loop (l : list val) (buffer : view) (pos : Z) : M unit :=
  match l with
  | [] => ret tt
  | VView buf :: l' =>
      do! (if vlen buffer <? pos + vlen buf then
             let! buf := (if vbuffer buf then ret buf
                          else fromArrayBuffer (VArrayBuffer (vab buf)) (Num (of_Z (voff buf)))
                                               (Num (of_Z (vlen buf)))) in
             let! _n := copy buf (VView buffer) (Num (of_Z pos)) Undefined Undefined in ret tt
           else
             fun h => (store h buffer pos (bytes h buf), Ok tt)) in
      concat_loop l' buffer (pos + vlen buf)
  | _ :: _ => throw_type [Txt "list argument must be an Array of Buffers"]
  end.

Definition concat (list length : val) : M view :=
  match list with
  | VArray l =>
      match l with
      | [] => alloc (Num (of_Z 0)) Undefined Undefined
      | _ =>
          let! length := match length with
                         | Undefined => let! n := total_length l (of_Z 0) in ret (Num n)
                         | _ => ret length
                         end in
          let! buffer := allocUnsafe length in
          do! concat_loop l buffer 0 in
          ret buffer
      end
  | _ => throw_type [Txt "list argument must be an Array of Buffers"]
  end.

(** ** Byte swapping *)

Definition swap (b : view) (n m : Z) : M unit :=
  let! i := getn b n in
  let! j := getn b m in
  do! put b n j in
  put b m i.

Definition swap16 (this : view) : M view :=
  let len := vlen this in
  if negb (len mod 2 =? 0) then throw_range [Txt "Buffer size must be a multiple of 16-bits"]
  else
    do! for_each (indices 0 len 2) (fun i => swap this i (i + 1)) in
    ret this.

Definition swap32 (this : view) : M view :=
  let len := vlen this in
  if negb (len mod 4 =? 0) then throw_range [Txt "Buffer size must be a multiple of 32-bits"]
  else
    do! for_each (indices 0 len 4) (fun i =>
          do! swap this i (i + 3) in swap this (i + 1) (i + 2)) in
    ret this.

Definition swap64 (this : view) : M view :=
  let len := vlen this in
  if negb (len mod 8 =? 0) then throw_range [Txt "Buffer size must be a multiple of 64-bits"]
  else
    do! for_each (indices 0 len 8) (fun i =>
          do! swap this i (i + 7) in
          do! swap this (i + 1) (i + 6) in
          do! swap this (i + 2) (i + 5) in
          swap this (i + 3) (i + 4)) in
    ret this.

(** ** To strings *)

Definition base64Slice (buf : view) (start end_ : Z) : M jsstr :=
  if (start =? 0) && (end_ =? vlen buf) then read (fun h => base64.fromByteArray (bytes h buf))
  else
    let! s := slice buf (Num (of_Z start)) (Num (of_Z end_)) in
    read (fun h => base64.fromByteArray (bytes h s)).

Definition utf16leSlice (buf : view) (start end_ : Z) : M jsstr :=
  let! b := slice buf (Num (of_Z start)) (Num (of_Z end_)) in
  read (fun h => utf16le_decode (bytes h b)).

Definition slowToString (this : view) (encoding start end_ : val) : M jsstr :=
  let len := Num (of_Z (vlen this)) in
  let zero := Num (of_Z 0) in
  let start := if is_undefined start || js_lt start zero then zero else start in
  if js_lt len start then ret []
  else
    let end_ := if is_undefined end_ || js_lt len end_ then len else end_ in
    if js_le end_ zero then ret []
    else
      let! end_ := toU32 end_ in
      let! start := toU32 start in
      if end_ <=? start then ret []
      else
        let encoding := if truthy encoding then encoding else Str (js "utf8") in
        match switch_encoding encoding with
        | Some Hex => read (fun h => hexSlice (bytes h this) start end_)
        | Some Utf8 => read (fun h => utf8Slice (bytes h this) start end_)
        | Some Ascii => read (fun h => asciiSlice (bytes h this) start end_)
        | Some Latin1 => read (fun h => latin1Slice (bytes h this) start end_)
        | Some Base64 => base64Slice this start end_
        | Some Ucs2 => utf16leSlice this start end_
        | None => throw_type [Txt "Unknown encoding: "; Of encoding]
        end.

(** [toString(...)]: [None] when it is called without arguments. *)
Definition toString (this : view) (args : option (val * val * val)) : M jsstr :=
  let length := vlen this in
  if length =? 0 then ret []
  else match args with
       | None => read (fun h => utf8Slice (bytes h this) 0 length)
       | Some (encoding, start, end_) => slowToString this encoding start end_
       end.

Definition INSPECT_MAX_BYTES : Z := 50.

(** [.replace(/(.{2})/g, '$1 ')]. *)
Fixpoint space_pairs (s : jsstr) : jsstr :=
  match s with
  | a :: b :: s' => a :: b :: 32 :: space_pairs s'
  | _ => s
  end.

Definition inspect (this : view) : M jsstr :=
  let max := INSPECT_MAX_BYTES in
  let! str := toString this (Some (Str (js "hex"), Num (of_Z 0), Num (of_Z max))) in
  let str := trim (space_pairs str) in
  let str := if max <? vlen this then str ++ js " ... " else str in
  ret (js "<Buffer " ++ str ++ js ">").

(** [toJSON]: the [type] and [data] properties of its result. *)
Definition toJSON (this : view) : M val :=
  read (fun h => VObj [(js "type", Str (js "Buffer"));
                       (js "data", VArray (map (fun b => Num (of_Z b)) (bytes h this)))]
                      None None).

(** ** Searching *)

Definition is_ucs2_name (encoding : val) : bool :=
  match name_of encoding with
  | Some s => match encoding_of (toLowerCase s) with Some Ucs2 => true | _ => false end
  | None => false
  end.

(** [buf[i]] for a Number index: [undefined] unless it is a valid integer index. *)
Definition at_num (h : heap) (v : view) (i : num) : val :=
  let k := to_integer i in
  if feq (of_Z k) i then match elt h v k with Some b => Num (of_Z b) | None => Undefined end
  else Undefined.

(** [read(buf, i)] of [arrayIndexOf]; the unit is one or two bytes. *)
Definition read_unit (indexSize : Z) (buf : view) (i : num) : M val :=
  if indexSize =? 1 then read (fun h => at_num h buf i)
  else readUInt16BE buf (Num (fmul i (of_Z indexSize))) Undefined.

(** The forward loop; [foundIndex] is [None] while it is -1. *)
Fixpoint index_forward (fuel : nat) (indexSize : Z) (arr val : view) (arrLength valLength : num)
    (i : num) (foundIndex : option num) : M num :=
  match fuel with
  | O => ret (of_Z (-1))
  | S fuel =>
      if flt i arrLength then
        let! a := read_unit indexSize arr i in
        let! b := read_unit indexSize val
                    (match foundIndex with None => of_Z 0 | Some f => fsub i f end) in
        if strict_eq a b then
          let f := match foundIndex with None => i | Some f => f end in
          if feq (fadd (fsub i f) (of_Z 1)) valLength then ret (fmul f (of_Z indexSize))
          else index_forward fuel indexSize arr val arrLength valLength (fadd i (of_Z 1)) (Some f)
        else
          let i := match foundIndex with None => i | Some f => fsub i (fsub i f) end in
          index_forward fuel indexSize arr val arrLength valLength (fadd i (of_Z 1)) None
      else ret (of_Z (-1))
  end.

(** The inner loop of the backward search: do the units of [val] from [j] on match? *)
Fixpoint match_at (fuel : nat) (indexSize : Z) (arr val : view) (valLength i j : num) : M bool :=
  match fuel with
  | O => ret true
  | S fuel =>
      if flt j valLength then
        let! a := read_unit indexSize arr (fadd i j) in
        let! b := read_unit indexSize val j in
        if strict_eq a b then match_at fuel indexSize arr val valLength i (fadd j (of_Z 1))
        else ret false
      else ret true
  end.

Fixpoint index_backward (fuel : nat) (indexSize : Z) (arr val : view) (valLength i : num) : M num :=
  match fuel with
  | O => ret (of_Z (-1))
  | S fuel =>
      if fle (of_Z 0) i then
        let! found := match_at (S (Z.to_nat (vlen val))) indexSize arr val valLength i (of_Z 0) in
        if found then ret i
        else index_backward fuel indexSize arr val valLength (fsub i (of_Z 1))
      else ret (of_Z (-1))
  end.

(** Every restart of the forward loop moves [foundIndex] right, and a run is at
    most as long as [val]: this many turns are enough. *)
Definition search_fuel (arr val : view) : nat :=
  S (Z.to_nat ((vlen arr + 1) * (vlen val + 1))).

Definition arrayIndexOf (arr val : view) (byteOffset : num) (encoding : JsValue.val) (dir : bool) : M num :=
  let ucs2 := negb (is_undefined encoding) && is_ucs2_name encoding in
  if ucs2 && ((vlen arr <? 2) || (vlen val <? 2)) then ret (of_Z (-1))
  else
    let indexSize := if ucs2 then 2 else 1 in
    let half n := if ucs2 then fdiv n (of_Z 2) else n in
    let arrLength := half (of_Z (vlen arr)) in
    let valLength := half (of_Z (vlen val)) in
    let byteOffset := half byteOffset in
    if dir then
      index_forward (search_fuel arr val) indexSize arr val arrLength valLength byteOffset None
    else
      let byteOffset := if flt arrLength (fadd byteOffset valLength)
                        then fsub arrLength valLength else byteOffset in
      index_backward (S (Z.to_nat (vlen arr))) indexSize arr val valLength byteOffset.

(** [Uint8Array.prototype.indexOf] and [lastIndexOf] of a byte. *)
Fixpoint find_byte (l : list Z) (b i : Z) : Z :=
  match l with
  | [] => -1
  | x :: l' => if x =? b then i else find_byte l' b (i + 1)
  end.
Definition indexOf_byte (l : list Z) (b from : Z) : Z := find_byte (drop (Z.to_nat from) l) b from.
Fixpoint find_byte_down (l : list Z) (b i : Z) : Z :=
  match l with
  | [] => -1
  | x :: l' => if x =? b then i else find_byte_down l' b (i - 1)
  end.
Definition lastIndexOf_byte (l : list Z) (b from : Z) : Z :=
  find_byte_down (reverse (take (Z.to_nat (from + 1)) l)) b from.

(** [byteOffset] clamped to an int32, NaN replaced by the end the search starts from. *)
Definition normalize_offset (len : Z) (byteOffset : val) (dir : bool) : M num :=
  let! n :=
    match byteOffset with
    | Str _ => ret (of_Z 0)
    | _ =>
        if js_lt (Num (of_Z 2147483647)) byteOffset then ret (of_Z 2147483647)
        else if js_lt byteOffset (Num (of_Z (-2147483648))) then ret (of_Z (-2147483648))
        else toNum byteOffset
    end in
  let n := if is_nan n then (if dir then of_Z 0 else of_Z (len - 1)) else n in
  ret (if flt n (of_Z 0) then fadd (of_Z len) n else n).

Definition bidirectionalIndexOf (buffer : view) (v byteOffset encoding : val) (dir : bool) : M num :=
  let len := vlen buffer in
  if len =? 0 then ret (of_Z (-1))
  else
    let encoding := if is_string byteOffset then byteOffset else encoding in
    let! n := normalize_offset len byteOffset dir in
    if fle (of_Z len) n && dir then ret (of_Z (-1))
    else if flt n (of_Z 0) && negb dir then ret (of_Z (-1))
    else
      let n := if fle (of_Z len) n then of_Z (len - 1) else if flt n (of_Z 0) then of_Z 0 else n in
      let! v := match v with
                | Str _ => let! b := from v encoding Undefined in ret (VView b)
                | _ => ret v
                end in
      match v with
      | VView w =>
          if negb (vbuffer w) then throw_type [Txt "val must be string, number or Buffer"]
          else if vlen w =? 0 then ret (of_Z (-1))
          else arrayIndexOf buffer w n encoding dir
      | Num x =>
          let b := and32 (ToInt32 x) 255 in
          read (fun h => of_Z (if dir then indexOf_byte (bytes h buffer) b (to_integer n)
                               else lastIndexOf_byte (bytes h buffer) b (to_integer n)))
      | _ => throw_type [Txt "val must be string, number or Buffer"]
      end.

Definition indexOf (this : view) (v byteOffset encoding : val) : M num :=
  bidirectionalIndexOf this v byteOffset encoding true.

Definition lastIndexOf (this : view) (v byteOffset encoding : val) : M num :=
  bidirectionalIndexOf this v byteOffset encoding false.

Definition includes (this : view) (v byteOffset encoding : val) : M bool :=
  let! n := indexOf this v byteOffset encoding in ret (negb (feq n (of_Z (-1)))).

Example index_ex : run (let! b := from (Str (js "this is a buffer")) Undefined Undefined in
   indexOf b (Str (js "is a")) Undefined Undefined) = Ok (of_Z 5).
Proof. vm_compute. reflexivity. Qed.
Example lastindex_ex : run (let! b := from (Str (js "this is a buffer")) Undefined Undefined in
   lastIndexOf b (Str (js "is")) Undefined Undefined) = Ok (of_Z 5).
Proof. vm_compute. reflexivity. Qed.
Example index_odd : run (let! b := from (VArray [Num (of_Z 1); Num (of_Z 2); Num (of_Z 3)]) Undefined Undefined in
   indexOf b (Str (js "a")) Undefined (Str (js "ucs2"))) = Throw (ERangeError [Txt "Trying to access beyond buffer length"]).
Proof. vm_compute. reflexivity. Qed.
Example last_ucs2 : run (let! b := from (Str (js "abcab")) (Str (js "ucs2")) Undefined in
   lastIndexOf b (Str (js "ab")) Undefined (Str (js "ucs2"))) = Ok (of_Z 3).
Proof. vm_compute. reflexivity. Qed.
Example concat_ex : result_bytes (let! a := from (Str (js "ab")) Undefined Undefined in
   let! b := from (Str (js "cd")) Undefined Undefined in
   concat (VArray [VView a; VView b; VView a]) (Num (of_Z 5))) = Ok (js "abcda").
Proof. vm_compute. reflexivity. Qed.
Example inspect_ex : run (let! b := from (Str (js "ab")) Undefined Undefined in inspect b) = Ok (js "<Buffer 61 62>").
Proof. vm_compute. reflexivity. Qed.
