(* ===== verification/BufferOpsFacts.v ===== *)
(** What the operations of [BufferOps] compute: the order of Buffers,
    concatenation, byte swapping, conversion to text and searching. *)

From Stdlib Require Import SpecFloat String.
From stdpp Require Import base numbers list gmap.
From S2P Require Import Prelude JsNumber JsValue Base64 Encoding EncodingFacts BufferCore BufferCoreFacts.
From S2P Require Import Codecs BufferInt BufferIntFacts BufferOps.

Local Open Scope Z_scope.
Local Open Scope js_scope.

(** The bytes of the views of a list, one after the other. *)
Definition contents (h : heap) (ws : list view) : list Z := List.concat (map (bytes h) ws).

(** ** The order of byte strings *)

(** Lexicographic order: a proper prefix comes first. *)
Inductive lex_lt : list Z -> list Z -> Prop :=
| lex_nil b l : lex_lt [] (b :: l)
| lex_head a b k l : a < b -> lex_lt (a :: k) (b :: l)
| lex_tail a k l : lex_lt k l -> lex_lt (a :: k) (a :: l).

Lemma lex_lt_irrefl l : ~ lex_lt l l.
Proof. induction l as [|a l IH]; intros H; inversion H; subst; [lia|contradiction]. Qed.

Lemma lex_lt_trans a b c : lex_lt a b -> lex_lt b c -> lex_lt a c.
Proof.
  intros H. revert c. induction H as [y l|x y k l Hxy|x k l _ IH]; intros c Hc; inversion Hc; subst.
  - constructor.
  - constructor.
  - constructor. lia.
  - constructor. assumption.
  - constructor. assumption.
  - apply lex_tail, IH. assumption.
Qed.

Definition lex_sign (a b : list Z) : Z :=
  sign_of (first_difference a b (Z.of_nat (length a)) (Z.of_nat (length b))).

Lemma lex_sign_cons x a b : lex_sign (x :: a) (x :: b) = lex_sign a b.
Proof.
  unfold lex_sign. cbn [first_difference]. rewrite Z.eqb_refl.
  assert (G : forall m n m' n', (m <? n) = (m' <? n') -> (n <? m) = (n' <? m') ->
    sign_of (first_difference a b m n) = sign_of (first_difference a b m' n')).
  { revert b. induction a as [|p a IH]; intros [|q b] m n m' n' E1 E2; cbn [first_difference];
      try (unfold sign_of; cbn [fst snd]; rewrite E1, E2; reflexivity).
    destruct (p =? q); [apply IH; assumption|reflexivity]. }
  apply G; cbn [length]; apply Bool.eq_iff_eq_true; rewrite !Z.ltb_lt; lia.
Qed.

Lemma lex_sign_spec a b :
  (lex_sign a b = -1 /\ lex_lt a b) \/ (lex_sign a b = 0 /\ a = b) \/ (lex_sign a b = 1 /\ lex_lt b a).
Proof.
  revert b. induction a as [|x a IH]; intros [|y b].
  - right; left. split; reflexivity.
  - left. split; [|constructor]. unfold lex_sign, sign_of. reflexivity.
  - right; right. split; [|constructor]. unfold lex_sign, sign_of. cbn. reflexivity.
  - destruct (Z.eq_dec x y) as [->|N].
    + rewrite lex_sign_cons. destruct (IH b) as [[E L]|[[E ->]|[E L]]].
      * left. split; [exact E|constructor; exact L].
      * right; left. auto.
      * right; right. split; [exact E|constructor; exact L].
    + unfold lex_sign. cbn [first_difference]. rewrite (proj2 (Z.eqb_neq x y) N). unfold sign_of. cbn [fst snd].
      destruct (Z.lt_trichotomy x y) as [L|[L|L]]; [left|lia|right; right]; zbool;
        (split; [reflexivity|constructor; exact L]).
Qed.

(** ** [compare] and [equals] *)

Lemma as_buffer_run h v : view_ok h v -> as_buffer (VView v) h = (copied h v, Ok (VView (copy_view h v))).
Proof. intros Hv. unfold as_buffer. cbn [is_uint8array]. rewrite (bind_ok _ _ _ _ _ (from_view_run h v _ _ Hv)). reflexivity. Qed.

Lemma compare_run h v w :
  heap_ok h -> view_ok h v -> view_ok h w ->
  exists h', compare (VView v) (VView w) h = (h', Ok (lex_sign (bytes h v) (bytes h w))) /\ extends h h' /\ heap_ok h'.
Proof.
  intros Hh Hv Hw. destruct (copied_fresh h v Hh Hv) as [F1 F2 F3 F4 F5 F6].
  destruct (extends_view _ _ w F5 Hw) as [Hw1 Ew].
  destruct (copied_fresh (copied h v) w F1 Hw1) as [G1 G2 G3 G4 G5 G6].
  destruct (extends_view _ _ _ G5 F2) as [F2' F4'].
  exists (copied (copied h v) w). split; [|split; [etransitivity; eassumption|exact G1]].
  unfold compare. rewrite (bind_ok _ _ _ _ _ (as_buffer_run h v Hv)).
  rewrite (bind_ok _ _ _ _ _ (as_buffer_run _ w Hw1)). cbn [vbuffer copy_view negb orb vid].
  replace (Nat.eqb _ _) with false by (symmetry; apply Nat.eqb_neq; cbn; lia).
  unfold read. rewrite G4, F4', F4, Ew. unfold lex_sign.
  rewrite (length_bytes h v Hv), (length_bytes h w Hw). reflexivity.
Qed.

(** ** [concat] *)

(** [d] laid over [l] from position [p], clipped to [l]. *)
Definition overlay (p : Z) (d l : list Z) : list Z :=
  take (length l) (take (Z.to_nat p) l ++ d ++ drop (Z.to_nat p + length d) l).

Lemma length_overlay p d l : 0 <= p -> length (overlay p d l) = length l.
Proof. intros. unfold overlay. rewrite length_take, !length_app, length_take, length_drop. lia. Qed.

Lemma overlay_lookup p d l i : (i < length l)%nat ->
  overlay p d l !! i =
    if decide (i < Z.to_nat p)%nat then l !! i
    else if decide (i < Z.to_nat p + length d)%nat then d !! (i - Z.to_nat p)%nat else l !! i.
Proof.
  intros Hi. unfold overlay. rewrite lookup_take_lt by exact Hi. repeat case_decide.
  - rewrite lookup_app_l by (rewrite length_take; lia). apply lookup_take_lt. lia.
  - rewrite lookup_app_r by (rewrite length_take; lia). rewrite length_take.
    rewrite Nat.min_l by lia. apply lookup_app_l. lia.
  - rewrite lookup_app_r by (rewrite length_take; lia). rewrite length_take, Nat.min_l by lia.
    rewrite lookup_app_r by lia. rewrite lookup_drop. f_equal. lia.
Qed.

Lemma overlay_app p a b l : 0 <= p ->
  overlay (p + Z.of_nat (length a)) b (overlay p a l) = overlay p (a ++ b) l.
Proof.
  intros Hp. apply list_eq. intros i. destruct (decide (i < length l)%nat) as [Hi|Hi].
  2:{ rewrite !lookup_ge_None_2 by (rewrite ?length_overlay; lia). reflexivity. }
  rewrite overlay_lookup by (rewrite length_overlay; lia).
  rewrite !overlay_lookup by lia. rewrite length_app.
  repeat case_decide; try lia; try reflexivity.
  - rewrite lookup_app_l by lia. reflexivity.
  - rewrite lookup_app_r by lia. f_equal. lia.
Qed.

Lemma splice_overlay p d l : 0 <= p -> p + Z.of_nat (length d) <= Z.of_nat (length l) -> splice p d l = overlay p d l.
Proof.
  intros Hp Hl. unfold overlay. fold (splice p d l).
  rewrite take_ge; [reflexivity|]. rewrite length_splice; lia.
Qed.

Lemma overlay_clip p d l :
  0 <= p -> Z.of_nat (length l) < p + Z.of_nat (length d) ->
  splice (Z.min p (Z.of_nat (length l))) (take (Z.to_nat (Z.of_nat (length l) - Z.min p (Z.of_nat (length l)))) d) l =
  overlay p d l.
Proof.
  intros Hp Hl. set (q := Z.min p (Z.of_nat (length l))).
  rewrite splice_overlay by (rewrite ?length_take; lia). apply list_eq. intros i.
  destruct (decide (i < length l)%nat) as [Hi|Hi].
  2:{ rewrite !lookup_ge_None_2 by (rewrite ?length_overlay; lia). reflexivity. }
  rewrite !overlay_lookup by lia. rewrite length_take.
  repeat case_decide; try lia; try reflexivity. rewrite lookup_take_lt by lia. f_equal. lia.
Qed.

Lemma overlay_zeros d n : overlay 0 d (replicate n 0) = take n (d ++ replicate n 0).
Proof.
  unfold overlay. rewrite length_replicate, take_0, drop_replicate. cbn [app].
  destruct (Nat.le_gt_cases n (length d)).
  - rewrite !take_app_le by lia. reflexivity.
  - rewrite !take_app_ge by lia. f_equal. rewrite take_replicate, take_replicate. f_equal. lia.
Qed.

Section Concat.
Context (h : heap) (buffer : view).

(** The Buffers of the list are older than the result. *)
Definition element_ok (w : view) : Prop := view_ok h w /\ vbuffer w = true /\ vid w <> vid buffer.

(** One turn lays the bytes of [buf] over the result, clipped to its end. *)
Lemma concat_turn h1 buf pos l :
  fresh_buffer h h1 buffer l -> heap_ok h -> element_ok buf -> 0 <= pos < 2 ^ 32 ->
  exists h2, (if vlen buffer <? pos + vlen buf then
      let! buf := (if vbuffer buf then ret buf
                   else fromArrayBuffer (VArrayBuffer (vab buf)) (Num (of_Z (voff buf)))
                                        (Num (of_Z (vlen buf)))) in
      let! _n := copy buf (VView buffer) (Num (of_Z pos)) Undefined Undefined in ret tt
    else fun h => (store h buffer pos (bytes h buf), Ok tt)) h1 = (h2, Ok tt) /\
    fresh_buffer h h2 buffer (overlay pos (bytes h buf) l).
Proof.
  intros F Hh (Hv & Hb & Hid) Hp. pose proof F as [F1 F2 F3 F4 F5 F6].
  destruct (extends_view h h1 buf F5 Hv) as [Hv1 Eb].
  pose proof (length_bytes h buf Hv) as Lb. pose proof (length_bytes _ _ F2) as Ll. rewrite F4 in Ll.
  assert (B : 0 <= vlen buf < 2 ^ 32) by (destruct Hv as (?&?&?&?&?); lia).
  assert (B2 : 0 <= vlen buffer) by (destruct F2 as (?&?&?&?&?); lia).
  destruct (Z.ltb_spec (vlen buffer) (pos + vlen buf)) as [C|C].
  2:{ eexists. split; [reflexivity|]. rewrite Eb, <- splice_overlay by lia.
      apply fresh_buffer_store; [exact F|lia|lia|apply heap_ok_bytes, Hh]. }
  rewrite Hb. erewrite (bind_ok (ret buf)) by reflexivity.
  assert (D : copy buf (VView buffer) (Num (of_Z pos)) Undefined Undefined h1 =
    copy buf (VView buffer) (Num (of_Z pos)) (Num (of_Z 0)) (Num (of_Z (vlen buf))) h1).
  { unfold copy. cbn [truthy negb andb strict_eq].
    replace (if negb (num_truthy (of_Z (vlen buf))) && negb (feq (of_Z (vlen buf)) (of_Z 0))
             then Num (of_Z (vlen buf)) else Num (of_Z (vlen buf))) with (Num (of_Z (vlen buf)))
      by (destruct (_ && _); reflexivity).
    reflexivity. }
  pose proof (copy_run h1 buf buffer pos 0 (vlen buf) Hv1 F2 F3 ltac:(intros; contradiction)
    ltac:(lia) ltac:(lia) ltac:(lia)) as R. rewrite <- D in R.
  destruct (Z.eqb_spec (vlen buf) 0) as [Z0|Z0]; [|destruct (Z.eqb_spec (vlen buffer) 0) as [Z1|Z1]];
    cbn [orb] in R.
  - rewrite (bind_ok _ _ _ _ _ R). exists h1. split; [reflexivity|].
    destruct (bytes h buf); [|cbn in Lb; lia].
    replace (overlay pos [] l) with l; [exact F|]. unfold overlay. cbn [length app].
    rewrite Nat.add_0_r, take_drop. symmetry. apply firstn_all.
  - rewrite (bind_ok _ _ _ _ _ R). exists h1. split; [reflexivity|].
    destruct l; [|cbn in Ll; lia]. exact F.
  - revert R. zbool. cbv zeta. intros R. rewrite (bind_ok _ _ _ _ _ R). eexists. split; [reflexivity|].
    assert (N : copy_count buf buffer pos 0 (vlen buf) = vlen buffer - Z.min pos (vlen buffer))
      by (unfold copy_count; lia).
    rewrite N, Eb, Z.add_0_l. unfold sub. rewrite drop_0, Z.sub_0_r, <- Ll.
    rewrite <- overlay_clip by lia.
    apply fresh_buffer_store; [exact F|lia|rewrite length_take; lia|apply Forall_take, heap_ok_bytes, Hh].
Qed.

Lemma concat_loop_run ws : forall h1 pos l,
  fresh_buffer h h1 buffer l -> heap_ok h -> Forall element_ok ws -> 0 <= pos ->
  pos + Z.of_nat (length (List.concat (map (bytes h) ws))) < 2 ^ 32 ->
  exists h2, concat_loop (map VView ws) buffer pos h1 = (h2, Ok tt) /\
    fresh_buffer h h2 buffer (overlay pos (List.concat (map (bytes h) ws)) l).
Proof.
  induction ws as [|w ws IH]; intros h1 pos l F Hh Hw Hp Hl; cbn [map concat_loop List.concat].
  - exists h1. split; [reflexivity|]. replace (overlay pos [] l) with l; [exact F|].
    unfold overlay. cbn [length app]. rewrite Nat.add_0_r, take_drop. symmetry. apply firstn_all.
  - apply Forall_cons in Hw as [Hw1 Hw]. cbn [map List.concat] in Hl. rewrite length_app in Hl.
    destruct (concat_turn h1 w pos l F Hh Hw1 ltac:(lia)) as (h2 & E & F').
    rewrite (bind_ok _ _ _ _ _ E). pose proof (length_bytes h w (proj1 Hw1)) as Lw.
    destruct (IH h2 (pos + vlen w) _ F' Hh Hw ltac:(destruct Hw1 as [(?&?&?) _]; lia) ltac:(lia)) as (h3 & E3 & F3).
    exists h3. split; [exact E3|]. rewrite <- Lw, overlay_app in F3 by exact Hp. exact F3.
Qed.
End Concat.

Lemma total_length_run h ws acc : 
  Forall (view_ok h) ws -> 0 <= acc -> acc + Z.of_nat (length (List.concat (map (bytes h) ws))) <= 2 ^ 53 ->
  total_length (map VView ws) (of_Z acc) h =
    (h, Ok (of_Z (acc + Z.of_nat (length (List.concat (map (bytes h) ws)))))).
Proof.
  intros H. revert acc. induction H as [|w ws Hw _ IH]; intros acc Ha Hl; cbn [map List.concat total_length].
  - rewrite Z.add_0_r. reflexivity.
  - cbn [map List.concat] in Hl. rewrite length_app in *. pose proof (length_bytes h w Hw) as L.
    erewrite bind_ok by reflexivity. assert (0 <= vlen w) by (destruct Hw as (?&?&?); lia).
    rewrite fadd_of_Z by lia. rewrite IH by lia. do 3 f_equal. lia.
Qed.

(** ** Byte swapping *)

(** The first [n] groups of [k] bytes, each reversed. *)
Fixpoint swapped (n k : nat) (l : list Z) : list Z :=
  match n with
  | O => []
  | S n => reverse (take k l) ++ swapped n k (drop k l)
  end.

Lemma swapped_snoc n k l : swapped (S n) k l = swapped n k l ++ reverse (take k (drop (k * n) l)).
Proof.
  revert l. induction n as [|n IH]; intros l.
  - rewrite Nat.mul_0_r, drop_0. cbn. rewrite app_nil_r. reflexivity.
  - change (swapped (S (S n)) k l) with (reverse (take k l) ++ swapped (S n) k (drop k l)).
    rewrite IH, drop_drop.
    replace (k + k * n)%nat with (k * S n)%nat by lia. rewrite app_assoc. reflexivity.
Qed.

Lemma length_swapped n k l : (k * n <= length l)%nat -> length (swapped n k l) = (k * n)%nat.
Proof.
  revert l. induction n as [|n IH]; intros l H; cbn [swapped length]; [lia|].
  rewrite length_app, length_reverse, length_take, IH by (rewrite length_drop; lia). lia.
Qed.

Lemma swapped_bytes n k l : Forall byte l -> Forall byte (swapped n k l).
Proof.
  revert l. induction n as [|n IH]; intros l H; cbn [swapped]; [constructor|].
  apply Forall_app. split; [apply Forall_reverse, Forall_take, H|apply IH, Forall_drop, H].
Qed.

(** Swapping twice restores the bytes. *)
Lemma swapped_involutive n k l : length l = (k * n)%nat -> swapped n k (swapped n k l) = l.
Proof.
  revert l. induction n as [|n IH]; intros l H; cbn [swapped].
  - destruct l; [reflexivity|cbn in H; lia].
  - assert (L : length (reverse (take k l)) = k) by (rewrite length_reverse, length_take; lia).
    rewrite take_app_length', drop_app_length' by (symmetry; exact L).
    rewrite reverse_involutive, IH by (rewrite length_drop; lia). apply take_drop.
Qed.

(** Reads and writes of single bytes. *)
Lemma byte_at_store1 h v i j x :
  view_ok h v -> 0 <= i < vlen v -> 0 <= j < vlen v ->
  byte_at (store h v i [x]) v j = if decide (j = i) then x else byte_at h v j.
Proof.
  intros Hv Hi Hj. unfold byte_at, elt, zget. rewrite bytes_store by (cbn [length]; (assumption || lia)).
  rewrite (proj2 (Z.leb_le 0 j)) by lia. pose proof (length_bytes h v Hv) as L.
  rewrite splice_overlay by (cbn [length]; lia). rewrite overlay_lookup by lia. cbn [length].
  repeat case_decide; try lia; try reflexivity.
  replace (Z.to_nat j - Z.to_nat i)%nat with 0%nat by lia. reflexivity.
Qed.

Lemma store_comm h v i j x y : 0 <= voff v -> 0 <= i -> 0 <= j -> i <> j ->
  store (store h v i [x]) v j [y] = store (store h v j [y]) v i [x].
Proof.
  intros Hv Hi Hj N. apply heap_ext; [|reflexivity]. unfold store at 1 3. cbn [mem].
  rewrite !ab_bytes_store, !decide_True by reflexivity. unfold store. cbn [mem].
  rewrite !insert_insert_eq. f_equal. cbn [list_inserts]. apply list_insert_insert_ne. lia.
Qed.

Lemma swap_run h v n m :
  heap_ok h -> view_ok h v -> 0 <= n < vlen v -> 0 <= m < vlen v ->
  swap v n m h = (store (store h v n [byte_at h v m]) v m [byte_at h v n], Ok tt).
Proof.
  intros Hh Hv Hn Hm. unfold swap. do 2 (erewrite bind_ok by (apply getn_run; assumption)).
  erewrite bind_ok by (apply put_run; lia). rewrite put_run by lia.
  rewrite !ToUint8_byte by (apply byte_at_byte, Hh). reflexivity.
Qed.

Lemma heap_ok_store1 h v i x : heap_ok h -> view_ok h v -> byte x -> heap_ok (store h v i [x]).
Proof. intros. apply heap_ok_store; try assumption. repeat constructor; apply H1. Qed.

Lemma byte_at_seg h v i k : view_ok h v -> 0 <= i -> i + Z.of_nat k <= vlen v ->
  seg h v i k = map (fun j => byte_at h v (i + Z.of_nat j)) (seq 0 k).
Proof.
  intros Hv. revert i. induction k as [|k IH]; intros i Hi Hk; [reflexivity|].
  rewrite seg_S, IH by (assumption || lia). rewrite <- cons_seq, <- fmap_S_seq.
  cbn [map]. rewrite Z.add_0_r. f_equal. change (fmap ?f ?l) with (map f l). rewrite map_map.
  apply map_ext. intros j. f_equal. lia.
Qed.

Section SwapTurns.
Context (h : heap) (v : view) (i : Z).
Hypothesis Hh : heap_ok h.
Hypothesis Hv : view_ok h v.
Hypothesis Hi : 0 <= i.

(** Swap two bytes of a store reached from [h] by single-byte stores. *)
Local Ltac ok := repeat first [assumption | apply heap_ok_store1 | apply view_ok_store | apply byte_at_byte].
Local Ltac swap1 :=
  rewrite swap_run by (ok || lia);
  repeat (rewrite byte_at_store1 by (ok || lia); rewrite decide_False by lia).
Local Ltac swap_then := erewrite bind_ok by (swap1; reflexivity).
Local Ltac sort_stores :=
  repeat match goal with
  | |- context [store (store ?g v ?a [?x]) v ?b [?y]] =>
      assert_succeeds (assert (b < a) by lia); rewrite (store_comm g v a b x y) by (destruct Hv as (?&?); lia)
  end.
Local Ltac join_stores :=
  repeat (rewrite store_join by (destruct Hv as (?&?); cbn [length app]; lia)); cbn [app].

Lemma swap_turn2 : i + 2 <= vlen v ->
  swap v i (i + 1) h = (store h v i (reverse (seg h v i 2)), Ok tt).
Proof.
  intros Hb. rewrite byte_at_seg by (assumption || lia). cbn [map seq].
  change (Z.of_nat 0) with 0. change (Z.of_nat 1) with 1. rewrite Z.add_0_r.
  swap1. join_stores. reflexivity.
Qed.

Lemma swap_turn4 : i + 4 <= vlen v ->
  (do! swap v i (i + 3) in swap v (i + 1) (i + 2)) h = (store h v i (reverse (seg h v i 4)), Ok tt).
Proof.
  intros Hb. rewrite byte_at_seg by (assumption || lia). cbn [map seq].
  change (Z.of_nat 0) with 0. change (Z.of_nat 1) with 1. change (Z.of_nat 2) with 2.
  change (Z.of_nat 3) with 3. rewrite Z.add_0_r.
  swap_then. swap1. sort_stores. join_stores. reflexivity.
Qed.

Lemma swap_turn8 : i + 8 <= vlen v ->
  (do! swap v i (i + 7) in do! swap v (i + 1) (i + 6) in do! swap v (i + 2) (i + 5) in
   swap v (i + 3) (i + 4)) h = (store h v i (reverse (seg h v i 8)), Ok tt).
Proof.
  intros Hb. rewrite byte_at_seg by (assumption || lia). cbn [map seq].
  change (Z.of_nat 0) with 0. change (Z.of_nat 1) with 1. change (Z.of_nat 2) with 2.
  change (Z.of_nat 3) with 3. change (Z.of_nat 4) with 4. change (Z.of_nat 5) with 5.
  change (Z.of_nat 6) with 6. change (Z.of_nat 7) with 7. rewrite Z.add_0_r.
  swap_then. swap_then. swap_then. swap1. sort_stores. join_stores. reflexivity.
Qed.
End SwapTurns.

(** The loop of a swap: every turn reverses one group. *)
Lemma swap_loop h v (k : nat) (body : Z -> M unit) :
  heap_ok h -> view_ok h v -> (0 < k)%nat -> vlen v mod Z.of_nat k = 0 ->
  (forall g i, heap_ok g -> view_ok g v -> 0 <= i -> i + Z.of_nat k <= vlen v ->
     body i g = (store g v i (reverse (seg g v i k)), Ok tt)) ->
  let n := Z.to_nat (vlen v / Z.of_nat k) in
  for_each (indices 0 (vlen v) (Z.of_nat k)) body h = (store h v 0 (swapped n k (bytes h v)), Ok tt).
Proof.
  intros Hh Hv Hk Hm Hbody n. pose proof (length_bytes h v Hv) as L.
  assert (V : 0 <= vlen v) by (destruct Hv as (?&?&?); lia).
  pose proof (Z.div_mod (vlen v) (Z.of_nat k) ltac:(lia)) as D.
  assert (Q : 0 <= vlen v / Z.of_nat k) by (apply Z.div_pos; lia).
  assert (Ev : vlen v = 0 + Z.of_nat k * Z.of_nat n) by (unfold n; lia).
  pose proof (for_each_steps body
    (fun j => store h v 0 (swapped j k (bytes h v))) (Z.of_nat k) n ltac:(lia) 0) as F.
  cbv beta in F. rewrite <- Ev in F. change (swapped 0 k (bytes h v)) with (@nil Z) in F. rewrite store_nil in F by exact Hv. apply F. clear F.
  intros j Hj. rewrite Z.add_0_l. assert (J : (k * j + k <= k * n)%nat) by nia.
  rewrite Hbody; [|apply heap_ok_store; [exact Hh|exact Hv|apply swapped_bytes, heap_ok_bytes, Hh]
                  |apply view_ok_store, Hv|lia|nia].
  rewrite store_join by (rewrite ?length_swapped by lia; destruct Hv as (?&?); lia).
  rewrite swapped_snoc. do 4 f_equal. unfold seg. rewrite bytes_store by (rewrite ?length_swapped by lia; (assumption || lia)).
  f_equal. replace (Z.to_nat (Z.of_nat k * Z.of_nat j)) with (k * j)%nat by lia.
  unfold splice. rewrite take_0. cbn [app Nat.add].
  change (Z.to_nat 0 + ?x)%nat with x. rewrite length_swapped by lia.
  rewrite drop_app_length' by (rewrite length_swapped; lia). reflexivity.
Qed.

(** The three methods, by the width of their groups. *)
Definition swap_method (k : nat) (this : view) : M view :=
  match k with 2%nat => swap16 this | 4%nat => swap32 this | _ => swap64 this end.
Definition swap_error (k : nat) : string :=
  match k with
  | 2%nat => "Buffer size must be a multiple of 16-bits"
  | 4%nat => "Buffer size must be a multiple of 32-bits"
  | _ => "Buffer size must be a multiple of 64-bits"
  end.

Lemma swap_method_run h this k :
  heap_ok h -> view_ok h this -> k = 2%nat \/ k = 4%nat \/ k = 8%nat ->
  swap_method k this h =
    if vlen this mod Z.of_nat k =? 0 then
      (store h this 0 (swapped (Z.to_nat (vlen this / Z.of_nat k)) k (bytes h this)), Ok this)
    else (h, Throw (ERangeError [Txt (swap_error k)])).
Proof.
  intros Hh Hv [->|[->| ->]]; cbn [swap_method swap_error]; unfold swap16, swap32, swap64;
    [change (Z.of_nat 2) with 2|change (Z.of_nat 4) with 4|change (Z.of_nat 8) with 8];
    (match goal with |- context [?x mod ?k =? 0] => destruct (Z.eqb_spec (x mod k) 0) as [E|E] end);
    cbn [negb]; try reflexivity; erewrite bind_ok.
  - reflexivity.
  - apply (swap_loop h this 2); try (assumption || lia). intros. apply swap_turn2; assumption.
  - reflexivity.
  - apply (swap_loop h this 4); try (assumption || lia). intros. apply swap_turn4; assumption.
  - reflexivity.
  - apply (swap_loop h this 8); try (assumption || lia). intros. apply swap_turn8; assumption.
Qed.

(** ** Text *)

Lemma sub_window h v s e : view_ok h v -> 0 <= s <= e -> e <= vlen v -> vlen v < 2 ^ 31 ->
  bytes (bumped h) (slice_view h v s e) = sub (bytes h v) s e.
Proof.
  intros Hv Hs He Hl. unfold slice_view, slice_start, slice_end. rewrite !clamp_inside by lia.
  rewrite Z.max_r by lia. change (bytes (bumped h)) with (bytes h).
  rewrite bytes_window by (destruct Hv as (?&?); lia). f_equal. lia.
Qed.

Lemma slowToString_run h this name e s t :
  heap_ok h -> view_ok h this -> vlen this < 2 ^ 31 -> switch_encoding (Str name) = Some e ->
  0 <= s < 2 ^ 32 -> 0 <= t < 2 ^ 32 ->
  exists h', slowToString this (Str name) (Num (of_Z s)) (Num (of_Z t)) h =
    (h', Ok (let f := Z.min t (vlen this) in if s <? f then text e (sub (bytes h this) s f) else [])) /\
    (h' = h \/ h' = bumped h).
Proof.
  intros Hh Hv Hl He Hs Ht. assert (V : 0 <= vlen this) by (destruct Hv as (?&?&?); lia).
  pose proof (length_bytes h this Hv) as Lb. unfold slowToString. cbv zeta.
  cbn [is_undefined orb]. rewrite !js_lt_num by lia. rewrite (proj2 (Z.ltb_ge s 0)) by lia.
  rewrite js_lt_num by lia. destruct (Z.ltb_spec (vlen this) s) as [B|B].
  { exists h. rewrite (proj2 (Z.ltb_ge s _)) by lia. split; [reflexivity|auto]. }
  replace (if vlen this <? t then Num (of_Z (vlen this)) else Num (of_Z t))
    with (Num (of_Z (Z.min t (vlen this)))) by (destruct (Z.ltb_spec (vlen this) t); do 2 f_equal; lia).
  set (f := Z.min t (vlen this)). rewrite js_le_num by lia. destruct (Z.leb_spec f 0) as [C|C].
  { exists h. rewrite (proj2 (Z.ltb_ge s _)) by lia. split; [reflexivity|auto]. }
  do 2 (erewrite bind_ok by (apply toU32_run; lia)).
  destruct (Z.leb_spec f s) as [D|D].
  { exists h. rewrite (proj2 (Z.ltb_ge s _)) by lia. split; [reflexivity|auto]. }
  rewrite (proj2 (Z.ltb_lt s f)) by lia. rewrite (nonempty_name name e He), He.
  pose proof (heap_ok_bytes h this Hh) as Hb. unfold read.
  pose proof (slice_run this s f h V ltac:(lia) ltac:(lia)) as Sl.
  pose proof (sub_window h this s f Hv ltac:(lia) ltac:(lia) Hl) as Sw.
  destruct e; cbn [text].
  - exists h. rewrite hexSlice_run by (assumption || lia). split; [reflexivity|auto].
  - exists h. rewrite utf8Slice_sub by lia. split; [reflexivity|auto].
  - exists h. rewrite asciiSlice_run by (assumption || lia). split; [reflexivity|auto].
  - exists h. rewrite latin1Slice_run by (assumption || lia). split; [reflexivity|auto].
  - unfold base64Slice. destruct ((s =? 0) && (f =? vlen this)) eqn:E.
    + exists h. assert (s = 0 /\ f = vlen this) as [-> ->] by lia.
      unfold read. rewrite <- Lb, sub_all. split; [reflexivity|auto].
    + exists (bumped h). rewrite (bind_ok _ _ _ _ _ Sl). unfold read. rewrite Sw. split; [reflexivity|auto].
  - unfold utf16leSlice. exists (bumped h). rewrite (bind_ok _ _ _ _ _ Sl). unfold read. rewrite Sw.
    rewrite utf16le_decode_run by (apply sub_bytes, Hb). split; [reflexivity|auto].
Qed.

Lemma toString_run h this name e s t :
  heap_ok h -> view_ok h this -> vlen this < 2 ^ 31 -> switch_encoding (Str name) = Some e ->
  0 <= s < 2 ^ 32 -> 0 <= t < 2 ^ 32 ->
  exists h', toString this (Some (Str name, Num (of_Z s), Num (of_Z t))) h =
    (h', Ok (let f := Z.min t (vlen this) in if s <? f then text e (sub (bytes h this) s f) else [])) /\
    (h' = h \/ h' = bumped h).
Proof.
  intros Hh Hv Hl He Hs Ht. unfold toString. destruct (Z.eqb_spec (vlen this) 0) as [E|E].
  - exists h. cbv zeta. rewrite (proj2 (Z.ltb_ge s _)) by lia. split; [reflexivity|auto].
  - apply slowToString_run; assumption.
Qed.

(** Bounds left out are the whole Buffer. *)
Lemma toString_default h this name :
  0 <= vlen this < 2 ^ 32 ->
  toString this (Some (Str name, Undefined, Undefined)) h =
    toString this (Some (Str name, Num (of_Z 0), Num (of_Z (vlen this)))) h.
Proof.
  intros V. unfold toString, slowToString. cbv zeta. cbn [is_undefined orb].
  rewrite !js_lt_num by lia. rewrite !Z.ltb_irrefl. rewrite !js_lt_num by lia. reflexivity.
Qed.

(** ** Properties *)

(** [compare] decides the lexicographic order of the two byte strings, a
    proper prefix coming first: -1 when the first is smaller, 1 when the second
    is, 0 when they are equal; [equals] says whether they are equal. *)
Theorem compare_order h v w :
  heap_ok h -> view_ok h v -> view_ok h w -> vbuffer w = true -> (vid v = vid w -> v = w) ->
  exists h' c, compare (VView v) (VView w) h = (h', Ok c) /\ extends h h' /\
    (c = -1 <-> lex_lt (bytes h v) (bytes h w)) /\ (c = 0 <-> bytes h v = bytes h w) /\
    (c = 1 <-> lex_lt (bytes h w) (bytes h v)) /\
    exists g, equals v (VView w) h = (g, Ok (bool_decide (bytes h v = bytes h w))).
Proof.
  intros Hh Hv Hw Hb Hid. destruct (compare_run h v w Hh Hv Hw) as (h' & E & X & _).
  exists h', (lex_sign (bytes h v) (bytes h w)). split; [exact E|]. split; [exact X|].
  set (a := bytes h v) in *. set (b := bytes h w) in *.
  pose proof (lex_lt_irrefl a). pose proof (lex_lt_irrefl b). pose proof (lex_lt_trans a b a).
  assert (Eq : a = b -> lex_lt a b -> False) by (intros Eab; rewrite Eab; assumption).
  assert (Eq' : a = b -> lex_lt b a -> False) by (intros Eab; rewrite Eab; assumption).
  assert (G : exists g, equals v (VView w) h = (g, Ok (bool_decide (a = b)))).
  { unfold equals. cbn [isBuffer strict_eq]. rewrite Hb. cbn [negb].
    destruct (Nat.eqb_spec (vid v) (vid w)) as [N|N].
    - exists h. unfold a, b. rewrite (Hid N), bool_decide_eq_true_2 by reflexivity. reflexivity.
    - exists h'. rewrite (bind_ok _ _ _ _ _ E). unfold ret. do 3 f_equal.
      destruct (lex_sign_spec a b) as [[-> L]|[[-> L]|[-> L]]]; symmetry;
        [apply bool_decide_eq_false_2|apply bool_decide_eq_true_2|apply bool_decide_eq_false_2]; tauto. }
  destruct (lex_sign_spec a b) as [[-> L]|[[-> L]|[-> L]]]; repeat split; try tauto; try lia;
    intros; exfalso; tauto.
Qed.

(** [concat] of Buffers lays their bytes out one after the other in new
    memory: all of them when no length is given, else the given number of
    bytes, truncated or padded with zeros. *)
Theorem concat_spec h ws length n :
  heap_ok h -> Forall (fun w => view_ok h w /\ vbuffer w = true /\ (vid w <= fresh h)%nat) ws -> ws <> [] ->
  Z.of_nat (List.length (contents h ws)) < K_MAX_LENGTH ->
  (length = Undefined /\ n = List.length (contents h ws) \/ length = Num (of_Z (Z.of_nat n)) /\ Z.of_nat n < K_MAX_LENGTH) ->
  exists h' v, concat (VArray (map VView ws)) length h = (h', Ok v) /\
    fresh_buffer h h' v (take n (contents h ws ++ replicate n 0)).
Proof.
  unfold contents. intros Hh Hw Hne. set (all := List.concat (map (bytes h) ws)). intros Hall Hn. change K_MAX_LENGTH with 2147483647 in *.
  assert (Vok : Forall (view_ok h) ws) by (eapply Forall_impl; [exact Hw|cbv beta; tauto]).
  set (zs := replicate n 0). set (h1 := grown h zs). set (v := fresh_view h true (Z.of_nat n)).
  assert (Nb : Z.of_nat n < 2147483647) by (destruct Hn as [[_ ->]|[_ H]]; lia).
  pose proof (createBuffer_fresh (Z.of_nat n) h Hh ltac:(unfold K_MAX_LENGTH; lia)) as F.
  rewrite Nat2Z.id in F. fold zs h1 v in F.
  assert (Ok1 : Forall (element_ok h v) ws).
  { eapply Forall_impl; [exact Hw|]. intros w (W1 & W2 & W3). split; [exact W1|]. split; [exact W2|].
    cbn. lia. }
  destruct (concat_loop_run h v ws h1 0 zs F Hh Ok1 ltac:(lia) ltac:(fold all; lia)) as (h2 & E & F2).
  unfold zs in F2. rewrite overlay_zeros in F2. exists h2, v. split; [|exact F2].
  assert (A : allocUnsafe (Num (of_Z (Z.of_nat n))) h = (h1, Ok v)).
  { unfold allocUnsafe, assertSize. rewrite flt_of_Z by lia. zbool. erewrite bind_ok by reflexivity.
    erewrite bind_ok by reflexivity. rewrite flt_of_Z by lia. zbool. unfold checked.
    change K_MAX_LENGTH with 2147483647. rewrite fle_of_Z by lia. zbool.
    erewrite bind_ok by reflexivity. rewrite ToInt32_of_Z, !sint32_small by (rewrite ?sint32_small; lia).
    rewrite createBuffer_run by (unfold K_MAX_LENGTH; lia). rewrite Nat2Z.id. reflexivity. }
  unfold concat. destruct ws as [|w ws]; [contradiction|]. cbn [map]. 
  change (VView w :: map VView ws) with (map VView (w :: ws)).
  destruct Hn as [[-> En]|[-> _]].
  - erewrite bind_ok.
    2:{ rewrite (bind_ok _ _ _ _ _ (total_length_run h (w :: ws) 0 Vok ltac:(lia) ltac:(fold all; lia))).
        rewrite Z.add_0_l. fold all. rewrite <- En. reflexivity. }
    rewrite (bind_ok _ _ _ _ _ A), (bind_ok _ _ _ _ _ E). reflexivity.
  - erewrite bind_ok by reflexivity. rewrite (bind_ok _ _ _ _ _ A), (bind_ok _ _ _ _ _ E). reflexivity.
Qed.

(** [swap16], [swap32] and [swap64] reverse every group of two, four or
    eight bytes in place and answer the Buffer; a length that is not a
    multiple throws RangeError and changes nothing; doing it twice restores
    the bytes. *)
Theorem swap_spec h this k :
  heap_ok h -> view_ok h this -> k = 2%nat \/ k = 4%nat \/ k = 8%nat ->
  if vlen this mod Z.of_nat k =? 0 then
    exists h', swap_method k this h = (h', Ok this) /\
      bytes h' this = swapped (Z.to_nat (vlen this / Z.of_nat k)) k (bytes h this) /\
      exists h'', swap_method k this h' = (h'', Ok this) /\ bytes h'' this = bytes h this
  else swap_method k this h = (h, Throw (ERangeError [Txt (swap_error k)])).
Proof.
  intros Hh Hv Hk. pose proof (swap_method_run h this k Hh Hv Hk) as R.
  pose proof (length_bytes h this Hv) as L. set (n := Z.to_nat (vlen this / Z.of_nat k)) in *.
  destruct (Z.eqb_spec (vlen this mod Z.of_nat k) 0) as [E|E]; [|exact R].
  assert (K0 : 0 < Z.of_nat k) by (destruct Hk as [->|[->| ->]]; lia).
  assert (V : 0 <= vlen this) by (destruct Hv as (?&?&?); lia).
  pose proof (Z.div_mod (vlen this) (Z.of_nat k) ltac:(lia)) as D. rewrite E in D.
  assert (Q : 0 <= vlen this / Z.of_nat k) by (apply Z.div_pos; lia).
  assert (Ln : List.length (bytes h this) = (k * n)%nat) by (unfold n; lia).
  set (w := swapped n k (bytes h this)) in *.
  assert (Lw : List.length w = (k * n)%nat) by (unfold w; rewrite length_swapped; lia).
  assert (B1 : bytes (store h this 0 w) this = w).
  { rewrite bytes_store by (assumption || lia). apply splice_full. lia. }
  pose proof (swap_method_run (store h this 0 w) this k) as R2. rewrite E, B1 in R2. fold n in R2.
  replace (swapped n k w) with (bytes h this) in R2
    by (symmetry; unfold w; apply swapped_involutive; exact Ln).
  exists (store h this 0 w). split; [exact R|]. split; [exact B1|]. eexists. split.
  - apply R2; [apply heap_ok_store; [exact Hh|exact Hv|apply swapped_bytes, heap_ok_bytes, Hh]
              |apply view_ok_store, Hv|exact Hk].
  - rewrite bytes_store by (try apply view_ok_store; (assumption || lia)). rewrite B1.
    apply splice_full. lia.
Qed.


(** [toString] with integer bounds gives the text, in the named encoding, of
    the bytes between the bounds clipped to the Buffer, and the empty string
    when none are left; the bytes are not changed. *)
Theorem toString_spec h this name e s t :
  heap_ok h -> view_ok h this -> vlen this < 2 ^ 31 -> switch_encoding (Str name) = Some e ->
  0 <= s < 2 ^ 32 -> 0 <= t < 2 ^ 32 ->
  exists h', toString this (Some (Str name, Num (of_Z s), Num (of_Z t))) h =
    (h', Ok (if s <? Z.min t (vlen this) then text e (sub (bytes h this) s (Z.min t (vlen this))) else [])) /\
    mem h' = mem h.
Proof.
  intros Hh Hv Hl He Hs Ht. destruct (toString_run h this name e s t Hh Hv Hl He Hs Ht) as (h' & E & X).
  exists h'. split; [exact E|]. destruct X as [->| ->]; reflexivity.
Qed.

(** C21: the round trip of bytes through text: for hexadecimal, latin1 and base64
    on all bytes, for UTF-16 on an even number of them, for UTF-8 on UTF-8
    text and for ASCII on seven-bit bytes, [Buffer.from(b.toString(enc), enc)],
    the bounds of [toString] left out, is a new Buffer with the bytes of [b]. *)
Theorem bytes_text_bytes h this name e :
  heap_ok h -> view_ok h this -> vlen this < 2 ^ 31 -> switch_encoding (Str name) = Some e ->
  faithful_bytes e (bytes h this) ->
  Z.of_nat (List.length (text e (bytes h this))) <= K_STRING_MAX_LENGTH ->
  exists h1 s h2 v,
    toString this (Some (Str name, Undefined, Undefined)) h = (h1, Ok s) /\
    from (Str s) (Str name) Undefined h1 = (h2, Ok v) /\ fresh_buffer h1 h2 v (bytes h this).
Proof.
  intros Hh Hv Hl He Hf Hlen. assert (V : 0 <= vlen this) by (destruct Hv as (?&?&?); lia).
  pose proof (length_bytes h this Hv) as L. pose proof (heap_ok_bytes h this Hh) as Hb.
  destruct (toString_run h this name e 0 (vlen this) Hh Hv Hl He ltac:(lia) ltac:(lia)) as (h1 & E & X).
  rewrite <- toString_default in E by lia. cbv zeta in E. rewrite Z.min_id in E.
  assert (T : (if 0 <? vlen this then text e (sub (bytes h this) 0 (vlen this)) else []) = text e (bytes h this)).
  { rewrite <- L, sub_all. destruct (Z.ltb_spec 0 (Z.of_nat (List.length (bytes h this)))) as [P|P]; [reflexivity|].
    destruct (bytes h this); [|cbn in P; lia]. symmetry. apply text_nil. }
  rewrite T in E. exists h1, (text e (bytes h this)).
  assert (Hh1 : heap_ok h1).
  { destruct X as [->| ->]; [exact Hh|]. intros a k Ek. apply Hh in Ek as [E1 E2]. split; [exact E1|cbn; lia]. }
  destruct (fromString_run h1 (text e (bytes h this)) name e Hh1 (text_units (encode := codec e) _ Hb) Hlen He) as (h2 & v & E2 & F).
  rewrite codec_text in F by assumption. exists h2, v. split; [exact E|]. split; [exact E2|exact F].
Qed.

(** C22: the round trip of text through bytes: a string the encoding can hold
    ([faithful_text]: well-formed for UTF-8, any string for UTF-16, one-byte
    units for latin1, the encoder's own output for hexadecimal and base64)
    comes back from [Buffer.from(s, enc).toString(enc)]. *)
Theorem text_bytes_text h s name e :
  heap_ok h -> Forall unit16 s -> Z.of_nat (List.length s) <= K_STRING_MAX_LENGTH ->
  switch_encoding (Str name) = Some e -> faithful_text e s ->
  Z.of_nat (List.length (codec e s)) < 2 ^ 31 ->
  exists h1 v h2,
    from (Str s) (Str name) Undefined h = (h1, Ok v) /\
    toString v (Some (Str name, Undefined, Undefined)) h1 = (h2, Ok s).
Proof.
  intros Hh Hs Hl He Hf Hc.
  destruct (fromString_run h s name e Hh Hs Hl He) as (h1 & v & E & [F1 F2 F3 F4 F5 F6]).
  pose proof (length_bytes h1 v F2) as L. rewrite F4 in L.
  destruct (toString_run h1 v name e 0 (vlen v) F1 F2 ltac:(lia) He ltac:(lia) ltac:(lia)) as (h2 & E2 & _).
  rewrite <- toString_default in E2 by lia. cbv zeta in E2. rewrite Z.min_id, F4 in E2.
  assert (T : (if 0 <? vlen v then text e (sub (codec e s) 0 (vlen v)) else []) = s).
  { rewrite <- L, sub_all. rewrite <- (text_codec (encode := codec e) (decode := text e) s Hs Hf) at 3.
    destruct (Z.ltb_spec 0 (Z.of_nat (List.length (codec e s)))) as [P|P]; [reflexivity|].
    destruct (codec e s); [|cbn in P; lia]. symmetry. apply text_nil. }
  rewrite T in E2. exists h1, v, h2. split; [exact E|exact E2].
Qed.

(** ** Witnesses *)

Lemma compare_order_witness :
  exists h' c, compare (VView sample_view) (VView sample_tail) sample_heap = (h', Ok c) /\
    (c = -1 <-> lex_lt (bytes sample_heap sample_view) (bytes sample_heap sample_tail)).
Proof.
  destruct (compare_order sample_heap sample_view sample_tail sample_heap_ok sample_view_ok sample_tail_ok eq_refl
    ltac:(intros H; discriminate H)) as (h' & c & E & _ & L & _).
  exists h', c. exact (conj E L).
Defined.

Lemma concat_spec_witness :
  exists h' v, concat (VArray (map VView [sample_view; sample_tail])) (Num (of_Z 10)) sample_heap = (h', Ok v) /\
    bytes h' v = [1; 2; 3; 4; 5; 6; 7; 200; 3; 4].
Proof.
  assert (N : 10 < K_MAX_LENGTH) by reflexivity.
  destruct (concat_spec sample_heap [sample_view; sample_tail] (Num (of_Z 10)) 10 sample_heap_ok
    ltac:(repeat constructor; try apply sample_view_ok; try apply sample_tail_ok; cbn; lia)
    ltac:(discriminate) ltac:(vm_compute; congruence)
    (or_intror (conj eq_refl N))) as (h' & v & E & F).
  exists h', v. exact (conj E (fb_bytes _ _ _ _ F)).
Defined.

Lemma swap_spec_witness :
  exists h', swap32 sample_view sample_heap = (h', Ok sample_view) /\
    bytes h' sample_view = [4; 3; 2; 1; 200; 7; 6; 5].
Proof.
  destruct (swap_spec sample_heap sample_view 4 sample_heap_ok sample_view_ok (or_intror (or_introl eq_refl)))
    as (h' & E & B & _).
  exists h'. exact (conj E B).
Defined.

Lemma toString_spec_witness :
  exists h', toString sample_view (Some (Str (js "hex"), Num (of_Z 6), Num (of_Z 100))) sample_heap =
    (h', Ok (js "07c8")) /\ mem h' = mem sample_heap.
Proof.
  exact (toString_spec sample_heap sample_view (js "hex") Hex 6 100 sample_heap_ok sample_view_ok
    ltac:(cbn; lia) eq_refl ltac:(lia) ltac:(lia)).
Defined.

Lemma bytes_text_bytes_witness :
  exists h1 s h2 v,
    toString sample_view (Some (Str (js "base64"), Undefined, Undefined)) sample_heap = (h1, Ok s) /\
    from (Str s) (Str (js "base64")) Undefined h1 = (h2, Ok v) /\
    fresh_buffer h1 h2 v [1; 2; 3; 4; 5; 6; 7; 200].
Proof.
  exact (bytes_text_bytes sample_heap sample_view (js "base64") Base64 sample_heap_ok sample_view_ok
    ltac:(cbn; lia) eq_refl I ltac:(vm_compute; congruence)).
Defined.

Lemma text_bytes_text_witness :
  exists h1 v h2,
    from (Str [233; 8364]) (Str (js "utf8")) Undefined sample_heap = (h1, Ok v) /\
    toString v (Some (Str (js "utf8"), Undefined, Undefined)) h1 = (h2, Ok [233; 8364]).
Proof.
  exact (text_bytes_text sample_heap [233; 8364] (js "utf8") Utf8 sample_heap_ok (ascii_units [233; 8364] eq_refl)
    ltac:(vm_compute; congruence) eq_refl eq_refl ltac:(vm_compute; congruence)).
Defined.
