(* ===== verification/BufferSearchFacts.v ===== *)
(** Searching a Buffer: [indexOf] finds the first match, [lastIndexOf] the last. *)

From Stdlib Require Import SpecFloat String.
From stdpp Require Import base numbers list gmap.
From S2P Require Import Prelude JsNumber JsValue Base64 Encoding EncodingFacts BufferCore BufferCoreFacts.
From S2P Require Import BufferInt BufferIntFacts BufferOps.

Local Open Scope Z_scope.
Local Open Scope js_scope.

(** [p] occurs in [l] at index [i]. *)
Definition occurs (p l : list Z) (i : Z) : Prop :=
  0 <= i /\ forall j, 0 <= j < Z.of_nat (length p) -> zget l (i + j) = zget p j.

(** The first occurrence from [lo] on is [i]; there is none. *)
Definition first_match (p l : list Z) (lo i : Z) : Prop :=
  lo <= i /\ occurs p l i /\ forall k, lo <= k < i -> ~ occurs p l k.
Definition no_match (p l : list Z) (lo : Z) : Prop := forall k, lo <= k -> ~ occurs p l k.
(** The last occurrence up to [hi]. *)
Definition last_match (p l : list Z) (hi i : Z) : Prop :=
  i <= hi /\ occurs p l i /\ forall k, i < k <= hi -> ~ occurs p l k.
Definition no_match_down (p l : list Z) (hi : Z) : Prop := forall k, k <= hi -> ~ occurs p l k.

Lemma zget_bound {A} (l : list A) i x : zget l i = Some x -> 0 <= i < Z.of_nat (length l).
Proof.
  unfold zget. destruct (Z.leb_spec 0 i); [|discriminate]. intros E. apply lookup_lt_Some in E. lia.
Qed.

Lemma zget_inside {A} (l : list A) i : 0 <= i < Z.of_nat (length l) -> exists x, zget l i = Some x.
Proof.
  intros Hi. unfold zget. zbool. destruct (lookup_lt_is_Some_2 l (Z.to_nat i)) as [x E]; [lia|eauto].
Qed.

Lemma occurs_bound p l i : p <> [] -> occurs p l i -> i + Z.of_nat (length p) <= Z.of_nat (length l).
Proof.
  intros Hp [Hi H]. destruct p as [|x p]; [contradiction|]. cbn [length] in *.
  destruct (zget_inside (x :: p) (Z.of_nat (length p)) ltac:(cbn; lia)) as (y & E).
  rewrite <- (H (Z.of_nat (length p))) in E by lia. apply zget_bound in E. lia.
Qed.

(** ** Units

    The search compares units: bytes, or in UTF-16 two bytes at a time, which the
    code reads most significant first. *)
Fixpoint pairs (l : list Z) : list Z :=
  match l with
  | a :: b :: l => a * 256 + b :: pairs l
  | _ => []
  end.

Definition units_of (u : Z) (l : list Z) : list Z := if u =? 1 then l else pairs l.

Lemma pairs_ind (P : list Z -> Prop) : P [] -> (forall a, P [a]) -> (forall a b l, P l -> P (a :: b :: l)) -> forall l, P l.
Proof.
  intros H0 H1 H2. assert (G : forall n l, (length l <= n)%nat -> P l).
  { induction n as [|n IH]; intros [|a [|b l]] L; cbn in L; auto; try lia. apply H2, IH. lia. }
  intros l. exact (G (length l) l (le_n _)).
Qed.

Lemma zget_pairs l : forall i,
  zget (pairs l) i = match zget l (2 * i), zget l (2 * i + 1) with Some a, Some b => Some (a * 256 + b) | _, _ => None end.
Proof.
  induction l as [|a|a b l IH] using pairs_ind; intros i.
  - unfold zget. destruct (0 <=? i), (0 <=? 2 * i), (0 <=? 2 * i + 1); reflexivity.
  - cbn [pairs]. destruct (Z.le_gt_cases 1 (2 * i + 1)) as [L|L].
    + destruct (zget [a] (2 * i + 1)) as [x|] eqn:E; [apply zget_bound in E; cbn in E; lia|].
      unfold zget at 1. destruct (0 <=? i), (zget [a] (2 * i)); reflexivity.
    + unfold zget. zbool. reflexivity.
  - cbn [pairs]. destruct (Z.lt_trichotomy i 0) as [L|[-> |L]].
    + unfold zget. zbool. reflexivity.
    + reflexivity.
    + rewrite !zget_cons by lia. replace (2 * i - 1 - 1) with (2 * (i - 1)) by lia.
      replace (2 * i + 1 - 1 - 1) with (2 * (i - 1) + 1) by lia. apply IH.
Qed.

Lemma length_pairs l : Z.of_nat (length (pairs l)) = Z.of_nat (length l) / 2.
Proof.
  induction l as [|a|a b l IH] using pairs_ind; [reflexivity|reflexivity|]. cbn [pairs length].
  rewrite !Nat2Z.inj_succ, IH. replace (Z.succ (Z.succ (Z.of_nat (length l)))) with (Z.of_nat (length l) + 1 * 2) by lia.
  rewrite Z.div_add by lia. lia.
Qed.

Lemma pairs_small l : Forall byte l -> Forall (fun x => 0 <= x < 2 ^ 16) (pairs l).
Proof.
  induction l as [|a|a b l IH] using pairs_ind; intros F; try constructor;
    apply Forall_cons in F as [Fa F]; apply Forall_cons in F as [Fb F]; [unfold byte in *; lia|exact (IH F)].
Qed.

Lemma zget_Forall {P : Z -> Prop} l i x : Forall P l -> zget l i = Some x -> P x.
Proof. intros F. unfold zget. destruct (0 <=? i); [|discriminate]. intros E. exact (Forall_lookup_1 _ _ _ _ F E). Qed.

(** An occurrence among the units is an aligned one among the bytes. *)
Lemma occurs_pairs p l i : Forall byte p -> Forall byte l -> Z.of_nat (length p) mod 2 = 0 ->
  occurs (pairs p) (pairs l) i <-> occurs p l (2 * i).
Proof.
  intros Fp Fl Ep. split; intros [Hi H]; (split; [lia|]).
  - assert (G : forall k, 0 <= k < Z.of_nat (length p) / 2 ->
              zget l (2 * i + 2 * k) = zget p (2 * k) /\ zget l (2 * i + (2 * k + 1)) = zget p (2 * k + 1)).
    { intros k Hk. specialize (H k). rewrite length_pairs in H. specialize (H Hk). rewrite !zget_pairs in H.
      destruct (zget_inside p (2 * k)) as [a Ea]; [pose proof (Z_div_mod_eq_full (Z.of_nat (length p)) 2); lia|].
      destruct (zget_inside p (2 * k + 1)) as [b Eb]; [pose proof (Z_div_mod_eq_full (Z.of_nat (length p)) 2); lia|].
      rewrite Ea, Eb in *. replace (2 * (i + k)) with (2 * i + 2 * k) in H by lia.
      replace (2 * i + 2 * k + 1) with (2 * i + (2 * k + 1)) in H by lia.
      destruct (zget l (2 * i + 2 * k)) as [c|] eqn:Ec; [|discriminate].
      destruct (zget l (2 * i + (2 * k + 1))) as [d|] eqn:Ed; [|discriminate]. injection H as H.
      apply (zget_Forall _ _ _ Fp) in Ea, Eb. apply (zget_Forall _ _ _ Fl) in Ec, Ed. unfold byte in *.
      split; f_equal; lia. }
    intros j Hj. pose proof (Z_div_mod_eq_full (Z.of_nat (length p)) 2).
    pose proof (Z_div_mod_eq_full j 2) as D. pose proof (Z.mod_pos_bound j 2 ltac:(lia)).
    destruct (G (j / 2) ltac:(lia)) as [G0 G1].
    destruct (Z.eq_dec (j mod 2) 0); [replace j with (2 * (j / 2)) by lia; exact G0|].
    replace j with (2 * (j / 2) + 1) by lia. exact G1.
  - intros k Hk. rewrite length_pairs in Hk. pose proof (Z_div_mod_eq_full (Z.of_nat (length p)) 2).
    rewrite !zget_pairs. replace (2 * (i + k)) with (2 * i + 2 * k) by lia.
    replace (2 * i + 2 * k + 1) with (2 * i + (2 * k + 1)) by lia. rewrite !H by lia. reflexivity.
Qed.

Section Search.
Context (h : heap) (arr val : view) (u : Z) (l p : list Z).
Hypothesis Hu : 1 <= u <= 2.
Hypothesis Ha : Z.of_nat (length l) < 2 ^ 32.
Hypothesis Hp : 0 < Z.of_nat (length p) < 2 ^ 32.
Hypothesis Sa : Forall (fun x => 0 <= x < 2 ^ 16) l.
Hypothesis Sp : Forall (fun x => 0 <= x < 2 ^ 16) p.
Hypothesis Ra : forall i x, zget l i = Some x -> read_unit u arr (of_Z i) h = (h, Ok (Num (of_Z x))).
Hypothesis Rp : forall i x, zget p i = Some x -> read_unit u val (of_Z i) h = (h, Ok (Num (of_Z x))).

Abbreviation la := (Z.of_nat (length l)).
Abbreviation lp := (Z.of_nat (length p)).

Lemma needle_nonempty : p <> [].
Proof. intros E. rewrite E in Hp. cbn in Hp. lia. Qed.

(** Comparing two units that are in range. *)
Lemma unit_eq i j x y : zget l i = Some x -> zget p j = Some y ->
  strict_eq (Num (of_Z x)) (Num (of_Z y)) = bool_decide (zget l i = zget p j).
Proof.
  intros Ex Ey. rewrite Ex, Ey. apply (zget_Forall _ _ _ Sa) in Ex. apply (zget_Forall _ _ _ Sp) in Ey.
  rewrite strict_eq_num by lia. destruct (Z.eqb_spec x y) as [->|N]; symmetry;
    [apply bool_decide_eq_true_2; reflexivity|apply bool_decide_eq_false_2; congruence].
Qed.

(** The state of the forward loop: [m] units of [val] match at [s], which is
    [foundIndex] unless nothing has matched yet. *)
Definition found_of (s m : Z) : option num := if m =? 0 then None else Some (of_Z s).

Lemma index_forward_run fuel s m lo :
  lo <= s -> 0 <= s -> 0 <= m < lp -> s + m <= la ->
  (forall j, 0 <= j < m -> zget l (s + j) = zget p j) ->
  (forall k, lo <= k < s -> ~ occurs p l k) ->
  (la - s) * lp + (lp - m) < Z.of_nat fuel ->
  exists r, index_forward fuel u arr val (of_Z la) (of_Z lp) (of_Z (s + m)) (found_of s m) h =
    (h, Ok (of_Z (if r =? -1 then -1 else r * u))) /\ (first_match p l lo r \/ r = -1 /\ no_match p l lo).
Proof.
  revert s m. induction fuel as [|fuel IH]; intros s m Hlo Hs Hm Hsm Hpre Hno Hf; [nia|].
  cbn [index_forward]. rewrite flt_of_Z by lia. pose proof needle_nonempty as Pne.
  destruct (Z.ltb_spec (s + m) la) as [B|B].
  2:{ exists (-1). split; [reflexivity|right]. split; [reflexivity|]. intros k Hk Ho.
      apply (occurs_bound p l k Pne) in Ho as Hb.
      destruct (Z.lt_ge_cases k s); [eapply Hno; [|exact Ho]; lia|lia]. }
  destruct (zget_inside l (s + m) ltac:(lia)) as (x & Ex). destruct (zget_inside p m ltac:(lia)) as (y & Ey).
  erewrite bind_ok by exact (Ra _ _ Ex).
  replace (match found_of s m with None => of_Z 0 | Some f => fsub (of_Z (s + m)) f end) with (of_Z m).
  2:{ unfold found_of. destruct (Z.eqb_spec m 0) as [->|]; [reflexivity|]. rewrite fsub_of_Z by lia. f_equal. lia. }
  erewrite bind_ok by exact (Rp _ _ Ey). rewrite (unit_eq _ _ _ _ Ex Ey). case_bool_decide as E.
  - replace (match found_of s m with None => of_Z (s + m) | Some f => f end) with (of_Z s).
    2:{ unfold found_of. destruct (Z.eqb_spec m 0) as [->|]; [f_equal; lia|reflexivity]. }
    rewrite fsub_of_Z, fadd_of_Z, feq_of_Z by lia.
    assert (Hpre' : forall j, 0 <= j < m + 1 -> zget l (s + j) = zget p j).
    { intros j Hj. destruct (Z.eq_dec j m) as [->|]; [exact E|apply Hpre; lia]. }
    destruct (Z.eqb_spec (s + m - s + 1) lp) as [F|F].
    + exists s. split; [zbool; rewrite fmul_of_Z by nia; reflexivity|left].
      split; [exact Hlo|]. split; [|exact Hno]. split; [exact Hs|]. intros j Hj. apply Hpre'. lia.
    + rewrite fadd_of_Z by lia. replace (s + m + 1) with (s + (m + 1)) by lia.
      replace (Some (of_Z s)) with (found_of s (m + 1)) by (unfold found_of; zbool; reflexivity).
      apply IH; try assumption; try lia.
  - assert (Hno' : forall k, lo <= k < s + 1 -> ~ occurs p l k).
    { intros k Hk Ho. destruct (Z.eq_dec k s) as [->|]; [|eapply Hno; [|exact Ho]; lia].
      destruct Ho as [_ Ho]. apply E. apply Ho. lia. }
    replace (match found_of s m with None => of_Z (s + m) | Some f => fsub (of_Z (s + m)) (fsub (of_Z (s + m)) f) end)
      with (of_Z s).
    2:{ unfold found_of. destruct (Z.eqb_spec m 0) as [->|]; [f_equal; lia|].
        rewrite !fsub_of_Z by lia. f_equal. lia. }
    rewrite fadd_of_Z by lia. pose proof (IH (s + 1) 0) as G. rewrite Z.add_0_r in G.
    apply G; try assumption; try lia.
Qed.

(** The inner loop of the backward search. *)
Lemma match_at_run fuel i j :
  0 <= i -> i + lp <= la -> 0 <= j <= lp -> lp - j < Z.of_nat fuel ->
  (forall k, 0 <= k < j -> zget l (i + k) = zget p k) ->
  exists b, match_at fuel u arr val (of_Z lp) (of_Z i) (of_Z j) h = (h, Ok b) /\
    (if b then occurs p l i else ~ occurs p l i).
Proof.
  intros Hi Hb. revert j. induction fuel as [|fuel IH]; intros j Hj Hf Hpre; [lia|].
  cbn [match_at]. rewrite flt_of_Z by lia. destruct (Z.ltb_spec j lp) as [B|B].
  2:{ exists true. split; [reflexivity|]. split; [exact Hi|]. intros k Hk. apply Hpre. lia. }
  rewrite fadd_of_Z by lia.
  destruct (zget_inside l (i + j) ltac:(lia)) as (x & Ex). destruct (zget_inside p j ltac:(lia)) as (y & Ey).
  erewrite bind_ok by exact (Ra _ _ Ex). erewrite bind_ok by exact (Rp _ _ Ey).
  rewrite (unit_eq _ _ _ _ Ex Ey). case_bool_decide as E.
  - rewrite fadd_of_Z by lia. apply IH; [lia|lia|].
    intros k Hk. destruct (Z.eq_dec k j) as [->|]; [exact E|apply Hpre; lia].
  - exists false. split; [reflexivity|]. intros [_ Ho]. apply E, Ho. lia.
Qed.

Lemma index_backward_run fuel i hi :
  lp <= vlen val -> i <= hi -> i + lp <= la -> i < Z.of_nat fuel -> - 2 ^ 32 <= i ->
  (forall k, i < k <= hi -> ~ occurs p l k) ->
  exists r, index_backward fuel u arr val (of_Z lp) (of_Z i) h = (h, Ok (of_Z r)) /\
    (last_match p l hi r \/ r = -1 /\ no_match_down p l hi).
Proof.
  intros Hw.
  assert (Done : forall i, i < 0 -> (forall k, i < k <= hi -> ~ occurs p l k) -> no_match_down p l hi).
  { intros i' Hi' Hno k Hk Ho. destruct (Z.lt_ge_cases i' k); [eapply Hno; [|exact Ho]; lia|].
    destruct Ho as [Ho _]. lia. }
  revert i. induction fuel as [|fuel IH]; intros i Hhi Hb Hf Hlow Hno.
  { exists (-1). split; [reflexivity|right]. split; [reflexivity|]. apply (Done i); [lia|exact Hno]. }
  cbn [index_backward]. rewrite fle_of_Z by lia. destruct (Z.leb_spec 0 i) as [B|B].
  2:{ exists (-1). split; [reflexivity|right]. split; [reflexivity|]. apply (Done i); assumption. }
  destruct (match_at_run (S (Z.to_nat (vlen val))) i 0 B Hb ltac:(lia) ltac:(lia) ltac:(intros; lia))
    as (b & E & Ho).
  rewrite (bind_ok _ _ _ _ _ E). destruct b.
  - exists i. split; [reflexivity|left]. split; [exact Hhi|]. split; [exact Ho|exact Hno].
  - rewrite fsub_of_Z by lia. apply IH; try lia. intros k Hk.
    destruct (Z.eq_dec k i) as [->|]; [exact Ho|apply Hno; lia].
Qed.
End Search.

(** ** Reading units *)

Lemma read_unit_byte h v i x : Z.abs i <= 2 ^ 53 -> zget (bytes h v) i = Some x ->
  read_unit 1 v (of_Z i) h = (h, Ok (Num (of_Z x))).
Proof.
  intros Hi E. unfold read_unit. cbn [Z.eqb Pos.eqb]. unfold read, at_num.
  rewrite to_integer_of_Z, feq_of_Z, Z.eqb_refl by exact Hi. unfold elt. rewrite E. reflexivity.
Qed.

Lemma zget_byte_at h v i x : zget (bytes h v) i = Some x -> byte_at h v i = x.
Proof. intros E. unfold byte_at, elt. rewrite E. reflexivity. Qed.

Lemma read_unit_pair h v i x : heap_ok h -> view_ok h v -> vlen v < 2 ^ 31 -> zget (pairs (bytes h v)) i = Some x ->
  read_unit 2 v (of_Z i) h = (h, Ok (Num (of_Z x))).
Proof.
  intros Hh Hv Hl E. pose proof (length_bytes h v Hv) as L. pose proof (zget_bound _ _ _ E) as B.
  rewrite length_pairs, L in B. pose proof (Z_div_mod_eq_full (vlen v) 2). pose proof (Z.mod_pos_bound (vlen v) 2 ltac:(lia)).
  rewrite zget_pairs in E. destruct (zget (bytes h v) (2 * i)) as [a|] eqn:Ea; [|discriminate].
  destruct (zget (bytes h v) (2 * i + 1)) as [b|] eqn:Eb; [|discriminate]. injection E as <-.
  unfold read_unit. cbn [Z.eqb Pos.eqb]. rewrite fmul_of_Z by lia.
  pose proof (read16_run h v (Num (of_Z (i * 2))) Undefined (i * 2) Hh Hv (offset_is_num (i * 2) ltac:(lia)) ltac:(lia)) as R.
  specialize (R false true ltac:(lia)). cbn [read_method] in R. rewrite R. do 4 f_equal.
  replace (i * 2) with (2 * i) by lia. rewrite !seg_S by (assumption || lia).
  rewrite (zget_byte_at _ _ _ _ Ea), (zget_byte_at _ _ _ _ Eb). change (seg h v (2 * i + 1 + 1) 0) with (@nil Z).
  cbn. lia.
Qed.

(** What the search needs to know of a view whose length is a multiple of the unit. *)
Lemma view_units h v u : heap_ok h -> view_ok h v -> vlen v < 2 ^ 31 -> u = 1 \/ u = 2 -> vlen v mod u = 0 ->
  Z.of_nat (length (units_of u (bytes h v))) = vlen v / u /\
  Forall (fun x => 0 <= x < 2 ^ 16) (units_of u (bytes h v)) /\
  forall i x, zget (units_of u (bytes h v)) i = Some x -> read_unit u v (of_Z i) h = (h, Ok (Num (of_Z x))).
Proof.
  intros Hh Hv Hl Hu Hd. pose proof (length_bytes h v Hv) as L. pose proof (heap_ok_bytes h v Hh) as Hb.
  destruct Hu as [-> | ->]; unfold units_of; cbn [Z.eqb Pos.eqb].
  - rewrite L, Z.div_1_r. split; [reflexivity|]. split; [eapply Forall_impl; [exact Hb|unfold byte; cbv beta; lia]|].
    intros i x E. pose proof (zget_bound _ _ _ E). apply read_unit_byte; [lia|exact E].
  - rewrite length_pairs, L. split; [reflexivity|]. split; [apply pairs_small, Hb|].
    intros i x E. apply read_unit_pair; assumption.
Qed.

(** ** Matches at multiples of the unit *)

Definition first_aligned (u : Z) (p l : list Z) (lo i : Z) : Prop :=
  lo <= i /\ i mod u = 0 /\ occurs p l i /\ forall k, lo <= k < i -> k mod u = 0 -> ~ occurs p l k.
Definition none_aligned (u : Z) (p l : list Z) (lo : Z) : Prop := forall k, lo <= k -> k mod u = 0 -> ~ occurs p l k.
Definition last_aligned (u : Z) (p l : list Z) (hi i : Z) : Prop :=
  i <= hi /\ i mod u = 0 /\ occurs p l i /\ forall k, i < k <= hi -> k mod u = 0 -> ~ occurs p l k.
Definition none_aligned_down (u : Z) (p l : list Z) (hi : Z) : Prop := forall k, k <= hi -> k mod u = 0 -> ~ occurs p l k.

Lemma occurs_units u p l i : u = 1 \/ u = 2 -> Forall byte p -> Forall byte l -> Z.of_nat (length p) mod u = 0 ->
  occurs (units_of u p) (units_of u l) i <-> occurs p l (i * u).
Proof.
  intros [-> | ->] Fp Fl Ep; unfold units_of; cbn [Z.eqb Pos.eqb].
  - rewrite Z.mul_1_r. reflexivity.
  - rewrite Z.mul_comm. apply occurs_pairs; assumption.
Qed.

Section Aligned.
Context (u : Z) (p l : list Z).
Hypothesis Hu : u = 1 \/ u = 2.
Hypothesis Fp : Forall byte p.
Hypothesis Fl : Forall byte l.
Hypothesis Ep : Z.of_nat (length p) mod u = 0.

Lemma aligned_multiple k : k mod u = 0 -> k = k / u * u.
Proof. intros H. pose proof (Z_div_mod_eq_full k u). lia. Qed.

Lemma first_units lo r : 0 <= lo -> first_match (units_of u p) (units_of u l) lo r -> first_aligned u p l (lo * u) (r * u).
Proof.
  intros Hlo (H1 & H2 & H3). split; [destruct Hu as [-> | ->]; lia|]. split; [apply Z.mod_mul; lia|].
  split; [apply occurs_units; assumption|]. intros k Hk Km Ho. rewrite (aligned_multiple k Km) in Ho, Hk.
  apply (H3 (k / u)); [destruct Hu as [-> | ->]; lia|]. apply occurs_units; assumption.
Qed.

Lemma none_units lo : no_match (units_of u p) (units_of u l) lo -> none_aligned u p l (lo * u).
Proof.
  intros H k Hk Km Ho. rewrite (aligned_multiple k Km) in Ho, Hk. apply (H (k / u)); [destruct Hu as [-> | ->]; lia|].
  apply occurs_units; assumption.
Qed.

Lemma last_units hi r : last_match (units_of u p) (units_of u l) hi r -> last_aligned u p l (hi * u) (r * u).
Proof.
  intros (H1 & H2 & H3). split; [destruct Hu as [-> | ->]; lia|]. split; [apply Z.mod_mul; lia|].
  split; [apply occurs_units; assumption|]. intros k Hk Km Ho. rewrite (aligned_multiple k Km) in Ho, Hk.
  apply (H3 (k / u)); [destruct Hu as [-> | ->]; lia|]. apply occurs_units; assumption.
Qed.

Lemma none_units_down hi : no_match_down (units_of u p) (units_of u l) hi -> none_aligned_down u p l (hi * u).
Proof.
  intros H k Hk Km Ho. rewrite (aligned_multiple k Km) in Ho, Hk. apply (H (k / u)); [destruct Hu as [-> | ->]; lia|].
  apply occurs_units; assumption.
Qed.
End Aligned.

(** ** [arrayIndexOf] *)

(** The unit an encoding argument asks for. *)
Definition unit_of (encoding : val) : Z := if negb (is_undefined encoding) && is_ucs2_name encoding then 2 else 1.

Lemma unit_cases e : unit_of e = 1 \/ unit_of e = 2.
Proof. unfold unit_of. destruct (_ && _); auto. Qed.

(** [n / 2] when the unit has two bytes; a number of units, or of half units. *)
Lemma halved z : Z.abs z <= 2 ^ 40 -> fdiv (of_Z z) (of_Z 2) = dy z (-1).
Proof.
  intros Hz. change (of_Z 2) with (of_Z (2 ^ 1)). rewrite of_Z_pow2 by lia. unfold of_Z.
  rewrite fdiv_pow2; [reflexivity|apply fits_int; lia|lia|apply fits_small; lia].
Qed.

Lemma whole_half z : Z.abs z <= 2 ^ 40 -> z mod 2 = 0 -> dy z (-1) = of_Z (z / 2).
Proof.
  intros Hz E. pose proof (Z_div_mod_eq_full z 2). unfold of_Z. apply dy_dyeq; [apply fits_small; lia|].
  replace z with (z / 2 * 2 ^ 1) at 1 by lia. apply dyeq_shift. lia.
Qed.

Lemma units_count len u : u = 1 \/ u = 2 -> 0 < len -> len mod u = 0 -> 0 < len / u <= len.
Proof.
  intros Hu Hl M. pose proof (Z_div_mod_eq_full len u). split; [|apply Z.div_le_upper_bound]; destruct Hu as [-> | ->]; lia.
Qed.

Lemma arrayIndexOf_forward h arr val enc lo :
  heap_ok h -> view_ok h arr -> view_ok h val -> 0 < vlen arr < 2 ^ 31 -> 0 < vlen val < 2 ^ 31 -> 0 <= lo < vlen arr ->
  vlen arr mod unit_of enc = 0 -> vlen val mod unit_of enc = 0 -> lo mod unit_of enc = 0 ->
  exists r, arrayIndexOf arr val (of_Z lo) enc true h = (h, Ok (of_Z r)) /\
    (first_aligned (unit_of enc) (bytes h val) (bytes h arr) lo r \/
     r = -1 /\ none_aligned (unit_of enc) (bytes h val) (bytes h arr) lo).
Proof.
  intros Hh Ha Hw La Lw Hlo Ma Mw Ml. pose proof (unit_cases enc) as Hu. set (u := unit_of enc) in *.
  pose proof (heap_ok_bytes h arr Hh) as Fa. pose proof (heap_ok_bytes h val Hh) as Fw.
  assert (Ep : Z.of_nat (length (bytes h val)) mod u = 0) by (rewrite length_bytes by exact Hw; exact Mw).
  destruct (view_units h arr u Hh Ha ltac:(lia) Hu Ma) as (A1 & A2 & A3).
  destruct (view_units h val u Hh Hw ltac:(lia) Hu Mw) as (W1 & W2 & W3).
  pose proof (units_count (vlen val) u Hu ltac:(lia) Mw) as Qw. pose proof (units_count (vlen arr) u Hu ltac:(lia) Ma) as Qa.
  pose proof (index_forward_run h arr val u (units_of u (bytes h arr)) (units_of u (bytes h val)) ltac:(lia) ltac:(lia) ltac:(lia)
                A2 W2 A3 W3 (search_fuel arr val) (lo / u) 0 (lo / u)) as R.
  rewrite Z.add_0_r, A1, W1 in R. change (found_of (lo / u) 0) with (@None num) in R.
  assert (Q : lo / u <= vlen arr / u) by (apply Z.div_le_mono; lia).
  assert (Q0 : 0 <= lo / u) by (apply Z.div_pos; lia).
  destruct R as (r & R & A); [lia|lia|lia|lia|intros; lia|intros; lia|unfold search_fuel; nia|].
  exists (if r =? -1 then -1 else r * u). split.
  - rewrite <- R. unfold arrayIndexOf. fold u. unfold u, unit_of in *.
    destruct (negb (is_undefined enc) && is_ucs2_name enc); cbn [andb].
    + assert (2 <= vlen arr /\ 2 <= vlen val) as [? ?]
        by (pose proof (Z_div_mod_eq_full (vlen arr) 2); pose proof (Z_div_mod_eq_full (vlen val) 2); lia).
      zbool. cbn [orb]. rewrite !halved, !whole_half by lia. reflexivity.
    + rewrite !Z.div_1_r. reflexivity.
  - assert (El : lo / u * u = lo) by (pose proof (Z_div_mod_eq_full lo u); lia).
    destruct A as [A|[-> A]].
    + left. assert (0 <= r) by (destruct A as (_ & (? & _) & _); assumption). zbool. rewrite <- El. apply first_units; assumption.
    + right. split; [reflexivity|]. rewrite <- El. apply none_units; assumption.
Qed.

(** The index a search backwards starts from, in units: past it the bytes occur nowhere. *)
Lemma backward_start p l u lp ll hi : u = 1 \/ u = 2 -> Z.of_nat (length p) = lp -> Z.of_nat (length l) = ll ->
  0 < lp -> 0 < ll < 2 ^ 31 -> lp < 2 ^ 31 -> 0 <= hi < ll -> ll mod u = 0 -> lp mod u = 0 ->
  hi mod u = 0 \/ ll < hi + lp ->
  let i := if ll <? hi + lp then ll / u - lp / u else hi / u in
  i * u <= hi /\ i + lp / u <= ll / u /\ - 2 ^ 32 <= i /\ i < ll + 1 /\
    forall k, i * u < k <= hi -> k mod u = 0 -> ~ occurs p l k.
Proof.
  intros Hu Ep El Hp Hl Hp' Hhi Ml Mp M. cbv zeta.
  pose proof (units_count ll u Hu ltac:(lia) Ml). pose proof (units_count lp u Hu Hp Mp).
  pose proof (Z_div_mod_eq_full hi u). pose proof (Z_div_mod_eq_full ll u). pose proof (Z_div_mod_eq_full lp u).
  destruct (Z.ltb_spec ll (hi + lp)) as [B|B].
  - repeat split; [destruct Hu as [E|E]; rewrite E in *; lia|lia..|].
    intros k Hk _ Ho. apply occurs_bound in Ho; [|intros ->; cbn in Ep; lia]. destruct Hu as [E|E]; rewrite E in *; lia.
  - assert (hi mod u = 0) by (destruct M; [assumption|lia]).
    repeat split; [lia|destruct Hu as [E|E]; rewrite E in *; lia..|intros; lia].
Qed.

Lemma arrayIndexOf_backward h arr val enc hi :
  heap_ok h -> view_ok h arr -> view_ok h val -> 0 < vlen arr < 2 ^ 31 -> 0 < vlen val < 2 ^ 31 -> 0 <= hi < vlen arr ->
  vlen arr mod unit_of enc = 0 -> vlen val mod unit_of enc = 0 ->
  hi mod unit_of enc = 0 \/ vlen arr < hi + vlen val ->
  exists r, arrayIndexOf arr val (of_Z hi) enc false h = (h, Ok (of_Z r)) /\
    (last_aligned (unit_of enc) (bytes h val) (bytes h arr) hi (r * unit_of enc) \/
     r = -1 /\ none_aligned_down (unit_of enc) (bytes h val) (bytes h arr) hi).
Proof.
  intros Hh Ha Hw La Lw Hhi Ma Mw Ml. pose proof (unit_cases enc) as Hu. set (u := unit_of enc) in *.
  pose proof (heap_ok_bytes h arr Hh) as Fa. pose proof (heap_ok_bytes h val Hh) as Fw.
  assert (Lp : Z.of_nat (length (bytes h val)) = vlen val) by apply length_bytes, Hw.
  assert (Lq : Z.of_nat (length (bytes h arr)) = vlen arr) by apply length_bytes, Ha.
  assert (Ep : Z.of_nat (length (bytes h val)) mod u = 0) by (rewrite Lp; exact Mw).
  destruct (view_units h arr u Hh Ha ltac:(lia) Hu Ma) as (A1 & A2 & A3).
  destruct (view_units h val u Hh Hw ltac:(lia) Hu Mw) as (W1 & W2 & W3).
  pose proof (Z_div_mod_eq_full (vlen val) u) as Dw. pose proof (Z_div_mod_eq_full (vlen arr) u) as Da.
  pose proof (units_count (vlen val) u Hu ltac:(lia) Mw) as Qw. pose proof (units_count (vlen arr) u Hu ltac:(lia) Ma) as Qa.
  set (i := if vlen arr <? hi + vlen val then vlen arr / u - vlen val / u else hi / u).
  destruct (backward_start (bytes h val) (bytes h arr) u (vlen val) (vlen arr) hi Hu Lp Lq ltac:(lia) La ltac:(lia) Hhi Ma Mw Ml)
    as (I1 & I2 & I3 & I4 & I5). fold i in I1, I2, I3, I4, I5.
  pose proof (index_backward_run h arr val u (units_of u (bytes h arr)) (units_of u (bytes h val)) ltac:(lia) ltac:(lia)
                A2 W2 A3 W3 (S (Z.to_nat (vlen arr))) i i) as R.
  rewrite A1, W1 in R. destruct R as (r & R & A); [lia|lia|lia|lia|lia|intros; lia|].
  exists r. split.
  - rewrite <- R. unfold arrayIndexOf. fold u. unfold i, u, unit_of in *.
    destruct (negb (is_undefined enc) && is_ucs2_name enc); cbn [andb].
    + assert (2 <= vlen arr /\ 2 <= vlen val) as [? ?] by lia.
      zbool. cbn [orb]. rewrite !halved by lia.
      rewrite fadd_dy, flt_dy by (apply fits_small; lia).
      rewrite (whole_half (vlen val)) by lia. f_equal.
      destruct (Z.ltb_spec (vlen arr) (hi + vlen val)) as [B|B].
      * rewrite whole_half by lia. apply fsub_of_Z; lia.
      * apply whole_half; [lia|]. destruct Ml; [assumption|lia].
    + rewrite !Z.div_1_r in *. rewrite fadd_of_Z, flt_of_Z by lia.
      destruct (vlen arr <? hi + vlen val); [rewrite fsub_of_Z by lia|]; reflexivity.
  - destruct A as [A|[-> A]].
    + left. apply (last_units u (bytes h val) (bytes h arr) Hu Fw Fa Ep) in A. destruct A as (B1 & B2 & B3 & B4).
      split; [lia|]. split; [exact B2|]. split; [exact B3|]. intros k Hk Km.
      destruct (Z.le_gt_cases k (i * u)); [apply B4; [lia|exact Km]|apply I5; [lia|exact Km]].
    + right. split; [reflexivity|]. intros k Hk Km.
      destruct (Z.le_gt_cases k (i * u)); [|apply I5; [lia|exact Km]].
      apply (none_units_down u (bytes h val) (bytes h arr) Hu Fw Fa Ep i A); assumption.
Qed.

(** ** Offsets *)

Lemma normalize_run h len z dir :
  0 < len < 2 ^ 31 -> - 2 ^ 31 <= z < 2 ^ 31 ->
  normalize_offset len (Num (of_Z z)) dir h = (h, Ok (of_Z (if z <? 0 then len + z else z))).
Proof.
  intros Hl Hz. unfold normalize_offset. rewrite !js_lt_num by lia. zbool.
  erewrite bind_ok by reflexivity. rewrite is_nan_of_Z, flt_of_Z by lia.
  destruct (Z.ltb_spec z 0); [rewrite fadd_of_Z by lia|]; reflexivity.
Qed.

Lemma normalize_default h len dir :
  0 < len < 2 ^ 31 ->
  normalize_offset len Undefined dir h = (h, Ok (of_Z (if dir then 0 else len - 1))).
Proof.
  intros Hl. unfold normalize_offset. rewrite js_lt_undef_r, js_lt_undef_l.
  erewrite bind_ok by reflexivity. cbn [is_nan NaN]. destruct dir; rewrite flt_of_Z by lia; [reflexivity|].
  zbool. reflexivity.
Qed.

(** The index the search starts from, for an integer offset. *)
Definition from_index (len z : Z) (dir : bool) : option Z :=
  let n := if z <? 0 then len + z else z in
  if dir then (if len <=? n then None else Some (Z.max 0 n))
  else (if n <? 0 then None else Some (Z.min n (len - 1))).

(** [bidirectionalIndexOf] up to the search itself. *)
Lemma search_head h buffer v z enc dir start :
  0 < vlen buffer < 2 ^ 31 -> - 2 ^ 31 <= z < 2 ^ 31 -> from_index (vlen buffer) z dir = Some start ->
  bidirectionalIndexOf buffer v (Num (of_Z z)) enc dir h =
    (let! v := match v with
               | Str _ => let! b := from v enc Undefined in ret (VView b)
               | _ => ret v
               end in
     match v with
     | VView w =>
         if negb (vbuffer w) then throw_type [Txt "val must be string, number or Buffer"]
         else if vlen w =? 0 then ret (of_Z (-1))
         else arrayIndexOf buffer w (of_Z start) enc dir
     | Num x =>
         let b := and32 (ToInt32 x) 255 in
         read (fun h => of_Z (if dir then indexOf_byte (bytes h buffer) b (to_integer (of_Z start))
                              else lastIndexOf_byte (bytes h buffer) b (to_integer (of_Z start))))
     | _ => throw_type [Txt "val must be string, number or Buffer"]
     end) h.
Proof.
  intros Hl Hz Hs. unfold bidirectionalIndexOf. cbv zeta. zbool.
  cbn [is_string]. rewrite (bind_ok _ _ _ _ _ (normalize_run h (vlen buffer) z dir Hl Hz)).
  unfold from_index in Hs. cbv zeta in Hs. set (n := if z <? 0 then vlen buffer + z else z) in *.
  assert (Hn : - 2 ^ 32 <= n < 2 ^ 32) by (unfold n; destruct (Z.ltb_spec z 0); lia).
  rewrite fle_of_Z, flt_of_Z by lia.
  replace (if vlen buffer <=? n then of_Z (vlen buffer - 1) else if n <? 0 then of_Z 0 else of_Z n)
    with (of_Z start).
  - destruct dir; [destruct (Z.leb_spec (vlen buffer) n); [discriminate|]|destruct (Z.ltb_spec n 0); [discriminate|]];
      cbn [andb negb]; rewrite ?andb_false_r; reflexivity.
  - destruct dir; [destruct (Z.leb_spec (vlen buffer) n); [discriminate|]|destruct (Z.ltb_spec n 0); [discriminate|]];
      injection Hs as <-; destruct (Z.leb_spec (vlen buffer) n), (Z.ltb_spec n 0); try lia; f_equal; lia.
Qed.

(** ** Searching for one byte *)

Lemma occurs_single b l i : occurs [b] l i <-> 0 <= i /\ zget l i = Some b.
Proof.
  split.
  - intros [Hi H]. split; [exact Hi|]. specialize (H 0 ltac:(cbn; lia)). rewrite Z.add_0_r in H. exact H.
  - intros [Hi H]. split; [exact Hi|]. intros j Hj. cbn in Hj. replace j with 0 by lia.
    rewrite Z.add_0_r. exact H.
Qed.

Lemma find_byte_spec l b i : 0 <= i ->
  let r := find_byte l b i in
  (i <= r /\ zget l (r - i) = Some b /\ forall k, i <= k < r -> zget l (k - i) <> Some b) \/
  (r = -1 /\ forall k, i <= k -> zget l (k - i) <> Some b).
Proof.
  revert i. induction l as [|x l IH]; intros i Hi; cbv zeta; cbn [find_byte].
  - right. split; [reflexivity|]. intros k _. unfold zget. destruct (0 <=? k - i); discriminate.
  - destruct (Z.eqb_spec x b) as [->|N].
    + left. split; [lia|]. rewrite Z.sub_diag. split; [reflexivity|]. intros; lia.
    + assert (Hk : forall k, i <= k -> zget l (k - (i + 1)) <> Some b -> zget (x :: l) (k - i) <> Some b).
      { intros k Hk Hz. destruct (Z.eq_dec k i) as [->|].
        - rewrite Z.sub_diag. intros [=]. contradiction.
        - rewrite zget_cons by lia. replace (k - i - 1) with (k - (i + 1)) by lia. exact Hz. }
      destruct (IH (i + 1) ltac:(lia)) as [(H1 & H2 & H3)|(H1 & H2)].
      * left. split; [lia|]. split.
        -- rewrite zget_cons by lia. replace (find_byte l b (i + 1) - i - 1) with (find_byte l b (i + 1) - (i + 1)) by lia.
           exact H2.
        -- intros k K. apply Hk; [lia|]. destruct (Z.eq_dec k i) as [->|]; [|apply H3; lia].
           unfold zget. zbool. discriminate.
      * right. split; [exact H1|]. intros k K. apply Hk; [exact K|].
        destruct (Z.eq_dec k i) as [->|]; [unfold zget; zbool; discriminate|apply H2; lia].
Qed.

Lemma zget_drop_Z {A} (l : list A) lo i : 0 <= lo -> 0 <= i -> zget (drop (Z.to_nat lo) l) i = zget l (lo + i).
Proof. intros. unfold zget. zbool. rewrite lookup_drop. f_equal. lia. Qed.

Lemma indexOf_byte_spec l b lo : 0 <= lo ->
  first_match [b] l lo (indexOf_byte l b lo) \/ indexOf_byte l b lo = -1 /\ no_match [b] l lo.
Proof.
  intros Hlo. unfold indexOf_byte. pose proof (find_byte_spec (drop (Z.to_nat lo) l) b lo Hlo) as F.
  cbv zeta in F. set (r := find_byte _ b lo) in *. destruct F as [(H1 & H2 & H3)|(H1 & H2)].
  - left. split; [exact H1|]. rewrite zget_drop_Z in H2 by lia. replace (lo + (r - lo)) with r in H2 by lia.
    split; [apply occurs_single; split; [lia|exact H2]|].
    intros k Hk Ho. apply occurs_single in Ho as [_ Ho]. apply (H3 k Hk).
    rewrite zget_drop_Z by lia. replace (lo + (k - lo)) with k by lia. exact Ho.
  - right. split; [exact H1|]. intros k Hk Ho. apply occurs_single in Ho as [_ Ho]. apply (H2 k Hk).
    rewrite zget_drop_Z by lia. replace (lo + (k - lo)) with k by lia. exact Ho.
Qed.

Lemma find_byte_down_spec l b hi : hi = Z.of_nat (length l) - 1 ->
  let r := find_byte_down (reverse l) b hi in
  (0 <= r <= hi /\ zget l r = Some b /\ forall k, r < k <= hi -> zget l k <> Some b) \/
  (r = -1 /\ forall k, k <= hi -> zget l k <> Some b).
Proof.
  revert hi. induction l as [|x l IH] using rev_ind; intros hi Hhi; cbv zeta.
  - right. split; [reflexivity|]. intros k _. unfold zget. destruct (0 <=? k); discriminate.
  - rewrite reverse_snoc. cbn [find_byte_down]. rewrite length_app in Hhi. cbn [length] in Hhi.
    assert (Hx : zget (l ++ [x]) hi = Some x).
    { rewrite zget_app_r by lia. replace (hi - Z.of_nat (length l)) with 0 by lia. reflexivity. }
    destruct (Z.eqb_spec x b) as [->|N].
    + left. split; [lia|]. split; [exact Hx|]. intros; lia.
    + destruct (IH (hi - 1) ltac:(lia)) as [(H1 & H2 & H3)|(H1 & H2)].
      * left. split; [lia|]. rewrite zget_app_l by lia. split; [exact H2|]. intros k K.
        destruct (Z.eq_dec k hi) as [->|]; [rewrite Hx; congruence|]. rewrite zget_app_l by lia. apply H3. lia.
      * right. split; [exact H1|]. intros k K.
        destruct (Z.eq_dec k hi) as [->|]; [rewrite Hx; congruence|]. rewrite zget_app_l by lia. apply H2. lia.
Qed.

Lemma zget_take {A} (l : list A) n i : i < Z.of_nat n -> zget (take n l) i = zget l i.
Proof.
  intros H. unfold zget. destruct (Z.leb_spec 0 i); [|reflexivity]. apply lookup_take_lt. lia.
Qed.

Lemma lastIndexOf_byte_spec l b hi : 0 <= hi < Z.of_nat (length l) ->
  last_match [b] l hi (lastIndexOf_byte l b hi) \/ lastIndexOf_byte l b hi = -1 /\ no_match_down [b] l hi.
Proof.
  intros Hhi. unfold lastIndexOf_byte.
  pose proof (find_byte_down_spec (take (Z.to_nat (hi + 1)) l) b hi ltac:(rewrite length_take; lia)) as F.
  cbv zeta in F. set (r := find_byte_down _ b hi) in *.
  assert (T : forall k, k <= hi -> zget (take (Z.to_nat (hi + 1)) l) k = zget l k) by (intros; apply zget_take; lia).
  destruct F as [(H1 & H2 & H3)|(H1 & H2)].
  - left. rewrite T in H2 by lia. split; [lia|]. split; [apply occurs_single; split; [lia|exact H2]|].
    intros k Hk Ho. apply occurs_single in Ho as [_ Ho]. apply (H3 k Hk). rewrite T by lia. exact Ho.
  - right. split; [exact H1|]. intros k Hk Ho. apply occurs_single in Ho as [_ Ho]. apply (H2 k Hk).
    rewrite T by lia. exact Ho.
Qed.

(** ** Needles *)

(** What may be searched for: a Buffer, a string, a byte value. *)
Inductive needle := NBuf (w : view) | NStr (s : jsstr) | NByte (z : Z).

Definition needle_val (n : needle) : val :=
  match n with NBuf w => VView w | NStr s => Str s | NByte z => Num (of_Z z) end.
Definition needle_bytes (h : heap) (e : encoding) (n : needle) : list Z :=
  match n with NBuf w => bytes h w | NStr s => codec e s | NByte z => [z mod 256] end.
Definition needle_ok (h : heap) (e : encoding) (n : needle) : Prop :=
  match n with
  | NBuf w => view_ok h w /\ vbuffer w = true /\ vlen w < 2 ^ 31
  | NStr s => Forall unit16 s /\ Z.of_nat (length s) <= K_STRING_MAX_LENGTH /\ Z.of_nat (length (codec e s)) < 2 ^ 31
  | NByte z => Z.abs z <= 2 ^ 53
  end.

(** The encoding an argument names; UTF-8 when there is none. *)
Definition names (enc : val) (e : encoding) : Prop :=
  match enc with
  | Undefined => e = Utf8
  | Str name => switch_encoding (Str name) = Some e
  | _ => False
  end.

(** How many bytes are compared at a time. *)
Definition step_of (e : encoding) (n : needle) : Z :=
  match e, n with Ucs2, (NBuf _ | NStr _) => 2 | _, _ => 1 end.

Lemma names_unit enc e w : names enc e -> unit_of enc = step_of e (NBuf w).
Proof.
  unfold names, unit_of, is_ucs2_name, switch_encoding. destruct enc; try contradiction; [intros ->; reflexivity|].
  cbn [is_undefined negb andb name_of]. intros H.
  assert (E : encoding_of (toLowerCase s) = Some e).
  { destruct (encoding_of s) eqn:E; [|exact H]. injection H as <-. rewrite (encoding_of_lower s _ E); exact E. }
  rewrite E. destruct e; reflexivity.
Qed.

Lemma needle_from h s enc e : heap_ok h -> Forall unit16 s -> Z.of_nat (length s) <= K_STRING_MAX_LENGTH -> names enc e ->
  exists h' v, from (Str s) enc Undefined h = (h', Ok v) /\ fresh_buffer h h' v (codec e s).
Proof.
  intros Hh Hs Hl N. destruct enc; try contradiction; cbn [names] in N.
  - subst e. exact (fromString_run h s (js "utf8") Utf8 Hh Hs Hl eq_refl).
  - exact (fromString_run h s s0 e Hh Hs Hl N).
Qed.

(** The answer of a search in one direction from a starting index.  Backwards it
    counts in units. *)
Definition answer (dir : bool) (u : Z) (p l : list Z) (start r : Z) : Prop :=
  if dir then first_aligned u p l start r \/ r = -1 /\ none_aligned u p l start
  else last_aligned u p l start (r * u) \/ r = -1 /\ none_aligned_down u p l start.

(** A search for bytes compares at every index. *)
Lemma aligned_bytes (dir : bool) p l start r :
  (if dir then first_match p l start r \/ r = -1 /\ no_match p l start
   else last_match p l start r \/ r = -1 /\ no_match_down p l start) -> answer dir 1 p l start r.
Proof.
  unfold answer. destruct dir; (intros [(H1 & H2 & H3)|[-> H]]; [left|right; split; [reflexivity|]]).
  - split; [exact H1|]. split; [apply Z.mod_1_r|]. split; [exact H2|]. intros k Hk _. apply H3, Hk.
  - intros k Hk _. apply H, Hk.
  - rewrite Z.mul_1_r. split; [exact H1|]. split; [apply Z.mod_1_r|]. split; [exact H2|]. intros k Hk _. apply H3, Hk.
  - intros k Hk _. apply H, Hk.
Qed.

Lemma start_bounds len z dir start : 0 < len -> from_index len z dir = Some start -> 0 <= start < len.
Proof.
  intros Hl Ei. unfold from_index in Ei. cbv zeta in Ei. destruct dir;
    [destruct (Z.leb_spec len (if z <? 0 then len + z else z))
    |destruct (Z.ltb_spec (if z <? 0 then len + z else z) 0)]; try discriminate; injection Ei as <-; lia.
Qed.

(** An offset out of range in the direction of the search. *)
Lemma search_outside h this n z enc dir : 0 < vlen this < 2 ^ 31 -> - 2 ^ 31 <= z < 2 ^ 31 ->
  from_index (vlen this) z dir = None ->
  bidirectionalIndexOf this (needle_val n) (Num (of_Z z)) enc dir h = (h, Ok (of_Z (-1))).
Proof.
  intros Hl Hz Ei. unfold bidirectionalIndexOf. cbv zeta. zbool.
  cbn [is_string]. rewrite (bind_ok _ _ _ _ _ (normalize_run h (vlen this) z dir ltac:(lia) Hz)).
  unfold from_index in Ei. cbv zeta in Ei. set (m := if z <? 0 then vlen this + z else z) in *.
  assert (- 2 ^ 32 <= m < 2 ^ 32) by (unfold m; destruct (Z.ltb_spec z 0); lia).
  rewrite fle_of_Z, flt_of_Z by lia. destruct dir.
  - destruct (vlen this <=? m); [reflexivity|discriminate].
  - rewrite andb_false_r. destruct (m <? 0); [reflexivity|discriminate].
Qed.

(** The search of a buffer that was there, or was made from the value. *)
Lemma search_buffer h h1 this w start enc dir u p :
  heap_ok h1 -> view_ok h this -> view_ok h1 w -> extends h h1 ->
  0 < vlen this < 2 ^ 31 -> vlen w < 2 ^ 31 -> bytes h1 w = p -> p <> [] -> 0 <= start < vlen this ->
  u = unit_of enc -> vlen this mod u = 0 -> Z.of_nat (length p) mod u = 0 ->
  start mod u = 0 \/ dir = false /\ vlen this < start + Z.of_nat (length p) ->
  exists r, arrayIndexOf this w (of_Z start) enc dir h1 = (h1, Ok (of_Z r)) /\
    answer dir u p (bytes h this) start r /\ 0 < vlen w.
Proof.
  intros H1 Hv W1 X Hl W2 <- Hne St -> Ml Mp Ms. destruct (extends_view h h1 this X Hv) as [T1 <-].
  pose proof (length_bytes h1 w W1) as Lw.
  assert (W0 : 0 < vlen w) by (rewrite <- Lw; destruct (bytes h1 w); [contradiction|cbn; lia]).
  rewrite Lw in *. destruct dir.
  - destruct Ms as [Ms|[? _]]; [|discriminate].
    destruct (arrayIndexOf_forward h1 this w enc start) as (r & R & A); try assumption; try lia.
    exists r. split; [exact R|]. split; [exact A|exact W0].
  - destruct (arrayIndexOf_backward h1 this w enc start) as (r & R & A); try assumption; try lia.
    exists r. split; [exact R|]. split; [exact A|exact W0].
Qed.

Lemma search_run h this n z enc e dir :
  heap_ok h -> view_ok h this -> 0 < vlen this < 2 ^ 31 -> names enc e -> needle_ok h e n -> needle_bytes h e n <> [] ->
  - 2 ^ 31 <= z < 2 ^ 31 ->
  vlen this mod step_of e n = 0 -> Z.of_nat (length (needle_bytes h e n)) mod step_of e n = 0 ->
  (forall start, from_index (vlen this) z dir = Some start ->
     start mod step_of e n = 0 \/ dir = false /\ vlen this < start + Z.of_nat (length (needle_bytes h e n))) ->
  exists h' r, bidirectionalIndexOf this (needle_val n) (Num (of_Z z)) enc dir h = (h', Ok (of_Z r)) /\
    extends h h' /\
    match from_index (vlen this) z dir with
    | Some start => answer dir (step_of e n) (needle_bytes h e n) (bytes h this) start r
    | None => r = -1
    end.
Proof.
  intros Hh Hv Hl Hnm Hn Hne Hz Ml Mp Ms. pose proof (length_bytes h this Hv) as L.
  destruct (from_index (vlen this) z dir) as [start|] eqn:Ei.
  2:{ exists h, (-1). split; [apply search_outside; assumption|]. split; reflexivity. }
  specialize (Ms start eq_refl). pose proof (start_bounds _ _ _ _ (proj1 Hl) Ei) as St.
  rewrite (search_head h this (needle_val n) z enc dir start Hl Hz Ei).
  assert (Buf : forall h1 w, extends h h1 -> heap_ok h1 -> view_ok h1 w -> vlen w < 2 ^ 31 ->
    bytes h1 w = needle_bytes h e n -> step_of e n = unit_of enc ->
    exists r, arrayIndexOf this w (of_Z start) enc dir h1 = (h1, Ok (of_Z r)) /\
      answer dir (step_of e n) (needle_bytes h e n) (bytes h this) start r /\ 0 < vlen w)
    by (intros; apply search_buffer with (h := h); assumption).
  destruct n as [w|s|b]; cbn [needle_val needle_ok] in *.
  - destruct Hn as (Hw & Hb & Hl').
    destruct (Buf h w ltac:(reflexivity) Hh Hw Hl' eq_refl (eq_sym (names_unit enc e w Hnm))) as (r & R & A & W0).
    exists h, r. split; [|split; [reflexivity|exact A]].
    erewrite bind_ok by reflexivity. cbv beta iota. rewrite Hb. cbn [negb]. zbool. exact R.
  - destruct Hn as (Hs & Hsl & Hc).
    destruct (needle_from h s enc e Hh Hs Hsl Hnm) as (h1 & w & Ef & [F1 F2 F3 F4 F5 F6]).
    pose proof (length_bytes h1 w F2) as Lw. rewrite F4 in Lw.
    destruct (Buf h1 w F5 F1 F2 ltac:(lia) F4 (eq_sym (names_unit enc e this Hnm))) as (r & R & A & W0).
    exists h1, r. split; [|split; [exact F5|exact A]].
    erewrite bind_ok by (erewrite bind_ok by exact Ef; reflexivity). cbv beta iota. rewrite F3. cbn [negb]. zbool. exact R.
  - exists h, (if dir then indexOf_byte (bytes h this) (b mod 256) start
               else lastIndexOf_byte (bytes h this) (b mod 256) start).
    split; [|split; [reflexivity|]].
    + erewrite bind_ok by reflexivity. unfold read. rewrite ToInt32_of_Z, to_integer_of_Z by lia.
      replace (and32 (sint32 b) 255) with (b mod 256)
        by (unfold and32; rewrite land_255; symmetry; apply (sint32_mod b 8); lia).
      destruct dir; reflexivity.
    + replace (step_of e (NByte b)) with 1 by (destruct e; reflexivity). apply aligned_bytes.
      destruct dir; [apply indexOf_byte_spec; lia|apply lastIndexOf_byte_spec; lia].
Qed.

(** ** Properties *)

(** C28: [indexOf] of a non-empty Buffer, string or byte in a Buffer that is not
    empty answers the first index, from the given integer offset on (negative
    offsets counting from the end), at which the bytes occur, and -1 when they occur
    nowhere; a string is searched for in the encoding named, and UTF-16 compares two
    bytes at a time, at even indices: there the lengths of both Buffers and the offset
    are to be even.  The search always ends, changes no byte, and
    [includes] says whether it found something. *)
Theorem indexOf_spec h this n z enc e :
  heap_ok h -> view_ok h this -> 0 < vlen this < 2 ^ 31 -> names enc e -> needle_ok h e n -> needle_bytes h e n <> [] ->
  - 2 ^ 31 <= z < 2 ^ 31 -> z mod step_of e n = 0 ->
  vlen this mod step_of e n = 0 -> Z.of_nat (length (needle_bytes h e n)) mod step_of e n = 0 ->
  exists h' r, indexOf this (needle_val n) (Num (of_Z z)) enc h = (h', Ok (of_Z r)) /\
    extends h h' /\
    includes this (needle_val n) (Num (of_Z z)) enc h = (h', Ok (negb (r =? -1))) /\
    match from_index (vlen this) z true with
    | Some start => first_aligned (step_of e n) (needle_bytes h e n) (bytes h this) start r \/
                    r = -1 /\ none_aligned (step_of e n) (needle_bytes h e n) (bytes h this) start
    | None => r = -1
    end.
Proof.
  intros Hh Hv Hl Hnm Hn Hne Hz Mz Ml Mp.
  assert (Hu : step_of e n = 1 \/ step_of e n = 2) by (destruct e, n; cbn; auto).
  destruct (search_run h this n z enc e true Hh Hv Hl Hnm Hn Hne Hz Ml Mp) as (h' & r & E & X & A).
  { intros start Es. left. unfold from_index in Es. cbv zeta in Es.
    destruct (vlen this <=? _); [discriminate|]. injection Es as <-.
    destruct Hu as [U|U]; rewrite U in *; [apply Z.mod_1_r|]. destruct (Z.ltb_spec z 0); [|rewrite Z.max_r by lia; exact Mz].
    destruct (Z.max_spec 0 (vlen this + z)) as [[_ ->]|[_ ->]]; [|reflexivity].
    rewrite Z.add_mod, Ml, Mz by lia. reflexivity. }
  exists h', r. split; [exact E|]. split; [exact X|]. split; [|exact A].
  assert (B : -1 <= r < 2 ^ 32).
  { assert (O : forall i, occurs (needle_bytes h e n) (bytes h this) i -> 0 <= i < 2 ^ 32).
    { intros i Ho. pose proof (occurs_bound _ _ _ Hne Ho) as Hb. rewrite length_bytes in Hb by exact Hv.
      destruct Ho as [Ho _]. lia. }
    destruct (from_index _ _ _); [|lia]. destruct A as [(_ & _ & Ho & _)|[-> _]]; [apply O in Ho|]; lia. }
  unfold includes. unfold indexOf in E |- *. rewrite (bind_ok _ _ _ _ _ E). unfold ret. do 3 f_equal.
  apply feq_of_Z; lia.
Qed.

(** C29: [lastIndexOf] of a non-empty Buffer, string or byte in a Buffer that is not
    empty finds the last index up to the given integer offset at which the bytes
    occur, and answers -1 when there is none; in UTF-16, where two bytes are compared
    at a time at even indices, the answer counts units: it is half the index, not the
    index that the comment of [bidirectionalIndexOf] speaks of and that [indexOf]
    answers.  There the lengths of both Buffers are to be even, and so is the index at
    which the search starts, unless the bytes do not fit after it. *)
Theorem lastIndexOf_spec h this n z enc e :
  heap_ok h -> view_ok h this -> 0 < vlen this < 2 ^ 31 -> names enc e -> needle_ok h e n -> needle_bytes h e n <> [] ->
  - 2 ^ 31 <= z < 2 ^ 31 ->
  vlen this mod step_of e n = 0 -> Z.of_nat (length (needle_bytes h e n)) mod step_of e n = 0 ->
  (forall start, from_index (vlen this) z false = Some start ->
     start mod step_of e n = 0 \/ vlen this < start + Z.of_nat (length (needle_bytes h e n))) ->
  exists h' r, lastIndexOf this (needle_val n) (Num (of_Z z)) enc h = (h', Ok (of_Z r)) /\
    extends h h' /\
    match from_index (vlen this) z false with
    | Some start => last_aligned (step_of e n) (needle_bytes h e n) (bytes h this) start (r * step_of e n) \/
                    r = -1 /\ none_aligned_down (step_of e n) (needle_bytes h e n) (bytes h this) start
    | None => r = -1
    end.
Proof.
  intros Hh Hv Hl Hnm Hn Hne Hz Ml Mp Ms.
  destruct (search_run h this n z enc e false Hh Hv Hl Hnm Hn Hne Hz Ml Mp) as (h' & r & E & X & A).
  { intros start Es. destruct (Ms start Es); [left; assumption|right; split; [reflexivity|assumption]]. }
  exists h', r. split; [exact E|]. split; [exact X|exact A].
Qed.

(** ** Witnesses *)

Lemma indexOf_spec_witness :
  exists h' r, indexOf sample_view (Str [770]) (Num (of_Z 0)) (Str (js "UCS2")) sample_heap = (h', Ok (of_Z r)) /\
    (first_aligned 2 [2; 3] (bytes sample_heap sample_view) 0 r \/
     r = -1 /\ none_aligned 2 [2; 3] (bytes sample_heap sample_view) 0).
Proof.
  destruct (indexOf_spec sample_heap sample_view (NStr [770]) 0 (Str (js "UCS2")) Ucs2 sample_heap_ok sample_view_ok
    ltac:(cbn; lia) eq_refl ltac:(split; [repeat constructor; unfold unit16; lia|vm_compute; split; congruence])
    ltac:(discriminate) ltac:(lia) eq_refl eq_refl eq_refl) as (h' & r & E & _ & _ & A).
  exists h', r. exact (conj E A).
Defined.

Lemma lastIndexOf_spec_witness :
  exists h' r, lastIndexOf sample_view (Num (of_Z 3)) (Num (of_Z (-1))) Undefined sample_heap = (h', Ok (of_Z r)) /\
    (last_aligned 1 [3] (bytes sample_heap sample_view) 7 (r * 1) \/
     r = -1 /\ none_aligned_down 1 [3] (bytes sample_heap sample_view) 7).
Proof.
  destruct (lastIndexOf_spec sample_heap sample_view (NByte 3) (-1) Undefined Utf8 sample_heap_ok sample_view_ok
    ltac:(cbn; lia) eq_refl ltac:(cbn; lia) ltac:(discriminate) ltac:(lia) eq_refl eq_refl
    ltac:(intros start _; left; apply Z.mod_1_r)) as (h' & r & E & _ & A).
  exists h', r. exact (conj E A).
Defined.
