(* ===== verification/BufferMisc.v ===== *)
(** The remaining declarations of node/buffer.js: the constants, the [parent]
    and [offset] accessors, the public names of the allocating functions, the
    error class of the checks and the guard of the BigInt methods. *)

From Stdlib Require Import SpecFloat String.
From stdpp Require Import base numbers list gmap.
From S2P Require Import Prelude JsNumber JsValue BufferCore BufferCoreFacts BufferInt.

Local Open Scope Z_scope.
Local Open Scope js_scope.

(** ** Constants *)

Record buffer_constants : Type := BufferConstants { MAX_LENGTH : Z; MAX_STRING_LENGTH : Z }.

Definition kMaxLength : Z := K_MAX_LENGTH.
Definition kStringMaxLength : Z := K_STRING_MAX_LENGTH.
Definition constants : buffer_constants := BufferConstants K_MAX_LENGTH K_STRING_MAX_LENGTH.
Definition poolSize : Z := 8192.

(** ** Accessors *)

(** [buf.parent] and [buf.offset]: undefined on a view that is not a Buffer. *)
Definition parent (this : view) : val := if vbuffer this then VArrayBuffer (vab this) else Undefined.
Definition offset (this : view) : val := if vbuffer this then Num (of_Z (voff this)) else Undefined.

(** ** Public names *)

Definition Buffer_from : val -> val -> val -> M view := from.
Definition Buffer_alloc : val -> val -> val -> M view := alloc.
Definition Buffer_allocUnsafe : val -> M view := allocUnsafe.
Definition Buffer_allocUnsafeSlow : val -> M view := allocUnsafe.

Definition numberIsNaN (obj : val) : bool := match obj with Num n => negb (feq n n) | _ => false end.

(** ** The error class [E] makes

    [name] is the name of the base class again once the constructor is done;
    assigning [code] gives the error a property of its own. *)
Record node_error : Type := NodeError {
  sym : string;
  base_name : string;
  message : list part;
  own_code : option val }.

Definition new_node_error (sym base : string) (message : list part) : node_error := NodeError sym base message None.

Definition error_name (e : node_error) : string := base_name e.
Definition get_code (e : node_error) : val := match own_code e with Some v => v | None => Str (js (sym e)) end.
Definition set_code (v : val) (e : node_error) : node_error := NodeError (sym e) (base_name e) (message e) (Some v).
Definition error_toString (e : node_error) : list part :=
  Txt (error_name e ++ " [" ++ sym e ++ "]: ")%string :: message e.

(** The errors the checks throw, as objects of their class. *)
Definition error_object (x : exn) : option node_error :=
  match x with
  | ENodeError s m =>
      Some (new_node_error s (if String.eqb s "ERR_INVALID_ARG_TYPE" then "TypeError" else "RangeError") m)
  | _ => None
  end.

(** ** BigInt methods *)

Definition BufferBigIntNotDefined {A} : M A := throw (EError [Txt "BigInt not supported"]).

Definition defineBigIntMethod {X A} (bigint_defined : bool) (fn : X -> M A) : X -> M A :=
  if bigint_defined then fn else fun _ => BufferBigIntNotDefined.

(** ** Facts *)

(** A slice of a Buffer has the same parent, and its offset is the start of
    the slice further on. *)
Lemma slice_parent_offset h this s e :
  view_ok h this -> vbuffer this = true -> - 2 ^ 31 <= s < 2 ^ 31 -> - 2 ^ 31 <= e < 2 ^ 31 ->
  exists h' w, slice this (Num (of_Z s)) (Num (of_Z e)) h = (h', Ok w) /\
    parent w = parent this /\ offset w = Num (of_Z (voff this + slice_start (vlen this) s)).
Proof.
  intros (_ & Hl & _) Hb Hs He. eexists _, _. split; [apply slice_run; assumption|].
  unfold parent, offset. rewrite Hb. split; reflexivity.
Qed.

(** The BigInt methods are there when BigInt is, and throw Error otherwise. *)
Lemma defineBigIntMethod_spec {X A} b (fn : X -> M A) x h :
  defineBigIntMethod b fn x h = if b then fn x h else (h, Throw (EError [Txt "BigInt not supported"])).
Proof. destruct b; reflexivity. Qed.
