(* ===== verification/Ieee754.v ===== *)
(** The module [ieee754] (__winterjs_internal/ieee754.js) and the Buffer methods
    built on it (readFloatLE ... writeDoubleBE of node/buffer.js).

    [Math.log] is implementation-defined, so it is an argument [log] of
    [write]. *)

From Stdlib Require Import SpecFloat String.
From stdpp Require Import base numbers list gmap.
From S2P Require Import Prelude JsNumber JsValue BufferCore BufferInt.

Local Open Scope Z_scope.
Local Open Scope js_scope.

(** ** Number functions of the standard library *)

(** [Math.pow(2, k)] of an integer or infinite [k]. *)
Definition pow2 (k : num) : num :=
  match k with
  | S754_nan => NaN
  | S754_infinity s => if s then of_Z 0 else Infinity
  | _ => dy 1 (to_integer k)
  end.

(** [Math.LN2]: the Number nearest to the natural logarithm of 2. *)
Definition LN2 : num := dy 6243314768165359 (-53).

Definition Math_floor (x : num) : num :=
  match x with
  | S754_finite _ _ _ => let t := to_integer x in of_Z (if flt x (of_Z t) then t - 1 else t)
  | _ => x
  end.

(** ** [read] *)

(** [while (nBits > 0) { acc = acc * 256 + buffer[offset + i]; i += d; nBits -= 8 }]. *)
Fixpoint shift_in (fuel : nat) (buffer : view) (offset i d nBits : Z) (acc : num) : M (num * Z * Z) :=
  match fuel with
  | O => ret (acc, i, nBits)
  | S fuel =>
      if 0 <? nBits then
        let! x := getn buffer (offset + i) in
        shift_in fuel buffer offset (i + d) d (nBits - 8) (fadd (fmul acc (of_Z 256)) x)
      else ret (acc, i, nBits)
  end.

Definition read (buffer : view) (offset : Z) (isLE : bool) (mLen nBytes : Z) : M num :=
  let eLen := nBytes * 8 - mLen - 1 in
  let eMax := shl32 1 eLen - 1 in
  let eBias := sar32 eMax 1 in
  let nBits := -7 in
  let i := if isLE then nBytes - 1 else 0 in
  let d := if isLE then -1 else 1 in
  let! s := geti buffer (offset + i) in
  let i := i + d in
  let e := and32 s (shl32 1 (- nBits) - 1) in
  let s := sar32 s (- nBits) in
  let nBits := nBits + eLen in
  let! r := shift_in (Z.to_nat nBytes) buffer offset i d nBits (of_Z e) in
  let '(e, i, nBits) := r in
  let m := and32 (ToInt32 e) (shl32 1 (- nBits) - 1) in
  let e := sar32 (ToInt32 e) (- nBits) in
  let nBits := nBits + mLen in
  let! r := shift_in (Z.to_nat nBytes) buffer offset i d nBits (of_Z m) in
  let '(m, i, nBits) := r in
  let sgn := of_Z (if s =? 0 then 1 else -1) in
  if e =? 0 then ret (fmul (fmul sgn m) (pow2 (of_Z (1 - eBias - mLen))))
  else if e =? eMax then ret (if num_truthy m then NaN else fmul sgn Infinity)
  else ret (fmul (fmul sgn (fadd m (pow2 (of_Z mLen)))) (pow2 (of_Z (e - eBias - mLen)))).

(** ** [write] *)

Section Write.
Variable log : num -> num.

(** The exponent and the mantissa [write] stores for a value without its sign. *)
Definition exponent_mantissa (value : num) (mLen eBias eMax : Z) : num * num :=
  let rt := if mLen =? 23 then fsub (dy 1 (-24)) (dy 1 (-77)) else of_Z 0 in
  if is_nan value || feq value Infinity then (of_Z eMax, of_Z (if is_nan value then 1 else 0))
  else
    let e := Math_floor (fdiv (log value) LN2) in
    let c := pow2 (fopp e) in
    let low := flt (fmul value c) (of_Z 1) in
    let e := if low then fsub e (of_Z 1) else e in
    let c := if low then fmul c (of_Z 2) else c in
    let normal (e : num) := fle (of_Z 1) (fadd e (of_Z eBias)) in
    let value := if normal e then fadd value (fdiv rt c) else fadd value (fmul rt (pow2 (of_Z (1 - eBias)))) in
    let high := fle (of_Z 2) (fmul value c) in
    let e := if high then fadd e (of_Z 1) else e in
    let c := if high then fdiv c (of_Z 2) else c in
    if fle (of_Z eMax) (fadd e (of_Z eBias)) then (of_Z eMax, of_Z 0)
    else if normal e then (fadd e (of_Z eBias), fmul (fsub (fmul value c) (of_Z 1)) (pow2 (of_Z mLen)))
    else (of_Z 0, fmul (fmul value (pow2 (of_Z (eBias - 1)))) (pow2 (of_Z mLen))).

(** [while (mLen >= 8) { buffer[offset + i] = m & 0xff; i += d; m /= 256; mLen -= 8 }]. *)
Fixpoint put_mantissa (fuel : nat) (buffer : view) (offset i d : Z) (m : num) (mLen : Z) : M (num * Z * Z) :=
  match fuel with
  | O => ret (m, i, mLen)
  | S fuel =>
      if 8 <=? mLen then
        do! put buffer (offset + i) (of_Z (and32 (ToInt32 m) 255)) in
        put_mantissa fuel buffer offset (i + d) d (fdiv m (of_Z 256)) (mLen - 8)
      else ret (m, i, mLen)
  end.

(** [while (eLen > 0) { buffer[offset + i] = e & 0xff; i += d; e /= 256; eLen -= 8 }]. *)
Fixpoint put_exponent (fuel : nat) (buffer : view) (offset i d : Z) (e : num) (eLen : Z) : M Z :=
  match fuel with
  | O => ret i
  | S fuel =>
      if 0 <? eLen then
        do! put buffer (offset + i) (of_Z (and32 (ToInt32 e) 255)) in
        put_exponent fuel buffer offset (i + d) d (fdiv e (of_Z 256)) (eLen - 8)
      else ret i
  end.

Definition write (buffer : view) (value : num) (offset : Z) (isLE : bool) (mLen nBytes : Z) : M unit :=
  let eLen := nBytes * 8 - mLen - 1 in
  let eMax := shl32 1 eLen - 1 in
  let eBias := sar32 eMax 1 in
  let i := if isLE then 0 else nBytes - 1 in
  let d := if isLE then 1 else -1 in
  let s := flt value (of_Z 0) || (feq value (of_Z 0) && flt (fdiv (of_Z 1) value) (of_Z 0)) in
  let '(e, m) := exponent_mantissa (fabs value) mLen eBias eMax in
  let! r := put_mantissa (Z.to_nat nBytes) buffer offset i d m mLen in
  let '(m, i, mLen) := r in
  let e := or32 (shl32 (ToInt32 e) mLen) (ToInt32 m) in
  let! i := put_exponent (Z.to_nat nBytes) buffer offset i d (of_Z e) (eLen + mLen) in
  let! b := geti buffer (offset + i - d) in
  put buffer (offset + i - d) (of_Z (or32 b (if s then 128 else 0))).

(** ** The Buffer methods *)

(** [checkIEEE754]: the offset is unsigned when it is called. *)
Definition checkIEEE754 (buf : view) (value : num) (offset ext : Z) : M unit :=
  if vlen buf <? offset + ext then throw_range [Txt "Index out of range"]
  else if offset <? 0 then throw_range [Txt "Index out of range"]
  else ret tt.

Definition writeFloat (buf : view) (value offset : val) (littleEndian : bool) (noAssert : val) : M Z :=
  let! value := toNum value in
  let! offset := toU32 offset in
  do! (if truthy noAssert then ret tt else checkIEEE754 buf value offset 4) in
  do! write buf value offset littleEndian 23 4 in
  ret (offset + 4).

Definition writeFloatLE (this : view) (value offset noAssert : val) : M Z := writeFloat this value offset true noAssert.
Definition writeFloatBE (this : view) (value offset noAssert : val) : M Z := writeFloat this value offset false noAssert.

Definition writeDouble (buf : view) (value offset : val) (littleEndian : bool) (noAssert : val) : M Z :=
  let! value := toNum value in
  let! offset := toU32 offset in
  do! (if truthy noAssert then ret tt else checkIEEE754 buf value offset 8) in
  do! write buf value offset littleEndian 52 8 in
  ret (offset + 8).

Definition writeDoubleLE (this : view) (value offset noAssert : val) : M Z := writeDouble this value offset true noAssert.
Definition writeDoubleBE (this : view) (value offset noAssert : val) : M Z := writeDouble this value offset false noAssert.

End Write.

Definition readFloatLE (this : view) (offset noAssert : val) : M num :=
  let! offset := toU32 offset in
  do! assert_offset noAssert offset 4 this in
  read this offset true 23 4.

Definition readFloatBE (this : view) (offset noAssert : val) : M num :=
  let! offset := toU32 offset in
  do! assert_offset noAssert offset 4 this in
  read this offset false 23 4.

Definition readDoubleLE (this : view) (offset noAssert : val) : M num :=
  let! offset := toU32 offset in
  do! assert_offset noAssert offset 8 this in
  read this offset true 52 8.

Definition readDoubleBE (this : view) (offset noAssert : val) : M num :=
  let! offset := toU32 offset in
  do! assert_offset noAssert offset 8 this in
  read this offset false 52 8.

(** ** A logarithm for concrete runs *)

(** The logarithm of the middle of the binade of a positive finite Number: its
    quotient by [LN2] has the binary exponent as its floor. *)
Definition sample_log (x : num) : num :=
  match x with
  | S754_finite _ m e => fmul (dy (2 * (Z.log2 (Z.pos m) + e) + 1) (-1)) LN2
  | S754_zero _ => S754_infinity true
  | _ => x
  end.

Example write_pi : snd ((do! writeDoubleLE sample_log sample_view (Num (dy 884279719003555 (-48))) (Num (of_Z 0)) Undefined in
                          readDoubleLE sample_view (Num (of_Z 0)) Undefined) sample_heap) = Ok (dy 884279719003555 (-48)).
Proof. vm_compute. reflexivity. Qed.
Example write_float_small : snd ((do! writeFloatBE sample_log sample_view (Num (dy (-5) (-149))) (Num (of_Z 1)) Undefined in
                          readFloatBE sample_view (Num (of_Z 1)) Undefined) sample_heap) = Ok (dy (-5) (-149)).
Proof. vm_compute. reflexivity. Qed.
Example write_double_min : snd ((do! writeDoubleBE sample_log sample_view (Num (dy 1 (-1074))) (Num (of_Z 0)) Undefined in
                          readDoubleBE sample_view (Num (of_Z 0)) Undefined) sample_heap) = Ok (dy 1 (-1074)).
Proof. vm_compute. reflexivity. Qed.
Example write_zero : snd ((do! writeFloatLE sample_log sample_view (Num (S754_zero true)) (Num (of_Z 0)) Undefined in
                          readFloatLE sample_view (Num (of_Z 0)) Undefined) sample_heap) = Ok (S754_zero true).
Proof. vm_compute. reflexivity. Qed.

(** Halfway between two floats the larger is stored, where the standard rounds
    to the even one. *)
Example float_tie : snd ((do! writeFloatLE sample_log sample_view (Num (dy (2 ^ 24 + 1) (-24))) (Num (of_Z 0)) Undefined in
                          readFloatLE sample_view (Num (of_Z 0)) Undefined) sample_heap) = Ok (dy (2 ^ 23 + 1) (-23)).
Proof. vm_compute. reflexivity. Qed.
