(* ===== verification/Ieee754Facts.v ===== *)
(** The floating point accessors read and write the IEEE 754 interchange
    formats binary32 and binary64. *)

From Stdlib Require Import SpecFloat String.
From stdpp Require Import base numbers list gmap.
From S2P Require Import Prelude JsNumber JsValue BufferCore BufferInt BufferIntFacts Ieee754.

Local Open Scope Z_scope.
Local Open Scope js_scope.

(** ** The formats *)

(** The Number of a sign and a magnitude. *)
Definition signed_num (s : bool) (z k : Z) : num :=
  if z =? 0 then S754_zero s else dy (if s then - z else z) k.

(** The value of the [1 + e + m] bits [b]: sign, exponent, fraction. *)
Definition ieee_value (m e b : Z) : num :=
  let frac := b mod 2 ^ m in
  let ex := b / 2 ^ m mod 2 ^ e in
  let s := negb (b / 2 ^ (m + e) mod 2 =? 0) in
  let bias := 2 ^ (e - 1) - 1 in
  if ex =? 2 ^ e - 1 then if frac =? 0 then S754_infinity s else NaN
  else if ex =? 0 then signed_num s frac (1 - bias - m)
  else signed_num s (frac + 2 ^ m) (ex - bias - m).

(** The two formats: their number of bytes and of fraction and exponent bits. *)
Inductive float_format := Binary32 | Binary64.
Definition fbytes (f : float_format) : nat := match f with Binary32 => 4 | Binary64 => 8 end.
Definition fraction_bits (f : float_format) : Z := match f with Binary32 => 23 | Binary64 => 52 end.
Definition exponent_bits (f : float_format) : Z := match f with Binary32 => 8 | Binary64 => 11 end.

Definition read_float (f : float_format) (big : bool) : view -> val -> val -> M num :=
  match f, big with
  | Binary32, false => readFloatLE
  | Binary32, true => readFloatBE
  | Binary64, false => readDoubleLE
  | Binary64, true => readDoubleBE
  end.

Definition write_float (log : num -> num) (f : float_format) (big : bool) : view -> val -> val -> val -> M Z :=
  match f, big with
  | Binary32, false => writeFloatLE log
  | Binary32, true => writeFloatBE log
  | Binary64, false => writeDoubleLE log
  | Binary64, true => writeDoubleBE log
  end.

(** ** Arithmetic *)

Lemma pow2_of_Z k : Z.abs k <= 2 ^ 53 -> pow2 (of_Z k) = dy 1 k.
Proof.
  intros H. pose proof (to_integer_of_Z k H) as T.
  destruct (of_Z_shape k H) as [[-> E]|(_ & s & m & e & E)]; [reflexivity|].
  unfold pow2. rewrite E in *. rewrite T. reflexivity.
Qed.

Lemma sign_mul (s : bool) z k j :
  0 <= z <= 2 ^ 53 -> fits z k -> -1074 <= k <= 971 -> j = k ->
  fmul (fmul (of_Z (if s then -1 else 1)) (of_Z z)) (dy 1 j) = signed_num s z k.
Proof.
  intros Hz F Hk ->. unfold signed_num. destruct (Z.eqb_spec z 0) as [->|N].
  - destruct (dy_cases 1 k ltac:(apply fits_small; lia)) as [[? _]|(m & e & _ & _ & _ & ->)]; [lia|].
    destruct s; reflexivity.
  - rewrite fmul_of_Z_nonzero by (destruct s; lia).
    assert (F1 : fits (if s then - z else z) k) by (destruct s; [apply fits_opp|]; exact F).
    replace ((if s then -1 else 1) * z) with (if s then - z else z) by (destruct s; lia).
    unfold of_Z. rewrite fmul_dy.
    + rewrite Z.mul_1_r. reflexivity.
    + apply fits_int. destruct s; lia.
    + apply fits_small; lia.
    + rewrite Z.mul_1_r. exact F1.
    + right. destruct s; lia.
Qed.

(** ** Reading *)

(** The bytes met on the way from index [i] in steps of [d], most significant
    first, shifted into [a]. *)
Fixpoint gather (f : Z -> Z) (j : nat) (a : Z) : Z :=
  match j with O => a | S j => gather (fun t => f (t + 1)) j (a * 256 + f 0) end.

Lemma gather_ext f g j : (forall t, f t = g t) -> forall a, gather f j a = gather g j a.
Proof.
  revert f g. induction j as [|j IH]; intros f g E a; [reflexivity|]. cbn [gather].
  rewrite E. apply IH. intros t. apply E.
Qed.

Lemma shift_in_run h v o d : heap_ok h -> view_ok h v -> forall j fuel i nBits a,
  (j <= fuel)%nat -> 8 * Z.of_nat j - 8 < nBits <= 8 * Z.of_nat j -> (j = 0%nat -> nBits <= 0) ->
  (forall t, 0 <= t < Z.of_nat j -> 0 <= o + (i + d * t) < vlen v) ->
  0 <= a -> (a + 1) * 256 ^ Z.of_nat j <= 2 ^ 53 ->
  shift_in fuel v o i d nBits (of_Z a) h =
    (h, Ok (of_Z (gather (fun t => byte_at h v (o + (i + d * t))) j a), i + d * Z.of_nat j, nBits - 8 * Z.of_nat j)).
Proof.
  intros Hh Hv j. induction j as [|j IH]; intros fuel i nBits a Hf Hn H0 Hin Ha Hb.
  - rewrite Z.mul_0_r, Z.add_0_r, Z.sub_0_r. destruct fuel; cbn [shift_in gather]; [reflexivity|]. zbool. reflexivity.
  - destruct fuel as [|fuel]; [lia|]. cbn [shift_in gather]. zbool.
    specialize (Hin 0 ltac:(lia)) as H1. rewrite Z.mul_0_r, Z.add_0_r in H1.
    erewrite bind_ok by (apply getn_run; [exact Hv|lia]).
    pose proof (byte_at_byte h v (o + i) Hh) as B. unfold byte in B.
    rewrite Nat2Z.inj_succ, Z.pow_succ_r in Hb by lia.
    assert (P : 1 <= 256 ^ Z.of_nat j) by (pose proof (Z.pow_pos_nonneg 256 (Z.of_nat j)); lia).
    rewrite fmul_of_Z by nia. rewrite fadd_of_Z by nia.
    rewrite IH; [|lia|lia|intros ->; lia| |nia|nia].
    + f_equal. f_equal. f_equal; [f_equal; [f_equal|lia]|lia].
      rewrite Z.mul_0_r, Z.add_0_r. apply gather_ext. intros t. do 2 f_equal. lia.
    + intros t Ht. replace (i + d + d * t) with (i + d * (t + 1)) by lia. apply Hin. lia.
Qed.

Lemma gather_range f j : (forall t, 0 <= f t < 256) -> forall a, 0 <= a ->
  a * 256 ^ Z.of_nat j <= gather f j a < (a + 1) * 256 ^ Z.of_nat j.
Proof.
  revert f. induction j as [|j IH]; intros f F a Ha; [cbn; lia|]. cbn [gather].
  specialize (IH (fun t => f (t + 1)) ltac:(intros; apply F) (a * 256 + f 0)). specialize (F 0).
  rewrite Nat2Z.inj_succ, Z.pow_succ_r by lia. pose proof (Z.pow_pos_nonneg 256 (Z.of_nat j) ltac:(lia) ltac:(lia)).
  specialize (IH ltac:(nia)). nia.
Qed.

(** What [read] makes of the word its bytes form: [top] is the first byte, then
    come [j1] bytes with the rest of the exponent and [j2] with the fraction. *)
Lemma ieee_combine (m e top hi lo : Z) (k : Z) j2 :
  0 <= k <= 7 -> m = 8 * Z.of_nat j2 + k -> e = 15 - k ->
  0 <= top < 256 -> 0 <= hi < 256 -> 0 <= lo < 256 ^ Z.of_nat j2 ->
  let b := (top * 256 + hi) * 256 ^ Z.of_nat j2 + lo in
  let ex := (top mod 128 * 256 + hi) / 2 ^ k in
  let frac := (top mod 128 * 256 + hi) mod 2 ^ k * 256 ^ Z.of_nat j2 + lo in
  b mod 2 ^ m = frac /\ b / 2 ^ m mod 2 ^ e = ex /\ b / 2 ^ (m + e) mod 2 = top / 128.
Proof.
  intros Hk -> -> Ht Hh Hl. cbv zeta. rewrite pow256. set (P := 2 ^ (8 * Z.of_nat j2)).
  assert (HP : 0 < P) by (apply Z.pow_pos_nonneg; lia). rewrite pow256 in Hl. fold P in Hl.
  rewrite (Z.pow_add_r 2 (8 * Z.of_nat j2) k) by lia. fold P.
  replace (8 * Z.of_nat j2 + k + (15 - k)) with (8 * Z.of_nat j2 + 15) by lia.
  rewrite (Z.pow_add_r 2 (8 * Z.of_nat j2) 15) by lia. fold P.
  set (w := top * 256 + hi). set (K := 2 ^ k). assert (HK : 0 < K) by (apply Z.pow_pos_nonneg; lia).
  assert (E : 2 ^ 15 = K * 2 ^ (15 - k)) by (unfold K; rewrite <- Z.pow_add_r by lia; f_equal; lia).
  assert (D : forall q, 0 < q -> (w * P + lo) / (P * q) = w / q).
  { intros q Hq. rewrite <- Z.div_div by lia. f_equal. rewrite Z.div_add_l by lia. rewrite Z.div_small by lia. lia. }
  assert (W : top mod 128 * 256 + hi = w mod 2 ^ 15).
  { unfold w. change (2 ^ 15) with 32768. Z.div_mod_to_equations. lia. }
  rewrite W, !D by (exact HK || lia). repeat split.
  - rewrite (Z.rem_mul_r (w * P + lo) P K) by lia.
    assert (A : (w * P + lo) mod P = lo) by (rewrite Z.add_comm, Z.mod_add by lia; apply Z.mod_small; lia).
    assert (B : (w * P + lo) / P = w) by (rewrite Z.div_add_l, Z.div_small by lia; lia).
    assert (C : w mod 2 ^ 15 mod K = w mod K).
    { rewrite E, (Z.rem_mul_r w K), (Z.mul_comm K), Z.mod_add by lia. apply Z.mod_mod. lia. }
    rewrite A, B, C. lia.
  - rewrite E. rewrite (Z.rem_mul_r w K) by lia. rewrite Z.add_comm, Z.mul_comm, Z.div_add_l by lia.
    rewrite (Z.div_small (w mod K)) by (apply Z.mod_pos_bound; lia). lia.
  - unfold w. change (2 ^ 15) with 32768. Z.div_mod_to_equations. lia.
Qed.

Lemma gather_shift f j a : gather f j a = a * 256 ^ Z.of_nat j + gather f j 0.
Proof.
  revert f a. induction j as [|j IH]; intros f a; [cbn; lia|]. cbn [gather].
  rewrite (IH _ (a * 256 + f 0)), (IH _ (0 * 256 + f 0)), Nat2Z.inj_succ, Z.pow_succ_r by lia. lia.
Qed.

(** The word at an offset, its bytes taken from the most significant one. *)
Definition word (h : heap) (v : view) (o : Z) (big : bool) (n : nat) : Z := le_val (ordered big (seg h v o n)).

Definition first_index (big : bool) (n : nat) : Z := if big then 0 else Z.of_nat n - 1.
Definition direction (big : bool) : Z := if big then 1 else -1.

Lemma word_gather h v big n : view_ok h v -> forall o, 0 <= o -> o + Z.of_nat n <= vlen v ->
  word h v o big n = gather (fun t => byte_at h v (o + (first_index big n + direction big * t))) n 0.
Proof.
  intros Hv. unfold word, ordered, first_index, direction. induction n as [|n IH]; intros o Ho Hn.
  { destruct big; reflexivity. }
  cbn [gather]. rewrite gather_shift. destruct big.
  - rewrite seg_S by (assumption || lia). rewrite reverse_cons, le_val_app, length_reverse, length_seg by (assumption || lia).
    rewrite IH by lia. cbn [le_val].
    rewrite (gather_ext _ (fun t => byte_at h v (o + (0 + 1 * (t + 1))))) by (intros t; f_equal; lia).
    replace (o + (0 + 1 * 0)) with o by lia. lia.
  - rewrite seg_snoc by (assumption || lia). rewrite le_val_app, length_seg by (assumption || lia).
    rewrite IH by lia. cbn [le_val].
    rewrite (gather_ext _ (fun t => byte_at h v (o + (Z.of_nat (S n) - 1 + -1 * (t + 1)))))
      by (intros t; f_equal; lia).
    replace (o + (Z.of_nat (S n) - 1 + -1 * 0)) with (o + Z.of_nat n) by lia. lia.
Qed.

(** The fraction bits in the second byte and the whole bytes of fraction. *)
Definition fhigh (f : float_format) : Z := match f with Binary32 => 7 | Binary64 => 4 end.
Definition flow (f : float_format) : nat := match f with Binary32 => 2 | Binary64 => 6 end.

(** The tail of [read], on the first byte, the exponent field and the fraction. *)
Definition read_tail (f : float_format) (top e : Z) (frac : num) : num :=
  let m := fraction_bits f in let bias := 2 ^ (exponent_bits f - 1) - 1 in
  let sgn := of_Z (if sar32 top 7 =? 0 then 1 else -1) in
  if e =? 0 then fmul (fmul sgn frac) (pow2 (of_Z (1 - bias - m)))
  else if e =? 2 ^ exponent_bits f - 1 then (if num_truthy frac then NaN else fmul sgn Infinity)
  else fmul (fmul sgn (fadd frac (pow2 (of_Z m)))) (pow2 (of_Z (e - bias - m))).

Lemma read_value f (top e frac : Z) :
  let m := fraction_bits f in let bias := 2 ^ (exponent_bits f - 1) - 1 in
  0 <= top < 256 -> 0 <= e < 2 ^ exponent_bits f -> 0 <= frac < 2 ^ m ->
  read_tail f top e (of_Z frac) =
  (let s := negb (top / 128 =? 0) in
   if e =? 2 ^ exponent_bits f - 1 then if frac =? 0 then S754_infinity s else NaN
   else if e =? 0 then signed_num s frac (1 - bias - m)
   else signed_num s (frac + 2 ^ m) (e - bias - m)).
Proof.
  unfold read_tail. cbv zeta. intros Ht He Hf. rewrite sar32_div by lia. change (2 ^ 7) with 128.
  set (s := negb (top / 128 =? 0)).
  replace (if top / 128 =? 0 then 1 else -1) with (if s then -1 else 1) by (unfold s; destruct (top / 128 =? 0); reflexivity).
  assert (Hm : 2 ^ fraction_bits f <= 2 ^ 52) by (destruct f; cbn; lia).
  destruct (Z.eqb_spec e 0) as [->|N0].
  - replace (0 =? 2 ^ exponent_bits f - 1) with false by (destruct f; reflexivity).
    rewrite pow2_of_Z by (destruct f; cbn; lia).
    apply sign_mul; [lia|apply fits_small; [lia|destruct f; cbn; lia]|destruct f; cbn; lia|reflexivity].
  - destruct (Z.eqb_spec e (2 ^ exponent_bits f - 1)) as [->|N1].
    + rewrite num_truthy_of_Z by lia. destruct (frac =? 0); [destruct s; reflexivity|reflexivity].
    + assert (Hk : -1074 <= e - (2 ^ (exponent_bits f - 1) - 1) - fraction_bits f <= 971) by (destruct f; cbn in *; lia).
      rewrite !pow2_of_Z by (destruct f; cbn in *; lia). rewrite <- of_Z_pow2 by (destruct f; cbn; lia).
      rewrite fadd_of_Z by lia.
      apply sign_mul; [lia|apply fits_small; [lia|exact Hk]|exact Hk|reflexivity].
Qed.

Section ReadRun.
Context (f : float_format) (big : bool) (h : heap) (v : view) (o : Z).
Hypotheses (Hh : heap_ok h) (Hv : view_ok h v) (Ho : 0 <= o) (Hn : o + Z.of_nat (fbytes f) <= vlen v).

(** The bytes in the order [read] meets them: the two that hold the sign and the
    exponent, and the whole bytes of fraction. *)
Let B (t : Z) : Z := byte_at h v (o + (first_index big (fbytes f) + direction big * t)).
Let X : Z := B 0 mod 128 * 256 + B 1.
Let lo : Z := gather (fun t => B (t + 2)) (flow f) 0.
Let k : Z := fhigh f.

Lemma read_layout : 0 <= k <= 7 /\ fraction_bits f = 8 * Z.of_nat (flow f) + k /\ exponent_bits f = 15 - k /\
  Z.of_nat (fbytes f) = Z.of_nat (flow f) + 2 /\ (2 <= flow f <= 6)%nat.
Proof. unfold k. destruct f; cbn; lia. Qed.

Lemma read_byte t : 0 <= B t < 256.
Proof. apply byte_at_byte, Hh. Qed.

Lemma read_inside t : 0 <= t < Z.of_nat (fbytes f) -> 0 <= o + (first_index big (fbytes f) + direction big * t) < vlen v.
Proof. intros Ht. unfold first_index, direction. destruct big; lia. Qed.

Lemma read_bounds : 0 <= X < 2 ^ 15 /\ 0 <= X mod 2 ^ k < 2 ^ k /\ 0 <= lo < 256 ^ Z.of_nat (flow f).
Proof.
  pose proof read_layout. pose proof (read_byte 0). pose proof (read_byte 1).
  split; [unfold X; Z.div_mod_to_equations; lia|]. split; [apply Z.mod_pos_bound, Z.pow_pos_nonneg; lia|].
  pose proof (gather_range (fun t => B (t + 2)) (flow f) ltac:(intros; apply read_byte) 0 ltac:(lia)). unfold lo. lia.
Qed.

(** The word of those bytes. *)
Lemma read_word : word h v o big (fbytes f) = (B 0 * 256 + B 1) * 256 ^ Z.of_nat (flow f) + lo.
Proof.
  rewrite (word_gather h v big (fbytes f) Hv o Ho Hn). pose proof read_layout.
  replace (fbytes f) with (S (S (flow f))) by lia. cbn [gather]. rewrite gather_shift.
  replace (S (S (flow f))) with (fbytes f) by lia. fold (B 0). fold (B (0 + 1)). change (0 + 1) with 1.
  f_equal. unfold lo. apply gather_ext. intros t. unfold B. do 4 f_equal. lia.
Qed.

(** What the loops leave: the fields of that word. *)
Lemma read_fields :
  read v o (negb big) (fraction_bits f) (Z.of_nat (fbytes f)) h =
    (h, Ok (read_tail f (B 0) (X / 2 ^ k) (of_Z (X mod 2 ^ k * 256 ^ Z.of_nat (flow f) + lo)))).
Proof.
  destruct read_layout as (K1 & K2 & K3 & K4 & K5). destruct read_bounds as (HX & Xk & _). unfold read.
  replace (Z.of_nat (fbytes f) * 8 - fraction_bits f - 1) with (exponent_bits f) by (destruct f; reflexivity).
  replace (shl32 1 (exponent_bits f) - 1) with (2 ^ exponent_bits f - 1) by (destruct f; reflexivity).
  replace (sar32 (2 ^ exponent_bits f - 1) 1) with (2 ^ (exponent_bits f - 1) - 1) by (destruct f; reflexivity).
  replace (if negb big then Z.of_nat (fbytes f) - 1 else 0) with (first_index big (fbytes f)) by (destruct big; reflexivity).
  replace (if negb big then -1 else 1) with (direction big) by (destruct big; reflexivity).
  cbv zeta. pose proof (read_inside 0 ltac:(lia)) as I0. rewrite Z.mul_0_r, Z.add_0_r in I0.
  rewrite (bind_ok _ _ _ _ _ (geti_run h v _ Hh Hv I0)).
  replace (byte_at h v (o + first_index big (fbytes f))) with (B 0) by (unfold B; f_equal; lia).
  change (- (-7)) with 7. change (shl32 1 7 - 1) with (2 ^ 7 - 1). unfold and32 at 1. rewrite land_mask by lia.
  change (2 ^ 7) with 128. rewrite Nat2Z.id. pose proof (Z.mod_pos_bound (B 0) 128 ltac:(lia)) as M0.
  erewrite bind_ok by (apply (shift_in_run h v o (direction big) Hh Hv 1);
    [lia|lia|lia|intros t Ht; pose proof (read_inside (t + 1) ltac:(lia)); lia|lia|cbn; lia]).
  cbn [gather]. replace (byte_at h v (o + (first_index big (fbytes f) + direction big + direction big * 0))) with (B 1)
    by (unfold B; f_equal; lia).
  fold X. rewrite ToInt32_of_Z, sint32_small by lia.
  replace (- (-7 + exponent_bits f - 8 * Z.of_nat 1)) with k by (unfold k; destruct f; reflexivity).
  replace (shl32 1 k - 1) with (2 ^ k - 1) by (unfold k; destruct f; reflexivity).
  unfold and32. rewrite land_mask, sar32_div by lia.
  replace (-7 + exponent_bits f - 8 * Z.of_nat 1 + fraction_bits f) with (8 * Z.of_nat (flow f)) by (destruct f; reflexivity).
  erewrite bind_ok by (apply (shift_in_run h v o (direction big) Hh Hv (flow f));
    [lia|lia|lia|intros t Ht; pose proof (read_inside (t + 2) ltac:(lia)); lia|lia|unfold k in *; destruct f; cbn in *; lia]).
  rewrite (gather_ext _ (fun t => B (t + 2))) by (intros t; unfold B; f_equal; lia).
  rewrite gather_shift. fold lo. unfold read_tail.
  destruct (X / 2 ^ k =? 0); [reflexivity|]. destruct (X / 2 ^ k =? 2 ^ exponent_bits f - 1); reflexivity.
Qed.

Lemma float_read_run :
  read v o (negb big) (fraction_bits f) (Z.of_nat (fbytes f)) h =
    (h, Ok (ieee_value (fraction_bits f) (exponent_bits f) (word h v o big (fbytes f)))).
Proof.
  rewrite read_fields, read_word. do 2 f_equal.
  destruct read_layout as (K1 & K2 & K3 & _). destruct read_bounds as (HX & Xk & Hlo).
  pose proof (ieee_combine (fraction_bits f) (exponent_bits f) (B 0) (B 1) lo k (flow f) K1 K2 K3 (read_byte 0) (read_byte 1) Hlo)
    as (C1 & C2 & C3). cbv zeta in C1, C2, C3. fold X in C1, C2.
  unfold ieee_value. rewrite C1, C2, C3. apply read_value; [apply read_byte| |].
  - assert (E : 2 ^ 15 = 2 ^ k * 2 ^ exponent_bits f) by (rewrite <- Z.pow_add_r by lia; f_equal; lia).
    split; [apply Z.div_pos; [lia|apply Z.pow_pos_nonneg; lia]|]. apply Z.div_lt_upper_bound; [apply Z.pow_pos_nonneg; lia|lia].
  - rewrite K2, (Z.add_comm _ k), Z.pow_add_r by lia. rewrite <- pow256. nia.
Qed.
End ReadRun.

(** ** Writing the bytes *)

Lemma trunc_dy y q : 0 <= y < 2 ^ 53 -> 0 <= q <= 1000 -> to_integer (dy y (- q)) = y / 2 ^ q.
Proof.
  intros Hy Hq. rewrite to_integer_dy by (apply fits_small; lia).
  destruct (Z.eq_dec q 0) as [->|N].
  - cbn [Z.opp]. change (0 <=? 0) with true. cbv iota. transitivity y; [|symmetry; apply Z.div_1_r].
    change (2 ^ 0) with 1. rewrite Z.mul_1_r, Z.mul_comm. apply Z.abs_sgn.
  - zbool. rewrite Z.opp_involutive, Z.abs_eq by lia. destruct (Z.eq_dec y 0) as [->|N'].
    + rewrite Z.div_0_l; [reflexivity|]. apply Z.pow_nonzero; lia.
    + rewrite Z.sgn_pos by lia. lia.
Qed.

Lemma quarter_dy y q : 0 <= y < 2 ^ 53 -> 0 <= q <= 900 -> fdiv (dy y (- q)) (of_Z 256) = dy y (- (q + 8)).
Proof.
  intros Hy Hq. change (of_Z 256) with (of_Z (2 ^ 8)). rewrite of_Z_pow2 by lia.
  rewrite fdiv_pow2; [f_equal; lia|apply fits_small; lia|lia|apply fits_small; lia].
Qed.

(** The state after the first [j] of [n] bytes of [w] are written, from the
    least significant one. *)
Definition partial (h : heap) (v : view) (o : Z) (big : bool) (n j : nat) (w : Z) : heap :=
  store h v (if big then o + Z.of_nat n - Z.of_nat j else o) (ordered big (le_split j w)).

(** Where the [j]-th byte goes. *)
Definition low_index (big : bool) (n : nat) (j : Z) : Z := if big then Z.of_nat n - 1 - j else j.

Lemma partial_0 h v o big n w : view_ok h v -> partial h v o big n 0 w = h.
Proof. intros Hv. unfold partial. destruct big; apply store_nil, Hv. Qed.

Lemma partial_S h v o big n j w : view_ok h v -> 0 <= o -> o + Z.of_nat n <= vlen v -> (j < n)%nat ->
  store (partial h v o big n j w) v (o + low_index big n (Z.of_nat j)) [(w / 256 ^ Z.of_nat j) mod 256] =
  partial h v o big n (S j) w.
Proof.
  intros (Hv & _) Ho Hn Hj. unfold partial, low_index. rewrite le_split_snoc. destruct big; cbn [ordered].
  - rewrite reverse_app. change (reverse [?x]) with [x]. cbn [app].
    rewrite store_cons by lia. f_equal. lia.
  - apply store_snoc; [lia|]. rewrite le_split_length. reflexivity.
Qed.

Lemma partial_ok h v o big n j w u : view_ok h u -> view_ok (partial h v o big n j w) u.
Proof. apply view_ok_store. Qed.

Lemma partial_ext h v o big n j w w' : (forall i, (i < j)%nat -> (w / 256 ^ Z.of_nat i) mod 256 = (w' / 256 ^ Z.of_nat i) mod 256) ->
  partial h v o big n j w = partial h v o big n j w'.
Proof.
  intros E. unfold partial. do 2 f_equal. induction j as [|j IH]; [reflexivity|].
  rewrite !le_split_snoc, E by lia. f_equal. apply IH. intros i Hi. apply E. lia.
Qed.

(** The bytes of the fraction: [y / 2^q] is the fraction, [w] the whole word. *)
Lemma put_mantissa_run h v o big n k y q w :
  view_ok h v -> 0 <= o -> o + Z.of_nat n <= vlen v -> 0 <= y < 2 ^ 53 -> 0 <= k < 8 ->
  forall c fuel j, 0 <= q <= 60 -> (j + c <= n)%nat -> (n <= 8)%nat -> (c <= fuel)%nat ->
  (forall i, (j <= i < j + c)%nat -> (y / 2 ^ q / 256 ^ Z.of_nat i) mod 256 = (w / 256 ^ Z.of_nat i) mod 256) ->
  put_mantissa fuel v o (low_index big n (Z.of_nat j)) (if big then -1 else 1) (dy y (- (q + 8 * Z.of_nat j)))
      (8 * Z.of_nat c + k) (partial h v o big n j w) =
    (partial h v o big n (j + c) w,
     Ok (dy y (- (q + 8 * Z.of_nat (j + c))), low_index big n (Z.of_nat (j + c)), k)).
Proof.
  intros Hv Ho Hn Hy Hk c. induction c as [|c IH]; intros fuel j Hq Hj H8 Hf E.
  - rewrite Nat.add_0_r. change (8 * Z.of_nat 0 + k) with k. destruct fuel; cbn [put_mantissa]; [reflexivity|].
    zbool. reflexivity.
  - destruct fuel as [|fuel]; [lia|]. cbn [put_mantissa]. zbool.
    erewrite bind_ok by (apply put_run; unfold low_index; destruct big; lia).
    unfold ToInt32. rewrite low_int_run, trunc_dy by lia.
    rewrite Z.pow_add_r, <- Z.div_div, <- pow256 by (try apply Z.pow_nonzero; try apply Z.pow_pos_nonneg; lia).
    rewrite E by lia. rewrite partial_S by (assumption || lia).
    rewrite quarter_dy by lia.
    replace (low_index big n (Z.of_nat j) + (if big then -1 else 1)) with (low_index big n (Z.of_nat (S j)))
      by (unfold low_index; destruct big; lia).
    replace (q + 8 * Z.of_nat j + 8) with (q + 8 * Z.of_nat (S j)) by lia.
    replace (8 * Z.of_nat (S c) + k - 8) with (8 * Z.of_nat c + k) by lia.
    rewrite (IH fuel (S j)); [|lia|lia|lia|lia|intros i Hi; apply E; lia].
    replace (S j + c)%nat with (j + S c)%nat by lia. reflexivity.
Qed.

Lemma store_overwrite h v i a b : store (store h v i [a]) v i [b] = store h v i [b].
Proof.
  apply heap_ext; [|reflexivity]. unfold store at 1. cbn [mem]. rewrite ab_bytes_store, decide_True by reflexivity.
  unfold store. cbn [mem list_inserts]. rewrite insert_insert_eq, list_insert_insert_eq. reflexivity.
Qed.

(** The low bytes of a word do not see its sign, nor those of the fraction the exponent. *)
Lemma low_byte_same a b c i : 0 <= i -> (a + b * 2 ^ (8 * (i + 1) + c)) / 256 ^ i mod 256 = a / 256 ^ i mod 256 \/ c < 0.
Proof.
  intros Hi. destruct (Z.lt_ge_cases c 0) as [?|Hc]; [right; assumption|left].
  replace (2 ^ (8 * (i + 1) + c)) with (2 ^ c * 256 * 256 ^ i).
  - rewrite Z.mul_assoc, Z.div_add by (apply Z.pow_nonzero; lia). rewrite Z.mul_assoc, Z.mod_add by lia. reflexivity.
  - rewrite Z.pow_add_r by lia. rewrite (Z.pow_mul_r 2 8) by lia. change (2 ^ 8) with 256.
    rewrite Z.pow_add_r, Z.pow_1_r by lia. ring.
Qed.

Section WriteRun.
Variables (f : float_format) (big : bool) (h : heap) (v : view) (o : Z).
Hypotheses (Hh : heap_ok h) (Hv : view_ok h v) (Ho : 0 <= o) (Hn : o + Z.of_nat (fbytes f) <= vlen v).

Let n := fbytes f.
Let J := flow f.
Let k := fhigh f.

Lemma format_numbers :
  0 < k < 8 /\ fraction_bits f = 8 * Z.of_nat J + k /\ exponent_bits f = 15 - k /\ n = S (S J) /\ (2 <= J <= 6)%nat.
Proof. unfold k, J, n. destruct f; cbn; lia. Qed.

(** Writing the exponent bytes of a word whose fraction bytes are written. *)
Lemma put_exponent_run w x : 0 <= w < 2 ^ (8 * Z.of_nat n - 1) -> x = w / 256 ^ Z.of_nat J ->
  put_exponent n v o (low_index big n (Z.of_nat J)) (if big then -1 else 1) (of_Z x) 15 (partial h v o big n J w) =
    (partial h v o big n n w, Ok (low_index big n (Z.of_nat n))).
Proof.
  intros Hw ->. destruct format_numbers as (K1 & _ & _ & K4 & K5).
  set (x := w / 256 ^ Z.of_nat J).
  assert (Hx : 0 <= x < 2 ^ 15).
  { unfold x. split; [apply Z.div_pos; [lia|apply Z.pow_pos_nonneg; lia]|].
    apply Z.div_lt_upper_bound; [apply Z.pow_pos_nonneg; lia|]. rewrite pow256, <- Z.pow_add_r by lia.
    replace (8 * Z.of_nat J + 15) with (8 * Z.of_nat n - 1) by lia. lia. }
  assert (E : x / 256 = w / 256 ^ Z.of_nat (S J)).
  { unfold x. rewrite Nat2Z.inj_succ, Z.pow_succ_r by lia. rewrite (Z.mul_comm 256), Z.div_div;
      [reflexivity|apply Z.pow_nonzero; lia|lia]. }
  assert (Ex : x = w / 256 ^ Z.of_nat J) by reflexivity. clearbody x.
  replace (put_exponent n) with (put_exponent (S (S (S (n - 3))))) by (f_equal; lia).
  cbn [put_exponent]. change (0 <? 15) with true. change (0 <? 15 - 8) with true.
  change (0 <? 15 - 8 - 8) with false. cbv iota.
  erewrite bind_ok by (apply put_run; unfold low_index; destruct big; lia).
  rewrite ToInt32_of_Z, low_int_run by lia.
  replace (x mod 256) with ((w / 256 ^ Z.of_nat J) mod 256) by (rewrite Ex; reflexivity).
  rewrite partial_S by (assumption || lia).
  erewrite bind_ok by (apply put_run; unfold low_index; destruct big; lia).
  change (of_Z x) with (dy x (- 0)). rewrite quarter_dy by lia. unfold ToInt32.
  rewrite low_int_run, trunc_dy by lia. change (2 ^ (0 + 8)) with 256. rewrite E.
  replace (low_index big n (Z.of_nat J) + (if big then -1 else 1)) with (low_index big n (Z.of_nat (S J)))
    by (unfold low_index; destruct big; lia).
  rewrite partial_S by (assumption || lia).
  unfold ret. rewrite K4. f_equal. f_equal. unfold low_index. destruct big; lia.
Qed.

(** Setting the sign bit of the last byte. *)
Lemma put_sign_run w (s : bool) : 0 <= w < 2 ^ (8 * Z.of_nat n - 1) ->
  (let! b := geti v (o + low_index big n (Z.of_nat n - 1)) in
   put v (o + low_index big n (Z.of_nat n - 1)) (of_Z (or32 b (if s then 128 else 0)))) (partial h v o big n n w) =
  (store h v o (encode big n (w + (if s then 1 else 0) * 2 ^ (8 * Z.of_nat n - 1))), Ok tt).
Proof.
  intros Hw. destruct format_numbers as (_ & _ & _ & K4 & K5).
  set (w' := w + (if s then 1 else 0) * 2 ^ (8 * Z.of_nat n - 1)).
  set (b := w / 256 ^ Z.of_nat (n - 1)).
  assert (P : 2 ^ (8 * Z.of_nat n - 1) = 128 * 256 ^ Z.of_nat (n - 1)).
  { rewrite pow256. change 128 with (2 ^ 7). rewrite <- Z.pow_add_r by lia. f_equal. lia. }
  assert (P0 : 0 < 256 ^ Z.of_nat (n - 1)) by (apply Z.pow_pos_nonneg; lia).
  assert (Hb : 0 <= b < 128).
  { unfold b. split; [apply Z.div_pos; lia|]. apply Z.div_lt_upper_bound; [lia|]. lia. }
  assert (S1 : partial h v o big n n w =
               store (partial h v o big n (n - 1) w) v (o + low_index big n (Z.of_nat n - 1)) [b]).
  { replace n with (S (n - 1)) at 2 by lia. rewrite <- partial_S by (assumption || lia).
    rewrite (Z.mod_small b) by lia. do 2 f_equal. unfold low_index. destruct big; lia. }
  assert (V1 : view_ok (partial h v o big n (n - 1) w) v) by (apply partial_ok, Hv).
  assert (I1 : 0 <= low_index big n (Z.of_nat n - 1) < Z.of_nat n) by (unfold low_index; destruct big; lia).
  assert (O1 : heap_ok (partial h v o big n n w)).
  { apply heap_ok_store; [exact Hh|exact Hv|]. destruct big; [apply Forall_reverse|]; apply le_split_bytes. }
  erewrite bind_ok by (apply geti_run; [exact O1|apply partial_ok, Hv|lia]).
  assert (B : byte_at (partial h v o big n n w) v (o + low_index big n (Z.of_nat n - 1)) = b).
  { rewrite S1. replace (o + low_index big n (Z.of_nat n - 1)) with (o + low_index big n (Z.of_nat n - 1) + Z.of_nat 0) at 2 by lia.
    apply byte_at_store; [exact V1|lia|cbn; lia|reflexivity]. }
  rewrite B. rewrite put_run by lia. rewrite S1, store_overwrite.
  assert (E : or32 b (if s then 128 else 0) = b + (if s then 128 else 0)).
  { destruct s; [|rewrite Z.add_0_r; apply Z.lor_0_r].
    change (or32 b 128 = b + 128). unfold or32. rewrite Z.lor_comm, Z.add_comm. apply (or32_disjoint 1 b 7); lia. }
  rewrite E, ToUint8_byte by (unfold byte; destruct s; lia).
  assert (W : (w' / 256 ^ Z.of_nat (n - 1)) mod 256 = b + (if s then 128 else 0)).
  { unfold w'. rewrite P. replace (w + (if s then 1 else 0) * (128 * 256 ^ Z.of_nat (n - 1)))
      with (w + (if s then 128 else 0) * 256 ^ Z.of_nat (n - 1)) by (destruct s; lia).
    rewrite Z.div_add by lia. fold b. apply Z.mod_small. destruct s; lia. }
  rewrite <- W. rewrite (partial_ext h v o big n (n - 1) w w').
  - replace (Z.of_nat n - 1) with (Z.of_nat (n - 1)) by lia. rewrite partial_S by (assumption || lia).
    replace (S (n - 1)) with n by lia. unfold partial, encode. do 2 f_equal. destruct big; lia.
  - intros i Hi. symmetry. unfold w'.
    destruct (low_byte_same w (if s then 1 else 0) (8 * Z.of_nat n - 1 - 8 * (Z.of_nat i + 1)) (Z.of_nat i) ltac:(lia)) as [L|L];
      [|lia].
    replace (8 * Z.of_nat n - 1) with (8 * (Z.of_nat i + 1) + (8 * Z.of_nat n - 1 - 8 * (Z.of_nat i + 1))) by lia. exact L.
Qed.

(** The word of a sign, an exponent field and a fraction. *)
Definition ieee_word (s : bool) (ex frac : Z) : Z :=
  frac + ex * 2 ^ fraction_bits f + (if s then 1 else 0) * 2 ^ (8 * Z.of_nat n - 1).

Definition bias : Z := 2 ^ (exponent_bits f - 1) - 1.
Definition max_exponent : Z := 2 ^ exponent_bits f - 1.

Definition sign_test (value : num) : bool :=
  flt value (of_Z 0) || (feq value (of_Z 0) && flt (fdiv (of_Z 1) value) (of_Z 0)).

(** The fraction after its whole bytes are gone, and the exponent field above it. *)
Lemma high_fields frac ex : 0 <= frac < 2 ^ fraction_bits f -> 0 <= ex < 2 ^ exponent_bits f ->
  0 <= frac + ex * 2 ^ fraction_bits f < 2 ^ (8 * Z.of_nat n - 1) /\
  0 <= frac / 256 ^ Z.of_nat J < 2 ^ k /\ 1 <= 2 ^ k <= 2 ^ 7 /\ 0 <= ex < 2 ^ 15 /\ 0 <= ex * 2 ^ k < 2 ^ 15 /\
  ex * 2 ^ k + frac / 256 ^ Z.of_nat J = (frac + ex * 2 ^ fraction_bits f) / 256 ^ Z.of_nat J.
Proof.
  intros Hf Hex. destruct format_numbers as (K1 & K2 & K3 & K4 & K5).
  assert (P0 : 0 < 256 ^ Z.of_nat J) by (apply Z.pow_pos_nonneg; lia).
  assert (Hk : 2 ^ k * 2 ^ exponent_bits f = 2 ^ 15) by (rewrite <- Z.pow_add_r by lia; f_equal; lia).
  assert (H7 : 1 <= 2 ^ k <= 2 ^ 7) by (split; [pose proof (Z.pow_pos_nonneg 2 k); lia|apply Z.pow_le_mono_r; lia]).
  split; [|split; [|split; [exact H7|split; [nia|split; [nia|]]]]].
  - replace (8 * Z.of_nat n - 1) with (fraction_bits f + exponent_bits f) by lia. rewrite Z.pow_add_r by lia. nia.
  - split; [apply Z.div_pos; lia|]. apply Z.div_lt_upper_bound; [lia|]. rewrite pow256, <- Z.pow_add_r by lia.
    rewrite <- K2. lia.
  - rewrite K2, Z.pow_add_r, <- pow256 by lia. rewrite (Z.mul_comm (256 ^ _)), Z.mul_assoc, Z.div_add by lia. lia.
Qed.

Lemma write_word log value y q ex :
  exponent_mantissa log (fabs value) (fraction_bits f) bias max_exponent = (of_Z ex, dy y (- q)) ->
  0 <= y < 2 ^ 53 -> 0 <= q <= 60 -> y / 2 ^ q < 2 ^ fraction_bits f -> 0 <= ex < 2 ^ exponent_bits f ->
  write log v value o (negb big) (fraction_bits f) (Z.of_nat n) h =
    (store h v o (encode big n (ieee_word (sign_test value) ex (y / 2 ^ q))), Ok tt).
Proof.
  intros E Hy Hq Hf Hex. destruct format_numbers as (K1 & K2 & K3 & K4 & K5).
  set (frac := y / 2 ^ q) in *. assert (F0 : 0 <= frac) by (apply Z.div_pos; [lia|apply Z.pow_pos_nonneg; lia]).
  destruct (high_fields frac ex ltac:(lia) Hex) as (Hw & Hlow & H7 & Hex1 & Hex2 & HwJ).
  set (w := frac + ex * 2 ^ fraction_bits f) in *.
  unfold write.
  replace (Z.of_nat n * 8 - fraction_bits f - 1) with (exponent_bits f) by lia.
  replace (shl32 1 (exponent_bits f) - 1) with max_exponent by (unfold max_exponent; destruct f; reflexivity).
  replace (sar32 max_exponent 1) with bias by (unfold max_exponent, bias; destruct f; reflexivity).
  replace (if negb big then 0 else Z.of_nat n - 1) with (low_index big n (Z.of_nat 0))
    by (unfold low_index; destruct big; cbn; lia).
  replace (if negb big then 1 else -1) with (if big then -1 else 1) by (destruct big; reflexivity).
  fold (sign_test value). cbv zeta. rewrite E, Nat2Z.id.
  rewrite <- (partial_0 h v o big n w Hv) at 1.
  pose proof (put_mantissa_run h v o big n k y q w Hv Ho Hn Hy ltac:(lia) J n 0 Hq ltac:(lia) ltac:(lia) ltac:(lia)) as R.
  change (8 * Z.of_nat 0) with 0 in R. rewrite Z.add_0_r in R. rewrite K2.
  erewrite bind_ok; [|apply R]; clear R.
  2: { intros i Hi. fold frac. unfold w. symmetry. rewrite K2.
       replace (8 * Z.of_nat J + k) with (8 * (Z.of_nat i + 1) + (8 * Z.of_nat J + k - 8 * (Z.of_nat i + 1))) by lia.
       destruct (low_byte_same frac ex (8 * Z.of_nat J + k - 8 * (Z.of_nat i + 1)) (Z.of_nat i) ltac:(lia)) as [L|L];
         [exact L|lia]. }
  cbn [Nat.add]. replace (exponent_bits f + k) with 15 by lia.
  assert (T : to_integer (dy y (- (q + 8 * Z.of_nat J))) = frac / 256 ^ Z.of_nat J).
  { rewrite trunc_dy by lia. unfold frac. rewrite pow256, Z.div_div, <- Z.pow_add_r; try reflexivity; try lia;
      try (apply Z.pow_nonzero; lia); apply Z.pow_pos_nonneg; lia. }
  unfold ToInt32 at 2. rewrite T. rewrite (sint32_small (frac / _)) by lia.
  rewrite ToInt32_of_Z, sint32_small by lia. rewrite shl32_small by lia.
  rewrite (or32_disjoint ex (frac / 256 ^ Z.of_nat J) k) by lia.
  erewrite bind_ok by (apply (put_exponent_run w); [exact Hw|exact HwJ]).
  replace (o + low_index big n (Z.of_nat n) - (if big then -1 else 1)) with (o + low_index big n (Z.of_nat n - 1))
    by (unfold low_index; destruct big; lia).
  rewrite (put_sign_run w (sign_test value) Hw). reflexivity.
Qed.
End WriteRun.

(** ** Decomposing a Number *)

Lemma ieee_value_word f s ex frac : 0 <= frac < 2 ^ fraction_bits f -> 0 <= ex < 2 ^ exponent_bits f ->
  ieee_value (fraction_bits f) (exponent_bits f) (ieee_word f s ex frac) =
    if ex =? max_exponent f then if frac =? 0 then S754_infinity s else NaN
    else if ex =? 0 then signed_num s frac (1 - bias f - fraction_bits f)
    else signed_num s (frac + 2 ^ fraction_bits f) (ex - bias f - fraction_bits f).
Proof.
  intros Hf He. unfold ieee_value, ieee_word. fold (max_exponent f) (bias f).
  set (m := fraction_bits f) in *. set (e := exponent_bits f) in *.
  assert (Hm : 0 < m /\ 0 < e /\ 8 * Z.of_nat (fbytes f) - 1 = m + e) by (unfold m, e; destruct f; cbn; lia).
  destruct Hm as (Hm & Hep & ->). set (b := if s then 1 else 0). assert (Hb : 0 <= b < 2) by (unfold b; destruct s; lia).
  rewrite Z.pow_add_r by lia. set (M := 2 ^ m) in *. set (Q := 2 ^ e) in *.
  assert (HM : 0 < M) by (apply Z.pow_pos_nonneg; lia). assert (HQ : 0 < Q) by (apply Z.pow_pos_nonneg; lia).
  replace (frac + ex * M + b * (M * Q)) with (frac + (ex + b * Q) * M) by ring.
  rewrite Z.mod_add, (Z.mod_small frac) by lia.
  assert (D : (frac + (ex + b * Q) * M) / M = ex + b * Q) by (rewrite Z.div_add, Z.div_small by lia; lia).
  rewrite <- Z.div_div, D by lia. rewrite Z.mod_add, Z.div_add, (Z.mod_small ex), (Z.div_small ex) by lia.
  rewrite Z.add_0_l, (Z.mod_small b) by lia.
  replace (negb (b =? 0)) with s by (unfold b; destruct s; reflexivity). reflexivity.
Qed.

(** ** The exponent and mantissa of a binary64 value *)

(** An integer at a lower exponent. *)
Lemma of_Z_at c j : Z.abs c <= 2 ^ 53 -> j <= 0 -> of_Z c = dy (c * 2 ^ (- j)) j.
Proof.
  intros Hc Hj. apply dy_dyeq; [apply fits_int, Hc|]. apply dyeq_sym.
  pose proof (dyeq_shift c j (- j) ltac:(lia)) as D. rewrite Z.add_opp_diag_r in D. exact D.
Qed.

Lemma fits_at c j : Z.abs c <= 2 ^ 53 -> j <= 0 -> fits (c * 2 ^ (- j)) j.
Proof.
  intros Hc Hj. eapply fits_dyeq; [|apply (fits_int c Hc)]. apply dyeq_sym.
  pose proof (dyeq_shift c j (- j) ltac:(lia)) as D. rewrite Z.add_opp_diag_r in D. exact D.
Qed.

Lemma pow2_opp e : Z.abs e <= 2 ^ 53 -> pow2 (fopp (of_Z e)) = dy 1 (- e).
Proof.
  intros He. destruct (Z.eq_dec e 0) as [->|N]; [reflexivity|].
  assert (O : fopp (of_Z e) = of_Z (- e)).
  { unfold of_Z. destruct (dy_cases e 0 (fits_int e He)) as [[? _]|(m & x & B & D & _ & E)]; [contradiction|].
    rewrite E. symmetry. cbn [fopp SFopp]. unfold fopp, SFopp.
    destruct (dy_cases (- e) 0 (fits_int (- e) ltac:(lia))) as [[? _]|(m' & x' & B' & D' & _ & E')]; [lia|].
    rewrite E'. rewrite Z.abs_opp in D'.
    assert (W : binary_normalize prec emax (Z.pos m) x false = binary_normalize prec emax (Z.pos m') x' false).
    { rewrite (norm_exact false (Z.pos m) x (Z.abs e) 0); [|apply fits_int; lia|apply dyeq_sym, D|lia].
      rewrite (norm_exact false (Z.pos m') x' (Z.abs e) 0); [reflexivity|apply fits_int; lia|apply dyeq_sym, D'|lia]. }
    cbn [binary_normalize] in W.
    rewrite (round_exact false m x m x B (dyeq_refl _ _)), (round_exact false m' x' m' x' B' (dyeq_refl _ _)) in W.
    injection W as <- <-. f_equal. destruct (Z.ltb_spec e 0), (Z.ltb_spec (- e) 0); cbn; lia || reflexivity. }
  rewrite O. apply pow2_of_Z. lia.
Qed.

(** What the code relies on [Math.log] for: the exponent it gives is the binary
    exponent of the value or next to it; the logarithm of zero is minus infinity. *)
Definition log_estimate (log : num -> num) (v : num) : Prop :=
  match v with
  | S754_finite _ m e =>
      exists e0, Math_floor (fdiv (log v) LN2) = of_Z e0 /\ Z.abs (e0 - (e + Z.log2 (Z.pos m))) <= 1
  | S754_zero _ => log v = S754_infinity true
  | _ => True
  end.

Lemma log2_dyeq z k m e : 0 < z -> dyeq z k (Z.pos m) e -> k + Z.log2 z = e + Z.log2 (Z.pos m).
Proof.
  intros Hz (b & H1 & H2 & E).
  pose proof (Z.log2_mul_pow2 z (k - b) ltac:(lia) ltac:(lia)) as L1.
  pose proof (Z.log2_mul_pow2 (Z.pos m) (e - b) ltac:(lia) ltac:(lia)) as L2. rewrite E, L2 in L1. lia.
Qed.

Lemma estimate_dy log z k : 0 < z -> fits z k -> log_estimate log (dy z k) ->
  exists e0, Math_floor (fdiv (log (dy z k)) LN2) = of_Z e0 /\ Z.abs (e0 - (k + Z.log2 z)) <= 1.
Proof.
  intros Hz F H. destruct (dy_cases z k F) as [[? _]|(m & e & _ & D & _ & E)]; [lia|].
  rewrite E in *. destruct H as (e0 & H1 & H2). exists e0. split; [exact H1|].
  rewrite Z.abs_eq in D by lia. rewrite (log2_dyeq z k m e Hz D). exact H2.
Qed.

Lemma finite_dy z k : fits z k -> is_nan (dy z k) || feq (dy z k) Infinity = false.
Proof. intros F. destruct (dy_cases z k F) as [[_ ->]|(m & e & _ & _ & _ & ->)]; [reflexivity|]. destruct (z <? 0); reflexivity. Qed.

Lemma fmul_scale z k j : 0 < z -> fits z k -> fits 1 j -> fits z (k + j) -> fmul (dy z k) (dy 1 j) = dy z (k + j).
Proof. intros Hz F1 F2 F3. rewrite fmul_dy; rewrite ?Z.mul_1_r; auto; lia. Qed.

Lemma zero_quot e : fits 1 e -> fdiv (of_Z 0) (dy 1 e) = of_Z 0.
Proof. intros F. destruct (dy_cases 1 e F) as [[? _]|(m & x & _ & _ & _ & ->)]; [lia|]. reflexivity. Qed.

Lemma zero_quot_inf : fdiv (of_Z 0) Infinity = of_Z 0.
Proof. reflexivity. Qed.

Lemma fadd_zero z k : 0 < z -> fits z k -> fadd (dy z k) (of_Z 0) = dy z k.
Proof. intros Hz F. destruct (dy_cases z k F) as [[? _]|(m & x & _ & _ & _ & ->)]; [lia|]. reflexivity. Qed.

Lemma fits1 j : -1074 <= j <= 1023 -> fits 1 j.
Proof.
  intros H. destruct (Z.le_gt_cases j 971) as [L|L]; [apply fits_small; lia|].
  exists (2 ^ (j - 971)), 971. split.
  - pose proof (Z.pow_pos_nonneg 2 (j - 971)). pose proof (Z.pow_le_mono_r 2 (j - 971) 52). lia.
  - split; [lia|]. apply dyeq_sym. pose proof (dyeq_shift 1 971 (j - 971) ltac:(lia)) as D.
    replace (971 + (j - 971)) with j in D by lia. rewrite Z.mul_1_l in D. exact D.
Qed.

(** *** Stages

    [exponent_mantissa] adds a rounding term to the value and corrects its first
    exponent twice, before and after; the exponents are integers. *)
Definition rounding_term (mLen : Z) : num := if mLen =? 23 then fsub (dy 1 (-24)) (dy 1 (-77)) else of_Z 0.

Definition rounded (mLen eBias : Z) (x : num) (e : Z) (c : num) : num :=
  fadd x (if 1 <=? e + eBias then fdiv (rounding_term mLen) c else fmul (rounding_term mLen) (pow2 (of_Z (1 - eBias)))).

Definition finish (mLen eBias eMax : Z) (x : num) (e : Z) (c : num) : num * num :=
  let high := fle (of_Z 2) (fmul x c) in
  let e := if high then e + 1 else e in
  let c := if high then fdiv c (of_Z 2) else c in
  if eMax <=? e + eBias then (of_Z eMax, of_Z 0)
  else if 1 <=? e + eBias then (of_Z (e + eBias), fmul (fsub (fmul x c) (of_Z 1)) (pow2 (of_Z mLen)))
  else (of_Z 0, fmul (fmul x (pow2 (of_Z (eBias - 1)))) (pow2 (of_Z mLen))).

Lemma stages log mLen eBias eMax z k e0 : 0 < z -> fits z k -> Math_floor (fdiv (log (dy z k)) LN2) = of_Z e0 ->
  Z.abs e0 <= 2000 -> Z.abs eBias <= 2000 -> Z.abs eMax <= 4000 ->
  let low := flt (fmul (dy z k) (dy 1 (- e0))) (of_Z 1) in
  let e := if low then e0 - 1 else e0 in
  let c := if low then fmul (dy 1 (- e0)) (of_Z 2) else dy 1 (- e0) in
  exponent_mantissa log (dy z k) mLen eBias eMax = finish mLen eBias eMax (rounded mLen eBias (dy z k) e c) e c.
Proof.
  intros Hz F E0 He Hb Hm. cbv zeta. unfold exponent_mantissa. fold (rounding_term mLen).
  rewrite finite_dy by exact F. cbv iota zeta. rewrite E0, pow2_opp by lia.
  set (low := flt (fmul (dy z k) (dy 1 (- e0))) (of_Z 1)).
  set (e1 := if low then e0 - 1 else e0). set (c1 := if low then _ else dy 1 (- e0)).
  assert (H1 : Z.abs e1 <= 2001) by (unfold e1; destruct low; lia).
  replace (if low then fsub (of_Z e0) (of_Z 1) else of_Z e0) with (of_Z e1)
    by (unfold e1; destruct low; [symmetry; apply fsub_of_Z; lia|reflexivity]).
  rewrite fadd_of_Z, fle_of_Z by lia.
  match goal with |- context [if 1 <=? e1 + eBias then fadd (dy z k) ?a else fadd (dy z k) ?b] =>
    replace (if 1 <=? e1 + eBias then fadd (dy z k) a else fadd (dy z k) b)
      with (rounded mLen eBias (dy z k) e1 c1) by (unfold rounded; destruct (1 <=? e1 + eBias); reflexivity)
  end.
  unfold finish. set (high := fle (of_Z 2) (fmul (rounded mLen eBias (dy z k) e1 c1) c1)).
  set (e2 := if high then e1 + 1 else e1).
  assert (H2 : Z.abs e2 <= 2002) by (unfold e2; destruct high; lia).
  replace (if high then fadd (of_Z e1) (of_Z 1) else of_Z e1) with (of_Z e2)
    by (unfold e2; destruct high; [symmetry; apply fadd_of_Z; lia|reflexivity]).
  rewrite fadd_of_Z, !fle_of_Z by lia. reflexivity.
Qed.

(** For a value of 53 bits the first correction leaves the binary exponent, or one
    less if the estimate was one less. *)
Lemma first_exponent log mLen eBias eMax z k e0 : 2 ^ 52 <= z < 2 ^ 53 -> -1074 <= k <= 971 ->
  Math_floor (fdiv (log (dy z k)) LN2) = of_Z e0 -> Z.abs (e0 - (k + 52)) <= 1 ->
  Z.abs eBias <= 2000 -> Z.abs eMax <= 4000 ->
  exists e, exponent_mantissa log (dy z k) mLen eBias eMax =
      finish mLen eBias eMax (rounded mLen eBias (dy z k) e (dy 1 (- e))) e (dy 1 (- e)) /\
    (e = k + 52 \/ e = k + 51 /\ e = e0).
Proof.
  intros Hz Hk E0 H Hb Hm. assert (F : forall j, -1074 <= j <= 971 -> fits z j) by (intros; apply fits_small; lia).
  pose proof (stages log mLen eBias eMax z k e0 ltac:(lia) (F k Hk) E0 ltac:(lia) Hb Hm) as S. cbv zeta in S. rewrite S. clear S.
  assert (Lo : flt (fmul (dy z k) (dy 1 (- e0))) (of_Z 1) = (k + 52 <? e0)).
  { rewrite fmul_scale by (try apply F; try apply fits1; lia).
    rewrite (of_Z_at 1 (k + - e0)) by lia. rewrite flt_dy by (try apply F; try apply fits_at; lia). rewrite Z.mul_1_l.
    destruct (Z.ltb_spec (k + 52) e0).
    - apply Z.ltb_lt. replace (- (k + - e0)) with 53 by lia. lia.
    - apply Z.ltb_ge. pose proof (Z.pow_le_mono_r 2 (- (k + - e0)) 52). lia. }
  rewrite Lo. destruct (Z.ltb_spec (k + 52) e0).
  - exists (e0 - 1). split; [|lia]. replace (fmul (dy 1 (- e0)) (of_Z 2)) with (dy 1 (- (e0 - 1))); [reflexivity|].
    change (of_Z 2) with (of_Z (2 ^ 1)). rewrite of_Z_pow2 by lia.
    rewrite fmul_scale by (try apply fits1; lia). f_equal. lia.
  - exists e0. split; [reflexivity|]. lia.
Qed.

(** The second correction: the exponent [e'] of the value is [e] or one more. *)
Lemma finish_dy mLen eBias eMax y e e' : 2 ^ 52 <= y < 2 ^ 53 -> -1023 <= e <= 1023 -> -1022 <= e' <= 1023 ->
  e' = e \/ e' = e + 1 -> 0 <= mLen <= 100 ->
  finish mLen eBias eMax (dy y (e' - 52)) e (dy 1 (- e)) =
    if eMax <=? e' + eBias then (of_Z eMax, of_Z 0)
    else if 1 <=? e' + eBias then (of_Z (e' + eBias), dy (y - 2 ^ 52) (mLen - 52))
    else (of_Z 0, fmul (fmul (dy y (e' - 52)) (pow2 (of_Z (eBias - 1)))) (pow2 (of_Z mLen))).
Proof.
  intros Hy He He' H Hm. assert (F : forall j, -1074 <= j <= 971 -> fits y j) by (intros; apply fits_small; lia).
  unfold finish. rewrite fmul_scale by (try apply F; try apply fits1; lia).
  assert (Hi : fle (of_Z 2) (dy y (e' - 52 + - e)) = (e <? e')).
  { rewrite (of_Z_at 2 (e' - 52 + - e)) by lia. rewrite fle_dy by (try apply F; try apply fits_at; lia).
    destruct H as [-> | ->].
    - rewrite Z.ltb_irrefl. apply Z.leb_gt. replace (- (e - 52 + - e)) with 52 by lia. lia.
    - rewrite (proj2 (Z.ltb_lt e (e + 1))) by lia. apply Z.leb_le. replace (- (e + 1 - 52 + - e)) with 51 by lia. lia. }
  rewrite Hi. cbv zeta.
  replace (if e <? e' then e + 1 else e) with e' by (destruct (Z.ltb_spec e e'); lia).
  replace (if e <? e' then fdiv (dy 1 (- e)) (of_Z 2) else dy 1 (- e)) with (dy 1 (- e')).
  2: { destruct (Z.ltb_spec e e'); [|f_equal; lia]. change (of_Z 2) with (of_Z (2 ^ 1)). rewrite of_Z_pow2 by lia.
       rewrite fdiv_pow2 by (try apply fits1; lia). f_equal. lia. }
  destruct (eMax <=? e' + eBias); [reflexivity|]. destruct (1 <=? e' + eBias); [|reflexivity].
  rewrite fmul_scale by (try apply F; try apply fits1; lia). f_equal.
  replace (e' - 52 + - e') with (-52) by lia. change (of_Z 1) with (dy (2 ^ 52) (-52)).
  rewrite fsub_dy by (apply fits_small; lia). rewrite pow2_of_Z by lia.
  destruct (Z.eq_dec (y - 2 ^ 52) 0) as [-> | N].
  - change (dy 0 (-52)) with (S754_zero false). change (dy 0 (mLen - 52)) with (S754_zero false).
    rewrite (dy_pow2 mLen) by lia. reflexivity.
  - rewrite fmul_scale by (try apply fits1; try apply fits_small; lia). f_equal. lia.
Qed.

(** *** The binary64 layout: nothing is rounded *)

Definition double_bits (log : num -> num) (v : num) : num * num :=
  exponent_mantissa log v (fraction_bits Binary64) (bias Binary64) (max_exponent Binary64).

Lemma rounded_double z k e c : 0 < z -> fits z k -> c = Infinity \/ (exists j, c = dy 1 j /\ fits 1 j) ->
  rounded 52 1023 (dy z k) e c = dy z k.
Proof.
  intros Hz F Hc. unfold rounded. change (rounding_term 52) with (of_Z 0).
  change (fmul (of_Z 0) (pow2 (of_Z (1 - 1023)))) with (of_Z 0).
  replace (fdiv (of_Z 0) c) with (of_Z 0); [destruct (1 <=? e + 1023); apply fadd_zero; assumption|].
  destruct Hc as [-> | (j & -> & Fj)]; [reflexivity|symmetry; apply zero_quot, Fj].
Qed.

Lemma mantissa_normal log z k : 2 ^ 52 <= z < 2 ^ 53 -> -1074 <= k <= 971 -> log_estimate log (dy z k) ->
  double_bits log (dy z k) = (of_Z (k + 52 + 1023), of_Z (z - 2 ^ 52)).
Proof.
  intros Hz Hk L. assert (F : fits z k) by (apply fits_small; lia).
  destruct (estimate_dy log z k ltac:(lia) F L) as (e0 & E0 & H0).
  rewrite (Z.log2_unique z 52) in H0 by lia.
  destruct (first_exponent log 52 1023 2047 z k e0 Hz Hk E0 H0 ltac:(lia) ltac:(lia)) as (e & E & He).
  change (double_bits log (dy z k)) with (exponent_mantissa log (dy z k) 52 1023 2047). rewrite E.
  rewrite rounded_double; [|lia|exact F|right; eexists; split; [reflexivity|apply fits1; lia]].
  replace (dy z k) with (dy z (k + 52 - 52)) by (f_equal; lia). rewrite finish_dy by lia. zbool. reflexivity.
Qed.

(** A power of two past the range is infinite. *)
Lemma dy_overflow j : 1024 <= j <= 1076 -> dy 1 j = Infinity.
Proof.
  intros Hj. assert (E : exists i, (i <= 52)%nat /\ j = 1024 + Z.of_nat i) by (exists (Z.to_nat (j - 1024)); lia).
  destruct E as (i & Hi & ->). do 53 (destruct i as [|i]; [vm_compute; reflexivity|]). lia.
Qed.

Lemma dy_times_infinity z k : 0 < z -> fits z k -> fmul (dy z k) Infinity = Infinity.
Proof.
  intros Hz F. destruct (dy_cases z k F) as [[? _]|(m & x & _ & _ & _ & ->)]; [lia|].
  rewrite (proj2 (Z.ltb_ge z 0)) by lia. reflexivity.
Qed.

(** The first correction for a subnormal value, whose power of two may be infinite. *)
Lemma first_subnormal z e0 : 0 < z < 2 ^ 52 -> Z.abs (e0 - (-1074 + Z.log2 z)) <= 1 ->
  let low := flt (fmul (dy z (-1074)) (dy 1 (- e0))) (of_Z 1) in
  let e := if low then e0 - 1 else e0 in
  let c := if low then fmul (dy 1 (- e0)) (of_Z 2) else dy 1 (- e0) in
  -1077 <= e <= -1024 /\ c = Infinity \/ e = -1023 /\ c = dy 1 1023.
Proof.
  intros Hz H0. cbv zeta. assert (F : forall j, -1074 <= j <= 971 -> fits z j) by (intros; apply fits_small; lia).
  pose proof (Z.log2_spec z ltac:(lia)) as G. pose proof (Z.log2_nonneg z) as G0.
  assert (G1 : Z.log2 z < 52) by (apply Z.log2_lt_pow2; lia). set (l := Z.log2 z) in *.
  destruct (Z.lt_ge_cases e0 (-1023)) as [H|H].
  - left. rewrite dy_overflow, dy_times_infinity by (try apply F; lia). change (flt Infinity (of_Z 1)) with false. cbv iota. split; [lia|reflexivity].
  - rewrite fmul_scale by (try apply F; try apply fits1; lia).
    rewrite (of_Z_at 1 (-1074 + - e0)) by lia. rewrite flt_dy by (try apply F; try apply fits_at; lia).
    rewrite Z.mul_1_l. replace (- (-1074 + - e0)) with (1074 + e0) by lia.
    destruct (Z.ltb_spec z (2 ^ (1074 + e0))) as [Lt|Ge].
    + assert (e0 = -1022 \/ e0 = -1023) as [-> | ->] by lia.
      * right. split; [lia|]. change (of_Z 2) with (of_Z (2 ^ 1)). rewrite of_Z_pow2 by lia.
        rewrite fmul_scale by (try apply fits1; lia). reflexivity.
      * left. split; [lia|]. reflexivity.
    + assert (e0 = -1023) as -> by (assert (e0 = -1022 \/ e0 = -1023) as [-> | ->] by lia; [cbn in Ge|]; lia).
      right. split; [lia|reflexivity].
Qed.

Lemma mantissa_subnormal log z : 0 < z < 2 ^ 52 -> log_estimate log (dy z (-1074)) ->
  double_bits log (dy z (-1074)) = (of_Z 0, of_Z z).
Proof.
  intros Hz L. assert (F : forall j, -1074 <= j <= 971 -> fits z j) by (intros; apply fits_small; lia).
  destruct (estimate_dy log z (-1074) ltac:(lia) (F (-1074) ltac:(lia)) L) as (e0 & E0 & H0).
  assert (G : 0 <= Z.log2 z < 52) by (split; [apply Z.log2_nonneg|apply Z.log2_lt_pow2; lia]).
  pose proof (stages log 52 1023 2047 z (-1074) e0 ltac:(lia) (F (-1074) ltac:(lia)) E0 ltac:(lia) ltac:(lia) ltac:(lia)) as S.
  pose proof (first_subnormal z e0 Hz H0) as D. cbv zeta in S, D.
  change (double_bits log (dy z (-1074))) with (exponent_mantissa log (dy z (-1074)) 52 1023 2047). rewrite S. clear S.
  revert D. generalize (if flt (fmul (dy z (-1074)) (dy 1 (- e0))) (of_Z 1) then e0 - 1 else e0).
  generalize (if flt (fmul (dy z (-1074)) (dy 1 (- e0))) (of_Z 1) then fmul (dy 1 (- e0)) (of_Z 2) else dy 1 (- e0)).
  intros c e D. assert (Hc : c = Infinity \/ exists j, c = dy 1 j /\ fits 1 j).
  { destruct D as [[_ ->]|[_ ->]]; [left; reflexivity|right; eexists; split; [reflexivity|apply fits1; lia]]. }
  rewrite rounded_double; [|lia|apply F; lia|exact Hc].
  unfold finish. set (e2 := if fle (of_Z 2) (fmul (dy z (-1074)) c) then e + 1 else e).
  assert (H2 : e2 <= -1023).
  { unfold e2. destruct D as [[? _]|[-> ->]]; [destruct (fle _ _); lia|].
    rewrite fmul_scale by (try apply F; try apply fits1; lia).
    change (-1074 + 1023) with (-51). rewrite (of_Z_at 2 (-51)) by lia.
    rewrite fle_dy by (try apply F; try apply fits_at; lia). rewrite (proj2 (Z.leb_gt _ _)); [lia|cbn; lia]. }
  cbv zeta. zbool. f_equal. rewrite !pow2_of_Z by lia. rewrite fmul_scale by (try apply F; try apply fits1; lia).
  rewrite fmul_scale by (try apply F; try apply fits1; lia). reflexivity.
Qed.

(** ** Whole Numbers *)

Lemma fabs_signed s z k : 0 <= z -> fits z k -> fabs (signed_num s z k) = signed_num false z k.
Proof.
  intros Hz F. unfold signed_num. destruct (Z.eqb_spec z 0) as [->|N]; [reflexivity|]. destruct s.
  - destruct (dy_cases (- z) k (fits_opp _ _ F)) as [[? _]|(m & e & B & D & _ & ->)]; [lia|].
    destruct (dy_cases z k F) as [[? _]|(m' & e' & B' & D' & _ & E')]; [lia|]. rewrite E'.
    rewrite Z.abs_opp in D. unfold fabs, SFabs. rewrite (proj2 (Z.ltb_ge z 0)) by lia.
    pose proof (round_exact false m e m e B (dyeq_refl _ _)) as R1.
    pose proof (round_exact false m' e' m' e' B' (dyeq_refl _ _)) as R2.
    pose proof (norm_exact false (Z.pos m) e z k F) as N1. pose proof (norm_exact false (Z.pos m') e' z k F) as N2.
    cbn [binary_normalize] in N1, N2. rewrite R1 in N1. rewrite R2 in N2.
    rewrite Z.abs_eq in D, D' by lia. rewrite N1, N2; [reflexivity|apply dyeq_sym, D'|lia|apply dyeq_sym, D|lia].
  - destruct (dy_cases z k F) as [[? _]|(m & e & _ & _ & _ & ->)]; [lia|].
    rewrite (proj2 (Z.ltb_ge z 0)) by lia. reflexivity.
Qed.

Lemma sign_test_signed s z k : 0 <= z -> fits z k -> sign_test (signed_num s z k) = s.
Proof.
  intros Hz F. unfold signed_num, sign_test. destruct (Z.eqb_spec z 0) as [->|N]; [destruct s; reflexivity|].
  assert (F' : fits (if s then - z else z) k) by (destruct s; [apply fits_opp|]; exact F).
  destruct (dy_cases _ k F') as [[? _]|(m & e & _ & _ & _ & ->)]; [destruct s; lia|].
  destruct s; [rewrite (proj2 (Z.ltb_lt (- z) 0)) by lia|rewrite (proj2 (Z.ltb_ge z 0)) by lia]; reflexivity.
Qed.

Lemma word_fields f w : 0 <= w < 2 ^ (8 * Z.of_nat (fbytes f)) -> exists s ex frac,
  w = ieee_word f s ex frac /\ 0 <= frac < 2 ^ fraction_bits f /\ 0 <= ex < 2 ^ exponent_bits f.
Proof.
  intros Hw. set (m := fraction_bits f). set (e := exponent_bits f).
  assert (Hm : 0 < m /\ 0 < e /\ 8 * Z.of_nat (fbytes f) - 1 = m + e) by (unfold m, e; destruct f; cbn; lia).
  destruct Hm as (Hm & He & Hs). replace (8 * Z.of_nat (fbytes f)) with (m + e + 1) in Hw by lia.
  rewrite !Z.pow_add_r in Hw by lia. change (2 ^ 1) with 2 in Hw.
  set (M := 2 ^ m) in *. set (Q := 2 ^ e) in *.
  assert (HM : 0 < M) by (apply Z.pow_pos_nonneg; lia). assert (HQ : 0 < Q) by (apply Z.pow_pos_nonneg; lia).
  pose proof (Z_div_mod_eq_full w M) as E1. pose proof (Z_div_mod_eq_full (w / M) Q) as E2.
  pose proof (Z.mod_pos_bound w M HM) as B1. pose proof (Z.mod_pos_bound (w / M) Q HQ) as B2.
  assert (B3 : 0 <= w / M / Q < 2).
  { rewrite Z.div_div by lia. split; [apply Z.div_pos; lia|apply Z.div_lt_upper_bound; lia]. }
  exists (negb (w / M / Q =? 0)), ((w / M) mod Q), (w mod M). split; [|auto].
  unfold ieee_word. rewrite Hs, Z.pow_add_r by lia. fold m e M Q.
  replace (if negb (w / M / Q =? 0) then 1 else 0) with (w / M / Q)
    by (destruct (Z.eqb_spec (w / M / Q) 0); cbn; lia).
  nia.
Qed.

(** The word [write] stores for a Number given as a word: the same one, but
    every NaN is stored as one of its words. *)
Definition stored_word (f : float_format) (w : Z) : Z :=
  if is_nan (ieee_value (fraction_bits f) (exponent_bits f) w) then ieee_word f false (max_exponent f) 1 else w.

Lemma of_Z_dy z : of_Z z = dy z (- 0).
Proof. reflexivity. Qed.

Lemma double_fields log s ex frac :
  0 <= frac < 2 ^ 52 -> 0 <= ex < 2 ^ 11 ->
  let w := ieee_word Binary64 s ex frac in
  let x := ieee_value 52 11 w in
  log_estimate log (fabs x) -> exists ex' frac',
    double_bits log (fabs x) = (of_Z ex', of_Z frac') /\ 0 <= frac' < 2 ^ 52 /\ 0 <= ex' < 2 ^ 11 /\
    ieee_word Binary64 (sign_test x) ex' frac' = stored_word Binary64 w.
Proof.
  cbv zeta. intros Hf He. unfold stored_word. change (fraction_bits Binary64) with 52. change (exponent_bits Binary64) with 11.
  pose proof (ieee_value_word Binary64 s ex frac Hf He) as V.
  change (fraction_bits Binary64) with 52 in V. change (exponent_bits Binary64) with 11 in V.
  change (max_exponent Binary64) with 2047 in *. change (bias Binary64) with 1023 in V. rewrite V.
  destruct (Z.eqb_spec ex 2047) as [->|N1]; [|destruct (Z.eqb_spec ex 0) as [->|N0]].
  - destruct (Z.eqb_spec frac 0) as [->|Nf]; intros _.
    + exists 2047, 0. split; [reflexivity|]. split; [lia|]. split; [lia|]. destruct s; reflexivity.
    + exists 2047, 1. split; [reflexivity|]. split; [lia|]. split; [lia|]. reflexivity.
  - change (1 - 1023 - 52) with (-1074). rewrite fabs_signed, sign_test_signed by (try apply fits_small; lia).
    unfold signed_num at 1 2. destruct (Z.eqb_spec frac 0) as [->|Nf]; intros L.
    + exists 0, 0. split.
      { unfold double_bits, exponent_mantissa. cbn [is_nan orb]. change (feq (S754_zero false) Infinity) with false.
        cbv iota. unfold log_estimate in L. rewrite L. vm_compute. reflexivity. }
      split; [lia|]. split; [lia|]. reflexivity.
    + exists 0, frac. split; [apply mantissa_subnormal; [lia|exact L]|]. split; [lia|]. split; [lia|].
      unfold signed_num. rewrite (proj2 (Z.eqb_neq frac 0)) by exact Nf.
      destruct (dy_cases (if s then - frac else frac) (-1074) ltac:(apply fits_small; destruct s; lia))
        as [[? _]|(m & e & _ & _ & _ & ->)]; [destruct s; lia|reflexivity].
  - assert (Hk : -1074 <= ex - 1023 - 52 <= 971) by lia.
    assert (Fz : fits (frac + 2 ^ 52) (ex - 1023 - 52)) by (apply fits_small; lia).
    rewrite fabs_signed, sign_test_signed by (assumption || lia).
    unfold signed_num. rewrite (proj2 (Z.eqb_neq (frac + 2 ^ 52) 0)) by lia. intros L.
    exists ex, frac. split.
    { rewrite mantissa_normal by (assumption || lia). do 2 f_equal; lia. }
    split; [lia|]. split; [lia|].
    destruct (dy_cases (if s then - (frac + 2 ^ 52) else frac + 2 ^ 52) (ex - 1023 - 52)
                ltac:(destruct s; [apply fits_opp|]; exact Fz)) as [[? _]|(m & e & _ & _ & _ & ->)];
      [destruct s; lia|reflexivity].
Qed.

Lemma stored_word_range f w : 0 <= w < 2 ^ (8 * Z.of_nat (fbytes f)) -> 0 <= stored_word f w < 2 ^ (8 * Z.of_nat (fbytes f)).
Proof. intros H. unfold stored_word. destruct (is_nan _); [destruct f; vm_compute; split; congruence|exact H]. Qed.

Lemma stored_word_value f w : 0 <= w < 2 ^ (8 * Z.of_nat (fbytes f)) ->
  ieee_value (fraction_bits f) (exponent_bits f) (stored_word f w) = ieee_value (fraction_bits f) (exponent_bits f) w.
Proof.
  intros H. unfold stored_word. destruct (ieee_value (fraction_bits f) (exponent_bits f) w) eqn:E; cbn [is_nan]; try exact E.
  destruct f; vm_compute; reflexivity.
Qed.

(** A write that stores a word, seen through the methods: the offset after it, the
    bytes of the Buffer, and what a read at the same offset answers. *)
Lemma write_then_read log f big h this x offset noAssert o w :
  heap_ok h -> view_ok h this -> offset_is offset o -> o + Z.of_nat (fbytes f) <= vlen this ->
  0 <= w < 2 ^ (8 * Z.of_nat (fbytes f)) ->
  let h' := store h this o (encode big (fbytes f) w) in
  write log this x o (negb big) (fraction_bits f) (Z.of_nat (fbytes f)) h = (h', Ok tt) ->
  write_float log f big this (Num x) offset noAssert h = (h', Ok (o + Z.of_nat (fbytes f))) /\
  bytes h' this = splice o (encode big (fbytes f) w) (bytes h this) /\
  read_float f big this offset noAssert h' = (h', Ok (ieee_value (fraction_bits f) (exponent_bits f) w)).
Proof.
  intros Hh Hv Hoff Hn Hw. cbv zeta. set (l := encode big (fbytes f) w). set (h' := store h this o l). intros W.
  pose proof (offset_is_bounds _ _ Hoff) as Ho. assert (Ll : length l = fbytes f) by apply length_encode.
  split; [|split].
  - destruct f, big; cbn [write_float fbytes negb] in *;
      unfold writeFloatLE, writeFloatBE, writeDoubleLE, writeDoubleBE, writeFloat, writeDouble;
      (erewrite bind_ok by reflexivity); (erewrite bind_ok by apply Hoff);
      (erewrite bind_ok by (destruct (truthy noAssert); [|unfold checkIEEE754; zbool]; reflexivity));
      (erewrite bind_ok by exact W); reflexivity.
  - apply bytes_store; [exact Hv|lia|rewrite Ll; lia].
  - assert (Hh' : heap_ok h') by (apply heap_ok_store; [exact Hh|exact Hv|apply encode_bytes]).
    pose proof (float_read_run f big h' this o Hh' (view_ok_store _ _ _ _ _ Hv) ltac:(lia) Hn) as R.
    assert (D : word h' this o big (fbytes f) = w).
    { unfold word, h'. rewrite <- Ll at 1. rewrite seg_store by (assumption || lia).
      unfold l, encode. rewrite ordered_involutive, le_val_split.
      apply Z.mod_small. rewrite pow256. exact Hw. }
    rewrite D in R. rewrite <- R.
    destruct f, big; cbn [read_float fbytes] in *; unfold readFloatLE, readFloatBE, readDoubleLE, readDoubleBE;
      (erewrite bind_ok by apply Hoff); (erewrite bind_ok by (apply assert_offset_ok; lia)); reflexivity.
Qed.

(** A Number written in double precision is stored as its word. *)
Lemma double_write_run log big h this w o : heap_ok h -> view_ok h this -> 0 <= o -> o + 8 <= vlen this -> 0 <= w < 2 ^ 64 ->
  log_estimate log (fabs (ieee_value 52 11 w)) ->
  write log this (ieee_value 52 11 w) o (negb big) 52 8 h = (store h this o (encode big 8 (stored_word Binary64 w)), Ok tt).
Proof.
  intros Hh Hv Ho Hn Hw L. destruct (word_fields Binary64 w Hw) as (s & ex & frac & -> & Hf & He).
  destruct (double_fields log s ex frac Hf He L) as (ex' & frac' & E & Hf' & He' & S).
  pose proof (write_word Binary64 big h this o Hh Hv Ho Hn log _ frac' 0 ex' E ltac:(lia)) as R.
  rewrite Z.div_1_r in R. rewrite S in R. apply R; [lia|exact (proj2 Hf')|exact He'].
Qed.

(** ** Properties *)

(** C38: a checked floating point read answers the IEEE 754 value of the bytes at
    the offset, in both formats and byte orders, signed zeros, subnormals,
    infinities and NaN included; when the bytes do not all lie in the Buffer
    reads and writes throw RangeError and change nothing. *)
Theorem float_read_spec log f big h this x offset noAssert o :
  heap_ok h -> view_ok h this -> offset_is offset o -> truthy noAssert = false ->
  if vlen this <? o + Z.of_nat (fbytes f) then
    read_float f big this offset noAssert h =
      (h, Throw (ERangeError [Txt "Trying to access beyond buffer length"])) /\
    write_float log f big this (Num x) offset noAssert h = (h, Throw (ERangeError [Txt "Index out of range"]))
  else
    read_float f big this offset noAssert h =
      (h, Ok (ieee_value (fraction_bits f) (exponent_bits f) (word h this o big (fbytes f)))).
Proof.
  intros Hh Hv Hoff Hn. pose proof (offset_is_bounds _ _ Hoff) as Ho.
  destruct (Z.ltb_spec (vlen this) (o + Z.of_nat (fbytes f))) as [L|L].
  - split.
    + destruct f, big; cbn [read_float fbytes] in *;
        unfold readFloatLE, readFloatBE, readDoubleLE, readDoubleBE; erewrite bind_ok by apply Hoff;
        apply bind_throw; unfold assert_offset; rewrite Hn; apply checkOffset_beyond; lia.
    + destruct f, big; cbn [write_float fbytes] in *;
        unfold writeFloatLE, writeFloatBE, writeDoubleLE, writeDoubleBE, writeFloat, writeDouble;
        (erewrite bind_ok by reflexivity); (erewrite bind_ok by apply Hoff); apply bind_throw; rewrite Hn;
        unfold checkIEEE754; zbool; reflexivity.
  - rewrite <- (float_read_run f big h this o Hh Hv ltac:(lia) L).
    destruct f, big; cbn [read_float fbytes] in *;
      unfold readFloatLE, readFloatBE, readDoubleLE, readDoubleBE; (erewrite bind_ok by apply Hoff);
      (erewrite bind_ok by (apply assert_offset_ok; lia)); reflexivity.
Qed.

(** ** Witnesses *)

Lemma float_read_spec_witness :
  readFloatBE sample_view (Num (of_Z 4)) Undefined sample_heap = (sample_heap, Ok (ieee_value 23 8 84281288)).
Proof.
  exact (float_read_spec sample_log Binary32 true sample_heap sample_view NaN (Num (of_Z 4)) Undefined 4
           sample_heap_ok sample_view_ok (offset_is_num 4 ltac:(lia)) eq_refl).
Defined.
