(* ===== verification/Ieee754Single.v ===== *)
(** Writing single precision: [writeFloatLE] and [writeFloatBE] store the binary32
    word nearest to the Number, halves away from zero, whatever the size of the
    Number. *)

From Stdlib Require Import SpecFloat String.
From stdpp Require Import base numbers list gmap.
From S2P Require Import Prelude JsNumber JsValue BufferCore BufferInt BufferIntFacts Rounding Ieee754 Ieee754Facts.

Local Open Scope Z_scope.
Local Open Scope js_scope.

(** ** Specification *)

(** [z * 2^d] rounded to the nearest integer, halves up. *)
Definition nearest (z d : Z) : Z := if 0 <=? d then z * 2 ^ d else (z + 2 ^ (- d - 1)) / 2 ^ (- d).

(** The word of the single-precision value nearest to [z * 2^k], [0 < z]: the
    exponent [e] is the binary exponent, at least that of the subnormals; the unit
    in the last place is [2^(e - 23)]; a fraction that rounds up to the next power
    of two carries into the exponent field; past the range is infinity. *)
Definition single_magnitude (z k : Z) : Z :=
  let e := Z.max (k + Z.log2 z) (-126) in
  Z.min (2 ^ 31 - 2 ^ 23) ((e + 126) * 2 ^ 23 + nearest z (k - e + 23)).

(** The value of a word without sign in units of [2^-149]; the word of infinity
    counts as the power of two after the largest value. *)
Definition units (g : Z) : Z :=
  let ex := g / 2 ^ 23 in
  let frac := g mod 2 ^ 23 in
  if ex =? 0 then frac else (frac + 2 ^ 23) * 2 ^ (ex - 1).

(** The distance of [m * 2^e] from the value of a word, in a unit both are multiples of. *)
Definition distance (m e g : Z) : Z :=
  let b := Z.min e (-149) in Z.abs (m * 2 ^ (e - b) - units g * 2 ^ (-149 - b)).

(** [g] is the nearest word, the larger one of two at the same distance. *)
Definition nearest_magnitude (m e g : Z) : Prop :=
  0 <= g <= 2 ^ 31 - 2 ^ 23 /\
  forall g', 0 <= g' <= 2 ^ 31 - 2 ^ 23 -> distance m e g <= distance m e g' /\ (distance m e g = distance m e g' -> g' <= g).

Definition sign_bit (s : bool) : Z := if s then 2 ^ 31 else 0.

(** The word of single precision for a Number: its sign and the nearest magnitude;
    every NaN has the same word. *)
Definition nearest_word (x : num) (w : Z) : Prop :=
  match x with
  | S754_zero s => w = sign_bit s
  | S754_infinity s => w = 2 ^ 31 - 2 ^ 23 + sign_bit s
  | S754_nan => w = 2 ^ 31 - 2 ^ 23 + 1
  | S754_finite s m e => exists g, w = g + sign_bit s /\ nearest_magnitude (Z.pos m) e g
  end.

(** What the code relies on [Math.log] for: its quotient by [LN2] has the binary
    exponent of the value as its floor, or one more, or one less when the value is
    just above a power of two. *)
Definition log_close (log : num -> num) (v : num) : Prop :=
  match v with
  | S754_finite _ m e =>
      let l := Z.log2 (Z.pos m) in
      exists e0, Math_floor (fdiv (log v) LN2) = of_Z e0 /\
        (e + l <= e0 <= e + l + 1 \/ e0 = e + l - 1 /\ 2 ^ 26 * (Z.pos m - 2 ^ l) < 2 ^ l)
  | S754_zero _ => log v = S754_infinity true
  | _ => True
  end.

Lemma close_dy log z k : 0 < z -> fits z k -> log_close log (dy z k) ->
  let l := Z.log2 z in
  exists e0, Math_floor (fdiv (log (dy z k)) LN2) = of_Z e0 /\
    (k + l <= e0 <= k + l + 1 \/ e0 = k + l - 1 /\ 2 ^ 26 * (z - 2 ^ l) < 2 ^ l).
Proof.
  intros Hz F H. destruct (dy_cases z k F) as [[? _]|(m & e & _ & D & _ & E)]; [lia|].
  rewrite E in *. destruct H as (e0 & H1 & H2). exists e0. split; [exact H1|].
  rewrite Z.abs_eq in D by lia. rewrite (log2_dyeq z k m e Hz D).
  destruct H2 as [H2|[H2 H3]]; [left; exact H2|right; split; [exact H2|]].
  destruct D as (b & Hb1 & Hb2 & D).
  pose proof (Z.log2_mul_pow2 z (k - b) ltac:(lia) ltac:(lia)) as L1.
  pose proof (Z.log2_mul_pow2 (Z.pos m) (e - b) ltac:(lia) ltac:(lia)) as L2.
  pose proof (Z.pow_pos_nonneg 2 (k - b) ltac:(lia) ltac:(lia)) as P1.
  pose proof (Z.pow_pos_nonneg 2 (e - b) ltac:(lia) ltac:(lia)) as P2.
  assert (Q : 2 ^ Z.log2 z * 2 ^ (k - b) = 2 ^ Z.log2 (Z.pos m) * 2 ^ (e - b)).
  { pose proof (Z.log2_nonneg z). pose proof (Z.log2_nonneg (Z.pos m)). rewrite <- !Z.pow_add_r by lia. f_equal. rewrite D in L1. lia. }
  nia.
Qed.

(** ** The stages of [exponent_mantissa] *)

Definition single_bits (log : num -> num) (v : num) : num * num := exponent_mantissa log v 23 127 255.

(** Just below half a unit in the last place. *)
Definition half : num := dy (2 ^ 53 - 1) (-77).

Lemma rounding_half : rounding_term 23 = half.
Proof. reflexivity. Qed.

Lemma rounded_single x e c :
  rounded 23 127 x e c = fadd x (if 1 <=? e + 127 then fdiv half c else dy (2 ^ 53 - 1) (-203)).
Proof. reflexivity. Qed.

(** ** The rounded sums *)

Lemma dyeq_up z j n : 0 <= n -> dyeq z (j + n) (z * 2 ^ n) j.
Proof. intros Hn. apply dyeq_sym, dyeq_shift, Hn. Qed.

Lemma dy_carry j : -1075 <= j <= 970 -> dy (2 ^ 53) j = dy (2 ^ 52) (j + 1).
Proof. intros Hj. symmetry. apply dy_dyeq; [apply fits_small; lia|]. apply (dyeq_up (2 ^ 52) j 1). lia. Qed.

(** A mantissa that rounds up to [2^53] is one of the next binade. *)
Lemma carry q j : 2 ^ 52 <= q <= 2 ^ 53 -> -1074 <= j <= 970 ->
  exists y i, 0 <= i <= 1 /\ 2 ^ 52 <= y < 2 ^ 53 /\ q = y * 2 ^ i /\ dy q j = dy y (j + i).
Proof.
  intros Hq Hj. destruct (Z.eq_dec q (2 ^ 53)) as [->|N].
  - exists (2 ^ 52), 1. split; [lia|]. split; [lia|]. split; [reflexivity|].
    apply dy_carry. lia.
  - exists q, 0. split; [lia|]. split; [lia|]. split; [lia|]. f_equal. lia.
Qed.

Lemma quotient_log m : 2 ^ 53 <= m -> 0 < Z.log2 m - 52 /\ 2 ^ 52 <= m / 2 ^ (Z.log2 m - 52) < 2 ^ 53.
Proof.
  intros Hm. pose proof (Z.log2_spec m ltac:(lia)) as [L1 L2]. pose proof (Z.log2_le_mono _ _ Hm) as L.
  rewrite Z.log2_pow2 in L by lia. split; [lia|].
  replace (Z.log2 m) with (52 + (Z.log2 m - 52)) in L1 by lia.
  replace (Z.succ (Z.log2 m)) with (53 + (Z.log2 m - 52)) in L2 by lia. rewrite Z.pow_add_r in L1, L2 by lia.
  pose proof (Z.pow_pos_nonneg 2 (Z.log2 m - 52) ltac:(lia) ltac:(lia)) as P.
  split; [apply Z.div_le_lower_bound; lia|apply Z.div_lt_upper_bound; lia].
Qed.

(** Adding half a unit of the fraction: a value of 53 bits with its last place at [k]. *)
Lemma sum_normal z k : 2 ^ 52 <= z < 2 ^ 53 -> -1000 <= k <= 900 -> exists y i,
  fadd (dy z k) (dy (2 ^ 53 - 1) (k - 25)) = dy y (k + i) /\ 2 ^ 52 <= y < 2 ^ 53 /\
  i = (if 2 ^ 53 <=? z + 2 ^ 28 then 1 else 0) /\ y / 2 ^ 29 * 2 ^ i = (z + 2 ^ 28) / 2 ^ 29.
Proof.
  intros Hz Hk. set (m := z * 2 ^ 25 + (2 ^ 53 - 1)).
  rewrite (dy_dyeq z k (z * 2 ^ 25) (k - 25)).
  2: { apply fits_small; lia. }
  2: { replace k with (k - 25 + 25) at 1 by lia. apply dyeq_up. lia. }
  assert (F : fits (z * 2 ^ 25) (k - 25)).
  { apply (fits_dyeq z k); [|apply fits_small; lia]. replace k with (k - 25 + 25) at 1 by lia. apply dyeq_up. lia. }
  assert (F' : fits (2 ^ 53 - 1) (k - 25)) by (apply fits_small; lia).
  destruct (Z.leb_spec (2 ^ 53) (z + 2 ^ 28)) as [L|L].
  - destruct (Z.eq_dec (z + 2 ^ 28) (2 ^ 53)) as [E|N].
    + assert (z = 2 ^ 53 - 2 ^ 28) as -> by lia. exists (2 ^ 52), 1.
      rewrite (fadd_round _ _ _ 25) by (assumption || lia || (vm_compute; split; congruence)).
      split; [|split; [lia|split; reflexivity]].
      replace (k - 25 + 25) with k by lia.
      change (nearest_even ((2 ^ 53 - 2 ^ 28) * 2 ^ 25 + (2 ^ 53 - 1)) 25) with (2 ^ 53). apply dy_carry. lia.
    + assert (Q : 2 ^ 52 <= (z * 2 ^ 25 + (2 ^ 53 - 1)) / 2 ^ 26 < 2 ^ 52 + 2 ^ 27).
      { split; [apply Z.div_le_lower_bound; lia|apply Z.div_lt_upper_bound; lia]. }
      rewrite (fadd_round _ _ _ 26) by (assumption || lia).
      pose proof (nearest_even_range (z * 2 ^ 25 + (2 ^ 53 - 1)) 26) as R.
      exists (nearest_even (z * 2 ^ 25 + (2 ^ 53 - 1)) 26), 1. split; [f_equal; lia|]. split; [lia|]. split; [reflexivity|].
      rewrite <- (Z.div_unique (nearest_even (z * 2 ^ 25 + (2 ^ 53 - 1)) 26) (2 ^ 29) (2 ^ 23) (nearest_even (z * 2 ^ 25 + (2 ^ 53 - 1)) 26 - 2 ^ 52)) by lia.
      apply (Z.div_unique (z + 2 ^ 28) (2 ^ 29) _ (z + 2 ^ 28 - 2 ^ 53)); lia.
  - assert (M : z * 2 ^ 25 + (2 ^ 53 - 1) = (z + 2 ^ 28 - 1) * 2 ^ 25 + (2 ^ 25 - 1)) by lia.
    assert (Q : (z * 2 ^ 25 + (2 ^ 53 - 1)) / 2 ^ 25 = z + 2 ^ 28 - 1)
      by (symmetry; apply (Z.div_unique _ _ _ (2 ^ 25 - 1)); lia).
    rewrite (fadd_round _ _ _ 25) by (assumption || lia).
    assert (R : nearest_even (z * 2 ^ 25 + (2 ^ 53 - 1)) 25 = z + 2 ^ 28).
    { unfold nearest_even. rewrite Q. rewrite (Z.mod_eq _ (2 ^ 25)), Q by lia. rewrite (proj2 (Z.ltb_lt _ _)) by lia. cbn [orb]. lia. }
    rewrite R. exists (z + 2 ^ 28), 0. split; [f_equal; lia|]. split; [lia|]. split; [reflexivity|].
    change (2 ^ 0) with 1. lia.
Qed.

(** Just above a power of two, with half of the unit below it. *)
Lemma sum_above z k : 2 ^ 52 <= z < 2 ^ 52 + 2 ^ 26 -> -1000 <= k <= 900 ->
  fadd (dy z k) (dy (2 ^ 53 - 1) (k - 26)) = dy (z + 2 ^ 27) k.
Proof.
  intros Hz Hk.
  assert (D : dyeq z k (z * 2 ^ 26) (k - 26)) by (replace k with (k - 26 + 26) at 1 by lia; apply dyeq_up; lia).
  rewrite (dy_dyeq z k (z * 2 ^ 26) (k - 26)) by (exact D || apply fits_small; lia).
  assert (Q : (z * 2 ^ 26 + (2 ^ 53 - 1)) / 2 ^ 26 = z + 2 ^ 27 - 1)
    by (symmetry; apply (Z.div_unique _ _ _ (2 ^ 26 - 1)); lia).
  rewrite (fadd_round _ _ _ 26); [|apply (fits_dyeq z k); [exact D|]; apply fits_small; lia|apply fits_small; lia|lia..].
  f_equal; [|lia]. unfold nearest_even. rewrite Q. rewrite (Z.mod_eq _ (2 ^ 26)), Q by lia.
  rewrite (proj2 (Z.ltb_lt _ _)) by lia. cbn [orb]. lia.
Qed.

(** Rounding [a - 1] and cutting at [2^54] is cutting [a], for a multiple [a] of [2^s]. *)
Lemma nearest_even_below c s n : 0 <= s <= 53 -> 1 <= n <= s + 1 -> 0 < c ->
  nearest_even (c * 2 ^ s - 1) n / 2 ^ (54 - n) = c * 2 ^ s / 2 ^ 54.
Proof.
  intros Hs Hn Hc. set (a := c * 2 ^ s). set (q := nearest_even (a - 1) n).
  pose proof (nearest_even_error (a - 1) n ltac:(lia)) as Er. fold q in Er.
  pose proof (nearest_even_range (a - 1) n) as Rg. fold q in Rg.
  pose proof (Z.pow_pos_nonneg 2 n ltac:(lia) ltac:(lia)) as Pn.
  pose proof (Z.pow_pos_nonneg 2 (54 - n) ltac:(lia) ltac:(lia)) as Pd.
  assert (T : 2 ^ 54 = 2 ^ (54 - n) * 2 ^ n) by (rewrite <- Z.pow_add_r by lia; f_equal; lia).
  assert (Hns : 2 ^ n <= 2 * 2 ^ s) by (rewrite <- Z.pow_succ_r by lia; apply Z.pow_le_mono_r; lia).
  assert (Ts : 2 ^ 54 = 2 ^ (54 - s) * 2 ^ s) by (rewrite <- Z.pow_add_r by lia; f_equal; lia).
  pose proof (Z.pow_pos_nonneg 2 s ltac:(lia) ltac:(lia)) as Ps.
  pose proof (Z_div_mod_eq_full a (2 ^ 54)) as A. pose proof (Z.mod_pos_bound a (2 ^ 54) ltac:(lia)) as B.
  set (N := a / 2 ^ 54) in *. set (rho := a mod 2 ^ 54) in *.
  (* the rest is a multiple of 2^s, so at most 2^54 - 2^s *)
  assert (U : rho <= 2 ^ 54 - 2 ^ s).
  { assert (G : rho = (c - 2 ^ (54 - s) * N) * 2 ^ s) by (unfold a in A; rewrite Ts in A; lia).
    assert (L : c - 2 ^ (54 - s) * N < 2 ^ (54 - s)) by (apply (Z.mul_lt_mono_pos_r (2 ^ s)); [lia|rewrite <- G, <- Ts; lia]).
    rewrite G, Ts. nia. }
  assert (NT : N * 2 ^ 54 = N * 2 ^ (54 - n) * 2 ^ n) by (rewrite T; ring).
  assert (Lo : N * 2 ^ (54 - n) <= q).
  { destruct (Z.eq_dec rho 0) as [Z0|NZ].
    - assert (E : a - 1 = (N * 2 ^ (54 - n) - 1) * 2 ^ n + (2 ^ n - 1)) by lia.
      assert (Q : (a - 1) / 2 ^ n = N * 2 ^ (54 - n) - 1) by (symmetry; apply (Z.div_unique _ _ _ (2 ^ n - 1)); lia).
      assert (R : (a - 1) mod 2 ^ n = 2 ^ n - 1) by (symmetry; apply (Z.mod_unique _ _ (N * 2 ^ (54 - n) - 1)); lia).
      unfold q, nearest_even. rewrite Q, R. destruct (Z.eq_dec n 1) as [->|Nn].
      + change (54 - 1) with 53 in *. change (2 ^ 1 - 1) with 1. change (2 ^ (1 - 1)) with 1. cbn [Z.ltb Z.compare Pos.compare Pos.compare_cont Z.eqb Pos.eqb orb andb].
        replace (Z.odd (N * 2 ^ 53 - 1)) with true; [lia|].
        rewrite Z.odd_sub, Z.odd_mul. change (Z.odd (2 ^ 53)) with false. rewrite andb_false_r. reflexivity.
      + pose proof (Z.pow_pos_nonneg 2 (n - 2) ltac:(lia) ltac:(lia)).
        assert (2 ^ n = 4 * 2 ^ (n - 2) /\ 2 ^ (n - 1) = 2 * 2 ^ (n - 2)) as [-> ->]
          by (split; [change 4 with (2 ^ 2)|change 2 with (2 ^ 1) at 2]; rewrite <- Z.pow_add_r by lia; f_equal; lia).
        rewrite (proj2 (Z.ltb_lt _ _)) by lia. cbn [orb]. lia.
    - assert (N * 2 ^ (54 - n) <= (a - 1) / 2 ^ n) by (apply Z.div_le_lower_bound; lia). lia. }
  symmetry. apply (Z.div_unique _ _ _ (q - N * 2 ^ (54 - n))); [left; split; [lia|]|lia].
  enough (q * 2 ^ n < (N + 1) * 2 ^ 54) by nia. lia.
Qed.

(** Adding half a unit of the subnormals to a value near them. *)
Lemma sum_subnormal z s : 2 ^ 52 <= z < 2 ^ 53 -> 0 <= s <= 24 -> exists y n,
  fadd (dy z (s - 203)) (dy (2 ^ 53 - 1) (-203)) = dy y (n - 203) /\ 2 ^ 52 <= y < 2 ^ 53 /\ 1 <= n <= 26 /\
  y / 2 ^ (54 - n) = (z * 2 ^ s + 2 ^ 53) / 2 ^ 54.
Proof.
  intros Hz Hs. pose proof (Z.pow_pos_nonneg 2 s ltac:(lia) ltac:(lia)) as Ps.
  assert (D : dyeq z (s - 203) (z * 2 ^ s) (-203)) by (replace (s - 203) with (-203 + s) by lia; apply dyeq_up; lia).
  rewrite (dy_dyeq z (s - 203) (z * 2 ^ s) (-203)) by (exact D || apply fits_small; lia).
  set (m := z * 2 ^ s + (2 ^ 53 - 1)).
  assert (M : 2 ^ 53 <= m < 2 ^ (54 + s)) by (rewrite Z.pow_add_r by lia; unfold m; nia).
  destruct (quotient_log m ltac:(lia)) as [Hn0 Hq]. set (n := Z.log2 m - 52) in *.
  assert (Hn : 1 <= n <= s + 1) by (assert (Z.log2 m < 54 + s) by (apply Z.log2_lt_pow2; lia); lia).
  rewrite (fadd_round _ _ _ n);
    [|apply (fits_dyeq z (s - 203)); [exact D|]; apply fits_small; lia|apply fits_small; lia|nia|lia|lia|exact Hq|lia].
  fold m. pose proof (nearest_even_range m n) as R.
  destruct (carry (nearest_even m n) (-203 + n) ltac:(lia) ltac:(lia)) as (y & i & Hi & Hy & E & ->).
  exists y, (n + i). split; [f_equal; lia|]. split; [exact Hy|]. split; [lia|].
  replace (z * 2 ^ s + 2 ^ 53) with ((z + 2 ^ (53 - s)) * 2 ^ s)
    by (rewrite Z.mul_add_distr_r, <- Z.pow_add_r by lia; do 2 f_equal; lia).
  pose proof (Z.pow_pos_nonneg 2 (53 - s) ltac:(lia) ltac:(lia)).
  rewrite <- (nearest_even_below (z + 2 ^ (53 - s)) s n) by lia.
  replace ((z + 2 ^ (53 - s)) * 2 ^ s - 1) with m.
  2: { unfold m. rewrite Z.mul_add_distr_r, <- Z.pow_add_r by lia. replace (53 - s + s) with 53 by lia. lia. }
  rewrite E. replace (54 - n) with (54 - (n + i) + i) by lia. rewrite (Z.pow_add_r 2 _ i) by lia.
  rewrite Z.div_mul_cancel_r by (apply Z.pow_nonzero; lia). reflexivity.
Qed.

(** ... and to a value far below them, which leaves less than one unit. *)
Lemma sum_tiny z k : 0 < z < 2 ^ 53 -> -1074 <= k <= 971 -> k + Z.log2 z <= -152 -> exists y j,
  fadd (dy z k) (dy (2 ^ 53 - 1) (-203)) = dy y j /\ 0 < y < 2 ^ 53 /\ -203 <= j <= -202.
Proof.
  intros Hz Hk Hl. pose proof (Z.log2_spec z ltac:(lia)) as [L1 L2]. pose proof (Z.log2_nonneg z) as L0.
  set (b := Z.min k (-203)). set (a := z * 2 ^ (k - b)). set (c := (2 ^ 53 - 1) * 2 ^ (-203 - b)).
  assert (Da : dyeq z k a b) by (unfold a; replace k with (b + (k - b)) at 1 by lia; apply dyeq_up; lia).
  assert (Dc : dyeq (2 ^ 53 - 1) (-203) c b) by (unfold c; replace (-203) with (b + (-203 - b)) at 1 by lia; apply dyeq_up; lia).
  pose proof (Z.pow_pos_nonneg 2 (k - b) ltac:(lia) ltac:(lia)) as P1.
  pose proof (Z.pow_pos_nonneg 2 (-203 - b) ltac:(lia) ltac:(lia)) as P2.
  assert (Ha : 0 < a < 2 ^ 52 * 2 ^ (-203 - b)).
  { rewrite <- Z.pow_add_r by lia. split; [unfold a; nia|]. unfold a.
    assert (2 ^ Z.succ (Z.log2 z) * 2 ^ (k - b) <= 2 ^ (52 + (-203 - b))); [|nia].
    rewrite <- Z.pow_add_r by lia. apply Z.pow_le_mono_r; lia. }
  assert (Hb : a + c < 3 * 2 ^ 52 * 2 ^ (-203 - b) /\ 2 ^ 52 * 2 ^ (-203 - b) <= a + c) by (unfold c; lia).
  assert (H53 : 2 ^ 53 <= a + c) by (unfold c; destruct (Z.eq_dec b (-203)) as [->|Nb];
    [change (2 ^ (-203 - -203)) with 1; lia|]; assert (2 ^ 1 <= 2 ^ (-203 - b)) by (apply Z.pow_le_mono_r; lia); lia).
  destruct (quotient_log (a + c) H53) as [Hn0 Hq]. set (n := Z.log2 (a + c) - 52) in *.
  assert (Hn : b + n = -203 \/ b + n = -202).
  { assert (Z.log2 (a + c) < 54 + (-203 - b)) by (apply Z.log2_lt_pow2; [lia|]; rewrite Z.pow_add_r by lia; lia).
    assert (52 + (-203 - b) <= Z.log2 (a + c)) by (apply Z.log2_le_pow2; [lia|]; rewrite Z.pow_add_r by lia; lia). lia. }
  rewrite (dy_dyeq z k a b) by (exact Da || apply fits_small; lia).
  rewrite (dy_dyeq (2 ^ 53 - 1) (-203) c b) by (exact Dc || apply fits_small; lia).
  rewrite (fadd_round a c b n); [|apply (fits_dyeq z k), fits_small; [exact Da|lia..]
    |apply (fits_dyeq (2 ^ 53 - 1) (-203)), fits_small; [exact Dc|lia..]|lia|unfold c; lia|lia|exact Hq|lia].
  pose proof (nearest_even_range (a + c) n) as R. destruct Hn as [Hn|Hn].
  - destruct (carry (nearest_even (a + c) n) (b + n) ltac:(lia) ltac:(lia)) as (y & i & Hi & Hy & _ & ->).
    exists y, (b + n + i). split; [reflexivity|]. lia.
  - exists (nearest_even (a + c) n), (b + n). split; [reflexivity|].
    assert ((a + c) / 2 ^ n < 3 * 2 ^ 51); [|lia]. apply Z.div_lt_upper_bound; [apply Z.pow_pos_nonneg; lia|].
    replace n with (1 + (-203 - b)) by lia. rewrite Z.pow_add_r by lia. lia.
Qed.

(** ** The exponent field and the fraction *)

Lemma finish_over x e c : 128 <= e -> finish 23 127 255 x e c = (of_Z 255, of_Z 0).
Proof. intros He. unfold finish. destruct (fle _ _); zbool; reflexivity. Qed.

Lemma finish_low x e c : e <= -128 -> finish 23 127 255 x e c = (of_Z 0, fmul (fmul x (dy 1 126)) (dy 1 23)).
Proof. intros He. unfold finish. destruct (fle _ _); zbool; reflexivity. Qed.

Lemma scale_subnormal y j : 0 < y < 2 ^ 53 -> -500 <= j <= 500 -> fmul (fmul (dy y j) (dy 1 126)) (dy 1 23) = dy y (j + 149).
Proof.
  intros Hy Hj. rewrite !fmul_scale by (try apply fits1; try apply fits_small; lia). f_equal. lia.
Qed.

Lemma finish_single y e e' : 2 ^ 52 <= y < 2 ^ 53 -> -127 <= e <= 128 -> e' = e \/ e' = e + 1 ->
  finish 23 127 255 (dy y (e' - 52)) e (dy 1 (- e)) =
    if 128 <=? e' then (of_Z 255, of_Z 0)
    else if -126 <=? e' then (of_Z (e' + 127), dy (y - 2 ^ 52) (-29))
    else (of_Z 0, dy y (e' + 97)).
Proof.
  intros Hy He H. rewrite finish_dy by lia.
  replace (255 <=? e' + 127) with (128 <=? e') by (destruct (Z.leb_spec 128 e'), (Z.leb_spec 255 (e' + 127)); lia).
  replace (1 <=? e' + 127) with (-126 <=? e') by (destruct (Z.leb_spec (-126) e'), (Z.leb_spec 1 (e' + 127)); lia).
  destruct (128 <=? e'); [reflexivity|]. destruct (-126 <=? e'); [reflexivity|].
  change (pow2 (of_Z (127 - 1))) with (dy 1 126). change (pow2 (of_Z 23)) with (dy 1 23).
  rewrite scale_subnormal by lia. do 2 f_equal. lia.
Qed.

(** The two numbers [exponent_mantissa] gives make up a word without sign. *)
Definition fields_of (b : num * num) (w : Z) : Prop :=
  exists y q ex, b = (of_Z ex, dy y (- q)) /\ 0 <= y < 2 ^ 53 /\ 0 <= q <= 60 /\ y / 2 ^ q < 2 ^ 23 /\
    0 <= ex < 256 /\ ex * 2 ^ 23 + y / 2 ^ q = w.

Lemma fields_infinity w : w = 2 ^ 31 - 2 ^ 23 -> fields_of (of_Z 255, of_Z 0) w.
Proof. intros ->. exists 0, 0, 255. split; [reflexivity|]. change (0 / 2 ^ 0) with 0. lia. Qed.

Lemma fields_fraction y q w : 0 <= y < 2 ^ 53 -> 0 <= q <= 60 -> y / 2 ^ q = w -> w < 2 ^ 23 -> fields_of (of_Z 0, dy y (- q)) w.
Proof. intros Hy Hq <- Hw. exists y, q, 0. split; [reflexivity|]. lia. Qed.

Lemma fields_normal y e w : 2 ^ 52 <= y < 2 ^ 53 -> -126 <= e <= 127 -> (e + 126) * 2 ^ 23 + y / 2 ^ 29 = w ->
  fields_of (of_Z (e + 127), dy (y - 2 ^ 52) (-29)) w.
Proof.
  intros Hy He <-. exists (y - 2 ^ 52), 29, (e + 127). split; [reflexivity|]. split; [lia|]. split; [lia|].
  replace (y - 2 ^ 52) with (y + - 2 ^ 23 * 2 ^ 29) by lia. rewrite Z.div_add by lia.
  split; [|lia]. assert (y / 2 ^ 29 < 2 ^ 24) by (apply Z.div_lt_upper_bound; lia). lia.
Qed.

(** ** The exponent before rounding *)

(** After the first correction the exponent is the binary exponent, or one less
    just above a power of two. *)
Lemma first_close log z k : 2 ^ 52 <= z < 2 ^ 53 -> -203 <= k <= 971 -> log_close log (dy z k) ->
  exists e, single_bits log (dy z k) = finish 23 127 255 (rounded 23 127 (dy z k) e (dy 1 (- e))) e (dy 1 (- e)) /\
    (e = k + 52 \/ e = k + 51 /\ z < 2 ^ 52 + 2 ^ 26).
Proof.
  intros Hz Hk H. destruct (close_dy log z k ltac:(lia) (fits_small z k ltac:(lia) ltac:(lia)) H) as (e0 & E0 & B).
  assert (L : Z.log2 z = 52) by (apply Z.log2_unique; lia). rewrite L in B.
  destruct (first_exponent log 23 127 255 z k e0 Hz ltac:(lia) E0 ltac:(lia) ltac:(lia) ltac:(lia)) as (e & E & He).
  exists e. split; [exact E|]. lia.
Qed.

Lemma half_over e : -127 <= e <= 1022 -> fdiv half (dy 1 (- e)) = dy (2 ^ 53 - 1) (e - 77).
Proof. intros He. unfold half. rewrite fdiv_pow2 by (try apply fits_small; lia). f_equal. lia. Qed.

(** The three ranges: past the largest single, the normal ones, the subnormal ones. *)
Lemma magnitude_over z k : 2 ^ 52 <= z < 2 ^ 53 -> 77 <= k -> single_magnitude z k = 2 ^ 31 - 2 ^ 23.
Proof.
  intros Hz Hk. unfold single_magnitude. rewrite (Z.log2_unique z 52) by lia. apply Z.min_l.
  rewrite Z.max_l by lia. unfold nearest. replace (k - (k + 52) + 23) with (-29) by lia.
  change (0 <=? -29) with false. cbv iota. assert (0 <= (z + 2 ^ (- -29 - 1)) / 2 ^ (- -29)) by (apply Z.div_pos; lia). lia.
Qed.

Lemma magnitude_normal z k : 2 ^ 52 <= z < 2 ^ 53 -> -178 <= k ->
  single_magnitude z k = Z.min (2 ^ 31 - 2 ^ 23) ((k + 178) * 2 ^ 23 + (z + 2 ^ 28) / 2 ^ 29).
Proof.
  intros Hz Hk. unfold single_magnitude. rewrite (Z.log2_unique z 52), Z.max_l by lia.
  unfold nearest. replace (k - (k + 52) + 23) with (-29) by lia. change (0 <=? -29) with false. cbv iota. do 2 f_equal. lia.
Qed.

Lemma magnitude_subnormal z s : 2 ^ 52 <= z < 2 ^ 53 -> 0 <= s <= 24 ->
  single_magnitude z (s - 203) = (z * 2 ^ s + 2 ^ 53) / 2 ^ 54.
Proof.
  intros Hz Hs. unfold single_magnitude. rewrite (Z.log2_unique z 52), Z.max_r by lia.
  unfold nearest. rewrite (proj2 (Z.leb_gt _ _)) by lia. pose proof (Z.pow_pos_nonneg 2 s ltac:(lia) ltac:(lia)) as P.
  replace (- (s - 203 - -126 + 23) - 1) with (53 - s) by lia. replace (- (s - 203 - -126 + 23)) with (54 - s) by lia.
  assert (N : (z + 2 ^ (53 - s)) / 2 ^ (54 - s) = (z * 2 ^ s + 2 ^ 53) / 2 ^ 54).
  { rewrite <- (Z.div_mul_cancel_r _ (2 ^ (54 - s)) (2 ^ s)) by (try apply Z.pow_nonzero; lia).
    rewrite Z.mul_add_distr_r, <- !Z.pow_add_r by lia. do 2 f_equal; [|lia]. f_equal. f_equal. lia. }
  rewrite N. apply Z.min_r. assert ((z * 2 ^ s + 2 ^ 53) / 2 ^ 54 < 2 ^ 24); [|lia].
  apply Z.div_lt_upper_bound; [lia|]. assert (2 ^ s <= 2 ^ 24) by (apply Z.pow_le_mono_r; lia). nia.
Qed.

Lemma fields_rounded_up z k y e i : 2 ^ 52 <= z < 2 ^ 53 -> 2 ^ 52 <= y < 2 ^ 53 -> -178 <= k <= 76 ->
  -127 <= e <= 128 -> e + i = k + 52 + (if 2 ^ 53 <=? z + 2 ^ 28 then 1 else 0) -> i = 0 \/ i = 1 ->
  y / 2 ^ 29 * 2 ^ (if 2 ^ 53 <=? z + 2 ^ 28 then 1 else 0) = (z + 2 ^ 28) / 2 ^ 29 ->
  fields_of (finish 23 127 255 (dy y (e + i - 52)) e (dy 1 (- e))) (single_magnitude z k).
Proof.
  intros Hz Hy Hk He Hi H01 N. rewrite finish_single by lia. rewrite magnitude_normal by lia.
  assert (Hq : 2 ^ 23 <= y / 2 ^ 29 < 2 ^ 24) by (split; [apply Z.div_le_lower_bound|apply Z.div_lt_upper_bound]; lia).
  assert (Hz' : (z + 2 ^ 28) / 2 ^ 29 <= 2 ^ 24) by (apply Z.lt_succ_r, Z.div_lt_upper_bound; lia).
  rewrite <- N in *. rewrite Hi. destruct (2 ^ 53 <=? z + 2 ^ 28).
  - change (2 ^ 1) with 2 in *. destruct (Z.leb_spec 128 (k + 52 + 1)).
    + apply fields_infinity. apply Z.min_l. lia.
    + rewrite (proj2 (Z.leb_le (-126) _)) by lia. apply fields_normal; [exact Hy|lia|]. rewrite Z.min_r by lia. lia.
  - change (2 ^ 0) with 1 in *. rewrite Z.mul_1_r in *. destruct (Z.leb_spec 128 (k + 52 + 0)).
    + apply fields_infinity. apply Z.min_l. lia.
    + rewrite (proj2 (Z.leb_le (-126) _)) by lia. apply fields_normal; [exact Hy|lia|]. rewrite Z.min_r by lia. lia.
Qed.

Lemma fields_normal_range log z k : 2 ^ 52 <= z < 2 ^ 53 -> -178 <= k <= 76 -> log_close log (dy z k) ->
  fields_of (single_bits log (dy z k)) (single_magnitude z k).
Proof.
  intros Hz Hk H. destruct (first_close log z k Hz ltac:(lia) H) as (e & -> & He). rewrite rounded_single.
  destruct He as [-> | [-> Hz']].
  - rewrite (proj2 (Z.leb_le _ _)) by lia. rewrite half_over by lia. replace (k + 52 - 77) with (k - 25) by lia.
    destruct (sum_normal z k Hz ltac:(lia)) as (y & i & -> & Hy & Ei & N).
    replace (k + i) with (k + 52 + i - 52) by lia. apply fields_rounded_up; try assumption; try lia.
    + destruct (2 ^ 53 <=? z + 2 ^ 28); lia.
    + rewrite <- Ei. exact N.
  - assert (NC : (2 ^ 53 <=? z + 2 ^ 28) = false) by (apply Z.leb_gt; lia).
    destruct (Z.leb_spec 1 (k + 51 + 127)).
    + rewrite half_over by lia. replace (k + 51 - 77) with (k - 26) by lia. rewrite sum_above by lia.
      replace (dy (z + 2 ^ 27) k) with (dy (z + 2 ^ 27) (k + 51 + 1 - 52)) by (f_equal; lia).
      apply fields_rounded_up; try lia; rewrite NC; [lia|]. change (2 ^ 0) with 1.
      rewrite <- (Z.div_unique (z + 2 ^ 27) (2 ^ 29) (2 ^ 23) (z + 2 ^ 27 - 2 ^ 52)) by lia.
      apply (Z.div_unique _ _ _ (z + 2 ^ 28 - 2 ^ 52)); lia.
    + assert (k = -178) as -> by lia. change (-203) with (-178 - 25).
      destruct (sum_normal z (-178) Hz ltac:(lia)) as (y & i & -> & Hy & Ei & N). rewrite NC in Ei. subst i.
      change (-178 + 0) with (-178 + 51 + 1 - 52). apply fields_rounded_up; try lia; rewrite NC; [lia|exact N].
Qed.

Lemma fields_subnormal_range log z s : 2 ^ 52 <= z < 2 ^ 53 -> 0 <= s <= 24 -> log_close log (dy z (s - 203)) ->
  fields_of (single_bits log (dy z (s - 203))) (single_magnitude z (s - 203)).
Proof.
  intros Hz Hs H. destruct (first_close log z (s - 203) Hz ltac:(lia) H) as (e & -> & He). rewrite rounded_single.
  rewrite (proj2 (Z.leb_gt _ _)) by lia. rewrite magnitude_subnormal by assumption.
  destruct (sum_subnormal z s Hz Hs) as (y & n & -> & Hy & Hn & N). set (w := (z * 2 ^ s + 2 ^ 53) / 2 ^ 54) in *.
  assert (P : 2 ^ s <= 2 ^ 24) by (apply Z.pow_le_mono_r; lia).
  destruct (Z.le_gt_cases e (-128)) as [L|L].
  - assert (W : w < 2 ^ 23).
    { apply Z.div_lt_upper_bound; [lia|]. destruct He as [->|[-> Hz']]; [|nia].
      assert (2 ^ s <= 2 ^ 23) by (apply Z.pow_le_mono_r; lia). nia. }
    rewrite finish_low by exact L. rewrite scale_subnormal by lia. replace (n - 203 + 149) with (- (54 - n)) by lia.
    apply fields_fraction; [lia|lia|exact N|exact W].
  - assert (s = 24 /\ e = -127) as [-> ->] by lia.
    assert (W : 2 ^ 22 <= w <= 2 ^ 23)
      by (split; [apply Z.div_le_lower_bound|apply Z.lt_succ_r, Z.div_lt_upper_bound]; lia).
    assert (Y : 2 ^ (n - 2) <= y / 2 ^ (54 - n) < 2 ^ (n - 1)).
    { split; [apply Z.div_le_lower_bound|apply Z.div_lt_upper_bound]; try (apply Z.pow_pos_nonneg; lia);
        destruct (Z.eq_dec n 1) as [->|N1]; rewrite <- ?Z.pow_add_r by lia; try (cbn; lia).
      - replace (54 - n + (n - 2)) with 52 by lia. lia.
      - replace (54 - n + (n - 1)) with 53 by lia. lia. }
    assert (Hn' : n = 24 \/ n = 25).
    { assert (22 < n - 1) by (apply (Z.pow_lt_mono_r_iff 2); lia).
      assert (n - 2 < 24) by (apply (Z.pow_lt_mono_r_iff 2); lia). lia. }
    replace (n - 203) with (n - 151 - 52) by lia. rewrite finish_single by lia. rewrite (proj2 (Z.leb_gt 128 _)) by lia.
    destruct Hn' as [-> | ->].
    + change (24 - 151 + 97) with (- (54 - 24)). cbn [Z.leb Z.compare Z.sub Z.add Z.opp Z.pos_sub Pos.compare Pos.compare_cont].
      apply fields_fraction; [lia|lia|exact N|lia].
    + apply fields_normal; [exact Hy|lia|]. rewrite <- N. reflexivity.
Qed.

Lemma fields_tiny log z k : 0 < z < 2 ^ 53 -> -1074 <= k <= 971 -> k + Z.log2 z <= -152 -> log_close log (dy z k) ->
  fields_of (single_bits log (dy z k)) 0.
Proof.
  intros Hz Hk Hl H. pose proof (Z.log2_nonneg z) as L0.
  destruct (close_dy log z k ltac:(lia) (fits_small z k ltac:(lia) Hk) H) as (e0 & E0 & B).
  pose proof (stages log 23 127 255 z k e0 ltac:(lia) (fits_small z k ltac:(lia) Hk) E0 ltac:(lia) ltac:(lia) ltac:(lia)) as S.
  cbv zeta in S. unfold single_bits. rewrite S. set (e := if flt _ _ then e0 - 1 else e0).
  assert (He : e <= -128) by (unfold e; destruct (flt _ _); lia).
  rewrite finish_low by exact He. rewrite rounded_single. rewrite (proj2 (Z.leb_gt _ _)) by lia.
  destruct (sum_tiny z k Hz Hk Hl) as (y & j & -> & Hy & Hj). rewrite scale_subnormal by lia.
  replace (j + 149) with (- (- j - 149)) by lia. apply fields_fraction; [lia|lia| |lia].
  apply Z.div_small. split; [lia|]. pose proof (Z.pow_le_mono_r 2 53 (- j - 149)). lia.
Qed.

(** ** Every positive Number *)

Lemma nearest_scale z d i : 0 <= i -> nearest (z * 2 ^ i) (d - i) = nearest z d.
Proof.
  intros Hi. unfold nearest. pose proof (Z.pow_pos_nonneg 2 i ltac:(lia) Hi) as P.
  destruct (Z.leb_spec 0 (d - i)), (Z.leb_spec 0 d); try lia.
  - rewrite <- Z.mul_assoc, <- Z.pow_add_r by lia. do 2 f_equal. lia.
  - replace i with (d + - (d - i)) at 1 by lia. rewrite Z.pow_add_r, Z.mul_assoc by lia.
    pose proof (Z.pow_pos_nonneg 2 (- (d - i) - 1) ltac:(lia) ltac:(lia)).
    assert (E : 2 ^ (- (d - i)) = 2 * 2 ^ (- (d - i) - 1)) by (rewrite <- Z.pow_succ_r by lia; f_equal; lia).
    symmetry. apply (Z.div_unique _ _ _ (2 ^ (- (d - i) - 1))); lia.
  - replace (- (d - i) - 1) with (- d - 1 + i) by lia. replace (- (d - i)) with (- d + i) by lia.
    rewrite !Z.pow_add_r, <- Z.mul_add_distr_r by lia. apply Z.div_mul_cancel_r; [apply Z.pow_nonzero; lia|lia].
Qed.

Lemma magnitude_scale z k i : 0 < z -> 0 <= i -> single_magnitude (z * 2 ^ i) (k - i) = single_magnitude z k.
Proof.
  intros Hz Hi. unfold single_magnitude. rewrite Z.log2_mul_pow2 by lia.
  replace (k - i + (i + Z.log2 z)) with (k + Z.log2 z) by lia. set (e := Z.max _ _).
  replace (k - i - e + 23) with (k - e + 23 - i) by lia. rewrite nearest_scale by exact Hi. reflexivity.
Qed.

Lemma magnitude_tiny z k : 0 < z -> k + Z.log2 z <= -151 -> single_magnitude z k = 0.
Proof.
  intros Hz Hl. pose proof (Z.log2_spec z Hz) as [_ L2]. pose proof (Z.log2_nonneg z) as L0.
  unfold single_magnitude. rewrite Z.max_r by lia. unfold nearest. rewrite (proj2 (Z.leb_gt _ _)) by lia.
  rewrite Z.div_small; [reflexivity|]. set (d := - (k - -126 + 23)).
  assert (E : 2 ^ d = 2 * 2 ^ (d - 1)) by (rewrite <- Z.pow_succ_r by (unfold d; lia); f_equal; lia).
  pose proof (Z.pow_pos_nonneg 2 (d - 1) ltac:(lia) ltac:(unfold d; lia)).
  pose proof (Z.pow_le_mono_r 2 (Z.succ (Z.log2 z)) (d - 1) ltac:(lia) ltac:(unfold d; lia)). lia.
Qed.

Lemma single_fields log z k : 0 < z < 2 ^ 53 -> -1074 <= k <= 971 -> log_close log (dy z k) ->
  fields_of (single_bits log (dy z k)) (single_magnitude z k).
Proof.
  intros Hz Hk H. destruct (Z.le_gt_cases (k + Z.log2 z) (-152)) as [L|L].
  { rewrite magnitude_tiny by lia. apply fields_tiny; assumption. }
  pose proof (Z.log2_spec z ltac:(lia)) as [L1 L2]. pose proof (Z.log2_nonneg z) as L0.
  assert (L53 : Z.log2 z <= 52) by (apply Z.lt_succ_r, Z.log2_lt_pow2; lia).
  set (i := 52 - Z.log2 z). assert (Hi : 0 <= i) by (unfold i; lia).
  pose proof (Z.pow_pos_nonneg 2 i ltac:(lia) Hi) as P.
  assert (B : 2 ^ 52 <= z * 2 ^ i < 2 ^ 53).
  { assert (E1 : 2 ^ 52 = 2 ^ Z.log2 z * 2 ^ i) by (rewrite <- Z.pow_add_r by lia; f_equal; unfold i; lia).
    assert (E2 : 2 ^ 53 = 2 ^ Z.succ (Z.log2 z) * 2 ^ i) by (rewrite <- Z.pow_add_r by lia; f_equal; unfold i; lia).
    rewrite E1, E2. split; [apply Z.mul_le_mono_nonneg_r|apply Z.mul_lt_mono_pos_r]; lia. }
  rewrite <- (magnitude_scale z k i) by lia.
  rewrite (dy_dyeq z k (z * 2 ^ i) (k - i)) in *.
  2, 4: apply fits_small; lia.
  2, 3: replace k with (k - i + i) at 1 by lia; apply dyeq_up, Hi.
  destruct (Z.le_gt_cases 77 (k - i)) as [O|O].
  - rewrite magnitude_over by (assumption || lia). destruct (first_close log (z * 2 ^ i) (k - i) B ltac:(lia) H) as (e & -> & He).
    rewrite finish_over by lia. apply fields_infinity. reflexivity.
  - destruct (Z.le_gt_cases (-178) (k - i)).
    + apply fields_normal_range; [exact B|lia|exact H].
    + replace (k - i) with (k - i + 203 - 203) in * by lia. apply fields_subnormal_range; [exact B|unfold i in *; lia|exact H].
Qed.

(** ** The word is the nearest one *)

Lemma units_at i n : 0 <= i -> 0 <= n <= 2 ^ 24 -> i = 0 \/ 2 ^ 23 <= n -> units (i * 2 ^ 23 + n) = n * 2 ^ i.
Proof.
  intros Hi Hn H. unfold units. destruct (Z.lt_ge_cases n (2 ^ 23)) as [L|L]; [|destruct (Z.eq_dec n (2 ^ 24)) as [->|N]].
  - destruct H as [->|]; [|lia]. rewrite Z.div_small, Z.mod_small by lia. cbn. lia.
  - rewrite <- (Z.div_unique (i * 2 ^ 23 + 2 ^ 24) (2 ^ 23) (i + 2) 0) by lia.
    rewrite <- (Z.mod_unique (i * 2 ^ 23 + 2 ^ 24) (2 ^ 23) (i + 2) 0) by lia.
    rewrite (proj2 (Z.eqb_neq _ _)) by lia. replace (i + 2 - 1) with (i + 1) by lia. rewrite Z.pow_add_r by lia. lia.
  - rewrite <- (Z.div_unique (i * 2 ^ 23 + n) (2 ^ 23) (i + 1) (n - 2 ^ 23)) by lia.
    rewrite <- (Z.mod_unique (i * 2 ^ 23 + n) (2 ^ 23) (i + 1) (n - 2 ^ 23)) by lia.
    rewrite (proj2 (Z.eqb_neq _ _)) by lia. replace (i + 1 - 1) with i by lia. lia.
Qed.

Lemma units_shape g : 0 <= g -> exists i n, g = i * 2 ^ 23 + n /\ 0 <= i /\ 0 <= n < 2 ^ 24 /\ (i = 0 \/ 2 ^ 23 <= n).
Proof.
  intros Hg. pose proof (Z_div_mod_eq_full g (2 ^ 23)) as E. pose proof (Z.mod_pos_bound g (2 ^ 23) ltac:(lia)) as B.
  assert (0 <= g / 2 ^ 23) by (apply Z.div_pos; lia).
  destruct (Z.eq_dec (g / 2 ^ 23) 0) as [Z0|N0]; [exists 0, g; lia|exists (g / 2 ^ 23 - 1), (g mod 2 ^ 23 + 2 ^ 23); lia].
Qed.

Lemma units_succ g : 0 <= g -> units g < units (g + 1).
Proof.
  intros Hg. destruct (units_shape g Hg) as (i & n & -> & Hi & Hn & H). rewrite <- Z.add_assoc.
  rewrite !units_at by lia. pose proof (Z.pow_pos_nonneg 2 i ltac:(lia) Hi). lia.
Qed.

Lemma units_lt g g' : 0 <= g < g' -> units g < units g'.
Proof.
  intros [Hg H]. replace g' with (g + 1 + (g' - g - 1)) by lia.
  generalize (g' - g - 1) (ltac:(lia) : 0 <= g' - g - 1). apply natlike_ind.
  - rewrite Z.add_0_r. apply units_succ, Hg.
  - intros d Hd IH. etransitivity; [exact IH|]. replace (g + 1 + Z.succ d) with (g + 1 + d + 1) by lia.
    apply units_succ. lia.
Qed.

(** Halving and flooring picks the nearest multiple of [w], halves up. *)
Lemma nearest_multiple x w n : 0 < w -> 2 * (n * w) - w <= 2 * x < 2 * (n * w) + w ->
  forall n', Z.abs (x - n * w) <= Z.abs (x - n' * w) /\ (Z.abs (x - n * w) = Z.abs (x - n' * w) -> n' <= n).
Proof.
  intros Hw H n'. destruct (Z.lt_trichotomy n' n) as [L|[-> |L]]; [|lia|].
  - assert (n' * w <= n * w - w) by nia. lia.
  - assert (n * w + w <= n' * w) by nia. lia.
Qed.

Lemma nearest_bounds m s t d : 0 < m -> 0 <= s -> 0 <= t -> d = s - t ->
  let w := 2 ^ t in 2 * (nearest m d * w) - w <= 2 * (m * 2 ^ s) < 2 * (nearest m d * w) + w.
Proof.
  intros Hm Hs Ht ->. cbv zeta. unfold nearest. pose proof (Z.pow_pos_nonneg 2 t ltac:(lia) Ht).
  destruct (Z.leb_spec 0 (s - t)).
  - rewrite <- Z.mul_assoc, <- Z.pow_add_r by lia. replace (s - t + t) with s by lia. lia.
  - set (c := - (s - t)). assert (Hc : 2 ^ c = 2 * 2 ^ (c - 1)) by (rewrite <- Z.pow_succ_r by (unfold c; lia); f_equal; lia).
    assert (T : 2 ^ t = 2 ^ c * 2 ^ s) by (rewrite <- Z.pow_add_r by (unfold c; lia); f_equal; unfold c; lia).
    pose proof (Z.pow_pos_nonneg 2 s ltac:(lia) Hs). pose proof (Z.pow_pos_nonneg 2 (c - 1) ltac:(lia) ltac:(unfold c; lia)).
    pose proof (Z_div_mod_eq_full (m + 2 ^ (c - 1)) (2 ^ c)) as D. pose proof (Z.mod_pos_bound (m + 2 ^ (c - 1)) (2 ^ c) ltac:(lia)) as B.
    set (q := (m + 2 ^ (c - 1)) / 2 ^ c) in *. rewrite T. set (S := 2 ^ s) in *. set (C := 2 ^ (c - 1)) in *. rewrite Hc in *.
    split; nia.
Qed.

Section Magnitude.
Context (m e : Z).
Hypothesis Hm : 0 < m.

(** The binade of the value, in words [i * 2^23] to [(i + 1) * 2^23], the value
    and the words scaled to integers. *)
Let E := Z.max (e + Z.log2 m) (-126).
Let n := nearest m (e - E + 23).
Let b := Z.min e (-149).
Let i := E + 126.
Let U := 2 ^ (-149 - b).
Let W := 2 ^ i * U.
Let x := m * 2 ^ (e - b).

Lemma binade : 0 <= i /\ 0 < U /\ 0 < W /\ 0 < x < 2 ^ 24 * W /\ (i = 0 \/ 2 ^ 23 * W <= x) /\
  0 <= n <= 2 ^ 24 /\ 2 * (n * W) - W <= 2 * x < 2 * (n * W) + W.
Proof.
  pose proof (Z.log2_spec m Hm) as [L1 L2]. pose proof (Z.log2_nonneg m) as L0.
  assert (WE : W = 2 ^ (E - 23 - b)) by (unfold W, U, i; rewrite <- Z.pow_add_r by lia; f_equal; lia).
  assert (HU : 0 < U) by (apply Z.pow_pos_nonneg; lia).
  assert (HW : 0 < W) by (rewrite WE; apply Z.pow_pos_nonneg; lia).
  pose proof (Z.pow_pos_nonneg 2 (e - b) ltac:(lia) ltac:(lia)) as P.
  pose proof (nearest_bounds m (e - b) (E - 23 - b) (e - E + 23) Hm ltac:(lia) ltac:(lia) ltac:(lia)) as Hn.
  cbv zeta in Hn. fold n x in Hn. rewrite <- WE in Hn.
  assert (X1 : x < 2 ^ 24 * W).
  { unfold x. rewrite WE. rewrite <- Z.pow_add_r by lia.
    apply Z.lt_le_trans with (2 ^ Z.succ (Z.log2 m) * 2 ^ (e - b)); [nia|]. rewrite <- Z.pow_add_r by lia.
    apply Z.pow_le_mono_r; lia. }
  assert (X2 : i = 0 \/ 2 ^ 23 * W <= x).
  { destruct (Z.eq_dec i 0) as [?|Ni]; [left; assumption|right]. unfold x. rewrite WE. rewrite <- Z.pow_add_r by lia.
    apply Z.le_trans with (2 ^ Z.log2 m * 2 ^ (e - b)); [rewrite <- Z.pow_add_r by lia; apply Z.pow_le_mono_r; lia|nia]. }
  split; [lia|]. split; [exact HU|]. split; [exact HW|]. split; [split; [unfold x; nia|exact X1]|].
  split; [exact X2|]. split; [split; nia|exact Hn].
Qed.

Lemma distance_units g : distance m e g = Z.abs (x - units g * U).
Proof. reflexivity. Qed.

(** The words of the binade are the multiples of [W]. *)
Lemma binade_units g : 0 <= i -> i * 2 ^ 23 + (if i =? 0 then 0 else 2 ^ 23) <= g <= i * 2 ^ 23 + 2 ^ 24 ->
  units g * U = (g - i * 2 ^ 23) * W.
Proof.
  intros Hi Hg. replace g with (i * 2 ^ 23 + (g - i * 2 ^ 23)) at 1 by lia.
  rewrite units_at; [unfold W; ring|lia|..]; destruct (Z.eqb_spec i 0); lia.
Qed.

(** A word of the binade is the nearest of all. *)
Lemma binade_nearest : i * 2 ^ 23 + n <= 2 ^ 31 - 2 ^ 23 -> nearest_magnitude m e (i * 2 ^ 23 + n).
Proof.
  destruct binade as (Hi & HU & HW & X1 & X2 & N & Hn). intros C. pose proof (nearest_multiple x W n HW Hn) as Near.
  assert (Nl : (if i =? 0 then 0 else 2 ^ 23) <= n) by (destruct (Z.eqb_spec i 0); [lia|]; destruct X2; [lia|nia]).
  split; [lia|]. intros g' Hg'. rewrite !distance_units, (binade_units (i * 2 ^ 23 + n)) by lia.
  replace (i * 2 ^ 23 + n - i * 2 ^ 23) with n by lia.
  destruct (Z.lt_ge_cases (i * 2 ^ 23 + 2 ^ 24) g') as [Over|Over].
  { pose proof (units_lt _ g' ltac:(split; [|exact Over]; lia)) as M. destruct (Near (2 ^ 24)) as [K _].
    pose proof (binade_units (i * 2 ^ 23 + 2 ^ 24) Hi ltac:(destruct (i =? 0); lia)) as T.
    replace (i * 2 ^ 23 + 2 ^ 24 - i * 2 ^ 23) with (2 ^ 24) in T by lia.
    assert (2 ^ 24 * W < units g' * U) by nia. lia. }
  destruct (Z.lt_ge_cases g' (i * 2 ^ 23 + if i =? 0 then 0 else 2 ^ 23)) as [Under|Under].
  { destruct (Z.eqb_spec i 0) as [I0|I0]; [lia|]. destruct X2 as [|X2]; [lia|].
    pose proof (units_lt g' _ ltac:(split; [|exact Under]; lia)) as M. destruct (Near (2 ^ 23)) as [K _].
    pose proof (binade_units (i * 2 ^ 23 + 2 ^ 23) Hi ltac:(destruct (i =? 0); lia)) as T.
    replace (i * 2 ^ 23 + 2 ^ 23 - i * 2 ^ 23) with (2 ^ 23) in T by lia.
    assert (units g' * U < 2 ^ 23 * W) by nia. lia. }
  rewrite (binade_units g') by lia. destruct (Near (g' - i * 2 ^ 23)) as [K1 K2]. lia.
Qed.

(** Past the largest finite word, infinity is. *)
Lemma infinity_nearest : 2 ^ 31 - 2 ^ 23 < i * 2 ^ 23 + n -> nearest_magnitude m e (2 ^ 31 - 2 ^ 23).
Proof.
  destruct binade as (Hi & HU & HW & X1 & X2 & N & Hn). intros C. split; [lia|]. intros g' Hg'. rewrite !distance_units.
  assert (I : 254 <= i) by lia. destruct X2 as [|X2]; [lia|].
  assert (Cap : units (2 ^ 31 - 2 ^ 23) * U <= x).
  { change (2 ^ 31 - 2 ^ 23) with (254 * 2 ^ 23 + 2 ^ 23). rewrite units_at by lia.
    apply Z.le_trans with (2 ^ 23 * W); [|exact X2]. unfold W.
    pose proof (Z.pow_le_mono_r 2 254 i ltac:(lia) I). nia. }
  destruct (Z.eq_dec g' (2 ^ 31 - 2 ^ 23)) as [-> |Ng]; [lia|].
  pose proof (units_lt g' (2 ^ 31 - 2 ^ 23) ltac:(lia)). assert (units g' * U < units (2 ^ 31 - 2 ^ 23) * U) by nia. lia.
Qed.

Lemma magnitude_nearest : nearest_magnitude m e (single_magnitude m e).
Proof.
  change (single_magnitude m e) with (Z.min (2 ^ 31 - 2 ^ 23) (i * 2 ^ 23 + n)).
  destruct (Z.le_gt_cases (i * 2 ^ 23 + n) (2 ^ 31 - 2 ^ 23)) as [C|C].
  - rewrite Z.min_r by exact C. apply binade_nearest, C.
  - rewrite Z.min_l by lia. apply infinity_nearest, C.
Qed.
End Magnitude.

(** There is one nearest word. *)
Lemma nearest_exact m e g g' : nearest_magnitude m e g -> 0 <= g' <= 2 ^ 31 - 2 ^ 23 -> distance m e g' = 0 -> g = g'.
Proof.
  intros [Hg N] Hg' D. destruct (N g' Hg') as [L T]. rewrite D in *.
  assert (D0 : distance m e g = 0) by (unfold distance in *; lia). specialize (T D0).
  destruct (Z.eq_dec g' g) as [->|Ne]; [reflexivity|]. pose proof (units_lt g' g ltac:(lia)) as M.
  unfold distance in D, D0. pose proof (Z.pow_pos_nonneg 2 (-149 - Z.min e (-149)) ltac:(lia) ltac:(lia)). nia.
Qed.

(** ** Whole Numbers *)

(** The two numbers for any Number, and the word they make with its sign. *)
Definition word_of (b : num * num) (s : bool) (w : Z) : Prop :=
  exists y q ex, b = (of_Z ex, dy y (- q)) /\ 0 <= y < 2 ^ 53 /\ 0 <= q <= 60 /\ y / 2 ^ q < 2 ^ 23 /\
    0 <= ex < 256 /\ ieee_word Binary32 s ex (y / 2 ^ q) = w.

Lemma word_of_fields b s g : fields_of b g -> word_of b s (g + sign_bit s).
Proof.
  intros (y & q & ex & E & Hy & Hq & Hf & He & W). exists y, q, ex. repeat (split; [assumption|]).
  unfold ieee_word. change (fraction_bits Binary32) with 23. change (8 * Z.of_nat (fbytes Binary32) - 1) with 31.
  unfold sign_bit. destruct s; lia.
Qed.

Lemma valid_dy s m e : valid_binary prec emax (S754_finite s m e) = true ->
  0 < Z.pos m < 2 ^ 53 /\ -1074 <= e <= 971 /\ fabs (S754_finite s m e) = dy (Z.pos m) e.
Proof.
  intros B. cbn [valid_binary] in B. pose proof (round_exact false m e m e B (dyeq_refl _ _)) as R.
  apply bounded_inv in B as [F L]. unfold fexp, emin, prec, emax in F. pose proof (digits_bounds m) as [_ D].
  pose proof (Z.pow_le_mono_r 2 (Z.pos (digits2_pos m)) 53 ltac:(lia) ltac:(lia)).
  split; [lia|]. split; [lia|]. symmetry. exact R.
Qed.

Lemma single_word log x : valid_binary prec emax x = true -> log_close log (fabs x) ->
  exists w, nearest_word x w /\ word_of (single_bits log (fabs x)) (sign_test x) w.
Proof.
  intros V L. destruct x as [s|s| |s m e].
  - exists (sign_bit s). split; [reflexivity|]. replace (sign_test (S754_zero s)) with s by (destruct s; reflexivity).
    change (sign_bit s) with (0 + sign_bit s) at 1. apply word_of_fields. cbn [fabs SFabs log_close] in *.
    exists (2 ^ 53 - 1), 54, 0. split; [|vm_compute; intuition congruence].
    change (S754_zero false) with (of_Z 0) in *. unfold single_bits, exponent_mantissa. rewrite L. vm_compute. reflexivity.
  - exists (2 ^ 31 - 2 ^ 23 + sign_bit s). split; [reflexivity|].
    replace (sign_test (S754_infinity s)) with s by (destruct s; reflexivity).
    apply word_of_fields, (fields_infinity _ eq_refl).
  - exists (2 ^ 31 - 2 ^ 23 + 1). split; [reflexivity|]. exists 1, 0, 255. split; [reflexivity|].
    vm_compute. intuition congruence.
  - destruct (valid_dy s m e V) as (Hm & He & A). rewrite A in *.
    exists (single_magnitude (Z.pos m) e + sign_bit s). split.
    + exists (single_magnitude (Z.pos m) e). split; [reflexivity|]. apply magnitude_nearest. lia.
    + replace (sign_test (S754_finite s m e)) with s by (destruct s; reflexivity).
      apply word_of_fields, single_fields; assumption.
Qed.

Lemma nearest_word_range x w : nearest_word x w -> 0 <= w < 2 ^ 32.
Proof.
  intros H. destruct x as [s|s| |s m e]; cbn [nearest_word] in H.
  1, 2: subst w; unfold sign_bit; destruct s; lia.
  - lia.
  - destruct H as (g & -> & [Hg _]). unfold sign_bit. destruct s; lia.
Qed.

Lemma single_write_run log big h this x o w :
  heap_ok h -> view_ok h this -> 0 <= o -> o + 4 <= vlen this -> word_of (single_bits log (fabs x)) (sign_test x) w ->
  write log this x o (negb big) 23 4 h = (store h this o (encode big 4 w), Ok tt).
Proof.
  intros Hh Hv Ho Hn (y & q & ex & E & Hy & Hq & Hf & He & <-).
  exact (write_word Binary32 big h this o Hh Hv Ho Hn log x y q ex E Hy Hq Hf He).
Qed.

(** ** Values of words *)

Lemma ieee_valid f w : 0 <= w < 2 ^ (8 * Z.of_nat (fbytes f)) ->
  valid_binary prec emax (ieee_value (fraction_bits f) (exponent_bits f) w) = true.
Proof.
  intros Hw. destruct (word_fields f w Hw) as (s & ex & frac & -> & Hf & He). rewrite ieee_value_word by assumption.
  assert (S : forall z k, fits z k -> valid_binary prec emax (signed_num s z k) = true).
  { intros z k F. unfold signed_num. destruct (z =? 0); [reflexivity|].
    destruct (dy_cases (if s then - z else z) k ltac:(destruct s; [apply fits_opp|]; exact F))
      as [[_ ->]|(m & e & B & _ & _ & ->)]; [reflexivity|exact B]. }
  destruct (Z.eqb_spec ex (max_exponent f)) as [?|N]; [destruct (frac =? 0); reflexivity|].
  destruct (Z.eqb_spec ex 0); apply S, fits_small; destruct f; unfold bias, max_exponent in *; cbn [fraction_bits exponent_bits] in *; lia.
Qed.

(** The distance from the word of one's own value is 0. *)
Lemma signed_num_nearest s z k g w : 0 < z -> fits z k -> 0 <= g <= 2 ^ 31 - 2 ^ 23 -> dyeq z k (units g) (-149) ->
  nearest_word (signed_num s z k) w -> w = g + sign_bit s.
Proof.
  intros Hz F Hg D. unfold signed_num. rewrite (proj2 (Z.eqb_neq z 0)) by lia.
  destruct (dy_cases (if s then - z else z) k ltac:(destruct s; [apply fits_opp|]; exact F))
    as [[? _]|(m & e & _ & V & _ & ->)]; [destruct s; lia|].
  replace ((if s then - z else z) <? 0) with s by (destruct s; symmetry; [apply Z.ltb_lt|apply Z.ltb_ge]; lia).
  intros (g' & -> & N). f_equal. apply (nearest_exact (Z.pos m) e); [exact N|exact Hg|].
  replace (Z.abs (if s then - z else z)) with z in V by (destruct s; lia).
  unfold distance. rewrite (dyeq_at (Z.min e (-149)) (Z.pos m) e (units g) (-149)); [lia| |lia|lia].
  eapply dyeq_trans; [apply dyeq_sym, V|exact D].
Qed.

Lemma signed_num_not_nan s z k : fits z k -> is_nan (signed_num s z k) = false.
Proof.
  intros F. unfold signed_num. destruct (z =? 0); [reflexivity|].
  destruct (dy_cases (if s then - z else z) k ltac:(destruct s; [apply fits_opp|]; exact F))
    as [[_ ->]|(m & e & _ & _ & _ & ->)]; reflexivity.
Qed.

Lemma single_value_word w v : 0 <= w < 2 ^ 32 -> nearest_word (ieee_value 23 8 w) v -> v = stored_word Binary32 w.
Proof.
  intros Hw. destruct (word_fields Binary32 w Hw) as (s & ex & frac & -> & Hf & He). unfold stored_word.
  pose proof (ieee_value_word Binary32 s ex frac Hf He) as V.
  change (fraction_bits Binary32) with 23 in *. change (exponent_bits Binary32) with 8 in *. rewrite V.
  change (max_exponent Binary32) with 255 in *. change (bias Binary32) with 127.
  replace (ieee_word Binary32 s ex frac) with (frac + ex * 2 ^ 23 + sign_bit s) by (destruct s; reflexivity).
  destruct (Z.eqb_spec ex 255) as [->|N1]; [|destruct (Z.eqb_spec ex 0) as [->|N0]].
  - destruct (Z.eqb_spec frac 0) as [->|Nf]; cbn [nearest_word is_nan]; intros ->; [lia|reflexivity].
  - rewrite signed_num_not_nan by (apply fits_small; lia). destruct (Z.eq_dec frac 0) as [->|Nf].
    + intros ->. lia.
    + intros H. apply (signed_num_nearest s frac _ frac) in H; [lia|lia|apply fits_small; lia|lia|].
      change frac with (0 * 2 ^ 23 + frac) at 2. rewrite units_at by lia. rewrite Z.mul_1_r. apply dyeq_refl.
  - rewrite signed_num_not_nan by (apply fits_small; lia). intros H.
    apply (signed_num_nearest s (frac + 2 ^ 23) _ (frac + ex * 2 ^ 23)) in H; [exact H|lia|apply fits_small; lia|lia|].
    replace (frac + ex * 2 ^ 23) with ((ex - 1) * 2 ^ 23 + (frac + 2 ^ 23)) by lia. rewrite units_at by lia.
    replace (ex - 127 - 23) with (-149 + (ex - 1)) by lia. apply dyeq_up. lia.
Qed.

(** ** Properties *)

(** C17: [writeFloatLE] and [writeFloatBE] store the four bytes of the binary32 word
    whose value is nearest to the Number, the larger magnitude of two at the same
    distance, infinity from half a unit past the largest value on, zero below half
    the smallest one, with the sign of the Number; every NaN is stored as one word.
    All other bytes are kept, the next offset is the answer and a read gives the
    value of the word.  What is assumed of [Math.log] is that it gives the binary
    exponent, up to one more, or up to one less just above a power of two. *)
Theorem float_write_spec log big h this x offset noAssert o :
  heap_ok h -> view_ok h this -> offset_is offset o -> o + 4 <= vlen this ->
  valid_binary prec emax x = true -> log_close log (fabs x) ->
  exists h' w, nearest_word x w /\ write_float log Binary32 big this (Num x) offset noAssert h = (h', Ok (o + 4)) /\
    bytes h' this = splice o (encode big 4 w) (bytes h this) /\
    read_float Binary32 big this offset noAssert h' = (h', Ok (ieee_value 23 8 w)).
Proof.
  intros Hh Hv Hoff Hn V L. pose proof (offset_is_bounds _ _ Hoff) as Ho.
  destruct (single_word log x V L) as (w & N & W). pose proof (nearest_word_range x w N) as R.
  exists (store h this o (encode big 4 w)), w. split; [exact N|].
  apply (write_then_read log Binary32 big h this x offset noAssert o w Hh Hv Hoff Hn R).
  apply single_write_run; try assumption. lia.
Qed.

(** What a round trip in a format relies on [Math.log] for. *)
Definition log_good (f : float_format) (log : num -> num) (x : num) : Prop :=
  match f with Binary32 => log_close log x | Binary64 => log_estimate log x end.

(** C18: a Number that is the value of a word of single or double precision, signed
    zeros, subnormals and infinities included, is stored by the write methods of
    that format, in both byte orders, as that word (every NaN as one word); no
    other byte changes, the next offset is the answer, and reading the bytes back
    gives the Number.  What is assumed of [Math.log] is that it gives the binary
    exponent of the value up to one, for single precision one less only just above
    a power of two. *)
Theorem float_roundtrip log f big h this w offset noAssert o :
  let x := ieee_value (fraction_bits f) (exponent_bits f) w in
  heap_ok h -> view_ok h this -> offset_is offset o -> o + Z.of_nat (fbytes f) <= vlen this ->
  0 <= w < 2 ^ (8 * Z.of_nat (fbytes f)) -> log_good f log (fabs x) ->
  exists h', write_float log f big this (Num x) offset noAssert h = (h', Ok (o + Z.of_nat (fbytes f))) /\
    bytes h' this = splice o (encode big (fbytes f) (stored_word f w)) (bytes h this) /\
    read_float f big this offset noAssert h' = (h', Ok x).
Proof.
  cbv zeta. intros Hh Hv Hoff Hn Hw L. pose proof (offset_is_bounds _ _ Hoff) as Ho.
  set (x := ieee_value (fraction_bits f) (exponent_bits f) w) in *.
  assert (W : write log this x o (negb big) (fraction_bits f) (Z.of_nat (fbytes f)) h =
                (store h this o (encode big (fbytes f) (stored_word f w)), Ok tt)).
  { destruct f.
    - destruct (single_word log x (ieee_valid Binary32 w Hw) L) as (v & N & W).
      rewrite <- (single_value_word w v Hw N). apply single_write_run; assumption || lia.
    - apply double_write_run; assumption || lia. }
  destruct (write_then_read log f big h this x offset noAssert o _ Hh Hv Hoff Hn (stored_word_range f w Hw) W) as (A & B & C).
  rewrite stored_word_value in C by exact Hw. eexists. exact (conj A (conj B C)).
Qed.

(** ** The assumption on the logarithm can be met *)

Lemma sample_exponent E : -1074 <= E <= 1023 -> Math_floor (fdiv (fmul (dy (2 * E + 1) (-1)) LN2) LN2) = of_Z E.
Proof.
  intros H. set (ok := fun n => match Math_floor (fdiv (fmul (dy (2 * (Z.of_nat n - 1074) + 1) (-1)) LN2) LN2), of_Z (Z.of_nat n - 1074) with
                       | S754_zero a, S754_zero b => Bool.eqb a b
                       | S754_finite a m e, S754_finite b m' e' => Bool.eqb a b && Pos.eqb m m' && (e =? e')
                       | _, _ => false
                       end).
  assert (A : forallb ok (seq 0 2098) = true) by (vm_compute; reflexivity).
  rewrite forallb_forall in A. specialize (A (Z.to_nat (E + 1074)) ltac:(apply in_seq; lia)).
  unfold ok in A. replace (Z.of_nat (Z.to_nat (E + 1074)) - 1074) with E in A by lia.
  destruct (Math_floor _) as [a|a| |a m e], (of_Z E) as [b|b| |b m' e']; try discriminate.
  - apply Bool.eqb_prop in A as ->. reflexivity.
  - apply andb_true_iff in A as [A A3]. apply andb_true_iff in A as [A1 A2].
    apply Bool.eqb_prop in A1 as ->. apply Pos.eqb_eq in A2 as ->. apply Z.eqb_eq in A3 as ->. reflexivity.
Qed.

Lemma sample_log_close x : valid_binary prec emax x = true -> log_close sample_log (fabs x).
Proof.
  intros V. destruct x as [s|s| |s m e]; try exact I; [reflexivity|].
  destruct (valid_dy s m e V) as (Hm & He & _). cbn [fabs SFabs log_close]. cbv zeta.
  exists (Z.log2 (Z.pos m) + e). assert (L : 0 <= Z.log2 (Z.pos m) < 53) by (split; [apply Z.log2_nonneg|apply Z.log2_lt_pow2; lia]).
  split; [|left; lia]. apply sample_exponent. lia.
Qed.

(** ** Witnesses *)

(** The decimal fraction 1.1 is not a single-precision value. *)
Lemma float_write_spec_witness : exists h' w,
  writeFloatBE sample_log sample_view (Num (dy 2476979795053773 (-51))) (Num (of_Z 1)) Undefined sample_heap = (h', Ok 5) /\
  nearest_word (dy 2476979795053773 (-51)) w /\
  readFloatBE sample_view (Num (of_Z 1)) Undefined h' = (h', Ok (ieee_value 23 8 w)).
Proof.
  destruct (float_write_spec sample_log true sample_heap sample_view (dy 2476979795053773 (-51)) (Num (of_Z 1)) Undefined 1
              sample_heap_ok sample_view_ok (offset_is_num 1 ltac:(lia)) ltac:(cbn; lia) eq_refl (sample_log_close (dy 2476979795053773 (-51)) eq_refl))
    as (h' & w & N & W & _ & R).
  exists h', w. exact (conj W (conj N R)).
Defined.

Lemma float_roundtrip_witness : exists h',
  writeDoubleLE sample_log sample_view (Num (ieee_value 52 11 13837628687431468646)) (Num (of_Z 0)) Undefined sample_heap =
    (h', Ok 8) /\
  readDoubleLE sample_view (Num (of_Z 0)) Undefined h' = (h', Ok (ieee_value 52 11 13837628687431468646)).
Proof.
  assert (L : log_good Binary64 sample_log (fabs (ieee_value 52 11 13837628687431468646))).
  { exists 1. split; vm_compute; [reflexivity|discriminate]. }
  destruct (float_roundtrip sample_log Binary64 false sample_heap sample_view 13837628687431468646 (Num (of_Z 0)) Undefined 0
              sample_heap_ok sample_view_ok (offset_is_num 0 ltac:(lia)) ltac:(cbn; lia) ltac:(cbn; lia) L)
    as (h' & W & _ & R).
  exists h'. exact (conj W R).
Defined.
