(* ===== verification/BufferSafety.v ===== *)
(** Memory safety of the Buffer methods: whatever the arguments, a method keeps
    the store well formed, never changes the size of an array buffer, writes no
    byte outside the views it may write to and answers only views that lie in
    their array buffer.

    [safe ws P m h] says so of one computation: it may write to the views [ws],
    and a result satisfies [P] in the state it leaves. *)

From Stdlib Require Import SpecFloat String.
From stdpp Require Import base numbers list gmap.
From S2P Require Import Prelude JsNumber JsValue Base64 Encoding BufferCore BufferInt BufferIntFacts BufferOps.
From S2P Require Import BufferOpsFacts Ieee754 Ieee754Facts.

Local Open Scope Z_scope.
Local Open Scope js_scope.

(** ** What a computation may do to the store *)

(** Array buffers are those of a 32-bit program. *)
Definition store_ok (h : heap) : Prop :=
  heap_ok h /\ forall a l, mem h !! a = Some l -> Z.of_nat (length l) <= K_MAX_LENGTH.

(** A byte of an array buffer that one of the views shows. *)
Definition covered (ws : list view) (a i : nat) : Prop :=
  exists w, w ∈ ws /\ vab w = a /\ voff w <= Z.of_nat i < voff w + vlen w.

(** The array buffer [a] as it was, but for the bytes the views show. *)
Definition kept (ws : list view) (h h' : heap) : Prop :=
  forall a l, mem h !! a = Some l ->
    exists l', mem h' !! a = Some l' /\ length l' = length l /\
      forall i, ~ covered ws a i -> l' !! i = l !! i.

Definition evolves (ws : list view) (h h' : heap) : Prop :=
  store_ok h' /\ (fresh h <= fresh h')%nat /\ kept ws h h'.

(** Views that are among [ws] or on memory that is not in the store yet. *)
Definition within (h : heap) (ws ws' : list view) : Prop :=
  forall w, w ∈ ws' -> w ∈ ws \/ mem h !! vab w = None.

Lemma within_refl h ws : within h ws ws.
Proof. intros w H. left. exact H. Qed.

Lemma kept_refl ws h : kept ws h h.
Proof. intros a l E. exists l. repeat split. exact E. Qed.

Lemma evolves_refl ws h : store_ok h -> evolves ws h h.
Proof. intros H. split; [exact H|]. split; [reflexivity|apply kept_refl]. Qed.

Lemma evolves_trans ws ws' h h1 h2 : within h ws ws' ->
  evolves ws h h1 -> evolves ws' h1 h2 -> evolves ws h h2.
Proof.
  intros W (H1 & F1 & M1) (H2 & F2 & M2). split; [exact H2|]. split; [lia|]. intros a l E.
  destruct (M1 a l E) as (l1 & E1 & L1 & K1). destruct (M2 a l1 E1) as (l2 & E2 & L2 & K2).
  exists l2. split; [exact E2|]. split; [congruence|]. intros i N. rewrite K2, K1; [reflexivity|exact N|].
  intros (w & Hw & Ew & Hi). destruct (W w Hw) as [Hin|Hno].
  - apply N. exists w. split; [exact Hin|]. split; [exact Ew|exact Hi].
  - rewrite Ew in Hno. congruence.
Qed.

Lemma evolves_view ws h h' v : evolves ws h h' -> view_ok h v -> view_ok h' v.
Proof.
  intros (_ & _ & M) (H1 & H2 & H3 & H4 & H5). unfold view_ok, ab_bytes in *.
  destruct (mem h !! vab v) as [l|] eqn:E; [|contradiction]. destruct (M _ _ E) as (l' & E' & L & _).
  rewrite E' in *. cbn [from_option] in *. unfold id in *. rewrite L. repeat (split; [assumption|]). discriminate.
Qed.

Lemma evolves_mono ws ws' h h' : ws ⊆ ws' -> evolves ws h h' -> evolves ws' h h'.
Proof.
  intros I (H1 & F1 & M1). split; [exact H1|]. split; [exact F1|]. intros a l E.
  destruct (M1 a l E) as (l' & E' & L & K). exists l'. split; [exact E'|]. split; [exact L|].
  intros i N. apply K. intros (w & Hw & R). apply N. exists w. split; [apply I, Hw|exact R].
Qed.

(** ** Safe computations *)

Definition safe {A} (ws : list view) (P : A -> heap -> Prop) (m : M A) (h : heap) : Prop :=
  evolves ws h (fst (m h)) /\ (forall a, snd (m h) = Ok a -> P a (fst (m h))).

Abbreviation whatever := (fun _ _ => True).

(** Computations that only look at the store. *)
Definition reads {A} (m : M A) : Prop := forall h, fst (m h) = h.

Lemma safe_weaken {A} ws (P Q : A -> heap -> Prop) m h :
  safe ws P m h -> (forall a h', P a h' -> Q a h') -> safe ws Q m h.
Proof. intros [E R] W. split; [exact E|]. intros a Ha. apply W, R, Ha. Qed.

Lemma safe_ret {A} ws (P : A -> heap -> Prop) a h : store_ok h -> P a h -> safe ws P (ret a) h.
Proof. intros H Ha. split; [apply evolves_refl, H|]. intros b [= <-]. exact Ha. Qed.

Lemma safe_throw {A} ws (P : A -> heap -> Prop) e h : store_ok h -> safe ws P (throw e) h.
Proof. intros H. split; [apply evolves_refl, H|]. discriminate. Qed.

Lemma safe_reads {A} ws (m : M A) h : reads m -> store_ok h -> safe ws whatever m h.
Proof. intros R H. split; [rewrite R; apply evolves_refl, H|easy]. Qed.

(** The continuation may write to memory the first part allocated. *)
Lemma safe_bind_new {A B} ws (P : A -> heap -> Prop) (Q : B -> heap -> Prop) m k h : safe ws P m h ->
  (forall a h', evolves ws h h' -> P a h' -> exists ws', within h ws ws' /\ safe ws' Q (k a) h') ->
  safe ws Q (bind m k) h.
Proof.
  intros [E R] K. unfold safe, bind. destruct (m h) as [h' [a|e]]; cbn in *.
  - destruct (K a h' E (R a eq_refl)) as (ws' & W & E' & R'). split; [|exact R'].
    eapply evolves_trans; eassumption.
  - split; [exact E|discriminate].
Qed.

Lemma safe_bind {A B} ws (P : A -> heap -> Prop) (Q : B -> heap -> Prop) m k h : safe ws P m h ->
  (forall a h', evolves ws h h' -> P a h' -> safe ws Q (k a) h') -> safe ws Q (bind m k) h.
Proof.
  intros S K. eapply safe_bind_new; [exact S|]. intros a h' E H. exists ws.
  split; [apply within_refl|apply K; assumption].
Qed.

Lemma safe_bind_reads {A B} ws (Q : B -> heap -> Prop) (m : M A) k h : reads m -> store_ok h ->
  (forall a, snd (m h) = Ok a -> safe ws Q (k a) h) -> safe ws Q (bind m k) h.
Proof.
  intros R H K. pose proof (R h) as E. unfold safe, bind. destruct (m h) as [h' [a|e]]; cbn in E; subst h'.
  - apply K. reflexivity.
  - split; [apply evolves_refl, H|discriminate].
Qed.

(** *** Looking at the store *)

Lemma reads_ret {A} (a : A) : reads (ret a).
Proof. intros h. reflexivity. Qed.
Lemma reads_throw {A} e : reads (@throw heap exn A e).
Proof. intros h. reflexivity. Qed.
Lemma reads_read {A} (f : heap -> A) : reads (Prelude.read f).
Proof. intros h. reflexivity. Qed.
Lemma reads_lift {A} (r : outcome exn A) : reads (lift r).
Proof. intros h. reflexivity. Qed.
Lemma reads_bind {A B} (m : M A) (k : A -> M B) : reads m -> (forall a, reads (k a)) -> reads (bind m k).
Proof. intros R K h. unfold bind. pose proof (R h). destruct (m h) as [h' [a|e]]; cbn in *; [|assumption]. rewrite K. assumption. Qed.

Create HintDb reads.
#[export] Hint Resolve reads_ret reads_throw reads_read reads_lift : reads.

(** Walk through a definition made of reading steps and case distinctions. *)
Ltac reads_tac :=
  intros; cbv zeta;
  repeat first
    [ solve [auto with reads]
    | apply reads_bind; intros; cbv zeta
    | progress (unfold throw_type, throw_range)
    | match goal with |- reads (match ?x with _ => _ end) => destruct x end ].

Lemma reads_toNum v : reads (toNum v).
Proof. unfold toNum. reads_tac. Qed.
#[export] Hint Resolve reads_toNum : reads.
Lemma reads_toU32 v : reads (toU32 v).
Proof. unfold toU32. reads_tac. Qed.
Lemma reads_get v i : reads (get v i).
Proof. unfold get. reads_tac. Qed.
Lemma reads_getn v i : reads (getn v i).
Proof. unfold getn. reads_tac. Qed.
#[export] Hint Resolve reads_toU32 reads_get reads_getn : reads.
Lemma reads_geti v i : reads (geti v i).
Proof. unfold geti. reads_tac. Qed.
Lemma reads_checkOffset o e l : reads (checkOffset o e l).
Proof. unfold checkOffset. reads_tac. Qed.
Lemma reads_checkInt b v o e mx mn : reads (checkInt b v o e mx mn).
Proof. unfold checkInt. reads_tac. Qed.
Lemma reads_validateNumber v n : reads (validateNumber v n).
Proof. unfold validateNumber. reads_tac. Qed.
Lemma reads_boundsError {A} v l t : reads (@boundsError A v l t).
Proof. unfold boundsError. reads_tac. Qed.
#[export] Hint Resolve reads_geti reads_checkOffset reads_checkInt reads_validateNumber reads_boundsError : reads.
Lemma reads_assert_offset n o e v : reads (assert_offset n o e v).
Proof. unfold assert_offset. reads_tac. Qed.
Lemma reads_assert_int n b v o e mx mn : reads (assert_int n b v o e mx mn).
Proof. unfold assert_int. reads_tac. Qed.
Lemma reads_checkBounds b o n : reads (checkBounds b o n).
Proof. unfold checkBounds. reads_tac. Qed.
#[export] Hint Resolve reads_assert_offset reads_assert_int reads_checkBounds : reads.
Lemma reads_checkIntBI v mn mx b o n : reads (checkIntBI v mn mx b o n).
Proof. unfold checkIntBI. reads_tac. Qed.
Lemma reads_bigint_operand v : reads (bigint_operand v).
Proof. unfold bigint_operand. reads_tac. Qed.
Lemma reads_checked n : reads (checked n).
Proof. unfold checked. reads_tac. Qed.
Lemma reads_assertSize v : reads (assertSize v).
Proof. unfold assertSize. reads_tac. Qed.
Lemma reads_byteLength s e b : reads (BufferCore.byteLength s e b).
Proof. unfold BufferCore.byteLength. reads_tac. Qed.
Lemma reads_isFinite v : reads (js_isFinite v).
Proof. unfold js_isFinite. reads_tac. Qed.
#[export] Hint Resolve reads_checkIntBI reads_bigint_operand reads_checked reads_assertSize reads_byteLength reads_isFinite : reads.
Lemma reads_write_args v o l e : reads (write_args v o l e).
Proof. unfold write_args. reads_tac. Qed.
Lemma reads_fill_args t v s e enc : reads (fill_args t v s e enc).
Proof. unfold fill_args. reads_tac. Qed.
Lemma reads_element_length v : reads (element_length v).
Proof. unfold element_length. reads_tac. Qed.
#[export] Hint Resolve reads_write_args reads_fill_args reads_element_length : reads.
Lemma reads_total_length l : forall acc, reads (total_length l acc).
Proof. induction l; cbn [total_length]; reads_tac. Qed.
#[export] Hint Resolve reads_total_length : reads.

(** *** Writing and allocating *)

Lemma store_ok_new h l : store_ok h -> Forall byte l -> Z.of_nat (length l) <= K_MAX_LENGTH ->
  store_ok (Heap (<[fresh h := l]> (mem h)) (S (fresh h))).
Proof.
  intros [H S] Hb Hl. split; intros a k; cbn [mem fresh]; (destruct (decide (a = fresh h)) as [->|N];
    [rewrite lookup_insert_eq; intros [= <-]|rewrite lookup_insert_ne by congruence; intros E]).
  - split; [exact Hb|lia].
  - destruct (H _ _ E). split; [assumption|lia].
  - exact Hl.
  - apply (S _ _ E).
Qed.

Lemma fresh_unused h : store_ok h -> mem h !! fresh h = None.
Proof. intros [H _]. destruct (mem h !! fresh h) eqn:E; [|reflexivity]. destruct (H _ _ E). lia. Qed.

(** A view object made since [h], and one on memory made since [h]. *)
Definition made (h : heap) (w : view) (h' : heap) : Prop := view_ok h' w /\ (fresh h <= vid w < fresh h')%nat.
Definition on_new (h : heap) (w : view) (h' : heap) : Prop := made h w h' /\ mem h !! vab w = None.

Lemma within_new h w h' ws : on_new h w h' -> within h ws [w].
Proof. intros [_ N] w' H. apply list_elem_of_singleton in H as ->. right. exact N. Qed.

Lemma store_ok_fresh h n : store_ok h -> (fresh h <= n)%nat -> store_ok (Heap (mem h) n).
Proof.
  intros [H S] Hn. split; [|exact S]. intros a l E. destruct (H a l E) as [Hb Hf]. split; [exact Hb|]. cbn. lia.
Qed.

Lemma evolves_fresh ws h n : store_ok h -> (fresh h <= n)%nat -> evolves ws h (Heap (mem h) n).
Proof. intros H Hn. split; [apply store_ok_fresh; assumption|]. split; [exact Hn|]. apply (kept_refl ws h). Qed.

Lemma evolves_new_ab ws h l : store_ok h -> Forall byte l -> Z.of_nat (length l) <= K_MAX_LENGTH ->
  evolves ws h (Heap (<[fresh h := l]> (mem h)) (S (fresh h))).
Proof.
  intros H Hb Hl. split; [apply store_ok_new; assumption|]. split; [cbn; lia|]. intros a k E. exists k.
  repeat split. cbn. rewrite lookup_insert_ne; [exact E|]. pose proof (fresh_unused h H). congruence.
Qed.

Lemma safe_new_buffer ws isbuf l h : store_ok h -> Forall byte l -> Z.of_nat (length l) <= K_MAX_LENGTH ->
  safe ws (on_new h) (new_buffer isbuf l) h.
Proof.
  intros H Hb Hl. pose proof (evolves_new_ab ws h l H Hb Hl) as E. unfold new_buffer, new_ab, new_view, bind, safe.
  cbn [fst snd fresh mem]. split.
  - eapply evolves_trans; [apply within_refl|exact E|]. apply evolves_fresh; [apply E|cbn; lia].
  - intros w [= <-]. split; [|apply fresh_unused, H]. split; [|cbn; lia]. unfold view_ok, ab_bytes. cbn [vab voff vlen mem].
    rewrite lookup_insert_eq. cbn [from_option]. unfold id, K_MAX_LENGTH in *. repeat split; try lia. discriminate.
Qed.

(** A new view on an array buffer of the store. *)
Lemma safe_new_view ws (P : view -> heap -> Prop) isbuf a off len h : store_ok h ->
  (forall w h', vab w = a -> voff w = off -> vlen w = len -> mem h' = mem h ->
     (fresh h <= vid w < fresh h')%nat -> P w h') ->
  safe ws P (new_view isbuf a off len) h.
Proof.
  intros H K. split; [apply evolves_fresh; [exact H|lia]|]. intros w [= <-]. apply K; try reflexivity. cbn. lia.
Qed.

(** Bytes stored inside a view. *)
Lemma evolves_store ws v i l h : store_ok h -> view_ok h v -> v ∈ ws -> Forall byte l ->
  0 <= i -> i + Z.of_nat (length l) <= vlen v -> evolves ws h (store h v i l).
Proof.
  intros [H S] Hv Hin Hb H0 Hl. pose proof Hv as (O & _). split; [|split; [reflexivity|]].
  - split; [apply heap_ok_store; assumption|]. intros a k E.
    pose proof (length_ab_store h v i l a) as L. unfold ab_bytes in L at 1. rewrite E in L. cbn in L.
    unfold ab_bytes in L. destruct (mem h !! a) as [k0|] eqn:E0; cbn in L.
    + rewrite L. apply (S _ _ E0).
    + rewrite L. unfold K_MAX_LENGTH. cbn. lia.
  - intros a k E. exists (ab_bytes (store h v i l) a). split; [|split].
    + unfold store, ab_bytes. cbn [mem]. destruct (decide (a = vab v)) as [->|N].
      * rewrite lookup_insert_eq. reflexivity.
      * rewrite lookup_insert_ne by congruence. rewrite E. reflexivity.
    + rewrite length_ab_store. unfold ab_bytes. rewrite E. reflexivity.
    + intros j N. rewrite ab_bytes_store. destruct (decide (a = vab v)) as [->|Ne].
      2: { unfold ab_bytes. rewrite E. reflexivity. }
      replace k with (ab_bytes h (vab v)) by (unfold ab_bytes; rewrite E; reflexivity).
      destruct (decide (j < Z.to_nat (voff v + i))%nat); [apply list_lookup_inserts_lt; assumption|].
      destruct (decide (j < Z.to_nat (voff v + i) + length l)%nat); [|apply list_lookup_inserts_ge; lia].
      exfalso. apply N. exists v. split; [exact Hin|]. split; [reflexivity|lia].
Qed.

Lemma safe_put ws v i n h : store_ok h -> view_ok h v -> v ∈ ws -> safe ws whatever (put v i n) h.
Proof.
  intros H Hv Hin. unfold put, modify, safe. cbn [fst snd]. split; [|easy].
  destruct ((0 <=? i) && (i <? vlen v)) eqn:E; [|apply evolves_refl, H].
  apply andb_true_iff in E as [E1 E2]. apply Z.leb_le in E1. apply Z.ltb_lt in E2.
  apply evolves_store; try assumption; [|cbn; lia].
  constructor; [|constructor]. unfold byte, ToUint8. apply Z.mod_pos_bound. lia.
Qed.

(** *** Automation *)

Create HintDb safe.
#[export] Hint Resolve safe_ret safe_throw safe_put list_elem_of_here : safe.
#[export] Hint Extern 1 (_ ∈ _) => solve [set_solver] : safe.

(** Continue in the state [h'] of [E : evolves ws h h']. *)
Ltac move_on E :=
  match type of E with
  | evolves _ ?h ?h' =>
      assert (store_ok h') by apply E;
      repeat match goal with H : view_ok h ?v |- _ => apply (evolves_view _ _ _ _ E) in H end
  end.

Ltac safe_step :=
  match goal with
  | |- safe _ _ (bind ?m _) ?h =>
      first
        [ apply safe_bind_reads; [solve [auto with reads] | assumption | intros ? _; cbv zeta]
        | eapply safe_bind;
          [solve [eauto with safe]
          | let a := fresh "a" in let h' := fresh "h" in let E := fresh "E" in let R := fresh "R" in
            intros a h' E R; move_on E; clear E; cbv zeta] ]
  | |- safe _ whatever ?m _ => apply safe_reads; [solve [auto with reads]|assumption]
  | |- safe _ _ (match ?x with _ => _ end) _ => destruct x
  | |- safe _ _ (let '(_, _) := ?x in _) _ => destruct x
  end.

Ltac safe_tac :=
  cbv zeta; unfold throw_type, throw_range;
  repeat first [solve [eauto with safe] | safe_step; unfold throw_type, throw_range].

(** *** Strings into a view *)

Lemma safe_for_each ws body l : (forall i h, store_ok h -> Forall (view_ok h) ws -> safe ws whatever (body i) h) ->
  forall h, store_ok h -> Forall (view_ok h) ws -> safe ws whatever (for_each l body) h.
Proof.
  intros B. induction l as [|i l IH]; intros h H V; cbn [for_each]; [apply safe_ret; easy|].
  eapply safe_bind; [apply B; assumption|]. intros _ h' E _. apply IH; [apply E|].
  eapply Forall_impl; [exact V|]. intros v. apply evolves_view with (1 := E).
Qed.

Lemma safe_blit_loop n src dst offset : forall i h, store_ok h -> view_ok h dst ->
  safe [dst] whatever (blit_loop n i src dst offset) h.
Proof. induction n as [|n IH]; intros i h H V; cbn [blit_loop]; safe_tac. Qed.
#[export] Hint Resolve safe_blit_loop : safe.

Lemma safe_hex_loop n buf s offset : forall i h, store_ok h -> view_ok h buf ->
  safe [buf] whatever (hex_loop n i buf s offset) h.
Proof. induction n as [|n IH]; intros i h H V; cbn [hex_loop]; safe_tac. Qed.
#[export] Hint Resolve safe_hex_loop : safe.

Lemma safe_write this s offset length encoding h : store_ok h -> view_ok h this ->
  safe [this] whatever (BufferCore.write this s offset length encoding) h.
Proof.
  intros H V. unfold BufferCore.write, hexWrite, utf8Write, asciiWrite, base64Write, ucs2Write, blitBuffer. safe_tac.
Qed.
#[export] Hint Resolve safe_write : safe.

Lemma safe_fill_elements buf l : forall i h, store_ok h -> view_ok h buf ->
  safe [buf] whatever (fill_elements buf i l) h.
Proof. induction l as [|v l IH]; intros i h H V; cbn [fill_elements]; safe_tac. Qed.
#[export] Hint Resolve safe_fill_elements : safe.

(** *** Slices and copies *)

Definition inside (this w : view) : Prop :=
  vab w = vab this /\ voff this <= voff w /\ voff w + vlen w <= voff this + vlen this.

Lemma safe_slice ws this s e h : store_ok h -> view_ok h this ->
  safe ws (fun w h' => made h w h' /\ inside this w) (slice this s e) h.
Proof.
  intros H V. unfold slice. cbv zeta. safe_step.
  apply safe_bind_reads; [destruct e; reads_tac|exact H|intros b _; cbv zeta].
  apply safe_new_view; [exact H|]. intros w h' Ea Eo El Em Ef.
  destruct V as (V1 & V2 & V3 & V4 & V5). unfold inside, made, view_ok, ab_bytes. rewrite Ea, Eo, El, Em.
  unfold ab_bytes in V3. remember (ToInt32 a) as i eqn:Ei. clear Ei.
  repeat match goal with |- context [if ?b <? ?c then _ else _] => destruct (Z.ltb_spec b c) end;
    repeat split; (assumption || lia).
Qed.
#[export] Hint Resolve safe_slice : safe.

Lemma flt_zero_to_integer n : flt n (of_Z 0) = false -> 0 <= to_integer n.
Proof.
  unfold flt, SFltb. destruct n as [s|s| |s m e]; cbn; try lia. destruct s; [discriminate|]. intros _.
  destruct (Z.leb_spec 0 e); [|apply Z.div_pos; [lia|apply Z.pow_pos_nonneg; lia]].
  apply Z.mul_nonneg_nonneg; [lia|]. apply Z.pow_nonneg. lia.
Qed.

Lemma rel_index_range n len : 0 <= len -> 0 <= rel_index n len <= len.
Proof.
  intros H. unfold rel_index. destruct n as [s|[]| |s m e]; cbv beta iota zeta; try lia;
    repeat match goal with |- context [if ?b <? ?c then _ else _] => destruct (Z.ltb_spec b c) end; try lia.
Qed.

Lemma Forall_byte_sub (P : list Z -> list Z) h v i j : heap_ok h ->
  Forall byte (take i (drop j (bytes h v))).
Proof. intros H. apply Forall_take, Forall_drop, heap_ok_bytes, H. Qed.

Lemma safe_move_bytes this target same t s e h : store_ok h -> view_ok h this -> view_ok h target ->
  (same = true -> vlen target = vlen this) -> 0 <= to_integer t ->
  safe [target] whatever (move_bytes this target same t s e) h.
Proof.
  intros H V W S T. unfold move_bytes, safe. split; [|easy]. pose proof V as (_ & V2 & _).
  pose proof (rel_index_range t (vlen this) V2) as Rt. destruct H as [H HS].
  destruct same; cbn [fst].
  - apply evolves_store; [split; assumption|exact W|apply list_elem_of_here| |lia|].
    + apply Forall_take, (Forall_byte_sub (fun l => l)), H.
    + rewrite length_take, S by reflexivity. lia.
  - match goal with |- context [if ?b <? ?c then _ else _] => destruct (Z.ltb_spec b c) end; cbn [fst].
    + apply evolves_refl. split; assumption.
    + apply evolves_store; [split; assumption|exact W|apply list_elem_of_here| |exact T|lia].
      apply (Forall_byte_sub (fun l => l)), H.
Qed.

Lemma safe_copy this tgt t s e h : store_ok h -> view_ok h this -> view_ok h tgt ->
  (vid this = vid tgt -> vlen tgt = vlen this) -> safe [tgt] whatever (copy this (VView tgt) t s e) h.
Proof.
  intros H V W S. unfold copy. cbv zeta.
  set (t' := if js_le _ t then _ else t). set (t'' := if truthy t' then t' else _).
  set (s' := if truthy s then s else _). set (e' := if negb (truthy e) && _ then _ else e).
  generalize (if js_lt (Num (of_Z 0)) e' && js_lt e' s' then s' else e'). intros e''. clear e'. clearbody s'.
  destruct (negb (vbuffer tgt)); [apply safe_throw, H|]. destruct (strict_eq _ _); [apply safe_ret; easy|].
  destruct ((vlen tgt =? 0) || _); [apply safe_ret; easy|].
  destruct (js_lt t'' (Num (of_Z 0))) eqn:T; [apply safe_throw, H|].
  destruct (js_lt s' _ || _); [apply safe_throw, H|]. destruct (js_lt e'' _); [apply safe_throw, H|].
  apply safe_bind_reads; [auto with reads|exact H|intros ns _].
  apply safe_bind_reads; [auto with reads|exact H|intros ne _].
  apply safe_bind_reads; [auto with reads|exact H|intros nt Ht; cbv zeta].
  assert (0 <= to_integer nt).
  { apply flt_zero_to_integer. clearbody t''. destruct t''; cbn in Ht, T; inversion Ht; subst; try assumption; reflexivity. }
  eapply safe_bind; [apply safe_move_bytes; try assumption; intros B; apply S, Nat.eqb_eq, B|].
  intros _ h' E _. apply safe_ret; [apply E|easy].
Qed.

(** *** Allocation *)

Lemma safe_createBuffer ws n h : store_ok h -> safe ws (on_new h) (createBuffer n) h.
Proof.
  intros H. unfold createBuffer. destruct (flt _ _); [apply safe_throw, H|].
  destruct (Z.ltb_spec (to_integer n) 0); [apply safe_throw, H|].
  destruct (Z.ltb_spec K_MAX_LENGTH (to_integer n)); [apply safe_throw, H|]. cbn [orb].
  apply safe_new_buffer; [exact H| |rewrite length_replicate; lia].
  apply Forall_replicate. unfold byte. lia.
Qed.
#[export] Hint Resolve safe_createBuffer : safe.

Lemma safe_allocUnsafe ws n h : store_ok h -> safe ws (on_new h) (allocUnsafe n) h.
Proof. intros H. unfold allocUnsafe. safe_tac. Qed.
#[export] Hint Resolve safe_allocUnsafe : safe.

Lemma made_on_new h w h' : on_new h w h' -> made h w h'.
Proof. intros [M _]. exact M. Qed.

Lemma made_evolves h h1 h2 w : (fresh h <= fresh h1)%nat -> made h1 w h2 -> made h w h2.
Proof. intros F [V I]. split; [exact V|lia]. Qed.

Lemma made_later ws h w h1 h2 : made h w h1 -> evolves ws h1 h2 -> made h w h2.
Proof. intros [V I] E. split; [eapply evolves_view; eassumption|]. destruct E as (_ & F & _). lia. Qed.

(** Allocate, fill the new memory, answer it. *)
Lemma safe_make {A} ws (m : M view) (k : view -> M A) h : safe ws (on_new h) m h ->
  (forall w h', store_ok h' -> view_ok h' w -> safe [w] whatever (k w) h') ->
  safe ws (made h) (let! w := m in do! k w in ret w) h.
Proof.
  intros S K. eapply safe_bind_new; [exact S|]. intros w h' E N. exists [w].
  split; [eapply within_new, N|]. destruct N as [M N].
  eapply safe_bind; [apply K; [apply E|apply M]|]. intros _ h2 E2 _. apply safe_ret; [apply E2|].
  eapply made_later; eassumption.
Qed.

Lemma safe_fromArrayLike ws v h : store_ok h -> safe ws (made h) (fromArrayLike v) h.
Proof.
  intros H. unfold fromArrayLike. apply safe_bind_reads; [reads_tac|exact H|intros n _].
  apply safe_make; [apply safe_createBuffer, H|]. intros w h' H' V. apply safe_fill_elements; assumption.
Qed.

(** What an argument refers to: views that lie in their memory and array
    buffers of the store; [n] bounds the identities of the objects. *)
Fixpoint val_ok (h : heap) (v : val) : Prop :=
  match v with
  | VView w => view_ok h w /\ (vid w < fresh h)%nat
  | VArrayBuffer a => mem h !! a <> None
  | VArray l => (fix all l := match l with [] => True | v :: l => val_ok h v /\ all l end) l
  | VObj _ o p => match o with Some v => val_ok h v | None => True end /\ match p with Some v => val_ok h v | None => True end
  | _ => True
  end.

Lemma safe_new_uint8array ws v o l h : store_ok h -> (forall a, v = VArrayBuffer a -> mem h !! a <> None) ->
  0 <= to_integer o -> safe ws (made h) (new_uint8array v o l) h.
Proof.
  intros H V O. unfold new_uint8array. destruct v as [| | | | | | |a| | |]; cbv zeta.
  8: { specialize (V a eq_refl). destruct H as [H S].
    assert (L : Z.of_nat (length (ab_bytes h a)) <= K_MAX_LENGTH).
    { unfold ab_bytes. destruct (mem h !! a) eqn:E; [apply (S _ _ E)|contradiction]. }
    apply safe_bind_reads; [auto with reads|split; assumption|]. intros n [= <-]. cbv zeta.
    assert (K : forall off len isbuf, 0 <= off -> 0 <= len -> off + len <= Z.of_nat (length (ab_bytes h a)) ->
                safe ws (made h) (new_view isbuf a off len) h).
    { intros off len isbuf H1 H2 H3. apply safe_new_view; [split; assumption|].
      intros w h' Ea Eo El Em Ef. split; [|exact Ef]. unfold view_ok, ab_bytes. rewrite Ea, Eo, El, Em.
      unfold K_MAX_LENGTH, ab_bytes in *. repeat split; (lia || assumption). }
    destruct l.
    1: { destruct (Z.ltb_spec (Z.of_nat (length (ab_bytes h a))) (to_integer o)); [apply safe_throw; split; assumption|].
         apply K; lia. }
    all: apply safe_bind_reads; [auto with reads|split; assumption|]; intros x _; cbv zeta;
      destruct (Z.ltb_spec (to_integer x) 0); [apply safe_throw; split; assumption|];
      destruct (Z.ltb_spec (Z.of_nat (length (ab_bytes h a))) (to_integer o + to_integer x)); [apply safe_throw; split; assumption|];
      apply K; lia. }
  all: match goal with |- context [K_MAX_LENGTH <? ?n] => destruct (Z.ltb_spec K_MAX_LENGTH n) end; [apply safe_throw, H|];
    apply safe_make; [apply safe_new_buffer; [exact H|apply Forall_replicate; unfold byte; lia|rewrite length_replicate; lia]|];
    intros w h' H' W; apply safe_fill_elements; assumption.
Qed.

Lemma safe_fromArrayBuffer ws v o l h : store_ok h -> (forall a, v = VArrayBuffer a -> mem h !! a <> None) ->
  safe ws (made h) (fromArrayBuffer v o l) h.
Proof.
  intros H V. unfold fromArrayBuffer. apply safe_bind_reads; [destruct v; auto with reads|exact H|intros bl _].
  destruct (js_lt o (Num (of_Z 0))) eqn:O; [apply safe_throw, H|]. cbn [orb].
  destruct (js_lt bl o); [apply safe_throw, H|].
  apply safe_bind_reads; [auto with reads|exact H|intros no Ho].
  apply safe_bind_reads; [reads_tac|exact H|intros nl _].
  destruct (js_lt bl (Num (fadd no nl))); [apply safe_throw, H|]. apply safe_new_uint8array; [exact H|exact V|].
  apply flt_zero_to_integer. destruct o; cbn in Ho, O; inversion Ho; subst; try assumption; reflexivity.
Qed.

(** A result made from memory that is new anyway. *)
Lemma safe_then {A B} ws (P : A -> heap -> Prop) (Q R : B -> heap -> Prop) m k h : safe ws P m h ->
  (forall a h', evolves ws h h' -> P a h' -> safe ws Q (k a) h') ->
  (forall h' b h'', evolves ws h h' -> Q b h'' -> R b h'') -> safe ws R (bind m k) h.
Proof.
  intros S K W. eapply safe_bind; [exact S|]. intros a h' E Ha. eapply safe_weaken; [apply K; assumption|].
  intros b h''. apply W with (1 := E).
Qed.

Lemma evolves_fresh_le ws h h' : evolves ws h h' -> (fresh h <= fresh h')%nat.
Proof. intros (_ & F & _). exact F. Qed.

Lemma safe_fromArrayView ws v h : store_ok h -> val_ok h v -> safe ws (made h) (fromArrayView v) h.
Proof.
  intros H V. unfold fromArrayView. destruct v; try apply safe_fromArrayLike, H.
  apply safe_bind_reads; [auto with reads|exact H|]. intros l [= <-]. destruct V as [V _].
  assert (L : Z.of_nat (length (bytes h v)) <= K_MAX_LENGTH).
  { unfold bytes, ab_bytes. rewrite length_take, length_drop. destruct (mem h !! vab v) eqn:E; cbn.
    - destruct H as [_ S]. pose proof (S _ _ E). lia.
    - unfold K_MAX_LENGTH. lia. }
  eapply safe_bind; [apply safe_new_buffer; [exact H|apply heap_ok_bytes, H|exact L]|].
  intros w h' E [M _]. eapply safe_weaken; [apply safe_fromArrayBuffer; [apply E|]|].
  - intros a [= <-]. apply M.
  - intros w' h''. apply made_evolves, (evolves_fresh_le _ _ _ E).
Qed.

Lemma safe_fromString ws s e h : store_ok h -> safe ws (made h) (fromString s e) h.
Proof.
  intros H. unfold fromString. cbv zeta. generalize (match e with Str (_ :: _) => e | _ => Str (js "utf8") end).
  intros enc. destruct (negb _); [apply safe_throw, H|].
  apply safe_bind_reads; [auto with reads|exact H|intros n _; cbv zeta].
  eapply safe_bind_new; [apply safe_createBuffer, H|]. intros w h1 E1 N. exists [w].
  split; [eapply within_new, N|]. destruct N as [M N].
  eapply safe_bind; [apply safe_write; [apply E1|apply M]|]. intros x h2 E2 _.
  pose proof (made_later _ _ _ _ _ M E2) as M2. destruct (x =? sint32 n); [apply safe_ret; [apply E2|exact M2]|].
  eapply safe_weaken; [apply safe_slice; [apply E2|apply M2]|]. intros w' h' [M' _].
  eapply made_evolves; [|exact M']. pose proof (evolves_fresh_le _ _ _ E1). pose proof (evolves_fresh_le _ _ _ E2). lia.
Qed.

Definition made_opt (h : heap) (o : option view) (h' : heap) : Prop :=
  match o with Some w => made h w h' | None => True end.

Lemma safe_some ws m h : safe ws (made h) m h -> safe ws (made_opt h) (let! b := m in ret (Some b)) h.
Proof. intros S. eapply safe_bind; [exact S|]. intros w h' E M. apply safe_ret; [apply E|exact M]. Qed.

Lemma safe_fromObject ws v h : store_ok h -> val_ok h v -> safe ws (made_opt h) (fromObject v) h.
Proof.
  intros H V. unfold fromObject. destruct (isBuffer v).
  - destruct v; try (apply safe_ret; easy). destruct V as [V I].
    apply safe_bind_reads; [auto with reads|exact H|intros n Hn].
    eapply safe_bind_new; [apply safe_createBuffer, H|]. intros w h1 E1 N. exists [w].
    split; [eapply within_new, N|]. destruct N as [M N].
    destruct (vlen w =? 0); [apply safe_ret; [apply E1|exact M]|].
    eapply safe_bind; [apply safe_copy; [apply E1|eapply evolves_view; [exact E1|exact V]|apply M|]|].
    + intros Ev. destruct M as [_ M]. lia.
    + intros x h2 E2 _. apply safe_ret; [apply E2|]. eapply made_later; eassumption.
  - destruct (length_of v); try (apply safe_some, safe_weaken with (P := on_new h);
      [apply safe_createBuffer, H|intros; apply made_on_new; assumption]).
    + destruct v; try (apply safe_ret; easy). destruct (prop props "type"); try (apply safe_ret; easy).
      destruct (prop props "data"); try (apply safe_ret; easy).
      destruct (str_eqb _ _); [|apply safe_ret; easy]. apply safe_some, safe_fromArrayLike, H.
    + destruct (is_nan n); apply safe_some; [|apply safe_fromArrayLike, H].
      eapply safe_weaken; [apply safe_createBuffer, H|]. intros; apply made_on_new; assumption.
Qed.

Lemma val_ok_evolves ws h h' v : evolves ws h h' -> val_ok h v -> val_ok h' v.
Proof.
  intros E. revert v. fix IH 1. intros v. destruct v; cbn; try easy.
  - intros [V I]. split; [eapply evolves_view; eassumption|]. pose proof (evolves_fresh_le _ _ _ E). lia.
  - intros N. destruct E as (_ & _ & M). destruct (mem h !! a) eqn:Ea; [|contradiction].
    destruct (M _ _ Ea) as (l' & -> & _). discriminate.
  - induction l as [|v l IHl]; [easy|]. intros [V L]. split; [apply IH, V|apply IHl, L].
  - destruct valueOf as [o|], toPrimitive as [p|]; intros [V W]; split; try (apply IH; assumption); exact I.
Qed.

Lemma safe_from ws v : forall e l h, store_ok h -> val_ok h v -> safe ws (made h) (from v e l) h.
Proof.
  revert v. fix IH 1. intros v e l h H V.
  destruct v as [| | | | |s|w|a|sz t|vs|props vo tp]; cbn [from];
    try (apply safe_throw, H); try (apply safe_fromString, H); try (apply safe_fromArrayView; assumption).
  - apply safe_fromArrayBuffer; [exact H|]. intros b [= <-]. exact V.
  - eapply safe_bind; [apply safe_fromObject; assumption|]. intros [b|] h' E M; [apply safe_ret; [apply E|exact M]|].
    apply safe_throw, E.
  - assert (T : safe ws (made h) (let! b := fromObject (VObj props vo tp) in
        match b with
        | Some b => ret b
        | None => match tp with Some p => from p e l | None => throw_type (from_type_error (VObj props vo tp)) end
        end) h).
    { eapply safe_bind; [apply safe_fromObject; assumption|].
      intros [b|] h' E M; [apply safe_ret; [apply E|exact M]|]. destruct tp as [p|]; [|apply safe_throw, E].
      eapply safe_weaken; [apply IH; [apply E|]|].
      - eapply val_ok_evolves; [exact E|]. destruct vo; apply V.
      - intros w h''. apply made_evolves, (evolves_fresh_le _ _ _ E). }
    assert (O : match vo with Some v' => safe ws (made h) (from v' e l) h | None => True end).
    { destruct vo as [v'|]; [|exact I]. destruct V as [V _]. apply IH; assumption. }
    destruct (prop props "buffer"); try (destruct vo as [[]|]; first [exact T|exact O]).
    apply safe_fromArrayBuffer; [exact H|discriminate].
Qed.

Lemma safe_Buffer ws v e l h : store_ok h -> val_ok h v -> safe ws (made h) (Buffer v e l) h.
Proof.
  intros H V. unfold Buffer. destruct v; try (apply safe_from; assumption).
  destruct (is_string e); [apply safe_throw, H|].
  eapply safe_weaken; [apply safe_allocUnsafe, H|]. intros w h'. apply made_on_new.
Qed.

(** *** Filling *)

(** What is left of the value after the cases on its type. *)
Lemma fill_args_val this v s e enc h a : snd (fill_args this v s e enc h) = Ok a -> val_ok h v ->
  val_ok h (fst (fst (fst a))).
Proof.
  unfold fill_args. destruct v; cbn; try (intros [= <-]; easy).
  intros E _. repeat match type of E with snd ((match ?x with _ => _ end) h) = _ => destruct x; try discriminate
    | snd ((let '(_, _) := ?x in _) h) = _ => destruct x end.
  all: cbn in E; try discriminate; injection E as <-; cbn;
    repeat match goal with |- val_ok _ (match ?x with _ => _ end) => destruct x end; exact I.
Qed.

Lemma safe_fill this v s e enc h : store_ok h -> view_ok h this -> val_ok h v ->
  safe [this] (fun w _ => w = this) (fill this v s e enc) h.
Proof.
  intros H V Vv. unfold fill. apply safe_bind_reads; [auto with reads|exact H|]. intros [[[v' s'] e'] enc'] A.
  pose proof (fill_args_val _ _ _ _ _ _ _ A Vv) as Vv'. cbn in Vv'. cbv zeta. clear A Vv v.
  destruct (js_lt s' _ || _ || _); [apply safe_throw, H|]. destruct (js_le e' s'); [apply safe_ret; easy|].
  apply safe_bind_reads; [auto with reads|exact H|intros ns _].
  apply safe_bind_reads; [reads_tac|exact H|intros ne _].
  assert (P : forall msg w h', evolves [this] h h' -> view_ok h' w ->
      safe [this] (fun w _ => w = this)
        (if vlen w =? 0 then throw_type msg
         else do! fill_with this ns ne w in ret this) h').
  { intros msg w h' E W. destruct (vlen w =? 0); [apply safe_throw, E|]. unfold fill_with.
    eapply safe_bind; [apply safe_for_each; [|apply E|]|].
    - intros i h2 H2 F. inversion F; subst. safe_tac.
    - constructor; [eapply evolves_view; eassumption|constructor].
    - intros _ h2 E2 _. apply safe_ret; [apply E2|reflexivity]. }
  assert (Q : forall msg x, val_ok h x -> safe [this] (fun w _ => w = this)
       (let! src := match x with VView w => if vbuffer w then ret w else from x enc' Undefined | _ => from x enc' Undefined end in
        if vlen src =? 0 then throw_type msg
        else do! fill_with this ns ne src in ret this) h).
  { intros msg x Vx. apply safe_bind with (P := fun w h' => view_ok h' w); [|intros w h' E W; apply P; assumption].
    assert (F : safe [this] (fun w h' => view_ok h' w) (from x enc' Undefined) h).
    { eapply safe_weaken; [apply safe_from; assumption|]. intros w h' [M _]. exact M. }
    destruct x; try exact F. destruct (vbuffer v); [|exact F]. apply safe_ret; [exact H|apply Vx]. }
  assert (N : forall n, safe [this] (fun w _ => w = this) (do! for_each (indices ns ne 1) (fun i => put this i n) in ret this) h).
  { intros n. eapply safe_bind; [apply safe_for_each; [|exact H|constructor; [exact V|constructor]]|].
    - intros i h2 H2 F. inversion F; subst. safe_tac.
    - intros _ h2 E2 _. apply safe_ret; [apply E2|reflexivity]. }
  destruct (truthy v'); [|apply N]. destruct v'; first [apply N | match type of Vv' with val_ok _ ?x => apply (Q _ x Vv') end].
Qed.

Lemma safe_alloc ws n v enc h : store_ok h -> val_ok h v -> safe ws (made h) (alloc n v enc) h.
Proof.
  intros H V. unfold alloc. apply safe_bind_reads; [auto with reads|exact H|intros _ _].
  apply safe_bind_reads; [auto with reads|exact H|intros x _].
  assert (C : safe ws (on_new h) (createBuffer x) h) by apply safe_createBuffer, H.
  destruct (fle x _); [eapply safe_weaken; [exact C|intros w h'; apply made_on_new]|].
  eapply safe_bind_new; [exact C|]. intros w h1 E1 N. exists [w]. split; [eapply within_new, N|]. destruct N as [M N].
  assert (F : safe [w] (made h) (fill w v (if is_string enc then enc else Undefined) Undefined Undefined) h1).
  { pose proof (safe_fill w v (if is_string enc then enc else Undefined) Undefined Undefined h1
      (proj1 E1) (proj1 M) (val_ok_evolves _ _ _ _ E1 V)) as [E2 R]. split; [exact E2|].
    intros w' Hw. rewrite (R w' Hw). eapply made_later; eassumption. }
  destruct v; try exact F. apply safe_ret; [apply E1|exact M].
Qed.

Lemma safe_SlowBuffer ws v h : store_ok h -> safe ws (made h) (SlowBuffer v) h.
Proof.
  intros H. unfold SlowBuffer. apply safe_bind_reads; [auto with reads|exact H|intros n _; cbv zeta].
  apply safe_alloc; [exact H|exact I].
Qed.

(** *** Concatenation *)

Definition all_ok (h : heap) (l : list val) : Prop := Forall (val_ok h) l.

Lemma val_ok_array h l : val_ok h (VArray l) <-> all_ok h l.
Proof.
  induction l as [|v l IH]; cbn in *; [split; [constructor|easy]|]. rewrite IH. unfold all_ok. rewrite Forall_cons. reflexivity.
Qed.

Lemma all_ok_evolves ws h h' l : evolves ws h h' -> all_ok h l -> all_ok h' l.
Proof. intros E F. eapply Forall_impl; [exact F|]. intros v. apply val_ok_evolves with (1 := E). Qed.

Lemma safe_concat_loop buffer l : forall pos h, store_ok h -> view_ok h buffer ->
  Forall (fun v => match v with VView w => view_ok h w /\ (vid w < vid buffer)%nat | _ => True end) l -> 0 <= pos ->
  (vid buffer < fresh h)%nat -> safe [buffer] whatever (concat_loop l buffer pos) h.
Proof.
  induction l as [|v l IH]; intros pos h H V F P B; cbn [concat_loop]; [apply safe_ret; easy|].
  inversion F as [|? ? W F']; subst. destruct v; try (apply safe_throw, H). destruct W as [W I].
  assert (K : forall h', evolves [buffer] h h' -> safe [buffer] whatever (concat_loop l buffer (pos + vlen v)) h').
  { intros h' E. apply IH; [apply E|eapply evolves_view; eassumption| |pose proof W as (_ & ? & _); lia
      |pose proof (evolves_fresh_le _ _ _ E); lia].
    eapply Forall_impl; [exact F'|]. intros x. destruct x; try easy. intros [X Y].
    split; [eapply evolves_view; eassumption|exact Y]. }
  eapply safe_bind with (P := whatever); [|intros _ h' E _; apply K, E].
  destruct (Z.ltb_spec (vlen buffer) (pos + vlen v)).
  - apply safe_bind with (P := fun w h' => view_ok h' w /\ (vid w = vid buffer -> vlen buffer = vlen w)).
    + destruct (vbuffer v); [apply safe_ret; [exact H|split; [exact W|lia]]|].
      eapply safe_weaken; [apply safe_fromArrayBuffer; [exact H|intros a [= <-]; apply W]|].
      intros w h' [Wo I']. split; [exact Wo|]. lia.
    + intros w h' E [Wo I']. eapply safe_bind; [apply safe_copy; [apply E|exact Wo|eapply evolves_view; eassumption|exact I']|].
      intros _ h2 E2 _. apply safe_ret; [apply E2|easy].
  - unfold safe. cbn [fst snd]. split; [|easy]. apply evolves_store; try assumption; [apply list_elem_of_here|apply heap_ok_bytes, H|].
    rewrite length_bytes by exact W. lia.
Qed.

Lemma safe_concat ws l n h : store_ok h -> val_ok h l -> safe ws (made h) (BufferOps.concat l n) h.
Proof.
  intros H V. unfold BufferOps.concat. destruct l as [| | | | | | | | |l|]; try (apply safe_throw, H).
  destruct l as [|v l]; [apply safe_alloc; [exact H|exact I]|]. apply val_ok_array in V. generalize dependent (v :: l).
  clear v l. intros l V. apply safe_bind_reads; [reads_tac|exact H|intros len _].
  eapply safe_bind_new; [apply safe_allocUnsafe, H|]. intros w h1 E1 N. exists [w].
  split; [eapply within_new, N|]. destruct N as [M N].
  eapply safe_bind; [apply safe_concat_loop; [apply E1|apply M| |lia|apply M]|].
  - eapply Forall_impl; [exact V|]. intros x. destruct x; try easy. intros [X Y].
    split; [eapply evolves_view; eassumption|]. destruct M as [_ M]. lia.
  - intros _ h2 E2 _. apply safe_ret; [apply E2|]. eapply made_later; eassumption.
Qed.

(** *** Numbers into a view *)

Lemma safe_write_le_loop n this value offset : forall i mul h, store_ok h -> view_ok h this ->
  safe [this] whatever (write_le_loop n this value offset i mul) h.
Proof. induction n as [|n IH]; intros; cbn [write_le_loop]; safe_tac. Qed.
Lemma safe_write_be_loop n this value offset : forall mul h, store_ok h -> view_ok h this ->
  safe [this] whatever (write_be_loop n this value offset mul) h.
Proof. induction n as [|n IH]; intros; cbn [write_be_loop]; safe_tac. Qed.
Lemma safe_write_int_le_loop n this value offset : forall i mul sub h, store_ok h -> view_ok h this ->
  safe [this] whatever (write_int_le_loop n this value offset i mul sub) h.
Proof. induction n as [|n IH]; intros; cbn [write_int_le_loop]; safe_tac. Qed.
Lemma safe_write_int_be_loop n this value offset : forall mul sub h, store_ok h -> view_ok h this ->
  safe [this] whatever (write_int_be_loop n this value offset mul sub) h.
Proof. induction n as [|n IH]; intros; cbn [write_int_be_loop]; safe_tac. Qed.
#[export] Hint Resolve safe_write_le_loop safe_write_be_loop safe_write_int_le_loop safe_write_int_be_loop : safe.

Lemma safe_write_method a this value offset noAssert h : store_ok h -> view_ok h this ->
  safe [this] whatever (write_method a this value offset noAssert) h.
Proof.
  intros H V. unfold write_method, writeUInt8, writeInt8, writeUInt16LE, writeUInt16BE, writeInt16LE, writeInt16BE,
    writeUInt32LE, writeUInt32BE, writeInt32LE, writeInt32BE, writeUIntLE, writeUIntBE, writeIntLE, writeIntBE.
  destruct a as [[]|[] []|[] []|[] [] n]; safe_tac.
Qed.

Lemma safe_put_word buf o step w h : store_ok h -> view_ok h buf -> safe [buf] whatever (put_word buf o step w) h.
Proof. intros H V. unfold put_word. safe_tac. Qed.
#[export] Hint Resolve safe_put_word : safe.

Lemma safe_write_big sgn big this value offset h : store_ok h -> view_ok h this ->
  safe [this] whatever (write_big sgn big this value offset) h.
Proof.
  intros H V. unfold write_big, writeBigUInt64LE, writeBigUInt64BE, writeBigInt64LE, writeBigInt64BE,
    wrtBigUInt64LE, wrtBigUInt64BE. destruct sgn, big; safe_tac.
Qed.

Lemma reads_checkIEEE754 b v o e : reads (checkIEEE754 b v o e).
Proof. unfold checkIEEE754. reads_tac. Qed.
#[export] Hint Resolve reads_checkIEEE754 : reads.

Lemma safe_put_mantissa n buf offset d : forall i m mLen h, store_ok h -> view_ok h buf ->
  safe [buf] whatever (put_mantissa n buf offset i d m mLen) h.
Proof. induction n as [|n IH]; intros; cbn [put_mantissa]; safe_tac. Qed.
Lemma safe_put_exponent n buf offset d : forall i e eLen h, store_ok h -> view_ok h buf ->
  safe [buf] whatever (put_exponent n buf offset i d e eLen) h.
Proof. induction n as [|n IH]; intros; cbn [put_exponent]; safe_tac. Qed.
#[export] Hint Resolve safe_put_mantissa safe_put_exponent : safe.

Lemma safe_ieee_write log buf value offset isLE mLen nBytes h : store_ok h -> view_ok h buf ->
  safe [buf] whatever (Ieee754.write log buf value offset isLE mLen nBytes) h.
Proof.
  intros H V. unfold Ieee754.write. cbv zeta. destruct (exponent_mantissa _ _ _ _ _) as [e m]. safe_tac.
Qed.
#[export] Hint Resolve safe_ieee_write : safe.

Lemma safe_write_float log f big this value offset noAssert h : store_ok h -> view_ok h this ->
  safe [this] whatever (write_float log f big this value offset noAssert) h.
Proof.
  intros H V. unfold write_float, writeFloatLE, writeFloatBE, writeDoubleLE, writeDoubleBE, writeFloat, writeDouble.
  destruct f, big; safe_tac; (apply safe_bind_reads; [reads_tac|assumption|intros _ _; safe_tac]).
Qed.

(** *** Swapping *)

Lemma safe_swap b n m h : store_ok h -> view_ok h b -> safe [b] whatever (swap b n m) h.
Proof. intros H V. unfold swap. safe_tac. Qed.
#[export] Hint Resolve safe_swap : safe.

Lemma safe_swapping this len step body e h : store_ok h -> view_ok h this ->
  (forall i h, store_ok h -> view_ok h this -> safe [this] whatever (body i) h) ->
  forall b : bool, safe [this] (fun w _ => w = this)
    (if b then throw_range e else do! for_each (indices 0 len step) body in ret this) h.
Proof.
  intros H V B []; [apply safe_throw, H|].
  eapply safe_bind; [apply safe_for_each; [|exact H|constructor; [exact V|constructor]]|].
  - intros i h' H' F. inversion F; subst. apply B; assumption.
  - intros _ h' E _. apply safe_ret; [apply E|reflexivity].
Qed.

Lemma safe_swap_method k this h : store_ok h -> view_ok h this ->
  safe [this] (fun w _ => w = this) (swap_method k this) h.
Proof.
  intros H V. assert (K : safe [this] (fun w _ => w = this) (swap64 this) h).
  { apply safe_swapping; [exact H|exact V|]. intros; safe_tac. }
  destruct k as [|[|[|[|[|k]]]]]; try exact K; (apply safe_swapping; [exact H|exact V|]; intros; safe_tac).
Qed.

(** *** Reading *)

Lemma reads_read_le_loop n this offset : forall i v mul, reads (read_le_loop n this offset i v mul).
Proof. induction n as [|n IH]; cbn [read_le_loop]; reads_tac. Qed.
Lemma reads_read_be_loop n this offset : forall v mul, reads (read_be_loop n this offset v mul).
Proof. induction n as [|n IH]; cbn [read_be_loop]; reads_tac. Qed.
#[export] Hint Resolve reads_read_le_loop reads_read_be_loop : reads.

Lemma reads_read_method a this offset noAssert : reads (read_method a this offset noAssert).
Proof.
  unfold read_method, readUInt8, readInt8, readUInt16LE, readUInt16BE, readInt16LE, readInt16BE,
    readUInt32LE, readUInt32BE, readInt32LE, readInt32BE, readUIntLE, readUIntBE, readIntLE, readIntBE.
  destruct a as [[]|[] []|[] []|[] [] n]; reads_tac.
Qed.

Lemma reads_toBigInt n : reads (toBigInt n).
Proof. unfold toBigInt. reads_tac. Qed.
#[export] Hint Resolve reads_toBigInt : reads.

Lemma reads_read_big sgn big this offset : reads (read_big sgn big this offset).
Proof.
  unfold read_big, readBigUInt64LE, readBigUInt64BE, readBigInt64LE, readBigInt64BE, check_first_last, get4.
  destruct sgn, big; reads_tac.
Qed.

Lemma reads_shift_in n buf offset d : forall i nBits acc, reads (shift_in n buf offset i d nBits acc).
Proof. induction n as [|n IH]; cbn [shift_in]; reads_tac. Qed.
#[export] Hint Resolve reads_shift_in : reads.

Lemma reads_read_float f big this offset noAssert : reads (read_float f big this offset noAssert).
Proof.
  unfold read_float, readFloatLE, readFloatBE, readDoubleLE, readDoubleBE, Ieee754.read. destruct f, big; reads_tac.
Qed.

Lemma reads_readUInt16BE this offset noAssert : reads (readUInt16BE this offset noAssert).
Proof. apply (reads_read_method (Acc16 false true)). Qed.
#[export] Hint Resolve reads_readUInt16BE : reads.

Lemma reads_read_unit n b i : reads (read_unit n b i).
Proof. unfold read_unit. reads_tac. Qed.
#[export] Hint Resolve reads_read_unit : reads.
Lemma reads_index_forward fuel n a v al vl : forall i f, reads (index_forward fuel n a v al vl i f).
Proof. induction fuel as [|fuel IH]; cbn [index_forward]; reads_tac. Qed.
Lemma reads_match_at fuel n a v vl i : forall j, reads (match_at fuel n a v vl i j).
Proof. induction fuel as [|fuel IH]; cbn [match_at]; reads_tac. Qed.
#[export] Hint Resolve reads_index_forward reads_match_at : reads.
Lemma reads_index_backward fuel n a v vl : forall i, reads (index_backward fuel n a v vl i).
Proof. induction fuel as [|fuel IH]; cbn [index_backward]; reads_tac. Qed.
#[export] Hint Resolve reads_index_backward : reads.
Lemma reads_arrayIndexOf a v o e d : reads (arrayIndexOf a v o e d).
Proof. unfold arrayIndexOf. reads_tac. Qed.
Lemma reads_normalize_offset l o d : reads (normalize_offset l o d).
Proof. unfold normalize_offset. reads_tac. Qed.
#[export] Hint Resolve reads_arrayIndexOf reads_normalize_offset : reads.


Lemma safe_bidirectionalIndexOf this v o e d h : store_ok h ->
  safe [] whatever (bidirectionalIndexOf this v o e d) h.
Proof.
  intros H. unfold bidirectionalIndexOf. cbv zeta. destruct (vlen this =? 0); [apply safe_ret; easy|].
  apply safe_bind_reads; [auto with reads|exact H|intros n _].
  destruct (fle (of_Z (vlen this)) n && d); [apply safe_ret; easy|]. destruct (flt n (of_Z 0) && negb d); [apply safe_ret; easy|].
  apply safe_bind with (P := whatever).
  - destruct v; try (apply safe_ret; easy). eapply safe_bind; [apply safe_from; [exact H|exact I]|].
    intros w h' E _. apply safe_ret; [apply E|easy].
  - intros x h' E _. destruct x; try (apply safe_throw, E); (apply safe_reads; [reads_tac|apply E]).
Qed.

Lemma safe_as_buffer v h : store_ok h -> val_ok h v -> safe [] (fun x h' => val_ok h' x) (as_buffer v) h.
Proof.
  intros H V. unfold as_buffer. destruct (is_uint8array v); [|apply safe_ret; assumption].
  eapply safe_bind; [apply safe_from; assumption|]. intros w h' E [W I]. apply safe_ret; [apply E|]. split; [exact W|lia].
Qed.

Lemma safe_compare a b h : store_ok h -> val_ok h a -> val_ok h b -> safe [] whatever (BufferOps.compare a b) h.
Proof.
  intros H Va Vb. unfold BufferOps.compare. eapply safe_bind; [apply safe_as_buffer; assumption|].
  intros x h1 E1 _. eapply safe_bind; [apply safe_as_buffer; [apply E1|eapply val_ok_evolves; eassumption]|].
  intros y h2 E2 _. apply safe_reads; [reads_tac|apply E2].
Qed.

Lemma safe_prototype_compare this v s e ts te h : store_ok h -> view_ok h this -> val_ok h v ->
  safe [] whatever (prototype_compare this v s e ts te) h.
Proof.
  intros H V Vv. unfold prototype_compare. eapply safe_bind; [apply safe_as_buffer; assumption|].
  intros x h1 E1 Vx. assert (H1 : store_ok h1) by apply E1. move_on E1.
  destruct x; try (apply safe_throw, H1). cbn in Vx. destruct Vx as [Vx _]. cbv zeta.
  destruct (negb (vbuffer v0)); [apply safe_throw, H1|].
  destruct (_ || _); [apply safe_throw, H1|]. destruct (_ && _); [apply safe_ret; easy|].
  destruct (js_le _ _); [apply safe_ret; easy|]. destruct (js_le _ _); [apply safe_ret; easy|].
  do 4 (apply safe_bind_reads; [auto with reads|exact H1|intros ? _]).
  destruct (Nat.eqb _ _); [apply safe_ret; easy|]. cbv zeta.
  eapply safe_bind; [apply safe_slice; assumption|]. intros w h2 E2 _. move_on E2.
  eapply safe_bind; [apply safe_slice; assumption|]. intros w' h3 E3 _. apply safe_reads; [reads_tac|apply E3].
Qed.

Lemma safe_slowToString this e s t h : store_ok h -> view_ok h this -> safe [] whatever (slowToString this e s t) h.
Proof.
  intros H V. unfold slowToString, base64Slice, utf16leSlice. cbv zeta. repeat safe_step; safe_tac.
Qed.

Lemma safe_toString this args h : store_ok h -> view_ok h this -> safe [] whatever (toString this args) h.
Proof.
  intros H V. unfold toString. cbv zeta. destruct (vlen this =? 0); [apply safe_ret; easy|].
  destruct args as [[[e s] t]|]; [apply safe_slowToString; assumption|]. apply safe_reads; [auto with reads|exact H].
Qed.

(** ** The methods together *)

(** A call of the library, with the arguments a program gives it. *)
Inductive call : Type :=
| CallFrom (value encodingOrOffset length : val)
| CallBuffer (arg encodingOrOffset length : val)
| CallAlloc (size fill encoding : val)
| CallAllocUnsafe (size : val)
| CallSlowBuffer (length : val)
| CallConcat (list length : val)
| CallSlice (this : view) (start end_ : val)
| CallWrite (this : view) (string : jsstr) (offset length encoding : val)
| CallFill (this : view) (value start end_ encoding : val)
| CallCopy (this target : view) (targetStart start end_ : val)
| CallSwap (this : view) (k : nat)
| CallWriteInt (a : accessor) (this : view) (value offset noAssert : val)
| CallWriteBig (sgn big : bool) (this : view) (value offset : val)
| CallWriteFloat (log : num -> num) (f : float_format) (big : bool) (this : view) (value offset noAssert : val)
| CallReadInt (a : accessor) (this : view) (offset noAssert : val)
| CallReadBig (sgn big : bool) (this : view) (offset : val)
| CallReadFloat (f : float_format) (big : bool) (this : view) (offset noAssert : val)
| CallToString (this : view) (args : option (val * val * val))
| CallCompare (a b : val)
| CallCompareWith (this : view) (target start end_ thisStart thisEnd : val)
| CallIndexOf (this : view) (value byteOffset encoding : val) (dir : bool).

(** Run a call for the view it answers, if it answers one. *)
Definition viewless {A} (m : M A) : M (option view) := let! _r := m in ret None.
Definition viewed (m : M view) : M (option view) := let! w := m in ret (Some w).

Definition perform (c : call) : M (option view) :=
  match c with
  | CallFrom v e l => viewed (from v e l)
  | CallBuffer v e l => viewed (Buffer v e l)
  | CallAlloc n v e => viewed (alloc n v e)
  | CallAllocUnsafe n => viewed (allocUnsafe n)
  | CallSlowBuffer n => viewed (SlowBuffer n)
  | CallConcat l n => viewed (BufferOps.concat l n)
  | CallSlice this s e => viewed (slice this s e)
  | CallWrite this s o l e => viewless (BufferCore.write this s o l e)
  | CallFill this v s e enc => viewed (fill this v s e enc)
  | CallCopy this tgt t s e => viewless (copy this (VView tgt) t s e)
  | CallSwap this k => viewed (swap_method k this)
  | CallWriteInt a this v o n => viewless (write_method a this v o n)
  | CallWriteBig sgn big this v o => viewless (write_big sgn big this v o)
  | CallWriteFloat log f big this v o n => viewless (write_float log f big this v o n)
  | CallReadInt a this o n => viewless (read_method a this o n)
  | CallReadBig sgn big this o => viewless (read_big sgn big this o)
  | CallReadFloat f big this o n => viewless (read_float f big this o n)
  | CallToString this args => viewless (toString this args)
  | CallCompare a b => viewless (BufferOps.compare a b)
  | CallCompareWith this t s e ts te => viewless (prototype_compare this t s e ts te)
  | CallIndexOf this v o e d => viewless (bidirectionalIndexOf this v o e d)
  end.

(** The views a call may write to. *)
Definition may_write (c : call) : list view :=
  match c with
  | CallWrite this _ _ _ _ | CallFill this _ _ _ _ | CallSwap this _ | CallWriteInt _ this _ _ _
  | CallWriteBig _ _ this _ _ | CallWriteFloat _ _ _ this _ _ _ => [this]
  | CallCopy _ tgt _ _ _ => [tgt]
  | _ => []
  end.

(** The views and values a call is given. *)
Definition views_of (c : call) : list view :=
  match c with
  | CallSlice this _ _ | CallWrite this _ _ _ _ | CallFill this _ _ _ _ | CallSwap this _
  | CallWriteInt _ this _ _ _ | CallWriteBig _ _ this _ _ | CallWriteFloat _ _ _ this _ _ _
  | CallReadInt _ this _ _ | CallReadBig _ _ this _ | CallReadFloat _ _ this _ _ | CallToString this _ | CallCompareWith this _ _ _ _ _ | CallIndexOf this _ _ _ _ => [this]
  | CallCopy this tgt _ _ _ => [this; tgt]
  | _ => []
  end.
Definition values_of (c : call) : list val :=
  match c with
  | CallFrom v _ _ | CallBuffer v _ _ | CallAlloc _ v _ | CallConcat v _ | CallFill _ v _ _ _ | CallCompareWith _ v _ _ _ _
  | CallIndexOf _ v _ _ _ => [v]
  | CallCompare a b => [a; b]
  | _ => []
  end.

(** The views a program holds: in their memory, their identities below [fresh]
    and each of one view only. *)
Definition holds (h : heap) (vs : list view) : Prop :=
  Forall (fun v => view_ok h v /\ (vid v < fresh h)%nat) vs /\
  (forall v w, v ∈ vs -> w ∈ vs -> vid v = vid w -> v = w).

(** The views inside a value are among those the program holds. *)
Fixpoint made_of (h : heap) (vs : list view) (v : val) : Prop :=
  match v with
  | VView w => w ∈ vs
  | VArrayBuffer a => exists w, w ∈ vs /\ vab w = a
  | VArray l => (fix all l := match l with [] => True | v :: l => made_of h vs v /\ all l end) l
  | VObj _ o p => match o with Some v => made_of h vs v | None => True end /\
                  match p with Some v => made_of h vs v | None => True end
  | _ => True
  end.

Lemma made_of_ok h vs v : holds h vs -> made_of h vs v -> val_ok h v.
Proof.
  intros [F _]. rewrite Forall_forall in F. revert v. fix IH 1. intros v.
  destruct v; cbn; try easy.
  - intros Hin. apply F, Hin.
  - intros (w & Hin & <-). destruct (F w Hin) as [(_ & _ & _ & _ & N) _]. exact N.
  - induction l as [|v l IHl]; [easy|]. intros [V L]. split; [apply IH, V|apply IHl, L].
  - destruct valueOf as [o|], toPrimitive as [p|]; intros [V W]; split; try (apply IH; assumption); exact I.
Qed.

(** What a program may pass to a call: what it holds. *)
Definition given (h : heap) (vs : list view) (c : call) : Prop :=
  Forall (fun v => v ∈ vs) (views_of c) /\ Forall (made_of h vs) (values_of c).

(** The stores a program can reach, with the views it holds. *)
Inductive reaches : heap -> list view -> Prop :=
| Start : reaches (Heap ∅ 0) []
| Call h vs c h' r : reaches h vs -> given h vs c -> perform c h = (h', r) ->
    reaches h' (match r with Ok (Some w) => w :: vs | _ => vs end).

(** The view a call answers is one the program holds or a new one. *)
Definition answered (h : heap) (vs : list view) (o : option view) (h' : heap) : Prop :=
  match o with Some w => w ∈ vs \/ made h w h' | None => True end.

Lemma safe_viewless {A} ws vs (m : M A) h : safe ws whatever m h -> safe ws (answered h vs) (viewless m) h.
Proof. intros S. eapply safe_bind; [exact S|]. intros a h' E _. apply safe_ret; [apply E|exact I]. Qed.

Lemma safe_viewed ws vs (P : view -> heap -> Prop) m h : safe ws P m h ->
  (forall w h', P w h' -> w ∈ vs \/ made h w h') -> safe ws (answered h vs) (viewed m) h.
Proof. intros S W. eapply safe_bind; [exact S|]. intros a h' E Ha. apply safe_ret; [apply E|apply W, Ha]. Qed.

Lemma safe_made ws vs m h : safe ws (made h) m h -> safe ws (answered h vs) (viewed m) h.
Proof. intros S. eapply safe_viewed; [exact S|]. intros w h' M. right. exact M. Qed.

Lemma perform_safe c h vs : store_ok h -> holds h vs -> given h vs c ->
  safe (may_write c) (answered h vs) (perform c) h.
Proof.
  intros H Hs [Gv Ga].
  assert (V : Forall (fun v => v ∈ vs /\ view_ok h v) (views_of c)).
  { eapply Forall_impl; [exact Gv|]. intros v Hin. split; [exact Hin|]. destruct Hs as [F _].
    rewrite Forall_forall in F. apply F, Hin. }
  assert (A : Forall (val_ok h) (values_of c)).
  { eapply Forall_impl; [exact Ga|]. intros v. apply made_of_ok, Hs. }
  destruct c; cbn [perform may_write views_of values_of] in *;
    repeat match goal with F : Forall _ (_ :: _) |- _ => apply Forall_cons in F; destruct F end;
    repeat match goal with F : _ /\ _ |- _ => destruct F end.
  - apply safe_made, safe_from; assumption.
  - apply safe_made, safe_Buffer; assumption.
  - apply safe_made, safe_alloc; assumption.
  - eapply safe_viewed; [apply safe_allocUnsafe, H|]. intros w h' [M _]. right. exact M.
  - apply safe_made, safe_SlowBuffer, H.
  - apply safe_made, safe_concat; assumption.
  - eapply safe_viewed; [apply safe_slice; assumption|]. intros w h' [M _]. right. exact M.
  - apply safe_viewless, safe_write; assumption.
  - eapply safe_viewed; [apply safe_fill; assumption|]. intros w h' ->. left. assumption.
  - apply safe_viewless, safe_copy; try assumption. destruct Hs as [_ Inj].
    intros E. f_equal. apply Inj; [assumption..|congruence].
  - eapply safe_viewed; [apply safe_swap_method; assumption|]. intros w h' ->. left. assumption.
  - apply safe_viewless, safe_write_method; assumption.
  - apply safe_viewless, safe_write_big; assumption.
  - apply safe_viewless, safe_write_float; assumption.
  - apply safe_viewless, safe_reads; [apply reads_read_method|exact H].
  - apply safe_viewless, safe_reads; [apply reads_read_big|exact H].
  - apply safe_viewless, safe_reads; [apply reads_read_float|exact H].
  - apply safe_viewless, safe_toString; assumption.
  - apply safe_viewless, safe_compare; assumption.
  - apply safe_viewless, safe_prototype_compare; assumption.
  - apply safe_viewless, safe_bidirectionalIndexOf, H.
Qed.

Lemma holds_later ws h h' vs : evolves ws h h' -> holds h vs -> holds h' vs.
Proof.
  intros E [F Inj]. split; [|exact Inj]. eapply Forall_impl; [exact F|]. intros v [V I].
  split; [eapply evolves_view; eassumption|]. pose proof (evolves_fresh_le _ _ _ E). lia.
Qed.

Lemma holds_answer ws h h' vs w : evolves ws h h' -> holds h vs -> w ∈ vs \/ made h w h' -> holds h' (w :: vs).
Proof.
  intros E Hs W. pose proof (holds_later _ _ _ _ E Hs) as [F' Inj]. destruct Hs as [F _].
  rewrite Forall_forall in F. split.
  - apply Forall_cons. split; [|exact F']. destruct W as [Hin|[V I]]; [rewrite Forall_forall in F'; apply F', Hin|].
    split; [exact V|lia].
  - assert (N : forall v, v ∈ vs -> vid w = vid v -> w = v).
    { intros v Hv Ev. destruct W as [Hin|[_ I]]; [apply Inj; assumption|]. destruct (F v Hv). lia. }
    intros u v Hu Hv Euv. rewrite elem_of_cons in Hu, Hv; destruct Hu as [->|Hu], Hv as [->|Hv]; try reflexivity.
    + apply N; assumption.
    + symmetry. apply N; [assumption|congruence].
    + apply Inj; assumption.
Qed.

Lemma reaches_ok h vs : reaches h vs -> store_ok h /\ holds h vs.
Proof.
  induction 1 as [|h vs c h' r _ [H Hs] G P].
  - split; [split; intros a l E; cbn in E; rewrite lookup_empty in E; discriminate|].
    split; [constructor|]. intros v w Hv. inversion Hv.
  - pose proof (perform_safe c h vs H Hs G) as [E R]. rewrite P in E, R. cbn in E, R.
    split; [apply E|]. destruct r as [[w|]|e]; try (eapply holds_later; eassumption).
    eapply holds_answer; [exact E|exact Hs|]. apply (R _ eq_refl).
Qed.

(** Views that show none of the bytes a call may write to. *)
Lemma kept_bytes ws h h' v : kept ws h h' -> view_ok h v ->
  (forall i, voff v <= Z.of_nat i < voff v + vlen v -> ~ covered ws (vab v) i) -> bytes h' v = bytes h v.
Proof.
  intros K (V1 & V2 & V3 & V4 & V5) N. unfold bytes, ab_bytes in *.
  destruct (mem h !! vab v) as [l|] eqn:E; [|contradiction]. destruct (K _ _ E) as (l' & E' & L & S).
  rewrite E'. cbn [from_option] in *. unfold id in *. apply list_eq. intros j.
  destruct (decide (j < Z.to_nat (vlen v))%nat) as [Hj|Hj].
  - rewrite !lookup_take_lt, !lookup_drop by exact Hj. apply S, N. lia.
  - rewrite !lookup_take_ge by lia. reflexivity.
Qed.

(** C1: memory safety.  In every state a program can reach from the empty store by
    calls of the library, with any arguments it can make from what it holds:
    the store is well formed, every view lies in its array buffer, and the next
    call, whether it answers or throws, changes the size of no array buffer and
    no byte outside the views it is meant to write to, so that a view sharing
    no byte with those keeps its contents. *)
Theorem buffer_memory_safety h vs c : reaches h vs -> given h vs c ->
  store_ok h /\ Forall (view_ok h) vs /\
  store_ok (fst (perform c h)) /\
  kept (may_write c) h (fst (perform c h)) /\
  (forall w, snd (perform c h) = Ok (Some w) -> view_ok (fst (perform c h)) w) /\
  (forall v, v ∈ vs -> (forall w, w ∈ may_write c ->
       vab w <> vab v \/ voff w + vlen w <= voff v \/ voff v + vlen v <= voff w) ->
     bytes (fst (perform c h)) v = bytes h v).
Proof.
  intros Hr G. destruct (reaches_ok h vs Hr) as [H Hs]. destruct (perform_safe c h vs H Hs G) as [E R].
  assert (V : forall v, v ∈ vs -> view_ok h v).
  { intros v Hv. destruct Hs as [F _]. rewrite Forall_forall in F. apply F, Hv. }
  split; [exact H|]. split; [apply Forall_forall, V|]. split; [apply E|]. split; [apply E|]. split.
  - intros w Ew. destruct (R _ Ew) as [Hin|M]; [eapply evolves_view; [exact E|apply V, Hin]|apply M].
  - intros v Hv D. apply (kept_bytes (may_write c)); [apply E|apply V, Hv|]. intros i Hi (w & Hw & Ew & Hiw).
    destruct (D w Hw) as [D'|D']; [congruence|lia].
Qed.

(** ** An instance *)

Definition sample_alloc : call := CallAlloc (Num (of_Z 4)) Undefined Undefined.
Definition sample_state : heap := fst (perform sample_alloc (Heap ∅ 0)).
Definition sample_buffer : view := View 1 true 0 0 4.

Lemma sample_reaches : reaches sample_state [sample_buffer].
Proof.
  apply (Call (Heap ∅ 0) [] sample_alloc sample_state (Ok (Some sample_buffer))); [constructor|split; repeat constructor|].
  vm_compute. reflexivity.
Qed.

(** A write of more bytes than there is room for. *)
Lemma buffer_memory_safety_witness :
  kept [sample_buffer] sample_state
    (fst (perform (CallWrite sample_buffer (js "abcdef") (Num (of_Z 2)) Undefined Undefined) sample_state)).
Proof.
  refine (proj1 (proj2 (proj2 (proj2 (buffer_memory_safety sample_state [sample_buffer]
    (CallWrite sample_buffer (js "abcdef") (Num (of_Z 2)) Undefined Undefined) sample_reaches _))))).
  split; [repeat constructor|constructor].
Defined.
