(* ===== verification/BufferTypes.v ===== *)
(** The types of the answers of the Buffer methods.  A type is read as the set of
    the values it holds, as in a semantic proof of type soundness: [holds_value T v]
    says so of a value, [type_of c] is the type a call promises, and the theorem is
    that whatever the state and the arguments, a call that answers answers a value
    of its type. *)

From Stdlib Require Import SpecFloat String.
From stdpp Require Import base numbers list gmap.
From S2P Require Import Prelude JsNumber JsValue Base64 Encoding EncodingFacts BufferCore BufferCoreFacts Codecs.
From S2P Require Import BufferInt BufferIntFacts BufferOps BufferOpsFacts Ieee754 Ieee754Facts BufferSafety.

Local Open Scope Z_scope.
Local Open Scope js_scope.

(** ** The texts of an encoding *)

Definition hex_char (c : Z) : Prop := 48 <= c <= 57 \/ 97 <= c <= 102.
Definition base64_char (c : Z) : Prop := c ∈ base64.code.

(** What a text in an encoding is made of: digits by pairs, whole Unicode
    characters (no lone surrogate), 7-bit and 8-bit characters, quads of the Base64
    alphabet with their padding, any code units. *)
Definition well_written (e : encoding) (s : jsstr) : Prop :=
  match e with
  | Hex => Forall hex_char s /\ Nat.Even (length s)
  | Utf8 => exists cps, Forall scalar_value cps /\ s = List.concat (map utf16_enc cps)
  | Ascii => Forall (fun c => 0 <= c < 128) s
  | Latin1 => Forall byte s
  | Base64 => exists body p, s = body ++ replicate p 61 /\ Forall base64_char body /\
      Z.of_nat (length s) mod 4 = 0 /\ (p <= 2)%nat
  | Ucs2 => Forall unit16 s
  end.

Lemma hex_digit_char d : 0 <= d < 16 -> hex_char (hex_digit d).
Proof. intros H. unfold hex_char, hex_digit. destruct (Z.ltb_spec d 10); lia. Qed.

Lemma hex_pairs_written {A} (f : A -> Z) l : (forall i, byte (f i)) ->
  well_written Hex (List.concat (map (fun i => hex_pair (f i)) l)).
Proof.
  intros F. induction l as [|i l [IH [n IHn]]]; [split; [constructor|exists 0%nat; reflexivity]|].
  pose proof (F i) as B. unfold byte in B. pose proof (Z.mod_pos_bound (f i) 16 ltac:(lia)).
  assert (0 <= f i / 16 < 16) by (split; [apply Z.div_pos|apply Z.div_lt_upper_bound]; lia).
  cbn [map List.concat hex_pair app]. split.
  - constructor; [apply hex_digit_char; lia|]. constructor; [apply hex_digit_char; lia|exact IH].
  - exists (S n). cbn [length]. lia.
Qed.

Lemma hexSlice_written bs s e : Forall byte bs -> well_written Hex (hexSlice bs s e).
Proof.
  intros H. unfold hexSlice. rewrite (for_range_append _ _ _ _ []). cbn [app].
  erewrite map_ext by (intros i; apply hex_table, at_byte, H).
  apply (hex_pairs_written (at_ bs)). intros i. apply at_byte, H.
Qed.

Lemma asciiSlice_written bs s e : Forall byte bs -> well_written Ascii (asciiSlice bs s e).
Proof.
  intros H. unfold asciiSlice. rewrite (for_range_push _ _ 1 (fun i => and32 (at_ bs i) 127 mod 65536)).
  cbn [app well_written]. apply Forall_map, Forall_true. intros i.
  rewrite (land_low _ 7) by (reflexivity || lia). change (2 ^ 7) with 128.
  pose proof (Z.mod_pos_bound (at_ bs i) 128 ltac:(lia)). rewrite Z.mod_small; lia.
Qed.

Lemma latin1Slice_written bs s e : Forall byte bs -> well_written Latin1 (latin1Slice bs s e).
Proof.
  intros H. unfold latin1Slice. rewrite (for_range_push _ _ 1 (fun i => at_ bs i mod 65536)).
  cbn [app well_written]. apply Forall_map, Forall_true. intros i.
  pose proof (at_byte bs i H) as B. unfold byte in *. rewrite Z.mod_small; lia.
Qed.

Lemma utf8_decode_written bs : Forall byte bs -> well_written Utf8 (utf8Slice bs 0 (Z.of_nat (length bs))).
Proof. intros H. destruct (utf8Slice_decodes bs H) as (cps & _ & Hs & E). exists cps. split; [exact Hs|exact E]. Qed.

Lemma utf8Slice_written bs s e : Forall byte bs -> 0 <= s -> well_written Utf8 (utf8Slice bs s e).
Proof.
  intros H Hs. pose proof (Z.le_min_l (Z.of_nat (length bs)) e) as L.
  destruct (Z.le_gt_cases s (Z.min (Z.of_nat (length bs)) e)) as [B|B].
  - replace (utf8Slice bs s e) with (utf8Slice bs s (Z.min (Z.of_nat (length bs)) e))
      by (unfold utf8Slice; do 2 f_equal; lia).
    rewrite utf8Slice_sub by lia. apply utf8_decode_written, sub_bytes, H.
  - exists []. split; [constructor|]. unfold utf8Slice. cbv zeta. rewrite Z2Nat.nonpos by lia. reflexivity.
Qed.

Lemma utf16_decode_written bs : Forall byte bs -> well_written Ucs2 (utf16le_decode bs).
Proof. intros H. rewrite utf16le_decode_run by exact H. apply utf16_units_unit16, H. Qed.

Lemma sextet_char n : exists c, base64.sextet n = [c] /\ base64_char c.
Proof.
  unfold base64.sextet, base64.lookup. pose proof (Z.mod_pos_bound n 64 ltac:(lia)) as B.
  rewrite <- (Z2Nat.id (n mod 64)), zget_nat by lia.
  destruct (lookup_lt_is_Some_2 base64.code (Z.to_nat (n mod 64))) as [c E].
  - change (length base64.code) with 64%nat. lia.
  - rewrite E. exists c. split; [reflexivity|]. eapply list_elem_of_lookup_2, E.
Qed.

Ltac sextets := repeat match goal with |- context [base64.sextet ?n] =>
  let c := fresh "c" in let E := fresh "E" in let B := fresh "B" in
  destruct (sextet_char n) as (c & E & B); rewrite E; clear E end.

Lemma base64_written bs : Forall byte bs -> well_written Base64 (base64.fromByteArray bs).
Proof.
  intros H. rewrite base64.fromByteArray_run by exact H. clear H. cbn [well_written].
  induction bs as [bs IH] using (induction_ltof1 _ (@length Z)). unfold ltof in IH.
  destruct bs as [|a [|b [|c bs]]]; cbn [base64.encode_spec]; sextets.
  - exists [], 0%nat. auto 7.
  - exists [c; c0], 2%nat. auto 7.
  - exists [c; c0; c1], 1%nat. auto 7.
  - destruct (IH bs ltac:(cbn [length]; lia)) as (body & p & -> & F & L & P).
    exists (c0 :: c1 :: c2 :: c3 :: body), p. split; [reflexivity|]. split; [auto 6|]. split; [|exact P].
    cbn [app length]. rewrite <- (Z_mod_plus_full _ 1 4) in L. rewrite <- L. f_equal. lia.
Qed.

Lemma well_written_nil e : well_written e [].
Proof.
  destruct e; cbn [well_written]; auto.
  - split; [constructor|exists 0%nat; reflexivity].
  - exists []. auto.
  - exists [], 0%nat. auto 7.
Qed.

(** What [toString] answers for an encoding it is given. *)
Definition text_of (encoding : val) (s : jsstr) : Prop :=
  match switch_encoding (if truthy encoding then encoding else Str (js "utf8")) with
  | Some e => well_written e s
  | None => s = []
  end.

Lemma text_of_nil encoding : text_of encoding [].
Proof. unfold text_of. destruct (switch_encoding _); [apply well_written_nil|reflexivity]. Qed.

(** A text read from the bytes of a view. *)
Lemma safe_text ws e (f : list Z -> jsstr) v h : store_ok h -> (forall bs, Forall byte bs -> well_written e (f bs)) ->
  safe ws (fun r _ => well_written e r) (Prelude.read (fun h => f (bytes h v))) h.
Proof.
  intros H W. split; [apply evolves_refl, H|]. intros r [= <-]. apply W, heap_ok_bytes, H.
Qed.

Lemma safe_text_slice ws e (f : list Z -> jsstr) this s t h : store_ok h -> view_ok h this ->
  (forall bs, Forall byte bs -> well_written e (f bs)) ->
  safe ws (fun r _ => well_written e r) (let! w := slice this s t in Prelude.read (fun h => f (bytes h w))) h.
Proof.
  intros H V W. eapply safe_bind; [apply safe_slice; assumption|]. intros w h' E _. apply safe_text; [apply E|exact W].
Qed.

Lemma ToUint32_nonneg n : 0 <= ToUint32 n.
Proof. unfold ToUint32. destruct n; try lia; apply Z.mod_pos_bound; lia. Qed.

Lemma text_slowToString this enc s t h : store_ok h -> view_ok h this ->
  safe [] (fun r _ => text_of enc r) (slowToString this enc s t) h.
Proof.
  intros H V. unfold slowToString. cbv zeta. set (start := if _ || _ then _ else _). clearbody start.
  destruct (js_lt _ start); [apply safe_ret; [exact H|apply text_of_nil]|].
  set (stop := if _ || _ then _ else t). clearbody stop.
  destruct (js_le stop _); [apply safe_ret; [exact H|apply text_of_nil]|].
  apply safe_bind_reads; [auto with reads|exact H|intros b _].
  apply safe_bind_reads; [auto with reads|exact H|intros a Ea].
  destruct (b <=? a); [apply safe_ret; [exact H|apply text_of_nil]|].
  assert (A : 0 <= a).
  { unfold toU32, bind in Ea. destruct (toNum start h) as [h' [n|e]]; [|discriminate].
    injection Ea as <-. apply ToUint32_nonneg. }
  unfold text_of. destruct (switch_encoding _) as [[]|]; [..|apply safe_throw, H].
  - apply (safe_text _ Hex (fun bs => hexSlice bs a b)); [exact H|]. intros. apply hexSlice_written; assumption.
  - apply (safe_text _ Utf8 (fun bs => utf8Slice bs a b)); [exact H|]. intros. apply utf8Slice_written; assumption.
  - apply (safe_text _ Ascii (fun bs => asciiSlice bs a b)); [exact H|]. intros. apply asciiSlice_written; assumption.
  - apply (safe_text _ Latin1 (fun bs => latin1Slice bs a b)); [exact H|]. intros. apply latin1Slice_written; assumption.
  - unfold base64Slice. destruct (_ && _); [apply (safe_text _ Base64)|apply (safe_text_slice _ Base64)];
      try assumption; apply base64_written.
  - apply (safe_text_slice _ Ucs2); [exact H|exact V|apply utf16_decode_written].
Qed.

(** The encoding a call of [toString] names. *)
Definition encoding_argument (args : option (val * val * val)) : val :=
  match args with Some (encoding, _, _) => encoding | None => Undefined end.

Lemma text_toString this args h : store_ok h -> view_ok h this ->
  safe [] (fun r _ => text_of (encoding_argument args) r) (toString this args) h.
Proof.
  intros H V. unfold toString. cbv zeta. destruct (vlen this =? 0); [apply safe_ret; [exact H|apply text_of_nil]|].
  destruct args as [[[enc s] t]|]; [apply text_slowToString; assumption|].
  apply (safe_text _ Utf8 (fun bs => utf8Slice bs 0 (vlen this))); [exact H|]. intros. apply utf8Slice_written; [assumption|lia].
Qed.

(** ** Types *)

#[warnings="-register-all"]
Inductive jstype : Type :=
| TBuffer
| TThis (v : view)
| TText (encoding : val)
| TInt (lo hi : Z)
| TBigInt (lo hi : Z)
| TFloat (f : float_format)
| TNumber.

(** The values of a type: a Buffer, one view, a text of an encoding, a Number that
    is an integer of an interval, a BigInt of an interval, a Number that a word of
    single or double precision stands for, a Number. *)
Definition holds_value (T : jstype) (v : val) : Prop :=
  match T with
  | TBuffer => exists w, v = VView w /\ vbuffer w = true
  | TThis w => v = VView w
  | TText encoding => exists s, v = Str s /\ text_of encoding s
  | TInt lo hi => exists z, v = Num (of_Z z) /\ lo <= z <= hi
  | TBigInt lo hi => exists z, v = BigInt z /\ lo <= z <= hi
  | TFloat f => exists w, v = Num (ieee_value (fraction_bits f) (exponent_bits f) w) /\
      0 <= w < 2 ^ (8 * Z.of_nat (fbytes f))
  | TNumber => exists n, v = Num n
  end.

(** The type of the answer of a call. *)
Definition type_of (c : call) : jstype :=
  match c with
  | CallFrom _ _ _ | CallBuffer _ _ _ | CallAlloc _ _ _ | CallAllocUnsafe _ | CallSlowBuffer _
  | CallConcat _ _ | CallSlice _ _ _ => TBuffer
  | CallFill this _ _ _ _ | CallSwap this _ => TThis this
  | CallWrite this _ _ _ _ => TInt 0 (vlen this)
  | CallWriteInt a this _ _ _ => TInt (Z.of_nat (width a)) (vlen this)
  | CallWriteBig _ _ this _ _ => TInt 8 (vlen this)
  | CallWriteFloat _ f _ this _ _ _ => TInt (Z.of_nat (fbytes f)) (vlen this)
  | CallReadInt a _ _ _ => TInt (min_of (is_signed a) (width a)) (max_of (is_signed a) (width a))
  | CallReadBig sgn _ _ _ => TBigInt (min_of sgn 8) (max_of sgn 8)
  | CallReadFloat f _ _ _ _ => TFloat f
  | CallToString _ args => TText (encoding_argument args)
  | CallCompare _ _ | CallCompareWith _ _ _ _ _ _ => TInt (-1) 1
  | CallCopy _ _ _ _ _ | CallIndexOf _ _ _ _ _ => TNumber
  end.

(** A call with its answer as a value. *)
Definition evaluate (c : call) : M val :=
  let view m := (let! w := m in ret (VView w)) in
  let int m := (let! z := m in ret (Num (of_Z z))) in
  let number m := (let! n := m in ret (Num n)) in
  match c with
  | CallFrom v e l => view (from v e l)
  | CallBuffer v e l => view (Buffer v e l)
  | CallAlloc n v e => view (alloc n v e)
  | CallAllocUnsafe n => view (allocUnsafe n)
  | CallSlowBuffer n => view (SlowBuffer n)
  | CallConcat l n => view (BufferOps.concat l n)
  | CallSlice this s e => view (slice this s e)
  | CallWrite this s o l e => int (BufferCore.write this s o l e)
  | CallFill this v s e enc => view (fill this v s e enc)
  | CallCopy this tgt t s e => number (copy this (VView tgt) t s e)
  | CallSwap this k => view (swap_method k this)
  | CallWriteInt a this v o n => int (write_method a this v o n)
  | CallWriteBig sgn big this v o => int (write_big sgn big this v o)
  | CallWriteFloat log f big this v o n => int (write_float log f big this v o n)
  | CallReadInt a this o n => read_method a this o n
  | CallReadBig sgn big this o => read_big sgn big this o
  | CallReadFloat f big this o n => number (read_float f big this o n)
  | CallToString this args => let! s := toString this args in ret (Str s)
  | CallCompare a b => int (BufferOps.compare a b)
  | CallCompareWith this t s e ts te => int (prototype_compare this t s e ts te)
  | CallIndexOf this v o e d => number (bidirectionalIndexOf this v o e d)
  end.

(** The accessors' range checks are on, and a width is one of the documented ones. *)
Definition asserted (c : call) : Prop :=
  match c with
  | CallReadInt a _ _ noAssert | CallWriteInt a _ _ _ noAssert => supported a /\ truthy noAssert = false
  | CallReadFloat _ _ _ _ noAssert | CallWriteFloat _ _ _ _ _ _ noAssert => truthy noAssert = false
  | _ => True
  end.

(** ** What a computation answers, whatever the state *)

Definition answers {A} (P : A -> Prop) (m : M A) : Prop := forall h a, snd (m h) = Ok a -> P a.

Lemma answers_ret {A} (P : A -> Prop) a : P a -> answers P (ret a).
Proof. intros H h b [= <-]. exact H. Qed.
Lemma answers_throw {A} (P : A -> Prop) e : answers P (throw e).
Proof. discriminate. Qed.
Lemma answers_weaken {A} (P Q : A -> Prop) m : answers P m -> (forall a, P a -> Q a) -> answers Q m.
Proof. intros G W h a E. apply W, (G h a E). Qed.
Lemma answers_bind {A B} (P : A -> Prop) (Q : B -> Prop) m (k : A -> M B) :
  answers P m -> (forall a, P a -> answers Q (k a)) -> answers Q (bind m k).
Proof.
  intros G K h b. unfold bind. destruct (m h) as [h' [a|e]] eqn:E; [|discriminate].
  apply K, (G h). rewrite E. reflexivity.
Qed.
Lemma answers_known {A B} (Q : B -> Prop) (a : A) (k : A -> M B) : answers Q (k a) -> answers Q (bind (ret a) k).
Proof. intros G. exact G. Qed.
Lemma answers_any {A B} (Q : B -> Prop) (m : M A) (k : A -> M B) : (forall a, answers Q (k a)) -> answers Q (bind m k).
Proof. intros K. apply (answers_bind (fun _ => True)); [easy|auto]. Qed.
Lemma answers_read {A} (P : A -> Prop) f : (forall h, P (f h)) -> answers P (Prelude.read f).
Proof. intros H h a [= <-]. apply H. Qed.

Create HintDb answers.
#[export] Hint Resolve answers_throw : answers.

(** Walk through a definition to what it answers. *)
Ltac answers_tac :=
  intros; cbv zeta; unfold throw_type, throw_range;
  repeat first
    [ solve [auto with answers]
    | match goal with |- answers _ (bind (ret _) _) => apply answers_known; cbv beta zeta end
    | eapply answers_bind; [solve [auto with answers]|cbv beta; intros]; cbv zeta
    | apply answers_any; intros; cbv zeta
    | match goal with |- answers _ (match ?x with _ => _ end) => destruct x end ];
  try (apply answers_ret).

(** *** Buffers *)

Abbreviation buffers := (answers (fun w => vbuffer w = true)).

Lemma answers_new_buffer l : buffers (new_buffer true l).
Proof. unfold new_buffer. answers_tac. intros h w [= <-]. reflexivity. Qed.
Lemma answers_new_view a o l : buffers (new_view true a o l).
Proof. intros h w [= <-]. reflexivity. Qed.
#[export] Hint Resolve answers_new_buffer answers_new_view : answers.

Lemma buffers_ret w : vbuffer w = true -> buffers (ret w).
Proof. intros H. apply answers_ret, H. Qed.
#[export] Hint Resolve buffers_ret : answers.

Lemma answers_createBuffer n : buffers (createBuffer n).
Proof. unfold createBuffer. answers_tac. Qed.
#[export] Hint Resolve answers_createBuffer : answers.
Lemma answers_allocUnsafe n : buffers (allocUnsafe n).
Proof. unfold allocUnsafe. answers_tac. Qed.
Lemma answers_slice this s e : buffers (slice this s e).
Proof. unfold slice. answers_tac. Qed.
#[export] Hint Resolve answers_allocUnsafe answers_slice : answers.
Lemma answers_fromArrayLike v : buffers (fromArrayLike v).
Proof. unfold fromArrayLike. answers_tac. Qed.
Lemma answers_new_uint8array v o l : buffers (new_uint8array v o l).
Proof. unfold new_uint8array. answers_tac. Qed.
#[export] Hint Resolve answers_fromArrayLike answers_new_uint8array : answers.
Lemma answers_fromArrayBuffer v o l : buffers (fromArrayBuffer v o l).
Proof. unfold fromArrayBuffer. answers_tac. Qed.
#[export] Hint Resolve answers_fromArrayBuffer : answers.
Lemma answers_fromArrayView v : buffers (fromArrayView v).
Proof. unfold fromArrayView. answers_tac. Qed.
Lemma answers_fromString s e : buffers (fromString s e).
Proof. unfold fromString. answers_tac. Qed.
#[export] Hint Resolve answers_fromArrayView answers_fromString : answers.

Abbreviation maybe_buffer := (answers (fun o => match o with Some w => vbuffer w = true | None => True end)).

Lemma answers_some m : buffers m -> maybe_buffer (let! b := m in ret (Some b)).
Proof. intros B. apply (answers_bind _ _ _ _ B). intros w H. apply answers_ret, H. Qed.
Lemma answers_none : maybe_buffer (ret None).
Proof. apply answers_ret, I. Qed.
Lemma answers_some_ret w : vbuffer w = true -> maybe_buffer (ret (Some w)).
Proof. intros H. apply answers_ret, H. Qed.
#[export] Hint Resolve answers_some answers_none answers_some_ret : answers.

Lemma answers_fromObject v : maybe_buffer (fromObject v).
Proof. unfold fromObject. answers_tac. Qed.
#[export] Hint Resolve answers_fromObject : answers.

Lemma answers_from v : forall e l, buffers (from v e l).
Proof.
  revert v. fix IH 1. intros v e l. destruct v as [| | | | |s|w|a|sz t|vs|props vo tp]; cbn [from];
    try (apply answers_throw || apply answers_fromString || apply answers_fromArrayView || apply answers_fromArrayBuffer).
  { eapply answers_bind; [apply answers_fromObject|]. intros [b|] B; [apply answers_ret, B|apply answers_throw]. }
  assert (T : buffers (let! b := fromObject (VObj props vo tp) in
      match b with
      | Some b => ret b
      | None => match tp with Some p => from p e l | None => throw_type (from_type_error (VObj props vo tp)) end
      end)).
  { eapply answers_bind; [apply answers_fromObject|]. intros [b|] B; [apply answers_ret, B|].
    destruct tp as [p|]; [apply IH|apply answers_throw]. }
  assert (O : match vo with Some v' => buffers (from v' e l) | None => True end).
  { destruct vo as [v'|]; [apply IH|exact I]. }
  destruct (prop props "buffer"); try (destruct vo as [[]|]; first [exact T|exact O]). apply answers_fromArrayBuffer.
Qed.
#[export] Hint Resolve answers_from : answers.

Lemma answers_Buffer v e l : buffers (Buffer v e l).
Proof. unfold Buffer. answers_tac. Qed.

Lemma answers_fill this v s e enc : answers (eq this) (fill this v s e enc).
Proof. unfold fill. answers_tac; reflexivity. Qed.

Lemma answers_alloc n v e : buffers (alloc n v e).
Proof.
  unfold alloc. do 2 (apply answers_any; intros). destruct (fle _ _); [auto with answers|].
  eapply answers_bind; [auto with answers|]. intros w W.
  destruct v; try apply answers_ret, W; (eapply answers_weaken; [apply answers_fill|intros x <-; exact W]).
Qed.
#[export] Hint Resolve answers_alloc : answers.

Lemma answers_SlowBuffer v : buffers (SlowBuffer v).
Proof. unfold SlowBuffer. answers_tac. Qed.

Lemma answers_concat l n : buffers (BufferOps.concat l n).
Proof. unfold BufferOps.concat. answers_tac. Qed.

Lemma answers_swap k this : answers (eq this) (swap_method k this).
Proof. unfold swap_method, swap16, swap32, swap64. answers_tac; reflexivity. Qed.

(** *** Comparison *)

Abbreviation signs := (answers (fun z => -1 <= z <= 1)).

Lemma sign_of_range xy : -1 <= sign_of xy <= 1.
Proof. unfold sign_of. repeat destruct (_ <? _); lia. Qed.

Lemma answers_sign (f : heap -> Z * Z) : signs (Prelude.read (fun h => sign_of (f h))).
Proof. apply answers_read. intros h. apply sign_of_range. Qed.
#[export] Hint Resolve answers_sign : answers.

Lemma answers_compare a b : signs (BufferOps.compare a b).
Proof. unfold BufferOps.compare. answers_tac; lia. Qed.

Lemma answers_prototype_compare this v s e ts te : signs (prototype_compare this v s e ts te).
Proof. unfold prototype_compare. answers_tac; lia. Qed.

(** *** Counts of bytes *)

Lemma answers_toU32 v : answers (fun z => 0 <= z) (toU32 v).
Proof. unfold toU32. answers_tac. apply ToUint32_nonneg. Qed.
#[export] Hint Resolve answers_toU32 : answers.

Lemma answers_blit_loop n src dst offset : forall i,
  answers (fun z => i <= z <= Z.max i (vlen dst - offset)) (blit_loop n i src dst offset).
Proof.
  induction n as [|n IH]; intros i; cbn [blit_loop]; [apply answers_ret; lia|].
  destruct (Z.leb_spec (vlen dst) (i + offset)); cbn [orb]; [apply answers_ret; lia|].
  destruct (_ <=? i); [apply answers_ret; lia|]. apply answers_any. intros _.
  eapply answers_weaken; [apply IH|]. intros z. cbv beta. lia.
Qed.

Lemma answers_hex_loop n buf s offset : forall i, answers (fun z => i <= z <= i + Z.of_nat n) (hex_loop n i buf s offset).
Proof.
  induction n as [|n IH]; intros i; cbn [hex_loop]; [apply answers_ret; lia|].
  destruct (_ ≫= _); [|apply answers_ret; lia]. destruct (_ ≫= _); [|apply answers_ret; lia].
  apply answers_any. intros _. eapply answers_weaken; [apply IH|]. intros w. cbv beta. lia.
Qed.

(** The bytes a write may count: those from the offset to the end of the view. *)
Abbreviation counts this offset := (answers (fun z => 0 <= z <= vlen this - offset)).

Lemma answers_blitBuffer src dst offset n : offset <= vlen dst -> counts dst offset (blitBuffer src dst offset n).
Proof. intros H. eapply answers_weaken; [apply answers_blit_loop|]. intros z. cbv beta. lia. Qed.
#[export] Hint Resolve answers_blitBuffer : answers.

Lemma answers_hexWrite buf s offset n : offset <= vlen buf -> counts buf offset (hexWrite buf s offset n).
Proof.
  intros H. unfold hexWrite. cbv zeta. eapply answers_weaken; [apply answers_hex_loop|]. intros z [L U]. split; [exact L|].
  set (len := if n =? 0 then _ else _) in U.
  assert (len <= vlen buf - offset) by (unfold len; destruct (n =? 0); [lia|]; destruct (Z.ltb_spec (vlen buf - offset) n); lia).
  set (two := if _ <? 2 * len then _ else 2 * len) in U.
  assert (two <= 2 * len) by (unfold two; destruct (Z.ltb_spec (Z.of_nat (length s)) (2 * len)); lia).
  assert ((two + 1) / 2 <= len) by (apply Z.lt_succ_r, Z.div_lt_upper_bound; lia). lia.
Qed.
#[export] Hint Resolve answers_hexWrite : answers.

Lemma answers_write_args this o l e : answers (fun a => 0 <= fst (fst a)) (write_args this o l e).
Proof. unfold write_args. answers_tac; cbn [fst]; lia. Qed.

Lemma answers_write this s o l e : answers (fun z => 0 <= z <= vlen this) (BufferCore.write this s o l e).
Proof.
  unfold BufferCore.write. eapply answers_bind; [apply answers_write_args|]. intros [[offset len] enc] O. cbn [fst] in O. cbv zeta.
  destruct (_ || _) eqn:B; [apply answers_throw|]. apply orb_false_iff in B as [_ B]. apply Z.ltb_ge in B.
  apply (answers_weaken (fun z => 0 <= z <= vlen this - offset)); [|intros z; cbv beta; lia].
  destruct (switch_encoding _) as [[]|]; unfold utf8Write, asciiWrite, base64Write, ucs2Write; answers_tac.
Qed.

(** *** Offsets after a write *)

Lemma answers_assert_int noAssert this value o n max min : truthy noAssert = false ->
  answers (fun _ => o + n <= vlen this) (assert_int noAssert this value o n max min).
Proof.
  intros H. unfold assert_int, checkInt. rewrite H. destruct (negb _); [apply answers_throw|].
  destruct (_ || _); [apply answers_throw|]. destruct (Z.ltb_spec (vlen this) (o + n)); [apply answers_throw|apply answers_ret; lia].
Qed.

Lemma answers_checkIEEE754 noAssert this value o n : truthy noAssert = false ->
  answers (fun _ => o + n <= vlen this) (if truthy noAssert then ret tt else checkIEEE754 this value o n).
Proof.
  intros ->. unfold checkIEEE754. destruct (Z.ltb_spec (vlen this) (o + n)); [apply answers_throw|].
  destruct (_ <? 0); [apply answers_throw|apply answers_ret; lia].
Qed.
#[export] Hint Resolve answers_assert_int answers_checkIEEE754 : answers.

Abbreviation ends_after this n := (answers (fun z => n <= z <= vlen this)).

Lemma toU32_width n : (1 <= n <= 6)%nat -> toU32 (Num (of_Z (Z.of_nat n))) = ret (Z.of_nat n).
Proof.
  intros H. change (toU32 (Num (of_Z (Z.of_nat n)))) with (@ret heap exn Z (ToUint32 (of_Z (Z.of_nat n)))).
  rewrite ToUint32_of_Z, Z.mod_small by lia. reflexivity.
Qed.

Lemma answers_write_method a this value offset noAssert : supported a -> truthy noAssert = false ->
  ends_after this (Z.of_nat (width a)) (write_method a this value offset noAssert).
Proof.
  unfold supported. intros S N. destruct a as [[]|[] []|[] []|[] [] n]; cbn [write_method width] in *;
    unfold writeUInt8, writeInt8, writeUInt16BE, writeUInt16LE, writeInt16BE, writeInt16LE, writeUInt32BE,
      writeUInt32LE, writeInt32BE, writeInt32LE, writeUIntBE, writeUIntLE, writeIntBE, writeIntLE;
    rewrite ?toU32_width by exact S; answers_tac; lia.
Qed.

Lemma answers_write_float log f big this value offset noAssert : truthy noAssert = false ->
  ends_after this (Z.of_nat (fbytes f)) (write_float log f big this value offset noAssert).
Proof.
  intros N. destruct f, big; cbn [write_float fbytes];
    unfold writeFloatLE, writeFloatBE, writeDoubleLE, writeDoubleBE, writeFloat, writeDouble; answers_tac; lia.
Qed.

(** A finite Number equal to another, but for zero, is that Number. *)
Lemma feq_same a b : feq a b = true -> (exists s t, a = S754_zero s /\ b = S754_zero t) \/ a = b.
Proof.
  unfold feq, SFeqb. destruct a as [s|s| |s m e], b as [t|t| |t k g]; cbn -[Z.compare Pos.compare];
    try destruct s; try destruct t; try discriminate; eauto;
    destruct (Z.compare_spec e g) as [->| |]; try discriminate;
    fold (Pos.compare m k); destruct (Pos.compare_spec m k) as [->| |]; try discriminate; auto.
Qed.

(** Two valid indices of a view, the second [k] after the first. *)
Lemma has_index_offset buf n k : vlen buf < 2 ^ 32 -> 0 < k < 2 ^ 32 ->
  has_index buf n = true -> has_index buf (fadd n (of_Z k)) = true -> 0 <= to_integer n /\ to_integer n + k < vlen buf.
Proof.
  unfold has_index. cbv zeta. intros B Hk H K. apply andb_true_iff in H as [H U], K as [K U'].
  apply andb_true_iff in H as [E L], K as [_ _]. apply Z.leb_le in L. apply Z.ltb_lt in U. split; [exact L|].
  replace (fadd n (of_Z k)) with (of_Z (to_integer n + k)) in U'.
  - rewrite to_integer_of_Z in U' by lia. apply Z.ltb_lt in U'. exact U'.
  - rewrite <- fadd_of_Z by lia. destruct (feq_same _ _ E) as [(s & t & Ez & ->)|Ez]; [|rewrite Ez at 1; reflexivity].
    cbn [to_integer]. destruct (of_Z_shape k ltac:(lia)) as [[-> _]|(_ & r & m & e & ->)]; [lia|]. reflexivity.
Qed.

Lemma answers_checkIntBI value min max buf offset : vlen buf < 2 ^ 32 ->
  answers (fun _ => exists n, offset = Num n /\ 0 <= to_integer n /\ to_integer n + 7 < vlen buf)
    (checkIntBI value min max buf offset 7).
Proof.
  intros B. unfold checkIntBI. destruct (_ || _); [apply answers_throw|]. unfold checkBounds.
  destruct offset; try apply answers_throw. cbn [validateNumber]. do 2 apply answers_known.
  destruct (has_index buf n) eqn:H, (has_index buf (fadd n (of_Z 7))) eqn:K; cbn [negb orb];
    try (unfold boundsError; answers_tac; fail).
  apply answers_ret. exists n. split; [reflexivity|]. apply has_index_offset; (assumption || lia).
Qed.

Lemma answers_write_big sgn big this value offset : vlen this < 2 ^ 32 ->
  ends_after this 8 (write_big sgn big this value offset).
Proof.
  intros B. destruct sgn, big; cbn [write_big];
    unfold writeBigUInt64LE, writeBigUInt64BE, writeBigInt64LE, writeBigInt64BE, wrtBigUInt64LE, wrtBigUInt64BE;
    (eapply answers_bind; [apply answers_checkIntBI, B|intros _ (n & -> & L & U)]; apply answers_known; answers_tac; lia).
Qed.

(** *** Numbers read *)

Lemma toU32_known v : (exists o, offset_is v o) \/ (exists e, forall h, toU32 v h = (h, Throw e)).
Proof. destruct v; try (left; eexists; intros h; reflexivity). right. eexists. intros h. reflexivity. Qed.

Lemma ordered_byte big l : Forall byte l -> Forall byte (ordered big l).
Proof. intros H. destruct big; [apply Forall_reverse|]; exact H. Qed.

Lemma decode_bounds big sgn l : l <> [] -> Forall byte l ->
  min_of sgn (length l) <= decode big sgn l <= max_of sgn (length l).
Proof.
  intros N H. pose proof (le_val_bounds _ (ordered_byte big l H)) as B. rewrite length_ordered, pow256 in B.
  assert (L : (1 <= length l)%nat) by (destruct l; [contradiction|cbn; lia]).
  assert (D : 2 ^ (8 * Z.of_nat (length l)) = 2 * 2 ^ (8 * Z.of_nat (length l) - 1)).
  { rewrite <- Z.pow_succ_r by lia. f_equal. lia. }
  unfold decode, min_of, max_of, signed. destruct sgn; [|lia]. destruct (Z.ltb_spec (le_val (ordered big l)) (2 ^ (8 * Z.of_nat (length l) - 1))); lia.
Qed.

Lemma seg_decode_bounds big sgn h this o n : heap_ok h -> view_ok h this -> (0 < n)%nat -> 0 <= o ->
  o + Z.of_nat n <= vlen this -> min_of sgn n <= decode big sgn (seg h this o n) <= max_of sgn n.
Proof.
  intros H V N O L. pose proof (length_seg h this o n V O L) as E.
  pose proof (decode_bounds big sgn (seg h this o n)) as D. rewrite E in D. apply D.
  - intros Z. rewrite Z in E. cbn in E. lia.
  - apply seg_bytes, H.
Qed.

Lemma read_method_type a this offset noAssert h v : heap_ok h -> view_ok h this -> supported a ->
  truthy noAssert = false -> snd (read_method a this offset noAssert h) = Ok v ->
  holds_value (TInt (min_of (is_signed a) (width a)) (max_of (is_signed a) (width a))) v.
Proof.
  intros H V S N. destruct (toU32_known offset) as [[o O]|[e O]].
  - pose proof (offset_is_bounds _ _ O). destruct (Z.ltb_spec (vlen this) (o + Z.of_nat (width a))) as [L|L].
    + destruct (read_head h this offset noAssert o O a S) as [K ->].
      erewrite bind_throw; [discriminate|]. unfold assert_offset. rewrite N. apply checkOffset_beyond; lia.
    + rewrite (read_run h this offset noAssert o H V O ltac:(lia) a S L). intros [= <-]. eexists. split; [reflexivity|].
      unfold supported in S. apply seg_decode_bounds; (assumption || lia).
  - destruct a as [[]|[] []|[] []|[] [] n]; cbn [read_method];
      unfold readUInt8, readInt8, readUInt16BE, readUInt16LE, readInt16BE, readInt16LE, readUInt32BE,
        readUInt32LE, readInt32BE, readInt32LE, readUIntBE, readUIntLE, readIntBE, readIntLE;
      rewrite (bind_throw _ _ _ _ _ (O h)); discriminate.
Qed.

Lemma read_big_type sgn big this offset h v : heap_ok h -> view_ok h this ->
  snd (read_big sgn big this offset h) = Ok v -> holds_value (TBigInt (min_of sgn 8) (max_of sgn 8)) v.
Proof.
  intros H V. destruct (toU32_known offset) as [[o O]|[e O]].
  - pose proof (offset_is_bounds _ _ O). destruct (Z.ltb_spec (vlen this) (o + 8)) as [L|L].
    + rewrite (read_big_beyond h this offset o) by assumption. discriminate.
    + rewrite (read_big_run h this offset o) by assumption. intros [= <-]. eexists. split; [reflexivity|].
      apply seg_decode_bounds; (assumption || lia).
  - destruct sgn, big; cbn [read_big]; unfold readBigUInt64LE, readBigUInt64BE, readBigInt64LE, readBigInt64BE;
      rewrite (bind_throw _ _ _ _ _ (O h)); discriminate.
Qed.

Lemma word_bounds h v o big n : heap_ok h -> view_ok h v -> 0 <= o -> o + Z.of_nat n <= vlen v ->
  0 <= word h v o big n < 2 ^ (8 * Z.of_nat n).
Proof.
  intros H V O L. unfold word. pose proof (le_val_bounds _ (ordered_byte big _ (seg_bytes h v o n H))) as B.
  rewrite length_ordered, length_seg, pow256 in B by assumption. exact B.
Qed.

Lemma read_float_type f big this offset noAssert h n : heap_ok h -> view_ok h this -> truthy noAssert = false ->
  snd (read_float f big this offset noAssert h) = Ok n -> holds_value (TFloat f) (Num n).
Proof.
  intros H V N. destruct (toU32_known offset) as [[o O]|[e O]].
  - pose proof (offset_is_bounds _ _ O). destruct (Z.ltb_spec (vlen this) (o + Z.of_nat (fbytes f))) as [L|L].
    + destruct f, big; cbn [read_float fbytes] in *; unfold readFloatLE, readFloatBE, readDoubleLE, readDoubleBE;
        erewrite bind_ok by apply O; (erewrite bind_throw; [discriminate|]);
        unfold assert_offset; rewrite N; apply checkOffset_beyond; lia.
    + pose proof (float_read_run f big h this o H V ltac:(lia) L) as R.
      replace (read_float f big this offset noAssert h) with (h, @Ok exn num (ieee_value (fraction_bits f) (exponent_bits f) (word h this o big (fbytes f)))).
      * intros [= <-]. eexists. split; [reflexivity|]. apply word_bounds; (assumption || lia).
      * rewrite <- R. destruct f, big; cbn [read_float fbytes] in *;
          unfold readFloatLE, readFloatBE, readDoubleLE, readDoubleBE; (erewrite bind_ok by apply O);
          (erewrite bind_ok by (apply assert_offset_ok; lia)); reflexivity.
  - destruct f, big; cbn [read_float]; unfold readFloatLE, readFloatBE, readDoubleLE, readDoubleBE;
      rewrite (bind_throw _ _ _ _ _ (O h)); discriminate.
Qed.

(** ** Calls answer values of their types *)

(** From what a computation answers to a value of a type. *)
Lemma answers_value {A} (P : A -> Prop) (T : jstype) m (inject : A -> val) : answers P m ->
  (forall a, P a -> holds_value T (inject a)) -> answers (holds_value T) (let! a := m in ret (inject a)).
Proof. intros G W. eapply answers_bind; [exact G|]. intros a H. apply answers_ret, W, H. Qed.

Lemma bind_answer {A} (m : M A) (inject : A -> val) h v : snd ((let! a := m in ret (inject a)) h) = Ok v ->
  exists a, snd (m h) = Ok a /\ v = inject a.
Proof. unfold bind. destruct (m h) as [h' [a|e]]; [|discriminate]. intros [= <-]. exists a. auto. Qed.

Lemma answers_view m : buffers m -> answers (holds_value TBuffer) (let! w := m in ret (VView w)).
Proof. intros G. apply (answers_value _ _ _ VView G). intros w H. exists w. auto. Qed.

Lemma answers_this this m : answers (eq this) m -> answers (holds_value (TThis this)) (let! w := m in ret (VView w)).
Proof. intros G. apply (answers_value _ _ _ VView G). intros w <-. reflexivity. Qed.

Lemma answers_int lo hi m : answers (fun z => lo <= z <= hi) m ->
  answers (holds_value (TInt lo hi)) (let! z := m in ret (Num (of_Z z))).
Proof. intros G. apply (answers_value _ _ _ (fun z => Num (of_Z z)) G). intros z H. exists z. auto. Qed.

Lemma answers_number m : answers (holds_value TNumber) (let! n := m in ret (Num n)).
Proof. apply answers_any. intros n. apply answers_ret. exists n. reflexivity. Qed.

(** C3: type soundness of the Buffer methods.  In every state a program can reach
    and for all arguments it can make, a call that answers, its range checks on,
    answers a value of its type: a constructor or a slice a Buffer, [fill] and the
    swaps the Buffer itself, [write] a count of bytes that fit, an integer, BigInt
    or floating point writer an offset inside the Buffer and past the bytes
    written, a reader a Number or BigInt of the range of its width and sign, or one
    that the format represents, a comparison -1, 0 or 1, and [toString] a text
    well written in its encoding: pairs of hexadecimal digits, whole characters
    without a lone surrogate, 7-bit or 8-bit characters, padded quads of the
    Base64 alphabet. *)
Theorem answers_typed h vs c v : reaches h vs -> given h vs c -> asserted c ->
  snd (evaluate c h) = Ok v -> holds_value (type_of c) v.
Proof.
  intros R G A E. destruct (reaches_ok h vs R) as [H [F _]]. pose proof (proj1 H) as Hh.
  assert (V : Forall (view_ok h) (views_of c)).
  { eapply Forall_impl; [apply G|]. intros w Hw. rewrite Forall_forall in F. apply F, Hw. }
  destruct c; cbn [evaluate views_of asserted type_of] in *; cbv zeta in E;
    repeat match goal with F : Forall _ (_ :: _) |- _ => apply Forall_cons in F; destruct F end;
    try (revert E; apply answers_view || apply answers_this || apply answers_int || apply answers_number).
  - apply answers_from.
  - apply answers_Buffer.
  - apply answers_alloc.
  - apply answers_allocUnsafe.
  - apply answers_SlowBuffer.
  - apply answers_concat.
  - apply answers_slice.
  - apply answers_write.
  - apply answers_fill.
  - apply answers_swap.
  - destruct A. apply answers_write_method; assumption.
  - apply answers_write_big. destruct H0 as (_ & _ & _ & ? & _). assumption.
  - apply answers_write_float, A.
  - destruct A. eapply read_method_type; eassumption.
  - eapply read_big_type; eassumption.
  - apply bind_answer in E as (n & Ef & ->). eapply read_float_type; eassumption.
  - apply bind_answer in E as (s & Es & ->). exists s. split; [reflexivity|].
    destruct (text_toString this args h H ltac:(assumption)) as [_ T]. apply T, Es.
  - apply answers_compare.
  - apply answers_prototype_compare.
Qed.

(** ** An instance *)

(** Two calls on the Buffer of four zero bytes. *)
Lemma answers_typed_witness :
  holds_value (TInt (-32768) 32767) (Num (of_Z 0)) /\ holds_value (TText (Str (js "base64"))) (Str (js "AAAAAA==")).
Proof.
  split.
  - refine (answers_typed sample_state [sample_buffer] (CallReadInt (Acc16 true true) sample_buffer (Num (of_Z 2)) Undefined)
      _ sample_reaches _ _ _).
    + split; repeat constructor.
    + split; [split; cbn; lia|reflexivity].
    + vm_compute. reflexivity.
  - refine (answers_typed sample_state [sample_buffer]
      (CallToString sample_buffer (Some (Str (js "base64"), Undefined, Undefined))) _ sample_reaches _ I _).
    + split; repeat constructor.
    + vm_compute. reflexivity.
Defined.

(** The two Numbers the types leave open.  A fraction is not truncated: a copy to
    half an index counts half a byte it does not move, and a search in UTF-16 from
    half an index answers half an index. *)
Example copy_fraction : run (let! b := from (Str (js "abcab")) Undefined Undefined in
    copy b (VView b) (Num (dy 1 (-1))) Undefined Undefined) = Ok (dy 9 (-1)).
Proof. vm_compute. reflexivity. Qed.
Example index_fraction : run (let! b := from (Str (js "abcab")) (Str (js "ucs2")) Undefined in
    indexOf b (Str (js "ab")) (Num (dy 1 (-1))) (Str (js "ucs2"))) = Ok (dy 1 (-1)).
Proof. vm_compute. reflexivity. Qed.
