(* ===== verification/Event.v ===== *)
(** The globals [Event] and [EventTarget] (js_globals/event.js): the fields and
    flags of an event, [composedPath], the listener lists of a target and the
    dispatch over them.

    A listener's code belongs to the program that runs on the library: calling
    it is the argument [call] of the dispatch, a state transformer that may
    throw and may use every operation of this file.  [AbortSignal] is native:
    reading its [aborted] flag and registering an abort handler are arguments
    too. *)

From Stdlib Require Import String.
From stdpp Require Import base numbers list gmap.
From S2P Require Import Prelude JsNumber JsValue.

Local Open Scope Z_scope.
Local Open Scope js_scope.

(** ** Events *)

(** Objects are named by their identity; [None] is [null]. *)
Definition object : Type := nat.
Bind Scope nat_scope with object.

(** An entry of an event's path, as far as [composedPath] reads it. *)
Record path_item : Type := PathItem {
  item : object;
  rootOfClosedTree : bool;
  slotInClosedTree : bool }.

Record event : Type := Event {
  type : jsstr;
  target : option object;
  srcElement : option object;
  currentTarget : option object;
  eventPhase : Z;
  bubbles : bool;
  cancelable : bool;
  isTrusted : bool;
  timeStamp : Z;
  path : list path_item;
  stopPropagationFlag : bool;
  stopImmediatePropagationFlag : bool;
  canceledFlag : bool;
  inPassiveListenerFlag : bool;
  composedFlag : bool;
  initializedFlag : bool;
  dispatchFlag : bool }.

Definition NONE : Z := 0.
Definition CAPTURING_PHASE : Z := 1.
Definition AT_TARGET : Z := 2.
Definition BUBBLING_PHASE : Z := 3.

(** [v?.k] of an initialisation dictionary. *)
Definition member (v : val) (k : string) : val :=
  match v with
  | VObj props _ _ =>
      match List.find (fun p => str_eqb (fst p) (js k)) props with
      | Some (_, x) => x
      | None => Undefined
      end
  | _ => Undefined
  end.

(** [new Event(type, eventInitDict)]. *)
Definition new_event (ty : jsstr) (eventInitDict : val) : event :=
  Event ty None None None NONE
    (truthy (member eventInitDict "bubbles")) (truthy (member eventInitDict "cancelable"))
    false 0 [] false false false false
    (truthy (member eventInitDict "composed")) true false.

(** *** Flags *)

Definition stopPropagation (e : event) : event :=
  Event (type e) (target e) (srcElement e) (currentTarget e) (eventPhase e) (bubbles e) (cancelable e)
    (isTrusted e) (timeStamp e) (path e) true (stopImmediatePropagationFlag e) (canceledFlag e)
    (inPassiveListenerFlag e) (composedFlag e) (initializedFlag e) (dispatchFlag e).

Definition cancelBubble (e : event) : bool := stopPropagationFlag e.
Definition set_cancelBubble (value : val) (e : event) : event :=
  if truthy value then stopPropagation e else e.

Definition stopImmediatePropagation (e : event) : event :=
  Event (type e) (target e) (srcElement e) (currentTarget e) (eventPhase e) (bubbles e) (cancelable e)
    (isTrusted e) (timeStamp e) (path e) true true (canceledFlag e)
    (inPassiveListenerFlag e) (composedFlag e) (initializedFlag e) (dispatchFlag e).

Definition preventDefault (e : event) : event :=
  Event (type e) (target e) (srcElement e) (currentTarget e) (eventPhase e) (bubbles e) (cancelable e)
    (isTrusted e) (timeStamp e) (path e) (stopPropagationFlag e) (stopImmediatePropagationFlag e) true
    (inPassiveListenerFlag e) (composedFlag e) (initializedFlag e) (dispatchFlag e).

Definition returnValue (e : event) : bool := negb (canceledFlag e).
Definition set_returnValue (value : val) (e : event) : event :=
  if truthy value then e else preventDefault e.

Definition defaultPrevented (e : event) : bool := canceledFlag e.
Definition composed (e : event) : bool := composedFlag e.
Definition initEvent (ty : jsstr) (b c : val) (e : event) : event := e.

Definition dispatched (e : event) : bool := dispatchFlag e.
Definition set_dispatched (value : bool) (e : event) : event :=
  Event (type e) (target e) (srcElement e) (currentTarget e) (eventPhase e) (bubbles e) (cancelable e)
    (isTrusted e) (timeStamp e) (path e) (stopPropagationFlag e) (stopImmediatePropagationFlag e)
    (canceledFlag e) (inPassiveListenerFlag e) (composedFlag e) (initializedFlag e) value.

Definition initialized (e : event) : bool := initializedFlag e.
Definition set_initialized (value : bool) (e : event) : event :=
  Event (type e) (target e) (srcElement e) (currentTarget e) (eventPhase e) (bubbles e) (cancelable e)
    (isTrusted e) (timeStamp e) (path e) (stopPropagationFlag e) (stopImmediatePropagationFlag e)
    (canceledFlag e) (inPassiveListenerFlag e) (composedFlag e) value (dispatchFlag e).

(** *** [composedPath] *)

(** The first loop: from the end of the path down to the current target; it
    answers [currentTargetIndex] and [currentTargetHiddenSubtreeLevel]. *)
Fixpoint find_current (p : list path_item) (current : object) (n : nat) (level : Z) : nat * Z :=
  match n with
  | O => (0%nat, level)
  | S i =>
      match p !! i with
      | Some x =>
          let level := if rootOfClosedTree x then level + 1 else level in
          if Nat.eqb (item x) current then (i, level)
          else find_current p current i (if slotInClosedTree x then level - 1 else level)
      | None => find_current p current i level
      end
  end.

(** One turn of the two other loops: [enter] raises the hidden level before the
    item is looked at, [leave] lowers it after.  The state is the list built so
    far, [currentHiddenLevel] and [maxHiddenLevel]. *)
Definition path_turn (add : object -> list object -> list object) (enter leave : path_item -> bool)
    (st : list object * Z * Z) (x : path_item) : list object * Z * Z :=
  let '(acc, cur, max) := st in
  let cur := if enter x then cur + 1 else cur in
  let acc := if cur <=? max then add (item x) acc else acc in
  if leave x then
    let cur := cur - 1 in (acc, cur, if cur <? max then cur else max)
  else (acc, cur, max).

Definition composedPath (e : event) : outcome fault (list object) :=
  match path e with
  | [] => Ok []
  | p =>
      match currentTarget e with
      | None => Throw (Error "Error in composedPath: currentTarget is not found.")
      | Some current =>
          let '(i, level) := find_current p current (length p) 0 in
          let '(acc, _, _) :=
            fold_left (path_turn cons rootOfClosedTree slotInClosedTree) (reverse (take i p)) ([current], level, level) in
          let '(acc, _, _) :=
            fold_left (path_turn (fun x l => l ++ [x]) slotInClosedTree rootOfClosedTree)
                      (drop (S i) p) (acc, level, level) in
          Ok acc
      end
  end.

(** ** Event targets *)

(** The callback argument of [addEventListener]: anything is accepted. *)
Inductive callback : Type :=
| CNull
| CUndefined
| CObject (id : nat)
| CFunction (id : nat).

#[export] Instance callback_eq_dec : EqDecision callback.
Proof. solve_decision. Defined.

(** An options dictionary; a member that is not given is [Undefined]. *)
Record options : Type := Options {
  capture : val;
  once : val;
  passive : val;
  signal : option object }.

(** The options argument: absent, [null], a Boolean or a dictionary. *)
Inductive opt_arg : Type :=
| OUndefined
| ONull
| OBool (b : bool)
| OObj (o : options).

Record listener : Type := Listener { lcallback : callback; loptions : opt_arg }.

(** [eventTargetData.listeners] of one target. *)
Abbreviation listener_map := (gmap jsstr (list listener)).

(** The closure registered on a signal:
    [() => self.removeEventListener(type, callback, options)]. *)
Record abort_handler : Type := AbortHandler {
  ah_self : object; ah_type : jsstr; ah_callback : callback; ah_options : opt_arg }.

(** The state: the listeners of every target, every event, and the state of
    the program that uses them. *)
Record world (U : Type) : Type := World {
  targets : gmap object listener_map;
  events : gmap object event;
  user : U }.
Arguments World {U}. Arguments targets {U}. Arguments events {U}. Arguments user {U}.

Section EventTarget.
Context {U : Type}.

(** [signal.aborted] and [signal.addEventListener("abort", handler)]. *)
Variable aborted : U -> object -> bool.
Variable on_abort : object -> abort_handler -> U -> U.

(** Calling a listener's function with an event. *)
Variable call : nat -> object -> comp (world U) fault unit.

Abbreviation E A := (comp (world U) fault A).

Definition listeners_of (w : world U) (self : object) : listener_map := default ∅ (targets w !! self).

(** [listeners[type]], a missing one as the empty list. *)
Definition list_of (w : world U) (self : object) (ty : jsstr) : list listener :=
  default [] (listeners_of w self !! ty).

(** [listeners[type] = l]. *)
Definition set_list (self : object) (ty : jsstr) (l : list listener) (w : world U) : world U :=
  World (<[self := <[ty := l]> (listeners_of w self)]> (targets w)) (events w) (user w).

Definition default_options : opt_arg := OObj (Options (Bool false) (Bool false) Undefined None).

Definition flattenOptions (o : opt_arg) : opt_arg :=
  match o with
  | OBool b => OObj (Options (Bool b) (Bool false) (Bool false) None)
  | _ => o
  end.

(** [if (options)]. *)
Definition opt_truthy (o : opt_arg) : bool :=
  match o with OUndefined | ONull => false | OBool b => b | OObj _ => true end.

(** [options.capture], which throws on [null] and [undefined]. *)
Definition get_capture (o : opt_arg) : E val :=
  match o with
  | OObj o => ret (capture o)
  | OBool _ => ret Undefined
  | OUndefined | ONull => throw (TypeError "options is null")
  end.

Definition callback_eqb (a b : callback) : bool := bool_decide (a = b).

(** [(matchWithBooleanOptions || matchWithObjectOptions) && matchCallback]. *)
Definition matches (c : callback) (o : opt_arg) (l : listener) : E bool :=
  let! m := match loptions l with
            | OBool b => let! x := get_capture o in ret (strict_eq (Bool b) x)
            | OObj lo => let! x := get_capture o in ret (strict_eq (capture lo) x)
            | ONull => throw (TypeError "listener.options is null")
            | OUndefined => ret false
            end in
  ret (m && callback_eqb (lcallback l) c).

(** The index of the first listener that matches. *)
Fixpoint find_match (c : callback) (o : opt_arg) (ls : list listener) (i : nat) : E (option nat) :=
  match ls with
  | [] => ret None
  | l :: ls' => let! b := matches c o l in if b then ret (Some i) else find_match c o ls' (S i)
  end.

Definition addEventListener (self : object) (ty : jsstr) (c : callback) (o : opt_arg) : E unit :=
  match c with
  | CNull => ret tt
  | _ =>
      let o := if opt_truthy o then flattenOptions o else default_options in
      do! modify (fun w => match listeners_of w self !! ty with
                           | Some _ => w
                           | None => set_list self ty [] w
                           end) in
      let! listenerList := read (fun w => list_of w self ty) in
      let! found := find_match c o listenerList 0 in
      match found with
      | Some _ => ret tt
      | None =>
          let push := modify (fun w => set_list self ty (list_of w self ty ++ [Listener c o]) w) in
          match o with
          | OObj (Options _ _ _ (Some s)) =>
              let! ab := read (fun w => aborted (user w) s) in
              if ab then ret tt
              else
                do! modify (fun w => World (targets w) (events w)
                                      (on_abort s (AbortHandler self ty c o) (user w))) in
                push
          | _ => push
          end
      end
  end.

Definition removeEventListener (self : object) (ty : jsstr) (c : callback) (o : opt_arg) : E unit :=
  let! ls := read (fun w => list_of w self ty) in
  match ls with
  | [] => ret tt
  | _ =>
      let o := match o with
               | OBool b => OObj (Options (Bool b) Undefined Undefined None)
               | OUndefined => OObj (Options (Bool false) Undefined Undefined None)
               | _ => o
               end in
      let! found := find_match c o ls 0 in
      match found with
      | Some i => modify (set_list self ty (delete i ls))
      | None => ret tt
      end
  end.

(** The handler [addEventListener] registers on a signal. *)
Definition run_abort (a : abort_handler) : E unit :=
  removeEventListener (ah_self a) (ah_type a) (ah_callback a) (ah_options a).

(** *** Dispatch *)

(** [listener.callback(event)]. *)
Definition invoke (l : listener) (ev : object) : E unit :=
  match lcallback l with
  | CFunction f => call f ev
  | _ => throw (TypeError "listener.callback is not a function")
  end.

(** [forEach] visits the indices below the length it found, those that still
    exist when their turn comes; the list is the live one. *)
Fixpoint dispatch_loop (self : object) (ty : jsstr) (ev : object) (k n : nat) : E unit :=
  match n with
  | O => ret tt
  | S n' =>
      let! l := read (fun w => list_of w self ty !! k) in
      do! match l with Some l => invoke l ev | None => ret tt end in
      dispatch_loop self ty ev (S k) n'
  end.

Definition dispatch (self ev : object) : E bool :=
  let! ty := read (fun w => from_option type [] (events w !! ev)) in
  let! ls := read (fun w => listeners_of w self !! ty) in
  match ls with
  | None => throw (TypeError "eventTarget.eventTargetData.listeners[event.type] is undefined")
  | Some ls =>
      do! dispatch_loop self ty ev 0 (length ls) in
      ret true
  end.

Definition invalid_state : fault := DOMException "Invalid event state." "InvalidStateError".

Definition dispatchEvent (self ev : object) : E bool :=
  let! e := read (fun w => events w !! ev) in
  match e with
  | None => throw (TypeError "event is undefined")
  | Some e =>
      if dispatched e || negb (initialized e) then throw invalid_state
      else if negb (eventPhase e =? NONE) then throw invalid_state
      else dispatch self ev
  end.

End EventTarget.
