(* ===== verification/EventFacts.v ===== *)
(** What events and event targets do: the flags after any sequence of method
    calls, the path an event shows, the invariant of the listener lists and the
    effect of adding, removing, aborting and dispatching. *)

From Stdlib Require Import String.
From stdpp Require Import base numbers list gmap relations.
From S2P Require Import Prelude JsNumber JsValue Event.

Local Open Scope Z_scope.
Local Open Scope js_scope.

(** ** Flags *)

(** The calls a program can make on an event. *)
Inductive event_call : Type :=
| StopPropagation
| StopImmediatePropagation
| SetCancelBubble (v : val)
| SetReturnValue (v : val)
| PreventDefault
| InitEvent (ty : jsstr) (b c : val).

Definition run_call (c : event_call) (e : event) : event :=
  match c with
  | StopPropagation => stopPropagation e
  | StopImmediatePropagation => stopImmediatePropagation e
  | SetCancelBubble v => set_cancelBubble v e
  | SetReturnValue v => set_returnValue v e
  | PreventDefault => preventDefault e
  | InitEvent ty b c => initEvent ty b c e
  end.

Definition run_calls (cs : list event_call) (e : event) : event := fold_left (fun e c => run_call c e) cs e.

(** The calls that cancel the event, and those that stop its propagation. *)
Definition cancels (c : event_call) : bool :=
  match c with PreventDefault => true | SetReturnValue v => negb (truthy v) | _ => false end.
Definition stops (c : event_call) : bool :=
  match c with
  | StopPropagation | StopImmediatePropagation => true
  | SetCancelBubble v => truthy v
  | _ => false
  end.

(** Two events that differ in the propagation and canceled flags only. *)
Definition same_but_flags (e e' : event) : Prop :=
  (type e, target e, srcElement e, currentTarget e, eventPhase e, bubbles e, cancelable e) =
  (type e', target e', srcElement e', currentTarget e', eventPhase e', bubbles e', cancelable e') /\
  (isTrusted e, timeStamp e, path e, composed e, initialized e, dispatched e) =
  (isTrusted e', timeStamp e', path e', composed e', initialized e', dispatched e').

Lemma run_call_same c e : same_but_flags (run_call c e) e.
Proof.
  destruct c as [| |v|v| |]; cbn; unfold set_cancelBubble, set_returnValue;
    try destruct (truthy v); split; reflexivity.
Qed.

Lemma run_call_flags c e :
  canceledFlag (run_call c e) = canceledFlag e || cancels c /\
  stopPropagationFlag (run_call c e) = stopPropagationFlag e || stops c.
Proof.
  destruct c as [| |v|v| |]; cbn; unfold set_cancelBubble, set_returnValue; try destruct (truthy v); cbn;
    rewrite ?orb_false_r, ?orb_true_r; split; reflexivity.
Qed.

Lemma run_calls_flags cs : forall e,
  canceledFlag (run_calls cs e) = canceledFlag e || existsb cancels cs /\
  stopPropagationFlag (run_calls cs e) = stopPropagationFlag e || existsb stops cs /\
  same_but_flags (run_calls cs e) e.
Proof.
  induction cs as [|c cs IH]; intros e; cbn.
  - rewrite !orb_false_r. repeat split; reflexivity.
  - destruct (IH (run_call c e)) as (C & S & B), (run_call_flags c e) as [C1 S1], (run_call_same c e) as [B1 B2].
    unfold run_calls in *. rewrite C, S, C1, S1, <- !orb_assoc.
    split; [reflexivity|]. split; [reflexivity|]. destruct B as [A1 A2].
    split; [rewrite A1; exact B1|rewrite A2; exact B2].
Qed.

(** ** The composed path *)

(** The items an onlooker at hidden depth 0 sees, walking away from the current
    target: [enter] opens a hidden tree, [leave] closes the innermost open one. *)
Fixpoint visible (enter leave : path_item -> bool) (depth : nat) (xs : list path_item) : list object :=
  match xs with
  | [] => []
  | x :: xs =>
      let depth := if enter x then S depth else depth in
      let rest := visible enter leave (if leave x then pred depth else depth) xs in
      match depth with O => item x :: rest | S _ => rest end
  end.

(** The index of the last entry of the path for an object, 0 when it has none. *)
Definition current_index (p : list path_item) (current : object) : nat := fst (find_current p current (length p) 0).

Lemma path_turns_visible add enter leave xs : forall acc cur max (d : nat),
  cur = max + Z.of_nat d ->
  fst (fst (fold_left (path_turn add enter leave) xs (acc, cur, max))) =
    fold_left (fun acc o => add o acc) (visible enter leave d xs) acc.
Proof.
  induction xs as [|x xs IH]; intros acc cur max d Hc; [reflexivity|]. cbn [fold_left visible].
  unfold path_turn at 2. set (d' := if enter x then S d else d).
  assert (Hc' : (if enter x then cur + 1 else cur) = max + Z.of_nat d') by (unfold d'; destruct (enter x); lia).
  rewrite Hc'. destruct d' as [|d''].
  - zbool. cbn [fold_left]. destruct (leave x).
    + zbool. rewrite (IH _ _ _ 0%nat) by lia. reflexivity.
    + rewrite (IH _ _ _ 0%nat) by lia. reflexivity.
  - zbool. destruct (leave x).
    + zbool. rewrite (IH _ _ _ d'') by lia. reflexivity.
    + rewrite (IH _ _ _ (S d'')) by lia. reflexivity.
Qed.

Lemma fold_cons (l acc : list object) : fold_left (fun acc o => o :: acc) l acc = reverse l ++ acc.
Proof.
  revert acc. induction l as [|o l IH]; intros acc; [reflexivity|]. cbn [fold_left].
  rewrite IH, reverse_cons, <- (assoc_L (++)). reflexivity.
Qed.

Lemma fold_snoc (l acc : list object) : fold_left (fun acc o => acc ++ [o]) l acc = acc ++ l.
Proof.
  revert acc. induction l as [|o l IH]; intros acc; cbn; [rewrite (right_id_L [] (++)); reflexivity|].
  rewrite IH, <- (assoc_L (++)). reflexivity.
Qed.

Lemma find_current_spec p current n : forall level, (n <= length p)%nat ->
  let i := fst (find_current p current n level) in
  ((i < n)%nat /\ (exists x, p !! i = Some x /\ item x = current) \/ i = 0%nat) /\
  forall j x, (i < j < n)%nat -> p !! j = Some x -> item x <> current.
Proof.
  induction n as [|n IH]; intros level Hn; [split; [right; reflexivity|cbn; lia]|].
  cbn [find_current]. destruct (lookup_lt_is_Some_2 p n ltac:(lia)) as [x Hx]. rewrite Hx.
  destruct (Nat.eqb_spec (item x) current) as [E|E].
  - split; [left; split; [cbn; lia|exists x; auto]|cbn; lia].
  - destruct (IH (if slotInClosedTree x then (if rootOfClosedTree x then level + 1 else level) - 1
                   else if rootOfClosedTree x then level + 1 else level) ltac:(lia)) as [A B].
    cbv zeta in *. split; [destruct A as [[A1 A2]|A]; [left; split; [lia|exact A2]|right; exact A]|].
    intros j y Hj Hy. destruct (decide (j = n)) as [->|N]; [congruence|]. apply (B j y); [lia|exact Hy].
Qed.

Lemma composed_fold p c :
  (let '(i, level) := find_current p c (length p) 0 in
   let '(acc, _, _) :=
     fold_left (path_turn cons rootOfClosedTree slotInClosedTree) (reverse (take i p)) ([c], level, level) in
   let '(acc, _, _) :=
     fold_left (path_turn (fun x l => l ++ [x]) slotInClosedTree rootOfClosedTree) (drop (S i) p) (acc, level, level) in
   @Ok fault _ acc) =
  Ok (reverse (visible rootOfClosedTree slotInClosedTree 0 (reverse (take (current_index p c) p))) ++ [c] ++
      visible slotInClosedTree rootOfClosedTree 0 (drop (S (current_index p c)) p)).
Proof.
  unfold current_index. destruct (find_current p c (length p) 0) as [i level]. cbn [fst].
  pose proof (path_turns_visible cons rootOfClosedTree slotInClosedTree (reverse (take i p)) [c] level level 0 ltac:(lia)) as A.
  destruct (fold_left _ (reverse (take i p)) _) as [[acc l1] l2]. cbn [fst] in A.
  pose proof (path_turns_visible (fun x l => l ++ [x]) slotInClosedTree rootOfClosedTree (drop (S i) p) acc level level 0
                ltac:(lia)) as B.
  destruct (fold_left _ (drop (S i) p) _) as [[acc' l3] l4]. cbn [fst] in B.
  rewrite B, fold_snoc, A, fold_cons, <- (assoc_L (++)). reflexivity.
Qed.

Lemma visible_items enter leave xs :
  Forall (fun x => enter x = false /\ leave x = false) xs -> visible enter leave 0 xs = map item xs.
Proof.
  induction 1 as [|x xs [E L] _ IH]; [reflexivity|]. cbn. rewrite E, L. f_equal. exact IH.
Qed.

Lemma map_reverse_path {A B} (f : A -> B) l : map f (reverse l) = reverse (map f l).
Proof. exact (fmap_reverse f l). Qed.

Lemma visible_plain p c :
  c ∈ map item p -> Forall (fun x => rootOfClosedTree x = false /\ slotInClosedTree x = false) p ->
  reverse (visible rootOfClosedTree slotInClosedTree 0 (reverse (take (current_index p c) p))) ++ [c] ++
  visible slotInClosedTree rootOfClosedTree 0 (drop (S (current_index p c)) p) = map item p.
Proof.
  intros In F. set (i := current_index p c).
  rewrite visible_items by (rewrite Forall_reverse; apply Forall_take, F).
  rewrite visible_items by (apply Forall_drop; eapply Forall_impl; [exact F|]; cbn; tauto).
  destruct (find_current_spec p c (length p) 0 ltac:(lia)) as [A B]. fold (current_index p c) i in A, B.
  assert (X : exists x, p !! i = Some x /\ item x = c).
  { destruct A as [[_ A]|A]; [exact A|].
    apply list_elem_of_fmap in In as (x & -> & Hx). apply list_elem_of_lookup in Hx as [j Hj].
    destruct (decide (j = 0%nat)) as [->|N]; [rewrite A; eauto|].
    exfalso. apply (B j x); [|exact Hj|reflexivity]. apply lookup_lt_Some in Hj. lia. }
  destruct X as (x & Hx & <-).
  transitivity (map item (take i p ++ [x] ++ drop (S i) p)).
  - rewrite !map_app. f_equal. rewrite map_reverse_path, reverse_involutive. reflexivity.
  - f_equal. apply take_drop_middle. exact Hx.
Qed.

(** ** Listener lists *)

Definition captures (l : listener) : val :=
  match loptions l with OObj o => capture o | _ => Undefined end.

(** The listeners a callback and a capture value match. *)
Definition is_match (c : callback) (x : val) (l : listener) : bool :=
  strict_eq (captures l) x && callback_eqb (lcallback l) c.

(** Every listener holds a dictionary, and none matches an earlier one. *)
Definition plain (l : listener) : Prop := exists o, loptions l = OObj o.

Fixpoint distinct (ls : list listener) : Prop :=
  match ls with
  | [] => True
  | l :: ls => Forall (fun m => is_match (lcallback m) (captures m) l = false) ls /\ distinct ls
  end.

Definition list_ok (ls : list listener) : Prop := Forall plain ls /\ distinct ls.

(** The position of the first listener that matches. *)
Fixpoint position (p : listener -> bool) (ls : list listener) : option nat :=
  match ls with
  | [] => None
  | l :: ls => if p l then Some 0%nat else S <$> position p ls
  end.

Lemma position_none p ls : position p ls = None <-> Forall (fun l => p l = false) ls.
Proof.
  induction ls as [|l ls IH]; cbn; [split; auto|]. destruct (p l) eqn:E.
  - split; [discriminate|]. intros H. inversion H. congruence.
  - destruct (position p ls) as [i|]; cbn; split; intros H; try discriminate.
    + inversion H as [|? ? _ H']; subst. apply IH in H'. discriminate.
    + constructor; [exact E|]. apply IH. reflexivity.
    + reflexivity.
Qed.

Lemma position_some p ls i : position p ls = Some i ->
  exists l, ls !! i = Some l /\ p l = true /\ Forall (fun l => p l = false) (take i ls).
Proof.
  revert i. induction ls as [|l ls IH]; intros i H; [discriminate|]. cbn in H. destruct (p l) eqn:E.
  - injection H as <-. exists l. split; [reflexivity|]. split; [exact E|constructor].
  - destruct (position p ls) as [j|]; [|discriminate]. injection H as <-.
    destruct (IH j eq_refl) as (m & A & B & C). exists m. split; [exact A|]. split; [exact B|].
    cbn. constructor; [exact E|exact C].
Qed.

Lemma position_app p ks ls :
  Forall (fun l => p l = false) ks -> position p (ks ++ ls) = (fun i => length ks + i)%nat <$> position p ls.
Proof.
  induction 1 as [|k ks Hk _ IH]; cbn.
  - destruct (position p ls); reflexivity.
  - rewrite Hk, IH. destruct (position p ls); reflexivity.
Qed.

Lemma distinct_app ks l :
  distinct ks -> Forall (fun k => is_match (lcallback l) (captures l) k = false) ks -> distinct (ks ++ [l]).
Proof.
  induction ks as [|k ks IH]; cbn; intros D H; [split; constructor|].
  inversion H; subst. destruct D as [D1 D2]. split.
  - apply Forall_app. split; [exact D1|]. constructor; [assumption|constructor].
  - apply IH; assumption.
Qed.

Lemma distinct_delete i ls : distinct ls -> distinct (delete i ls).
Proof.
  revert i. induction ls as [|l ls IH]; intros i; [destruct i; cbn; auto|]. intros [A B]. destruct i as [|i]; cbn.
  - exact B.
  - split; [apply Forall_delete; exact A|apply IH; exact B].
Qed.

Lemma list_ok_app ks l : list_ok ks -> plain l ->
  Forall (fun k => is_match (lcallback l) (captures l) k = false) ks -> list_ok (ks ++ [l]).
Proof.
  intros [P D] Hl F. split; [apply Forall_app; split; [exact P|constructor; [exact Hl|constructor]]|].
  apply distinct_app; assumption.
Qed.

Lemma list_ok_delete i ls : list_ok ls -> list_ok (delete i ls).
Proof. intros [P D]. split; [apply Forall_delete; exact P|apply distinct_delete; exact D]. Qed.

(** ** Adding and removing *)

Section Listeners.
Context {U : Type}.
Abbreviation remove := (@removeEventListener U).

Lemma list_of_set (w : world U) self ty l self' ty' :
  list_of (set_list self ty l w) self' ty' =
    if decide (self' = self /\ ty' = ty) then l else list_of w self' ty'.
Proof.
  unfold list_of, listeners_of, set_list. cbn [targets].
  destruct (decide (self' = self)) as [->|N].
  - rewrite lookup_insert_eq. simpl. destruct (decide (ty' = ty)) as [->|M].
    + rewrite lookup_insert_eq, decide_True by auto. reflexivity.
    + rewrite lookup_insert_ne, decide_False by (try congruence; tauto). reflexivity.
  - rewrite lookup_insert_ne, decide_False by (try congruence; tauto). reflexivity.
Qed.

Lemma list_of_set_eq (w : world U) self ty l : list_of (set_list self ty l w) self ty = l.
Proof. rewrite list_of_set, decide_True by auto. reflexivity. Qed.

Lemma find_match_run c o ls : forall i (w : world U), Forall plain ls ->
  find_match c (OObj o) ls i w = (w, Ok ((fun k => i + k)%nat <$> position (is_match c (capture o)) ls)).
Proof.
  induction ls as [|l ls IH]; intros i w P; [reflexivity|]. inversion P as [|? ? [lo Hl] P']; subst.
  cbn [find_match position]. unfold matches, is_match, captures at 1. rewrite Hl.
  cbn [get_capture]. unfold bind, ret. cbn.
  destruct (strict_eq (capture lo) (capture o) && callback_eqb (lcallback l) c).
  - cbn. rewrite Nat.add_0_r. reflexivity.
  - rewrite IH by exact P'. destruct (position _ ls); cbn; [rewrite Nat.add_succ_r|]; reflexivity.
Qed.

(** The dictionary an options argument of [removeEventListener] stands for. *)
Definition removal_capture (o : opt_arg) : option val :=
  match o with
  | OUndefined => Some (Bool false)
  | OBool b => Some (Bool b)
  | OObj o => Some (capture o)
  | ONull => None
  end.

Lemma remove_run self ty c o x (w : world U) :
  Forall plain (list_of w self ty) -> removal_capture o = Some x ->
  remove self ty c o w =
    (match position (is_match c x) (list_of w self ty) with
     | Some i => set_list self ty (delete i (list_of w self ty)) w
     | None => w
     end, Ok tt).
Proof.
  intros P Hx. unfold removeEventListener. erewrite bind_ok by reflexivity.
  destruct (list_of w self ty) as [|l ls] eqn:E; [reflexivity|]. rewrite <- E in *.
  destruct o as [| |b|o]; try discriminate; injection Hx as <-;
    (erewrite bind_ok by (apply find_match_run; exact P)); cbn [capture];
    destruct (position _ _); reflexivity.
Qed.

Lemma remove_null self ty c (w : world U) :
  Forall plain (list_of w self ty) ->
  remove self ty c ONull w =
    (w, match list_of w self ty with [] => Ok tt | _ => Throw (TypeError "options is null") end).
Proof.
  intros P. unfold removeEventListener. erewrite bind_ok by reflexivity.
  destruct (list_of w self ty) as [|l ls]; [reflexivity|]. inversion P as [|? ? [lo Hl] _]; subst.
  cbn [find_match]. unfold matches. rewrite Hl. reflexivity.
Qed.

Variable aborted : U -> object -> bool.
Variable on_abort : object -> abort_handler -> U -> U.

Abbreviation add := (addEventListener aborted on_abort).

(** The dictionary [addEventListener] stores for an options argument. *)
Definition normal (o : opt_arg) : options :=
  match o with
  | OObj o => o
  | OBool true => Options (Bool true) (Bool false) (Bool false) None
  | _ => Options (Bool false) (Bool false) Undefined None
  end.

(** Whether a signal that has been aborted comes with the options. *)
Definition is_aborted (w : world U) (o : options) : bool :=
  match signal o with Some s => aborted (user w) s | None => false end.

(** The user state once the abort handler is registered. *)
Definition registered (self : object) (ty : jsstr) (c : callback) (o : options) (u : U) : U :=
  match signal o with Some s => on_abort s (AbortHandler self ty c (OObj o)) u | None => u end.

(** The list after adding: one more listener at the end, unless one matches or
    the signal is aborted. *)
Definition added (c : callback) (o : options) (stop : bool) (ls : list listener) : list listener :=
  match position (is_match c (capture o)) ls with
  | Some _ => ls
  | None => if stop then ls else ls ++ [Listener c (OObj o)]
  end.

Lemma add_null self ty o (w : world U) : add self ty CNull o w = (w, Ok tt).
Proof. reflexivity. Qed.

Lemma add_run self ty c o (w : world U) :
  c <> CNull -> Forall plain (list_of w self ty) ->
  exists w', add self ty c o w = (w', Ok tt) /\ events w' = events w /\
    (forall self' ty', list_of w' self' ty' =
       if decide (self' = self /\ ty' = ty) then added c (normal o) (is_aborted w (normal o)) (list_of w self ty)
       else list_of w self' ty') /\
    user w' = match position (is_match c (capture (normal o))) (list_of w self ty) with
              | Some _ => user w
              | None => if is_aborted w (normal o) then user w
                        else registered self ty c (normal o) (user w)
              end.
Proof.
  intros Hc P. set (n := normal o). set (w0 := match listeners_of w self !! ty with Some _ => w | None => set_list self ty [] w end).
  assert (W : user w0 = user w /\ events w0 = events w) by (unfold w0; destruct (_ !! ty); split; reflexivity).
  assert (L : forall self' ty', list_of w0 self' ty' = list_of w self' ty').
  { intros self' ty'. unfold w0. destruct (listeners_of w self !! ty) eqn:E; [reflexivity|].
    rewrite list_of_set. case_decide as D; [|reflexivity]. destruct D as [-> ->]. unfold list_of. rewrite E. reflexivity. }
  destruct W as [Wu We].
  assert (H : add self ty c o w =
    match position (is_match c (capture n)) (list_of w self ty) with
    | Some _ => (w0, Ok tt)
    | None => if is_aborted w n then (w0, Ok tt)
              else (set_list self ty (list_of w self ty ++ [Listener c (OObj n)])
                      (World (targets w0) (events w0) (registered self ty c n (user w))), Ok tt)
    end).
  { assert (G : (if opt_truthy o then flattenOptions o else default_options) = OObj n).
    { destruct o as [| |[]|o]; reflexivity. }
    unfold addEventListener. rewrite G. destruct c; [congruence| | |];
    (erewrite bind_ok by reflexivity; erewrite bind_ok by reflexivity; fold w0; rewrite L;
     erewrite bind_ok by (apply find_match_run; exact P); destruct (position _ _) as [i|]; [reflexivity|];
     change ((fun k : nat => (0 + k)%nat) <$> None) with (@None nat); cbv iota;
     unfold is_aborted, registered; clear G; destruct n as [nc no np [s|]]; cbn [signal];
     [erewrite bind_ok by reflexivity; rewrite Wu; destruct (aborted (user w) s); [reflexivity|];
      unfold modify, bind; cbn; rewrite Wu, <- L; reflexivity
     |unfold modify; rewrite <- Wu, <- L; destruct w0; reflexivity]). }
  unfold added. rewrite H.
  destruct (position _ _) as [i|]; [|destruct (is_aborted w n)];
    eexists; (split; [reflexivity|]); (split; [exact We|]).
  - split; [|exact Wu]. intros self' ty'. rewrite L. case_decide as D; [destruct D as [-> ->]|]; reflexivity.
  - split; [|exact Wu]. intros self' ty'. rewrite L. case_decide as D; [destruct D as [-> ->]|]; reflexivity.
  - split; [|reflexivity]. intros self' ty'. rewrite list_of_set. case_decide; [reflexivity|].
    rewrite <- L. reflexivity.
Qed.

Lemma added_ok c o stop ls : list_ok ls -> list_ok (added c o stop ls).
Proof.
  intros H. unfold added. destruct (position _ ls) eqn:E; [exact H|]. destruct stop; [exact H|].
  apply position_none in E. apply list_ok_app; [exact H|eexists; reflexivity|exact E].
Qed.

(** *** What a program can do to the state, and the invariant *)

Definition listeners_ok (w : world U) : Prop := forall self ty, list_ok (list_of w self ty).

Inductive act : world U -> world U -> Prop :=
| act_add self ty c o w : act w (fst (add self ty c o w))
| act_remove self ty c o w : act w (fst (remove self ty c o w))
| act_construct self w : targets w !! self = None -> act w (World (<[self := ∅]> (targets w)) (events w) (user w))
| act_event ev e w : act w (World (targets w) (<[ev := e]> (events w)) (user w))
| act_user u w : act w (World (targets w) (events w) u).

Lemma act_ok w w' : act w w' -> listeners_ok w -> listeners_ok w'.
Proof.
  intros A Hw. destruct A as [self ty c o w|self ty c o w|self w Hn|ev e w|u w]; try exact Hw.
  - destruct (decide (c = CNull)) as [->|Hc]; [exact Hw|].
    destruct (add_run self ty c o w Hc (proj1 (Hw self ty))) as (w' & -> & _ & L & _).
    intros self' ty'. cbn [fst]. rewrite L. case_decide; [apply added_ok|]; apply Hw.
  - destruct (removal_capture o) as [x|] eqn:E.
    + rewrite (remove_run self ty c o x w (proj1 (Hw self ty)) E). destruct (position _ _); [|exact Hw].
      intros self' ty'. cbn [fst]. rewrite list_of_set. case_decide; [apply list_ok_delete|]; apply Hw.
    + destruct o; try discriminate. rewrite (remove_null self ty c w (proj1 (Hw self ty))). exact Hw.
  - intros self' ty'. unfold list_of, listeners_of. cbn [targets]. destruct (decide (self' = self)) as [->|N].
    + rewrite lookup_insert_eq. simpl. rewrite lookup_empty. split; constructor.
    + rewrite lookup_insert_ne by congruence. apply Hw.
Qed.

Lemma acts_ok w w' : rtc act w w' -> listeners_ok w -> listeners_ok w'.
Proof. induction 1 as [|x y z A _ IH]; [auto|]. intros H. apply IH, (act_ok _ _ A H). Qed.

(** ** Dispatch *)

Section Dispatch.
Variable call : nat -> object -> comp (world U) fault unit.

(** The listeners of a list, called one after the other. *)
Fixpoint run_all (ls : list listener) (ev : object) : comp (world U) fault unit :=
  match ls with
  | [] => ret tt
  | l :: ls => do! invoke call l ev in run_all ls ev
  end.

Lemma dispatch_loop_acts self ty ev n : forall k w,
  (forall f ev w, rtc act w (fst (call f ev w))) -> rtc act w (fst (dispatch_loop call self ty ev k n w)).
Proof.
  induction n as [|n IH]; intros k w C; [apply rtc_refl|]. cbn [dispatch_loop].
  erewrite bind_ok by reflexivity. destruct (list_of w self ty !! k) as [l|].
  - unfold invoke. destruct (lcallback l) as [| |i|f]; try apply rtc_refl.
    unfold bind. specialize (C f ev w) as Cw. destruct (call f ev w) as [w' [u|x]]; [|exact Cw].
    etrans; [exact Cw|]. apply IH, C.
  - erewrite bind_ok by reflexivity. apply IH, C.
Qed.

(** The loop calls the listeners it started with, when none of them takes a
    listener off the list. *)
Lemma dispatch_loop_run self ty ev post : forall pre w,
  (exists more, list_of w self ty = pre ++ post ++ more) ->
  (forall f w w' r more, CFunction f ∈ map lcallback post -> list_of w self ty = pre ++ post ++ more ->
     call f ev w = (w', r) -> exists more', list_of w' self ty = pre ++ post ++ more') ->
  dispatch_loop call self ty ev (length pre) (length post) w = run_all post ev w.
Proof.
  induction post as [|l post IH]; intros pre w [more E] C; [reflexivity|]. cbn [dispatch_loop run_all length].
  erewrite bind_ok by reflexivity. rewrite E, lookup_app_r, Nat.sub_diag by lia. cbn [lookup list_lookup app].
  unfold bind, invoke. destruct (lcallback l) as [| |i|f] eqn:F; try reflexivity.
  destruct (call f ev w) as [w' [u|x]] eqn:G; [|reflexivity].
  replace (S (length pre)) with (length (pre ++ [l])) by (rewrite length_app; cbn; lia).
  apply IH.
  - destruct (C f w w' _ more ltac:(cbn; rewrite F; left) E G) as [more' E'].
    exists more'. rewrite <- (assoc_L (++)). exact E'.
  - intros g v v' r m Hg. rewrite <- (assoc_L (++)). intros Ev Gv.
    destruct (C g v v' r m ltac:(right; exact Hg) Ev Gv) as [m' E']. exists m'.
    rewrite <- (assoc_L (++)). exact E'.
Qed.

(** What is no function throws without a call. *)
Definition not_function : fault := TypeError "listener.callback is not a function".

(** [w'] is reached from [w] by [n] calls, with the event, of the listeners that
    the list of the type holds, at the time of the call, at the places [i],
    [i + 1] and so on below [bound]; the calls end with [bound], with the end of
    the list, with the first listener that throws, or at one whose callback is
    no function. *)
Inductive called (self : object) (ty : jsstr) (ev : object) (bound : nat)
  : nat -> nat -> world U -> world U -> outcome fault unit -> Prop :=
| called_all i w : (bound <= i \/ length (list_of w self ty) <= i)%nat -> called self ty ev bound i 0 w w (Ok tt)
| called_more i n l f w w1 w2 r : (i < bound)%nat -> list_of w self ty !! i = Some l -> lcallback l = CFunction f ->
    call f ev w = (w1, Ok tt) -> called self ty ev bound (S i) n w1 w2 r -> called self ty ev bound i (S n) w w2 r
| called_throws i l f w w1 x : (i < bound)%nat -> list_of w self ty !! i = Some l -> lcallback l = CFunction f ->
    call f ev w = (w1, Throw x) -> called self ty ev bound i 1 w w1 (Throw x)
| called_other i l w : (i < bound)%nat -> list_of w self ty !! i = Some l -> (forall f, lcallback l <> CFunction f) ->
    called self ty ev bound i 0 w w (Throw not_function).

(** Past the end of the list the turns that are left do nothing. *)
Lemma dispatch_loop_past self ty ev n : forall k w, (length (list_of w self ty) <= k)%nat ->
  dispatch_loop call self ty ev k n w = (w, Ok tt).
Proof.
  induction n as [|n IH]; intros k w L; [reflexivity|]. cbn [dispatch_loop].
  erewrite bind_ok by reflexivity. rewrite lookup_ge_None_2 by exact L. erewrite bind_ok by reflexivity.
  apply IH. lia.
Qed.

Lemma dispatch_loop_called self ty ev n : forall k w, exists c,
  (c <= n)%nat /\
  called self ty ev (k + n) k c w (fst (dispatch_loop call self ty ev k n w)) (snd (dispatch_loop call self ty ev k n w)).
Proof.
  induction n as [|n IH]; intros k w.
  { exists 0%nat. split; [lia|]. apply called_all. lia. }
  cbn [dispatch_loop]. erewrite bind_ok by reflexivity. destruct (list_of w self ty !! k) as [l|] eqn:E.
  2: { apply lookup_ge_None in E. erewrite bind_ok by reflexivity. rewrite dispatch_loop_past by lia.
       exists 0%nat. split; [lia|]. apply called_all. right. exact E. }
  unfold invoke. destruct (lcallback l) as [| |i|f] eqn:F.
  1-3: exists 0%nat; split; [lia|]; eapply called_other; [lia|exact E|intros g G; rewrite F in G; discriminate].
  unfold bind. destruct (call f ev w) as [w1 [[]|x]] eqn:C.
  - destruct (IH (S k) w1) as (c & Hc & H). exists (S c). split; [lia|].
    rewrite Nat.add_succ_comm in H. eapply called_more; [lia|exact E|exact F|exact C|exact H].
  - exists 1%nat. split; [lia|]. eapply called_throws; [lia|exact E|exact F|exact C].
Qed.

End Dispatch.
End Listeners.

(** ** Properties *)

(** Whatever methods a program calls on an event, it is cancelled exactly
    when one of the calls was [preventDefault] or set [returnValue] to a falsy
    value, its propagation is stopped exactly when one of them stopped it, and
    none of its other fields changes. *)
Theorem event_flags ty init cs :
  defaultPrevented (run_calls cs (new_event ty init)) = existsb cancels cs /\
  returnValue (run_calls cs (new_event ty init)) = negb (existsb cancels cs) /\
  cancelBubble (run_calls cs (new_event ty init)) = existsb stops cs /\
  same_but_flags (run_calls cs (new_event ty init)) (new_event ty init).
Proof.
  destruct (run_calls_flags cs (new_event ty init)) as (C & S & B).
  unfold defaultPrevented, returnValue, cancelBubble. rewrite C, S. repeat (split; [reflexivity|]). exact B.
Qed.

(** C35: [composedPath] shows the current target and the items of the path that
    no closed shadow tree hides from it, in path order; on a path without
    shadow trees that is the whole path.  A path without a current target is an
    error. *)
Theorem composedPath_visible e :
  (path e = [] -> composedPath e = Ok []) /\
  (path e <> [] -> currentTarget e = None ->
     composedPath e = Throw (Error "Error in composedPath: currentTarget is not found.")) /\
  (forall c, path e <> [] -> currentTarget e = Some c ->
     composedPath e = Ok (reverse (visible rootOfClosedTree slotInClosedTree 0
                                     (reverse (take (current_index (path e) c) (path e)))) ++ [c] ++
                          visible slotInClosedTree rootOfClosedTree 0 (drop (S (current_index (path e) c)) (path e)))) /\
  (forall c, currentTarget e = Some c -> c ∈ map item (path e) ->
     Forall (fun x => rootOfClosedTree x = false /\ slotInClosedTree x = false) (path e) ->
     composedPath e = Ok (map item (path e))).
Proof.
  split; [intros H; unfold composedPath; rewrite H; reflexivity|].
  split; [intros H N; unfold composedPath; rewrite N; destruct (path e); [congruence|reflexivity]|].
  assert (M : forall c, path e <> [] -> currentTarget e = Some c ->
    composedPath e = Ok (reverse (visible rootOfClosedTree slotInClosedTree 0
                                     (reverse (take (current_index (path e) c) (path e)))) ++ [c] ++
                          visible slotInClosedTree rootOfClosedTree 0 (drop (S (current_index (path e) c)) (path e)))).
  { intros c H N. rewrite <- (composed_fold (path e) c).
    unfold composedPath. rewrite N. destruct (path e); [congruence|]. reflexivity. }
  split; [exact M|]. intros c N In F.
  rewrite (M c) by (exact N || (destruct (path e); [inversion In|congruence])).
  f_equal. apply visible_plain; assumption.
Qed.

(** C31: in every state a program can reach by constructing targets and events,
    by adding, removing and aborting listeners and by dispatching, with
    listeners that do these things themselves, no list of listeners holds a
    listener that a later one of the list would match: a callback is
    registered at most once per type and capture flag. *)
Theorem listeners_distinct {U} aborted on_abort (call : nat -> object -> comp (world U) fault unit) u w self ev ty :
  (forall f ev w, rtc (act aborted on_abort) w (fst (call f ev w))) ->
  rtc (act aborted on_abort) (World ∅ ∅ u) w ->
  rtc (act aborted on_abort) w (fst (dispatchEvent call self ev w)) /\
  list_ok (list_of w self ty) /\ list_ok (list_of (fst (dispatchEvent call self ev w)) self ty).
Proof.
  intros C R.
  assert (D : rtc (act aborted on_abort) w (fst (dispatchEvent call self ev w))).
  { unfold dispatchEvent. erewrite bind_ok by reflexivity. destruct (events w !! ev) as [e|]; [|apply rtc_refl].
    destruct (_ || _); [apply rtc_refl|]. destruct (negb _); [apply rtc_refl|].
    unfold dispatch. erewrite !bind_ok by reflexivity. destruct (listeners_of _ _ !! _) as [ls|]; [|apply rtc_refl].
    pose proof (dispatch_loop_acts aborted on_abort call self (from_option type [] (events w !! ev)) ev
                  (length ls) 0 w C) as H.
    unfold bind. destruct (dispatch_loop _ _ _ _ _ _ _) as [w' [x|x]]; exact H. }
  assert (O : listeners_ok (World ∅ ∅ u)).
  { intros s t. unfold list_of, listeners_of. cbn [targets]. rewrite lookup_empty. simpl. rewrite lookup_empty.
    split; constructor. }
  pose proof (acts_ok _ _ _ _ R O) as Ow. split; [exact D|]. split; [apply Ow|].
  apply (acts_ok _ _ _ _ D Ow).
Qed.

(** [addEventListener] ignores a [null] callback and a callback that is
    registered with the same capture value, and does nothing on an aborted
    signal; otherwise it appends one listener to the list of the type and
    touches no other list.  Removing with the same capture value, and running
    the handler registered on the signal, give the lists back as they were. *)
Theorem add_remove {U} aborted on_abort self ty c o (w : world U) :
  Forall plain (list_of w self ty) ->
  addEventListener aborted on_abort self ty CNull o w = (w, Ok tt) /\
  (c <> CNull -> exists w1, addEventListener aborted on_abort self ty c o w = (w1, Ok tt) /\
     (forall self' ty', ~ (self' = self /\ ty' = ty) -> list_of w1 self' ty' = list_of w self' ty') /\
     (Exists (fun l => is_match c (capture (normal o)) l = true) (list_of w self ty) \/
      is_aborted aborted w (normal o) = true -> list_of w1 self ty = list_of w self ty) /\
     (Forall (fun l => is_match c (capture (normal o)) l = false) (list_of w self ty) ->
      is_aborted aborted w (normal o) = false ->
      list_of w1 self ty = list_of w self ty ++ [Listener c (OObj (normal o))] /\
      user w1 = registered on_abort self ty c (normal o) (user w) /\
      (strict_eq (capture (normal o)) (capture (normal o)) = true ->
       let a := AbortHandler self ty c (OObj (normal o)) in
       exists w2, run_abort a w1 = (w2, Ok tt) /\ user w2 = user w1 /\
         (forall self' ty', list_of w2 self' ty' = list_of w self' ty') /\
         (forall b, capture (normal o) = Bool b -> removeEventListener self ty c (OBool b) w1 = (w2, Ok tt))))).
Proof.
  intros P. split; [reflexivity|]. intros Hc.
  destruct (add_run aborted on_abort self ty c o w Hc P) as (w1 & E & _ & L & Ux).
  exists w1. split; [exact E|]. split.
  { intros self' ty' N. rewrite L. rewrite decide_False by exact N. reflexivity. }
  pose proof (L self ty) as L1. rewrite decide_True in L1 by auto. unfold added in L1. split.
  { intros H. rewrite L1. destruct (position _ _) as [i|] eqn:Hp; [reflexivity|].
    apply position_none in Hp. destruct H as [H|H]; [|rewrite H; reflexivity].
    exfalso. apply Exists_exists in H as (l & In & Hl). rewrite Forall_forall in Hp. rewrite (Hp l In) in Hl. discriminate. }
  intros N Ha. apply position_none in N as Hp. rewrite Hp, Ha in L1. rewrite Hp, Ha in Ux.
  split; [exact L1|]. split; [exact Ux|]. intros S a.
  set (ls := list_of w self ty) in *. set (n := normal o) in *.
  assert (P1 : Forall plain (list_of w1 self ty)).
  { rewrite L1. apply Forall_app. split; [exact P|]. constructor; [eexists; reflexivity|constructor]. }
  assert (Hm : position (is_match c (capture n)) (ls ++ [Listener c (OObj n)]) = Some (length ls)).
  { rewrite position_app by exact N. cbn [position]. unfold is_match at 1. cbn [captures loptions lcallback]. rewrite S.
    unfold callback_eqb. rewrite bool_decide_true by reflexivity. cbn. f_equal. lia. }
  set (w2 := set_list self ty ls w1).
  assert (D : forall x o', x = capture n -> removal_capture o' = Some x ->
    removeEventListener self ty c o' w1 = (w2, Ok tt)).
  { intros x o' -> Ho. rewrite (remove_run self ty c o' (capture n) w1 P1 Ho), L1, Hm.
    rewrite delete_middle, (right_id_L [] (++)). reflexivity. }
  exists w2. split; [apply (D (capture n)); reflexivity|]. split; [reflexivity|]. split.
  - intros self' ty'. unfold w2. rewrite list_of_set.
    destruct (decide (self' = self /\ ty' = ty)) as [[-> ->]|H]; [reflexivity|].
    rewrite L, decide_False by exact H. reflexivity.
  - intros b Hb. apply (D (Bool b)); [symmetry; exact Hb|reflexivity].
Qed.

(** C32: [dispatchEvent] of an event that is not being dispatched calls the
    listeners of its type one after the other in the order they were added,
    each once, stops at the first that throws with its error, and otherwise
    answers [true]; listeners added meanwhile are not called.  The condition is
    that no listener takes one off the list. *)
Theorem dispatchEvent_order {U} (call : nat -> object -> comp (world U) fault unit) self ev e ls w :
  events w !! ev = Some e -> dispatched e = false -> initialized e = true -> eventPhase e = NONE ->
  listeners_of w self !! type e = Some ls ->
  (forall f v v' r more, CFunction f ∈ map lcallback ls -> list_of v self (type e) = ls ++ more ->
     call f ev v = (v', r) -> exists more', list_of v' self (type e) = ls ++ more') ->
  dispatchEvent call self ev w = bind (run_all call ls ev) (fun _ => ret true) w.
Proof.
  intros He H1 H2 H3 Hl C. unfold dispatchEvent. erewrite bind_ok by reflexivity. rewrite He, H1, H2, H3. cbn [negb orb].
  change (NONE =? NONE) with true. cbn [negb]. unfold dispatch.
  erewrite bind_ok by reflexivity. rewrite He. cbn [from_option].
  erewrite bind_ok by reflexivity. rewrite Hl.
  change 0%nat with (length (@nil listener)). unfold bind.
  rewrite (dispatch_loop_run call self (type e) ev ls [] w).
  - reflexivity.
  - exists []. unfold list_of. rewrite Hl, (right_id_L [] (++)). reflexivity.
  - exact C.
Qed.

(** C33: dispatching ends whatever the listeners do, also when they add and take
    off listeners for the event they are called with: [dispatchEvent] calls, place
    by place, the listeners that the list holds when their turn comes, at most as
    many as were registered for the type when it began; it answers [true], or throws
    what the last one called threw, or a TypeError at a listener whose callback is
    no function. *)
Theorem dispatch_terminates {U} (call : nat -> object -> comp (world U) fault unit) self ev e ls w :
  events w !! ev = Some e -> dispatched e = false -> initialized e = true -> eventPhase e = NONE ->
  listeners_of w self !! type e = Some ls ->
  exists n r w', (n <= length ls)%nat /\ called call self (type e) ev (length ls) 0 n w w' r /\
    dispatchEvent call self ev w = (w', match r with Ok _ => Ok true | Throw x => Throw x end).
Proof.
  intros He H1 H2 H3 Hl. unfold dispatchEvent. erewrite bind_ok by reflexivity. rewrite He, H1, H2, H3. cbn [negb orb].
  change (NONE =? NONE) with true. cbn [negb]. unfold dispatch.
  erewrite bind_ok by reflexivity. rewrite He. cbn [from_option]. erewrite bind_ok by reflexivity. rewrite Hl.
  destruct (dispatch_loop_called call self (type e) ev (length ls) 0 w) as (n & Hn & C). unfold bind.
  destruct (dispatch_loop call self (type e) ev 0 (length ls) w) as [w' r]. cbn [fst snd] in *.
  exists n, r, w'. split; [exact Hn|]. split; [exact C|]. destruct r; reflexivity.
Qed.

(** C34: [dispatchEvent] throws InvalidStateError on an event that is being
    dispatched, that is not initialised or whose phase is not NONE, and
    TypeError on a target that never had a listener of the type; no listener
    runs and the state is unchanged. *)
Theorem dispatchEvent_errors {U} (call : nat -> object -> comp (world U) fault unit) self ev e w :
  events w !! ev = Some e ->
  (dispatched e = true \/ initialized e = false \/ eventPhase e <> NONE ->
     dispatchEvent call self ev w = (w, Throw (DOMException "Invalid event state." "InvalidStateError"))) /\
  (dispatched e = false -> initialized e = true -> eventPhase e = NONE -> listeners_of w self !! type e = None ->
     dispatchEvent call self ev w =
       (w, Throw (TypeError "eventTarget.eventTargetData.listeners[event.type] is undefined"))).
Proof.
  intros He. unfold dispatchEvent. erewrite !bind_ok by reflexivity. rewrite He. split.
  - intros H. destruct (dispatched e || negb (initialized e)) eqn:E; [reflexivity|].
    apply orb_false_elim in E as [E1 E2]. destruct H as [H|[H|H]]; [congruence|rewrite H in E2; discriminate|].
    zbool. reflexivity.
  - intros -> -> -> Hl. cbn [negb orb]. change (NONE =? NONE) with true. cbn [negb].
    unfold dispatch. erewrite !bind_ok by reflexivity. rewrite He. cbn [from_option]. rewrite Hl. reflexivity.
Qed.

(** ** A sample program and the witnesses

    Every function records its number; function 1 adds function 3, function 5
    removes itself and function 9 throws. *)

Definition sample_aborted (u : list nat) (s : object) : bool := false.
Definition sample_on_abort (s : object) (a : abort_handler) (u : list nat) : list nat := u.
Abbreviation sample_add := (addEventListener sample_aborted sample_on_abort 0 (js "x")).

Definition sample_call (f : nat) (ev : object) : comp (world (list nat)) fault unit :=
  do! modify (fun w => World (targets w) (events w) (user w ++ [f])) in
  match f with
  | 1%nat => sample_add (CFunction 3) OUndefined
  | 5%nat => removeEventListener 0 (js "x") (CFunction 5) OUndefined
  | 9%nat => throw (UserError Null)
  | _ => ret tt
  end.

Definition sample_start : world (list nat) :=
  World (<[0%nat := ∅]> ∅) (<[7%nat := new_event (js "x") Undefined]> ∅) [].

(** The program adds the functions of a list and dispatches the event. *)
Fixpoint add_all (fs : list nat) : comp (world (list nat)) fault unit :=
  match fs with
  | [] => ret tt
  | f :: fs => do! sample_add (CFunction f) OUndefined in add_all fs
  end.
Definition sample_world (fs : list nat) : world (list nat) := fst (add_all fs sample_start).

(** What was called, and what was answered. *)
Definition calls_of (r : world (list nat) * outcome fault bool) : list nat * outcome fault bool :=
  (user (fst r), snd r).

Example dispatch_in_order : calls_of (dispatchEvent sample_call 0 7 (sample_world [2; 1; 2; 4])%nat) = ([2; 1; 4]%nat, Ok true).
Proof. vm_compute. reflexivity. Qed.

Example dispatch_throw : calls_of (dispatchEvent sample_call 0 7 (sample_world [2; 9; 4])%nat) = ([2; 9]%nat, Throw (UserError Null)).
Proof. vm_compute. reflexivity. Qed.

(** A listener that removes itself makes the loop pass over the next one. *)
Example dispatch_skips : calls_of (dispatchEvent sample_call 0 7 (sample_world [5; 2; 4])%nat) = ([5; 4]%nat, Ok true).
Proof. vm_compute. reflexivity. Qed.

(** An option without a [capture] member is not removed by a call without options. *)
Example once_not_removed :
  let o := OObj (Options Undefined (Bool true) Undefined None) in
  list_of (fst ((do! sample_add (CFunction 4) o in removeEventListener 0 (js "x") (CFunction 4) OUndefined) sample_start))
    0 (js "x") = [Listener (CFunction 4) o].
Proof. vm_compute. reflexivity. Qed.

Lemma sample_call_acts f ev w : rtc (act sample_aborted sample_on_abort) w (fst (sample_call f ev w)).
Proof.
  unfold sample_call. erewrite bind_ok by reflexivity.
  eapply rtc_l; [apply (act_user _ _ (user w ++ [f]))|].
  do 10 (try destruct f as [|f]); try apply rtc_refl; apply rtc_once; constructor.
Qed.

Lemma sample_start_acts : rtc (act sample_aborted sample_on_abort) (World ∅ ∅ []) (sample_world [2; 1]%nat).
Proof.
  eapply rtc_l; [apply (act_construct _ _ 0%nat); reflexivity|].
  eapply rtc_l; [apply (act_event _ _ 7%nat (new_event (js "x") Undefined))|].
  eapply rtc_l; [apply (act_add _ _ 0%nat (js "x") (CFunction 2) OUndefined)|].
  apply rtc_once. apply (act_add sample_aborted sample_on_abort 0%nat (js "x") (CFunction 1) OUndefined).
Qed.

Lemma listeners_distinct_witness :
  list_ok (list_of (sample_world [2; 1]%nat) 0 (js "x")) /\
  list_ok (list_of (fst (dispatchEvent sample_call 0 7 (sample_world [2; 1]%nat))) 0 (js "x")).
Proof.
  exact (proj2 (listeners_distinct sample_aborted sample_on_abort sample_call [] (sample_world [2; 1]%nat) 0 7 (js "x")
                  sample_call_acts sample_start_acts)).
Defined.

Lemma add_remove_witness :
  exists w1 w2, sample_add (CFunction 4) (OBool true) (sample_world [2]%nat) = (w1, Ok tt) /\
    list_of w1 0 (js "x") = list_of (sample_world [2]%nat) 0 (js "x") ++ [Listener (CFunction 4) (OObj (normal (OBool true)))] /\
    removeEventListener 0 (js "x") (CFunction 4) (OBool true) w1 = (w2, Ok tt) /\
    list_of w2 0 (js "x") = list_of (sample_world [2]%nat) 0 (js "x").
Proof.
  assert (P : Forall plain (list_of (sample_world [2]%nat) 0 (js "x"))).
  { repeat constructor. eexists. reflexivity. }
  destruct (add_remove sample_aborted sample_on_abort 0%nat (js "x") (CFunction 4) (OBool true) (sample_world [2]%nat) P)
    as [_ H].
  destruct (H ltac:(discriminate)) as (w1 & E & _ & _ & A).
  destruct (A ltac:(repeat constructor) eq_refl) as (A1 & _ & A2).
  destruct (A2 eq_refl) as (w2 & _ & _ & A3 & A4).
  exists w1, w2. exact (conj E (conj A1 (conj (A4 true eq_refl) (A3 0%nat (js "x"))))).
Defined.

Lemma dispatchEvent_order_witness :
  dispatchEvent sample_call 0 7 (sample_world [2; 4]%nat) =
  bind (run_all sample_call (list_of (sample_world [2; 4]%nat) 0 (js "x")) 7) (fun _ => ret true) (sample_world [2; 4]%nat).
Proof.
  apply (dispatchEvent_order sample_call 0%nat 7%nat (new_event (js "x") Undefined)); try reflexivity.
  intros f v v' r more In E C. exists more.
  assert (F : f = 2%nat \/ f = 4%nat).
  { change (CFunction f ∈ [CFunction 2; CFunction 4]) in In.
    apply list_elem_of_In in In. destruct In as [H|[H|[]]]; injection H as <-; auto. }
  destruct F as [-> | ->]; cbn in C; injection C as <- _; exact E.
Defined.

(** A listener that adds a listener each time it is called. *)
Lemma dispatch_terminates_witness : exists n r w', (n <= 3)%nat /\
  called sample_call 0 (js "x") 7 3 0 n (sample_world [2; 1; 2; 4]%nat) w' r /\
  dispatchEvent sample_call 0 7 (sample_world [2; 1; 2; 4]%nat) = (w', match r with Ok _ => Ok true | Throw x => Throw x end).
Proof.
  exact (dispatch_terminates sample_call 0%nat 7%nat (new_event (js "x") Undefined)
              (list_of (sample_world [2; 1; 2; 4]%nat) 0 (js "x")) (sample_world [2; 1; 2; 4]%nat)
              eq_refl eq_refl eq_refl eq_refl eq_refl).
Defined.

Lemma dispatchEvent_errors_witness :
  dispatchEvent sample_call 0 7 sample_start =
    (sample_start, Throw (TypeError "eventTarget.eventTargetData.listeners[event.type] is undefined")).
Proof.
  apply (dispatchEvent_errors sample_call 0%nat 7%nat (new_event (js "x") Undefined) sample_start eq_refl); reflexivity.
Defined.
