(* ===== verification/AsyncHooks.v ===== *)
(** The module [node:async_hooks] (node/async_hooks.js): the stack of context
    frames, the storage each frame carries, the promise hooks,
    [AsyncLocalStorage], [AsyncResource] and the timer functions it wraps.

    A function of the program is a state transformer from [this] and its
    arguments.  What is native is an argument of the definitions that use it:
    the state of a promise, [eval] and the original timer functions.  That the
    registry of dead storages resets a key is the step [resetKey]; the hooks a
    promise runs are the definitions [init], [before], [after] and [resolve]. *)

From Stdlib Require Import String.
From stdpp Require Import base numbers list gmap.
From S2P Require Import Prelude JsNumber JsValue.

Local Open Scope Z_scope.
Local Open Scope js_scope.

(** ** State *)

(** Frames, storage keys and promises are named by their identity. *)
Abbreviation frame_id := nat.
Abbreviation key_id := nat.
Abbreviation promise := nat.

(** A [StorageEntry].  Frames never share an entry: each gets a clone. *)
Record entry : Type := StorageEntry { key : key_id; value : val }.

(** [asyncContextStack] has its top first; [frames] gives the [storage] of every
    frame, [contexts] the frame attached to a promise, [dead] the keys that were
    reset, [user] the state of the program. *)
Record state (U : Type) : Type := State {
  asyncContextStack : list frame_id;
  rootAsyncFrame : option frame_id;
  promiseHooksSet : bool;
  frames : gmap frame_id (list entry);
  contexts : gmap promise frame_id;
  dead : gset key_id;
  next : nat;
  user : U }.
Arguments State {U}. Arguments asyncContextStack {U}. Arguments rootAsyncFrame {U}.
Arguments promiseHooksSet {U}. Arguments frames {U}. Arguments contexts {U}. Arguments dead {U}.
Arguments next {U}. Arguments user {U}.

Definition initial {U} (u : U) : state U := State [] None false ∅ ∅ ∅ 0 u.

Section AsyncHooks.
Context {U : Type}.

Abbreviation A R := (comp (state U) fault R).
Abbreviation func := (val -> list val -> A val).

(** [core.getPromiseState]. *)
Variable getPromiseState : U -> promise -> Z.

Definition assert (cond : bool) : A unit := if cond then ret tt else throw (Error "Assertion failed").

(** ** The stack *)

Definition set_stack (l : list frame_id) (s : state U) : state U :=
  State l (rootAsyncFrame s) (promiseHooksSet s) (frames s) (contexts s) (dead s) (next s) (user s).

Definition pushAsyncFrame (f : frame_id) : A unit := modify (fun s => set_stack (f :: asyncContextStack s) s).

Definition popAsyncFrame : A unit := modify (fun s => set_stack (tail (asyncContextStack s)) s).

(** ** Frames *)

Definition set_storage (f : frame_id) (l : list entry) (s : state U) : state U :=
  State (asyncContextStack s) (rootAsyncFrame s) (promiseHooksSet s) (<[f := l]> (frames s))
    (contexts s) (dead s) (next s) (user s).

Definition storage (s : state U) (f : frame_id) : list entry := default [] (frames s !! f).

Definition isDead (s : state U) (k : key_id) : bool := bool_decide (k ∈ dead s).

(** [storage.filter((entry) => !entry.key.isDead())]. *)
Definition live (s : state U) (l : list entry) : list entry := List.filter (fun e => negb (isDead s (key e))) l.

Definition find_entry (k : key_id) (l : list entry) : option entry := List.find (fun e => Nat.eqb (key e) k) l.

(** [existingEntry.value = maybeStorageEntry.value], or the entry at the end. *)
Fixpoint put_entry (x : entry) (l : list entry) : list entry :=
  match l with
  | [] => [x]
  | e :: l => if Nat.eqb (key e) (key x) then StorageEntry (key e) (value x) :: l else e :: put_entry x l
  end.

(** [setPromiseHooks]: the native hooks are set once. *)
Definition setPromiseHooks : A unit :=
  modify (fun s => State (asyncContextStack s) (rootAsyncFrame s) true (frames s) (contexts s) (dead s) (next s) (user s)).

(** A new frame object with an empty storage. *)
Definition alloc_frame : A frame_id :=
  fun s => (State (asyncContextStack s) (rootAsyncFrame s) (promiseHooksSet s) (<[next s := []]> (frames s))
              (contexts s) (dead s) (S (next s)) (user s), Ok (next s)).

(** [new AsyncContextFrame(null, null, true)] and [getRootAsyncContext]. *)
Definition getRootAsyncContext : A frame_id :=
  let! r := read rootAsyncFrame in
  match r with
  | Some f => ret f
  | None =>
      let! f := alloc_frame in
      do! setPromiseHooks in
      do! modify (fun s => State (asyncContextStack s) (Some f) (promiseHooksSet s) (frames s) (contexts s) (dead s)
                             (next s) (user s)) in
      ret f
  end.

Definition current : A frame_id :=
  let! l := read asyncContextStack in
  match l with
  | [] => getRootAsyncContext
  | f :: _ => ret f
  end.

(** The inner function [propagate] of the constructor, for the frame [this]. *)
Definition propagate (this : frame_id) (maybeStorageEntry : option entry) (parent : frame_id) : A unit :=
  do! modify (fun s => set_storage parent (live s (storage s parent)) s) in
  do! modify (fun s => set_storage this (storage s this ++ storage s parent) s) in
  match maybeStorageEntry with
  | Some x => modify (fun s => set_storage this (put_entry x (storage s this)) s)
  | None => ret tt
  end.

(** [new AsyncContextFrame(maybeParent, maybeStorageEntry)], which is
    [AsyncContextFrame.create]. *)
Definition create (maybeParent : option frame_id) (maybeStorageEntry : option entry) : A frame_id :=
  let! this := alloc_frame in
  do! setPromiseHooks in
  do! match maybeParent with
      | Some parent => propagate this maybeStorageEntry parent
      | None => let! parent := current in propagate this maybeStorageEntry parent
      end in
  ret this.

(** [frame.get(key)]. *)
Definition get (this : frame_id) (k : key_id) : A val :=
  let! d := read (fun s => isDead s k) in
  do! assert (negb d) in
  do! modify (fun s => set_storage this (live s (storage s this)) s) in
  let! e := read (fun s => find_entry k (storage s this)) in
  match e with
  | Some e => ret (value e)
  | None => ret Undefined
  end.

Definition isRoot (this : frame_id) : A bool := let! r := getRootAsyncContext in ret (Nat.eqb r this).

(** ** Scopes *)

Definition enter (maybeFrame : option frame_id) : A unit :=
  match maybeFrame with
  | Some f => pushAsyncFrame f
  | None => let! f := getRootAsyncContext in pushAsyncFrame f
  end.

Definition exit_scope : A unit := popAsyncFrame.

(** [Scope.enter(frame); try { m } finally { Scope.exit() }]. *)
Definition in_scope {R} (frame : option frame_id) (m : A R) : A R :=
  do! enter frame in try_finally m exit_scope.

(** [AsyncContextFrame.wrap(fn, maybeFrame, thisArg)]. *)
Definition wrap {X R} (fn : val -> X -> A R) (maybeFrame : option frame_id) (thisArg : val) : X -> A R :=
  fun args =>
    let! frame := match maybeFrame with Some f => ret f | None => current end in
    in_scope (Some frame) (fn thisArg args).

(** ** Promise hooks *)

Definition set_context (p : promise) (c : option frame_id) (s : state U) : state U :=
  State (asyncContextStack s) (rootAsyncFrame s) (promiseHooksSet s) (frames s)
    (match c with Some f => <[p := f]> (contexts s) | None => delete p (contexts s) end) (dead s) (next s) (user s).

Definition tryGetContext (p : promise) : A (option frame_id) := read (fun s => contexts s !! p).

Definition attachContext (p : promise) : A unit :=
  let! f := current in modify (set_context p (Some f)).

Definition init (p : promise) : A unit :=
  let! currentFrame := current in
  let! root := isRoot currentFrame in
  if root then ret tt
  else
    let! c := tryGetContext p in
    match c with
    | Some _ => throw (Error "Promise already has async context")
    | None => attachContext p
    end.

Definition before (p : promise) : A unit :=
  let! maybeFrame := tryGetContext p in
  match maybeFrame with
  | Some f => pushAsyncFrame f
  | None => let! f := getRootAsyncContext in pushAsyncFrame f
  end.

Definition after (p : promise) : A unit :=
  do! popAsyncFrame in
  let! st := read (fun s => getPromiseState (user s) p) in
  if st =? 2 then ret tt else modify (set_context p None).

Definition resolve (p : promise) : A unit :=
  let! currentFrame := current in
  let! root := isRoot currentFrame in
  let! st := read (fun s => getPromiseState (user s) p) in
  let! c := tryGetContext p in
  match c with
  | None => if negb root && (st =? 2) then attachContext p else ret tt
  | Some _ => ret tt
  end.

(** ** [AsyncLocalStorage] *)

(** [new AsyncLocalStorage()]: its key. *)
Definition new_storage : A key_id :=
  fun s => (State (asyncContextStack s) (rootAsyncFrame s) (promiseHooksSet s) (frames s) (contexts s) (dead s)
              (S (next s)) (user s), Ok (next s)).

(** The finalization of an [AsyncLocalStorage]: [key.reset()]. *)
Definition resetKey (k : key_id) : A unit :=
  modify (fun s => State (asyncContextStack s) (rootAsyncFrame s) (promiseHooksSet s) (frames s) (contexts s)
                     ({[k]} ∪ dead s) (next s) (user s)).

Definition run (this : key_id) (store : val) (callback : func) (args : list val) : A val :=
  let! frame := create None (Some (StorageEntry this store)) in
  in_scope (Some frame) (callback Undefined args).

(** The arguments are handed on as one array. *)
Definition exit (this : key_id) (callback : func) (args : list val) : A val :=
  run this Undefined callback [VArray args].

Definition getStore (this : key_id) : A val :=
  let! currentFrame := current in get currentFrame this.

(** ** [AsyncResource] *)

Record async_resource : Type := AsyncResource { frame : frame_id; rtype : jsstr; self : val }.

(** [new AsyncResource(type)]; [self] is the object as a value. *)
Definition new_resource (type : jsstr) (self : val) : A async_resource :=
  let! f := current in ret (AsyncResource f type self).

Definition runInAsyncScope (this : async_resource) (fn : func) (thisArg : val) (args : list val) : A val :=
  in_scope (Some (frame this)) (fn thisArg args).

(** [bind(fn, thisArg = this)]; [None] is an argument that is not a function. *)
Definition bind_resource {X} (this : async_resource) (fn : option (val -> X -> A val)) (thisArg : val) : A (X -> A val) :=
  match fn with
  | None => throw (Error "Expected fn to be a function")
  | Some fn =>
      let! f := current in
      ret (wrap fn (Some f) (if is_undefined thisArg then self this else thisArg))
  end.

(** [AsyncResource.bind(fn, type, thisArg)]; [name] is [fn.name], [self] the new
    resource object. *)
Definition static_bind {X} (fn : val -> X -> A val) (name type : jsstr) (thisArg self : val) : A (X -> A val) :=
  let type := match type with [] => name | _ => type end in
  let! r := new_resource (match type with [] => js "AsyncResource" | _ => type end) self in
  bind_resource r (Some fn) thisArg.

(** [AsyncLocalStorage.bind] and [AsyncLocalStorage.snapshot]. *)
Definition storage_bind {X} (fn : val -> X -> A val) (name : jsstr) (self : val) : A (X -> A val) :=
  static_bind fn name [] Undefined self.

Definition snapshot (self : val) : A (func * list val -> A val) :=
  storage_bind (fun _ '(cb, args) => cb Undefined args) [] self.

(** ** The wrapped globals *)

(** A timer handler: code to evaluate, or a function. *)
Inductive handler : Type :=
| Code (s : jsstr)
| Fn (f : func).

Section Timers.
Variable eval : jsstr -> A unit.
(** The native functions, given the function to run later. *)
Variable originalSetTimeout : (list val -> A unit) -> val -> list val -> A val.
Variable originalSetInterval : (list val -> A unit) -> val -> list val -> A val.
Variable originalQueueMicrotask : A unit -> A unit.

(** The function handed to the native timer: it runs the handler in the frame. *)
Definition timer_body (currentFrame : frame_id) (h : handler) : list val -> A unit :=
  fun args =>
    try_finally
      (do! pushAsyncFrame currentFrame in
       match h with
       | Code s => eval s
       | Fn f => let! _r := f Undefined args in ret tt
       end)
      popAsyncFrame.

Definition setTimeout (h : handler) (timeout : val) (args : list val) : A val :=
  let! currentFrame := current in
  originalSetTimeout (timer_body currentFrame h) timeout args.

Definition setInterval (h : handler) (timeout : val) (args : list val) : A val :=
  let! currentFrame := current in
  originalSetInterval (timer_body currentFrame h) timeout args.

Definition microtask_body (currentFrame : frame_id) (callback : func) : A unit :=
  try_finally
    (do! pushAsyncFrame currentFrame in let! _r := callback Undefined [] in ret tt)
    popAsyncFrame.

Definition queueMicrotask (callback : func) : A unit :=
  let! currentFrame := current in
  originalQueueMicrotask (microtask_body currentFrame callback).

End Timers.

(** ** The stubs *)

Definition executionAsyncId : Z := 1.

(** [createHook()] answers a hook whose methods do nothing. *)
Definition hook_enable : A unit := ret tt.
Definition hook_disable : A unit := ret tt.

End AsyncHooks.
