(* ===== verification/AsyncFacts.v ===== *)
(** What the context frames guarantee: a storage is seen inside the function it
    was given to and nowhere else, functions bound to a frame and promise
    reactions see the storage of the place they were made at, and the stack of
    frames is balanced whatever is thrown. *)

From Stdlib Require Import String.
From stdpp Require Import base numbers list gmap.
From S2P Require Import Prelude JsNumber JsValue AsyncHooks.

Local Open Scope Z_scope.
Local Open Scope js_scope.

(** ** Entries *)

Lemma find_put k x l :
  find_entry k (put_entry x l) = if Nat.eqb (key x) k then Some (StorageEntry k (value x)) else find_entry k l.
Proof.
  induction l as [|e l IH]; cbn.
  - destruct (Nat.eqb_spec (key x) k) as [<-|N]; [destruct x|]; reflexivity.
  - destruct (Nat.eqb_spec (key e) (key x)) as [E|E]; cbn; rewrite ?E.
    + destruct (Nat.eqb_spec (key x) k) as [<-|N]; reflexivity.
    + unfold find_entry in IH. rewrite IH. destruct (Nat.eqb_spec (key x) k) as [<-|N]; [|reflexivity].
      destruct (Nat.eqb_spec (key e) (key x)); [congruence|reflexivity].
Qed.

Lemma keys_put x l :
  map key (put_entry x l) = if decide (key x ∈ map key l) then map key l else map key l ++ [key x].
Proof.
  induction l as [|e l IH]; cbn.
  - rewrite decide_False by (intros H; inversion H). reflexivity.
  - destruct (Nat.eqb_spec (key e) (key x)) as [E|E]; cbn.
    + rewrite decide_True by (rewrite E; left). reflexivity.
    + rewrite IH. destruct (decide (key x ∈ map key l)) as [D|D].
      * rewrite decide_True by (right; exact D). reflexivity.
      * rewrite decide_False; [reflexivity|]. intros H. apply elem_of_cons in H. intuition congruence.
Qed.

Lemma NoDup_put x l : NoDup (map key l) -> NoDup (map key (put_entry x l)).
Proof.
  intros H. rewrite keys_put. destruct (decide _) as [D|D]; [exact H|].
  apply NoDup_app. split; [exact H|]. split; [|apply NoDup_singleton].
  intros y Hy E. apply list_elem_of_singleton in E. congruence.
Qed.

Section Facts.
Context {U : Type}.
Abbreviation A R := (comp (state U) fault R).
Abbreviation func := (val -> list val -> A val).

Lemma live_incl (s : state U) k l : k ∈ map key (live s l) -> k ∈ map key l.
Proof.
  induction l as [|e l IH]; [auto|]. cbn. destruct (negb _); cbn; rewrite ?elem_of_cons; tauto.
Qed.

Lemma NoDup_live (s : state U) l : NoDup (map key l) -> NoDup (map key (live s l)).
Proof.
  induction l as [|e l IH]; [auto|]. cbn. intros H. inversion H as [|? ? N H']; subst.
  destruct (negb _); cbn; [|apply IH, H'].
  constructor; [|apply IH, H']. intros D. apply N. exact (live_incl s _ l D).
Qed.

Lemma find_live (s : state U) k l : k ∉ dead s -> find_entry k (live s l) = find_entry k l.
Proof.
  intros Hk. induction l as [|e l IH]; [reflexivity|]. cbn. unfold isDead.
  destruct (Nat.eqb_spec (key e) k) as [E|E].
  - rewrite E, bool_decide_false by exact Hk. cbn. rewrite E, Nat.eqb_refl. reflexivity.
  - destruct (negb _); cbn; [destruct (Nat.eqb_spec (key e) k); [congruence|]|]; exact IH.
Qed.

(** ** States *)

(** The storage [getStore] looks in, and what it finds for a key. *)
Definition current_storage (s : state U) : list entry :=
  match asyncContextStack s with
  | f :: _ => storage s f
  | [] => from_option (storage s) [] (rootAsyncFrame s)
  end.

Definition value_in (l : list entry) (k : key_id) : val := from_option value Undefined (find_entry k l).
Definition store_of (s : state U) (k : key_id) : val := value_in (current_storage s) k.

Definition is_frame (s : state U) (f : frame_id) : Prop := is_Some (frames s !! f).

(** The invariant: the frames the state refers to exist, the root frame holds
    nothing, and no frame holds two entries of one key. *)
Record ctx_ok (s : state U) : Prop := CtxOk {
  ok_stack : Forall (is_frame s) (asyncContextStack s);
  ok_root : forall r, rootAsyncFrame s = Some r -> frames s !! r = Some [];
  ok_contexts : forall p f, contexts s !! p = Some f -> is_frame s f;
  ok_fresh : forall f, is_frame s f -> (f < next s)%nat;
  ok_keys : forall f l, frames s !! f = Some l -> NoDup (map key l) }.

(** [later s s']: every frame of [s] is in [s'] with the same values for the
    keys that are alive there. *)
Record later (s s' : state U) : Prop := Later {
  later_frames : forall f l, frames s !! f = Some l ->
    exists l', frames s' !! f = Some l' /\ forall k, k ∉ dead s' -> find_entry k l' = find_entry k l;
  later_dead : dead s ⊆ dead s';
  later_root : forall r, rootAsyncFrame s = Some r -> rootAsyncFrame s' = Some r }.

#[export] Instance later_preorder : PreOrder later.
Proof.
  split.
  - intros s. split; [|set_solver|auto]. intros f l H. exists l. auto.
  - intros s1 s2 s3 [F1 D1 R1] [F2 D2 R2]. split; [|set_solver|auto].
    intros f l H. destruct (F1 f l H) as (l' & H' & E'). destruct (F2 f l' H') as (l'' & H'' & E'').
    exists l''. split; [exact H''|]. intros k Hk. rewrite E'' by exact Hk. apply E'. set_solver.
Qed.

Lemma later_is_frame s s' f : later s s' -> is_frame s f -> is_frame s' f.
Proof. intros L [l H]. destruct (later_frames _ _ L f l H) as (l' & H' & _). exists l'. exact H'. Qed.

Lemma later_value s s' f k : later s s' -> is_frame s f -> k ∉ dead s' ->
  value_in (storage s' f) k = value_in (storage s f) k.
Proof.
  intros L [l H] Hk. destruct (later_frames _ _ L f l H) as (l' & H' & E).
  unfold value_in, storage. rewrite H, H'. cbn [from_option id]. rewrite E by exact Hk. reflexivity.
Qed.

(** With the same stack, a later state shows the same values. *)
Lemma later_store s s' k : ctx_ok s -> ctx_ok s' -> later s s' -> asyncContextStack s' = asyncContextStack s ->
  k ∉ dead s' -> store_of s' k = store_of s k.
Proof.
  intros O O' L E Hk. unfold store_of, current_storage. rewrite E.
  pose proof (ok_stack _ O) as F. destruct (asyncContextStack s) as [|f st].
  - destruct (rootAsyncFrame s') as [r'|] eqn:R'; destruct (rootAsyncFrame s) as [r|] eqn:R; cbn;
      unfold storage; rewrite ?(ok_root _ O _ R), ?(ok_root _ O' _ R'); reflexivity.
  - inversion F; subst. apply later_value; assumption.
Qed.

(** A computation that may run in any state later than [b]: it keeps the
    invariant, the frames and the stack, whether it returns or throws. *)
Definition calm (b : state U) {R} (m : A R) : Prop :=
  forall s, ctx_ok s -> later b s ->
    ctx_ok (fst (m s)) /\ later s (fst (m s)) /\ asyncContextStack (fst (m s)) = asyncContextStack s.

Lemma calm_mono b b' {R} (m : A R) : later b b' -> calm b m -> calm b' m.
Proof. intros L C s O H. apply C; [exact O|]. etrans; eassumption. Qed.

Lemma calm_ret b {R} (r : R) : calm b (ret r).
Proof. intros s O L. repeat split; try apply O; auto. intros f l H. exists l. auto. Qed.

Lemma calm_throw b {R} e : calm b (@throw (state U) fault R e).
Proof. intros s O L. exact (calm_ret b tt s O L). Qed.

Lemma calm_bind b {R R'} (m : A R) (k : R -> A R') :
  calm b m -> (forall b' r, later b b' -> calm b' (k r)) -> calm b (bind m k).
Proof.
  intros M K s O L. destruct (M s O L) as (O1 & L1 & E1). unfold bind.
  destruct (m s) as [s1 [r|e]]; cbn [fst] in *; [|auto].
  destruct (K s1 r ltac:(etrans; eassumption) s1 O1 ltac:(reflexivity)) as (O2 & L2 & E2).
  split; [exact O2|]. split; [etrans; eassumption|congruence].
Qed.

Lemma calm_read b {R} (f : state U -> R) : calm b (read f).
Proof. intros s O L. exact (calm_ret b tt s O L). Qed.

(** *** Frames *)

Lemma alloc_frame_run s : ctx_ok s ->
  ctx_ok (fst (alloc_frame s)) /\ later s (fst (alloc_frame s)) /\
  snd (alloc_frame s) = Ok (next s) /\ frames (fst (alloc_frame s)) !! next s = Some [].
Proof.
  intros O. assert (N : frames s !! next s = None).
  { destruct (frames s !! next s) eqn:E; [|reflexivity]. pose proof (ok_fresh _ O (next s) ltac:(eexists; exact E)). lia. }
  assert (K : forall f, is_frame s f -> is_frame (fst (alloc_frame s)) f).
  { intros f [l H]. exists l. cbn. rewrite lookup_insert_ne; [exact H|]. intros <-. congruence. }
  split; [|split; [|split; [reflexivity|apply lookup_insert_eq]]].
  - split; cbn.
    + eapply Forall_impl; [apply (ok_stack _ O)|exact K].
    + intros r Hr. rewrite lookup_insert_ne; [apply (ok_root _ O r Hr)|]. intros <-. rewrite (ok_root _ O _ Hr) in N. discriminate.
    + intros p f Hf. apply K, (ok_contexts _ O p f Hf).
    + intros f [l H]. cbn in H. destruct (decide (f = next s)) as [->|D]; [lia|].
      rewrite lookup_insert_ne in H by congruence. pose proof (ok_fresh _ O f ltac:(eexists; exact H)). lia.
    + intros f l H. destruct (decide (f = next s)) as [->|D].
      * rewrite lookup_insert_eq in H. injection H as <-. constructor.
      * rewrite lookup_insert_ne in H by congruence. apply (ok_keys _ O f l H).
  - split; cbn; [|set_solver|auto]. intros f l H. exists l. split; [|auto].
    rewrite lookup_insert_ne; [exact H|]. intros <-. congruence.
Qed.

Lemma hooks_run (s : state U) : ctx_ok s -> ctx_ok (fst (setPromiseHooks s)) /\ later s (fst (setPromiseHooks s)).
Proof. intros [A B C D E]. split; [split; assumption|]. split; cbn; [|set_solver|auto]. intros f l H. exists l. auto. Qed.

(** The root frame: it exists afterwards, and holds nothing. *)
Lemma getRoot_run s : ctx_ok s -> exists s' r, getRootAsyncContext s = (s', Ok r) /\
  ctx_ok s' /\ later s s' /\ asyncContextStack s' = asyncContextStack s /\ rootAsyncFrame s' = Some r /\
  dead s' = dead s /\ contexts s' = contexts s /\ user s' = user s.
Proof.
  intros O. unfold getRootAsyncContext. erewrite bind_ok by reflexivity. destruct (rootAsyncFrame s) as [r|] eqn:R.
  { exists s, r. split; [reflexivity|]. repeat (split; [solve [auto|reflexivity]|]). reflexivity. }
  destruct (alloc_frame_run s O) as (O1 & L1 & E1 & F1). eexists _, (next s). split; [reflexivity|].
  split; [|split; [|repeat split; reflexivity]].
  - destruct O1 as [A B C D E]. split; cbn in *; try assumption. intros r Hr. injection Hr as <-. exact F1.
  - destruct L1 as [A B C]. split; cbn in *; try assumption. intros r Hr. congruence.
Qed.

Lemma current_run s : ctx_ok s -> exists s' f, current s = (s', Ok f) /\
  ctx_ok s' /\ later s s' /\ asyncContextStack s' = asyncContextStack s /\ is_frame s' f /\
  storage s' f = current_storage s /\ current_storage s' = current_storage s /\
  dead s' = dead s /\ contexts s' = contexts s /\ user s' = user s.
Proof.
  intros O. unfold current. erewrite bind_ok by reflexivity. unfold current_storage at 1 3.
  pose proof (ok_stack _ O) as F. destruct (asyncContextStack s) as [|f st] eqn:E.
  - destruct (getRoot_run s O) as (s' & r & -> & O' & L & S & R & D & C & Us). exists s', r. split; [reflexivity|].
    assert (Z : storage s' r = []) by (unfold storage; rewrite (ok_root _ O' r R); reflexivity).
    assert (Y : from_option (storage s) [] (rootAsyncFrame s) = []).
    { destruct (rootAsyncFrame s) as [q|] eqn:Q; [|reflexivity]. cbn. unfold storage. rewrite (ok_root _ O q Q). reflexivity. }
    rewrite Y. unfold current_storage. rewrite E in S. rewrite S, R. cbn [from_option].
    split; [exact O'|]. split; [exact L|]. split; [reflexivity|].
    split; [eexists; apply (ok_root _ O' r R)|]. rewrite Z. auto.
  - inversion F; subst. exists s, f. split; [reflexivity|]. unfold current_storage. rewrite E.
    repeat (split; [solve [auto|reflexivity]|]). reflexivity.
Qed.

Lemma calm_getRoot b : calm b (@getRootAsyncContext U).
Proof. intros s O L. destruct (getRoot_run s O) as (s' & r & -> & O' & L' & S & _). auto. Qed.

Lemma calm_current b : calm b (@current U).
Proof. intros s O L. destruct (current_run s O) as (s' & f & -> & O' & L' & S & _). auto. Qed.

(** Replacing a storage by one with the same live entries. *)
Lemma set_storage_ok s f l : ctx_ok s -> is_frame s f -> rootAsyncFrame s <> Some f -> NoDup (map key l) ->
  ctx_ok (set_storage f l s).
Proof.
  intros [A B C D E] [l0 F] R N.
  assert (K : forall g, is_frame s g -> is_frame (set_storage f l s) g).
  { intros g [m H]. unfold is_frame, set_storage. cbn. destruct (decide (f = g)) as [->|Ne].
    - rewrite lookup_insert_eq. eauto.
    - rewrite lookup_insert_ne by exact Ne. eauto. }
  split; cbn.
  - eapply Forall_impl; [exact A|exact K].
  - intros r Hr. rewrite lookup_insert_ne by congruence. apply B, Hr.
  - intros p g Hg. apply K, (C p g Hg).
  - intros g [m H]. cbn in H. destruct (decide (f = g)) as [<-|Ne]; [apply D; eexists; exact F|].
    rewrite lookup_insert_ne in H by exact Ne. apply D. eexists. exact H.
  - intros g m H. destruct (decide (f = g)) as [<-|Ne].
    + rewrite lookup_insert_eq in H. injection H as <-. exact N.
    + rewrite lookup_insert_ne in H by exact Ne. apply (E g m H).
Qed.

Lemma filter_run s f : ctx_ok s -> is_frame s f ->
  ctx_ok (set_storage f (live s (storage s f)) s) /\ later s (set_storage f (live s (storage s f)) s).
Proof.
  intros O [l F]. assert (S : storage s f = l) by (unfold storage; rewrite F; reflexivity). rewrite S. split.
  - destruct (decide (rootAsyncFrame s = Some f)) as [R|R].
    + rewrite (ok_root _ O f R) in F. injection F as <-. cbn.
      unfold set_storage. rewrite insert_id by (apply (ok_root _ O f R)). destruct s. exact O.
    + apply set_storage_ok; [exact O|eexists; exact F|exact R|apply NoDup_live, (ok_keys _ O f l F)].
  - split; cbn; [|set_solver|auto]. intros g m H. destruct (decide (f = g)) as [<-|Ne].
    + rewrite lookup_insert_eq. eexists. split; [reflexivity|]. intros k Hk. rewrite find_live by exact Hk. congruence.
    + rewrite lookup_insert_ne by exact Ne. exists m. auto.
Qed.

Lemma storage_set (s : state U) f l : storage (set_storage f l s) f = l.
Proof. unfold storage, set_storage. cbn. rewrite lookup_insert_eq. reflexivity. Qed.
Lemma storage_set_ne (s : state U) f g l : f <> g -> storage (set_storage f l s) g = storage s g.
Proof. intros N. unfold storage, set_storage. cbn. rewrite lookup_insert_ne by exact N. reflexivity. Qed.
Lemma set_storage_set (s : state U) f l m : set_storage f l (set_storage f m s) = set_storage f l s.
Proof. unfold set_storage. cbn. rewrite insert_insert_eq. reflexivity. Qed.

(** [getStore] of a live key answers the current value; of a dead key it fails. *)
Lemma getStore_run s k : ctx_ok s -> k ∉ dead s -> exists s',
  getStore k s = (s', Ok (store_of s k)) /\ ctx_ok s' /\ later s s' /\ asyncContextStack s' = asyncContextStack s.
Proof.
  intros O Hk. unfold getStore. destruct (current_run s O) as (s1 & f & E & O1 & L1 & S1 & F1 & St & _ & D1 & _).
  erewrite bind_ok by exact E. unfold get. erewrite bind_ok by reflexivity. unfold isDead.
  rewrite bool_decide_false by (rewrite D1; exact Hk). erewrite bind_ok by reflexivity.
  erewrite bind_ok by reflexivity. erewrite bind_ok by reflexivity. rewrite storage_set.
  rewrite find_live by (rewrite D1; exact Hk). rewrite St. unfold store_of, value_in.
  destruct (filter_run s1 f O1 F1) as [O2 L2]. rewrite <- St.
  exists (set_storage f (live s1 (storage s1 f)) s1). split; [destruct (find_entry k _); reflexivity|].
  split; [exact O2|]. split; [etrans; eassumption|exact S1].
Qed.

Lemma getStore_dead s k : ctx_ok s -> k ∈ dead s -> exists s',
  getStore k s = (s', Throw (Error "Assertion failed")) /\ ctx_ok s' /\ later s s' /\
  asyncContextStack s' = asyncContextStack s.
Proof.
  intros O Hk. unfold getStore. destruct (current_run s O) as (s1 & f & E & O1 & L1 & S1 & _ & _ & _ & D1 & _).
  erewrite bind_ok by exact E. unfold get. erewrite bind_ok by reflexivity. unfold isDead.
  rewrite bool_decide_true by (rewrite D1; exact Hk). exists s1. split; [reflexivity|]. auto.
Qed.

Lemma calm_getStore b k : calm b (@getStore U k).
Proof.
  intros s O L. destruct (decide (k ∈ dead s)) as [D|D].
  - destruct (getStore_dead s k O D) as (s' & -> & H). exact H.
  - destruct (getStore_run s k O D) as (s' & -> & H). exact H.
Qed.

Lemma current_frames (s s' : state U) f : current s = (s', Ok f) ->
  (f ∈ asyncContextStack s \/ rootAsyncFrame s = Some f \/ f = next s) /\
  (forall g, g <> next s -> frames s' !! g = frames s !! g) /\
  (rootAsyncFrame s' = rootAsyncFrame s \/ rootAsyncFrame s' = Some (next s)).
Proof.
  unfold current. erewrite bind_ok by reflexivity. destruct (asyncContextStack s) as [|g st].
  - unfold getRootAsyncContext. erewrite bind_ok by reflexivity. destruct (rootAsyncFrame s) as [r|] eqn:R.
    + intros [= <- <-]. auto.
    + intros [= <- <-]. split; [auto|]. split; [|auto]. intros g N. cbn. apply lookup_insert_ne. congruence.
  - intros [= <- <-]. split; [left; left|auto].
Qed.

(** Giving a storage to a frame that [b] does not know is no change for [b]. *)
Lemma set_new_later b s f l : ~ is_frame b f -> later b s -> later b (set_storage f l s).
Proof.
  intros N [A B C]. split; cbn; [|exact B|exact C]. intros g m H.
  rewrite lookup_insert_ne; [apply A, H|]. intros <-. apply N. eexists. exact H.
Qed.

Lemma storage_alloc s g : ctx_ok s -> is_frame s g -> storage (fst (setPromiseHooks (fst (alloc_frame s)))) g = storage s g.
Proof.
  intros O H. unfold storage. cbn. rewrite lookup_insert_ne; [reflexivity|].
  intros <-. pose proof (ok_fresh _ O _ H). lia.
Qed.

Lemma current_storage_alloc s : ctx_ok s ->
  current_storage (fst (setPromiseHooks (fst (alloc_frame s)))) = current_storage s.
Proof.
  intros O. unfold current_storage. cbn [setPromiseHooks alloc_frame fst modify asyncContextStack rootAsyncFrame].
  pose proof (ok_stack _ O) as F. destruct (asyncContextStack s) as [|g st].
  - destruct (rootAsyncFrame s) as [r|] eqn:R; [|reflexivity].
    apply (storage_alloc s r O). eexists. apply (ok_root _ O r R).
  - inversion F; subst. apply (storage_alloc s g O). assumption.
Qed.

(** A new frame holds the live current entries and the new one. *)
Lemma create_run s x : ctx_ok s -> exists s' f,
  create None (Some x) s = (s', Ok f) /\ ctx_ok s' /\ later s s' /\
  asyncContextStack s' = asyncContextStack s /\ is_frame s' f /\ dead s' = dead s /\
  storage s' f = put_entry x (live s (current_storage s)).
Proof.
  intros O. destruct (alloc_frame_run s O) as (O1 & L1 & _ & F1).
  destruct (hooks_run _ O1) as [O2 L2]. set (s2 := fst (setPromiseHooks (fst (alloc_frame s)))) in *. set (n := next s) in *.
  assert (Hn : ~ is_frame s n) by (intros H; pose proof (ok_fresh _ O n H); unfold n in *; lia).
  destruct (current_run s2 O2) as (s3 & f & E3 & O3 & L3 & S3 & F3 & St3 & _ & D3 & _).
  destruct (current_frames s2 s3 f E3) as (W3 & K3 & R3).
  assert (Rn : rootAsyncFrame s <> Some n) by (intros H; apply Hn; eexists; apply (ok_root _ O n H)).
  assert (Nf : n <> f).
  { intros <-. destruct W3 as [W|[W|W]]; [|apply Rn; exact W|cbn in W; unfold n in W; lia].
    apply Hn. pose proof (ok_stack _ O) as F. rewrite Forall_forall in F. apply F, W. }
  destruct (filter_run s3 f O3 F3) as [O4 L4]. set (s4 := set_storage f (live s3 (storage s3 f)) s3) in *.
  assert (Z4 : frames s4 !! n = Some []).
  { unfold s4. cbn. rewrite lookup_insert_ne by congruence. rewrite K3 by (cbn; unfold n; lia). exact F1. }
  assert (St : storage s4 f = live s (current_storage s)).
  { unfold s4. rewrite storage_set, St3. unfold s2 at 1. rewrite current_storage_alloc by exact O.
    unfold live, isDead. rewrite D3. reflexivity. }
  set (l := put_entry x (live s (current_storage s))).
  assert (Kl : NoDup (map key l)).
  { apply NoDup_put. rewrite <- St. unfold s4. rewrite storage_set. apply NoDup_live.
    destruct F3 as [m F3]. unfold storage. rewrite F3. apply (ok_keys _ O3 f m F3). }
  exists (set_storage n l s4), n. split; [|split; [|split; [|split; [|split; [|split]]]]].
  - unfold create. erewrite bind_ok by reflexivity. erewrite bind_ok by reflexivity. fold s2. fold n.
    erewrite bind_ok; [reflexivity|]. erewrite bind_ok by exact E3. unfold propagate.
    erewrite bind_ok by reflexivity. fold s4. erewrite bind_ok by reflexivity. unfold modify.
    rewrite storage_set, set_storage_set. replace (storage s4 n) with (@nil entry) by (unfold storage; rewrite Z4; reflexivity).
    cbn [app]. rewrite St. reflexivity.
  - apply set_storage_ok; [exact O4|eexists; exact Z4| |exact Kl].
    change (rootAsyncFrame s3 <> Some n). destruct R3 as [-> | ->]; [exact Rn|]. cbn. unfold n. intros [=]. lia.
  - apply set_new_later; [exact Hn|]. etrans; [exact L1|]. etrans; [exact L2|]. etrans; eassumption.
  - exact S3.
  - eexists. apply lookup_insert_eq.
  - exact D3.
  - apply storage_set.
Qed.

(** ** Scopes *)

(** The state a function starts in: [frame] on the stack. *)
Definition entered (f : frame_id) (s : state U) : state U := set_stack (f :: asyncContextStack s) s.

Lemma entered_ok f s : ctx_ok s -> is_frame s f -> ctx_ok (entered f s).
Proof. intros [A B C D E] F. split; try assumption. constructor; assumption. Qed.

Lemma set_stack_later s l : later s (set_stack l s).
Proof. split; cbn; [|set_solver|auto]. intros f m H. exists m. auto. Qed.

Lemma popped_ok s : ctx_ok s -> ctx_ok (set_stack (tail (asyncContextStack s)) s).
Proof. intros [A B C D E]. split; try assumption. cbn. destruct A; [constructor|assumption]. Qed.

Lemma store_entered f s k : store_of (entered f s) k = value_in (storage s f) k.
Proof. reflexivity. Qed.

(** Running [m] with [f] on the stack and popping it, whatever happens. *)
Definition scoped {R} (f : frame_id) (m : A R) : A R := fun s => try_finally m popAsyncFrame (entered f s).

Lemma in_scope_run {R} f (m : A R) s : in_scope (Some f) m s = scoped f m s.
Proof. reflexivity. Qed.

Lemma timer_body_run eval f h args s :
  timer_body eval f h args s =
  scoped f (match h with Code c => eval c | Fn g => let! _r := g Undefined args in ret tt end) s.
Proof. reflexivity. Qed.

Lemma microtask_body_run f (g : func) s : microtask_body f g s = scoped f (let! _r := g Undefined [] in ret tt) s.
Proof. reflexivity. Qed.

Lemma calm_scoped b {R} f (m : A R) : is_frame b f -> calm b m -> calm b (scoped f m).
Proof.
  intros F C s O L. assert (Fs : is_frame s f) by (eapply later_is_frame; eassumption).
  destruct (C (entered f s) (entered_ok f s O Fs) ltac:(etrans; [exact L|apply set_stack_later])) as (O1 & L1 & S1).
  unfold scoped, try_finally. destruct (m (entered f s)) as [s1 r]. cbn [fst] in *.
  cbn. split; [apply popped_ok, O1|]. split.
  - etrans; [apply (set_stack_later s (f :: asyncContextStack s))|]. etrans; [exact L1|apply set_stack_later].
  - rewrite S1. reflexivity.
Qed.

Lemma scoped_result {R} f (m : A R) s : snd (scoped f m s) = snd (m (entered f s)).
Proof. unfold scoped, try_finally. destruct (m (entered f s)) as [s1 r]. reflexivity. Qed.

Lemma run_run k v (cb : func) args s : ctx_ok s -> exists s1 f,
  run k v cb args s = scoped f (cb Undefined args) s1 /\ ctx_ok s1 /\ later s s1 /\
  asyncContextStack s1 = asyncContextStack s /\ is_frame s1 f /\ dead s1 = dead s /\
  storage s1 f = put_entry (StorageEntry k v) (live s (current_storage s)).
Proof.
  intros O. destruct (create_run s (StorageEntry k v) O) as (s1 & f & E & H). exists s1, f. split; [|exact H].
  unfold run. erewrite bind_ok by exact E. apply in_scope_run.
Qed.

Lemma calm_run b k v (cb : func) args : calm b (cb Undefined args) -> calm b (run k v cb args).
Proof.
  intros C s O L. destruct (run_run k v cb args s O) as (s1 & f & E & O1 & L1 & S1 & F1 & _). rewrite E.
  destruct (calm_scoped s1 f (cb Undefined args) F1 (calm_mono b s1 _ ltac:(etrans; eassumption) C) s1 O1
    ltac:(reflexivity)) as (O2 & L2 & S2).
  split; [exact O2|]. split; [etrans; eassumption|congruence].
Qed.

Lemma calm_wrap b {X R} (fn : val -> X -> A R) maybeFrame this x :
  from_option (is_frame b) True maybeFrame -> calm b (fn this x) -> calm b (wrap fn maybeFrame this x).
Proof.
  intros F C. unfold wrap. destruct maybeFrame as [f|].
  - intros s O L. erewrite bind_ok by reflexivity. rewrite in_scope_run. exact (calm_scoped b f _ F C s O L).
  - intros s O L. destruct (current_run s O) as (s1 & f & E & O1 & L1 & S1 & F1 & _).
    erewrite bind_ok by exact E. rewrite in_scope_run.
    destruct (calm_scoped s1 f _ F1 (calm_mono b s1 _ ltac:(etrans; eassumption) C) s1 O1 ltac:(reflexivity))
      as (O2 & L2 & S2).
    split; [exact O2|]. split; [etrans; eassumption|congruence].
Qed.

Lemma put_value k x l : value_in (put_entry x l) k = if Nat.eqb (key x) k then value x else value_in l k.
Proof. unfold value_in. rewrite find_put. destruct (Nat.eqb (key x) k); reflexivity. Qed.

Lemma live_value (s : state U) k l : k ∉ dead s -> value_in (live s l) k = value_in l k.
Proof. intros H. unfold value_in. rewrite find_live by exact H. reflexivity. Qed.

(** What a frame captured in [s] shows in a later state. *)
Lemma captured_store s s0 f s' j : current s = (s0, Ok f) -> ctx_ok s -> later s0 s' -> j ∉ dead s' ->
  store_of (entered f s') j = store_of s j.
Proof.
  intros E O L Hj. destruct (current_run s O) as (s1 & g & E' & _ & _ & _ & F & St & _).
  rewrite E in E'. injection E' as <- <-. rewrite store_entered, (later_value s0 s' f j L F Hj), St. reflexivity.
Qed.

Lemma set_context_ok s p c : ctx_ok s -> from_option (is_frame s) True c -> ctx_ok (set_context p c s).
Proof.
  intros [B C D E F] H. split; try assumption. cbn. intros q f. destruct c as [g|].
  - destruct (decide (p = q)) as [<-|N]; [rewrite lookup_insert_eq; intros [= <-]; exact H|].
    rewrite lookup_insert_ne by exact N. apply D.
  - destruct (decide (p = q)) as [<-|N]; [rewrite lookup_delete_eq; discriminate|].
    rewrite lookup_delete_ne by exact N. apply D.
Qed.

Lemma set_context_later s p c : later s (set_context p c s).
Proof. split; cbn; [|set_solver|auto]. intros f m H. exists m. auto. Qed.

Lemma current_again (s s1 s2 : state U) f :
  current s = (s1, Ok f) -> asyncContextStack s2 = asyncContextStack s1 -> later s1 s2 -> current s2 = (s2, Ok f).
Proof.
  unfold current. erewrite bind_ok by reflexivity. intros E S L. erewrite bind_ok by reflexivity. rewrite S.
  destruct (asyncContextStack s) as [|g st] eqn:T; [|injection E as <- <-; rewrite T; reflexivity].
  unfold getRootAsyncContext in *. erewrite bind_ok in E by reflexivity.
  assert (X : asyncContextStack s1 = [] /\ rootAsyncFrame s1 = Some f).
  { destruct (rootAsyncFrame s) as [r|] eqn:R; injection E as <- <-; auto. }
  destruct X as [-> R1]. erewrite bind_ok by reflexivity. rewrite (later_root _ _ L f R1). reflexivity.
Qed.

Lemma getRoot_same s s' r f : ctx_ok s -> getRootAsyncContext s = (s', Ok r) -> is_frame s f ->
  storage s' f = storage s f.
Proof.
  intros O E F. unfold getRootAsyncContext in E. erewrite bind_ok in E by reflexivity.
  destruct (rootAsyncFrame s) as [q|]; injection E as <- <-; [reflexivity|].
  unfold storage. cbn. rewrite lookup_insert_ne; [reflexivity|]. intros <-. pose proof (ok_fresh _ O _ F). lia.
Qed.

Lemma init_run p s : ctx_ok s -> contexts s !! p = None -> exists s0 f,
  init p s = (s0, Ok tt) /\ ctx_ok s0 /\ later s s0 /\ asyncContextStack s0 = asyncContextStack s /\
  (contexts s0 !! p = Some f \/ contexts s0 !! p = None /\ rootAsyncFrame s0 = Some f) /\
  is_frame s0 f /\ storage s0 f = current_storage s.
Proof.
  intros O Hp. destruct (current_run s O) as (s1 & f & E1 & O1 & L1 & S1 & F1 & St1 & _ & _ & X1 & _).
  destruct (getRoot_run s1 O1) as (s2 & r & E2 & O2 & L2 & S2 & R2 & _ & X2 & _).
  assert (F2 : is_frame s2 f) by (eapply later_is_frame; eassumption).
  assert (St2 : storage s2 f = current_storage s) by (rewrite (getRoot_same s1 s2 r f O1 E2 F1); exact St1).
  assert (L02 : later s s2) by (etrans; eassumption).
  unfold init. erewrite bind_ok by exact E1. unfold isRoot. rewrite bind_assoc. erewrite bind_ok by exact E2.
  erewrite bind_ok by reflexivity. destruct (Nat.eqb_spec r f) as [->|N].
  - exists s2, f. repeat (split; [solve [eauto|congruence]|]).
    split; [right; split; [congruence|exact R2]|]. auto.
  - unfold tryGetContext. erewrite bind_ok by reflexivity. rewrite X2, X1, Hp. unfold attachContext.
    erewrite bind_ok by (apply (current_again s s1 s2 f E1 S2 L2)).
    exists (set_context p (Some f) s2), f. split; [reflexivity|]. split; [apply set_context_ok; assumption|].
    split; [etrans; [exact L02|apply set_context_later]|]. split; [cbn; congruence|].
    split; [left; apply lookup_insert_eq|]. auto.
Qed.

Lemma before_run p (s : state U) f : contexts s !! p = Some f \/ contexts s !! p = None /\ rootAsyncFrame s = Some f ->
  before p s = (entered f s, Ok tt).
Proof.
  intros H. unfold before, tryGetContext. erewrite bind_ok by reflexivity. destruct H as [-> | [-> R]]; [reflexivity|].
  unfold getRootAsyncContext. rewrite bind_assoc. erewrite bind_ok by reflexivity. rewrite R.
  reflexivity.
Qed.

Lemma after_run getPromiseState p (s : state U) : exists s',
  after getPromiseState p s = (s', Ok tt) /\ asyncContextStack s' = tail (asyncContextStack s) /\
  contexts s' !! p = (if getPromiseState (user s) p =? 2 then contexts s !! p else None).
Proof.
  unfold after. erewrite bind_ok by reflexivity. erewrite bind_ok by reflexivity. cbn [user set_stack].
  destruct (getPromiseState (user s) p =? 2); eexists; (split; [reflexivity|]); (split; [reflexivity|]);
    [reflexivity|apply lookup_delete_eq].
Qed.

Lemma initial_ok (u : U) : ctx_ok (initial u).
Proof.
  split; cbn.
  - constructor.
  - discriminate.
  - intros p f. rewrite lookup_empty. discriminate.
  - intros f [l H]. cbn in H. rewrite lookup_empty in H. discriminate.
  - intros f l. rewrite lookup_empty. discriminate.
Qed.

End Facts.

Section Properties.
Context {U : Type}.
Abbreviation A R := (comp (state U) fault R).
Abbreviation func := (val -> list val -> A val).

(** [getStore] of a storage that is alive answers the value of its entry in
    the current frame, [undefined] when there is none; for a storage that was
    finalized it fails the assertion.  Neither changes the stack nor what any
    frame holds for the keys that are alive. *)
Theorem getStore_spec (s : state U) k : ctx_ok s -> exists s',
  getStore k s = (s', if decide (k ∈ dead s) then Throw (Error "Assertion failed") else Ok (store_of s k)) /\
  ctx_ok s' /\ later s s' /\ asyncContextStack s' = asyncContextStack s.
Proof. intros O. destruct (decide (k ∈ dead s)); [apply getStore_dead|apply getStore_run]; assumption. Qed.

(** [run] calls the callback in a state where the storage shows the given
    value and every other live storage what it showed outside, answers or
    throws what the callback does, and afterwards every live storage shows what
    it showed before, also when the callback throws. *)
Theorem run_scoping (s : state U) k v (cb : func) args : ctx_ok s -> calm s (cb Undefined args) ->
  exists s1, ctx_ok s1 /\ later s s1 /\
    store_of s1 k = v /\ (forall j, j <> k -> j ∉ dead s -> store_of s1 j = store_of s j) /\
    snd (run k v cb args s) = snd (cb Undefined args s1) /\
    ctx_ok (fst (run k v cb args s)) /\ asyncContextStack (fst (run k v cb args s)) = asyncContextStack s /\
    (forall j, j ∉ dead (fst (run k v cb args s)) -> store_of (fst (run k v cb args s)) j = store_of s j).
Proof.
  intros O C. destruct (run_run k v cb args s O) as (s1 & f & E & O1 & L1 & S1 & F1 & D1 & St).
  destruct (calm_run s k v cb args C s O ltac:(reflexivity)) as (O2 & L2 & S2).
  assert (X : forall j, j ∉ dead s -> store_of (entered f s1) j = if Nat.eqb k j then v else store_of s j).
  { intros j Hj. rewrite store_entered, St, put_value. cbn [key value]. destruct (Nat.eqb k j); [reflexivity|].
    apply live_value, Hj. }
  exists (entered f s1). split; [apply entered_ok; assumption|].
  split; [etrans; [exact L1|apply set_stack_later]|]. split.
  { rewrite store_entered, St, put_value. cbn [key]. rewrite Nat.eqb_refl. reflexivity. }
  split.
  { intros j N Hj. rewrite X by exact Hj. destruct (Nat.eqb_spec k j); [congruence|reflexivity]. }
  split; [rewrite E; apply scoped_result|]. split; [exact O2|]. split; [exact S2|].
  intros j Hj. apply later_store; assumption.
Qed.

(** C36: the stack is balanced: running, exiting, entering a resource, calling a
    bound function, a timer handler or a microtask leaves the invariant, the
    frames and the stack as they were when the functions of the program called
    on the way do, whether they return or throw. *)
Theorem scopes_balanced (b : state U) (fn : func) this (args : list val) r eval :
  calm b (fn this args) -> calm b (fn Undefined args) -> calm b (fn Undefined [VArray args]) ->
  calm b (fn Undefined []) -> is_frame b (frame r) ->
  (forall k v, calm b (run k v fn args)) /\ (forall k, calm b (exit k fn args)) /\
  calm b (runInAsyncScope r fn this args) /\
  calm b (wrap fn (Some (frame r)) this args) /\ calm b (wrap fn None this args) /\
  calm b (timer_body eval (frame r) (Fn fn) args) /\ calm b (microtask_body (frame r) fn).
Proof.
  intros C1 C2 C3 C4 F.
  assert (K : forall l, calm b (fn Undefined l) -> calm b (let! _r := fn Undefined l in ret tt)).
  { intros l C. apply calm_bind; [exact C|]. intros b' x _. apply calm_ret. }
  split; [intros k v; apply calm_run, C2|]. split; [intros k; apply calm_run, C3|].
  split; [exact (calm_scoped b (frame r) _ F C1)|]. split; [apply calm_wrap; [exact F|exact C1]|].
  split; [apply calm_wrap; [exact I|exact C1]|].
  split; [exact (calm_scoped b (frame r) _ F (K _ C2))|exact (calm_scoped b (frame r) _ F (K _ C4))].
Qed.

(** C37: a context is captured where a function is bound, a resource made, a
    timer set or a microtask queued: whenever and wherever the function runs
    later, it starts in a state where every live storage shows what it showed
    at that place. *)
Theorem context_captured (s : state U) eval otimeout ominterval omicrotask : ctx_ok s ->
  exists s0 f, later s s0 /\ asyncContextStack s0 = asyncContextStack s /\
    (forall r (fn : func) this, bind_resource r (Some fn) this s =
       (s0, Ok (wrap fn (Some f) (if is_undefined this then self r else this)))) /\
    (forall type x, new_resource type x s = (s0, Ok (AsyncResource f type x))) /\
    (forall h t args, setTimeout eval otimeout h t args s = otimeout (timer_body eval f h) t args s0) /\
    (forall h t args, setInterval eval ominterval h t args s = ominterval (timer_body eval f h) t args s0) /\
    (forall cb, queueMicrotask omicrotask cb s = omicrotask (microtask_body f cb) s0) /\
    forall s', later s0 s' ->
      (forall j, j ∉ dead s' -> store_of (entered f s') j = store_of s j) /\
      (forall fn : func, forall this args, wrap fn (Some f) this args s' = scoped f (fn this args) s') /\
      (forall type x fn this args, runInAsyncScope (AsyncResource f type x) fn this args s' = scoped f (fn this args) s') /\
      (forall fn args, timer_body eval f (Fn fn) args s' = scoped f (let! _r := fn Undefined args in ret tt) s') /\
      (forall cb, microtask_body f cb s' = scoped f (let! _r := cb Undefined [] in ret tt) s').
Proof.
  intros O. destruct (current_run s O) as (s0 & f & E & O0 & L0 & S0 & _). exists s0, f.
  split; [exact L0|]. split; [exact S0|].
  split; [intros; unfold bind_resource; erewrite bind_ok by exact E; reflexivity|].
  split; [intros; unfold new_resource; erewrite bind_ok by exact E; reflexivity|].
  split; [intros; unfold setTimeout; erewrite bind_ok by exact E; reflexivity|].
  split; [intros; unfold setInterval; erewrite bind_ok by exact E; reflexivity|].
  split; [intros; unfold queueMicrotask; erewrite bind_ok by exact E; reflexivity|].
  intros s' L. split; [intros j Hj; eapply captured_store; eassumption|]. repeat split; intros; reflexivity.
Qed.

(** A promise remembers the context it was created in: after the hook
    [init], whenever the hook [before] runs for the promise, every live storage
    shows what it showed at its creation, and the hook [after] takes the frame
    off the stack and, unless the promise is rejected, forgets the context. *)
Theorem promise_context getPromiseState (s : state U) p : ctx_ok s -> contexts s !! p = None ->
  exists s0 f, init p s = (s0, Ok tt) /\ ctx_ok s0 /\ asyncContextStack s0 = asyncContextStack s /\
    forall s' : state U, later s0 s' -> contexts s' !! p = contexts s0 !! p ->
      before p s' = (entered f s', Ok tt) /\
      (forall j, j ∉ dead s' -> store_of (entered f s') j = store_of s j) /\
      forall s2 : state U, asyncContextStack s2 = f :: asyncContextStack s' -> exists s3,
        after getPromiseState p s2 = (s3, Ok tt) /\ asyncContextStack s3 = asyncContextStack s' /\
        contexts s3 !! p = (if getPromiseState (user s2) p =? 2 then contexts s2 !! p else None).
Proof.
  intros O Hp. destruct (init_run p s O Hp) as (s0 & f & E & O0 & L0 & S0 & C & F & St).
  exists s0, f. split; [exact E|]. split; [exact O0|]. split; [exact S0|]. intros s' L Hc.
  split; [apply before_run; rewrite Hc; destruct C as [C|[C R]]; [left; exact C|right; split; [exact C|]];
          apply (later_root _ _ L _ R)|].
  split.
  { intros j Hj. rewrite store_entered, (later_value s0 s' f j L F Hj), St. reflexivity. }
  intros s2 S2. destruct (after_run getPromiseState p s2) as (s3 & E3 & S3 & C3).
  exists s3. split; [exact E3|]. rewrite S3, S2. split; [reflexivity|exact C3].
Qed.

End Properties.

(** ** A sample program and the witnesses *)

(** The callbacks of the sample read a storage. *)
Definition reads (k : key_id) : val -> list val -> comp (state unit) fault val := fun _ _ => @getStore unit k.

(** Storage 0 is made and runs a callback that reads it and hands on what it saw. *)
Definition sample_state : state unit := fst (new_storage (initial tt)).

Example run_sees : snd (run 0 (Num (of_Z 5)) (reads 0) [] sample_state) = Ok (Num (of_Z 5)).
Proof. vm_compute. reflexivity. Qed.

Example nested_exit :
  snd (run 0 (Num (of_Z 5)) (fun _ _ => exit 0 (reads 0) []) [] sample_state) = Ok Undefined.
Proof. vm_compute. reflexivity. Qed.

(** The callback of [exit] is given one array instead of the arguments. *)
Example exit_arguments :
  snd (exit 0 (fun _ args => ret (VArray args)) [Bool true; Bool false] sample_state) =
    Ok (VArray [VArray [Bool true; Bool false]]) /\
  snd (run 0 Undefined (fun _ args => ret (VArray args)) [Bool true; Bool false] sample_state) =
    Ok (VArray [Bool true; Bool false]).
Proof. vm_compute. split; reflexivity. Qed.

Lemma sample_state_ok : ctx_ok sample_state.
Proof. destruct (initial_ok tt) as [A B C D E]. split; try assumption. intros f H. specialize (D f H). cbn in *. lia. Qed.

Lemma getStore_spec_witness : exists s', getStore 0 sample_state = (s', Ok Undefined).
Proof.
  destruct (getStore_spec sample_state 0%nat sample_state_ok) as (s' & E & _). exists s'. exact E.
Defined.

Lemma run_scoping_witness :
  exists s1, store_of s1 0 = Num (of_Z 5) /\
    snd (run 0 (Num (of_Z 5)) (reads 0) [] sample_state) = snd (reads 0 Undefined [] s1).
Proof.
  destruct (run_scoping sample_state 0%nat (Num (of_Z 5)) (reads 0) [] sample_state_ok (calm_getStore sample_state 0%nat))
    as (s1 & _ & _ & V & _ & E & _).
  exists s1. exact (conj V E).
Defined.

Definition sample_frame_state : state unit := fst (@current unit sample_state).

Lemma scopes_balanced_witness : calm sample_frame_state (exit 0 (reads 0) [Null]).
Proof.
  exact (proj1 (proj2 (scopes_balanced sample_frame_state (reads 0) Undefined [Null] (AsyncResource 1 [] Undefined)
    (fun _ => ret tt) (calm_getStore _ 0%nat) (calm_getStore _ 0%nat) (calm_getStore _ 0%nat) (calm_getStore _ 0%nat)
    (ex_intro _ [] eq_refl))) 0%nat).
Defined.

Lemma context_captured_witness : exists s0 f,
  (forall r (fn : val -> list val -> comp (state unit) fault val) this, bind_resource r (Some fn) this sample_state =
     (s0, Ok (wrap fn (Some f) (if is_undefined this then self r else this)))) /\
  forall s', later s0 s' -> forall j, j ∉ dead s' -> store_of (entered f s') j = store_of sample_state j.
Proof.
  destruct (context_captured sample_state (fun _ => ret tt) (fun _ _ _ => ret Undefined) (fun _ _ _ => ret Undefined)
              (fun _ => ret tt) sample_state_ok) as (s0 & f & _ & _ & B & _ & _ & _ & _ & K).
  exists s0, f. split; [exact B|]. intros s' L. exact (proj1 (K s' L)).
Defined.

Lemma promise_context_witness : exists s0 f, init 4 sample_state = (s0, Ok tt) /\ before 4 s0 = (entered f s0, Ok tt).
Proof.
  destruct (promise_context (fun _ _ => 1) sample_state 4%nat sample_state_ok eq_refl) as (s0 & f & E & _ & _ & K).
  exists s0, f. split; [exact E|]. exact (proj1 (K s0 ltac:(reflexivity) eq_refl)).
Defined.
