(* ===== verification/AsyncSpec.v ===== *)
(** What [AsyncLocalStorage] and [AsyncResource] promise to a program: dynamic
    scoping.  A program reads, runs under, leaves and captures contexts; its
    meaning needs no frames, only an environment from storages to values that
    [run] extends and that a captured resource brings back.  The frames, their
    stack, the cloned entries and the weakly held keys implement that meaning. *)

From Stdlib Require Import String.
From stdpp Require Import base numbers list gmap.
From S2P Require Import Prelude JsNumber JsValue AsyncHooks AsyncFacts.

Local Open Scope js_scope.

(** ** Programs *)

(** A program over some storages; a resource it makes is known by its number. *)
#[warnings="-register-all"]
Inductive prog : Type :=
| Return (v : val)
| Raise (e : fault)
| Get (k : key_id) (rest : val -> prog)
| RunIn (k : key_id) (store : val) (body : prog) (rest : val -> prog)
| ExitIn (k : key_id) (body : prog) (rest : val -> prog)
| Capture (rest : prog)
| Resume (i : nat) (body : prog) (rest : val -> prog)
| Catch (body : prog) (handler : fault -> prog) (rest : val -> prog).

Definition no_resource : fault := TypeError "resource is undefined".

(** *** Its meaning *)

Definition env : Type := key_id -> val.
Definition extend (e : env) (k : key_id) (v : val) : env := fun j => if Nat.eqb k j then v else e j.

Section Meaning.
(** The storages that were collected. *)
Variable collected : gset key_id.

(** The state is the list of the captured environments. *)
Fixpoint meaning (p : prog) (e : env) : comp (list env) fault val :=
  match p with
  | Return v => ret v
  | Raise x => throw x
  | Get k rest =>
      if decide (k ∈ collected) then throw (Error "Assertion failed") else meaning (rest (e k)) e
  | RunIn k v body rest => let! r := meaning body (extend e k v) in meaning (rest r) e
  | ExitIn k body rest => let! r := meaning body (extend e k Undefined) in meaning (rest r) e
  | Capture rest => do! modify (fun es => es ++ [e]) in meaning rest e
  | Resume i body rest =>
      let! c := read (fun es => es !! i) in
      match c with
      | Some e' => let! r := meaning body e' in meaning (rest r) e
      | None => throw no_resource
      end
  | Catch body handler rest =>
      fun es => match meaning body e es with
                | (es', Ok r) => meaning (rest r) e es'
                | (es', Throw x) => (let! r := meaning (handler x) e in meaning (rest r) e) es'
                end
  end.
End Meaning.

(** *** Its execution *)

(** The user state is the list of the resources made. *)
Abbreviation exec A := (comp (state (list async_resource)) fault A).

Definition keep (r : async_resource) : exec unit :=
  modify (fun s => State (asyncContextStack s) (rootAsyncFrame s) (promiseHooksSet s) (frames s) (contexts s) (dead s)
                     (next s) (user s ++ [r])).

Fixpoint execute (p : prog) : exec val :=
  match p with
  | Return v => ret v
  | Raise x => throw x
  | Get k rest => let! v := getStore k in execute (rest v)
  | RunIn k v body rest => let! r := run k v (fun _ _ => execute body) [] in execute (rest r)
  | ExitIn k body rest => let! r := exit k (fun _ _ => execute body) [] in execute (rest r)
  | Capture rest =>
      let! r := new_resource (js "resource") Undefined in
      do! keep r in execute rest
  | Resume i body rest =>
      let! c := read (fun s => user s !! i) in
      match c with
      | Some r => let! x := runInAsyncScope r (fun _ _ => execute body) Undefined [] in execute (rest x)
      | None => throw no_resource
      end
  | Catch body handler rest =>
      fun s => match execute body s with
               | (s', Ok r) => execute (rest r) s'
               | (s', Throw x) => (let! r := execute (handler x) in execute (rest r)) s'
               end
  end.

(** ** Operations that leave the user state and the dead keys alone *)

Abbreviation St := (state (list async_resource)).

Definition quiet {A} (m : exec A) : Prop := forall s, user (fst (m s)) = user s /\ dead (fst (m s)) = dead s.

Lemma quiet_bind {A B} (m : exec A) (k : A -> exec B) : quiet m -> (forall a, quiet (k a)) -> quiet (bind m k).
Proof.
  intros M K s. unfold bind. destruct (M s) as [U D]. destruct (m s) as [s' [a|e]]; cbn in *; [|auto].
  destruct (K a s') as [U' D']. split; congruence.
Qed.

Ltac quiet_tac :=
  repeat first
    [ solve [intros s; split; reflexivity]
    | apply quiet_bind; [|intros ?]
    | match goal with |- quiet (match ?x with _ => _ end) => destruct x end ].

Lemma quiet_current : quiet (@current (list async_resource)).
Proof. unfold current. quiet_tac. Qed.
Lemma quiet_create p x : quiet (create (U := list async_resource) p x).
Proof. unfold create. quiet_tac. Qed.
Lemma quiet_getStore k : quiet (getStore (U := list async_resource) k).
Proof. unfold getStore, get, assert. quiet_tac. Qed.

Lemma quiet_run {A} (m : exec A) s s' r : quiet m -> m s = (s', r) -> user s' = user s /\ dead s' = dead s.
Proof. intros Q E. pose proof (Q s) as H. rewrite E in H. exact H. Qed.

(** ** Refinement *)

(** The frame of a resource stands for the environment it captured. *)
Definition stands_for (D : gset key_id) (s : St) (r : async_resource) (e : env) : Prop :=
  is_frame s (frame r) /\ forall k, k ∉ D -> value_in (storage s (frame r)) k = e k.

(** The state of the execution stands for the environment and the captured ones. *)
Record agrees (D : gset key_id) (s : St) (e : env) (es : list env) : Prop := Agrees {
  ag_ok : ctx_ok s;
  ag_dead : dead s = D;
  ag_env : forall k, k ∉ D -> store_of s k = e k;
  ag_captured : Forall2 (stands_for D s) (user s) es }.

Lemma stands_later D s s' rs es : later s s' -> dead s' = D ->
  Forall2 (stands_for D s) rs es -> Forall2 (stands_for D s') rs es.
Proof.
  intros L Ed F. eapply Forall2_impl; [exact F|]. intros r e [Hf Hk]. split; [eapply later_is_frame; eassumption|].
  intros k Nk. rewrite (later_value s s' (frame r) k L Hf) by (rewrite Ed; exact Nk). apply Hk, Nk.
Qed.

(** A quiet step that keeps the stack keeps the agreement. *)
Lemma agrees_later D s s' e es : agrees D s e es -> ctx_ok s' -> later s s' ->
  asyncContextStack s' = asyncContextStack s -> user s' = user s -> dead s' = dead s -> agrees D s' e es.
Proof.
  intros [O Ed En C] O' L S Us Dd. split; [exact O'|congruence| |].
  - intros k Hk. rewrite (later_store s s' k O O' L S) by (rewrite Dd, Ed; exact Hk). apply En, Hk.
  - rewrite Us. eapply stands_later; [exact L|congruence|exact C].
Qed.

(** The outcome of a program in agreeing states. *)
Definition refines (D : gset key_id) (p : prog) : Prop := forall s e es, agrees D s e es ->
  exists s' es' r, execute p s = (s', r) /\ meaning D p e es = (es', r) /\ agrees D s' e es' /\
    later s s' /\ asyncContextStack s' = asyncContextStack s.

(** A body in a frame that stands for its environment. *)
Lemma refines_scoped D p s f e' es : refines D p -> ctx_ok s -> dead s = D -> is_frame s f ->
  (forall k, k ∉ D -> value_in (storage s f) k = e' k) -> Forall2 (stands_for D s) (user s) es ->
  exists s' es' r, scoped f (execute p) s = (s', r) /\ meaning D p e' es = (es', r) /\
    ctx_ok s' /\ dead s' = D /\ later s s' /\ asyncContextStack s' = asyncContextStack s /\
    Forall2 (stands_for D s') (user s') es'.
Proof.
  intros R O Ed F V C. destruct (R (entered f s) e' es) as (s1 & es' & r & E & M & A & L & S).
  { split; [apply entered_ok; assumption|exact Ed|exact V|].
    eapply stands_later; [apply (set_stack_later s)|exact Ed|exact C]. }
  exists (set_stack (tail (asyncContextStack s1)) s1), es', r. destruct A as [O1 D1 _ C1].
  split; [unfold scoped, try_finally; rewrite E; reflexivity|]. split; [exact M|]. split; [apply popped_ok, O1|].
  split; [exact D1|]. split.
  - etrans; [apply (set_stack_later s (f :: asyncContextStack s))|]. etrans; [exact L|apply set_stack_later].
  - split; [cbn; rewrite S; reflexivity|]. eapply stands_later; [apply (set_stack_later s1)|exact D1|exact C1].
Qed.

Lemma refines_run D k v p args : refines D p -> forall s e es, agrees D s e es ->
  exists s' es' r, run k v (fun _ _ => execute p) args s = (s', r) /\ meaning D p (extend e k v) es = (es', r) /\
    agrees D s' e es' /\ later s s' /\ asyncContextStack s' = asyncContextStack s.
Proof.
  intros R s e es A. destruct A as [O Ed En C].
  destruct (create_run s (StorageEntry k v) O) as (s1 & f & E & O1 & L1 & S1 & F1 & D1 & St1).
  destruct (quiet_run _ _ _ _ (quiet_create None (Some (StorageEntry k v))) E) as [U1 _].
  destruct (refines_scoped D p s1 f (extend e k v) es R O1 ltac:(congruence) F1) as (s2 & es' & r & E2 & M & O2 & D2 & L2 & S2 & C2).
  - intros j Hj. rewrite St1, put_value. unfold extend. cbn [key value].
    destruct (Nat.eqb k j); [reflexivity|]. rewrite live_value by (rewrite Ed; exact Hj). apply (En j Hj).
  - rewrite U1. eapply stands_later; [exact L1|congruence|exact C].
  - exists s2, es', r. split; [unfold run; erewrite bind_ok by exact E; rewrite in_scope_run; exact E2|].
    split; [exact M|]. assert (L : later s s2) by (etrans; eassumption).
    split; [|split; [exact L|congruence]]. split; [exact O2|exact D2| |exact C2].
    intros j Hj. rewrite (later_store s s2 j O O2 L) by (congruence || (rewrite D2; exact Hj)). apply (En j Hj).
Qed.

(** One step of a program and of its meaning, then the rest of both. *)
Definition step_refines (D : gset key_id) (m : exec val) (M : comp (list env) fault val) (s : St) (e : env) (es : list env) : Prop :=
  exists s' es' r, m s = (s', r) /\ M es = (es', r) /\ agrees D s' e es' /\
    later s s' /\ asyncContextStack s' = asyncContextStack s.

Lemma step_bind D m M rest s e es : step_refines D m M s e es -> (forall v, refines D (rest v)) ->
  step_refines D (let! v := m in execute (rest v)) (let! v := M in meaning D (rest v) e) s e es.
Proof.
  intros (s1 & es1 & r & E & EM & A & L & S) R. unfold bind, step_refines. rewrite E, EM.
  destruct r as [v|x]; [|exists s1, es1, (Throw x); auto].
  destruct (R v s1 e es1 A) as (s2 & es2 & r & E2 & EM2 & A2 & L2 & S2). exists s2, es2, r.
  split; [exact E2|]. split; [exact EM2|]. split; [exact A2|]. split; [etrans; eassumption|congruence].
Qed.

Lemma step_ret D v s e es : agrees D s e es -> step_refines D (ret v) (ret v) s e es.
Proof. intros A. exists s, es, (Ok v). repeat (split; [reflexivity || exact A|]). reflexivity. Qed.

Lemma step_throw D x s e es : agrees D s e es -> step_refines D (throw x) (throw x) s e es.
Proof. intros A. exists s, es, (Throw x). repeat (split; [reflexivity || exact A|]). reflexivity. Qed.

Lemma step_after D m M s s1 e es1 : step_refines D m M s1 e es1 -> later s s1 ->
  asyncContextStack s1 = asyncContextStack s ->
  exists s' es' r, m s1 = (s', r) /\ M es1 = (es', r) /\ agrees D s' e es' /\ later s s' /\
    asyncContextStack s' = asyncContextStack s.
Proof.
  intros (s2 & es2 & r & E & EM & A & L & S) L1 S1. exists s2, es2, r.
  split; [exact E|]. split; [exact EM|]. split; [exact A|]. split; [etrans; eassumption|congruence].
Qed.

Lemma refines_get D k rest : (forall v, refines D (rest v)) -> refines D (Get k rest).
Proof.
  intros R s e es A. cbn [execute meaning]. destruct (decide (k ∈ D)) as [Hk|Hk].
  - destruct (getStore_dead s k) as (s' & E & O & L & S); [apply A|rewrite (ag_dead _ _ _ _ A); exact Hk|].
    destruct (quiet_run _ _ _ _ (quiet_getStore k) E) as [Us Dd].
    exists s', es, (Throw (Error "Assertion failed")). split; [apply bind_throw, E|]. split; [reflexivity|].
    split; [eapply agrees_later; eassumption|auto].
  - destruct (getStore_run s k) as (s' & E & O & L & S); [apply A|rewrite (ag_dead _ _ _ _ A); exact Hk|].
    destruct (quiet_run _ _ _ _ (quiet_getStore k) E) as [Us Dd].
    erewrite bind_ok by exact E. rewrite (ag_env _ _ _ _ A) by exact Hk.
    apply (step_after D _ _ s s' e es); [|exact L|exact S]. apply R. eapply agrees_later; eassumption.
Qed.

Lemma refines_capture D rest : refines D rest -> refines D (Capture rest).
Proof.
  intros R s e es A. cbn [execute meaning]. destruct (current_run s (ag_ok _ _ _ _ A)) as (s1 & f & E & O & L & S & F & St1 & _ & Dd & _ & Us).
  pose proof (agrees_later _ _ _ _ _ A O L S Us Dd) as [O1 D1 E1 C1].
  unfold new_resource. rewrite bind_assoc. erewrite bind_ok by exact E. erewrite bind_ok by reflexivity.
  erewrite bind_ok by reflexivity. erewrite bind_ok by reflexivity.
  set (r := AsyncResource f (js "resource") Undefined).
  match goal with |- context [execute rest ?x] => set (s2 := x) end.
  assert (L2 : later s1 s2) by (split; cbn; [|set_solver|auto]; intros g l H; exists l; auto).
  apply (step_after D _ _ s s2 e (es ++ [e])); [|etrans; eassumption|exact S]. apply R.
  assert (O2 : ctx_ok s2) by (destruct O1; split; assumption). split; [exact O2|exact D1|exact E1|].
  cbn [user s2]. apply Forall2_app; [exact C1|]. constructor; [|constructor]. split; [exact F|].
  intros k Hk. cbn [frame r]. change (storage s2 f) with (storage s1 f). rewrite St1. apply (ag_env _ _ _ _ A k Hk).
Qed.

Lemma refines_resume D i body rest : refines D body -> (forall v, refines D (rest v)) -> refines D (Resume i body rest).
Proof.
  intros B R s e es A. pose proof A as [O Ed En C]. cbn [execute meaning].
  erewrite !bind_ok by reflexivity. destruct (user s !! i) as [r|] eqn:Ei.
  - destruct (Forall2_lookup_l _ _ _ _ _ C Ei) as (e' & -> & Hf & Hk).
    apply (step_bind D (runInAsyncScope r (fun _ _ => execute body) Undefined []) (meaning D body e') rest); [|exact R].
    destruct (refines_scoped D body s (frame r) e' es B O Ed Hf Hk C) as (s2 & es2 & x & E2 & M2 & O2 & D2 & L2 & S2 & C2).
    exists s2, es2, x. split; [exact E2|]. split; [exact M2|]. split; [|auto].
    split; [exact O2|exact D2| |exact C2]. intros j Hj.
    rewrite (later_store s s2 j O O2 L2 S2) by (rewrite D2; exact Hj). apply (En j Hj).
  - apply lookup_ge_None_1 in Ei. rewrite (Forall2_length _ _ _ C) in Ei.
    rewrite (lookup_ge_None_2 es i Ei). apply step_throw, A.
Qed.

Lemma refines_all D p : refines D p.
Proof.
  induction p as [v|x|k rest IHr|k v body IHb rest IHr|k body IHb rest IHr|rest IHr|i body IHb rest IHr|body IHb handler IHh rest IHr].
  - intros s e es A. apply step_ret, A.
  - intros s e es A. apply step_throw, A.
  - apply refines_get, IHr.
  - intros s e es A. apply (step_bind D (run k v (fun _ _ => execute body) []) (meaning D body (extend e k v)) rest); [|exact IHr].
    apply refines_run; assumption.
  - intros s e es A. apply (step_bind D (exit k (fun _ _ => execute body) []) (meaning D body (extend e k Undefined)) rest); [|exact IHr].
    apply (refines_run D k Undefined body [VArray []]); assumption.
  - apply refines_capture, IHr.
  - apply refines_resume; assumption.
  - intros s e es A. cbn [execute meaning]. destruct (IHb s e es A) as (s1 & es1 & r & E & M & A1 & L & S).
    rewrite E, M. destruct r as [v|x].
    + apply (step_after D (execute (rest v)) (meaning D (rest v) e) s s1 e es1); [apply IHr, A1|exact L|exact S].
    + apply (step_after D (let! r := execute (handler x) in execute (rest r))
               (let! r := meaning D (handler x) e in meaning D (rest r) e) s s1 e es1); [|exact L|exact S].
      apply step_bind; [apply IHh, A1|exact IHr].
Qed.

(** ** Property *)

(** C4: the library implements dynamic scoping.  A program run from the initial
    state, or from any state that agrees with an environment, reads, returns
    and throws exactly what its frame-free meaning does, however its scopes,
    captured resources and handlers nest; the state it leaves agrees with the
    same environment again, with the same stack. *)
Theorem dynamic_scoping D p s e es : agrees D s e es ->
  exists s', execute p s = (s', snd (meaning D p e es)) /\
    agrees D s' e (fst (meaning D p e es)) /\ asyncContextStack s' = asyncContextStack s.
Proof.
  intros A. destruct (refines_all D p s e es A) as (s' & es' & r & E & M & A' & _ & S).
  rewrite M. exists s'. split; [exact E|]. split; [exact A'|exact S].
Qed.

Lemma initial_agrees : agrees ∅ (initial []) (fun _ => Undefined) [].
Proof. split; [apply initial_ok|reflexivity|reflexivity|constructor]. Qed.

(** A resource captured under one store shows it under another, and a caught
    exception leaves the outer store in place. *)
Definition sample_prog : prog :=
  RunIn 0 (Bool true)
    (Capture (RunIn 0 (Bool false)
      (Catch (Resume 0 (Get 0 (fun v => Raise (UserError v))) Return)
             (fun x => match x with UserError v => Get 0 (fun w => Return (VArray [v; w])) | _ => Return Null end) Return)
      Return)) Return.

Lemma dynamic_scoping_witness :
  exists s', execute sample_prog (initial []) = (s', Ok (VArray [Bool true; Bool false])).
Proof.
  destruct (dynamic_scoping ∅ sample_prog (initial []) (fun _ => Undefined) [] initial_agrees) as (s' & E & _).
  exists s'. exact E.
Defined.
