(* ===== verification/Streams.v ===== *)
(** The additions to [ReadableStream] (js_globals/readable-stream.js): the
    asynchronous iterator over a reader and the underlying source
    [ReadableStream.from] builds on an iterator.

    The stream itself is native.  It is met through what the file uses of it:
    a reader's [read] is an argument, and a source acts on the stream only
    through the controller's [enqueue] and [close]. *)

From Stdlib Require Import String.
From stdpp Require Import base numbers list.
From S2P Require Import Prelude JsNumber JsValue.

Local Open Scope js_scope.

(** What [next()] of an iterator and [read()] of a reader answer. *)
Record iter_result : Type := IterResult { done : bool; rvalue : val }.

(** ** The asynchronous iterator *)

Section AsyncIterator.
Context {S : Type}.

(** A stream's [getReader], and a reader's [read], which may reject. *)
Variable reader_type : Type.
Variable getReader : comp S fault reader_type.
Variable reader_read : reader_type -> comp S fault iter_result.

(** [class ReadableStreamAsyncIterator]. *)
Record ReadableStreamAsyncIterator : Type := AsyncIterator { reader : reader_type }.

Definition new_async_iterator : comp S fault ReadableStreamAsyncIterator :=
  let! r := getReader in ret (AsyncIterator r).

Definition next (this : ReadableStreamAsyncIterator) : comp S fault iter_result := reader_read (reader this).

(** [[Symbol.asyncIterator]() { return this }]. *)
Definition asyncIterator (this : ReadableStreamAsyncIterator) : ReadableStreamAsyncIterator := this.

(** [stream[Symbol.asyncIterator]()] and [stream.values()]. *)
Definition stream_asyncIterator : comp S fault ReadableStreamAsyncIterator := new_async_iterator.
Definition stream_values : comp S fault ReadableStreamAsyncIterator := new_async_iterator.

(** [for await (const chunk of stream)]: [next] until it answers [done]. *)
Fixpoint for_await (fuel : nat) (it : ReadableStreamAsyncIterator) : comp S fault (list val) :=
  match fuel with
  | O => ret []
  | Datatypes.S fuel =>
      let! r := next it in
      if done r then ret [] else let! rest := for_await fuel it in ret (rvalue r :: rest)
  end.

End AsyncIterator.

(** ** [ReadableStream.from] *)

(** The controller of a stream: the chunks enqueued so far, and whether the
    stream was closed. *)
Record controller : Type := Controller { queue : list val; closed : bool }.

Section From.
Context {I : Type}.

(** The state of an iterator, and its [next()]. *)
Variable iterator_next : I -> I * outcome fault iter_result.

(** The source acts on its iterator and on its stream. *)
Record source_state : Type := SourceState { iterator : I; stream : controller }.

Abbreviation P A := (comp source_state fault A).

Definition call_next : P iter_result :=
  fun s => let '(i, r) := iterator_next (iterator s) in (SourceState i (stream s), r).

(** [controller.enqueue] and [controller.close]; both throw on a closed stream. *)
Definition enqueue (v : val) : P unit :=
  fun s => if closed (stream s) then (s, Throw (TypeError "the stream is closed"))
           else (SourceState (iterator s) (Controller (queue (stream s) ++ [v]) false), Ok tt).
Definition close : P unit :=
  fun s => if closed (stream s) then (s, Throw (TypeError "the stream is closed"))
           else (SourceState (iterator s) (Controller (queue (stream s)) true), Ok tt).

Definition no_element : fault := TypeError "Iterator passed to ReadableStream.from failed to produce an element".

(** [pull], for both kinds of iterators: the asynchronous one awaits [next()]. *)
Definition pull : P unit :=
  let! r := call_next in
  if done r then close
  else if is_undefined (rvalue r) then throw no_element
  else enqueue (rvalue r).

End From.

Arguments SourceState {I}. Arguments iterator {I}. Arguments stream {I}.

(** What [ReadableStream.from] is given: [undefined] or [null], or a value with
    the iterators its two iterator methods make, if it has them. *)
Inductive iterable (I : Type) : Type :=
| Nullish
| Iterable (sync async : option I).
Arguments Nullish {I}. Arguments Iterable {I}.

(** The source of the new stream, over the iterator that was made, and whether
    it is the asynchronous one. *)
Definition from {I} (it : iterable I) : outcome fault (bool * source_state) :=
  match it with
  | Nullish => Throw (TypeError "iterable is null or undefined")
  | Iterable (Some i) _ => Ok (false, SourceState i (Controller [] false))
  | Iterable None (Some i) => Ok (true, SourceState i (Controller [] false))
  | Iterable None None => Throw (TypeError "The parameter passed to ReadableStream.from is not iterable")
  end.

(** ** What the source does *)

(** The stream calls [pull] again while it wants chunks and the source has
    neither closed it nor thrown. *)
Fixpoint pulls {I} (iterator_next : I -> I * outcome fault iter_result) (n : nat) : comp (@source_state I) fault unit :=
  match n with
  | O => ret tt
  | S n => fun s => if closed (stream s) then (s, Ok tt)
                    else (do! pull iterator_next in pulls iterator_next n) s
  end.

(** An iterator over the elements of a list, as an array's. *)
Definition array_next (l : list val) : list val * outcome fault iter_result :=
  match l with
  | [] => ([], Ok (IterResult true Undefined))
  | v :: l => (l, Ok (IterResult false v))
  end.

Definition defined (v : val) : Prop := is_undefined v = false.

Lemma pulls_run l : forall n q, Forall defined l ->
  pulls array_next n (SourceState l (Controller q false)) =
    (SourceState (drop n l) (Controller (q ++ take n l) (bool_decide (length l < n)%nat)), Ok tt).
Proof.
  induction l as [|v l IH]; intros n q F; destruct n as [|n]; cbn [pulls].
  - cbn. rewrite (right_id_L [] (++)). reflexivity.
  - cbn [stream closed]. unfold pull. unfold bind at 2. cbn. unfold close. cbn.
    rewrite (right_id_L [] (++)). destruct n; reflexivity.
  - cbn. rewrite (right_id_L [] (++)). reflexivity.
  - inversion F as [|? ? D F']; subst. cbn [stream closed]. erewrite bind_ok.
    2: { unfold pull, call_next, bind. cbn. rewrite D. unfold enqueue. cbn. reflexivity. }
    rewrite IH by exact F'. cbn [drop take]. rewrite <- (assoc_L (++)). f_equal.
    do 2 f_equal. apply bool_decide_ext. cbn. lia.
Qed.

Lemma pulls_undefined pre post n q : Forall defined pre -> (length pre < n)%nat ->
  pulls array_next n (SourceState (pre ++ Undefined :: post) (Controller q false)) =
    (SourceState post (Controller (q ++ pre) false), Throw no_element).
Proof.
  intros F. revert n q. induction F as [|v pre D _ IH]; intros n q Hn; (destruct n as [|n]; [cbn in Hn; lia|]).
  - cbn. rewrite (right_id_L [] (++)). reflexivity.
  - cbn [pulls app stream closed]. erewrite bind_ok.
    2: { unfold pull, call_next, bind. cbn. rewrite D. unfold enqueue. cbn. reflexivity. }
    rewrite IH by (cbn in Hn; lia). rewrite <- (assoc_L (++)). reflexivity.
Qed.

(** [ReadableStream.from] of an array makes a stream that, however many
    times it pulls, has received the elements in order and nothing else, is
    closed exactly when it pulled once more than there are elements, and fails
    with TypeError at the first element that is [undefined]; a value without
    iterator methods throws TypeError. *)
Theorem from_array_pulls l n :
  exists s, from (Iterable (Some l) None) = Ok (false, s) /\
    (Forall defined l ->
       pulls array_next n s =
         (SourceState (drop n l) (Controller (take n l) (bool_decide (length l < n)%nat)), Ok tt)) /\
    (forall pre post, l = pre ++ Undefined :: post -> Forall defined pre -> (length pre < n)%nat ->
       pulls array_next n s = (SourceState post (Controller pre false), Throw no_element)) /\
    (forall i : list val, from (Iterable None (Some i)) = Ok (true, SourceState i (Controller [] false))) /\
    from (@Iterable (list val) None None) = Throw (TypeError "The parameter passed to ReadableStream.from is not iterable").
Proof.
  exists (SourceState l (Controller [] false)). split; [reflexivity|].
  split; [intros F; apply pulls_run, F|]. split; [|split; [intros i|]; reflexivity].
  intros pre post -> F Hn. apply pulls_undefined; assumption.
Qed.
