(* ===== verification/Timers.v ===== *)
(** The timers of a program: what is pending, in the order the timers were
    started, and [delay] and [flushAsyncEvents] of test-suite/js-test-app/src/test-utils.js.

    The functions that start and stop timers are native, and so is the choice of
    the timer that fires next: a [service] is an argument of the programs on it,
    and [documented] is what the HTML standard promises of one. *)

From Stdlib Require Import String Sorted.
From stdpp Require Import base numbers list relations.
From S2P Require Import Prelude JsNumber JsValue.

Local Open Scope Z_scope.
Local Open Scope js_scope.

Section Timers.
Context {C : Type}.

Record timer : Type := Timer { handle : nat; ms : Z; repeats : bool; callback : C }.
Record loop : Type := Loop { next_handle : nat; pending : list timer }.

(** A new timer, after all that are pending. *)
Definition add_timer (repeats : bool) (c : C) (ms : Z) (l : loop) : loop * nat :=
  (Loop (S (next_handle l)) (pending l ++ [Timer (next_handle l) ms repeats c]), next_handle l).

Definition remove_timer (h : nat) (l : loop) : loop :=
  Loop (next_handle l) (filter (fun t => handle t <> h) (pending l)).

(** The timer that fires: one that does not repeat is no longer pending. *)
Definition take_timer (i : nat) (l : loop) : option (timer * loop) :=
  match pending l !! i with
  | Some t => Some (t, if repeats t then l else Loop (next_handle l) (delete i (pending l)))
  | None => None
  end.

(** After its callback, an interval that was not cleared starts again. *)
Definition rearm (t : timer) (l : loop) : loop :=
  if repeats t && existsb (fun u => Nat.eqb (handle u) (handle t)) (pending l)
  then Loop (next_handle l) (pending (remove_timer (handle t) l) ++ [t])
  else l.

(** The native functions: the delay they take from an argument that may be
    missing, clearing, and which pending timer may fire next. *)
Record service : Type := Service {
  delay_of : option val -> Z;
  clearTimeout : nat -> loop -> loop;
  clearInterval : nat -> loop -> loop;
  fires_next : list timer -> nat -> Prop }.

(** A timer waits for those that were started before it with the same delay or a
    shorter one. *)
Definition in_order (l : list timer) (i : nat) : bool :=
  match l !! i with
  | Some t => forallb (fun u => ms t <? ms u) (take i l)
  | None => false
  end.

Record documented (s : service) : Prop := Documented {
  delay_number z : 0 <= z < 2 ^ 31 -> delay_of s (Some (Num (of_Z z))) = z;
  delay_missing : delay_of s None = 0;
  delay_undefined : delay_of s (Some Undefined) = 0;
  clears_timeout h l : clearTimeout s h l = remove_timer h l;
  clears_interval h l : clearInterval s h l = remove_timer h l;
  next_pending l i : fires_next s l i -> in_order l i = true;
  next_exists l : l <> [] -> exists i, fires_next s l i }.

End Timers.
Arguments timer C : clear implicits.
Arguments loop C : clear implicits.
Arguments service C : clear implicits.

(** A service that takes every liberty the order leaves. *)
Definition any_delay (d : option val) : Z :=
  match d with Some (Num n) => Z.max 0 (to_integer n) | _ => 0 end.

Definition any_service {C} : service C :=
  Service any_delay remove_timer remove_timer (fun l i => in_order l i = true).

Lemma any_documented {C} : documented (@any_service C).
Proof.
  split; cbn; try reflexivity.
  - intros z Hz. rewrite to_integer_of_Z by lia. lia.
  - auto.
  - intros [|t l] H; [congruence|]. exists 0%nat. reflexivity.
Qed.

(** ** [delay] and [flushAsyncEvents]

    Besides the timers of the program ([inl]) there are those whose callback
    resolves a [delay]: [inr n] when [n] more of [delay(0)] are chained to it. *)
Section Flush.
Context {C : Type} (native : service (C + nat)).

(** What a callback of the program does to the timers. *)
Variable other : C -> loop (C + nat) -> loop (C + nat).

Definition delay (z : Z) (chained : nat) (l : loop (C + nat)) : loop (C + nat) :=
  (add_timer false (inr chained) (delay_of native (Some (Num (of_Z z)))) l).1.

(** The timers, and whether the promise of [flushAsyncEvents] has been fulfilled. *)
Record flushing : Type := Flushing { all_timers : loop (C + nat); flushed : bool }.

Definition flushAsyncEvents (l : loop (C + nat)) : flushing := Flushing (delay 1 3 l) false.

Definition run_callback (c : C + nat) (g : flushing) : flushing :=
  match c with
  | inl c => Flushing (other c (all_timers g)) (flushed g)
  | inr O => Flushing (all_timers g) true
  | inr (S n) => Flushing (delay 0 n (all_timers g)) (flushed g)
  end.

Definition flush_turn (i : nat) (g : flushing) : flushing :=
  match take_timer i (all_timers g) with
  | Some (t, l) =>
      let g := run_callback (callback t) (Flushing l (flushed g)) in
      Flushing (rearm t (all_timers g)) (flushed g)
  | None => g
  end.

Inductive flush_step (g : flushing) : flushing -> Prop :=
| flush_fires i : fires_next native (pending (all_timers g)) i -> flush_step g (flush_turn i g).

(** *** What it waits for *)

(** The program's callbacks start timers of their own and clear any; the timers of
    another [flushAsyncEvents] are the program's own. *)
Inductive uses_timers : loop (C + nat) -> loop (C + nat) -> Prop :=
| uses_add r c z l : uses_timers l (add_timer r (inl c) z l).1
| uses_clear h l : uses_timers l (remove_timer h l).

Hypothesis other_uses : forall c l, rtc uses_timers l (other c l).
Hypothesis D : documented native.

Definition is_delay (u : timer (C + nat)) : Prop := match callback u with inr _ => True | inl _ => False end.

(** Timers that do not repeat are pending in the order of their handles. *)
Definition started_before (u v : timer (C + nat)) : Prop :=
  repeats u = false -> repeats v = false -> (handle u < handle v)%nat.

Record wf (l : loop (C + nat)) : Prop := Wf {
  wf_order : StronglySorted started_before (pending l);
  wf_once : NoDup (handle <$> pending l);
  wf_handles : Forall (fun u => (handle u < next_handle l)%nat) (pending l) }.

(** At most one timer of a [delay] is pending. *)
Record lone (l : loop (C + nat)) : Prop := Lone {
  lone_same u v : u ∈ pending l -> v ∈ pending l -> is_delay u -> is_delay v -> handle u = handle v;
  lone_once u : u ∈ pending l -> is_delay u -> repeats u = false }.

(** No timer with the handle of [t] is pending. *)
Definition gone (t : timer (C + nat)) (l : loop (C + nat)) : Prop := Forall (fun u => handle u <> handle t) (pending l).

(** *** Lists of pending timers *)

Lemma sublist_sorted l1 l2 : l1 `sublist_of` l2 -> StronglySorted started_before l2 -> StronglySorted started_before l1.
Proof.
  induction 1 as [|x l1 l2 S IH|x l1 l2 S IH]; intros H; [constructor| |]; apply StronglySorted_inv in H as [H F].
  - constructor; [apply IH, H|]. rewrite Forall_forall in F |- *. intros y Hy. apply F. eapply elem_of_sublist; eassumption.
  - apply IH, H.
Qed.

Lemma sorted_snoc l u : StronglySorted started_before l -> Forall (fun v => started_before v u) l ->
  StronglySorted started_before (l ++ [u]).
Proof.
  induction 1 as [|x l S IH F]; intros H; [repeat constructor|]. apply Forall_cons in H as [H1 H2].
  cbn. constructor; [apply IH, H2|]. apply Forall_app. split; [exact F|]. repeat constructor. exact H1.
Qed.

Lemma same_timer l u v : wf l -> u ∈ pending l -> v ∈ pending l -> handle u = handle v -> u = v.
Proof.
  intros [_ N _] Hu Hv E. apply list_elem_of_lookup in Hu as [i Hi], Hv as [j Hj].
  assert (i = j) as ->; [|congruence].
  apply (NoDup_lookup _ i j (handle u) N); rewrite list_lookup_fmap, ?Hi, ?Hj; cbn; congruence.
Qed.

(** The first of two one-shot timers is at the earlier place. *)
Lemma earlier_place l i u v : wf l -> pending l !! i = Some v -> u ∈ pending l -> repeats u = false -> repeats v = false ->
  (handle u < handle v)%nat -> u ∈ take i (pending l).
Proof.
  intros [S _ _] Hv Hu Ru Rv L. rewrite <- (take_drop i (pending l)) in Hu. apply elem_of_app in Hu as [Hu|Hu]; [exact Hu|].
  exfalso. rewrite (drop_S _ v i Hv) in Hu. apply list_elem_of_In in Hu. destruct Hu as [<-|Hu]; [lia|]. apply list_elem_of_In in Hu.
  assert (S' : StronglySorted started_before (drop i (pending l))) by (eapply sublist_sorted; [apply sublist_drop|exact S]).
  rewrite (drop_S _ v i Hv) in S'. apply StronglySorted_inv in S' as [_ F]. rewrite Forall_forall in F.
  specialize (F u Hu Rv Ru). lia.
Qed.

Lemma wf_sublist l l' : next_handle l' = next_handle l -> pending l' `sublist_of` pending l -> wf l -> wf l'.
Proof.
  intros E S [H1 H2 H3]. split.
  - eapply sublist_sorted; eassumption.
  - eapply sublist_NoDup; [exact H2|]. clear -S. induction S; cbn; constructor; assumption.
  - rewrite E. rewrite Forall_forall in H3 |- *. intros u Hu. apply H3. eapply elem_of_sublist; eassumption.
Qed.

Lemma wf_add r c z l : wf l -> wf (add_timer r c z l).1.
Proof.
  intros [H1 H2 H3]. split; cbn.
  - apply sorted_snoc; [exact H1|]. rewrite Forall_forall in H3 |- *. intros u Hu _ _. exact (H3 u Hu).
  - rewrite fmap_app. apply NoDup_app. split; [exact H2|]. split; [|apply NoDup_singleton].
    intros h Hh Hn. apply list_elem_of_singleton in Hn as ->. cbn in Hh. apply list_elem_of_fmap in Hh as (u & E & Hu).
    rewrite Forall_forall in H3. specialize (H3 u Hu). lia.
  - apply Forall_app. split; [|repeat constructor; cbn; lia]. eapply Forall_impl; [exact H3|]. cbn. lia.
Qed.

Lemma wf_remove h l : wf l -> wf (remove_timer h l).
Proof. apply wf_sublist; [reflexivity|apply sublist_filter]. Qed.

Lemma wf_uses l l' : rtc uses_timers l l' -> wf l -> wf l' /\ (next_handle l <= next_handle l')%nat.
Proof.
  induction 1 as [l|l l1 l' U _ IH]; intros H; [split; [exact H|lia]|].
  destruct U as [r c z l|h l]; [destruct (IH (wf_add r (inl c) z l H)) as [W L]|destruct (IH (wf_remove h l H)) as [W L]];
    (split; [exact W|]); cbn in L; lia.
Qed.

Lemma wf_take i l u l1 : take_timer i l = Some (u, l1) -> wf l ->
  wf l1 /\ u ∈ pending l /\ next_handle l1 = next_handle l /\ pending l1 `sublist_of` pending l /\
  (forall v, v ∈ pending l -> v = u \/ v ∈ pending l1) /\
  (repeats u = false -> gone u l1).
Proof.
  unfold take_timer. intros T W. destruct (pending l !! i) as [v|] eqn:Ev; [|discriminate]. injection T as -> <-.
  assert (U : u ∈ pending l) by (apply list_elem_of_lookup; eauto).
  destruct (repeats u); [repeat split; try discriminate; try assumption; try apply W; auto|].
  split; [apply (wf_sublist l); [reflexivity|apply sublist_delete|exact W]|]. split; [exact U|]. split; [reflexivity|].
  split; [apply sublist_delete|]. unfold gone. cbn. rewrite delete_take_drop.
  pose proof (take_drop_middle _ _ _ Ev) as M. pose proof (wf_once l W) as N.
  set (b := take i (pending l)) in *. set (a := drop (S i) (pending l)) in *. clearbody a b. rewrite <- M in N |- *.
  rewrite fmap_app, fmap_cons in N. apply NoDup_app in N as (_ & N1 & N2). apply NoDup_cons in N2 as [N2 _]. split.
  - intros v. rewrite !elem_of_app, elem_of_cons. tauto.
  - intros _. apply Forall_forall. intros v Hv E. apply elem_of_app in Hv as [Hv|Hv].
    + apply (N1 (handle v)); [apply list_elem_of_fmap; eauto|]. rewrite E. left.
    + apply N2. rewrite <- E. apply list_elem_of_fmap. eauto.
Qed.

(** What is pending after an interval was put back. *)
Lemma rearm_cases (u : timer (C + nat)) l :
  rearm u l = l \/
  (repeats u = true /\ Exists (fun v => handle v = handle u) (pending l) /\
   pending (rearm u l) = pending (remove_timer (handle u) l) ++ [u] /\ next_handle (rearm u l) = next_handle l).
Proof.
  unfold rearm. destruct (repeats u && _) eqn:E; [right|left; reflexivity]. apply andb_prop in E as [E1 E2].
  split; [exact E1|]. split; [|split; reflexivity]. apply existsb_exists in E2 as (v & Hv & Ev).
  apply Exists_exists. exists v. split; [apply list_elem_of_In, Hv|apply Nat.eqb_eq, Ev].
Qed.

Lemma wf_rearm u l : wf l -> wf (rearm u l).
Proof.
  intros W. destruct (rearm_cases u l) as [->|(Ru & X & P & N)]; [exact W|]. pose proof (wf_remove (handle u) l W) as [H1 H2 H3].
  apply Exists_exists in X as (v & Hv & Ev). pose proof (wf_handles l W) as H. rewrite Forall_forall in H. specialize (H v Hv).
  split; rewrite P.
  - apply sorted_snoc; [exact H1|]. apply Forall_forall. intros x _ _ Rx. congruence.
  - rewrite fmap_app. apply NoDup_app. split; [exact H2|]. split; [|apply NoDup_singleton].
    intros h Hh Hn. apply list_elem_of_singleton in Hn as ->. apply list_elem_of_fmap in Hh as (x & E & Hx).
    cbn in Hx. apply list_elem_of_filter in Hx as [Hx _]. congruence.
  - rewrite N. apply Forall_app. split; [exact H3|]. repeat constructor. lia.
Qed.

(** *** Generations

    A timer of the first generation was pending when [flushAsyncEvents] was called
    and waits for at most a millisecond; one of the next generation was started,
    without a wait, by the callback of one of the last. *)

Definition own_timer (t : timer (C + nat)) : Prop := repeats t = false /\ ~ is_delay t.

Inductive generation (l : loop (C + nat)) : nat -> flushing -> timer (C + nat) -> Prop :=
| first_generation t : t ∈ pending l -> own_timer t -> ms t <= 1 -> generation l 0 (flushAsyncEvents l) t
| next_generation k g g1 i u rest t :
    generation l k g u -> rtc flush_step g g1 ->
    fires_next native (pending (all_timers g1)) i -> take_timer i (all_timers g1) = Some (u, rest) ->
    t ∈ pending (all_timers (flush_turn i g1)) -> t ∉ pending (all_timers g1) -> own_timer t -> ms t <= 0 ->
    generation l (S k) (flush_turn i g1) t.

(** Every pending timer of a [delay] has at least [n] more to come. *)
Definition left_from (n : nat) (l : loop (C + nat)) : Prop := forall u m, u ∈ pending l -> callback u = inr m -> (n <= m)%nat.

(** [t] fires before the pending timer of a [delay]. *)
Definition ahead (t : timer (C + nat)) (l : loop (C + nat)) : Prop :=
  forall d, d ∈ pending l -> is_delay d -> (handle t < handle d)%nat /\ ms t <= ms d.

(** [n] timers of a [delay], or [n + 1], will fire after [t]. *)
Record waits (n : nat) (t : timer (C + nat)) (l : loop (C + nat)) : Prop := Waits {
  waits_pending : t ∈ pending l;
  waits_left : left_from n l;
  waits_for : ahead t l \/ left_from (S n) l /\ ms t <= 0 }.

Record holds (n : nat) (t : timer (C + nat)) (g : flushing) : Prop := Holds {
  holds_wf : wf (all_timers g);
  holds_lone : lone (all_timers g);
  holds_handle : (handle t < next_handle (all_timers g))%nat;
  holds_back : gone t (all_timers g) \/ flushed g = false /\ waits n t (all_timers g) }.

(** The invariant over a change of the timers: no timer of a [delay] is new, and
    [t] stays unless it is cleared. *)
Record quiet (t : timer (C + nat)) (l l' : loop (C + nat)) : Prop := Quiet {
  quiet_next : (next_handle l <= next_handle l')%nat;
  quiet_delays d : d ∈ pending l' -> is_delay d -> d ∈ pending l;
  quiet_gone : (handle t < next_handle l)%nat -> gone t l -> gone t l';
  quiet_t : (handle t < next_handle l)%nat -> t ∈ pending l -> wf l -> t ∈ pending l' \/ gone t l' }.

Lemma quiet_waits n t l l' : quiet t l l' -> wf l -> (handle t < next_handle l)%nat -> waits n t l -> gone t l' \/ waits n t l'.
Proof.
  intros [_ Q _ T] W H [P L F]. assert (S : forall m, left_from m l -> left_from m l').
  { intros m X u k Hu E. apply (X u k); [|exact E]. apply Q; [exact Hu|]. unfold is_delay. rewrite E. exact I. }
  destruct (T H P W) as [T'|G]; [right|left; exact G]. split; [exact T'|apply S, L|].
  destruct F as [A|[A Z]]; [left|right; auto]. intros d Hd Dd. apply A; [apply Q|]; assumption.
Qed.

Lemma quiet_lone t l l' : quiet t l l' -> lone l -> lone l'.
Proof.
  intros [_ Q _ _] [L1 L2]. split.
  - intros u v Hu Hv Du Dv. apply L1; auto.
  - intros u Hu Du. apply L2; auto.
Qed.

Lemma quiet_uses t l l' : rtc uses_timers l l' -> wf l -> quiet t l l'.
Proof.
  induction 1 as [l|l l1 l' U _ IH]; intros W; [split; auto|].
  assert (Q : quiet t l l1 /\ wf l1).
  { destruct U as [r c z l|h l]; [split; [|apply wf_add, W]|split; [|apply wf_remove, W]]; split; cbn; try lia.
    - intros d Hd Dd. apply elem_of_app in Hd as [Hd|Hd]; [exact Hd|]. apply list_elem_of_singleton in Hd as ->. destruct Dd.
    - intros H G. unfold gone. cbn. apply Forall_app. split; [exact G|]. repeat constructor. cbn. lia.
    - intros _ P _. left. apply elem_of_app. left. exact P.
    - intros d Hd _. apply list_elem_of_filter in Hd. apply Hd.
    - intros _ G. unfold gone in *. cbn. rewrite Forall_forall in G |- *. intros u Hu. apply list_elem_of_filter in Hu as [_ Hu]. auto.
    - intros _ P _. unfold gone. cbn. destruct (decide (handle t = h)) as [E|N]; [right|left; apply list_elem_of_filter; auto].
      apply Forall_forall. intros u Hu. apply list_elem_of_filter in Hu as [Hu _]. congruence. }
  destruct Q as [[Q1 Q2 Q3 Q4] W1]. specialize (IH W1). destruct IH as [I1 I2 I3 I4]. split.
  - lia.
  - auto.
  - intros H G. apply I3; [lia|auto].
  - intros H P _. destruct (Q4 H P W) as [P1|G1]; [apply I4; [lia|exact P1|exact W1]|right; apply I3; [lia|exact G1]].
Qed.

Lemma quiet_rearm t u l : wf l -> repeats t = false -> ~ is_delay u -> (repeats u = true -> handle u <> handle t) ->
  quiet t l (rearm u l).
Proof.
  intros W Rt Du Nu. destruct (rearm_cases u l) as [->|(Ru & X & P & N)]; [split; auto|]. specialize (Nu Ru). split.
  - lia.
  - intros d Hd Dd. rewrite P in Hd. apply elem_of_app in Hd as [Hd|Hd]; [cbn in Hd; apply list_elem_of_filter in Hd; apply Hd|].
    apply list_elem_of_singleton in Hd as ->. contradiction.
  - intros _ G. unfold gone in *. rewrite P. apply Forall_app. split; [|repeat constructor; exact Nu].
    cbn. rewrite Forall_forall in G |- *. intros v Hv. apply list_elem_of_filter in Hv as [_ Hv]. auto.
  - intros _ Pt _. left. rewrite P. apply elem_of_app. left. cbn. apply list_elem_of_filter. auto.
Qed.

Lemma quiet_trans t l1 l2 l3 : wf l1 -> wf l2 -> quiet t l1 l2 -> quiet t l2 l3 -> quiet t l1 l3.
Proof.
  intros W1 W2 [A1 A2 A3 A4] [B1 B2 B3 B4]. split; [lia|auto| |].
  - intros H G. apply B3; [lia|auto].
  - intros H P _. destruct (A4 H P W1) as [P2|G]; [apply B4; [lia|exact P2|exact W2]|right; apply B3; [lia|exact G]].
Qed.

(** A turn of one of the program's timers. *)
Lemma program_turn t g i u l1 c :
  wf (all_timers g) -> repeats t = false -> take_timer i (all_timers g) = Some (u, l1) -> callback u = inl c ->
  (repeats u = true -> handle u <> handle t) ->
  quiet t l1 (all_timers (flush_turn i g)) /\ wf (all_timers (flush_turn i g)) /\ flushed (flush_turn i g) = flushed g.
Proof.
  intros W Rt T Ec N. destruct (wf_take i _ u l1 T W) as (W1 & _). unfold flush_turn. rewrite T, Ec. cbn.
  destruct (wf_uses _ _ (other_uses c l1) W1) as [W2 _]. split; [|split; [apply wf_rearm, W2|reflexivity]].
  apply (quiet_trans t l1 (other c l1)); [exact W1|exact W2|apply quiet_uses; [apply other_uses|exact W1]|].
  apply quiet_rearm; [exact W2|exact Rt| |exact N]. unfold is_delay. rewrite Ec. auto.
Qed.

Lemma lone_sublist l l' : pending l' `sublist_of` pending l -> lone l -> lone l'.
Proof.
  intros S [L1 L2]. pose proof (fun u (H : u ∈ pending l') => elem_of_sublist _ _ u H S) as I.
  split; intros; [apply L1|apply L2]; auto.
Qed.

(** A turn of a timer of a [delay] while [t] is held back: there is one more to come. *)
Lemma delay_turn n t g i u l1 m :
  own_timer t -> holds n t g -> fires_next native (pending (all_timers g)) i ->
  take_timer i (all_timers g) = Some (u, l1) -> callback u = inr m -> holds n t (flush_turn i g).
Proof.
  intros [Rt Nt] [W L Hh B] Fi T Ec. destruct (wf_take i _ u l1 T W) as (W1 & U & N1 & Sb & Cs & Gu).
  assert (Du : is_delay u) by (unfold is_delay; rewrite Ec; exact I).
  pose proof (lone_once _ L u U Du) as Ru. specialize (Gu Ru).
  assert (No : forall d, d ∈ pending l1 -> ~ is_delay d).
  { intros d Hd Dd. unfold gone in Gu. rewrite Forall_forall in Gu. apply (Gu d Hd).
    apply (lone_same _ L); [apply (elem_of_sublist _ _ d Hd Sb)|exact U|exact Dd|exact Du]. }
  assert (G1 : gone t (all_timers g) -> gone t l1).
  { unfold gone. rewrite !Forall_forall. intros G v Hv. apply G, (elem_of_sublist _ _ v Hv Sb). }
  assert (M : gone t (all_timers g) \/ flushed g = false /\ t ∈ pending l1 /\ (S n <= m)%nat /\ ms t <= 0).
  { destruct B as [G|[Nf [P F Z]]]; [left; exact G|right]. split; [exact Nf|].
    split; [destruct (Cs t P) as [->|H]; [contradiction|exact H]|]. destruct Z as [A|[A Z]]; [exfalso|split; [exact (A u m U Ec)|exact Z]].
    destruct (A u U Du) as [A1 A2]. apply (next_pending native D) in Fi. unfold in_order in Fi. unfold take_timer in T.
    destruct (pending (all_timers g) !! i) as [v|] eqn:Ev; [|discriminate]. injection T as -> _.
    rewrite forallb_forall in Fi. pose proof (earlier_place _ i t u W Ev P Rt Ru A1) as E. apply list_elem_of_In, Fi in E. lia. }
  unfold flush_turn. rewrite T, Ec. cbv zeta. assert (Rr : forall x, rearm u x = x) by (intros x; unfold rearm; rewrite Ru; reflexivity).
  rewrite Rr. destruct m as [|m]; cbn [run_callback all_timers flushed].
  - split; cbn; [exact W1|apply (lone_sublist _ _ Sb L)|lia|]. destruct M as [G|(_ & _ & Le & _)]; [auto|lia].
  - set (l2 := delay 0 m l1).
    assert (P2 : forall d, d ∈ pending l2 -> is_delay d -> d = Timer (next_handle l1) 0 false (inr m)).
    { intros d Hd Dd. unfold l2, delay in Hd. rewrite (delay_number native D 0) in Hd by lia. cbn in Hd.
      apply elem_of_app in Hd as [Hd|Hd]; [destruct (No d Hd Dd)|apply list_elem_of_singleton in Hd; exact Hd]. }
    split; cbn.
    + apply wf_add, W1.
    + split; [intros d e Hd He Dd De; rewrite (P2 d Hd Dd), (P2 e He De); reflexivity|].
      intros d Hd Dd. rewrite (P2 d Hd Dd). reflexivity.
    + lia.
    + destruct M as [G|(Nf & P & Le & Z)]; [left|right; split; [exact Nf|]].
      * unfold gone. cbn. apply Forall_app. split; [apply G1, G|]. repeat constructor. cbn. lia.
      * split; [apply elem_of_app; left; exact P| |left].
        -- intros d k Hd Ek. rewrite (P2 d Hd) in Ek by (unfold is_delay; rewrite Ek; exact I). injection Ek as <-. lia.
        -- intros d Hd Dd. rewrite (P2 d Hd Dd). cbn. lia.
Qed.

Lemma turn_holds n t g g' : own_timer t -> flush_step g g' -> holds n t g -> holds n t g'.
Proof.
  intros O [i Fi] H. destruct (take_timer i (all_timers g)) as [[u l1]|] eqn:T;
    [|unfold flush_turn; rewrite T; exact H].
  destruct (callback u) as [c|m] eqn:Ec; [|apply (delay_turn n t g i u l1 m); assumption].
  destruct O as [Rt Nt], H as [W L Hh B]. destruct (wf_take i _ u l1 T W) as (W1 & U & N1 & Sb & Cs & Gu).
  assert (Nu : repeats u = true -> handle u <> handle t).
  { intros Ru E. destruct B as [G|[_ [P _ _]]].
    - unfold gone in G. rewrite Forall_forall in G. apply (G u U E).
    - rewrite (same_timer _ u t W U P E) in Ru. congruence. }
  destruct (program_turn t g i u l1 c W Rt T Ec Nu) as (Q & W' & F). split.
  - exact W'.
  - apply (quiet_lone t l1 _ Q), (lone_sublist _ _ Sb L).
  - pose proof (quiet_next _ _ _ Q). lia.
  - rewrite <- N1 in Hh. destruct B as [G|[Nf [P Lf A]]].
    + left. apply (quiet_gone _ _ _ Q Hh). unfold gone in *. rewrite Forall_forall in G |- *.
      intros v Hv. apply G, (elem_of_sublist _ _ v Hv Sb).
    + destruct (Cs t P) as [->|P1]; [left; apply (quiet_gone _ _ _ Q Hh), Gu, Rt|].
      rewrite F. destruct (quiet_waits n t l1 _ Q W1 Hh) as [G|K]; [|left; exact G|right; split; assumption].
      pose proof (fun v (Hv : v ∈ pending l1) => elem_of_sublist _ _ v Hv Sb) as In.
      split; [exact P1|intros v k Hv; apply Lf, In, Hv|]. destruct A as [A|[A Z]]; [left|right; split; [|exact Z]].
      * intros d Hd. apply A, In, Hd.
      * intros v k Hv. apply A, In, Hv.
Qed.

Lemma run_holds n t g g' : own_timer t -> rtc flush_step g g' -> holds n t g -> holds n t g'.
Proof. induction 2; [auto|]. intros H'. apply IHrtc. eapply turn_holds; eassumption. Qed.

(** A timer of generation [k] is held back by the last [4 - k] timers. *)
Lemma generation_holds l : wf l -> Forall (fun u => ~ is_delay u) (pending l) -> forall k g t,
  generation l k g t -> own_timer t /\ ((k <= 3)%nat -> holds (3 - k) t g).
Proof.
  intros W O k g t G. induction G as [t Ht Ot Mt|k g g1 i u rest t G IH R Fi T P Np Ot Mt]; (split; [exact Ot|]); intros Hk.
  - rewrite Forall_forall in O. pose proof (wf_handles l W) as Hn. rewrite Forall_forall in Hn. specialize (Hn t Ht).
    assert (P2 : forall d, d ∈ pending (all_timers (flushAsyncEvents l)) -> is_delay d -> d = Timer (next_handle l) 1 false (inr 3%nat)).
    { intros d Hd Dd. unfold flushAsyncEvents, delay in Hd. rewrite (delay_number native D 1) in Hd by lia. cbn in Hd.
      apply elem_of_app in Hd as [Hd|Hd]; [destruct (O d Hd Dd)|apply list_elem_of_singleton in Hd; exact Hd]. }
    split.
    + apply wf_add, W.
    + split; [intros d e Hd He Dd De; rewrite (P2 d Hd Dd), (P2 e He De); reflexivity|].
      intros d Hd Dd. rewrite (P2 d Hd Dd). reflexivity.
    + cbn. lia.
    + right. split; [reflexivity|]. split; [cbn; apply elem_of_app; left; exact Ht| |left].
      * intros d m Hd Em. rewrite (P2 d Hd) in Em by (unfold is_delay; rewrite Em; exact I). injection Em as <-. lia.
      * intros d Hd Dd. rewrite (P2 d Hd Dd). cbn. lia.
  - destruct IH as [Ou Hu]. specialize (Hu ltac:(lia)). pose proof (run_holds _ _ _ _ Ou R Hu) as H1.
    pose proof (turn_holds _ _ _ _ Ou (flush_fires _ i Fi) H1) as H2. destruct H2 as [W2 L2 _ _].
    destruct H1 as [W1 L1 _ B]. destruct (wf_take i _ u rest T W1) as (Wr & U & N1 & Sb & _ & _).
    destruct B as [B|[Nf [_ Lf _]]]; [unfold gone in B; rewrite Forall_forall in B; destruct (B u U eq_refl)|].
    destruct Ou as [Ru Nu]. unfold is_delay in Nu. destruct (callback u) as [c|m] eqn:Ec; [|destruct (Nu I)].
    destruct (program_turn t g1 i u rest c W1 (proj1 Ot) T Ec ltac:(congruence)) as (Q & _ & F).
    split; [exact W2|exact L2| |right; split; [rewrite F; exact Nf|]].
    + pose proof (wf_handles _ W2) as Hn. rewrite Forall_forall in Hn. apply Hn, P.
    + assert (Lf' : left_from (3 - k) (all_timers (flush_turn i g1))).
      { intros v m Hv Em. apply (Lf v m); [|exact Em]. refine (elem_of_sublist _ _ v _ Sb).
        apply (quiet_delays _ _ _ Q v Hv). unfold is_delay. rewrite Em. exact I. }
      split; [exact P|intros v m Hv Em; specialize (Lf' v m Hv Em); lia|right]. split; [|exact Mt].
      replace (S (3 - S k)) with (3 - k)%nat by lia. exact Lf'.
Qed.

(** C16: [flushAsyncEvents] waits for four generations of timers: those pending at the
    call that do not repeat and wait for at most one millisecond, those without
    a wait that their callbacks start, those that these start, and those that
    these start.  Whatever the callbacks of the program start and clear meanwhile,
    once the promise is fulfilled none of them is pending: each has fired or was
    cleared. *)
Theorem flush_waits l k g t g' :
  wf l -> Forall (fun u => ~ is_delay u) (pending l) ->
  generation l k g t -> (k <= 3)%nat -> rtc flush_step g g' -> flushed g' = true ->
  Forall (fun u => handle u <> handle t) (pending (all_timers g')).
Proof.
  intros W O G Hk R Fl. destruct (generation_holds l W O k g t G) as [Ot H].
  destruct (run_holds _ _ _ _ Ot R (H Hk)) as [_ _ _ [B|[Nf _]]]; [exact B|congruence].
Qed.

End Flush.

(** A chain of timers, each of them started by the callback of the one before it. *)
Definition sample_other (c : nat) (l : loop (nat + nat)) : loop (nat + nat) :=
  if (c <? 4)%nat then (add_timer false (inl (S c)) 0 l).1 else l.
Definition sample_loop : loop (nat + nat) := Loop 1 [Timer 0 1 false (inl 0%nat)].

Lemma sample_uses c l : rtc uses_timers l (sample_other c l).
Proof. unfold sample_other. destruct (c <? 4)%nat; [apply rtc_once, uses_add|apply rtc_refl]. Qed.

(** The run in which the first pending timer that may fire does so at every turn. *)
Abbreviation sample_turns n := (Nat.iter n (flush_turn any_service sample_other 0) (flushAsyncEvents any_service sample_loop)).

Lemma sample_run m n : (n + m <= 8)%nat -> rtc (flush_step any_service sample_other) (sample_turns n) (sample_turns (m + n)).
Proof.
  induction m as [|m IH]; intros L; [apply rtc_refl|]. eapply rtc_r; [apply IH; lia|].
  change (sample_turns (S m + n)) with (flush_turn any_service sample_other 0 (sample_turns (m + n))).
  apply flush_fires. assert (L' : (m + n < 8)%nat) by lia. revert L'. generalize (m + n)%nat. intros k L'. clear -L'.
  do 8 (destruct k as [|k]; [vm_compute; reflexivity|]). lia.
Qed.

(** Started by the callback of the timer that fires after [n] turns. *)
Lemma sample_next k n u t : (n <= 7)%nat ->
  generation any_service sample_other sample_loop k (sample_turns (Nat.pred n)) u ->
  (exists rest, take_timer 0 (all_timers (sample_turns n)) = Some (u, rest)) ->
  (exists more, pending (all_timers (sample_turns (S n))) = more ++ [t]) ->
  existsb (fun v => Nat.eqb (handle v) (handle t)) (pending (all_timers (sample_turns n))) = false ->
  own_timer t -> ms t <= 0 ->
  generation any_service sample_other sample_loop (S k) (sample_turns (S n)) t.
Proof.
  intros L G [rest T] [more P] N O M. change (sample_turns (S n)) with (flush_turn any_service sample_other 0 (sample_turns n)).
  eapply next_generation; [exact G| | |exact T| | |exact O|exact M].
  - destruct n as [|n]; [apply rtc_refl|]. apply (sample_run 1 n). lia.
  - unfold take_timer in T. cbn. unfold in_order. destruct (pending _ !! 0%nat); [reflexivity|discriminate].
  - change (flush_turn any_service sample_other 0 (sample_turns n)) with (sample_turns (S n)). rewrite P. apply elem_of_app. right. left.
  - intros H. apply list_elem_of_In in H. assert (X : existsb (fun v => Nat.eqb (handle v) (handle t)) (pending (all_timers (sample_turns n))) = true)
      by (apply existsb_exists; exists t; split; [exact H|apply Nat.eqb_refl]). congruence.
Qed.

(** The third of the timers started by the callbacks has fired when the promise is
    fulfilled, the fourth has not. *)
Lemma flush_waits_witness :
  let g := sample_turns 8 in
  flushed g = true /\ map callback (pending (all_timers g)) = [inl 4%nat] /\
  Forall (fun u => handle u <> 6%nat) (pending (all_timers g)).
Proof.
  assert (O : forall h z c, own_timer (Timer h z false (inl c) : timer (nat + nat))) by (split; [reflexivity|intros []]).
  assert (G0 : generation any_service sample_other sample_loop 0 (sample_turns 0) (Timer 0 1 false (inl 0%nat)))
    by (apply first_generation; [left|apply O|cbn; lia]).
  assert (G1 := sample_next 0 0 _ (Timer 2 0 false (inl 1%nat)) ltac:(lia) G0 ltac:(eexists; reflexivity)
    ltac:(eexists [_]; reflexivity) eq_refl (O _ _ _) ltac:(cbn; lia)).
  assert (G2 := sample_next 1 2 _ (Timer 4 0 false (inl 2%nat)) ltac:(lia) G1 ltac:(eexists; reflexivity)
    ltac:(eexists [_]; reflexivity) eq_refl (O _ _ _) ltac:(cbn; lia)).
  assert (G3 := sample_next 2 4 _ (Timer 6 0 false (inl 3%nat)) ltac:(lia) G2 ltac:(eexists; reflexivity)
    ltac:(eexists [_]; reflexivity) eq_refl (O _ _ _) ltac:(cbn; lia)).
  split; [reflexivity|]. split; [reflexivity|].
  apply (flush_waits any_service sample_other sample_uses any_documented sample_loop 3 (sample_turns 5)
    (Timer 6 0 false (inl 3%nat)) (sample_turns 8)).
  - split; cbn; [repeat constructor|apply NoDup_singleton|repeat constructor; cbn; lia].
  - apply Forall_singleton. intros [].
  - exact G3.
  - lia.
  - apply (sample_run 3 5). lia.
  - reflexivity.
Defined.
