(* ===== verification/HttpEcho.v ===== *)
(** The example application http-echo (examples/http-echo/src/index.js): it
    answers a request with a description of the request, as JSON, as an HTML
    page or as an echo, chosen by a query parameter or the Accept header.

    [URL] is native: what the application asks of it is an argument. *)

From Stdlib Require Import String.
From stdpp Require Import base numbers list.
From S2P Require Import Prelude JsNumber JsValue Encoding.

Local Open Scope Z_scope.
Local Open Scope js_scope.

(** ** Strings *)

(** Text of a template: a backquote stands for a double quotation mark. *)
Definition html (s : string) : jsstr := map (fun c => if c =? 96 then 34 else c) (js s).

(** [s.search(p) !== -1] of a pattern without special characters. *)
Fixpoint contains (p s : jsstr) : bool :=
  startsWith p s || match s with [] => false | _ :: s => contains p s end.

(** ** JSON.stringify *)

#[warnings="-register-all"]
Inductive json : Type :=
| JNull
| JString (s : jsstr)
| JObject (members : list (jsstr * json)).

(** A UTF-16 unit as [\uXXXX] with lower-case digits. *)
Definition json_hex_digit (d : Z) : Z := if d <? 10 then 48 + d else 87 + d.
Definition unicode_escape (c : Z) : jsstr :=
  [92; 117; json_hex_digit (c / 4096 mod 16); json_hex_digit (c / 256 mod 16); json_hex_digit (c / 16 mod 16); json_hex_digit (c mod 16)].

Definition escape_unit (c : Z) : jsstr :=
  if c =? 8 then js "\b" else if c =? 9 then js "\t" else if c =? 10 then js "\n"
  else if c =? 12 then js "\f" else if c =? 13 then js "\r"
  else if c =? 34 then [92; 34] else if c =? 92 then [92; 92]
  else if c <? 32 then unicode_escape c
  else [c].

(** The text between the quotation marks: a lone surrogate is escaped, a pair
    stays. *)
Fixpoint quote_units (s : jsstr) : jsstr :=
  match s with
  | [] => []
  | c :: s' =>
      if is_lead c then
        match s' with
        | t :: s'' => if is_trail t then c :: t :: quote_units s'' else unicode_escape c ++ quote_units s'
        | [] => unicode_escape c
        end
      else if is_trail c then unicode_escape c ++ quote_units s'
      else escape_unit c ++ quote_units s'
  end.

Definition quote (s : jsstr) : jsstr := 34 :: quote_units s ++ [34].

Definition spaces (n : nat) : jsstr := replicate n 32.

Fixpoint intersperse (sep : jsstr) (l : list jsstr) : jsstr :=
  match l with
  | [] => []
  | [x] => x
  | x :: l => x ++ sep ++ intersperse sep l
  end.

(** [JSON.stringify(v, null, 2)] at an indentation. *)
Fixpoint stringify (indent : nat) (v : json) : jsstr :=
  match v with
  | JNull => js "null"
  | JString s => quote s
  | JObject [] => js "{}"
  | JObject ms =>
      let inner := (indent + 2)%nat in
      let member '(k, x) := quote k ++ js ": " ++ stringify inner x in
      js "{" ++ [10] ++ spaces inner ++ intersperse (js "," ++ [10] ++ spaces inner) (map member ms) ++
      [10] ++ spaces indent ++ js "}"
  end.

(** ** Objects *)

(** The array index a property name is, which comes before the other names. *)
Definition array_index (k : jsstr) : option Z :=
  match k with
  | [] => None
  | [48] => Some 0
  | 48 :: _ => None
  | _ => if forallb (fun c => (48 <=? c) && (c <=? 57)) k then
           let z := fold_left (fun a c => a * 10 + (c - 48)) k 0 in
           if z <? 2 ^ 32 - 1 then Some z else None
         else None
  end.

(** A later entry of the same name replaces the value and keeps the place. *)
Fixpoint set_member (k v : jsstr) (ms : list (jsstr * jsstr)) : list (jsstr * jsstr) :=
  match ms with
  | [] => [(k, v)]
  | (k', v') :: ms => if str_eqb k' k then (k', v) :: ms else (k', v') :: set_member k v ms
  end.

Fixpoint insert_index (z : Z) (m : jsstr * jsstr) (ms : list (jsstr * jsstr)) : list (jsstr * jsstr) :=
  match ms with
  | [] => [m]
  | m' :: ms' => match array_index (fst m') with
                 | Some z' => if z <? z' then m :: ms else m' :: insert_index z m ms'
                 | None => m :: ms
                 end
  end.

(** [Object.fromEntries], as the list of the object's members in property order. *)
Definition fromEntries (es : list (jsstr * jsstr)) : list (jsstr * jsstr) :=
  let ms := fold_left (fun ms e => set_member (fst e) (snd e) ms) es [] in
  fold_left (fun acc m => match array_index (fst m) with
                          | Some z => insert_index z m acc
                          | None => acc ++ [m]
                          end) ms [].

(** ** The application *)

(** A request: what [headers.get('accept')] answers, the entries of the headers,
    the body as it is and what [text()] answers. *)
Record request : Type := Request {
  url : jsstr;
  method : jsstr;
  accept : option jsstr;
  entries : list (jsstr * jsstr);
  body : jsstr;
  text : outcome fault jsstr }.

(** A response; [None] is a body that is the request's own stream. *)
Record response : Type := Response {
  rbody : jsstr;
  rheaders : list (jsstr * jsstr) }.

Inductive output_format := Json | Html | Echo.

Section Application.
(** [new URL(u).searchParams.get(name)], and [pathname + search] of [u] once its
    format parameter is set to json. *)
Variable searchParams_get : jsstr -> jsstr -> option jsstr.
Variable json_url : jsstr -> jsstr.

Definition outputFormat (req : request) : output_format :=
  let accept := match accept req with Some a => a | None => [] end in
  match searchParams_get (url req) (js "format") with
  | Some ((_ :: _) as q) =>
      if str_eqb q (js "json") then Json
      else if str_eqb q (js "html") then Html
      else if str_eqb q (js "echo") then Echo
      else Html
  | _ =>
      match accept with
      | [] => Html
      | _ => if startsWith (js "application/json") accept then Json
             else if contains (js "text/html") accept then Html
             else Html
      end
  end.

Definition requestBodyToString (req : request) : jsstr :=
  match text req with
  | Ok [] => js "<no body>"
  | Ok b => b
  | Throw _ => js "<non-utf8 body>"
  end.

Definition request_data (req : request) : json :=
  JObject [(js "url", JString (url req)); (js "method", JString (method req));
           (js "headers", JObject (map (fun m => (fst m, JString (snd m))) (fromEntries (entries req))));
           (js "body", JString (requestBodyToString req))].

Definition buildResponseJson (req : request) : response :=
  Response (stringify 0 (request_data req)) [(js "content-type", js "application/json")].

(** The table rows of the headers. *)
Definition header_row (e : jsstr * jsstr) : jsstr :=
  html "
      <tr>
        <th>" ++ fst e ++ html "</th>
        <td>" ++ snd e ++ html "</td>
      </tr>".

Definition header_rows (es : list (jsstr * jsstr)) : jsstr := concat (map header_row es).

Definition page (req : request) (headers jsonUrl reqBody : jsstr) : jsstr :=
  html "
  <!DOCTYPE html>
  <html>

    <head>
      <meta charset=`utf-8`>
      <meta name=`viewport` content=`width=device-width, initial-scale=1`>
      <link rel=`stylesheet` href=`https://cdn.jsdelivr.net/npm/bulma@0.9.4/css/bulma.min.css`>
      <title>HTTP-Info - Analyze HTTP requests</title>
    </head>

    <body>
      <section class=`section`>
        <div class=`container`>
          <h1 class=`title`>
            HTTP-Info
          </h1>

          <div class=`mb-4`>
            <a class=`button` href=`" ++
  jsonUrl ++
  html "`>JSON</a>
          </div>

          <table class=`table`>
            <thead>
            </thead>

            <tbody>
              <tr>
                <th>URL</th>
                <td>" ++
  url req ++
  html "</td>
              </tr>
              <tr>
                <th>Method</th>
                <td>" ++
  method req ++
  html "</td>
              </tr>
              <tr>
                <th>Headers</th>
                <td>
                  <table>
                    <tbody>
                      " ++
  headers ++
  html "
                    </tbody>
                  </table>
              </tr>
              <tr>
                <th>Body</th>
                <td>" ++
  reqBody ++
  html "</td>
              </tr>
            </tbody>
          </table>

          <div class=`message is-info`>
            <div class=`message-header`>
              <p>Info</p>
            </div>
            <div class=`message-body content`>
              <p>This service provides information about the incoming HTTP request.
              It is useful for debugging and analyzing HTTP clients.</p>

              <p>You can control the output format by:</p>

              <ul>
                <li>Setting the <code>Accept</code> header to <code>application/json</code> or <code>text/html</code></li>
                <li>
                  Setting the <code>?format=XXX</code> query parameter to
                  <code>json</code>, <code>html</code> or <code>echo</code></li>.
              </ul>

              <p>
                By default the output format is <code>html</code>.<br/>
                If the format is <code>echo</code>, the response will contain
                the request headers and body unchanged.
              </p>

            </div>
          </div>

          <article class=`message is-link`>
            <div class=`message-header`>
              <p>Wasmer Edge</p>
            </div>
            <div class=`message-body`>
              This site is hosted on <a href=`https://wasmer.io/products/edge`>Wasmer Edge</a>.
            </div>
          </article>
        </div>

      </section>
    </body>
  </html>
  ".

Definition buildResponseHtml (req : request) : response :=
  Response (page req (header_rows (entries req)) (json_url (url req)) (requestBodyToString req))
    [(js "content-type", js "text/html")].

Definition buildResponseEcho (req : request) : response := Response (body req) (entries req).

Definition handleRequest (req : request) : response :=
  match outputFormat req with
  | Json => buildResponseJson req
  | Html => buildResponseHtml req
  | Echo => buildResponseEcho req
  end.

End Application.
