(* ===== verification/HttpEchoFacts.v ===== *)
(** Facts on the example application http-echo: its content negotiation, and
    that its JSON responses are JSON: a parser written from the grammar reads
    back what the response says of the request. *)

From Stdlib Require Import String Ascii.
From stdpp Require Import base numbers list.
From S2P Require Import Prelude JsNumber JsValue Encoding HttpEcho.

Local Open Scope Z_scope.
Local Open Scope js_scope.

(** ** Reading a JSON string back *)

Definition hex_value (c : Z) : option Z :=
  if (48 <=? c) && (c <=? 57) then Some (c - 48)
  else if (97 <=? c) && (c <=? 102) then Some (c - 87)
  else if (65 <=? c) && (c <=? 70) then Some (c - 55)
  else None.

(** What stands for the escape [\c]. *)
Definition unescape (c : Z) : option Z :=
  if c =? 98 then Some 8 else if c =? 116 then Some 9 else if c =? 110 then Some 10
  else if c =? 102 then Some 12 else if c =? 114 then Some 13
  else if (c =? 34) || (c =? 92) || (c =? 47) then Some c else None.

Definition cons_fst (c : Z) (r : option (jsstr * jsstr)) : option (jsstr * jsstr) :=
  match r with Some (s, rest) => Some (c :: s, rest) | None => None end.

(** The JSON grammar's string, after its opening quotation mark: its value and
    what follows the closing mark. *)
Fixpoint parse_string (s : jsstr) : option (jsstr * jsstr) :=
  match s with
  | [] => None
  | c :: s =>
      if c =? 34 then Some ([], s)
      else if c =? 92 then
        match s with
        | d :: s' =>
            if d =? 117 then
              match s' with
              | w :: x :: y :: z :: s'' =>
                  match hex_value w, hex_value x, hex_value y, hex_value z with
                  | Some w, Some x, Some y, Some z => cons_fst (((w * 16 + x) * 16 + y) * 16 + z) (parse_string s'')
                  | _, _, _, _ => None
                  end
              | _ => None
              end
            else match unescape d with Some u => cons_fst u (parse_string s') | None => None end
        | [] => None
        end
      else if c <? 32 then None
      else cons_fst c (parse_string s)
  end.

Lemma json_hex_value_digit d : 0 <= d < 16 -> hex_value (json_hex_digit d) = Some d.
Proof.
  intros H. unfold json_hex_digit, hex_value. destruct (Z.ltb_spec d 10); zbool; cbn [andb].
  - f_equal. lia.
  - f_equal. lia.
Qed.

Lemma parse_unicode c rest : unit16 c -> parse_string (unicode_escape c ++ rest) = cons_fst c (parse_string rest).
Proof.
  unfold unit16. intros H. cbn [unicode_escape app parse_string]. change (92 =? 34) with false.
  change (92 =? 92) with true. change (117 =? 117) with true. cbv iota.
  rewrite !json_hex_value_digit by (apply Z.mod_pos_bound; lia). f_equal.
  Z.div_mod_to_equations. lia.
Qed.

Lemma parse_plain c rest : 32 <= c -> c <> 34 -> c <> 92 -> parse_string (c :: rest) = cons_fst c (parse_string rest).
Proof. intros H1 H2 H3. cbn [parse_string]. zbool. reflexivity. Qed.

Lemma parse_escape c rest : unit16 c -> parse_string (escape_unit c ++ rest) = cons_fst c (parse_string rest).
Proof.
  intros H. unfold escape_unit.
  destruct (Z.eqb_spec c 8) as [->|N1]; [reflexivity|]. destruct (Z.eqb_spec c 9) as [->|N2]; [reflexivity|].
  destruct (Z.eqb_spec c 10) as [->|N3]; [reflexivity|]. destruct (Z.eqb_spec c 12) as [->|N4]; [reflexivity|].
  destruct (Z.eqb_spec c 13) as [->|N5]; [reflexivity|]. destruct (Z.eqb_spec c 34) as [->|N6]; [reflexivity|].
  destruct (Z.eqb_spec c 92) as [->|N7]; [reflexivity|].
  destruct (Z.ltb_spec c 32); [apply parse_unicode, H|]. apply parse_plain; assumption.
Qed.

Lemma parse_quoted n : forall s rest, (length s <= n)%nat -> Forall unit16 s ->
  parse_string (quote_units s ++ 34 :: rest) = Some (s, rest).
Proof.
  induction n as [|n IH]; intros s rest Hn F; (destruct s as [|c s]; [reflexivity|]); [cbn in Hn; lia|].
  inversion F as [|? ? Hc F']; subst. cbn in Hn. cbn [quote_units].
  destruct (is_lead c) eqn:L; [destruct s as [|t s]; [|destruct (is_trail t) eqn:T]|destruct (is_trail c) eqn:T].
  - rewrite (parse_unicode c (34 :: rest) Hc). reflexivity.
  - inversion F' as [|? ? Ht F'']; subst. unfold is_lead, is_trail in L, T.
    apply andb_prop in L as [L1 L2]. apply andb_prop in T as [T1 T2].
    apply Z.leb_le in L1, L2, T1, T2. cbn [app]. rewrite !parse_plain by lia.
    rewrite IH by (cbn in Hn; lia || assumption). reflexivity.
  - rewrite <- (assoc_L (++)), parse_unicode by exact Hc. rewrite IH by (lia || assumption). reflexivity.
  - rewrite <- (assoc_L (++)), parse_unicode by exact Hc. rewrite IH by (lia || assumption). reflexivity.
  - rewrite <- (assoc_L (++)), parse_escape by exact Hc. rewrite IH by (lia || assumption). reflexivity.
Qed.

(** ** Properties *)

(** The content negotiation: a format parameter that names a format decides,
    any other non-empty one means HTML; without one an Accept header that begins
    with application/json means JSON and every other means HTML.  JSON and HTML
    responses carry their content type, and an echo is the request's body and
    headers unchanged. *)
Theorem negotiation get_param json_url req :
  (forall f name, In (name, f) [(js "json", Json); (js "html", Html); (js "echo", Echo)] ->
     get_param (url req) (js "format") = Some name -> outputFormat get_param req = f) /\
  (forall q, get_param (url req) (js "format") = Some q -> q <> [] -> ~ In q [js "json"; js "echo"] ->
     outputFormat get_param req = Html) /\
  (default [] (get_param (url req) (js "format")) = [] ->
     outputFormat get_param req =
       if startsWith (js "application/json") (default [] (accept req)) then Json else Html) /\
  rheaders (handleRequest get_param json_url req) =
    match outputFormat get_param req with
    | Json => [(js "content-type", js "application/json")]
    | Html => [(js "content-type", js "text/html")]
    | Echo => entries req
    end /\
  (outputFormat get_param req = Echo -> rbody (handleRequest get_param json_url req) = body req).
Proof.
  split; [|split; [|split; [|split]]].
  - intros f name In E. unfold outputFormat. rewrite E.
    destruct In as [H|[H|[H|[]]]]; injection H as <- <-; reflexivity.
  - intros q E N NI. unfold outputFormat. rewrite E. destruct q as [|c q]; [congruence|].
    destruct (str_eqb (c :: q) (js "json")) eqn:J.
    { apply bool_decide_eq_true in J. exfalso. apply NI. left. symmetry. exact J. }
    destruct (str_eqb (c :: q) (js "html")); [reflexivity|].
    destruct (str_eqb (c :: q) (js "echo")) eqn:K; [|reflexivity].
    apply bool_decide_eq_true in K. exfalso. apply NI. right. left. symmetry. exact K.
  - intros E. unfold outputFormat.
    assert (X : match get_param (url req) (js "format") with Some (_ :: _) => False | _ => True end)
      by (destruct (get_param _ _) as [[|]|]; [exact I|discriminate|exact I]).
    destruct (get_param _ _) as [[|]|]; [|destruct X|];
      destruct (accept req) as [[|a ac]|]; cbn [default from_option id]; try reflexivity;
      destruct (startsWith _ _); try reflexivity; destruct (contains _ _); reflexivity.
  - unfold handleRequest. destruct (outputFormat get_param req); reflexivity.
  - intros E. unfold handleRequest. rewrite E. reflexivity.
Qed.

(** The JSON text of a string reads back as the string, lone surrogates,
    control characters, quotation marks and backslashes included. *)
Theorem quote_roundtrip s rest : Forall unit16 s -> parse_string (tail (quote s ++ rest)) = Some (s, rest).
Proof.
  intros F. unfold quote. cbn [app tail]. rewrite <- (assoc_L (++)). cbn [app].
  apply (parse_quoted (length s)); [lia|exact F].
Qed.

(** ** Reading a JSON document back *)

Fixpoint skip_space (s : jsstr) : jsstr :=
  match s with
  | [] => []
  | c :: s' => if (c =? 32) || (c =? 10) || (c =? 13) || (c =? 9) then skip_space s' else s
  end.

(** The next token if it is the given character. *)
Definition token (c : Z) (s : jsstr) : option jsstr :=
  match skip_space s with
  | d :: s' => if d =? c then Some s' else None
  | [] => None
  end.

(** The values of the grammar the responses use: [null], strings and objects. *)
Fixpoint parse_json (fuel : nat) (s : jsstr) : option (json * jsstr) :=
  match fuel with
  | O => None
  | S fuel =>
      match token 34 s with
      | Some s' => match parse_string s' with Some (x, rest) => Some (JString x, rest) | None => None end
      | None =>
          match token 123 s with
          | Some s' =>
              match token 125 s' with
              | Some rest => Some (JObject [], rest)
              | None => match parse_members fuel s' with Some (ms, rest) => Some (JObject ms, rest) | None => None end
              end
          | None =>
              match token 110 s with
              | Some s' => if startsWith (js "ull") s' then Some (JNull, drop 3 s') else None
              | None => None
              end
          end
      end
  end
with parse_members (fuel : nat) (s : jsstr) : option (list (jsstr * json) * jsstr) :=
  match fuel with
  | O => None
  | S fuel =>
      match token 34 s ≫= parse_string with
      | Some (k, s1) =>
          match token 58 s1 ≫= parse_json fuel with
          | Some (v, s2) =>
              match token 44 s2, token 125 s2 with
              | Some s3, _ => match parse_members fuel s3 with Some (ms, rest) => Some ((k, v) :: ms, rest) | None => None end
              | None, Some rest => Some ([(k, v)], rest)
              | None, None => None
              end
          | None => None
          end
      | None => None
      end
  end.

(** Enough fuel for a value. *)
Fixpoint size (v : json) : nat :=
  match v with
  | JNull | JString _ => 1
  | JObject ms => S (list_sum (map (fun m => S (size (snd m))) ms))
  end.

Fixpoint units_ok (v : json) : Prop :=
  match v with
  | JNull => True
  | JString s => Forall unit16 s
  | JObject ms => Forall (fun P => P) (map (fun m => Forall unit16 (fst m) /\ units_ok (snd m)) ms)
  end.

Lemma skip_spaces n s : skip_space (spaces n ++ s) = skip_space s.
Proof. induction n as [|n IH]; [reflexivity|]. cbn. exact IH. Qed.

Lemma token_quote s rest : token 34 (quote s ++ rest) = Some (quote_units s ++ 34 :: rest).
Proof. unfold token, quote. cbn. rewrite <- (assoc_L (++)). reflexivity. Qed.

Lemma token_spaces c n s : token c (spaces n ++ s) = token c s.
Proof. unfold token. rewrite skip_spaces. reflexivity. Qed.

Lemma parse_quote s rest : Forall unit16 s -> (token 34 (quote s ++ rest) ≫= parse_string) = Some (s, rest).
Proof. intros F. rewrite token_quote. apply (parse_quoted (length s)); [lia|exact F]. Qed.

(** The text of a member and of the members from one on. *)
Definition member_text (inner : nat) (m : jsstr * json) : jsstr :=
  quote (fst m) ++ js ": " ++ stringify inner (snd m).

Definition members_text (inner : nat) (ms : list (jsstr * json)) : jsstr :=
  intersperse (js "," ++ [10] ++ spaces inner) (map (member_text inner) ms).

Lemma stringify_object indent m ms : stringify indent (JObject (m :: ms)) =
  js "{" ++ [10] ++ spaces (indent + 2) ++ members_text (indent + 2) (m :: ms) ++ [10] ++ spaces indent ++ js "}".
Proof.
  unfold members_text. rewrite (map_ext (member_text (indent + 2))
    (fun '(k, x) => quote k ++ js ": " ++ stringify (indent + 2) x)) by (intros [k x]; reflexivity). reflexivity.
Qed.

(** Parsing after the text of a value, for any value of at most [n] nodes. *)
Definition reads_back (n : nat) : Prop := forall v indent rest fuel,
  (size v <= n)%nat -> (size v <= fuel)%nat -> units_ok v ->
  parse_json fuel (stringify indent v ++ rest) = Some (v, rest).

(** One space before a value. *)
Lemma parse_json_space fuel s : parse_json fuel (32 :: s) = parse_json fuel s.
Proof. destruct fuel; reflexivity. Qed.

Lemma parse_members_line n fuel s : parse_members fuel (10 :: spaces n ++ s) = parse_members fuel s.
Proof.
  destruct fuel; [reflexivity|]. cbn [parse_members].
  change (token 34 (10 :: spaces n ++ s)) with (token 34 (spaces n ++ s)). rewrite token_spaces. reflexivity.
Qed.

(** One member, its value read back. *)
Lemma member_back n inner k v rest fuel : reads_back n -> (size v <= n)%nat -> (size v <= fuel)%nat ->
  Forall unit16 k -> units_ok v ->
  (token 34 (member_text inner (k, v) ++ rest) ≫= parse_string) = Some (k, js ": " ++ stringify inner v ++ rest) /\
  (token 58 (js ": " ++ stringify inner v ++ rest) ≫= parse_json fuel) = Some (v, rest).
Proof.
  intros IH Hn Hf Uk Uv. split.
  - unfold member_text. cbn [fst snd]. rewrite <- (assoc_L (++)), parse_quote by exact Uk.
    rewrite <- (assoc_L (++)). reflexivity.
  - change (token 58 (js ": " ++ stringify inner v ++ rest)) with (Some (32 :: stringify inner v ++ rest)).
    cbn [mbind option_bind]. rewrite parse_json_space. apply IH; assumption.
Qed.

Lemma closing_tokens indent rest : token 44 (10 :: spaces indent ++ 125 :: rest) = None /\
  token 125 (10 :: spaces indent ++ 125 :: rest) = Some rest.
Proof.
  change (10 :: ?x) with ([10] ++ x). unfold token. cbn [app skip_space]. rewrite skip_spaces. split; reflexivity.
Qed.

Lemma members_text_one inner m : members_text inner [m] = member_text inner m.
Proof. reflexivity. Qed.

Lemma members_text_cons inner m m' ms :
  members_text inner (m :: m' :: ms) = member_text inner m ++ 44 :: 10 :: spaces inner ++ members_text inner (m' :: ms).
Proof. reflexivity. Qed.

Lemma token_here c s : (c =? 32) || (c =? 10) || (c =? 13) || (c =? 9) = false -> token c (c :: s) = Some s.
Proof. intros H. unfold token. cbn [skip_space]. rewrite H, Z.eqb_refl. reflexivity. Qed.

Lemma members_back n inner indent rest : reads_back n -> forall ms m fuel,
  (list_sum (map (fun m => S (size (snd m))) (m :: ms)) <= n)%nat ->
  (list_sum (map (fun m => S (size (snd m))) (m :: ms)) <= fuel)%nat ->
  Forall (fun m => Forall unit16 (fst m) /\ units_ok (snd m)) (m :: ms) ->
  parse_members fuel (members_text inner (m :: ms) ++ 10 :: spaces indent ++ 125 :: rest) = Some (m :: ms, rest).
Proof.
  intros IH ms. induction ms as [|m' ms IHms]; intros [k v] fuel Hn Hf U;
    (destruct fuel as [|fuel]; [cbn in Hf; lia|]); inversion U as [|? ? [Uk Uv] U']; subst; cbn [fst snd] in *;
    cbn [list_sum fold_right map snd] in Hn, Hf; cbn [parse_members].
  - rewrite members_text_one.
    destruct (member_back n inner k v (10 :: spaces indent ++ 125 :: rest) fuel IH) as [E1 E2]; try assumption; try lia.
    rewrite E1, E2. destruct (closing_tokens indent rest) as [-> ->]. reflexivity.
  - rewrite members_text_cons, <- (assoc_L (++)). cbn [app].
    match goal with |- context [member_text inner (k, v) ++ ?r] =>
      destruct (member_back n inner k v r fuel IH) as [E1 E2]; try assumption; try lia end.
    rewrite E1, E2, token_here by reflexivity. rewrite <- (assoc_L (++)), parse_members_line.
    rewrite IHms; [reflexivity|cbn; lia|cbn; lia|exact U'].
Qed.

Lemma members_start inner m ms : exists x, members_text inner (m :: ms) = 34 :: x.
Proof. destruct ms; eexists; reflexivity. Qed.

Lemma units_object ms : units_ok (JObject ms) <-> Forall (fun m => Forall unit16 (fst m) /\ units_ok (snd m)) ms.
Proof. cbn [units_ok]. rewrite Forall_map. reflexivity. Qed.

Lemma stringify_back n : reads_back n.
Proof.
  induction n as [|n IH]; intros v indent rest fuel Hn Hf U; (destruct fuel as [|fuel]; [destruct v; cbn in Hf; lia|]).
  { destruct v; cbn in Hn; lia. }
  destruct v as [|s|ms]; cbn [parse_json].
  - reflexivity.
  - cbn [stringify]. rewrite token_quote, (parse_quoted (length s)) by (exact U || lia). reflexivity.
  - destruct ms as [|m ms]; [reflexivity|]. rewrite stringify_object.
    apply units_object in U. cbn [size] in Hn, Hf.
    change (js "{" ++ [10] ++ ?x) with (123 :: 10 :: x). cbn [app].
    match goal with |- context [token 34 (123 :: ?x)] => change (token 34 (123 :: x)) with (@None jsstr) end.
    rewrite token_here by reflexivity. rewrite <- !(assoc_L (++)).
    assert (N : forall r, token 125 (10 :: spaces (indent + 2) ++ members_text (indent + 2) (m :: ms) ++ r) = None).
    { intros r. destruct (members_start (indent + 2) m ms) as [x ->]. unfold token. cbn [skip_space Z.eqb orb].
      change (skip_space (10 :: ?y)) with (skip_space y). rewrite skip_spaces. reflexivity. }
    rewrite N, parse_members_line. change (js "}") with [125]. cbn [app]. rewrite <- (assoc_L (++)). cbn [app].
    rewrite (members_back n) by (exact IH || exact U || lia). reflexivity.
Qed.

(** ** The members of the headers *)

(** The value of a member. *)
Definition member_value (k : jsstr) (ms : list (jsstr * jsstr)) : option jsstr :=
  option_map snd (List.find (fun m => str_eqb (fst m) k) ms).

(** The value of the last entry of a name. *)
Definition last_value (k : jsstr) (es : list (jsstr * jsstr)) : option jsstr :=
  option_map snd (List.find (fun m => str_eqb (fst m) k) (reverse es)).

Lemma value_set k' v ms k : member_value k (set_member k' v ms) = if str_eqb k' k then Some v else member_value k ms.
Proof.
  unfold member_value. induction ms as [|[a w] ms IH]; cbn; [destruct (str_eqb k' k); reflexivity|].
  destruct (str_eqb_spec a k') as [->|N]; cbn.
  - destruct (str_eqb k' k); reflexivity.
  - destruct (str_eqb_spec a k) as [->|N2]; [|exact IH]. destruct (str_eqb_spec k' k); [congruence|reflexivity].
Qed.

Lemma names_in k v ms a : a ∈ map fst (set_member k v ms) -> a = k \/ a ∈ map fst ms.
Proof.
  induction ms as [|[b w] ms IH]; cbn.
  - rewrite elem_of_cons. intros [->|H]; [left; reflexivity|inversion H].
  - destruct (str_eqb_spec b k); cbn; rewrite !elem_of_cons; tauto.
Qed.

Lemma names_set k v ms : NoDup (map fst ms) -> NoDup (map fst (set_member k v ms)).
Proof.
  induction ms as [|[b w] ms IH]; cbn; intros N; [constructor; [intros H; inversion H|constructor]|].
  apply NoDup_cons in N as [Nb N]. destruct (str_eqb_spec b k) as [->|D]; cbn; apply NoDup_cons; (split; [|auto]).
  - exact Nb.
  - intros H. destruct (names_in _ _ _ _ H) as [->|H']; [congruence|contradiction].
Qed.

(** The members before they are put in property order. *)
Definition collected (es : list (jsstr * jsstr)) : list (jsstr * jsstr) :=
  fold_left (fun ms e => set_member (fst e) (snd e) ms) es [].

Lemma collected_snoc es e : collected (es ++ [e]) = set_member (fst e) (snd e) (collected es).
Proof. unfold collected. rewrite fold_left_app. reflexivity. Qed.

Lemma collected_value es k : member_value k (collected es) = last_value k es.
Proof.
  induction es as [|[a v] es IH] using rev_ind; [reflexivity|].
  rewrite collected_snoc, value_set, IH. unfold last_value. rewrite reverse_snoc. cbn.
  destruct (str_eqb a k); reflexivity.
Qed.

Lemma collected_names es : NoDup (map fst (collected es)).
Proof. induction es as [|e es IH] using rev_ind; [constructor|]. rewrite collected_snoc. apply names_set, IH. Qed.

Lemma collected_all (P : jsstr * jsstr -> Prop) es : Forall P es -> Forall P (collected es).
Proof.
  assert (S : forall e ms, P e -> Forall P ms -> Forall P (set_member (fst e) (snd e) ms)).
  { intros [k v] ms He F. cbn. induction F as [|[b w] ms Hb F IH]; cbn; [constructor; [exact He|constructor]|].
    destruct (str_eqb_spec b k) as [->|N]; constructor; assumption. }
  induction es as [|e es IH] using rev_ind; [constructor|]. intros F. apply Forall_app in F as [F He].
  rewrite collected_snoc. apply S; [inversion He; assumption|apply IH, F].
Qed.

Lemma insert_index_perm z m ms : insert_index z m ms ≡ₚ m :: ms.
Proof.
  induction ms as [|a ms IH]; cbn; [reflexivity|].
  destruct (array_index (fst a)) as [w|]; [destruct (z <? w)|]; try reflexivity. rewrite IH. constructor.
Qed.

(** Property order is a rearrangement. *)
Lemma ordered_perm ms : forall acc,
  fold_left (fun acc m => match array_index (fst m) with
                          | Some z => insert_index z m acc
                          | None => acc ++ [m]
                          end) ms acc ≡ₚ acc ++ ms.
Proof.
  induction ms as [|m ms IH]; intros acc; cbn [fold_left]; [rewrite (right_id_L [] (++)); reflexivity|].
  rewrite IH. destruct (array_index (fst m)).
  - rewrite insert_index_perm. cbn. apply Permutation_middle.
  - rewrite <- (assoc_L (++)). reflexivity.
Qed.

Lemma fromEntries_perm es : fromEntries es ≡ₚ collected es.
Proof. apply (ordered_perm (collected es) []). Qed.

Lemma value_in_list k ms v : NoDup (map fst ms) -> (k, v) ∈ ms -> member_value k ms = Some v.
Proof.
  unfold member_value. induction ms as [|[a w] ms IH]; cbn; intros N H; [inversion H|].
  apply NoDup_cons in N as [Na N]. apply elem_of_cons in H as [[= <- <-]|H].
  - destruct (str_eqb_spec k k); [reflexivity|congruence].
  - destruct (str_eqb_spec a k) as [->|D]; [|apply IH; assumption]. exfalso. apply Na.
    change (map fst ms) with (fst <$> ms). apply list_elem_of_fmap. exists (k, v). split; [reflexivity|exact H].
Qed.

Lemma value_of_member k ms v : member_value k ms = Some v -> (k, v) ∈ ms.
Proof.
  unfold member_value. destruct (List.find _ ms) as [[a w]|] eqn:E; [|discriminate]. cbn. intros [= <-].
  apply find_some in E as [Hin Ha]. cbn in Ha. destruct (str_eqb_spec a k) as [->|]; [|discriminate].
  apply list_elem_of_In, Hin.
Qed.

Lemma value_perm k ms ms' : ms ≡ₚ ms' -> NoDup (map fst ms) -> member_value k ms = member_value k ms'.
Proof.
  intros P N. assert (N' : NoDup (map fst ms')).
  { change (map fst ms') with (fst <$> ms'). rewrite <- P. exact N. }
  destruct (member_value k ms) as [v|] eqn:E.
  - symmetry. apply value_in_list; [exact N'|]. rewrite <- P. apply value_of_member, E.
  - destruct (member_value k ms') as [v|] eqn:E'; [|reflexivity].
    rewrite (value_in_list k ms v) in E; [discriminate|exact N|]. rewrite P. apply value_of_member, E'.
Qed.

Lemma fromEntries_names es : NoDup (map fst (fromEntries es)).
Proof. change (NoDup (fst <$> fromEntries es)). rewrite fromEntries_perm. apply collected_names. Qed.

Lemma fromEntries_value es k : member_value k (fromEntries es) = last_value k es.
Proof. rewrite (value_perm k _ _ (fromEntries_perm es) (fromEntries_names es)). apply collected_value. Qed.

(** ** JSON responses *)

(** A request whose strings are strings of the language. *)
Record request_ok (req : request) : Prop := {
  rq_url : Forall unit16 (url req);
  rq_method : Forall unit16 (method req);
  rq_entries : Forall (fun e => Forall unit16 (fst e) /\ Forall unit16 (snd e)) (entries req);
  rq_text : forall b, text req = Ok b -> Forall unit16 b }.

Lemma js_units s : Forall unit16 (js s).
Proof.
  unfold js. apply Forall_map, Forall_forall. intros c _. unfold unit16.
  pose proof (N_ascii_bounded c). lia.
Qed.

Lemma request_data_units req : request_ok req -> units_ok (request_data req).
Proof.
  intros [U M E T]. apply units_object.
  repeat (apply Forall_cons; split; [split; [apply js_units|cbn [snd]]|]); [exact U|exact M| | |constructor].
  - apply units_object, Forall_map. eapply Permutation_Forall; [symmetry; apply fromEntries_perm|].
    apply collected_all, E.
  - unfold requestBodyToString. destruct (text req) as [[|c b]|]; try apply js_units. apply T. reflexivity.
Qed.

(** C39: the JSON response says what the request was: a parser of the JSON grammar
    reads from its body, whatever characters the request holds, an object with
    the url, the method, the headers and a body text, and nothing after it; the body
    text is the request's when that is text and not empty, "<no body>" when it is
    empty and "<non-utf8 body>" when reading it as text throws; the headers are one
    member per name, with the value of the name's last entry. *)
Theorem json_response req fuel : request_ok req -> (size (request_data req) <= fuel)%nat ->
  (exists shown,
     parse_json fuel (rbody (buildResponseJson req)) =
       Some (JObject [(js "url", JString (url req)); (js "method", JString (method req));
                      (js "headers", JObject (map (fun m => (fst m, JString (snd m))) (fromEntries (entries req))));
                      (js "body", JString shown)], []) /\
     (forall b, text req = Ok b -> b <> [] -> shown = b) /\
     (text req = Ok [] -> shown = js "<no body>") /\
     (forall x, text req = Throw x -> shown = js "<non-utf8 body>")) /\
  NoDup (map fst (fromEntries (entries req))) /\
  (forall name, member_value name (fromEntries (entries req)) = last_value name (entries req)).
Proof.
  intros R F. split; [|split; [apply fromEntries_names|intros name; apply fromEntries_value]].
  pose proof (stringify_back (size (request_data req)) (request_data req) 0%nat [] fuel) as B.
  rewrite (right_id_L [] (++)) in B. exists (requestBodyToString req).
  split; [apply B; [reflexivity|exact F|apply request_data_units, R]|]. unfold requestBodyToString.
  split; [intros [|c b] -> N; [contradiction|reflexivity]|].
  split; [intros ->; reflexivity|intros x ->; reflexivity].
Qed.

(** ** A sample request *)

Definition sample_request : request :=
  Request (js "http://localhost/?format=json") (js "POST") None [(js "b", js "x"); (js "1", js "y"); (js "b", js "z")]
    (js "hi") (Ok (js "hi")).

Lemma json_response_witness : exists ms,
  parse_json 20 (rbody (buildResponseJson sample_request)) = Some (JObject (ms ++ [(js "body", JString (js "hi"))]), []) /\
  member_value (js "b") (fromEntries (entries sample_request)) = Some (js "z").
Proof.
  assert (O : request_ok sample_request).
  { split; cbn; repeat constructor; cbn; try lia. intros b [= <-]. repeat constructor; cbn; lia. }
  destruct (json_response sample_request 20 O ltac:(vm_compute; lia)) as ((shown & E & S & _) & _ & V).
  rewrite (S (js "hi") eq_refl ltac:(discriminate)) in E.
  eexists [_; _; _]. split; [exact E|]. rewrite V. reflexivity.
Defined.

Example json_page :
  rbody (buildResponseJson sample_request) =
  html "{
  `url`: `http://localhost/?format=json`,
  `method`: `POST`,
  `headers`: {
    `1`: `y`,
    `b`: `z`
  },
  `body`: `hi`
}".
Proof. vm_compute. reflexivity. Qed.

(** Header values are put into the page as they are, markup included. *)
Example unescaped_header :
  contains (js "<td><script>") (header_rows [(js "x", js "<script>")]) = true.
Proof. vm_compute. reflexivity. Qed.
