(* ===== verification/EchoApp.v ===== *)
(** The example application echo (examples/echo/app/app.js): a page with a
    message for the name in the query, and a JSON description of the request.

    The page template, a document with embedded images, is an argument, and so is
    whether a request has a body. *)

From Stdlib Require Import String Ascii.
From stdpp Require Import base numbers list.
From S2P Require Import Prelude JsNumber JsValue Encoding HttpEcho HttpEchoFacts.

Local Open Scope Z_scope.
Local Open Scope js_scope.

(** ** String methods *)

(** What is before and after the first occurrence of [p] in [s]. *)
Fixpoint cut (p s : jsstr) : option (jsstr * jsstr) :=
  if startsWith p s then Some ([], drop (length p) s)
  else match s with
       | [] => None
       | c :: s' => match cut p s' with Some (a, b) => Some (c :: a, b) | None => None end
       end.

(** [s.split(sep)[1]]. *)
Definition split_1 (sep s : jsstr) : option jsstr :=
  match cut sep s with
  | None => None
  | Some (_, rest) => Some (match cut sep rest with Some (a, _) => a | None => rest end)
  end.

(** GetSubstitution without captures: [$$], [$&], [$] with a backquote and [$'] stand for a
    dollar sign, the match, what is before it and what is after it. *)
Fixpoint substitution (matched before after repl : jsstr) : jsstr :=
  match repl with
  | [] => []
  | c :: r =>
      match r with
      | d :: r' =>
          if (c =? 36) && (d =? 36) then 36 :: substitution matched before after r'
          else if (c =? 36) && (d =? 38) then matched ++ substitution matched before after r'
          else if (c =? 36) && (d =? 96) then before ++ substitution matched before after r'
          else if (c =? 36) && (d =? 39) then after ++ substitution matched before after r'
          else c :: substitution matched before after r
      | [] => [c]
      end
  end.

(** [s.replace(p, repl)] of a string pattern. *)
Definition replace (s p repl : jsstr) : jsstr :=
  match cut p s with
  | Some (a, b) => a ++ substitution p a b repl ++ b
  | None => s
  end.

(** ** The application *)

Section Application.
Variable TEMPLATE : jsstr.
Variable has_body : request -> bool.

Definition message (name : jsstr) : jsstr :=
  js "Hello " ++ name ++ html "!
    <br />
    Winter is coming!
    <br />
    <br />
    <small>
    You can now deploy Javascript apps to Wasmer Edge, powered by Spidermonkey, the Winter-CG spec and serverice workers.
    </small>

    <img src=`https://media.tenor.com/cUI5hCKFs50AAAAC/winter-is-coming-night-king.gif` />

    <br />
    <br />

    ".

Definition marker : jsstr := js "{{MESSAGE}}".

(** A stream has no members to serialize; a missing body is [null]. *)
Definition echo_data (req : request) : json :=
  JObject [(js "headers", JObject (map (fun m => (fst m, JString (snd m))) (fromEntries (entries req))));
           (js "method", JString (method req));
           (js "body", if has_body req then JObject [] else JNull)].

Definition echoHandler (req : request) : response :=
  Response (stringify 0 (echo_data req)) [(js "content-type", js "application/json")].

Definition handler (req : request) : response :=
  if contains (js "/echo") (url req) then echoHandler req
  else
    let tpl :=
      if contains (js "?name") (url req) then
        let name := match split_1 (js "?name=") (url req) with Some n => n | None => js "undefined" end in
        replace TEMPLATE marker (message name)
      else replace TEMPLATE marker [] in
    Response tpl [(js "content-type", js "text/html;charset=UTF-8")].

End Application.

(** ** Facts *)

Lemma cut_contains p s : contains p s = match cut p s with Some _ => true | None => false end.
Proof.
  induction s as [|c s IH]; cbn [contains cut]; [destruct (startsWith p []); reflexivity|].
  destruct (startsWith p (c :: s)); [reflexivity|]. cbn [orb]. rewrite IH. destruct (cut p s) as [[a b]|]; reflexivity.
Qed.

(** Without a dollar sign the replacement is put in as it is. *)
Lemma substitution_plain p a b repl : Forall (fun c => c <> 36) repl -> substitution p a b repl = repl.
Proof.
  induction 1 as [|c r Hc F IH]; [reflexivity|]. cbn [substitution]. rewrite (proj2 (Z.eqb_neq c 36) Hc). cbn [andb].
  rewrite IH. destruct r; reflexivity.
Qed.

Lemma message_plain name : Forall (fun c => c <> 36) name -> Forall (fun c => c <> 36) (message name).
Proof.
  intros F. unfold message. apply Forall_app. split; [|apply Forall_app; split; [exact F|]];
    (apply Forall_forall; intros c H E; subst c; revert H; apply (bool_decide_unpack _); reflexivity).
Qed.

(** The pages: a url that contains /echo is answered with JSON from which the
    headers and the method read back, and whose body member is empty whatever the
    request's body; any other url with the template, its first marker replaced by
    the message for the text after ?name= up to the next ?name=, as long as that
    holds no dollar sign, or by nothing when the url has no ?name. *)
Theorem echo_pages TEMPLATE has_body req pre post : cut marker TEMPLATE = Some (pre, post) -> request_ok req ->
  (contains (js "/echo") (url req) = true -> forall fuel, (size (echo_data has_body req) <= fuel)%nat ->
     parse_json fuel (rbody (handler TEMPLATE has_body req)) =
       Some (JObject [(js "headers", JObject (map (fun m => (fst m, JString (snd m))) (fromEntries (entries req))));
                      (js "method", JString (method req));
                      (js "body", if has_body req then JObject [] else JNull)], [])) /\
  (contains (js "/echo") (url req) = false ->
     (contains (js "?name") (url req) = false -> rbody (handler TEMPLATE has_body req) = pre ++ post) /\
     (forall name, contains (js "?name") (url req) = true -> split_1 (js "?name=") (url req) = Some name ->
        Forall (fun c => c <> 36) name -> rbody (handler TEMPLATE has_body req) = pre ++ message name ++ post)).
Proof.
  intros C R. unfold handler. split; [|intros ->; split].
  - intros -> fuel F. unfold echoHandler. cbn [rbody].
    pose proof (stringify_back (size (echo_data has_body req)) (echo_data has_body req) 0%nat [] fuel) as B.
    rewrite (right_id_L [] (++)) in B. apply B; [reflexivity|exact F|].
    apply units_object. repeat (apply Forall_cons; split; [split; [apply js_units|cbn [snd]]|]); [|apply R| |constructor].
    + apply units_object, Forall_map. eapply Permutation_Forall; [symmetry; apply fromEntries_perm|].
      apply collected_all, R.
    + destruct (has_body req); [constructor|exact I].
  - intros ->. cbn [rbody]. unfold replace. rewrite C. reflexivity.
  - intros name -> -> F. cbn [rbody]. unfold replace. rewrite C, substitution_plain by (apply message_plain, F). reflexivity.
Qed.

Definition name_request : request :=
  Request (js "http://localhost/?name=$&") (js "GET") None [] [] (Ok []).

(** A dollar sign of the query reaches the replacement patterns of the page. *)
Example dollar_pattern :
  contains (js "Hello {{MESSAGE}}!") (rbody (handler (js "<p>{{MESSAGE}}</p>") (fun _ => false) name_request)) = true.
Proof. vm_compute. reflexivity. Qed.

Definition plain_request : request := Request (js "http://localhost/?name=Ann") (js "GET") None [] [] (Ok []).

Lemma plain_request_ok : request_ok plain_request.
Proof. split; cbn; repeat constructor; cbn; try lia. intros b [= <-]. constructor. Qed.

Lemma echo_pages_witness :
  rbody (handler (js "<p>{{MESSAGE}}</p>") (fun _ => false) plain_request) = js "<p>" ++ message (js "Ann") ++ js "</p>".
Proof.
  destruct (echo_pages (js "<p>{{MESSAGE}}</p>") (fun _ => false) plain_request (js "<p>") (js "</p>") eq_refl plain_request_ok) as [_ P].
  apply (proj2 (P eq_refl) (js "Ann")); [reflexivity|reflexivity|repeat constructor; discriminate].
Defined.
