(* ===== verification/TestSuite.v ===== *)
(** The test suite's helpers (test-suite/js-test-app/src/test-utils.js) and its
    router (test-suite/js-test-app/src/main.js): the assertions, the streams
    made from and read into arrays, the test object of [async_test] and the
    dispatch of a request on its path.

    Promises are met through what a test does to its own one; [setTimeout] hands
    the functions to a list from which any may be run at any later time. *)

From Stdlib Require Import String.
From stdpp Require Import base numbers list.
From S2P Require Import Prelude JsNumber JsValue Streams.

Local Open Scope Z_scope.
Local Open Scope js_scope.

(** ** What the helpers throw *)

(** A value a test throws itself, [new Error(...)] with its message, an error the
    language throws (its name and text), or one of the library. *)
#[warnings="-register-all"]
Inductive thrown : Type :=
| Value (v : val)
| NewError (message : list piece)
| LangError (name text : string)
| Library (e : exn)
with piece : Type :=
| Text (s : string)
| PVal (v : val)
| PThrown (e : thrown).

(** A function that takes no argument and may throw. *)
Abbreviation result := (outcome thrown unit).

(** [a == b] on primitive values; an object is only equal to itself. *)
Definition primitive (v : val) : bool :=
  match v with VView _ | VArrayBuffer _ | VTyped _ _ | VArray _ | VObj _ _ _ => false | _ => true end.

Definition nullish (v : val) : bool := match v with Undefined | Null => true | _ => false end.

Definition loose_eq (a b : val) : bool :=
  if nullish a || nullish b then nullish a && nullish b
  else match a, b with
       | Str s, Str t => str_eqb s t
       | BigInt x, _ => match big_compare x b with Some Eq => true | _ => false end
       | _, BigInt y => match big_compare y a with Some Eq => true | _ => false end
       | _, _ => if primitive a && primitive b then feq (num_of a) (num_of b) else strict_eq a b
       end.

(** ** Assertions *)

(** A message argument: a value, a template (which is never the empty string) or
    a function that makes the text. *)
Inductive message := MVal (v : val) | MTemplate (t : list piece) | MFn (t : list piece).

(** [message || "..."], and the call of a function. *)
Definition or_text (m : message) (t : string) : list piece :=
  match m with
  | MVal v => if truthy v then [PVal v] else [Text t]
  | MTemplate t | MFn t => t
  end.

Definition assert (condition : bool) (m : message) : result :=
  if negb condition then Throw (NewError (or_text m "Assertion failed")) else Ok tt.

Definition assert_true (condition m : val) : result :=
  if negb (strict_eq condition (Bool true)) then Throw (NewError (or_text (MVal m) "Assertion failed")) else Ok tt.

Definition assert_false (condition m : val) : result :=
  if negb (strict_eq condition (Bool false)) then Throw (NewError (or_text (MVal m) "Assertion failed")) else Ok tt.

(** [constructorName] is the read of [obj.constructor.name]. *)
Definition assert_class_string (constructorName : val -> outcome thrown jsstr) (obj : val) (clsName : jsstr) (m : val) : result :=
  if negb (str_eqb (typeof obj) (js "object")) then
    Throw (NewError [Text "Expected "; PVal obj; Text " to an object: "; PVal m])
  else match constructorName obj with
       | Throw e => Throw e
       | Ok n => if negb (str_eqb n clsName) then
                   Throw (NewError [Text "Expected "; PVal obj; Text " to be of type "; PVal (Str clsName); Text ": "; PVal m])
                 else Ok tt
       end.

(** One of the two loops: [array1[i] != array2[i]] at every index of a list, a
    missing element reading as [undefined]. *)
Definition at_index (l : list val) (i : nat) : val := default Undefined (l !! i).

Definition all_equal (array1 array2 : list val) (n : nat) : bool :=
  forallb (fun i => loose_eq (at_index array1 i) (at_index array2 i)) (seq 0 n).

Definition assert_array_equals (array1 array2 : list val) (m : val) : result :=
  let differ : result := Throw (NewError [Text "Expected "; PVal (VArray array1); Text " to be equal to ";
                                 PVal (VArray array2); Text ": "; PVal m]) in
  if negb (Nat.eqb (length array1) (length array2)) then differ
  else if negb (all_equal array1 array2 (length array1)) then differ
  else if negb (all_equal array1 array2 (length array2)) then differ
  else Ok tt.

Definition assert_unreached (m : message) : result :=
  Throw (NewError (or_text m "Assertion failed: should not be reached")).

(** The [throw undefined] after the call is caught with what the call throws. *)
Definition assert_throws_js (f : result) (m : val) : result :=
  let caught := match f with Ok _ => Value Undefined | Throw e => e end in
  match caught with
  | Value Undefined => Throw (NewError [Text "Should have thrown error: "; PVal m])
  | _ => Ok tt
  end.

Definition assert_equals (actual expected m : val) : result :=
  assert (strict_eq actual expected)
    (MFn [Text "Expected "; PVal expected; Text " but got "; PVal actual; Text ": "; PVal m]).

Definition assert_not_equals (actual expected m : val) : result :=
  assert (negb (strict_eq actual expected))
    (MFn [Text "Expected "; PVal expected; Text " to be unequal to "; PVal actual; Text ": "; PVal m]).

(** [message || `...`] in the four comparisons, which all share one text. *)
Definition order_text (v1 m : val) : message :=
  if truthy m then MVal m
  else MTemplate [Text "Expected "; PVal v1; Text " to be greater than or equal to "; PVal v1].

Definition assert_less_than (v1 v2 m : val) : result := assert (js_lt v1 v2) (order_text v1 m).
Definition assert_less_than_equal (v1 v2 m : val) : result := assert (js_le v1 v2) (order_text v1 m).
Definition assert_greater_than (v1 v2 m : val) : result := assert (js_lt v2 v1) (order_text v1 m).
Definition assert_greater_than_equal (v1 v2 m : val) : result := assert (js_le v2 v1) (order_text v1 m).

(** ** Tests *)

Definition failed (desc : val) (e : thrown) : thrown := NewError [Text "Test "; PVal desc; Text " failed with "; PThrown e].

(** [t.unreached_func(msg)]. *)
Definition unreached_func (msg : val) : unit -> result := fun _ => assert_unreached (MVal msg).

(** The argument of [f] is the [unreached_func] of the test object. *)
Definition test {S} (f : (val -> unit -> result) -> comp S thrown unit) (desc : val) : comp S thrown unit :=
  fun s => match f unreached_func s with
           | (s', Throw e) => (s', Throw (failed desc e))
           | r => r
           end.

(** The awaited call: the promise [promise_test] answers settles as this does. *)
Definition promise_test {S} (f : (val -> unit -> result) -> comp S thrown unit) (desc : val) : comp S thrown unit :=
  test f desc.

(** [promise_rejects_js(p, message)] and [promise_rejects_exactly(error, p,
    message)], once [p] has settled. *)
Definition unexpected_success (v m : val) : message :=
  MTemplate [Text "Promise should throw but succeeded with "; PVal v; Text ": "; PVal m].

Definition promise_rejects_js (p : outcome val val) (m : val) : result :=
  match p with
  | Ok v => assert_unreached (unexpected_success v m)
  | Throw _ => Ok tt
  end.

Definition promise_rejects_exactly (error : val) (p : outcome val val) (m : val) : result :=
  match p with
  | Ok v => assert_unreached (unexpected_success v m)
  | Throw e => assert_equals e error m
  end.

(** ** Streams *)

(** The loop over a reader: its chunks until it answers [done]; the fuel bounds
    the number of reads. *)
Fixpoint read_all {S A} (reader_read : comp S fault iter_result) (push : A -> val -> A) (fuel : nat) (acc : A) : comp S fault A :=
  match fuel with
  | O => ret acc
  | Datatypes.S fuel =>
      let! chunk := reader_read in
      if done chunk then ret acc else read_all reader_read push fuel (push acc (rvalue chunk))
  end.

Definition readableStreamToArray {S} (reader_read : comp S fault iter_result) (fuel : nat) : comp S fault (list val) :=
  read_all reader_read (fun result v => result ++ [v]) fuel [].

(** The reader is that of the stream decoded to text; [toString] of a chunk. *)
Definition readStream {S} (decoded_read : comp S fault iter_result) (chunk_text : val -> jsstr) (fuel : nat) : comp S fault jsstr :=
  read_all decoded_read (fun result v => result ++ chunk_text v) fuel [].

(** The [start] of the stream's source. *)
Fixpoint enqueue_all {I} (arr : list val) : comp (@source_state I) fault unit :=
  match arr with
  | [] => ret tt
  | a :: arr => do! enqueue a in enqueue_all arr
  end.

Definition readableStreamFromArray {I} (arr : list val) : comp (@source_state I) fault unit :=
  do! enqueue_all arr in close.

(** ** [async_test] *)

(** The promise [async_test] answers. *)
Inductive settlement (E : Type) : Type := Pending | Fulfilled | Rejected (e : E).
Arguments Pending {E}.
Arguments Fulfilled {E}.
Arguments Rejected {E} e.

Section AsyncTest.
(** What a test throws, its functions, and the rest of the program's state. *)
Context {E F W : Type}.

Record test_state : Type := TestState {
  finished : bool;
  promise : settlement E;
  timers : list (F * val);
  world : W }.

Abbreviation T A := (comp test_state E A).

(** Calling a function of the test. *)
Variable call : F -> T unit.

(** [done = true]. *)
Definition set_done : T unit := modify (fun s => TestState true (promise s) (timers s) (world s)).

(** Calls of the promise's own [res] and [rej]: the language ignores all but the
    first of them. *)
Definition settle_native (p : settlement E) : T unit :=
  modify (fun s => TestState (finished s) (match promise s with Pending => p | q => q end) (timers s) (world s)).

Definition resolve : T unit := do! set_done in settle_native Fulfilled.
Definition reject (e : E) : T unit := do! set_done in settle_native (Rejected e).

(** [try { f() } catch (e) { reject(e) }]. *)
Definition guarded (f : F) : T unit :=
  fun s => match call f s with
           | (s', Throw e) => reject e s'
           | r => r
           end.

(** [t.step_func(f)]: the function it answers. *)
Definition step_func (f : F) : T (T unit) :=
  let! d := read finished in ret (if negb d then guarded f else ret tt).

Definition step_timeout (f : F) (t : val) : T unit :=
  let! d := read finished in
  if negb d then modify (fun s => TestState (finished s) (promise s) (timers s ++ [(f, t)]) (world s)) else ret tt.

(** [t.done()]. *)
Definition test_done : T unit :=
  let! d := read finished in if negb d then resolve else ret tt.

(** [async_test(f, n)]: the test runs against a pending promise. *)
Definition async_test (f : F) (w : W) : test_state * outcome E unit := call f (TestState false Pending [] w).

(** A timer fires. *)
Definition fire (i : nat) : T unit :=
  fun s => match timers s !! i with
           | Some (f, _) => guarded f (TestState (finished s) (promise s) (delete i (timers s)) (world s))
           | None => (s, Ok tt)
           end.

End AsyncTest.

(** ** The router *)

Inductive handler : Type :=
| handleHello
| handleBlob
| handleFile
| handleHeaders
| handleRequest
| handleResponse
| handleTextEncoder
| handleTextDecoder
| handleURL
| handleSearchParams
| handleAtobBtoA
| handleFetch
| handleFetchBody
| handleStreams
| handleTransformStream
| handleTextEncoderStream
| handleTextDecoderStream
| handlePerformance
| handleFormData
| handleTimers
| handleCrypto
| handleCryptoHmac
| handleCryptoSha
| handleCache
| handleEvent
| handleAbort.

(** A [Response] made by the router itself. *)
Record plain_response : Type := PlainResponse { body : jsstr; status : Z }.

Section Router.
Context {Req Resp : Type}.

(** [new URL(req.url).pathname], the handlers of the test files and the response
    made of a body and a status. *)
Variable pathname : Req -> jsstr.
Variable handle : handler -> Req -> Resp.
Variable new_response : plain_response -> Resp.

Definition router (req : Req) : Resp :=
  let path := pathname req in
  if startsWith (js "/1-hello") path then handle handleHello req
  else if startsWith (js "/2-blob") path then handle handleBlob req
  else if startsWith (js "/2.1-file") path then handle handleFile req
  else if startsWith (js "/3-headers") path then handle handleHeaders req
  else if startsWith (js "/4-request") path then handle handleRequest req
  else if startsWith (js "/5-response") path then handle handleResponse req
  else if startsWith (js "/6-text-encoder") path then handle handleTextEncoder req
  else if startsWith (js "/7-text-decoder") path then handle handleTextDecoder req
  else if startsWith (js "/8-url") path then handle handleURL req
  else if startsWith (js "/8.1-search-params") path then handle handleSearchParams req
  else if startsWith (js "/10-atob-btoa") path then handle handleAtobBtoA req
  else if startsWith (js "/11-fetch") path then handle handleFetch req
  else if startsWith (js "/11.1-fetch-body") path then handle handleFetchBody req
  else if startsWith (js "/12-streams") path then handle handleStreams req
  else if startsWith (js "/12.1-transform-stream") path then handle handleTransformStream req
  else if startsWith (js "/12.2-text-encoder-stream") path then handle handleTextEncoderStream req
  else if startsWith (js "/12.3-text-decoder-stream") path then handle handleTextDecoderStream req
  else if startsWith (js "/13-performance") path then handle handlePerformance req
  else if startsWith (js "/14-form-data") path then handle handleFormData req
  else if startsWith (js "/15-timers") path then handle handleTimers req
  else if startsWith (js "/16-crypto") path then handle handleCrypto req
  else if startsWith (js "/16.1-crypto-hmac") path then handle handleCryptoHmac req
  else if startsWith (js "/16.2-crypto-sha") path then handle handleCryptoSha req
  else if startsWith (js "/17-cache") path then handle handleCache req
  else if startsWith (js "/18-event") path then handle handleEvent req
  else if startsWith (js "/19-abort") path then handle handleAbort req
  else new_response (PlainResponse (js "Route Not Found - " ++ path) 404).

End Router.
