(* ===== verification/TestFacts.v ===== *)
(** What the helpers of the test suite guarantee: the life of a test, a stream
    made from an array reads back as the array, two arrays are accepted exactly
    when they agree, and the router's prefixes exclude each other. *)

From Stdlib Require Import String.
From stdpp Require Import base numbers list.
From S2P Require Import Prelude JsNumber JsValue Streams TestSuite.

Local Open Scope Z_scope.
Local Open Scope js_scope.

(** ** The test object *)

Section Settles.
Context {E F W : Type}.
Variable call : F -> comp (@test_state E F W) E unit.

Abbreviation T A := (comp (@test_state E F W) E A).

(** A part of the program that knows nothing of the test. *)
Definition outside {A} (g : comp W E A) : T A :=
  fun s => let '(w, r) := g (world s) in (TestState (finished s) (promise s) (timers s) w, r).

Definition try_catch {A} (m : T A) (h : E -> T A) : T A :=
  fun s => match m s with
           | (s', Throw e) => h e s'
           | r => r
           end.

(** Code that reaches the promise of the test only through the test object. *)
Inductive uses_t : forall {A}, T A -> Prop :=
| U_ret {A} (a : A) : uses_t (ret a)
| U_throw {A} e : uses_t (@throw _ _ A e)
| U_outside {A} (g : comp W E A) : uses_t (outside g)
| U_done : uses_t test_done
| U_timeout f t : uses_t (step_timeout f t)
| U_step f : uses_t (call f) -> uses_t (guarded call f)
| U_bind {A B} (m : T A) (k : A -> T B) : uses_t m -> (forall a, uses_t (k a)) -> uses_t (bind m k)
| U_catch {A} (m : T A) h : uses_t m -> (forall e, uses_t (h e)) -> uses_t (try_catch m h).

Definition settled (s : @test_state E F W) : bool := match promise s with Pending => false | _ => true end.

(** [finished] tells whether the promise has settled. *)
Definition settled_ok (s : @test_state E F W) : Prop := finished s = settled s.

(** What may have happened between two states: a settled promise stays as it is
    and no timer is added to it any more. *)
Definition later (s s' : @test_state E F W) : Prop :=
  settled_ok s' /\ (settled s = true -> promise s' = promise s /\ (length (timers s') <= length (timers s))%nat).

Lemma later_refl s : settled_ok s -> later s s.
Proof. intros H. split; [exact H|]. intros _. split; reflexivity. Qed.

Lemma later_trans s1 s2 s3 : later s1 s2 -> later s2 s3 -> later s1 s3.
Proof.
  intros [H1 P1] [H2 P2]. split; [exact H2|]. intros D. destruct (P1 D) as [Q1 L1].
  assert (D' : settled s2 = true) by (unfold settled in *; rewrite Q1; exact D).
  destruct (P2 D') as [Q2 L2]. split; [congruence|lia].
Qed.

Lemma later_reject e s : settled_ok s -> later s (fst (reject e s)).
Proof.
  unfold later, settled_ok, settled. intros _. cbn. destruct (promise s); (split; [reflexivity|]);
    intros D; [discriminate|split; reflexivity..].
Qed.

Lemma later_resolve s : settled_ok s -> later s (fst (resolve s)).
Proof.
  unfold later, settled_ok, settled. intros _. cbn. destruct (promise s); (split; [reflexivity|]);
    intros D; [discriminate|split; reflexivity..].
Qed.

Lemma later_same_promise (s : @test_state E F W) ts w : settled_ok s -> (length ts <= length (timers s))%nat ->
  later s (TestState (finished s) (promise s) ts w).
Proof. intros H L. split; [exact H|]. intros _. split; [reflexivity|exact L]. Qed.

Lemma later_guarded f : (forall s, settled_ok s -> later s (fst (call f s))) ->
  forall s, settled_ok s -> later s (fst (guarded call f s)).
Proof.
  intros IH s H. specialize (IH s H). unfold guarded. destruct (call f s) as [s' [a|e]]; cbn in *; [exact IH|].
  eapply later_trans; [exact IH|]. apply (later_reject e). apply IH.
Qed.

Lemma uses_t_later {A} (m : T A) : uses_t m -> forall s, settled_ok s -> later s (fst (m s)).
Proof.
  induction 1 as [A a|A e|A g| |f t|f _ IH|A B m k _ IHm _ IHk|A m h _ IHm _ IHh]; intros s Hs.
  - apply later_refl, Hs.
  - apply later_refl, Hs.
  - unfold outside. destruct (g (world s)) as [w r]. apply later_same_promise; [exact Hs|reflexivity].
  - unfold test_done, bind, read. cbn. destruct (finished s); cbn; [apply later_refl, Hs|].
    apply (later_resolve s), Hs.
  - unfold step_timeout, bind, read. destruct (finished s) eqn:D; cbn; [apply later_refl, Hs|].
    unfold settled_ok in Hs. unfold later, settled_ok. rewrite D in Hs. unfold settled in *. cbn. rewrite D, <- Hs.
    split; [reflexivity|discriminate].
  - apply later_guarded; assumption.
  - unfold bind. specialize (IHm s Hs). destruct (m s) as [s' [a|e]]; cbn in *; [|exact IHm].
    eapply later_trans; [exact IHm|]. apply IHk, IHm.
  - unfold try_catch. specialize (IHm s Hs). destruct (m s) as [s' [a|e]]; cbn in *; [exact IHm|].
    eapply later_trans; [exact IHm|]. apply IHh, IHm.
Qed.

(** What may happen to a running test: a timer fires, a function that [step_func]
    made is called, or something else changes the rest of the program. *)
Inductive action : Type :=
| Fires (i : nat)
| Calls (f : F)
| Else (g : W -> W).

Definition act (s : @test_state E F W) (a : action) : @test_state E F W :=
  match a with
  | Fires i => fst (fire call i s)
  | Calls f => fst (guarded call f s)
  | Else g => TestState (finished s) (promise s) (timers s) (g (world s))
  end.

(** The state of a test after what happened to it. *)
Definition running (f : F) (w : W) (happened : list action) : @test_state E F W :=
  fold_left act happened (fst (async_test call f w)).

Hypothesis through_t : forall f, uses_t (call f).

Lemma act_later s a : settled_ok s -> later s (act s a).
Proof.
  intros H. assert (G : forall f s, settled_ok s -> later s (fst (guarded call f s))).
  { intros f. apply later_guarded. apply uses_t_later, through_t. }
  destruct a as [i|f|g]; cbn.
  - unfold fire. destruct (timers s !! i) as [[f t]|] eqn:Ei; [|apply later_refl, H].
    eapply later_trans; [apply later_same_promise; [exact H|]|apply G, H].
    rewrite (length_delete (timers s) i) by eauto. lia.
  - apply G, H.
  - apply later_same_promise; [exact H|reflexivity].
Qed.

Lemma acts_later l : forall s, settled_ok s -> later s (fold_left act l s).
Proof.
  induction l as [|a l IH]; intros s H; cbn; [apply later_refl, H|].
  eapply later_trans; [apply act_later, H|]. apply IH, act_later, H.
Qed.


End Settles.

(** ** Streams and arrays *)

Lemma enqueue_all_run {I} (i : I) arr : forall q,
  enqueue_all arr (SourceState i (Controller q false)) = (SourceState i (Controller (q ++ arr) false), Ok tt).
Proof.
  induction arr as [|a arr IH]; intros q; cbn [enqueue_all]; [rewrite (right_id_L [] (++)); reflexivity|].
  erewrite bind_ok by reflexivity. cbn [stream iterator queue]. rewrite IH, <- (assoc_L (++)). reflexivity.
Qed.

Lemma read_all_run {I A} (reader_read : comp (@source_state I) fault iter_result) (push : A -> val -> A) i :
  (forall v q, reader_read (SourceState i (Controller (v :: q) true)) =
     (SourceState i (Controller q true), Ok (IterResult false v))) ->
  reader_read (SourceState i (Controller [] true)) = (SourceState i (Controller [] true), Ok (IterResult true Undefined)) ->
  forall q fuel acc, (length q < fuel)%nat ->
  read_all reader_read push fuel acc (SourceState i (Controller q true)) =
    (SourceState i (Controller [] true), Ok (fold_left push q acc)).
Proof.
  intros Hv Hd. induction q as [|v q IH]; intros fuel acc Hf; (destruct fuel as [|fuel]; [cbn in Hf; lia|]); cbn [read_all].
  - erewrite bind_ok by exact Hd. reflexivity.
  - erewrite bind_ok by apply Hv. cbn [done rvalue]. rewrite IH by (cbn in Hf; lia). reflexivity.
Qed.

Lemma fold_push (l acc : list val) : fold_left (fun result v => result ++ [v]) l acc = acc ++ l.
Proof.
  revert acc. induction l as [|v l IH]; intros acc; cbn; [rewrite (right_id_L [] (++)); reflexivity|].
  rewrite IH, <- (assoc_L (++)). reflexivity.
Qed.

(** A stream made by [readableStreamFromArray] reads back as the array through
    [readableStreamToArray], over any reader that hands out the chunks of a
    closed stream in order and then answers [done]; one read more than there
    are elements is enough. *)
Theorem stream_array_roundtrip {I} (i : I) (reader_read : comp (@source_state I) fault iter_result) arr fuel :
  (forall v q, reader_read (SourceState i (Controller (v :: q) true)) =
     (SourceState i (Controller q true), Ok (IterResult false v))) ->
  reader_read (SourceState i (Controller [] true)) = (SourceState i (Controller [] true), Ok (IterResult true Undefined)) ->
  (length arr < fuel)%nat ->
  exists s, readableStreamFromArray arr (SourceState i (Controller [] false)) = (s, Ok tt) /\
    readableStreamToArray reader_read fuel s = (SourceState i (Controller [] true), Ok arr).
Proof.
  intros Hv Hd Hf. eexists. split.
  - unfold readableStreamFromArray. erewrite bind_ok by apply enqueue_all_run. reflexivity.
  - unfold readableStreamToArray. cbn [iterator stream queue app].
    rewrite (read_all_run reader_read _ i Hv Hd) by exact Hf. rewrite fold_push. reflexivity.
Qed.

(** ** Assertions *)

Lemma forallb_map {A B} (f : B -> bool) (g : A -> B) l : forallb f (map g l) = forallb (fun x => f (g x)) l.
Proof. induction l as [|x l IH]; cbn; [|rewrite IH]; reflexivity. Qed.

Lemma all_equal_Forall2 a : forall b, length a = length b ->
  all_equal a b (length a) = true <-> Forall2 (fun x y => loose_eq x y = true) a b.
Proof.
  unfold all_equal. induction a as [|x a IH]; intros [|y b] E; try discriminate; cbn [length].
  - split; [constructor|reflexivity].
  - injection E as E. cbn [seq forallb]. rewrite <- seq_shift, forallb_map, andb_true_iff.
    rewrite Forall2_cons. cbn [at_index lookup list_lookup default]. rewrite <- IH by exact E. reflexivity.
Qed.

(** [assert_array_equals] accepts two arrays exactly when they have the same
    length and equal elements, element for element, and throws otherwise. *)
Theorem array_equals_spec a b m :
  (assert_array_equals a b m = Ok tt <-> Forall2 (fun x y => loose_eq x y = true) a b) /\
  (assert_array_equals a b m <> Ok tt ->
     assert_array_equals a b m = Throw (NewError [Text "Expected "; PVal (VArray a); Text " to be equal to "; PVal (VArray b); Text ": "; PVal m])).
Proof.
  unfold assert_array_equals. destruct (Nat.eqb_spec (length a) (length b)) as [E|N]; cbn [negb].
  - rewrite <- E. rewrite <- (all_equal_Forall2 a b E). destruct (all_equal a b (length a)); cbn; split; try easy.
  - split; [|reflexivity]. split; [discriminate|]. intros H. apply Forall2_length in H. contradiction.
Qed.

(** ** The router *)

(** The table of routes. *)
Definition routes : list (jsstr * handler) :=
  [(js "/1-hello", handleHello);
   (js "/2-blob", handleBlob);
   (js "/2.1-file", handleFile);
   (js "/3-headers", handleHeaders);
   (js "/4-request", handleRequest);
   (js "/5-response", handleResponse);
   (js "/6-text-encoder", handleTextEncoder);
   (js "/7-text-decoder", handleTextDecoder);
   (js "/8-url", handleURL);
   (js "/8.1-search-params", handleSearchParams);
   (js "/10-atob-btoa", handleAtobBtoA);
   (js "/11-fetch", handleFetch);
   (js "/11.1-fetch-body", handleFetchBody);
   (js "/12-streams", handleStreams);
   (js "/12.1-transform-stream", handleTransformStream);
   (js "/12.2-text-encoder-stream", handleTextEncoderStream);
   (js "/12.3-text-decoder-stream", handleTextDecoderStream);
   (js "/13-performance", handlePerformance);
   (js "/14-form-data", handleFormData);
   (js "/15-timers", handleTimers);
   (js "/16-crypto", handleCrypto);
   (js "/16.1-crypto-hmac", handleCryptoHmac);
   (js "/16.2-crypto-sha", handleCryptoSha);
   (js "/17-cache", handleCache);
   (js "/18-event", handleEvent);
   (js "/19-abort", handleAbort)].

Lemma startsWith_spec p s : startsWith p s = true <-> exists t, s = p ++ t.
Proof.
  revert s. induction p as [|a p IH]; intros [|b s]; cbn.
  - split; [exists []; reflexivity|reflexivity].
  - split; [exists (b :: s); reflexivity|reflexivity].
  - split; [discriminate|]. intros [t H]. discriminate.
  - rewrite andb_true_iff, IH, Z.eqb_eq. split.
    + intros [-> [t ->]]. exists t. reflexivity.
    + intros [t H]. injection H as -> ->. split; [reflexivity|]. exists t. reflexivity.
Qed.

(** Two prefixes of one path: one of them begins with the other. *)
Lemma prefixes_comparable p q s : startsWith p s = true -> startsWith q s = true ->
  startsWith p q || startsWith q p = true.
Proof.
  revert q s. induction p as [|a p IH]; intros [|b q] [|c s]; cbn; try easy.
  rewrite !andb_true_iff, !Z.eqb_eq. intros [-> Hp] [-> Hq].
  rewrite Z.eqb_refl. cbn. eapply IH; eassumption.
Qed.

Definition exclusive (l : list (jsstr * handler)) : bool :=
  forallb (fun x => forallb (fun y => bool_decide (fst x = fst y) || negb (startsWith (fst x) (fst y))) l) l.

(** The first route whose prefix begins the path. *)
Definition first_route (path : jsstr) : option handler :=
  option_map snd (List.find (fun r => startsWith (fst r) path) routes).

Lemma router_first {Req Resp} (pathname : Req -> jsstr) handle (new_response : plain_response -> Resp) req :
  router pathname handle new_response req =
    match first_route (pathname req) with
    | Some h => handle h req
    | None => new_response (PlainResponse (js "Route Not Found - " ++ pathname req) 404)
    end.
Proof.
  unfold router, first_route, routes. cbn [List.find fst].
  repeat match goal with |- context [if startsWith ?p ?s then _ else _] => destruct (startsWith p s); [reflexivity|] end.
  reflexivity.
Qed.

Lemma routes_exclusive x y s : In x routes -> In y routes ->
  startsWith (fst x) s = true -> startsWith (fst y) s = true -> fst x = fst y.
Proof.
  intros Hx Hy Sx Sy. assert (E : exclusive routes = true) by reflexivity.
  unfold exclusive in E. rewrite forallb_forall in E. pose proof (E x Hx) as E1. pose proof (E y Hy) as E2.
  rewrite forallb_forall in E1, E2. specialize (E1 y Hy). specialize (E2 x Hx).
  apply orb_true_iff in E1, E2. rewrite bool_decide_eq_true in E1, E2.
  destruct E1 as [->|N1]; [reflexivity|]. destruct E2 as [->|N2]; [reflexivity|].
  pose proof (prefixes_comparable _ _ _ Sx Sy) as C. apply orb_true_iff in C.
  rewrite negb_true_iff in N1, N2. destruct C; congruence.
Qed.

(** The routes have pairwise different prefixes. *)
Lemma routes_by_prefix x y : In x routes -> In y routes -> fst x = fst y -> x = y.
Proof.
  intros Hx Hy H.
  assert (N : NoDup (map fst routes)) by (apply (bool_decide_unpack _); reflexivity).
  apply list_elem_of_In in Hx, Hy. apply list_elem_of_lookup in Hx as [i Hi], Hy as [j Hj].
  assert (i = j) as <-; [|congruence]. eapply (NoDup_lookup (map fst routes) i j (fst x) N).
  - change (map fst routes) with (fst <$> routes). rewrite list_lookup_fmap, Hi. reflexivity.
  - change (map fst routes) with (fst <$> routes). rewrite list_lookup_fmap, Hj. cbn. congruence.
Qed.

(** The router sends a path to the route whose prefix it begins with, whatever
    the order of the tests: no path begins with two of the prefixes.  A path
    without a route is answered 404 with the path in the body. *)
Theorem router_spec {Req Resp} (pathname : Req -> jsstr) handle (new_response : plain_response -> Resp) req :
  (forall p h, In (p, h) routes -> startsWith p (pathname req) = true ->
     router pathname handle new_response req = handle h req) /\
  ((forall p h, In (p, h) routes -> startsWith p (pathname req) = false) ->
     router pathname handle new_response req =
       new_response (PlainResponse (js "Route Not Found - " ++ pathname req) 404)).
Proof.
  rewrite router_first. unfold first_route.
  destruct (List.find _ routes) as [r|] eqn:E; cbn [option_map]; split.
  - intros p h Hin Hs. apply find_some in E as [Hr Sr].
    assert (r = (p, h)) as ->; [|reflexivity]. apply routes_by_prefix; [assumption..|].
    eapply routes_exclusive; eassumption.
  - intros N. apply find_some in E as [Hr Sr]. destruct r as [p h]. cbn in Sr. rewrite (N p h Hr) in Sr. discriminate.
  - intros p h Hin Hs. pose proof (find_none _ _ E (p, h) Hin) as H. cbn in H. congruence.
  - reflexivity.
Qed.

(** ** Instances *)

(** A test that schedules a failing step and, later, its end. *)
Definition sample_call (f : nat) : comp (@test_state val nat unit) val unit :=
  match f with
  | 0%nat => do! step_timeout 1%nat (Num (of_Z 0)) in step_timeout 2%nat (Num (of_Z 1))
  | 1%nat => throw (Str (js "failed"))
  | _ => test_done
  end.

Lemma sample_through f : uses_t sample_call (sample_call f).
Proof. destruct f as [|[|f]]; cbn [sample_call]; repeat constructor. Qed.


(** The reader of a stream that hands out its queue. *)
Definition queue_read (s : @source_state unit) : @source_state unit * outcome fault iter_result :=
  match queue (stream s) with
  | v :: q => (SourceState (iterator s) (Controller q (closed (stream s))), Ok (IterResult false v))
  | [] => (s, Ok (IterResult true Undefined))
  end.

Lemma stream_array_roundtrip_witness :
  exists s, readableStreamFromArray [Bool true; Null] (SourceState tt (Controller [] false)) = (s, Ok tt) /\
    readableStreamToArray queue_read 3 s = (SourceState tt (Controller [] true), Ok [Bool true; Null]).
Proof.
  apply (stream_array_roundtrip tt queue_read [Bool true; Null] 3); [reflexivity|reflexivity|cbn; lia].
Defined.

(** The failure texts of the four comparisons name the first value twice and the
    same relation. *)
Example order_texts a b :
  js_lt (Num (of_Z a)) (Num (of_Z b)) = false ->
  assert_less_than (Num (of_Z a)) (Num (of_Z b)) Undefined =
    Throw (NewError [Text "Expected "; PVal (Num (of_Z a)); Text " to be greater than or equal to "; PVal (Num (of_Z a))]).
Proof. intros H. unfold assert_less_than, assert. rewrite H. reflexivity. Qed.
