(* ===== verification/EventTest.v ===== *)
(** The test of events (test-suite/js-test-app/src/test-files/18-event.js): a
    program that composes [Event], [EventTarget] and the assertions of the test
    suite, run on their models. *)

From Stdlib Require Import String.
From stdpp Require Import base numbers list gmap.
From S2P Require Import Prelude JsNumber JsValue Event Streams TestSuite.

Local Open Scope Z_scope.
Local Open Scope js_scope.

(** What reaches the [catch]: an assertion that failed or an exception of the
    event methods. *)
Inductive failure : Type :=
| AssertionFailed (e : thrown)
| Faulted (e : fault).

(** The variables [testEvent1CalledCount] and [testEvent2CalledCount]. *)
Record counts : Type := Counts { testEvent1CalledCount : Z; testEvent2CalledCount : Z }.

Abbreviation Run A := (comp (Event.world counts) failure A).

(** The objects of the test: the target, the two events, the two callbacks. *)
Definition target_object : object := 0%nat.
Definition testEvent1 : object := 1%nat.
Definition testEvent2 : object := 2%nat.
Definition testEvent1CallBack : callback := CFunction 1.
Definition testEvent2CallBack : callback := CFunction 2.

Definition set_counts (f : counts -> counts) (w : Event.world counts) : Event.world counts :=
  Event.World (targets w) (events w) (f (user w)).

(** The two arrow functions. *)
Definition call_back (f : nat) (ev : object) : comp (Event.world counts) fault unit :=
  match f with
  | 1%nat => modify (set_counts (fun c => Counts (testEvent1CalledCount c + 1) (testEvent2CalledCount c)))
  | 2%nat => modify (set_counts (fun c => Counts (testEvent1CalledCount c) (testEvent2CalledCount c + 1)))
  | _ => throw (Error "not a function of the test")
  end.

(** A call of a method of the library, and an assertion on a counter. *)
Definition lib {A} (m : comp (Event.world counts) fault A) : Run A :=
  fun w => match m w with
           | (w', Ok a) => (w', Ok a)
           | (w', Throw e) => (w', Throw (Faulted e))
           end.

Definition expect (count : counts -> Z) (n : Z) (m : string) : Run unit :=
  fun w => match assert_equals (Num (of_Z (count (user w)))) (Num (of_Z n)) (Str (js m)) with
           | Ok _ => (w, Ok tt)
           | Throw e => (w, Throw (AssertionFailed e))
           end.

Definition add (ty : jsstr) (c : callback) : Run unit :=
  lib (addEventListener (fun _ _ => false) (fun _ _ u => u) target_object ty c OUndefined).
Definition remove (ty : jsstr) (c : callback) : Run unit := lib (removeEventListener target_object ty c OUndefined).
Definition fire_event (ev : object) : Run unit := do! lib (dispatchEvent call_back target_object ev) in ret tt.

(** The body of the [try]. *)
Definition steps (TEST_EVENT1 TEST_EVENT2 : jsstr) : Run unit :=
  do! modify (fun w => Event.World (<[target_object := ∅]> (targets w))
                         (<[testEvent2 := new_event TEST_EVENT2 Undefined]> (<[testEvent1 := new_event TEST_EVENT1 Undefined]> (events w)))
                         (Counts 0 0)) in
  do! add TEST_EVENT1 testEvent1CallBack in
  do! add TEST_EVENT2 testEvent2CallBack in
  do! fire_event testEvent1 in
  do! expect testEvent1CalledCount 1 "test event 1 callback was not called" in
  do! expect testEvent2CalledCount 0 "test event 2 callback was unexpectedly called" in
  do! fire_event testEvent2 in
  do! expect testEvent2CalledCount 1 "test event 2 callback was not called" in
  do! remove TEST_EVENT1 testEvent1CallBack in
  do! fire_event testEvent1 in
  do! expect testEvent1CalledCount 1 "test event 1 callback was unexpectedly called" in
  do! fire_event testEvent2 in
  do! expect testEvent2CalledCount 2 "test event 2 callback was not called" in
  do! remove TEST_EVENT2 testEvent2CallBack in
  do! fire_event testEvent2 in
  expect testEvent2CalledCount 2 "test event 2 callback was unexpectedly called".

(** The response: its status and its body, a text or the error the test failed with. *)
Definition handleRequest : Z * (string + failure) :=
  match steps (js "testEvent1") (js "testEvent2") (Event.World ∅ ∅ (Counts 0 0)) with
  | (_, Ok _) => (200, inl "All tests passed!"%string)
  | (_, Throw e) => (500, inr e)
  end.

(** The library passes its test of events. *)
Theorem event_test_passes : handleRequest = (200, inl "All tests passed!"%string).
Proof. vm_compute. reflexivity. Qed.

(** A callback that stays registered would fail it. *)
Example event_test_can_fail :
  snd ((do! add (js "a") testEvent1CallBack in do! fire_event testEvent1 in expect testEvent1CalledCount 0 "called")
         (Event.World (<[target_object := ∅]> ∅) (<[testEvent1 := new_event (js "a") Undefined]> ∅) (Counts 0 0))) <> Ok tt.
Proof. vm_compute. discriminate. Qed.
