(* ===== verification/PromiseTest.v ===== *)
(** The tests of the test suite whose bodies answer promises: [promise_test] on
    the chains of [Async], and the response a test file gives. *)

From Stdlib Require Import String.
From stdpp Require Import base numbers list relations.
From S2P Require Import Prelude JsNumber JsValue Streams TestSuite Async.

Local Open Scope Z_scope.
Local Open Scope js_scope.

Section PromiseTest.
Context {S : Type}.

Abbreviation Chain A := (async S thrown A).
Abbreviation Starts A := (starts S thrown A).

(** An assertion at the end of a callback. *)
Definition check (r : result) : Starts unit := at_once (fun s => (s, r)).

(** [promise_test(f, desc)]: the promise it answers. *)
Definition promise_test_chain (f : (val -> unit -> result) -> Starts unit) (desc : val) : Starts unit :=
  fun s => let '(s', p) := f unreached_func s in
           (s', then_ p (fun _ => at_once (ret tt)) (fun e => at_once (throw (failed desc e)))).

(** [assert_unreached(...)] with a text made of parts. *)
Definition unreached (t : list piece) : result := assert_unreached (MTemplate t).

(** The text of [err.message]. *)
Definition error_message (e : thrown) : list piece :=
  match e with
  | NewError m => m
  | LangError _ t => [Text t]
  | Value _ => [PVal Undefined]
  | Library _ => [PThrown e]
  end.

(** A native rejection: an error object with its message. *)
Definition native_error (message : jsstr) : thrown := NewError [PVal (Str message)].

(** [new Response('All tests passed!')], or the error's text with status 500. *)
Definition respond (r : outcome thrown unit) : Z * (string + thrown) :=
  match r with
  | Ok _ => (200, inl "All tests passed!"%string)
  | Throw e => (500, inr e)
  end.

(** Once [await_each] has an answer, no later turn changes it. *)
Lemma await_each_stable {A} (P Q : pool (S := S) (E := thrown) A) r :
  rtc step P Q -> await_each (promises P) = Some r -> await_each (promises Q) = Some r.
Proof.
  induction 1 as [|P P' Q St _ IH]; [auto|]. intros H. apply IH. clear IH.
  destruct St as [s ps i k s' p' Hi Hk]. cbn in *. revert i Hi H.
  induction ps as [|p ps IH]; intros i Hi H; [discriminate|].
  destruct i as [|i]; cbn in Hi; [injection Hi as ->; discriminate|]. cbn [await_each] in H |- *.
  destruct p as [[a|e]|k0]; cbn; [apply IH; assumption|exact H|discriminate].
Qed.

(** A test alone: its chain settles as the awaited call of [promise_test] does. *)
Lemma settle_then {A B} (p : Chain A) (f : A -> Starts B) (g : thrown -> Starts B) s :
  settle_alone (then_ p f g) s =
    match settle_alone p s with
    | (s', Ok a) => let '(s'', q) := f a s' in settle_alone q s''
    | (s', Throw e) => let '(s'', q) := g e s' in settle_alone q s''
    end.
Proof.
  revert s. assert (W : Acc next_of p) by apply next_of_wf. induction W as [p _ IH]. intros s.
  destruct p as [[a|e]|k]; cbn; [destruct (f a s); reflexivity|destruct (g e s); reflexivity|].
  destruct (k s) as [s' p'] eqn:Hk. cbn. apply IH. exists k, s, s'. auto.
Qed.

Lemma promise_test_alone f desc s :
  (let '(s', p) := promise_test_chain f desc s in settle_alone p s') =
  promise_test (fun u s => let '(s', p) := f u s in settle_alone p s') desc s.
Proof.
  unfold promise_test_chain, promise_test, test. destruct (f unreached_func s) as [s' p].
  rewrite settle_then. destruct (settle_alone p s') as [s'' [[]|e]]; reflexivity.
Qed.

End PromiseTest.

(** ** Without other promises *)

(** A promise that nothing else runs beside. *)
Definition run_alone {S E A} (f : starts S E A) : comp S E A := fun s => let '(s', p) := f s in settle_alone p s'.

Lemma settle_and_then {S A B} (p : async S thrown A) (f : A -> starts S thrown B) s :
  settle_alone (and_then p f) s = bind (settle_alone p) (fun a => run_alone (f a)) s.
Proof.
  unfold and_then. rewrite settle_then. unfold bind, run_alone. destruct (settle_alone p s) as [s' [a|e]]; reflexivity.
Qed.

Lemma run_await {S A B} (f : starts S thrown A) (k : A -> starts S thrown B) s :
  run_alone (await_call f k) s = bind (run_alone f) (fun a => run_alone (k a)) s.
Proof.
  unfold run_alone at 1, await_call. destruct (f s) as [s' p] eqn:E. rewrite settle_and_then.
  unfold bind, run_alone at 2. rewrite E. reflexivity.
Qed.

Lemma run_first {S A B} (m : comp S thrown A) (k : A -> starts S thrown B) s : run_alone (first m k) s = bind m (fun a => run_alone (k a)) s.
Proof. unfold run_alone, first, bind. destruct (m s) as [s' [a|e]]; reflexivity. Qed.

Lemma bind_ext {S A B} (m m' : comp S thrown A) (k k' : A -> comp S thrown B) s :
  m s = m' s -> (forall a s, k a s = k' a s) -> bind m k s = bind m' k' s.
Proof. intros E H. unfold bind. rewrite E. destruct (m' s) as [s' [a|e]]; [apply H|reflexivity]. Qed.

(** ** What the assertions accept *)

Definition tested (desc : jsstr) (r : result) : result :=
  match r with Ok _ => Ok tt | Throw e => Throw (failed (Str desc) e) end.

Lemma tested_ok desc r : tested desc r = Ok tt <-> r = Ok tt.
Proof. destruct r as [[]|e]; cbn; split; congruence. Qed.

Lemma assert_true_ok b m : assert_true b m = Ok tt <-> b = Bool true.
Proof.
  unfold assert_true. destruct b as [| |[]| | | | | | | |]; cbn; split; try congruence; try discriminate;
    match goal with |- context [strict_eq ?x ?y] => destruct (strict_eq x y) eqn:E; cbn; try discriminate end.
Qed.

Lemma assert_false_ok b m : assert_false b m = Ok tt <-> b = Bool false.
Proof.
  unfold assert_false. destruct b as [| |[]| | | | | | | |]; cbn; split; try congruence; discriminate.
Qed.

Lemma thrown_undefined (e : thrown) : e = Value Undefined \/ e <> Value Undefined.
Proof. destruct e as [[]| | |]; auto; right; discriminate. Qed.

(** A call passes when it throws something else than [undefined]. *)
Lemma assert_throws_js_ok r m : assert_throws_js r m = Ok tt <-> exists e, r = Throw e /\ e <> Value Undefined.
Proof.
  unfold assert_throws_js. destruct r as [u|e]; [split; [discriminate|intros (e & H & _); discriminate]|].
  destruct (thrown_undefined e) as [->|N].
  - split; [discriminate|]. intros (e & [= <-] & N). congruence.
  - split; [eauto|]. intros _. destruct e as [[]| | |]; try reflexivity. congruence.
Qed.

Lemma assert_equals_ok a b m : assert_equals a b m = Ok tt <-> strict_eq a b = true.
Proof. unfold assert_equals, assert. destruct (strict_eq a b); cbn; split; congruence. Qed.

(** ** The result of a test

    Whatever the other promises do to the state, as far as [later] allows. *)
Section Results.
Context {S : Type} {inv : S -> Prop} {later : relation S} `{!PreOrder later}.

Definition anything (s : S) : Prop := True.
Lemma anything_stable : stable later anything.
Proof. intros s s' _ _. exact I. Qed.

Lemma promise_test_ok s0 f desc r : starts_ok inv later anything s0 (f unreached_func) r ->
  starts_ok inv later anything s0 (promise_test_chain f (Str desc)) (tested desc r).
Proof.
  intros H. eapply (starts_then inv later anything); [exact H|]. intros s L _.
  destruct r; apply starts_pure; try exact _; first [apply anything_stable|exact I].
Qed.

Lemma check_ok s0 r : starts_ok inv later anything s0 (check r) r.
Proof. apply starts_pure; [exact _|apply anything_stable|exact I]. Qed.

End Results.
