(* ===== verification/ByteBuffers.v ===== *)
(** Typed arrays and array buffers as the tests of the crypto API use them, and
    the two helpers those tests share (test-files/16.1-crypto-hmac.js and
    16.2-crypto-sha.js): [copyBuffer] and [equalBuffers]. *)

From Stdlib Require Import SpecFloat String.
From stdpp Require Import base numbers list gmap.
From S2P Require Import Prelude JsNumber JsValue BufferCoreFacts.

Local Open Scope Z_scope.
Local Open Scope js_scope.

(** ** The language's constructors *)

(** [v.byteLength]. *)
Definition byteLength (v : val) : M val :=
  read (fun h => match v with
                 | VView w => Num (of_Z (vlen w))
                 | VArrayBuffer a => Num (of_Z (Z.of_nat (length (ab_bytes h a))))
                 | VTyped size l => Num (of_Z (size * Z.of_nat (length l)))
                 | _ => Undefined
                 end).

(** [new Uint8Array(v)]: a view of an array buffer, a copy of a typed array or of
    an array, zeros for a length. *)
Definition new_Uint8Array (v : val) : M view :=
  match v with
  | VArrayBuffer a => let! n := read (fun h => Z.of_nat (length (ab_bytes h a))) in new_view false a 0 n
  | VView w => let! l := read (fun h => bytes h w) in new_buffer false l
  | VTyped _ l => new_buffer false (map ToUint8 l)
  | VArray l => new_buffer false (map (fun x => ToUint8 (num_of x)) l)
  | VObj _ _ _ => new_buffer false []
  | _ => let! n := toNum v in
         if (to_integer n <? 0) || (2 ^ 32 <=? to_integer n) then throw_range [Txt "invalid or out-of-range index"]
         else new_buffer false (replicate (Z.to_nat (to_integer n)) 0)
  end.

(** [v.slice(start)] of a typed array: a copy, from a [start] that is not negative. *)
Definition typed_slice (v : view) (start : Z) : M view :=
  let! l := read (fun h => bytes h v) in new_buffer false (drop (Z.to_nat start) l).

(** ** The helpers *)

Definition copyBuffer (sourceBuffer : val) : M view :=
  let! source := new_Uint8Array sourceBuffer in
  let! n := byteLength sourceBuffer in
  let! copy := new_Uint8Array n in
  do! for_each (indices 0 (vlen source) 1) (fun i => let! x := getn source i in put copy i x) in
  ret copy.

(** The loop of [equalBuffers], over the indices that are left. *)
Fixpoint same_elements (aBytes bBytes : view) (l : list Z) : M bool :=
  match l with
  | [] => ret true
  | i :: l =>
      let! x := get aBytes i in
      let! y := get bBytes i in
      if negb (strict_eq x y) then ret false else same_elements aBytes bBytes l
  end.

Definition equalBuffers (a b : val) : M bool :=
  let! n := byteLength a in
  let! m := byteLength b in
  if negb (strict_eq n m) then ret false
  else
    let! aBytes := new_Uint8Array a in
    let! bBytes := new_Uint8Array b in
    let! n := byteLength a in
    same_elements aBytes bBytes (indices 0 (to_integer (num_of n)) 1).

(** ** What they do *)

(** The bytes a buffer value holds. *)
Definition contents (h : heap) (v : val) : list Z :=
  match v with VView w => bytes h w | VArrayBuffer a => ab_bytes h a | _ => [] end.

Definition buffer_ok (h : heap) (v : val) : Prop :=
  match v with
  | VView w => view_ok h w
  | VArrayBuffer a => mem h !! a <> None /\ Z.of_nat (length (ab_bytes h a)) < 2 ^ 32
  | _ => False
  end.

Lemma buffer_extends h h' v : extends h h' -> buffer_ok h v -> buffer_ok h' v /\ contents h' v = contents h v.
Proof.
  intros X H. destruct v; try contradiction; cbn in *; [apply extends_view; assumption|].
  destruct H as [H L]. rewrite (extends_ab h h') by assumption. split; [split; [|exact L]|reflexivity].
  destruct (mem h !! a) as [l|] eqn:E; [|contradiction]. rewrite (lookup_weaken _ _ _ _ E (proj1 X)). discriminate.
Qed.

Lemma contents_bytes h v : heap_ok h -> Forall byte (contents h v).
Proof.
  intros H. destruct v; try constructor; cbn; [apply heap_ok_bytes, H|].
  unfold ab_bytes. destruct (mem h !! a) as [l|] eqn:E; [apply (H _ _ E)|constructor].
Qed.

Lemma contents_length h v : buffer_ok h v -> Z.of_nat (length (contents h v)) < 2 ^ 32.
Proof.
  intros H. destruct v; try contradiction; cbn in *; [rewrite length_bytes by exact H; apply H|apply H].
Qed.

(** A typed array of its own: no view of an older array buffer. *)
Record owned (h h' : heap) (v : view) (l : list Z) : Prop := Owned {
  o_heap : heap_ok h';
  o_view : view_ok h' v;
  o_bytes : bytes h' v = l;
  o_extends : extends h h';
  o_fresh : mem h !! vab v = None }.

Lemma owned_new h l : heap_ok h -> Forall byte l -> Z.of_nat (length l) < 2 ^ 32 ->
  owned h (grown h l) (fresh_view h false (Z.of_nat (length l))) l.
Proof.
  intros H Hl Hn. split; [apply heap_ok_grown|apply view_ok_grown|apply bytes_grown|apply extends_grown|cbn; apply heap_ok_fresh];
    (assumption || lia).
Qed.

Lemma owned_store h h' v l i k : owned h h' v l -> 0 <= i -> i + Z.of_nat (length k) <= vlen v -> Forall byte k ->
  owned h (store h' v i k) v (splice i k l).
Proof.
  intros [F1 F2 F3 F4 F5] Hi Hk Hb. split; [apply heap_ok_store|apply view_ok_store| |apply extends_store|]; try assumption.
  rewrite bytes_store, F3 by assumption. reflexivity.
Qed.

Lemma owned_later h h1 h' v l : extends h h1 -> owned h1 h' v l -> owned h h' v l.
Proof.
  intros X [F1 F2 F3 F4 F5]. split; try assumption; [etransitivity; eassumption|].
  destruct (mem h !! vab v) as [k|] eqn:E; [|reflexivity]. rewrite (lookup_weaken _ _ _ _ E (proj1 X)) in F5. discriminate.
Qed.

Lemma buffer_length_run h v : buffer_ok h v ->
  byteLength v h = (h, Ok (Num (of_Z (Z.of_nat (length (contents h v)))))).
Proof.
  intros H. destruct v; try contradiction; cbn in *; [|reflexivity].
  unfold byteLength, read. rewrite length_bytes by exact H. reflexivity.
Qed.

(** [new Uint8Array] of a buffer holds its bytes. *)
Lemma new_Uint8Array_run h v : heap_ok h -> buffer_ok h v -> exists h' w,
  new_Uint8Array v h = (h', Ok w) /\ extends h h' /\ heap_ok h' /\ view_ok h' w /\ bytes h' w = contents h v /\
  vlen w = Z.of_nat (length (contents h v)).
Proof.
  intros Hh H. pose proof (contents_length h v H) as L. pose proof (contents_bytes h v Hh) as B.
  destruct v as [| | | | | |w|a| | |]; try contradiction.
  - destruct (owned_new h (bytes h w) Hh B L) as [F1 F2 F3 F4 F5].
    eexists _, _. split; [reflexivity|]. do 3 (split; [eassumption|]). split; [exact F3|reflexivity].
  - destruct H as [Hm Hl]. cbn in L. set (n := Z.of_nat (length (ab_bytes h a))) in *.
    exists (Heap (mem h) (S (fresh h))), (View (fresh h) false a 0 n). split; [reflexivity|].
    split; [split; [reflexivity|cbn; lia]|]. split; [intros b k E; apply Hh in E as [E1 E2]; split; [exact E1|cbn; lia]|].
    split; [split; [apply Z.le_refl|]; split; [cbn; lia|]; split; [apply Z.le_refl|]; split; [exact L|exact Hm]|]. split; [|reflexivity].
    unfold bytes. cbn [voff vlen vab]. unfold n. rewrite Nat2Z.id. cbn. apply firstn_all.
Qed.

Lemma new_zeros_run h n : 0 <= n < 2 ^ 32 ->
  new_Uint8Array (Num (of_Z n)) h = (grown h (replicate (Z.to_nat n) 0), Ok (fresh_view h false n)).
Proof.
  intros Hn. unfold new_Uint8Array, toNum. erewrite bind_ok by reflexivity. rewrite to_integer_of_Z by lia. zbool. cbn [orb].
  rewrite new_buffer_run, length_replicate, Z2Nat.id by lia. reflexivity.
Qed.

Lemma splice_next (l k : list Z) i x : (i < length l)%nat -> l !! i = Some x -> length k = length l ->
  splice (Z.of_nat i) [x] (take i l ++ drop i k) = take (S i) l ++ drop (S i) k.
Proof.
  intros Hi Hx Hk. unfold splice. rewrite Nat2Z.id. cbn [length].
  rewrite take_app_length' by (rewrite length_take; lia).
  rewrite drop_app_ge by (rewrite length_take; lia). rewrite length_take, drop_drop.
  rewrite (take_S_r l i x Hx), <- app_assoc. do 2 f_equal. cbn. f_equal. lia.
Qed.

(** [copyBuffer] answers an array of its own with the same bytes. *)
Lemma copyBuffer_run h v : heap_ok h -> buffer_ok h v ->
  exists h' w, copyBuffer v h = (h', Ok w) /\ owned h h' w (contents h v).
Proof.
  intros Hh H. pose proof (contents_length h v H) as L. pose proof (contents_bytes h v Hh) as B.
  destruct (new_Uint8Array_run h v Hh H) as (h1 & src & E & X & H1 & Sv & Sb & Sl).
  destruct (buffer_extends h h1 v X H) as [H' Ec]. set (l := contents h v) in *.
  unfold copyBuffer. rewrite (bind_ok _ _ _ _ _ E), (bind_ok _ _ _ _ _ (buffer_length_run h1 v H')), Ec.
  erewrite bind_ok by (apply new_zeros_run; lia). rewrite Nat2Z.id.
  set (n := length l) in *. set (w := fresh_view h1 false (Z.of_nat n)).
  set (h2 := grown h1 (replicate n 0)).
  assert (O : owned h1 h2 w (replicate n 0)).
  { pose proof (owned_new h1 (replicate n 0) H1 (zeros_bytes n) ltac:(rewrite length_replicate; exact L)) as O.
    rewrite length_replicate in O. exact O. }
  (* the store after [i] turns *)
  set (st := fun i : nat => match i with O => h2 | S _ => store h2 w 0 (take i l) end).
  assert (Own : forall i, (i <= n)%nat -> owned h1 (st i) w (take i l ++ drop i (replicate n 0))).
  { intros [|i] Hi; [exact O|]. cbn [st]. assert (T : length (take (S i) l) = S i) by (rewrite length_take; unfold n in Hi; lia).
    replace (take (S i) l ++ drop (S i) (replicate n 0)) with (splice 0 (take (S i) l) (replicate n 0))
      by (unfold splice; rewrite T; reflexivity).
    apply owned_store; [exact O|lia|rewrite T; cbn; lia|apply Forall_take, B]. }
  assert (Loop : for_each (indices 0 (vlen src) 1) (fun i => let! x := getn src i in put w i x) (st 0%nat) = (st n, Ok tt)).
  { rewrite Sl. replace (Z.of_nat n) with (0 + 1 * Z.of_nat n) at 1 by lia.
    apply (for_each_steps (fun i => let! x := getn src i in put w i x) st 1 n); [lia|].
    intros j Hj. rewrite Z.add_0_l, Z.mul_1_l. destruct (lookup_lt_is_Some_2 l j Hj) as [x Hx].
    destruct (Own j ltac:(lia)) as [K1 K2 K3 K4 K5].
    destruct (extends_view h1 (st j) src K4 Sv) as [Sv' Sb'].
    erewrite bind_ok by (apply getn_run; [exact Sv'|lia]). unfold byte_at, elt. rewrite Sb', Sb, zget_nat, Hx. change (default 0 (Some x)) with x.
    pose proof (Forall_byte_lookup _ _ _ B Hx) as Bx. rewrite put_run by (cbn; lia). unfold byte in Bx. rewrite ToUint8_of_Z, (Z.mod_small x) by lia. f_equal.
    destruct j as [|j]; cbn [st].
    - cbn [Z.of_nat]. rewrite (take_S_r l 0 x Hx). reflexivity.
    - rewrite (take_S_r l (S j) x Hx). rewrite <- store_app by (cbn; lia). do 2 f_equal.
      rewrite length_take. unfold n in Hj. lia. }
  erewrite bind_ok by exact Loop. exists (st n), w. split; [reflexivity|]. apply (owned_later h h1); [exact X|].
  pose proof (Own n ltac:(lia)) as F. rewrite take_ge, drop_ge, app_nil_r in F by (rewrite ?length_replicate; unfold n; lia). exact F.
Qed.

Lemma same_elements_run h a b : view_ok h a -> view_ok h b -> heap_ok h -> vlen a = vlen b -> forall n, (n <= Z.to_nat (vlen a))%nat ->
  same_elements a b (indices (vlen a - Z.of_nat n) (vlen a) 1) h =
    (h, Ok (bool_decide (drop (Z.to_nat (vlen a) - n) (bytes h a) = drop (Z.to_nat (vlen a) - n) (bytes h b)))).
Proof.
  intros Ha Hb Hh E. pose proof (length_bytes h a Ha) as La. pose proof (length_bytes h b Hb) as Lb.
  induction n as [|n IH]; intros Hn.
  - rewrite indices_nil by lia. rewrite !drop_ge by lia. rewrite bool_decide_eq_true_2 by reflexivity. reflexivity.
  - rewrite indices_cons by lia. cbn [same_elements]. set (i := vlen a - Z.of_nat (S n)).
    assert (Hi : 0 <= i < vlen a) by (unfold i; lia).
    erewrite bind_ok by (apply get_run; [exact Ha|lia]). erewrite bind_ok by (apply get_run; [exact Hb|lia]).
    destruct (elt_inside h a i Ha Hi) as (x & Ex & Lx). destruct (elt_inside h b i Hb ltac:(lia)) as (y & Ey & Ly).
    unfold byte_at. rewrite Ex, Ey. change (default 0 (Some x)) with x. change (default 0 (Some y)) with y.
    pose proof (Forall_byte_lookup _ _ _ (heap_ok_bytes h a Hh) Lx) as Bx.
    pose proof (Forall_byte_lookup _ _ _ (heap_ok_bytes h b Hh) Ly) as By. unfold byte in Bx, By.
    rewrite strict_eq_num by lia. replace (Z.to_nat (vlen a) - S n)%nat with (Z.to_nat i) by (unfold i; lia).
    rewrite (drop_S _ _ _ Lx), (drop_S _ _ _ Ly). destruct (Z.eqb_spec x y) as [->|N]; cbn [negb].
    + replace (i + 1) with (vlen a - Z.of_nat n) by (unfold i; lia). rewrite IH by lia.
      replace (Z.to_nat (vlen a) - n)%nat with (S (Z.to_nat i)) by (unfold i; lia).
      do 2 f_equal. apply bool_decide_ext. split; [intros ->; reflexivity|intros [= ->]; reflexivity].
    + rewrite bool_decide_eq_false_2; [reflexivity|]. intros [= ? _]. contradiction.
Qed.

(** [equalBuffers] compares the bytes of two buffers and changes none. *)
Lemma equalBuffers_run h a b : heap_ok h -> buffer_ok h a -> buffer_ok h b ->
  exists h', equalBuffers a b h = (h', Ok (bool_decide (contents h a = contents h b))) /\ extends h h' /\ heap_ok h'.
Proof.
  intros Hh Ha Hb. pose proof (contents_length h a Ha) as La. pose proof (contents_length h b Hb) as Lb.
  unfold equalBuffers. rewrite (bind_ok _ _ _ _ _ (buffer_length_run h a Ha)), (bind_ok _ _ _ _ _ (buffer_length_run h b Hb)).
  rewrite strict_eq_num by lia. destruct (Z.eqb_spec (Z.of_nat (length (contents h a))) (Z.of_nat (length (contents h b)))) as [E|N];
    cbn [negb].
  2: { exists h. rewrite bool_decide_eq_false_2 by congruence. split; [reflexivity|]. split; [reflexivity|exact Hh]. }
  destruct (new_Uint8Array_run h a Hh Ha) as (h1 & av & E1 & X1 & H1 & V1 & B1 & L1).
  destruct (buffer_extends h h1 b X1 Hb) as [Hb1 Cb1].
  destruct (new_Uint8Array_run h1 b H1 Hb1) as (h2 & bv & E2 & X2 & H2 & V2 & B2 & L2).
  assert (X : extends h h2) by (etransitivity; eassumption).
  destruct (buffer_extends h h2 a X Ha) as [Ha2 Ca2]. destruct (extends_view h1 h2 av X2 V1) as [V1' B1'].
  rewrite (bind_ok _ _ _ _ _ E1), (bind_ok _ _ _ _ _ E2), (bind_ok _ _ _ _ _ (buffer_length_run h2 a Ha2)), Ca2.
  cbn [num_of]. rewrite to_integer_of_Z by lia. exists h2. split; [|auto].
  rewrite Cb1 in L2, B2.
  pose proof (same_elements_run h2 av bv V1' V2 H2 ltac:(lia) (Z.to_nat (vlen av)) ltac:(lia)) as R.
  rewrite Z2Nat.id, Z.sub_diag, Nat.sub_diag, L1 in R by lia. rewrite R, !drop_0, B1', B1, B2. reflexivity.
Qed.

Lemma typed_slice_run h v n : heap_ok h -> view_ok h v -> exists h' w,
  typed_slice v n h = (h', Ok w) /\ owned h h' w (drop (Z.to_nat n) (bytes h v)).
Proof.
  intros Hh Hv. pose proof (length_bytes h v Hv) as L. destruct Hv as (_ & _ & _ & L4 & _).
  eexists _, _. split; [reflexivity|]. apply owned_new; [exact Hh|apply Forall_drop, heap_ok_bytes, Hh|rewrite length_drop; lia].
Qed.

Lemma new_ab_run h l : heap_ok h -> Forall byte l -> Z.of_nat (length l) < 2 ^ 32 -> exists h' a,
  new_ab l h = (h', Ok a) /\ extends h h' /\ heap_ok h' /\ buffer_ok h' (VArrayBuffer a) /\ contents h' (VArrayBuffer a) = l.
Proof.
  intros Hh B L. eexists _, _. split; [reflexivity|]. cbn [contents buffer_ok]. unfold ab_bytes. cbn [mem fresh].
  rewrite lookup_insert_eq. split; [|split; [|split; [|reflexivity]]].
  - split; [|cbn; lia]. cbn. apply insert_subseteq, heap_ok_fresh; [exact Hh|lia].
  - intros a k. cbn [mem fresh]. destruct (decide (a = fresh h)) as [->|N].
    + rewrite lookup_insert_eq. intros [= <-]. split; [exact B|lia].
    + rewrite lookup_insert_ne by congruence. intros E. apply Hh in E as [E1 E2]. split; [exact E1|lia].
  - split; [discriminate|exact L].
Qed.
