(* ===== verification/HmacTest.v ===== *)
(** The test of HMAC (test-suite/js-test-app/src/test-files/16.1-crypto-hmac.js):
    eight ways to call [subtle.importKey], [sign] and [verify], each tried on four
    vectors, all at the same time.

    The vectors are objects the chains share: an import writes the [key] of its
    vector, and a later callback of any chain of that vector reads it.
    [crypto.subtle] is native and is an argument ([subtle]); what it answers may
    depend on the bytes of a buffer when it is called and when it answers. *)

From Stdlib Require Import String.
From stdpp Require Import base numbers list gmap relations.
From S2P Require Import Prelude JsNumber JsValue Streams TestSuite Async PromiseTest ByteBuffers.

Local Open Scope Z_scope.
Local Open Scope js_scope.

(** ** The native functions *)

(** A buffer argument: its bytes when the function is called, and when its
    promise settles. *)
Record arg : Type := Arg { at_call : list Z; at_end : list Z }.

(** The same bytes at both times. *)
Definition still (l : list Z) : arg := Arg l l.

(** [crypto.subtle] with keys in [K]; a rejection is an error with its message, a
    [null] key is [None]. *)
Record subtle (K : Type) : Type := Subtle {
  importKey : jsstr -> arg -> jsstr -> jsstr -> bool -> list jsstr -> outcome jsstr K;
  verify : jsstr -> jsstr -> option K -> arg -> arg -> outcome jsstr val;
  sign : jsstr -> jsstr -> option K -> arg -> outcome jsstr (list Z) }.
Arguments importKey {K}. Arguments verify {K}. Arguments sign {K}.

(** ** The test vectors *)

(** The names the objects [raw] and [signatures] have as keys. *)
Inductive hash_name : Type := SHA_1 | SHA_256 | SHA_384 | SHA_512.

Definition hash_text (h : hash_name) : jsstr :=
  js match h with SHA_1 => "SHA-1" | SHA_256 => "SHA-256" | SHA_384 => "SHA-384" | SHA_512 => "SHA-512" end.

Definition hash_names : list hash_name := [SHA_1; SHA_256; SHA_384; SHA_512].

Definition plaintext_data : list Z :=
  [95; 77; 186; 79; 50; 12; 12; 232; 118; 114; 90; 252; 229; 251; 210; 91; 248; 62; 90; 113; 37; 160; 140; 175; 231;
   60; 62; 186; 196; 33; 119; 157; 249; 213; 93; 24; 12; 58; 233; 148; 38; 69; 225; 216; 47; 238; 140; 157; 41; 75;
   60; 177; 160; 138; 153; 49; 32; 27; 60; 14; 129; 252; 71; 202; 207; 131; 21; 162; 175; 102; 50; 65; 19; 195; 182;
   98; 48; 195; 70; 8; 196; 244; 89; 54; 52; 206; 2; 178; 103; 54; 34; 119; 240; 168; 64; 202; 116; 188; 61; 26; 98;
   54; 149; 44; 94; 215; 170; 248; 168; 254; 203; 221; 250; 117; 132; 230; 151; 140; 234; 93; 42; 91; 159; 183; 241;
   180; 140; 139; 11; 229; 138; 48; 82; 2; 117; 77; 131; 118; 16; 115; 116; 121; 60; 240; 38; 170; 238; 83; 0; 114;
   125; 131; 108; 215; 30; 113; 179; 69; 221; 178; 228; 68; 70; 255; 197; 185; 1; 99; 84; 19; 137; 13; 145; 14; 163;
   128; 152; 74; 144; 25; 16; 49; 50; 63; 22; 219; 204; 157; 107; 225; 104; 184; 72; 133; 56; 76; 160; 62; 18; 96;
   10; 193; 194; 72; 2; 138; 243; 114; 108; 201; 52; 99; 136; 46; 168; 192; 42; 171].

Definition raw_data (h : hash_name) : list Z :=
  match h with
  | SHA_1 =>
      [71; 162; 7; 70; 209; 113; 121; 219; 101; 224; 167; 157; 237; 255; 199; 253; 241; 129; 8; 27]
  | SHA_256 =>
      [229; 136; 236; 8; 17; 70; 61; 118; 114; 65; 223; 16; 116; 180; 122; 228; 7; 27; 81; 242; 206; 54; 83; 123; 166;
       156; 205; 195; 253; 194; 183; 168]
  | SHA_384 =>
      [107; 29; 162; 142; 171; 31; 88; 42; 217; 113; 142; 255; 224; 94; 35; 213; 253; 44; 152; 119; 162; 217; 68; 63;
       144; 190; 192; 147; 190; 206; 46; 167; 210; 53; 76; 208; 189; 197; 225; 71; 210; 233; 0; 147; 115; 73; 68; 136]
  | SHA_512 =>
      [93; 204; 53; 148; 67; 170; 246; 82; 250; 19; 117; 214; 179; 230; 31; 220; 242; 155; 180; 162; 139; 213; 211;
       220; 250; 64; 248; 47; 144; 107; 178; 128; 4; 85; 219; 3; 181; 211; 31; 185; 114; 161; 90; 109; 1; 3; 162; 78;
       86; 209; 86; 161; 25; 192; 229; 161; 233; 42; 68; 195; 197; 101; 124; 249]
  end.

Definition signature_data (h : hash_name) : list Z :=
  match h with
  | SHA_1 =>
      [5; 51; 144; 42; 153; 248; 82; 78; 229; 10; 240; 29; 56; 222; 220; 225; 51; 217; 140; 160]
  | SHA_256 =>
      [133; 164; 12; 234; 46; 7; 140; 40; 39; 163; 149; 63; 251; 102; 194; 123; 41; 26; 71; 43; 13; 112; 160; 0; 11;
       69; 216; 35; 128; 62; 235; 84]
  | SHA_384 =>
      [33; 124; 61; 80; 240; 186; 154; 109; 110; 174; 30; 253; 215; 165; 24; 254; 46; 56; 128; 181; 130; 164; 13; 6;
       30; 144; 153; 193; 224; 38; 239; 88; 130; 84; 139; 93; 92; 236; 221; 85; 152; 217; 155; 107; 111; 48; 87; 255]
  | SHA_512 =>
      [97; 251; 39; 140; 63; 251; 12; 206; 43; 241; 207; 114; 61; 223; 216; 239; 31; 147; 28; 12; 97; 140; 37; 144;
       115; 36; 96; 89; 57; 227; 249; 162; 198; 244; 175; 105; 11; 218; 52; 7; 220; 47; 87; 112; 246; 160; 164; 75;
       149; 77; 100; 163; 50; 227; 238; 8; 33; 171; 248; 43; 127; 62; 153; 193]
  end.

(** A vector object: its constant fields and where its [key] is. *)
Record vector : Type := Vector {
  name : jsstr; hash : hash_name; keyBuffer : view; plaintext : view; signature : view; key_slot : nat }.

Section Hmac.
Context {K : Type} (crypto : subtle K).

(** The array buffers and the [key] fields. *)
Record world : Type := World { buffers : heap; keys : list (option K) }.

Abbreviation Run A := (comp world thrown A).
Abbreviation Chain A := (async world thrown A).
Abbreviation Starts A := (starts world thrown A).

Definition on_buffers {A} (m : M A) : Run A :=
  fun w => match m (buffers w) with
           | (h, Ok a) => (World h (keys w), Ok a)
           | (h, Throw e) => (World h (keys w), Throw (Library e))
           end.

(** A new object, with a [key]; [vector.key] read and written. *)
Definition new_vector (name : jsstr) (hash : hash_name) (keyBuffer plaintext signature : view) (key : option K) : Run vector :=
  fun w => (World (buffers w) (keys w ++ [key]), Ok (Vector name hash keyBuffer plaintext signature (length (keys w)))).

Definition get_key (v : vector) (w : world) : option K := mjoin (keys w !! key_slot v).
Definition set_key (v : vector) (key : K) : Run unit := modify (fun w => World (buffers w) (<[key_slot v := Some key]> (keys w))).

(** [Object.assign({}, v)]. *)
Definition assign (v : vector) : Run vector :=
  fun w => new_vector (name v) (hash v) (keyBuffer v) (plaintext v) (signature v) (get_key v w) w.

Definition new_arrays (data : hash_name -> list Z) : Run (hash_name -> view) :=
  let! a := on_buffers (new_buffer false (data SHA_1)) in
  let! b := on_buffers (new_buffer false (data SHA_256)) in
  let! c := on_buffers (new_buffer false (data SHA_384)) in
  let! d := on_buffers (new_buffer false (data SHA_512)) in
  ret (fun h => match h with SHA_1 => a | SHA_256 => b | SHA_384 => c | SHA_512 => d end).

Fixpoint push_vectors (plaintext : view) (raw signatures : hash_name -> view) (names : list hash_name) : Run (list vector) :=
  match names with
  | [] => ret []
  | h :: names =>
      let! v := new_vector (js "HMAC with " ++ hash_text h) h (raw h) plaintext (signatures h) None in
      let! vs := push_vectors plaintext raw signatures names in
      ret (v :: vs)
  end.

Definition getTestVectors : Run (list vector) :=
  let! plaintext := on_buffers (new_buffer false plaintext_data) in
  let! raw := new_arrays raw_data in
  let! signatures := new_arrays signature_data in
  push_vectors plaintext raw signatures hash_names.

(** ** Calls of the native functions *)

Definition settled_as {A} (r : outcome jsstr A) : outcome thrown A :=
  match r with Ok a => Ok a | Throw m => Throw (native_error m) end.

(** A buffer argument of a call in [w] that settles in [w']. *)
Definition argument (v : val) (w w' : world) : arg := Arg (contents (buffers w) v) (contents (buffers w') v).

Definition subtle_importKey (format : jsstr) (key : val) (alg : jsstr) (h : hash_name) (extractable : bool) (usages : list jsstr) :
    Starts K :=
  fun w => (w, native (fun w' => (w', settled_as (importKey crypto format (argument key w w') alg (hash_text h) extractable usages)))).

Definition subtle_verify (alg : jsstr) (h : hash_name) (key : option K) (signature data : val) : Starts val :=
  fun w => (w, native (fun w' =>
    (w', settled_as (verify crypto alg (hash_text h) key (argument signature w w') (argument data w w'))))).

(** The signature is a new array buffer. *)
Definition subtle_sign (alg : jsstr) (h : hash_name) (key : option K) (data : val) : Starts val :=
  fun w => (w, native (fun w' =>
    match sign crypto alg (hash_text h) key (argument data w w') with
    | Ok l => (let! a := on_buffers (new_ab l) in ret (VArrayBuffer a)) w'
    | Throw m => (w', Throw (native_error m))
    end)).

Definition importVectorKeys (v : vector) (keyUsages : list jsstr) : Starts vector :=
  fun w => match get_key v w with
           | Some _ => (w, Settled (Ok v))
           | None => await_call (subtle_importKey (js "raw") (VView (keyBuffer v)) (js "HMAC") (hash v) false keyUsages)
                       (fun key => at_once (do! set_key v key in ret v)) w
           end.

(** ** The tests *)

(** [f().then(onFulfilled, onRejected)]. *)
Definition call_then {A B} (f : Starts A) (onFulfilled : A -> Starts B) (onRejected : thrown -> Starts B) : Starts B :=
  fun w => let '(w', p) := f w in (w', then_ p onFulfilled onRejected).

(** [v[0] = 255 - v[0]]. *)
Definition invert_first (v : view) : M unit := let! x := getn v 0 in put v 0 (fsub (of_Z 255) x).

Definition named (v : vector) (suffix : string) : val := Str (name v ++ js suffix).

(** What every test does with an import that failed. *)
Definition import_step (v : vector) (suffix : string) (err : thrown) : Starts unit :=
  promise_test_chain
    (fun _ => check (unreached ([Text "importVectorKeys failed for "; PVal (Str (name v)); Text ". Message: ''"]
                                  ++ error_message err ++ [Text "''"])))
    (Str (js "importVectorKeys step: " ++ name v ++ js suffix)).

(** [subtle.verify(...).then(function (is_verified) {...}, function (err) {...})]. *)
Definition verify_then (v : vector) (signature data : view) (checks : val -> result) : Starts unit :=
  fun w => call_then (subtle_verify (js "HMAC") (hash v) (get_key v w) (VView signature) (VView data))
    (fun is_verified => check (checks is_verified))
    (fun err => check (unreached ([Text "Verification should not throw error "; PVal (Str (name v)); Text ": "]
                                    ++ error_message err ++ [Text "'"]))) w.

Definition both_usages : list jsstr := [js "verify"; js "sign"].

Definition verification (v : vector) : Starts unit :=
  call_then (importVectorKeys v both_usages)
    (fun v => promise_test_chain
       (fun _ => verify_then v (signature v) (plaintext v)
                   (fun is_verified => assert_true is_verified (Str (js "Signature verified"))))
       (named v " verification"))
    (import_step v " verification").

(** The promise of the [promise_test] in the rejection callback is not returned. *)
Definition altered_signature_after_call (v : vector) : Starts unit :=
  call_then (importVectorKeys v both_usages)
    (fun v => promise_test_chain
       (fun _ => first (on_buffers (copyBuffer (VView (signature v)))) (fun signature w =>
          let '(w', operation) :=
            verify_then v signature (plaintext v)
              (fun is_verified => assert_true is_verified (Str (js "Signature is not verified"))) w in
          first (on_buffers (invert_first signature)) (fun _ w => (w, operation)) w'))
       (named v " verification with altered signature after call"))
    (fun err w => let '(w', _) := import_step v " verification with altered signature after call" err w in
                  (w', Settled (Ok tt))).

Definition altered_plaintext_after_call (v : vector) : Starts unit :=
  call_then (importVectorKeys v both_usages)
    (fun v => promise_test_chain
       (fun _ => first (on_buffers (copyBuffer (VView (plaintext v)))) (fun plaintext w =>
          let '(w', operation) :=
            verify_then v (signature v) plaintext
              (fun is_verified => assert_true is_verified (Str (js "Signature verified"))) w in
          first (on_buffers (invert_first plaintext)) (fun _ w => (w, operation)) w'))
       (named v " with altered plaintext after call"))
    (import_step v " with altered plaintext").

(** The text of the fulfilled callback reads [err], which is not defined there. *)
Definition no_verify_usage (originalVector : vector) : Starts unit :=
  first (assign originalVector) (fun v =>
    call_then (importVectorKeys v [js "sign"])
      (fun v => promise_test_chain
         (fun _ w => call_then (subtle_verify (js "HMAC") (hash v) (get_key v w) (VView (signature v)) (VView (plaintext v)))
            (fun _ => check (Throw (LangError "ReferenceError" "err is not defined")))
            (fun _ => at_once (ret tt)) w)
         (named v " no verify usage"))
      (import_step v " no verify usage")).

Definition round_trip (v : vector) : Starts unit :=
  call_then (importVectorKeys v both_usages)
    (fun _ => promise_test_chain
       (fun _ w => await_call (subtle_sign (js "HMAC") (hash v) (get_key v w) (VView (plaintext v)))
          (fun new_signature =>
             first (on_buffers (equalBuffers new_signature (VView (signature v)))) (fun equal =>
             first (fun w => (w, assert_true (Bool equal) (Str (js "Signing did not give the expected output")))) (fun _ w =>
             call_then (subtle_verify (js "HMAC") (hash v) (get_key v w) new_signature (VView (plaintext v)))
               (fun is_verified => check (assert_true is_verified (Str (js "Round trip verifies"))))
               (fun err => check (unreached ([Text "verify error for test "; PVal (Str (name v)); Text ": "]
                                               ++ error_message err ++ [Text "'"]))) w))) w)
       (named v " round trip"))
    (import_step v " round trip").

Definition wrong_plaintext (v : vector) : Starts unit :=
  call_then (importVectorKeys v both_usages)
    (fun v => first (on_buffers (let! plaintext := copyBuffer (VView (plaintext v)) in
                                 do! invert_first plaintext in ret plaintext)) (fun plaintext =>
       promise_test_chain
         (fun _ => verify_then v (signature v) plaintext
                     (fun is_verified => assert_false is_verified (Str (js "Signature is NOT verified"))))
         (named v " verification failure due to wrong plaintext")))
    (import_step v " verification failure due to wrong plaintext").

Definition wrong_signature (v : vector) : Starts unit :=
  call_then (importVectorKeys v both_usages)
    (fun v => first (on_buffers (let! signature := copyBuffer (VView (signature v)) in
                                 do! invert_first signature in ret signature)) (fun signature =>
       promise_test_chain
         (fun _ => verify_then v signature (plaintext v)
                     (fun is_verified => assert_false is_verified (Str (js "Signature is NOT verified"))))
         (named v " verification failure due to wrong signature")))
    (import_step v " verification failure due to wrong signature").

Definition short_signature (v : vector) : Starts unit :=
  call_then (importVectorKeys v both_usages)
    (fun v => first (on_buffers (typed_slice (signature v) 1)) (fun signature =>
       promise_test_chain
         (fun _ => verify_then v signature (plaintext v)
                     (fun is_verified => assert_false is_verified (Str (js "Signature is NOT verified"))))
         (named v " verification failure due to short signature")))
    (import_step v " verification failure due to short signature").

(** ** The handler *)

(** [testVectors.forEach(function (vector) { all_promises.push(...) })]. *)
Fixpoint push_each (test : vector -> Starts unit) (vs : list vector) : Run (list (Chain unit)) :=
  match vs with
  | [] => ret []
  | v :: vs => fun w => let '(w', promise) := test v w in (let! ps := push_each test vs in ret (promise :: ps)) w'
  end.

Fixpoint push_all (tests : list (vector -> Starts unit)) (vs : list vector) : Run (list (Chain unit)) :=
  match tests with
  | [] => ret []
  | test :: tests => let! ps := push_each test vs in let! qs := push_all tests vs in ret (ps ++ qs)
  end.

Definition tests : list (vector -> Starts unit) :=
  [verification; altered_signature_after_call; altered_plaintext_after_call; no_verify_usage; round_trip;
   wrong_plaintext; wrong_signature; short_signature].

(** [handleRequest] up to its first [await], from the store it finds; and the
    response, once the loop over [all_promises] has come to its end. *)
Definition all_promises (h : heap) : world * outcome thrown (list (Chain unit)) :=
  (let! testVectors := getTestVectors in push_all tests testVectors) (World h []).

Definition response (P : pool (S := world) (E := thrown) unit) : option (Z * (string + thrown)) := option_map respond (await_each (promises P)).

End Hmac.
