(* ===== verification/HmacFacts.v ===== *)
(** What the test of HMAC accepts: in every order the promises may settle in, the
    response is the same, and it is a success exactly when the native functions
    do what the test is about. *)

From Stdlib Require Import SpecFloat String.
From stdpp Require Import base numbers list gmap relations.
From S2P Require Import Prelude JsNumber JsValue BufferCoreFacts Streams TestSuite Async PromiseTest ByteBuffers HmacTest.

Local Open Scope Z_scope.
Local Open Scope js_scope.

(** ** The bytes the test works on *)

Definition inverted (l : list Z) : list Z := match l with [] => [] | x :: l => 255 - x :: l end.

Lemma invert_first_run h0 h v l : owned h0 h v l ->
  exists h', invert_first v h = (h', Ok tt) /\ owned h0 h' v (inverted l).
Proof.
  intros O. pose proof O as [F1 F2 F3 F4 F5]. pose proof (length_bytes h v F2) as L. rewrite F3 in L.
  pose proof (heap_ok_bytes h v F1) as B. rewrite F3 in B. unfold invert_first, getn. destruct l as [|x l].
  - exists h. split; [|exact O]. erewrite bind_ok by reflexivity. apply put_run_out. cbn in L. lia.
  - apply Forall_cons in B as [B _]. unfold byte in B. cbn in L. erewrite bind_ok by reflexivity.
    unfold elt. rewrite F3. change (zget (x :: l) 0) with (Some x). cbv iota.
    rewrite fsub_of_Z by lia. rewrite put_run by lia. rewrite ToUint8_of_Z, Z.mod_small by lia.
    eexists. split; [reflexivity|]. change (inverted (x :: l)) with (splice 0 [255 - x] (x :: l)).
    apply owned_store; [exact O|lia|cbn; lia|]. repeat constructor; lia.
Qed.

Lemma raw_bytes h : Forall byte (raw_data h).
Proof. apply (bool_decide_unpack _). destruct h; vm_compute; exact I. Qed.
Lemma signature_bytes h : Forall byte (signature_data h).
Proof. apply (bool_decide_unpack _). destruct h; vm_compute; exact I. Qed.
Lemma plaintext_bytes : Forall byte plaintext_data.
Proof. apply (bool_decide_unpack _). vm_compute. exact I. Qed.

Section Facts.
Context {K : Type} (crypto : subtle K).

(** A signature is an array of bytes. *)
Hypothesis signs_bytes : forall alg h key data l,
  sign crypto alg h key data = Ok l -> Forall byte l /\ Z.of_nat (length l) < 2 ^ 32.

Abbreviation W := (@world K).
Abbreviation Chain A := (async W thrown A).
Abbreviation Starts A := (starts W thrown A).

(** ** What the test asks the native functions *)

Definition imported (usages : list jsstr) (h : hash_name) : outcome jsstr K :=
  importKey crypto (js "raw") (still (raw_data h)) (js "HMAC") (hash_text h) false usages.

Definition verified (key : K) (h : hash_name) (signature data : arg) : outcome jsstr val :=
  verify crypto (js "HMAC") (hash_text h) (Some key) signature data.

Definition signed (key : K) (h : hash_name) : outcome jsstr (list Z) :=
  sign crypto (js "HMAC") (hash_text h) (Some key) (still plaintext_data).

(** ** What the chains keep

    The slots of the four shared vectors come first, then those of the copies
    [no_verify_usage] makes. *)
Definition slot_usages (slot : nat) : list jsstr := if (slot <? 4)%nat then both_usages else [js "sign"].
Definition wanted (slot : nat) : option K :=
  match hash_names !! (slot mod 4)%nat with
  | Some h => match imported (slot_usages slot) h with Ok k => Some k | Throw _ => None end
  | None => None
  end.

Definition inv (w : W) : Prop :=
  heap_ok (buffers w) /\ forall c k, keys w !! c = Some (Some k) -> wanted c = Some k.

Definition later (w w' : W) : Prop :=
  extends (buffers w) (buffers w') /\ (length (keys w) <= length (keys w'))%nat /\
  forall c k, keys w !! c = Some (Some k) -> keys w' !! c = Some (Some k).

#[local] Instance later_preorder : PreOrder later.
Proof.
  split; [intros w; split; [reflexivity|split; [lia|auto]]|].
  intros a b c (A1 & A2 & A3) (B1 & B2 & B3). split; [etransitivity; eassumption|]. split; [lia|auto].
Qed.

Abbreviation stable := (stable later).
Abbreviation starts_ok := (starts_ok inv later).
Abbreviation settles := (settles inv later).

(** A step that only adds array buffers. *)
Lemma grows (w : W) h : inv w -> extends (buffers w) h -> heap_ok h -> later w (World h (keys w)) /\ inv (World h (keys w)).
Proof. intros [_ Ik] X Hh. split; [split; [exact X|split; [cbn; lia|auto]]|split; [exact Hh|exact Ik]]. Qed.

Lemma on_buffers_run {A} (m : M A) (w : W) h (a : A) : m (buffers w) = (h, Ok a) -> on_buffers m w = (World h (keys w), Ok a).
Proof. intros E. unfold on_buffers. rewrite E. reflexivity. Qed.

(** The vector of a hash, with the usages its key is imported with. *)
Definition vector_ok (usages : list jsstr) (v : vector) (w : W) : Prop :=
  (key_slot v < length (keys w))%nat /\
  wanted (key_slot v) = match imported usages (hash v) with Ok k => Some k | Throw _ => None end /\
  name v = js "HMAC with " ++ hash_text (hash v) /\
  (view_ok (buffers w) (keyBuffer v) /\ bytes (buffers w) (keyBuffer v) = raw_data (hash v)) /\
  (view_ok (buffers w) (plaintext v) /\ bytes (buffers w) (plaintext v) = plaintext_data) /\
  (view_ok (buffers w) (signature v) /\ bytes (buffers w) (signature v) = signature_data (hash v)).

Lemma view_later w w' v l : later w w' -> view_ok (buffers w) v /\ bytes (buffers w) v = l ->
  view_ok (buffers w') v /\ bytes (buffers w') v = l.
Proof. intros [X _] [V <-]. apply (extends_view _ _ v X V). Qed.

Lemma vector_stable usages v : stable (vector_ok usages v).
Proof.
  intros w w' L (H1 & H2 & H3 & H4 & H5 & H6). pose proof L as (_ & Ln & _).
  split; [lia|]. split; [exact H2|]. split; [exact H3|]. split; [|split]; eapply view_later; eassumption.
Qed.

(** The key is there: what a vector's callbacks rely on. *)
Definition has_key (v : vector) (k : K) (w : W) : Prop := get_key v w = Some k.

Lemma key_stable v k : stable (has_key v k).
Proof.
  intros w w' (_ & _ & L). unfold has_key, get_key. destruct (keys w !! key_slot v) as [[k'|]|] eqn:E; try discriminate.
  intros [= ->]. rewrite (L _ _ E). reflexivity.
Qed.

(** ** The import *)

Definition import_result (usages : list jsstr) (v : vector) : outcome thrown vector :=
  match imported usages (hash v) with Ok _ => Ok v | Throw m => Throw (native_error m) end.

Definition import_done (usages : list jsstr) (v : vector) (w : W) : Prop :=
  forall k, imported usages (hash v) = Ok k -> has_key v k w.

Lemma import_done_stable usages v : stable (import_done usages v).
Proof. intros w w' L H k E. eapply key_stable; [exact L|apply H, E]. Qed.

Lemma import_native usages v w0 : vector_ok usages v w0 ->
  starts_ok anything w0 (subtle_importKey crypto (js "raw") (VView (keyBuffer v)) (js "HMAC") (hash v) false usages)
    (settled_as (imported usages (hash v))).
Proof.
  intros Hv. apply (starts_native inv later anything w0 (fun w w' => (w', settled_as (importKey crypto (js "raw")
    (argument (VView (keyBuffer v)) w w') (js "HMAC") (hash_text (hash v)) false usages)))).
  intros w1 w2 L1 _ L2 I2. exists w2. split; [|split; [reflexivity|split; [exact I2|exact I]]].
  destruct Hv as (_ & _ & _ & Kb & _). pose proof (view_later _ _ _ _ L1 Kb) as K1. pose proof (view_later _ _ _ _ L2 K1) as K2.
  unfold argument. cbn [contents]. rewrite (proj2 K1), (proj2 K2). reflexivity.
Qed.

Lemma set_key_run v k w usages : vector_ok usages v w -> imported usages (hash v) = Ok k -> inv w ->
  exists w', (do! set_key v k in ret v) w = (w', Ok v) /\ later w w' /\ inv w' /\ has_key v k w'.
Proof.
  intros (Hs & Wn & _) E [Hh Hk]. rewrite E in Wn. eexists. split; [reflexivity|]. split; [|split].
  - split; [reflexivity|]. cbn. rewrite length_insert. split; [lia|]. intros c k' Hc.
    destruct (decide (c = key_slot v)) as [->|N]; [|rewrite list_lookup_insert_ne by congruence; exact Hc].
    rewrite list_lookup_insert_eq by exact Hs. apply Hk in Hc. congruence.
  - split; [exact Hh|]. cbn. intros c k' Hc. destruct (decide (c = key_slot v)) as [->|N].
    + rewrite list_lookup_insert_eq in Hc by exact Hs. congruence.
    + rewrite list_lookup_insert_ne in Hc by congruence. apply Hk, Hc.
  - unfold has_key, get_key. cbn. rewrite list_lookup_insert_eq by exact Hs. reflexivity.
Qed.

Lemma import_ok usages v w0 : vector_ok usages v w0 ->
  starts_ok (import_done usages v) w0 (importVectorKeys crypto v usages) (import_result usages v).
Proof.
  intros Hv w1 L1 I1 w2 p E. pose proof (vector_stable usages v w0 w1 L1 Hv) as Hv1.
  unfold importVectorKeys in E. destruct (get_key v w1) as [k|] eqn:Ek.
  - injection E as <- <-. destruct Hv1 as (_ & Wn & _). pose proof Ek as Ek0. unfold get_key in Ek0.
    destruct (keys w1 !! key_slot v) as [[k'|]|] eqn:Ek'; try discriminate. injection Ek0 as ->.
    apply I1 in Ek'. rewrite Wn in Ek'. unfold import_result, import_done. destruct (imported usages (hash v)) as [k2|m]; [|discriminate].
    injection Ek' as ->. split; [reflexivity|]. split; [exact I1|]. constructor. intros k3 [= <-]. exact Ek.
  - revert w2 p E. refine ((_ : starts_ok _ w1 _ _) w1 (reflexivity w1) I1). eapply (starts_then inv later anything).
    + apply import_native, Hv1.
    + intros w2 L2 _. unfold import_result, settled_as. destruct (imported usages (hash v)) as [k|m] eqn:Ei.
      * apply starts_now. intros w3 L3 I3.
        destruct (set_key_run v k w3 usages) as (w4 & E4 & L4 & I4 & K4); [|exact Ei|exact I3|].
        { eapply vector_stable; [exact L3|]. eapply vector_stable; [exact L2|exact Hv1]. }
        exists w4. split; [exact E4|]. split; [exact L4|]. split; [exact I4|]. intros k3. rewrite Ei. intros [= <-]. exact K4.
      * apply starts_pure; [exact _|apply import_done_stable|]. intros k. rewrite Ei. discriminate.
Qed.
(** ** The result of each test *)

Definition title (h : hash_name) : jsstr := js "HMAC with " ++ hash_text h.

Definition import_failure (suffix : string) (h : hash_name) (m : jsstr) : result :=
  tested (js "importVectorKeys step: " ++ title h ++ js suffix)
    (Throw (NewError [Text "importVectorKeys failed for "; PVal (Str (title h)); Text ". Message: ''"; PVal (Str m); Text "''"])).

Definition verify_failure (before : string) (h : hash_name) (m : jsstr) : result :=
  Throw (NewError [Text before; PVal (Str (title h)); Text ": "; PVal (Str m); Text "'"]).

Definition accepted (r : outcome jsstr val) (checks : val -> result) (failure : jsstr -> result) : result :=
  match r with Ok b => checks b | Throw m => failure m end.

Definition imports (usages : list jsstr) (h : hash_name) (failure : jsstr -> result) (body : K -> result) : result :=
  match imported usages h with Ok k => body k | Throw m => failure m end.

(** A test that verifies, and what it says of the answer. *)
Definition verify_test (suffix failing : string) (signature data : hash_name -> arg) (checks : val -> result) (h : hash_name) : result :=
  imports both_usages h (import_failure failing h) (fun k =>
    tested (title h ++ js suffix)
      (accepted (verified k h (signature h) (data h)) checks (verify_failure "Verification should not throw error " h))).

Definition its_signature (h : hash_name) : arg := still (signature_data h).
Definition the_plaintext (h : hash_name) : arg := still plaintext_data.

Definition verification_result : hash_name -> result :=
  verify_test " verification" " verification" its_signature the_plaintext
    (fun b => assert_true b (Str (js "Signature verified"))).

Definition altered_signature_result (h : hash_name) : result :=
  imports both_usages h (fun _ => Ok tt) (fun k =>
    tested (title h ++ js " verification with altered signature after call")
      (accepted (verified k h (Arg (signature_data h) (inverted (signature_data h))) (the_plaintext h))
         (fun b => assert_true b (Str (js "Signature is not verified")))
         (verify_failure "Verification should not throw error " h))).

Definition altered_plaintext_result : hash_name -> result :=
  verify_test " with altered plaintext after call" " with altered plaintext"
    its_signature (fun _ => Arg plaintext_data (inverted plaintext_data))
    (fun b => assert_true b (Str (js "Signature verified"))).

Definition no_verify_result (h : hash_name) : result :=
  imports [js "sign"] h (import_failure " no verify usage" h) (fun k =>
    tested (title h ++ js " no verify usage")
      (accepted (verified k h (its_signature h) (the_plaintext h))
         (fun _ => Throw (LangError "ReferenceError" "err is not defined")) (fun _ => Ok tt))).

Definition round_trip_result (h : hash_name) : result :=
  imports both_usages h (import_failure " round trip" h) (fun k =>
    tested (title h ++ js " round trip")
      match signed k h with
      | Throw m => Throw (native_error m)
      | Ok l => if bool_decide (l = signature_data h)
                then accepted (verified k h (still l) (the_plaintext h))
                       (fun b => assert_true b (Str (js "Round trip verifies"))) (verify_failure "verify error for test " h)
                else Throw (NewError [PVal (Str (js "Signing did not give the expected output"))])
      end).

Definition not_verified (b : val) : result := assert_false b (Str (js "Signature is NOT verified")).

Definition wrong_plaintext_result : hash_name -> result :=
  verify_test " verification failure due to wrong plaintext" " verification failure due to wrong plaintext"
    its_signature (fun _ => still (inverted plaintext_data)) not_verified.
Definition wrong_signature_result : hash_name -> result :=
  verify_test " verification failure due to wrong signature" " verification failure due to wrong signature"
    (fun h => still (inverted (signature_data h))) the_plaintext not_verified.
Definition short_signature_result : hash_name -> result :=
  verify_test " verification failure due to short signature" " verification failure due to short signature"
    (fun h => still (drop 1 (signature_data h))) the_plaintext not_verified.

(** The results of all promises, in the order of [all_promises]. *)
Definition results : list (hash_name -> result) :=
  [verification_result; altered_signature_result; altered_plaintext_result; no_verify_result; round_trip_result;
   wrong_plaintext_result; wrong_signature_result; short_signature_result].

Definition all_results : list result := concat (map (fun r => map r hash_names) results).

(** ** Each chain gives its result *)

(** The callbacks on a verification, whatever the buffers held at the call. *)
Lemma operation_ok w k h (sg dt : val) c1 c2 e1 e2 (checks : val -> result) (err : thrown -> result) :
  buffer_ok (buffers w) sg -> contents (buffers w) sg = e1 -> buffer_ok (buffers w) dt -> contents (buffers w) dt = e2 ->
  settles anything w
    (then_ (native (fun w' => (w', settled_as (verify crypto (js "HMAC") (hash_text h) (Some k)
                                     (Arg c1 (contents (buffers w') sg)) (Arg c2 (contents (buffers w') dt))))))
       (fun b => check (checks b)) (fun e => check (err e)))
    (accepted (verified k h (Arg c1 e1) (Arg c2 e2)) checks (fun m => err (native_error m))).
Proof.
  intros V1 <- V2 <-. eapply (settles_then inv later anything).
  - apply settles_turn. intros w1 L1 I1 w2 p E.
    assert (R : settled_as (verify crypto (js "HMAC") (hash_text h) (Some k) (Arg c1 (contents (buffers w1) sg))
                              (Arg c2 (contents (buffers w1) dt))) =
                settled_as (verified k h (Arg c1 (contents (buffers w) sg)) (Arg c2 (contents (buffers w) dt)))).
    { destruct L1 as (X & _ & _). rewrite (proj2 (buffer_extends _ _ _ X V1)), (proj2 (buffer_extends _ _ _ X V2)). reflexivity. }
    rewrite R in E. injection E as <- <-. split; [reflexivity|]. split; [exact I1|]. constructor. exact I.
  - intros w' _ _. unfold verified. destruct (verify crypto _ _ _ _ _); apply check_ok.
Qed.

Lemma verify_then_ok w v k sg dt e1 e2 checks : has_key v k w -> name v = title (hash v) ->
  view_ok (buffers w) sg /\ bytes (buffers w) sg = e1 -> view_ok (buffers w) dt /\ bytes (buffers w) dt = e2 ->
  starts_ok anything w (verify_then crypto v sg dt checks)
    (accepted (verified k (hash v) (still e1) (still e2)) checks (verify_failure "Verification should not throw error " (hash v))).
Proof.
  intros Hk Hn V1 V2 w1 L1 I1 w2 p E. pose proof (key_stable _ _ _ _ L1 Hk) as Hk1.
  pose proof (view_later _ _ _ _ L1 V1) as [A1 A2]. pose proof (view_later _ _ _ _ L1 V2) as [B1 B2].
  unfold verify_then, call_then, subtle_verify in E. rewrite Hk1 in E. injection E as <- <-.
  split; [reflexivity|]. split; [exact I1|]. unfold argument. cbn [contents]. rewrite A2, B2.
  pose proof (operation_ok w1 k (hash v) (VView sg) (VView dt) e1 e2 e1 e2 checks
    (fun err => unreached ([Text "Verification should not throw error "; PVal (Str (name v)); Text ": "] ++ error_message err ++ [Text "'"]))
    A1 A2 B1 B2) as Op. rewrite Hn in Op. rewrite Hn. exact Op.
Qed.

(** A test: the import, then its body or its rejection callback. *)
Lemma test_ok usages v w0 (body : vector -> Starts unit) (handler : thrown -> Starts unit) (q : result) : vector_ok usages v w0 ->
  match imported usages (hash v) with
  | Ok k => forall w, vector_ok usages v w -> has_key v k w -> starts_ok anything w (body v) q
  | Throw m => forall w, starts_ok anything w (handler (native_error m)) q
  end ->
  starts_ok anything w0 (call_then (importVectorKeys crypto v usages) body handler) q.
Proof.
  intros Hv H. eapply (starts_then inv later (import_done usages v)); [apply import_ok, Hv|].
  intros w L D. unfold import_result. unfold import_done in D. destruct (imported usages (hash v)) as [k|m]; [|apply H].
  apply H; [eapply vector_stable; eassumption|apply D; reflexivity].
Qed.

Lemma import_step_ok v suffix m w : name v = title (hash v) ->
  starts_ok anything w (import_step v suffix (native_error m)) (import_failure suffix (hash v) m).
Proof. intros Hn. unfold import_step, import_failure. rewrite Hn. apply promise_test_ok, check_ok. Qed.

(** A copy made and changed in one turn, for what follows it. *)
Lemma first_copy (make : M view) w0 l (next : view -> Starts unit) r :
  (forall w, later w0 w -> inv w -> exists h v, make (buffers w) = (h, Ok v) /\ owned (buffers w) h v l) ->
  (forall w v, later w0 w -> view_ok (buffers w) v /\ bytes (buffers w) v = l -> starts_ok anything w (next v) r) ->
  starts_ok anything w0 (first (on_buffers make) next) r.
Proof.
  intros Hm Hn. eapply (starts_first inv later anything (fun v w => view_ok (buffers w) v /\ bytes (buffers w) v = l)).
  - intros w L I. destruct (Hm w L I) as (h & v & E & [O1 O2 O3 O4 O5]). destruct (grows w h I O4 O1) as [L' I'].
    exists (World h (keys w)), v. unfold on_buffers. rewrite E. auto.
  - intros v w L _ V. apply Hn; assumption.
Qed.

Lemma copy_altered_run h v : heap_ok h -> view_ok h v -> exists h' w,
  (let! copy := copyBuffer (VView v) in do! invert_first copy in ret copy) h = (h', Ok w) /\ owned h h' w (inverted (bytes h v)).
Proof.
  intros Hh Hv. destruct (copyBuffer_run h (VView v) Hh Hv) as (h1 & w & R & O).
  destruct (invert_first_run h h1 w _ O) as (h2 & R2 & O2). exists h2, w. split; [|exact O2].
  rewrite (bind_ok _ _ _ _ _ R). unfold bind. rewrite R2. reflexivity.
Qed.

(** Split a test at its import. *)
Ltac enter_test k w Hw Hk :=
  match goal with Hv : vector_ok ?usages ?v ?w0 |- _ =>
    let N := fresh "N" in
    assert (N : name v = title (hash v)) by apply Hv;
    apply (test_ok usages); [exact Hv|];
    unfold verify_test, imports; destruct (imported usages (hash v)) as [k|];
    [intros w Hw Hk|intros w; apply import_step_ok, N]
  end.

Lemma verification_ok v w0 : vector_ok both_usages v w0 ->
  starts_ok anything w0 (verification crypto v) (verification_result (hash v)).
Proof.
  intros Hv. unfold verification, verification_result. enter_test k w Hw Hk. unfold named. rewrite N.
  apply promise_test_ok, (verify_then_ok w v k); [exact Hk|exact N|apply Hw..].
Qed.

Lemma short_signature_ok v w0 : vector_ok both_usages v w0 ->
  starts_ok anything w0 (short_signature crypto v) (short_signature_result (hash v)).
Proof.
  intros Hv. unfold short_signature, short_signature_result. enter_test k w Hw Hk. unfold named. rewrite N.
  apply (first_copy _ w (drop 1 (signature_data (hash v)))).
  - intros w1 L I1. destruct Hw as (_ & _ & _ & _ & _ & S). destruct (view_later _ _ _ _ L S) as [S1 <-].
    apply typed_slice_run; [apply I1|exact S1].
  - intros w1 s L S. apply promise_test_ok, (verify_then_ok w1 v k); [eapply key_stable; eassumption|exact N|exact S|].
    eapply view_later; [exact L|]. apply Hw.
Qed.

Lemma wrong_signature_ok v w0 : vector_ok both_usages v w0 ->
  starts_ok anything w0 (wrong_signature crypto v) (wrong_signature_result (hash v)).
Proof.
  intros Hv. unfold wrong_signature, wrong_signature_result. enter_test k w Hw Hk. unfold named. rewrite N.
  apply (first_copy _ w (inverted (signature_data (hash v)))).
  - intros w1 L I1. destruct Hw as (_ & _ & _ & _ & _ & S). destruct (view_later _ _ _ _ L S) as [S1 <-].
    apply copy_altered_run; [apply I1|exact S1].
  - intros w1 s L S. apply promise_test_ok, (verify_then_ok w1 v k); [eapply key_stable; eassumption|exact N|exact S|].
    eapply view_later; [exact L|]. apply Hw.
Qed.

Lemma wrong_plaintext_ok v w0 : vector_ok both_usages v w0 ->
  starts_ok anything w0 (wrong_plaintext crypto v) (wrong_plaintext_result (hash v)).
Proof.
  intros Hv. unfold wrong_plaintext, wrong_plaintext_result. enter_test k w Hw Hk. unfold named. rewrite N.
  apply (first_copy _ w (inverted plaintext_data)).
  - intros w1 L I1. destruct Hw as (_ & _ & _ & _ & P & _). destruct (view_later _ _ _ _ L P) as [P1 <-].
    apply copy_altered_run; [apply I1|exact P1].
  - intros w1 s L P. apply promise_test_ok, (verify_then_ok w1 v k); [eapply key_stable; eassumption|exact N| |exact P].
    eapply view_later; [exact L|]. apply Hw.
Qed.
(** A buffer changed right after the call that was given it. *)
Lemma altered_ok w0 src l (call : view -> Starts unit) r :
  view_ok (buffers w0) src /\ bytes (buffers w0) src = l ->
  (forall w h1 h2 c, later w0 w -> later w (World h1 (keys w)) -> later w (World h2 (keys w)) ->
     view_ok h1 c /\ bytes h1 c = l -> view_ok h2 c /\ bytes h2 c = inverted l ->
     exists op, call c (World h1 (keys w)) = (World h1 (keys w), op) /\ settles anything (World h2 (keys w)) op r) ->
  starts_ok anything w0
    (first (on_buffers (copyBuffer (VView src))) (fun c w =>
       let '(w', op) := call c w in first (on_buffers (invert_first c)) (fun _ w => (w, op)) w')) r.
Proof.
  intros V H w L I w2 p E. destruct (view_later _ _ _ _ L V) as [V1 V2].
  destruct (copyBuffer_run (buffers w) (VView src) (proj1 I) V1) as (h1 & c & R1 & O1). cbn [contents] in O1. rewrite V2 in O1.
  destruct (invert_first_run _ _ _ _ O1) as (h2 & R2 & O2).
  destruct O1 as [A1 A2 A3 A4 _], O2 as [B1 B2 B3 B4 _].
  destruct (grows w h1 I A4 A1) as [L1 I1]. destruct (grows w h2 I B4 B1) as [L2 I2].
  destruct (H w h1 h2 c L L1 L2 (conj A2 A3) (conj B2 B3)) as (op & Ec & S).
  unfold first, on_buffers in E. rewrite R1, Ec in E. cbn [buffers] in E. rewrite R2 in E. injection E as <- <-. auto.
Qed.

Lemma altered_signature_ok v w0 : vector_ok both_usages v w0 ->
  starts_ok anything w0 (altered_signature_after_call crypto v) (altered_signature_result (hash v)).
Proof.
  intros Hv. unfold altered_signature_after_call, altered_signature_result.
  assert (N : name v = title (hash v)) by apply Hv. apply (test_ok both_usages); [exact Hv|]. unfold imports.
  destruct (imported both_usages (hash v)) as [k|m].
  - intros w Hw Hk. unfold named. rewrite N. apply promise_test_ok.
    destruct Hw as (_ & _ & _ & _ & P & S).
    apply (altered_ok w (signature v) (signature_data (hash v)) (fun c => verify_then crypto v c (plaintext v) _)); [exact S|].
    intros w1 h1 h2 c L L1 L2 C1 C2. pose proof (key_stable _ _ _ _ L Hk) as Hk1. pose proof (key_stable _ _ _ _ L1 Hk1) as Hk2.
    eexists. split; [unfold verify_then, call_then, subtle_verify; rewrite Hk2; reflexivity|].
    pose proof (view_later _ _ _ _ L P) as P0. destruct (view_later _ _ _ _ L1 P0) as [_ P1]. destruct (view_later _ _ _ _ L2 P0) as [P2 P2'].
    unfold argument. cbn [contents buffers] in *. rewrite (proj2 C1), P1. rewrite N.
    apply (operation_ok (World h2 (keys w1)) k (hash v) (VView c) (VView (plaintext v))); cbn [contents buffers buffer_ok];
      [apply C2|apply C2|exact P2|exact P2'].
  - intros w w1 L I1 w2 p E. pose proof (import_step_ok v " verification with altered signature after call" m w1 N w1 (reflexivity w1) I1) as St.
    destruct (import_step v _ (native_error m) w1) as [w' q] eqn:Es. injection E as <- <-.
    destruct (St w' q eq_refl) as (L2 & I2 & _). split; [exact L2|]. split; [exact I2|]. constructor. exact I.
Qed.

Lemma altered_plaintext_ok v w0 : vector_ok both_usages v w0 ->
  starts_ok anything w0 (altered_plaintext_after_call crypto v) (altered_plaintext_result (hash v)).
Proof.
  intros Hv. unfold altered_plaintext_after_call, altered_plaintext_result. enter_test k w Hw Hk. unfold named. rewrite N.
  apply promise_test_ok. destruct Hw as (_ & _ & _ & _ & P & S).
  apply (altered_ok w (plaintext v) plaintext_data (fun c => verify_then crypto v (signature v) c _)); [exact P|].
  intros w1 h1 h2 c L L1 L2 C1 C2. pose proof (key_stable _ _ _ _ L Hk) as Hk1. pose proof (key_stable _ _ _ _ L1 Hk1) as Hk2.
  eexists. split; [unfold verify_then, call_then, subtle_verify; rewrite Hk2; reflexivity|].
  pose proof (view_later _ _ _ _ L S) as S0. destruct (view_later _ _ _ _ L1 S0) as [_ S1]. destruct (view_later _ _ _ _ L2 S0) as [S2 S2'].
  unfold argument. cbn [contents buffers] in *. rewrite (proj2 C1), S1. rewrite N.
  apply (operation_ok (World h2 (keys w1)) k (hash v) (VView (signature v)) (VView c)); cbn [contents buffers buffer_ok];
    [exact S2|exact S2'|apply C2|apply C2].
Qed.

(** The part of [no_verify_usage] after the copy of the vector. *)
Definition no_verify_copy (v : vector) : Starts unit :=
  call_then (importVectorKeys crypto v [js "sign"])
    (fun v => promise_test_chain
       (fun _ w => call_then (subtle_verify crypto (js "HMAC") (hash v) (get_key v w) (VView (signature v)) (VView (plaintext v)))
          (fun _ => check (Throw (LangError "ReferenceError" "err is not defined")))
          (fun _ => at_once (ret tt)) w)
       (named v " no verify usage"))
    (import_step v " no verify usage").

Lemma no_verify_ok v w0 : vector_ok [js "sign"] v w0 -> starts_ok anything w0 (no_verify_copy v) (no_verify_result (hash v)).
Proof.
  intros Hv. unfold no_verify_copy, no_verify_result. enter_test k w Hw Hk. unfold named. rewrite N. apply promise_test_ok.
  intros w1 L1 I1 w2 p E. pose proof (key_stable _ _ _ _ L1 Hk) as Hk1. destruct Hw as (_ & _ & _ & _ & P & S).
  destruct (view_later _ _ _ _ L1 P) as [P1 P2]. destruct (view_later _ _ _ _ L1 S) as [S1 S2].
  unfold call_then, subtle_verify in E. rewrite Hk1 in E. injection E as <- <-. split; [reflexivity|]. split; [exact I1|].
  unfold argument. cbn [contents]. rewrite S2, P2.
  exact (operation_ok w1 k (hash v) (VView (signature v)) (VView (plaintext v)) _ _ _ _
    (fun _ => Throw (LangError "ReferenceError" "err is not defined")) (fun _ => Ok tt) S1 S2 P1 P2).
Qed.

(** The callback on a new signature. *)
Definition check_signature (v : vector) (new_signature : val) : Starts unit :=
  first (on_buffers (equalBuffers new_signature (VView (signature v)))) (fun equal =>
  first (fun w => (w, assert_true (Bool equal) (Str (js "Signing did not give the expected output")))) (fun _ w =>
  call_then (subtle_verify crypto (js "HMAC") (hash v) (get_key v w) new_signature (VView (plaintext v)))
    (fun is_verified => check (assert_true is_verified (Str (js "Round trip verifies"))))
    (fun err => check (unreached ([Text "verify error for test "; PVal (Str (title (hash v))); Text ": "]
                                    ++ error_message err ++ [Text "'"]))) w)).

Definition checked_signature (k : K) (h : hash_name) (l : list Z) : result :=
  if bool_decide (l = signature_data h)
  then accepted (verified k h (still l) (the_plaintext h))
         (fun b => assert_true b (Str (js "Round trip verifies"))) (verify_failure "verify error for test " h)
  else Throw (NewError [PVal (Str (js "Signing did not give the expected output"))]).

Lemma check_signature_ok v w k new l : vector_ok both_usages v w -> has_key v k w ->
  buffer_ok (buffers w) new -> contents (buffers w) new = l ->
  starts_ok anything w (check_signature v new) (checked_signature k (hash v) l).
Proof.
  intros Hv Hk Bn Cn. destruct Hv as (_ & _ & _ & _ & P & S).
  apply (starts_first inv later anything (fun eq _ => eq = bool_decide (l = signature_data (hash v)))).
  - intros w1 L I1. destruct (view_later _ _ _ _ L S) as [S1 S2]. destruct (buffer_extends _ _ new (proj1 L) Bn) as [B1 C1].
    destruct (equalBuffers_run (buffers w1) new (VView (signature v)) (proj1 I1) B1 S1) as (h & E & X & Hh).
    destruct (grows w1 h I1 X Hh) as [L2 I2]. unfold on_buffers. rewrite E. do 2 eexists. split; [reflexivity|].
    split; [exact L2|]. split; [exact I2|]. cbn [contents]. rewrite C1, Cn, S2. reflexivity.
  - intros eq w1 L I1 ->. unfold checked_signature. destruct (bool_decide (l = signature_data (hash v))); [|apply check_ok].
    intros w2 L2 I2 w3 p E. assert (L02 : later w w2) by (etransitivity; eassumption).
    pose proof (key_stable _ _ _ _ L02 Hk) as Hk2. destruct (view_later _ _ _ _ L02 P) as [P1 P2].
    destruct (buffer_extends _ _ new (proj1 L02) Bn) as [B2 C2]. rewrite Cn in C2.
    unfold first, call_then, subtle_verify in E. cbn in E. rewrite Hk2 in E. injection E as <- <-.
    split; [reflexivity|]. split; [exact I2|]. unfold argument. cbn [contents]. rewrite C2, P2.
    apply (operation_ok w2 k (hash v) new (VView (plaintext v)) _ _ _ _
      (fun b => assert_true b (Str (js "Round trip verifies")))
      (fun err => unreached ([Text "verify error for test "; PVal (Str (title (hash v))); Text ": "] ++ error_message err ++ [Text "'"])));
      assumption.
Qed.

Lemma round_trip_ok v w0 : vector_ok both_usages v w0 ->
  starts_ok anything w0 (round_trip crypto v) (round_trip_result (hash v)).
Proof.
  intros Hv. unfold round_trip, round_trip_result. enter_test k w Hw Hk. unfold named. rewrite N. apply promise_test_ok.
  intros w1 L1 I1 w2 p E. pose proof (key_stable _ _ _ _ L1 Hk) as Hk1. pose proof (vector_stable _ _ _ _ L1 Hw) as Hw1.
  pose proof (proj1 (proj2 (proj2 (proj2 (proj2 Hw1))))) as P1.
  unfold await_call, subtle_sign in E. rewrite Hk1 in E. injection E as <- <-. split; [reflexivity|]. split; [exact I1|].
  apply settles_turn. intros w2 L2 I2 w3 p E. pose proof (view_later _ _ _ _ L2 P1) as P2.
  unfold argument in E. cbn [contents] in E. rewrite (proj2 P1), (proj2 P2) in E.
  change (sign crypto (js "HMAC") (hash_text (hash v)) (Some k) (Arg plaintext_data plaintext_data)) with (signed k (hash v)) in E.
  destruct (signed k (hash v)) as [l|m] eqn:Es.
  - destruct (signs_bytes _ _ _ _ _ Es) as [Lb Ll].
    destruct (new_ab_run (buffers w2) l (proj1 I2) Lb Ll) as (h & a & Ea & X & Hh & Bo & Co). destruct (grows w2 h I2 X Hh) as [L3 I3].
    rewrite (bind_ok _ _ _ _ _ (on_buffers_run _ w2 _ _ Ea)) in E. injection E as <- <-. split; [exact L3|]. split; [exact I3|].
    assert (L13 : later w1 (World h (keys w2))) by (etransitivity; eassumption).
    apply settles_turn. apply check_signature_ok; [eapply vector_stable; eassumption|eapply key_stable; eassumption|exact Bo|exact Co].
  - injection E as <- <-. split; [reflexivity|]. split; [exact I2|]. apply settles_turn, check_ok.
Qed.

(** ** The start of the handler *)

Lemma new_array_ok l (w : W) : heap_ok (buffers w) -> Forall byte l -> Z.of_nat (length l) < 2 ^ 32 -> exists h v,
  on_buffers (new_buffer false l) w = (World h (keys w), Ok v) /\ extends (buffers w) h /\ heap_ok h /\
  view_ok h v /\ bytes h v = l.
Proof.
  intros Hh B L. destruct (owned_new (buffers w) l Hh B L) as [O1 O2 O3 O4 _].
  eexists _, _. split; [apply on_buffers_run; reflexivity|]. auto.
Qed.

Lemma new_arrays_ok data (w : W) : heap_ok (buffers w) -> (forall h, Forall byte (data h) /\ Z.of_nat (length (data h)) < 2 ^ 32) ->
  exists h f, new_arrays data w = (World h (keys w), Ok f) /\ extends (buffers w) h /\ heap_ok h /\
    forall n, view_ok h (f n) /\ bytes h (f n) = data n.
Proof.
  intros Hh D. unfold new_arrays.
  destruct (new_array_ok (data SHA_1) w Hh (proj1 (D _)) (proj2 (D _))) as (h1 & v1 & E1 & X1 & H1 & V1 & B1).
  destruct (new_array_ok (data SHA_256) (World h1 (keys w)) H1 (proj1 (D _)) (proj2 (D _))) as (h2 & v2 & E2 & X2 & H2 & V2 & B2).
  destruct (new_array_ok (data SHA_384) (World h2 (keys w)) H2 (proj1 (D _)) (proj2 (D _))) as (h3 & v3 & E3 & X3 & H3 & V3 & B3).
  destruct (new_array_ok (data SHA_512) (World h3 (keys w)) H3 (proj1 (D _)) (proj2 (D _))) as (h4 & v4 & E4 & X4 & H4 & V4 & B4).
  rewrite (bind_ok _ _ _ _ _ E1), (bind_ok _ _ _ _ _ E2), (bind_ok _ _ _ _ _ E3), (bind_ok _ _ _ _ _ E4).
  cbn [buffers keys] in *. assert (X24 : extends h2 h4) by (etransitivity; eassumption).
  assert (X14 : extends h1 h4) by (etransitivity; eassumption).
  do 2 eexists. split; [reflexivity|]. split; [etransitivity; eassumption|]. split; [exact H4|].
  intros []; cbv iota.
  - rewrite <- B1. apply extends_view; assumption.
  - rewrite <- B2. apply extends_view; assumption.
  - rewrite <- B3. apply extends_view; assumption.
  - auto.
Qed.

(** The four vectors, and the state they are in when the tests start. *)
Definition fresh_vectors (w : W) (vs : list vector) : Prop :=
  inv w /\ keys w = [None; None; None; None] /\ map hash vs = hash_names /\
  Forall (fun v => vector_ok both_usages v w /\ get_key v w = None) vs.

Lemma vectors_ok h : heap_ok h -> exists w vs, getTestVectors (World h []) = (w, Ok vs) /\ fresh_vectors w vs.
Proof.
  intros Hh. unfold getTestVectors.
  destruct (new_array_ok plaintext_data (World h []) Hh plaintext_bytes ltac:(reflexivity)) as (h1 & pt & E1 & X1 & H1 & V1 & B1).
  destruct (new_arrays_ok raw_data (World h1 []) H1) as (h2 & raw & E2 & X2 & H2 & R2).
  { intros n. split; [apply raw_bytes|]. destruct n; reflexivity. }
  destruct (new_arrays_ok signature_data (World h2 []) H2) as (h3 & sgs & E3 & X3 & H3 & S3).
  { intros n. split; [apply signature_bytes|]. destruct n; reflexivity. }
  cbn [buffers keys] in *. rewrite (bind_ok _ _ _ _ _ E1). cbn [keys]. rewrite (bind_ok _ _ _ _ _ E2). cbn [keys].
  rewrite (bind_ok _ _ _ _ _ E3). cbn [keys]. do 2 eexists. split; [reflexivity|]. unfold fresh_vectors. cbn [buffers keys app].
  assert (X13 : extends h1 h3) by (etransitivity; eassumption).
  assert (P : view_ok h3 pt /\ bytes h3 pt = plaintext_data) by (rewrite <- B1; apply extends_view; assumption).
  assert (R : forall n, view_ok h3 (raw n) /\ bytes h3 (raw n) = raw_data n).
  { intros n. destruct (R2 n) as [Rv <-]. apply extends_view; assumption. }
  split; [split; [exact H3|]|split; [reflexivity|split; [reflexivity|]]].
  - cbn. intros [|[|[|[|c]]]] k; discriminate.
  - repeat (apply Forall_cons; split; [|]); [..|constructor];
      (split; [|reflexivity]); unfold vector_ok; cbn [key_slot name hash keyBuffer signature plaintext buffers keys];
      repeat split; try apply R; try apply P; try apply S3; cbn; lia.
Qed.

(** The tests that start with the import of a vector leave the state as it is. *)
Lemma call_then_quiet usages (body : vector -> Starts unit) handler v w : get_key v w = None ->
  fst (call_then (importVectorKeys crypto v usages) body handler w) = w.
Proof. intros E. unfold call_then, importVectorKeys. rewrite E. reflexivity. Qed.

Definition quiet (test : vector -> Starts unit) : Prop := forall v w, get_key v w = None -> fst (test v w) = w.

Lemma push_each_ok (test : vector -> Starts unit) (res : hash_name -> result) w vs : quiet test ->
  (forall v w0, vector_ok both_usages v w0 -> starts_ok anything w0 (test v) (res (hash v))) -> inv w ->
  Forall (fun v => vector_ok both_usages v w /\ get_key v w = None) vs ->
  exists ps, push_each test vs w = (w, Ok ps) /\ Forall2 (settles anything w) ps (map res (map hash vs)).
Proof.
  intros Q T I. induction 1 as [|v vs [Hv Hk] _ (ps & E & F)]; [exists []; split; [reflexivity|constructor]|].
  specialize (Q v w Hk). destruct (test v w) as [w' p] eqn:Et. cbn in Q. subst w'.
  destruct (T v w Hv w (reflexivity w) I w p Et) as (_ & _ & S). exists (p :: ps). split; [|constructor; assumption].
  cbn [push_each]. rewrite Et, (bind_ok _ _ _ _ _ E). reflexivity.
Qed.

(** [no_verify_usage] adds a vector. *)
Lemma no_verify_start v w : vector_ok both_usages v w -> get_key v w = None -> inv w ->
  wanted (length (keys w)) = match imported [js "sign"] (hash v) with Ok k => Some k | Throw _ => None end ->
  exists p, no_verify_usage crypto v w = (World (buffers w) (keys w ++ [None]), p) /\
    later w (World (buffers w) (keys w ++ [None])) /\ inv (World (buffers w) (keys w ++ [None])) /\
    settles anything (World (buffers w) (keys w ++ [None])) p (no_verify_result (hash v)).
Proof.
  intros Hv Hk I Wn. set (w1 := World (buffers w) (keys w ++ [None])).
  assert (L1 : later w w1).
  { split; [reflexivity|]. cbn. rewrite length_app. split; [lia|]. intros c k Hc. apply lookup_app_l_Some, Hc. }
  assert (I1 : inv w1).
  { split; [apply I|]. cbn. intros c k Hc. apply lookup_app_Some in Hc as [Hc|[_ Hc]]; [apply I, Hc|].
    apply list_lookup_singleton_Some in Hc as [_ Hc]. discriminate. }
  set (v1 := Vector (name v) (hash v) (keyBuffer v) (plaintext v) (signature v) (length (keys w))).
  assert (Hv1 : vector_ok [js "sign"] v1 w1).
  { destruct Hv as (_ & _ & N & V). split; [cbn; rewrite length_app; cbn; lia|]. split; [exact Wn|]. split; [exact N|exact V]. }
  assert (Hk1 : get_key v1 w1 = None).
  { unfold get_key. cbn. rewrite lookup_app_r, Nat.sub_diag by lia. reflexivity. }
  assert (E : no_verify_usage crypto v w = no_verify_copy v1 w1).
  { unfold no_verify_usage, first, assign, new_vector. rewrite Hk. reflexivity. }
  pose proof (call_then_quiet [js "sign"] _ _ v1 w1 Hk1 : fst (no_verify_copy v1 w1) = w1) as Q.
  destruct (no_verify_copy v1 w1) as [w' p] eqn:Ec. cbn in Q. subst w'. exists p. rewrite E. split; [reflexivity|].
  split; [exact L1|]. split; [exact I1|]. apply (no_verify_ok v1 w1 Hv1 w1 (reflexivity w1) I1 w1 p Ec).
Qed.

Abbreviation ready vs w := (Forall (fun v => vector_ok both_usages v w /\ get_key v w = None) vs).

Lemma ready_later vs w ks : ready vs w -> later w (World (buffers w) (keys w ++ ks)) -> ready vs (World (buffers w) (keys w ++ ks)).
Proof.
  intros H L. eapply Forall_impl; [exact H|]. intros v [Hv Hk]. split; [eapply vector_stable; eassumption|].
  unfold get_key in *. cbn. rewrite lookup_app_l by apply Hv. exact Hk.
Qed.

Lemma settles_all_later w w' (ps : list (Chain unit)) (rs : list result) : Forall2 (settles anything w) ps rs -> later w w' -> Forall2 (settles anything w') ps rs.
Proof. intros F L. eapply Forall2_impl; [exact F|]. intros p r S. eapply settles_mono; [exact _|apply anything_stable|exact S|exact L]. Qed.

Lemma no_verify_each vs : forall w, ready vs w -> inv w ->
  (forall i v, vs !! i = Some v ->
     wanted (length (keys w) + i) = match imported [js "sign"] (hash v) with Ok k => Some k | Throw _ => None end) ->
  exists ks ps, push_each (no_verify_usage crypto) vs w = (World (buffers w) (keys w ++ ks), Ok ps) /\
    later w (World (buffers w) (keys w ++ ks)) /\ inv (World (buffers w) (keys w ++ ks)) /\
    Forall2 (settles anything (World (buffers w) (keys w ++ ks))) ps (map no_verify_result (map hash vs)).
Proof.
  induction vs as [|v vs IH]; intros w R I Wn.
  { exists [], []. rewrite app_nil_r. destruct w. split; [reflexivity|]. split; [reflexivity|]. split; [exact I|constructor]. }
  apply Forall_cons in R as [[Hv Hk] R]. pose proof (Wn 0%nat v eq_refl) as W0. rewrite Nat.add_0_r in W0.
  destruct (no_verify_start v w Hv Hk I W0) as (p & E & L1 & I1 & S1).
  destruct (IH _ (ready_later vs w [None] R L1) I1) as (ks & ps & E2 & L2 & I2 & F2).
  { intros i v' Hi. rewrite <- (Wn (S i) v' Hi). cbn. rewrite length_app. cbn. f_equal. lia. }
  cbn [buffers keys] in *. rewrite <- app_assoc in E2, L2, I2, F2. exists ([None] ++ ks), (p :: ps).
  split; [|split; [etransitivity; eassumption|split; [exact I2|]]].
  - cbn [push_each]. rewrite E, (bind_ok _ _ _ _ _ E2). reflexivity.
  - constructor; [|exact F2]. eapply settles_mono; [exact _|apply anything_stable|exact S1|exact L2].
Qed.

Lemma wanted_copy i h : hash_names !! i = Some h ->
  wanted (4 + i) = match imported [js "sign"] h with Ok k => Some k | Throw _ => None end.
Proof.
  intros Hi. unfold wanted. assert (Li : (i < 4)%nat) by (apply lookup_lt_Some in Hi; exact Hi).
  replace ((4 + i) mod 4)%nat with i by (destruct i as [|[|[|[|i]]]]; cbn in *; lia).
  rewrite Hi. replace (slot_usages (4 + i)) with [js "sign"] by reflexivity. reflexivity.
Qed.

Ltac quiet_test := let H := fresh in intros ? ? H; apply call_then_quiet, H.

(** [handleRequest] starts every chain, and each settles with its result whatever
    the others do. *)
Lemma started h : heap_ok h -> exists w ps, all_promises crypto h = (w, Ok ps) /\ inv w /\
  Forall2 (settles anything w) ps all_results.
Proof.
  intros Hh. destruct (vectors_ok h Hh) as (w & vs & E & I & Ks & Hs & R). unfold all_promises. rewrite (bind_ok _ _ _ _ _ E).
  unfold tests. cbn [push_all].
  destruct (push_each_ok (verification crypto) verification_result w vs ltac:(quiet_test) verification_ok I R) as (p1 & E1 & F1).
  destruct (push_each_ok (altered_signature_after_call crypto) altered_signature_result w vs ltac:(quiet_test) altered_signature_ok I R) as (p2 & E2 & F2).
  destruct (push_each_ok (altered_plaintext_after_call crypto) altered_plaintext_result w vs ltac:(quiet_test) altered_plaintext_ok I R) as (p3 & E3 & F3).
  destruct (no_verify_each vs w R I) as (ks & p4 & E4 & L4 & I4 & F4).
  { intros i v Hi. assert (Hn : hash_names !! i = Some (hash v)) by (rewrite <- Hs; apply list_lookup_fmap_Some; eauto).
    rewrite Ks. apply wanted_copy, Hn. }
  set (w2 := World (buffers w) (keys w ++ ks)) in *. pose proof (ready_later vs w ks R L4 : ready vs w2) as R2.
  destruct (push_each_ok (round_trip crypto) round_trip_result w2 vs ltac:(quiet_test) round_trip_ok I4 R2) as (p5 & E5 & F5).
  destruct (push_each_ok (wrong_plaintext crypto) wrong_plaintext_result w2 vs ltac:(quiet_test) wrong_plaintext_ok I4 R2) as (p6 & E6 & F6).
  destruct (push_each_ok (wrong_signature crypto) wrong_signature_result w2 vs ltac:(quiet_test) wrong_signature_ok I4 R2) as (p7 & E7 & F7).
  destruct (push_each_ok (short_signature crypto) short_signature_result w2 vs ltac:(quiet_test) short_signature_ok I4 R2) as (p8 & E8 & F8).
  exists w2, (p1 ++ p2 ++ p3 ++ p4 ++ p5 ++ p6 ++ p7 ++ p8 ++ []). split; [|split; [exact I4|]].
  - rewrite (bind_ok _ _ _ _ _ E1). unfold bind. rewrite E2, E3, E4, E5, E6, E7, E8. reflexivity.
  - rewrite Hs in *. unfold all_results, results. cbn [map concat].
    repeat apply Forall2_app; try assumption; try constructor; eapply settles_all_later; eassumption.
Qed.

(** ** What the test accepts *)

(** The native functions compute the HMAC of the vectors, on the bytes of the call. *)
Definition computes_hmac (h : hash_name) : Prop :=
  let sg := signature_data h in let pt := plaintext_data in
  exists k k', imported both_usages h = Ok k /\ imported [js "sign"] h = Ok k' /\
    signed k h = Ok sg /\
    (forall later_sg later_pt,
       (later_sg, later_pt) ∈ [(sg, pt); (inverted sg, pt); (sg, inverted pt)] ->
       verified k h (Arg sg later_sg) (Arg pt later_pt) = Ok (Bool true)) /\
    (forall sg' pt', (sg', pt') ∈ [(sg, inverted pt); (inverted sg, pt); (drop 1 sg, pt)] ->
       verified k h (still sg') (still pt') = Ok (Bool false)) /\
    exists m, verified k' h (still sg) (still pt) = Throw m.

Lemma accepted_ok r checks failure : (forall m, failure m <> Ok tt) ->
  accepted r checks failure = Ok tt <-> exists b, r = Ok b /\ checks b = Ok tt.
Proof.
  intros N. destruct r as [b|m]; cbn; [split; [eauto|intros (b' & [= <-] & H); exact H]|].
  split; [intros H; apply N in H; contradiction|intros (b & H & _); discriminate].
Qed.

Lemma verify_test_ok suffix failing sg dt checks h k : imported both_usages h = Ok k ->
  verify_test suffix failing sg dt checks h = Ok tt <-> exists b, verified k h (sg h) (dt h) = Ok b /\ checks b = Ok tt.
Proof.
  intros E. unfold verify_test, imports. rewrite E, tested_ok. apply accepted_ok. discriminate.
Qed.

Lemma is_true r m : (exists b, r = Ok b /\ assert_true b m = Ok tt) <-> r = @Ok jsstr val (Bool true).
Proof. split; [intros (b & -> & ->%assert_true_ok); reflexivity|intros ->; exists (Bool true); auto]. Qed.

Lemma is_false r : (exists b, r = Ok b /\ not_verified b = Ok tt) <-> r = @Ok jsstr val (Bool false).
Proof. split; [intros (b & -> & ->%assert_false_ok); reflexivity|intros ->; exists (Bool false); auto]. Qed.

Lemma altered_signature_accepted h k : imported both_usages h = Ok k ->
  altered_signature_result h = Ok tt <->
    verified k h (Arg (signature_data h) (inverted (signature_data h))) (still plaintext_data) = Ok (Bool true).
Proof.
  intros E. unfold altered_signature_result, imports. rewrite E, tested_ok, accepted_ok by discriminate. apply is_true.
Qed.

Lemma no_verify_accepted h k : imported [js "sign"] h = Ok k ->
  no_verify_result h = Ok tt <-> exists m, verified k h (still (signature_data h)) (still plaintext_data) = Throw m.
Proof.
  intros E. unfold no_verify_result, imports. rewrite E, tested_ok. unfold its_signature, the_plaintext, accepted.
  destruct (verified _ _ _ _) as [b|m]; split; try discriminate; [intros [m H]; discriminate|eauto|reflexivity].
Qed.

Lemma round_trip_accepted h k : imported both_usages h = Ok k ->
  round_trip_result h = Ok tt <-> signed k h = Ok (signature_data h) /\
    verified k h (still (signature_data h)) (still plaintext_data) = Ok (Bool true).
Proof.
  intros E. unfold round_trip_result, imports. rewrite E, tested_ok. destruct (signed k h) as [l|m].
  - destruct (bool_decide_reflect (l = signature_data h)) as [->|N].
    + rewrite accepted_ok by discriminate. rewrite is_true. split; [intros H; split; [reflexivity|exact H]|intros [_ H]; exact H].
    + split; [discriminate|]. intros [[= ->] _]. contradiction.
  - split; [discriminate|]. intros [H _]. discriminate.
Qed.

Lemma not_imported h m : imported both_usages h = Throw m -> verification_result h <> Ok tt.
Proof. intros E. unfold verification_result, verify_test, imports. rewrite E. discriminate. Qed.
Lemma not_copied h m : imported [js "sign"] h = Throw m -> no_verify_result h <> Ok tt.
Proof. intros E. unfold no_verify_result, imports. rewrite E. discriminate. Qed.

(** The tests of one vector all pass exactly when the native functions are right on it. *)
Lemma vector_accepted h : Forall (fun r => r h = Ok tt) results <-> computes_hmac h.
Proof.
  unfold results. rewrite !Forall_cons, Forall_nil. unfold computes_hmac.
  destruct (imported both_usages h) as [k|m] eqn:E.
  2: { pose proof (not_imported h m E). split; [intros [? _]; contradiction|intros (k & k' & ? & _); discriminate]. }
  destruct (imported [js "sign"] h) as [k'|m] eqn:E'.
  2: { pose proof (not_copied h m E'). split; [intros (_ & _ & _ & ? & _); contradiction|intros (? & ? & _ & ? & _); discriminate]. }
  unfold verification_result, altered_plaintext_result, wrong_plaintext_result, wrong_signature_result, short_signature_result.
  rewrite !(verify_test_ok _ _ _ _ _ h k E), !is_true, !is_false.
  rewrite (altered_signature_accepted h k E), (no_verify_accepted h k' E'), (round_trip_accepted h k E).
  unfold its_signature, the_plaintext, still. split.
  - intros (H1 & H2 & H3 & H4 & (H5 & _) & H6 & H7 & H8 & _). exists k, k'. repeat (split; [first [reflexivity|assumption]|]).
    split; [|split; [|exact H4]].
    + intros a b H. rewrite !elem_of_cons in H. destruct H as [[= -> ->]|[[= -> ->]|[[= -> ->]|H]]]; try assumption.
      apply elem_of_nil in H. contradiction.
    + intros a b H. rewrite !elem_of_cons in H. destruct H as [[= -> ->]|[[= -> ->]|[[= -> ->]|H]]]; try assumption.
      apply elem_of_nil in H. contradiction.
  - intros (k1 & k2 & [= <-] & [= <-] & Hs & Ht & Hf & Hm).
    pose proof (Ht (signature_data h) plaintext_data ltac:(left)) as T1.
    pose proof (Ht (inverted (signature_data h)) plaintext_data ltac:(right; left)) as T2.
    pose proof (Ht (signature_data h) (inverted plaintext_data) ltac:(right; right; left)) as T3.
    pose proof (Hf (signature_data h) (inverted plaintext_data) ltac:(left)) as F1.
    pose proof (Hf (inverted (signature_data h)) plaintext_data ltac:(right; left)) as F2.
    pose proof (Hf (drop 1 (signature_data h)) plaintext_data ltac:(right; right; left)) as F3. auto 12.
Qed.

Lemma all_accepted : Forall (fun r => exists a, r = Ok a) all_results <-> forall h, computes_hmac h.
Proof.
  unfold all_results. rewrite Forall_concat, Forall_map.
  assert (S : Forall (fun f => Forall (fun r : result => exists a, r = Ok a) (map f hash_names)) results <->
              Forall (fun f => forall h, f h = Ok tt) results).
  { apply Forall_iff. intros f. rewrite Forall_map. unfold hash_names. rewrite !Forall_cons, Forall_nil. split.
    - intros ([[] H1] & [[] H2] & [[] H3] & [[] H4] & _) []; assumption.
    - intros H. repeat split; eauto. }
  rewrite S. split.
  - intros H h. apply vector_accepted. eapply Forall_impl; [exact H|]. intros f Hf. apply Hf.
  - intros H. apply Forall_forall. intros f Hf h. specialize (H h). apply vector_accepted in H.
    rewrite Forall_forall in H. apply H, Hf.
Qed.

(** C5: the test of HMAC answers the same in whatever order the imports, the
    signatures and the verifications settle and whichever chain of callbacks runs
    first: the chains of a vector share its [key], and still each gives the result
    it would give alone.  The answer is a success exactly when, on all four
    vectors, the native functions sign and verify right, on the bytes their
    buffers held at the call, and refuse the key without the usage. *)
Theorem hmac_response h : heap_ok h ->
  exists w ps, all_promises crypto h = (w, Ok ps) /\
    (forall Q, rtc step (Pool w ps) Q -> nf step Q ->
       promises Q = Settled <$> all_results /\ response Q = Some (respond (first_failure all_results))) /\
    (respond (first_failure all_results) = (200, inl "All tests passed!"%string) <-> forall n, computes_hmac n).
Proof.
  intros Hh. destruct (started h Hh) as (w & ps & E & I & F). exists w, ps. split; [exact E|]. split.
  - intros Q R N. pose proof (final_results inv later anything (Pool w ps) Q all_results anything_stable R N I F) as P.
    split; [exact P|]. unfold response. rewrite P, await_each_settled. reflexivity.
  - rewrite <- all_accepted, <- first_failure_ok. destruct (first_failure all_results) as [[]|e]; cbn; split; congruence.
Qed.

(** The test of HMAC always answers: from every state it reaches, no order of
    events goes on for ever, a run in which nothing is left to do has answered,
    and an answer given early, before the last promise has settled, is the one
    every other order gives. *)
Theorem hmac_answers h : heap_ok h ->
  exists w ps, all_promises crypto h = (w, Ok ps) /\ forall P, rtc step (Pool w ps) P ->
    sn step P /\ (nf step P -> response P <> None) /\
    (forall r, response P = Some r -> r = respond (first_failure all_results)).
Proof.
  intros Hh. destruct (started h Hh) as (w & ps & E & I & F). exists w, ps. split; [exact E|]. intros P R.
  assert (End_ : forall Q, rtc step (Pool w ps) Q -> nf step Q -> await_each (promises Q) = Some (first_failure all_results)).
  { intros Q RQ N. rewrite (final_results inv later anything (Pool w ps) Q all_results anything_stable RQ N I F).
    apply await_each_settled. }
  split; [apply runs_end|]. split.
  - intros N. unfold response. rewrite (End_ P R N). discriminate.
  - intros r. unfold response. destruct (await_each (promises P)) as [x|] eqn:Ea; cbn; [|discriminate]. intros [= <-].
    destruct (finishes P) as (Q & RQ & N). pose proof (await_each_stable P Q x RQ Ea) as St.
    rewrite (End_ Q) in St; [injection St as ->; reflexivity|etransitivity; eassumption|exact N].
Qed.
End Facts.

(** ** Instances *)

(** Native functions that know the four signatures. *)
Definition hash_of (t : jsstr) : hash_name :=
  if str_eqb t (js "SHA-1") then SHA_1 else if str_eqb t (js "SHA-256") then SHA_256
  else if str_eqb t (js "SHA-384") then SHA_384 else SHA_512.

Definition sample_mac (h : jsstr) (data : list Z) : list Z :=
  if bool_decide (data = plaintext_data) then signature_data (hash_of h) else [].

Definition sample_crypto : subtle (list jsstr) :=
  Subtle (list jsstr) (fun _ _ _ _ _ usages => Ok usages)
    (fun _ h key sg data =>
       match key with
       | Some usages => if existsb (str_eqb (js "verify")) usages then Ok (Bool (bool_decide (at_call sg = sample_mac h (at_call data))))
                        else Throw (js "the key does not allow it")
       | None => Throw (js "null")
       end)
    (fun _ h key data => Ok (sample_mac h (at_call data))).

Lemma sample_signs alg h key data l : sign sample_crypto alg h key data = Ok l -> Forall byte l /\ Z.of_nat (length l) < 2 ^ 32.
Proof.
  intros [= <-]. unfold sample_mac. destruct (bool_decide _); [|split; [constructor|reflexivity]].
  split; [apply signature_bytes|]. destruct (hash_of h); reflexivity.
Qed.

Lemma sample_computes n : computes_hmac sample_crypto n.
Proof.
  exists both_usages, [js "sign"]. split; [reflexivity|]. split; [reflexivity|]. split; [destruct n; vm_compute; reflexivity|].
  split; [|split; [|eexists; reflexivity]]; intros a b H; rewrite !elem_of_cons in H;
    destruct H as [[= -> ->]|[[= -> ->]|[[= -> ->]|H]]]; try (apply elem_of_nil in H; contradiction);
    destruct n; vm_compute; reflexivity.
Qed.

Lemma empty_heap_ok : heap_ok (Heap ∅ 0).
Proof. intros a l H. cbn in H. rewrite lookup_empty in H. discriminate. Qed.

Lemma hmac_response_witness : exists w ps, all_promises sample_crypto (Heap ∅ 0) = (w, Ok ps) /\
  exists Q, rtc step (Pool w ps) Q /\ response Q = Some (200, inl "All tests passed!"%string).
Proof.
  destruct (hmac_response sample_crypto sample_signs (Heap ∅ 0) empty_heap_ok) as (w & ps & E & R & A).
  exists w, ps. split; [exact E|]. destruct (finishes (Pool w ps)) as (Q & RQ & N). exists Q. split; [exact RQ|].
  rewrite (proj2 (R Q RQ N)). rewrite (proj2 A sample_computes). reflexivity.
Defined.

Lemma hmac_answers_witness : exists w ps, all_promises sample_crypto (Heap ∅ 0) = (w, Ok ps) /\
  sn step (Pool w ps) /\ exists P, rtc step (Pool w ps) P /\ response P <> None.
Proof.
  destruct (hmac_answers sample_crypto sample_signs (Heap ∅ 0) empty_heap_ok) as (w & ps & E & A).
  exists w, ps. split; [exact E|]. split; [apply A; constructor|].
  destruct (finishes (Pool w ps)) as (P & R & N). exists P. split; [exact R|]. apply (A P R), N.
Defined.
