(* ===== verification/ShaTest.v ===== *)
(** The test of the digests (test-suite/js-test-app/src/test-files/16.2-crypto-sha.js):
    every hash on every size of data, its name in three spellings, then with the
    buffer changed after the call, and names that are no hashes.

    [crypto.subtle.digest] is native and is an argument; what it answers may depend
    on the bytes of the buffer when it is called and when it answers. *)

From Stdlib Require Import SpecFloat String.
From stdpp Require Import base numbers list gmap relations.
From S2P Require Import Prelude JsNumber JsValue Streams TestSuite Async PromiseTest ByteBuffers HmacTest.

Local Open Scope Z_scope.
Local Open Scope js_scope.

(** ** The data *)

(** The keys of [sourceData] and, with [hash_name], those of [digestedData]. *)
Inductive size : Type := Empty | Short | Medium | Long.

Definition size_key (s : size) : string :=
  match s with Empty => "empty" | Short => "short" | Medium => "medium" | Long => "long" end.
Definition sizes : list size := [Empty; Short; Medium; Long].

Definition alg_key (a : hash_name) : string :=
  match a with SHA_1 => "sha-1" | SHA_256 => "sha-256" | SHA_384 => "sha-384" | SHA_512 => "sha-512" end.

Definition short_data : list Z :=
  [21; 110; 234; 124; 193; 76; 86; 203; 148; 219; 3; 10; 74; 157; 149; 255].

Definition medium_data : list Z :=
  [182; 200; 249; 223; 100; 140; 208; 136; 183; 15; 56; 231; 65; 151; 177; 140; 184; 30; 30; 67; 80; 213; 11; 204;
   184; 251; 90; 115; 121; 200; 123; 178; 227; 214; 237; 84; 97; 237; 30; 159; 54; 243; 64; 163; 150; 42; 68; 107;
   129; 91; 121; 75; 75; 212; 58; 68; 3; 80; 32; 119; 178; 37; 108; 200; 7; 131; 127; 58; 172; 209; 24; 235; 75;
   156; 43; 174; 184; 151; 6; 134; 37; 171; 172; 161; 147].

Definition digested_data (a : hash_name) (s : size) : list Z :=
  match a, s with
  | SHA_1, Empty =>
      [218; 57; 163; 238; 94; 107; 75; 13; 50; 85; 191; 239; 149; 96; 24; 144; 175; 216; 7; 9]
  | SHA_1, Short =>
      [201; 19; 24; 205; 242; 57; 106; 1; 94; 63; 78; 106; 134; 160; 186; 101; 184; 99; 89; 68]
  | SHA_1, Medium =>
      [229; 65; 6; 8; 112; 235; 22; 191; 51; 182; 142; 81; 245; 19; 82; 104; 147; 152; 103; 41]
  | SHA_1, Long =>
      [48; 152; 181; 0; 55; 236; 208; 46; 189; 101; 118; 83; 178; 191; 160; 30; 238; 39; 162; 234]
  | SHA_256, Empty =>
      [227; 176; 196; 66; 152; 252; 28; 20; 154; 251; 244; 200; 153; 111; 185; 36; 39; 174; 65; 228; 100; 155; 147;
       76; 164; 149; 153; 27; 120; 82; 184; 85]
  | SHA_256, Short =>
      [162; 131; 17; 134; 152; 71; 146; 199; 211; 45; 89; 200; 151; 64; 104; 127; 25; 173; 220; 27; 149; 158; 113;
       161; 204; 83; 138; 59; 126; 216; 67; 242]
  | SHA_256, Medium =>
      [83; 83; 103; 135; 126; 240; 20; 215; 252; 113; 126; 92; 183; 132; 62; 89; 182; 26; 238; 98; 199; 2; 156; 236;
       126; 198; 193; 47; 217; 36; 224; 228]
  | SHA_256, Long =>
      [20; 205; 234; 157; 199; 95; 90; 98; 116; 217; 252; 30; 100; 0; 153; 18; 241; 220; 211; 6; 180; 143; 232; 233;
       207; 18; 45; 230; 113; 87; 23; 129]
  | SHA_384, Empty =>
      [56; 176; 96; 167; 81; 172; 150; 56; 76; 217; 50; 126; 177; 177; 227; 106; 33; 253; 183; 17; 20; 190; 7; 67;
       76; 12; 199; 191; 99; 246; 225; 218; 39; 78; 222; 191; 231; 111; 101; 251; 213; 26; 210; 241; 72; 152; 185;
       91]
  | SHA_384, Short =>
      [107; 245; 234; 101; 36; 209; 205; 220; 67; 247; 207; 59; 86; 238; 5; 146; 39; 64; 74; 47; 83; 143; 2; 42; 61;
       183; 68; 122; 120; 44; 6; 193; 237; 5; 232; 171; 79; 94; 220; 23; 243; 113; 20; 64; 223; 233; 119; 49]
  | SHA_384, Medium =>
      [203; 194; 197; 136; 254; 91; 37; 249; 22; 218; 40; 180; 228; 122; 72; 74; 230; 252; 31; 228; 144; 45; 213;
       201; 147; 154; 107; 253; 3; 74; 179; 180; 139; 57; 8; 116; 54; 1; 31; 106; 153; 135; 157; 39; 149; 64; 233;
       119]
  | SHA_384, Long =>
      [73; 244; 253; 179; 152; 25; 104; 249; 125; 87; 55; 15; 133; 52; 80; 103; 205; 82; 150; 169; 125; 209; 161;
       142; 6; 145; 30; 117; 110; 150; 8; 73; 37; 41; 135; 14; 26; 209; 48; 153; 141; 87; 203; 251; 183; 193; 208;
       158]
  | SHA_512, Empty =>
      [207; 131; 225; 53; 126; 239; 184; 189; 241; 84; 40; 80; 214; 109; 128; 7; 214; 32; 228; 5; 11; 87; 21; 220;
       131; 244; 169; 33; 211; 108; 233; 206; 71; 208; 209; 60; 93; 133; 242; 176; 255; 131; 24; 210; 135; 126; 236;
       47; 99; 185; 49; 189; 71; 65; 122; 129; 165; 56; 50; 122; 249; 39; 218; 62]
  | SHA_512, Short =>
      [55; 82; 72; 190; 95; 243; 75; 231; 76; 171; 79; 241; 195; 188; 141; 198; 139; 213; 248; 223; 244; 2; 62; 152;
       248; 123; 134; 92; 255; 44; 114; 66; 146; 223; 24; 148; 67; 166; 79; 244; 19; 74; 101; 205; 70; 53; 185; 212;
       245; 220; 13; 63; 182; 117; 40; 0; 42; 99; 172; 242; 108; 157; 165; 117]
  | SHA_512, Medium =>
      [185; 16; 159; 131; 158; 142; 164; 60; 137; 15; 41; 60; 225; 29; 198; 226; 121; 141; 30; 36; 49; 241; 228;
       185; 25; 227; 178; 12; 79; 54; 48; 59; 163; 156; 145; 109; 179; 6; 196; 90; 59; 101; 118; 31; 245; 190; 133;
       50; 142; 234; 244; 44; 56; 48; 241; 217; 94; 122; 65; 22; 91; 125; 45; 54]
  | SHA_512, Long =>
      [75; 2; 202; 246; 80; 39; 96; 48; 234; 86; 23; 229; 151; 197; 213; 63; 217; 218; 166; 139; 120; 191; 230; 11;
       34; 170; 184; 211; 106; 76; 42; 58; 255; 219; 113; 35; 79; 73; 39; 103; 55; 197; 117; 221; 247; 77; 20; 5;
       76; 189; 111; 219; 152; 253; 13; 220; 188; 180; 111; 145; 173; 118; 182; 238]
  end.

(** ** Strings *)

(** [toUpperCase] on ASCII letters, and [s.substr(from, n)] and [s.substr(from)]. *)
Definition upper (c : Z) : Z := if (97 <=? c) && (c <=? 122) then c - 32 else c.
Definition toUpperCase (s : jsstr) : jsstr := map upper s.
Definition substr (s : jsstr) (from n : nat) : jsstr := take n (drop from s).
Definition substr_from (s : jsstr) (from : nat) : jsstr := drop from s.

Definition upCase (a : hash_name) : jsstr := toUpperCase (js (alg_key a)).
Definition downCase (a : hash_name) : jsstr := toLowerCase (js (alg_key a)).
Definition mixedCase (a : hash_name) : jsstr := substr (upCase a) 0 1 ++ substr_from (downCase a) 1.

(** ** The tests *)

Section Sha.
(** [subtle.digest] of an algorithm's name and a buffer. *)
Variable digest : jsstr -> arg -> outcome jsstr (list Z).

Abbreviation Run A := (comp heap thrown A).
Abbreviation Chain A := (async heap thrown A).
Abbreviation Starts A := (starts heap thrown A).

Definition lib {A} (m : M A) : Run A :=
  fun h => match m h with
           | (h', Ok a) => (h', Ok a)
           | (h', Throw e) => (h', Throw (Library e))
           end.

(** The helpers are those of the test of HMAC, word for word. *)
Definition copyBuffer : val -> M view := ByteBuffers.copyBuffer.
Definition equalBuffers : val -> val -> M bool := ByteBuffers.equalBuffers.

(** [target.set(source, offset)] of typed arrays. *)
Definition typed_set (target source : view) (offset : Z) : M unit :=
  let! l := read (fun h => bytes h source) in
  if (offset <? 0) || (vlen target <? offset + Z.of_nat (length l)) then throw_range [Txt "offset is out of bounds"]
  else modify (fun h => store h target offset l).

Definition make_long (medium : view) : M view :=
  let! n := byteLength (VView medium) in
  let! long := new_Uint8Array (Num (fmul (of_Z 1024) (num_of n))) in
  do! for_each (indices 0 1024 1) (fun i => typed_set long medium (i * vlen medium)) in
  ret long.

Definition make_sourceData : M (size -> view) :=
  let! empty := new_Uint8Array (Num (of_Z 0)) in
  let! short := new_buffer false short_data in
  let! medium := new_buffer false medium_data in
  let! long := make_long medium in
  ret (fun s => match s with Empty => empty | Short => short | Medium => medium | Long => long end).

(** [digestedData[alg]]. *)
Definition make_digests (a : hash_name) : M (size -> view) :=
  let! empty := new_buffer false (digested_data a Empty) in
  let! short := new_buffer false (digested_data a Short) in
  let! medium := new_buffer false (digested_data a Medium) in
  let! long := new_buffer false (digested_data a Long) in
  ret (fun s => match s with Empty => empty | Short => short | Medium => medium | Long => long end).

Definition make_digestedData : M (hash_name -> size -> view) :=
  let! sha1 := make_digests SHA_1 in
  let! sha256 := make_digests SHA_256 in
  let! sha384 := make_digests SHA_384 in
  let! sha512 := make_digests SHA_512 in
  ret (fun a => match a with SHA_1 => sha1 | SHA_256 => sha256 | SHA_384 => sha384 | SHA_512 => sha512 end).

(** The digest is a new array buffer. *)
Definition subtle_digest (name : jsstr) (data : view) : Starts val :=
  fun h => (h, native (fun h' =>
    match digest name (Arg (bytes h data) (bytes h' data)) with
    | Ok l => lib (let! a := new_ab l in ret (VArrayBuffer a)) h'
    | Throw m => (h', Throw (native_error m))
    end)).

(** The callbacks of a digest that should be the expected one. *)
Definition expect_digest (expected : view) (a : hash_name) (s : size) (name : jsstr) (data : view) : Starts unit :=
  fun h => let '(h', p) := subtle_digest name data h in
    (h', then_ p
       (fun result => first (lib (equalBuffers result (VView expected))) (fun equal =>
          check (assert_true (Bool equal) (Str (js "digest() yielded expected result for " ++ js (alg_key a) ++ js ":" ++ js (size_key s))))))
       (fun err => check (unreached ([Text "digest() threw an error for "; Text (alg_key a); Text ":"; Text (size_key s); Text " - "]
                                       ++ error_message err)))).

Definition name_test (expected : view) (a : hash_name) (s : size) (name : jsstr) (data : view) : Starts unit :=
  promise_test_chain (fun _ => expect_digest expected a s name data)
    (Str (name ++ js " with " ++ js (size_key s) ++ js " source data")).

(** The Number of a typed array: of its elements joined by commas. *)
Definition array_number (l : list Z) : num := match l with [] => of_Z 0 | [x] => of_Z x | _ => NaN end.

(** [copiedBuffer[0] = 255 - copiedBuffer]. *)
Definition spoil (copiedBuffer : view) : M unit :=
  let! l := read (fun h => bytes h copiedBuffer) in put copiedBuffer 0 (fsub (of_Z 255) (array_number l)).

Definition altered_test (expected : view) (a : hash_name) (s : size) (data : view) : Starts unit :=
  promise_test_chain
    (fun _ => first (lib (copyBuffer (VView data))) (fun copiedBuffer h =>
       let '(h', promise) := expect_digest expected a s (upCase a) copiedBuffer h in
       first (lib (spoil copiedBuffer)) (fun _ h => (h, promise)) h'))
    (Str (upCase a ++ js " with " ++ js (size_key s) ++ js " source data and altered buffer after call")).

Definition bad_name_test (badName : jsstr) (s : size) (data : view) : Starts unit :=
  promise_test_chain
    (fun _ h => let '(h', p) := subtle_digest badName data h in
       (h', then_ p
          (fun _ => check (unreached [Text "digest() should not have worked for "; PVal (Str badName); Text ":"; Text (size_key s)]))
          (fun _ => at_once (ret tt))))
    (Str (badName ++ js " with " ++ js (size_key s))).

(** ** The handler

    Its response is [respond] of the result its promise settles with. *)

(** [await] of one test after the other. *)
Fixpoint await_tests (ts : list (Starts unit)) : Starts unit :=
  match ts with
  | [] => at_once (ret tt)
  | t :: ts => await_call t (fun _ => await_tests ts)
  end.

Definition combination (sourceData : size -> view) (digestedData : hash_name -> size -> view) (s : size) (a : hash_name) :
    list (Starts unit) :=
  [name_test (digestedData a s) a s (upCase a) (sourceData s);
   name_test (digestedData a s) a s (downCase a) (sourceData s);
   name_test (digestedData a s) a s (mixedCase a) (sourceData s);
   altered_test (digestedData a s) a s (sourceData s)].

Definition badNames : list jsstr := [js "AES-GCM"; js "RSA-OAEP"; js "PBKDF2"; js "AES-KW"].

Definition handleRequest : Starts unit :=
  first (lib make_sourceData) (fun sourceData =>
  first (lib make_digestedData) (fun digestedData =>
  await_tests (concat (map (fun s => concat (map (combination sourceData digestedData s) hash_names)) sizes)
               ++ concat (map (fun s => map (fun b => bad_name_test b s (sourceData s)) badNames) sizes)))).

End Sha.
