(* ===== verification/ShaFacts.v ===== *)
(** What the test of the digests accepts: the handler's answer is a success
    exactly when every digest is right. *)

From Stdlib Require Import SpecFloat String.
From stdpp Require Import base numbers list gmap relations.
From S2P Require Import Prelude JsNumber JsValue BufferCoreFacts Streams TestSuite Async PromiseTest ByteBuffers HmacTest ShaTest.

Local Open Scope Z_scope.
Local Open Scope js_scope.

(** ** The data *)

(** The bytes of each source. *)
Definition source (s : size) : list Z :=
  match s with
  | Empty => []
  | Short => short_data
  | Medium => medium_data
  | Long => concat (replicate 1024 medium_data)
  end.

(** What the altered copy holds: [255 - copiedBuffer] is a Number only when the
    buffer has one element. *)
Definition spoiled (l : list Z) : list Z :=
  match l with [] => [] | [x] => [255 - x] | _ :: l => 0 :: l end.

Lemma short_bytes : Forall byte short_data.
Proof. apply (bool_decide_unpack _). vm_compute. exact I. Qed.
Lemma medium_bytes : Forall byte medium_data.
Proof. apply (bool_decide_unpack _). vm_compute. exact I. Qed.
Lemma digested_bytes a s : Forall byte (digested_data a s) /\ Z.of_nat (length (digested_data a s)) < 2 ^ 32.
Proof. split; [apply (bool_decide_unpack _)|]; destruct a, s; vm_compute; auto. Qed.

Lemma spoil_run h0 h v l : owned h0 h v l ->
  exists h', spoil v h = (h', Ok tt) /\ owned h0 h' v (spoiled l).
Proof.
  intros O. pose proof O as [F1 F2 F3 F4 F5]. pose proof (length_bytes h v F2) as L. rewrite F3 in L.
  pose proof (heap_ok_bytes h v F1) as B. rewrite F3 in B. unfold spoil. erewrite bind_ok by reflexivity. rewrite F3.
  destruct l as [|x l].
  { exists h. split; [apply put_run_out; cbn in L; lia|exact O]. }
  cbn in L. apply Forall_cons in B as [B _]. unfold byte in B.
  assert (P : exists y, put v 0 (fsub (of_Z 255) (array_number (x :: l))) h = (store h v 0 [y], Ok tt) /\ byte y /\
                spoiled (x :: l) = splice 0 [y] (x :: l)).
  { destruct l as [|x' l]; cbn [array_number].
    - exists (255 - x). rewrite fsub_of_Z, put_run, ToUint8_of_Z, Z.mod_small by lia. unfold byte. repeat split; lia.
    - exists 0. rewrite put_run by lia. repeat split; lia. }
  destruct P as (y & E & By & ->). eexists. split; [exact E|].
  apply owned_store; [exact O|lia|cbn; lia|]. repeat constructor; apply By.
Qed.

(** A view that holds [l]. *)
Definition holds (l : list Z) (v : view) (h : heap) : Prop := view_ok h v /\ bytes h v = l.

Lemma holding_later l v h h' : extends h h' -> holds l v h -> holds l v h'.
Proof. intros X [V <-]. apply (extends_view _ _ v X V). Qed.

#[local] Instance extends_preorder : PreOrder extends.
Proof. split; exact _. Qed.

(** [m] makes a new array that holds [l]. *)
Definition makes (l : list Z) (m : M view) : Prop :=
  forall h, heap_ok h -> exists h' v, m h = (h', Ok v) /\ extends h h' /\ heap_ok h' /\ holds l v h'.

Lemma owned_makes h h' v l : owned h h' v l -> extends h h' /\ heap_ok h' /\ holds l v h'.
Proof. intros [F1 F2 F3 F4 F5]. split; [exact F4|]. split; [exact F1|]. split; assumption. Qed.

Lemma new_buffer_makes l : Forall byte l -> Z.of_nat (length l) < 2 ^ 32 -> makes l (new_buffer false l).
Proof.
  intros B L h Hh. eexists _, _. split; [apply new_buffer_run|]. apply owned_makes, owned_new; assumption.
Qed.

Lemma copies_length n : length (concat (replicate n medium_data)) = (n * 85)%nat.
Proof. induction n as [|n IH]; [reflexivity|]. cbn [replicate concat]. rewrite length_app, IH. reflexivity. Qed.

Lemma copies_bytes n : Forall byte (concat (replicate n medium_data)).
Proof. apply Forall_concat, Forall_replicate, medium_bytes. Qed.

Lemma copies_S n : concat (replicate (S n) medium_data) = concat (replicate n medium_data) ++ medium_data.
Proof. rewrite replicate_S_end, concat_app. cbn [concat]. rewrite app_nil_r. reflexivity. Qed.

Lemma medium_long : fmul (of_Z 1024) (of_Z 85) = of_Z 87040.
Proof. vm_compute. reflexivity. Qed.

(** The loop that fills [sourceData.long], one copy of the data each turn. *)
Lemma make_long_run medium h : heap_ok h -> holds medium_data medium h ->
  exists h' v, make_long medium h = (h', Ok v) /\ extends h h' /\ heap_ok h' /\ holds (source Long) v h'.
Proof.
  intros Hh [Hv Hb]. pose proof (length_bytes h medium Hv) as L. rewrite Hb in L. change (length medium_data) with 85%nat in L.
  unfold make_long. rewrite (bind_ok _ _ _ _ _ (buffer_length_run h (VView medium) Hv)). cbn [contents num_of].
  rewrite Hb. change (Z.of_nat (length medium_data)) with 85. rewrite medium_long.
  erewrite bind_ok by (apply new_zeros_run; lia).
  set (zeros := replicate (Z.to_nat 87040) 0). set (long := fresh_view h false 87040). set (h1 := grown h zeros).
  assert (Lz : length zeros = Z.to_nat 87040) by apply length_replicate.
  assert (O : owned h h1 long zeros).
  { pose proof (owned_new h zeros Hh (zeros_bytes _) ltac:(rewrite Lz; lia)) as O. rewrite Lz, Z2Nat.id in O by lia. exact O. }
  set (st := fun n : nat => match n with O => h1 | S _ => store h1 long 0 (concat (replicate n medium_data)) end).
  assert (Own : forall n, (n <= 1024)%nat -> owned h (st n) long (splice 0 (concat (replicate n medium_data)) zeros)).
  { intros [|n] Hn; [exact O|]. apply owned_store; [exact O|lia| |apply copies_bytes].
    rewrite copies_length. cbn [vlen long fresh_view]. lia. }
  assert (Loop : for_each (indices 0 1024 1) (fun i => typed_set long medium (i * vlen medium)) (st 0%nat) = (st 1024%nat, Ok tt)).
  { apply (for_each_steps (fun i => typed_set long medium (i * vlen medium)) st 1 1024); [lia|].
    intros j Hj. rewrite Z.mul_1_l. destruct (Own j ltac:(lia)) as [K1 K2 K3 K4 K5].
    destruct (extends_view h (st j) medium K4 Hv) as [Sv Sb].
    unfold typed_set. erewrite bind_ok by reflexivity. rewrite Sb, Hb. change (Z.of_nat (length medium_data)) with 85.
    rewrite <- L. change (Z.of_nat 85) with 85. cbn [vlen long fresh_view]. zbool. cbn [orb]. unfold modify. f_equal. unfold st at 1.
    rewrite Z.add_0_l. destruct j as [|j]; [reflexivity|]. unfold st. rewrite (copies_S (S j)), <- store_app by (cbn; lia).
    rewrite copies_length. do 2 f_equal. lia. }
  erewrite bind_ok by exact Loop. exists (st 1024%nat), long. split; [reflexivity|].
  pose proof (Own 1024%nat ltac:(lia)) as F. rewrite splice_full in F by (rewrite copies_length, Lz; lia).
  apply owned_makes, F.
Qed.

Lemma forall_sizes (P : size -> Prop) : Forall P sizes <-> forall s, P s.
Proof. unfold sizes. rewrite !Forall_cons, Forall_nil. split; [intros (? & ? & ? & ? & _) []; assumption|auto]. Qed.
Lemma forall_hashes (P : hash_name -> Prop) : Forall P hash_names <-> forall a, P a.
Proof. unfold hash_names. rewrite !Forall_cons, Forall_nil. split; [intros (? & ? & ? & ? & _) []; assumption|auto]. Qed.

(** ** The tables *)

(** [m] answers something [P] holds of, on a store that keeps the old one. *)
Definition gives {A} (P : A -> heap -> Prop) (m : M A) (h : heap) : Prop :=
  exists h' a, m h = (h', Ok a) /\ extends h h' /\ heap_ok h' /\ P a h'.

Lemma gives_bind {A B} (P : A -> heap -> Prop) (Q : B -> heap -> Prop) m (f : A -> M B) h :
  gives P m h -> (forall a h', extends h h' -> heap_ok h' -> P a h' -> gives Q (f a) h') -> gives Q (bind m f) h.
Proof.
  intros (h1 & a & E & X & Hh & Pa) Hf. destruct (Hf a h1 X Hh Pa) as (h2 & b & E2 & X2 & H2 & Qb).
  exists h2, b. rewrite (bind_ok _ _ _ _ _ E). split; [exact E2|]. split; [etransitivity; eassumption|auto].
Qed.

Lemma gives_ret {A} (P : A -> heap -> Prop) a h : heap_ok h -> P a h -> gives P (ret a) h.
Proof. intros Hh Pa. exists h, a. split; [reflexivity|]. split; [reflexivity|auto]. Qed.

Definition table_ok (data : size -> list Z) (t : size -> view) (h : heap) : Prop := forall s, holds (data s) (t s) h.

Lemma table_later data t h h' : extends h h' -> table_ok data t h -> table_ok data t h'.
Proof. intros X H s. eapply holding_later, H. exact X. Qed.

(** Four arrays made one after the other. *)
Lemma table_gives data (m1 m2 m3 : M view) (m4 : view -> M view) h : heap_ok h ->
  makes (data Empty) m1 -> makes (data Short) m2 -> makes (data Medium) m3 ->
  (forall v h', heap_ok h' -> holds (data Medium) v h' -> gives (holds (data Long)) (m4 v) h') ->
  gives (table_ok data)
    (let! empty := m1 in let! short := m2 in let! medium := m3 in let! long := m4 medium in
     ret (fun s => match s with Empty => empty | Short => short | Medium => medium | Long => long end)) h.
Proof.
  intros Hh M1 M2 M3 M4. eapply gives_bind; [apply M1, Hh|]. intros v1 h1 X1 H1 A1. cbn beta in A1.
  eapply gives_bind; [apply M2, H1|]. intros v2 h2 X2 H2 A2.
  eapply gives_bind; [apply M3, H2|]. intros v3 h3 X3 H3 A3.
  eapply gives_bind; [apply (M4 v3 h3 H3 A3)|]. intros v4 h4 X4 H4 A4.
  apply gives_ret; [exact H4|]. intros []; repeat first [assumption|eapply holding_later; [eassumption|]].
Qed.

Lemma make_sourceData_run h : heap_ok h -> gives (table_ok source) make_sourceData h.
Proof.
  intros Hh. apply (table_gives source _ _ _ make_long); [exact Hh|..].
  - exact (new_buffer_makes [] (Forall_nil_2 _) eq_refl).
  - exact (new_buffer_makes short_data short_bytes eq_refl).
  - exact (new_buffer_makes medium_data medium_bytes eq_refl).
  - intros v h' H' V. apply make_long_run; assumption.
Qed.

Lemma make_digests_run a h : heap_ok h -> gives (table_ok (digested_data a)) (make_digests a) h.
Proof.
  intros Hh. apply (table_gives (digested_data a) _ _ _ (fun _ => new_buffer false (digested_data a Long))); [exact Hh|..];
    try (apply new_buffer_makes; apply digested_bytes).
  intros _ h' H' _. apply new_buffer_makes; [apply digested_bytes..|exact H'].
Qed.

Definition tables_ok (t : hash_name -> size -> view) (h : heap) : Prop := forall a, table_ok (digested_data a) (t a) h.

Lemma make_digestedData_run h : heap_ok h -> gives tables_ok make_digestedData h.
Proof.
  intros Hh. eapply gives_bind; [apply make_digests_run, Hh|]. intros t1 h1 X1 H1 A1.
  eapply gives_bind; [apply make_digests_run, H1|]. intros t2 h2 X2 H2 A2.
  eapply gives_bind; [apply make_digests_run, H2|]. intros t3 h3 X3 H3 A3.
  eapply gives_bind; [apply make_digests_run, H3|]. intros t4 h4 X4 H4 A4.
  apply gives_ret; [exact H4|]. intros []; repeat first [assumption|eapply table_later; [eassumption|]].
Qed.

(** ** The result of each test *)

Section Facts.
Variable digest : jsstr -> arg -> outcome jsstr (list Z).

(** A digest is an array of bytes. *)
Hypothesis digests_bytes : forall name data l, digest name data = Ok l -> Forall byte l /\ Z.of_nat (length l) < 2 ^ 32.

Abbreviation starts_ok := (starts_ok heap_ok extends).
Abbreviation settles := (settles heap_ok extends).
Abbreviation Starts A := (starts heap thrown A).

(** What the callbacks say of a digest. *)
Definition compared (a : hash_name) (s : size) (r : outcome jsstr (list Z)) : result :=
  match r with
  | Ok l => assert_true (Bool (bool_decide (l = digested_data a s)))
              (Str (js "digest() yielded expected result for " ++ js (alg_key a) ++ js ":" ++ js (size_key s)))
  | Throw m => unreached ([Text "digest() threw an error for "; Text (alg_key a); Text ":"; Text (size_key s); Text " - "]
                            ++ error_message (native_error m))
  end.

Definition name_result (a : hash_name) (s : size) (name : jsstr) : result :=
  tested (name ++ js " with " ++ js (size_key s) ++ js " source data") (compared a s (digest name (still (source s)))).

Definition altered_result (a : hash_name) (s : size) : result :=
  tested (upCase a ++ js " with " ++ js (size_key s) ++ js " source data and altered buffer after call")
    (compared a s (digest (upCase a) (Arg (source s) (spoiled (source s))))).

Definition bad_name_result (s : size) (badName : jsstr) : result :=
  tested (badName ++ js " with " ++ js (size_key s))
    match digest badName (still (source s)) with
    | Ok _ => unreached [Text "digest() should not have worked for "; PVal (Str badName); Text ":"; Text (size_key s)]
    | Throw _ => Ok tt
    end.

Definition combination_results (s : size) (a : hash_name) : list result :=
  [name_result a s (upCase a); name_result a s (downCase a); name_result a s (mixedCase a); altered_result a s].

Definition sha_results : list result :=
  concat (map (fun s => concat (map (combination_results s) hash_names)) sizes)
  ++ concat (map (fun s => map (bad_name_result s) badNames) sizes).

(** ** Each test gives its result *)

(** What follows a digest, wherever its array buffer lies. *)
Lemma digest_settles h name c l data (on_ok : val -> Starts unit) (on_err : thrown -> Starts unit) q :
  holds l data h ->
  match digest name (Arg c l) with
  | Ok d => forall h' v, extends h h' -> heap_ok h' -> buffer_ok h' v -> contents h' v = d -> starts_ok anything h' (on_ok v) q
  | Throw m => forall h', starts_ok anything h' (on_err (native_error m)) q
  end ->
  settles anything h
    (then_ (native (fun h' => match digest name (Arg c (bytes h' data)) with
                              | Ok l => lib (let! a := new_ab l in ret (VArrayBuffer a)) h'
                              | Throw m => (h', Throw (native_error m))
                              end)) on_ok on_err) q.
Proof.
  intros D H. apply settles_turn. intros h1 L1 H1 h2 p E. rewrite (proj2 (holding_later _ _ _ _ L1 D)) in E.
  destruct (digest name (Arg c l)) as [d|m] eqn:Ed.
  - destruct (digests_bytes _ _ _ Ed) as [Db Dl]. destruct (new_ab_run h1 d H1 Db Dl) as (h3 & a & Ea & X & H3 & Bo & Co).
    unfold lib in E. rewrite (bind_ok _ _ _ _ _ Ea) in E. injection E as <- <-. split; [exact X|]. split; [exact H3|].
    apply settles_turn, H; [etransitivity; eassumption|exact H3|exact Bo|exact Co].
  - injection E as <- <-. split; [reflexivity|]. split; [exact H1|]. apply settles_turn, H.
Qed.

(** The digest asked for in [h1], awaited from [h2] on. *)
Lemma expect_settles h1 h2 a s name l data expected :
  holds l data h2 -> holds (digested_data a s) expected h2 ->
  exists op, expect_digest digest expected a s name data h1 = (h1, op) /\
    settles anything h2 op (compared a s (digest name (Arg (bytes h1 data) l))).
Proof.
  intros D X. eexists. split; [reflexivity|]. apply digest_settles with (l := l); [exact D|].
  unfold compared. destruct (digest name (Arg (bytes h1 data) l)) as [d|m]; [|intros h'; apply check_ok].
  intros h v X2 Hh Bo <-. destruct (holding_later _ _ _ _ X2 X) as [V B].
  apply (starts_first heap_ok extends anything (fun eq _ => eq = bool_decide (contents h v = digested_data a s))).
  - intros h3 X3 H3. destruct (buffer_extends _ _ v X3 Bo) as [Bo3 Co3]. destruct (extends_view _ _ _ X3 V) as [V3 B3].
    destruct (equalBuffers_run h3 v (VView expected) H3 Bo3 V3) as (h4 & E & X4 & H4).
    exists h4. unfold lib. setoid_rewrite E. eexists. split; [reflexivity|]. split; [exact X4|]. split; [exact H4|].
    cbn [contents]. rewrite Co3, B3, B. reflexivity.
  - intros eq h3 _ _ ->. apply check_ok.
Qed.

Lemma name_test_ok h a s name data expected : holds (source s) data h -> holds (digested_data a s) expected h ->
  starts_ok anything h (name_test digest expected a s name data) (name_result a s name).
Proof.
  intros D X. unfold name_test, name_result. apply promise_test_ok. intros h1 L1 H1 h2 p E.
  pose proof (holding_later _ _ _ _ L1 D) as D1.
  destruct (expect_settles h1 h1 a s name _ _ _ D1 (holding_later _ _ _ _ L1 X)) as (op & Eo & So).
  rewrite Eo in E. injection E as <- <-. rewrite (proj2 D1) in So. split; [reflexivity|]. split; [exact H1|exact So].
Qed.

Lemma altered_test_ok h a s data expected : holds (source s) data h -> holds (digested_data a s) expected h ->
  starts_ok anything h (altered_test digest expected a s data) (altered_result a s).
Proof.
  intros D X. unfold altered_test, altered_result. apply promise_test_ok. intros h1 L1 H1 h4 p E.
  destruct (holding_later _ _ _ _ L1 D) as [V1 B1].
  destruct (copyBuffer_run h1 (VView data) H1 V1) as (h2 & c & R2 & O2). cbn [contents] in O2. rewrite B1 in O2.
  destruct (spoil_run h1 h2 c _ O2) as (h3 & R3 & O3). destruct O2 as [A1 A2 A3 A4 _], O3 as [C1 C2 C3 C4 _].
  destruct (expect_settles h2 h3 a s (upCase a) (spoiled (source s)) c expected (conj C2 C3)) as (op & Eo & So).
  { eapply holding_later; [|exact X]. etransitivity; eassumption. }
  unfold first, lib in E. setoid_rewrite R2 in E. rewrite Eo in E. rewrite R3 in E. injection E as <- <-.
  rewrite A3 in So. auto.
Qed.

Lemma bad_name_test_ok h s name data : holds (source s) data h ->
  starts_ok anything h (bad_name_test digest name s data) (bad_name_result s name).
Proof.
  intros D. unfold bad_name_test, bad_name_result. apply promise_test_ok. intros h1 L1 H1 h2 p E.
  pose proof (holding_later _ _ _ _ L1 D) as D1. injection E as <- <-. split; [reflexivity|]. split; [exact H1|].
  rewrite (proj2 D1). apply digest_settles with (l := source s); [exact D1|].
  unfold still. destruct (digest name (Arg (source s) (source s))) as [d|m]; intros; apply check_ok.
Qed.

(** ** The handler *)

Lemma await_tests_ok h ts rs : Forall2 (fun t r => starts_ok anything h t r) ts rs ->
  starts_ok anything h (await_tests ts) (first_failure rs).
Proof.
  revert h rs. induction ts as [|t ts IH]; intros h rs H; inversion H as [|? r ? rs' H1 H2]; subst; cbn [await_tests first_failure].
  { apply check_ok. }
  apply (starts_await_call heap_ok extends anything anything h t r); [exact H1|apply anything_stable|].
  destruct r as [[]|e]; [|split; [reflexivity|auto]]. intros h' L _. apply IH.
  eapply Forall2_impl; [exact H2|]. intros t' r' S. eapply starts_mono; [exact _|exact S|exact L].
Qed.

Lemma concat_map_ok {A} (f : A -> list (Starts unit)) (g : A -> list result) h (l : list A) :
  (forall a, Forall2 (starts_ok anything h) (f a) (g a)) ->
  Forall2 (starts_ok anything h) (concat (map f l)) (concat (map g l)).
Proof. intros H. induction l as [|a l IH]; cbn; [constructor|]. apply Forall2_app; [apply H|exact IH]. Qed.

Lemma handler_ok h : starts_ok anything h (handleRequest digest) (first_failure sha_results).
Proof.
  apply (starts_first heap_ok extends anything (table_ok source)).
  { intros h1 _ H1. destruct (make_sourceData_run h1 H1) as (h2 & t & E & X & H2 & T). exists h2, t. unfold lib. rewrite E. auto. }
  intros sourceData h1 _ H1 T1. apply (starts_first heap_ok extends anything tables_ok).
  { intros h2 _ H2. destruct (make_digestedData_run h2 H2) as (h3 & t & E & X & H3 & T). exists h3, t. unfold lib. rewrite E. auto. }
  intros digestedData h2 X2 H2 T2. pose proof (table_later _ _ _ _ X2 T1) as T1'.
  apply await_tests_ok. unfold sha_results. apply Forall2_app; apply concat_map_ok; intros s.
  - apply concat_map_ok. intros a. unfold combination, combination_results. specialize (T1' s). specialize (T2 a s).
    repeat apply Forall2_cons_2; [apply name_test_ok; assumption..|apply altered_test_ok; assumption|constructor].
  - unfold badNames. specialize (T1' s). repeat apply Forall2_cons_2; [apply bad_name_test_ok; exact T1'..|constructor].
Qed.

(** ** What the test accepts *)

(** The digests of a source are right under each spelling of the hash's name, on
    the bytes of the call, and no digest has one of the other names. *)
Definition computes_digests (s : size) : Prop :=
  (forall a name, name ∈ [upCase a; downCase a; mixedCase a] ->
     digest name (still (source s)) = Ok (digested_data a s)) /\
  (forall a, digest (upCase a) (Arg (source s) (spoiled (source s))) = Ok (digested_data a s)) /\
  (forall name, name ∈ badNames -> exists m, digest name (still (source s)) = Throw m).

Definition passes (r : result) : Prop := exists a, r = Ok a.

Lemma passes_tested desc r : passes (tested desc r) <-> r = Ok tt.
Proof. rewrite <- (tested_ok desc). split; [intros [[] H]; exact H|intros H; exists tt; exact H]. Qed.

Lemma compared_ok a s r : compared a s r = Ok tt <-> r = Ok (digested_data a s).
Proof.
  destruct r as [l|m]; cbn [compared]; [|split; discriminate]. rewrite assert_true_ok.
  destruct (bool_decide_reflect (l = digested_data a s)) as [->|N]; split; congruence.
Qed.

Lemma combination_passes s a : Forall passes (combination_results s a) <->
  (forall name, name ∈ [upCase a; downCase a; mixedCase a] -> digest name (still (source s)) = Ok (digested_data a s)) /\
  digest (upCase a) (Arg (source s) (spoiled (source s))) = Ok (digested_data a s).
Proof.
  unfold combination_results, name_result, altered_result. rewrite !Forall_cons, Forall_nil, !passes_tested, !compared_ok. split.
  - intros (H1 & H2 & H3 & H4 & _). split; [|exact H4]. intros name. rewrite !elem_of_cons, elem_of_nil.
    intros [->|[->|[->|[]]]]; assumption.
  - intros [H1 H2]. split; [apply H1; left|]. split; [apply H1; right; left|]. split; [apply H1; right; right; left|auto].
Qed.

Lemma bad_name_passes s name : passes (bad_name_result s name) <-> exists m, digest name (still (source s)) = Throw m.
Proof.
  unfold bad_name_result. rewrite passes_tested. destruct (digest name _) as [d|m]; split; try discriminate; eauto.
  intros [m H]. discriminate.
Qed.

Lemma sha_passes : Forall passes sha_results <-> forall s, computes_digests s.
Proof.
  unfold sha_results, computes_digests. rewrite Forall_app, !Forall_concat, !Forall_map.
  rewrite !forall_sizes. split.
  - intros [H1 H2] s. specialize (H1 s). specialize (H2 s). rewrite Forall_concat, Forall_map, forall_hashes in H1. rewrite Forall_map in H2.
    split; [|split]; [intros a|intros a|intros name Hn].
    + apply combination_passes, H1.
    + apply combination_passes, H1.
    + apply bad_name_passes. rewrite Forall_forall in H2. apply H2, Hn.
  - intros H. split; intros s; destruct (H s) as (H1 & H2 & H3).
    + rewrite Forall_concat, Forall_map, forall_hashes. intros a. apply combination_passes. auto.
    + rewrite Forall_map, Forall_forall. intros name Hn. apply bad_name_passes, H3, Hn.
Qed.

(** C7: the test of the digests always answers, whatever else runs between its
    turns and only adds array buffers: the response is the first failure in the
    order of the tests, and a success exactly when, for every source, each hash
    gives its expected bytes under its three spellings, also when the buffer is
    changed after the call, and the other names are rejected. *)
Theorem sha_response h : heap_ok h ->
  exists h1 p, handleRequest digest h = (h1, p) /\
    (forall h2, extends h1 h2 -> heap_ok h2 ->
       exists h3, settle_alone p h2 = (h3, first_failure sha_results) /\ extends h2 h3) /\
    (respond (first_failure sha_results) = (200, inl "All tests passed!"%string) <-> forall s, computes_digests s).
Proof.
  intros Hh. destruct (handleRequest digest h) as [h1 p] eqn:E. exists h1, p. split; [reflexivity|].
  destruct (handler_ok h h ltac:(reflexivity) Hh h1 p E) as (X & H1 & S). split.
  - intros h2 X2 H2. pose proof (settles_mono heap_ok extends anything h1 h2 p _ anything_stable S X2) as S2.
    destruct (settles_alone heap_ok extends anything h2 p _ S2 H2) as (h3 & E3 & X3 & _). eauto.
  - rewrite <- sha_passes. unfold passes. rewrite <- first_failure_ok.
    destruct (first_failure sha_results) as [[]|e]; cbn; split; congruence.
Qed.
End Facts.

(** ** Instances *)

(** A digest that knows the four sources by their lengths. *)
Definition source_of (l : list Z) : size :=
  match l with
  | [] => Empty
  | _ => match drop 16 l, drop 85 l with [], _ => Short | _, [] => Medium | _, _ => Long end
  end.

Definition sample_digest (name : jsstr) (data : arg) : outcome jsstr (list Z) :=
  match find (fun a => str_eqb (upCase a) (toUpperCase name)) hash_names with
  | Some a => Ok (digested_data a (source_of (at_call data)))
  | None => Throw (js "unknown")
  end.

Lemma sample_digests_bytes name data l : sample_digest name data = Ok l -> Forall byte l /\ Z.of_nat (length l) < 2 ^ 32.
Proof.
  unfold sample_digest. destruct (find _ hash_names) as [a|]; [|discriminate]. intros [= <-]. apply digested_bytes.
Qed.

Lemma sample_computes_digests s : computes_digests sample_digest s.
Proof.
  split; [|split]; [intros a name Hn|intros a|intros name Hn].
  - rewrite !elem_of_cons, elem_of_nil in Hn. destruct Hn as [->|[->|[->|[]]]]; destruct a, s; reflexivity.
  - destruct a, s; reflexivity.
  - exists (js "unknown"). unfold badNames in Hn. rewrite !elem_of_cons, elem_of_nil in Hn.
    destruct Hn as [->|[->|[->|[->|[]]]]]; destruct s; reflexivity.
Qed.

Lemma sha_response_witness : exists h1 p, handleRequest sample_digest (Heap ∅ 0) = (h1, p) /\
  respond (settle_alone p h1).2 = (200, inl "All tests passed!"%string).
Proof.
  assert (Hh : heap_ok (Heap ∅ 0)) by (intros a l H; cbn in H; rewrite lookup_empty in H; discriminate).
  destruct (sha_response sample_digest sample_digests_bytes (Heap ∅ 0) Hh) as (h1 & p & E & R & A).
  exists h1, p. split; [exact E|].
  assert (H1 : heap_ok h1).
  { pose proof (handler_ok sample_digest sample_digests_bytes (Heap ∅ 0) (Heap ∅ 0) ltac:(reflexivity) Hh h1 p E) as (_ & H1 & _). exact H1. }
  destruct (R h1 ltac:(reflexivity) H1) as (h3 & E3 & _). rewrite E3. exact (proj2 A sample_computes_digests).
Defined.
