(* ===== verification/TimerTest.v ===== *)
(** The test of the timers (test-suite/js-test-app/src/test-files/15-timers.js):
    five tests made with [async_test], three at a time and then one after the
    other, on the timers of a [service].

    A turn of the event loop runs the callback of one timer and then what waits
    for the promises it settled. *)

From Stdlib Require Import String.
From stdpp Require Import base numbers list relations.
From S2P Require Import Prelude JsNumber JsValue Streams TestSuite Async PromiseTest Timers.

Local Open Scope Z_scope.
Local Open Scope js_scope.

(** The five tests, by what they try. *)
Inductive test_name : Type :=
| ClearInCallback
| ClearTimeoutByInterval
| ClearIntervalByTimeout
| NoInterval
| UndefinedInterval.

#[export] Instance test_name_eq_dec : EqDecision test_name.
Proof. solve_decision. Defined.

(** The functions of a test: the one given to [async_test], the callback of its
    interval or timeout, [t.done], and the two of [timeout_trampoline]. *)
Inductive func : Type := Body | Callback | Done | Outer | Inner.

(** A function given to a timer: what [step_func] answers, or the function itself. *)
Inductive handler : Type := Step (f : func) | Nothing | Plain (f : func).

(** The variables of a test: [wasPreviouslyCalled], [ctr], and [handle] or [h]. *)
Record variables : Type := Variables { wasPreviouslyCalled : bool; ctr : Z; saved : option nat }.

Definition update {A} (n : test_name) (a : A) (f : test_name -> A) : test_name -> A :=
  fun m => if decide (m = n) then a else f m.

(** What the tests share. *)
Record program : Type := Program { event_loop : loop (test_name * handler); vars : test_name -> variables }.

Section TimerTest.
Variable native : service (test_name * handler).

Abbreviation T A := (comp (@test_state thrown func program) thrown A).

(** ** A test of its own *)

(** Code that acts on the program and not on the test object. *)
Definition on_program {A} (f : program -> program * A) : T A :=
  fun s => let '(p, a) := f (world s) in (TestState (finished s) (promise s) (timers s) p, Ok a).

Definition on_loop {A} (f : loop (test_name * handler) -> loop (test_name * handler) * A) : T A :=
  on_program (fun p => let '(l, a) := f (event_loop p) in (Program l (vars p), a)).

Definition setTimeout (n : test_name) (h : handler) (d : option val) : T nat := on_loop (add_timer false (n, h) (delay_of native d)).
Definition setInterval (n : test_name) (h : handler) (d : option val) : T nat := on_loop (add_timer true (n, h) (delay_of native d)).
Definition clear_timeout (h : nat) : T unit := on_loop (fun l => (clearTimeout native h l, tt)).
Definition clear_interval (h : nat) : T unit := on_loop (fun l => (clearInterval native h l, tt)).

Definition get_vars (n : test_name) : T variables := read (fun s => vars (world s) n).
Definition set_vars (n : test_name) (v : variables) : T unit :=
  on_program (fun p => (Program (event_loop p) (update n v (vars p)), tt)).

(** [const handle = ...] and its use before that is done. *)
Definition save (n : test_name) (h : nat) : T unit :=
  let! v := get_vars n in set_vars n (Variables (wasPreviouslyCalled v) (ctr v) (Some h)).
Definition saved_handle (n : test_name) : T nat :=
  let! v := get_vars n in
  match saved v with
  | Some h => ret h
  | None => throw (LangError "ReferenceError" "can't access lexical declaration before initialization")
  end.

(** [t.step_func(f)]. *)
Definition stepped (f : func) : T handler := let! d := read finished in ret (if negb d then Step f else Nothing).

Definition unreached_here (m : val) : T unit := fun s => (s, assert_unreached (MVal m)).

(** The callback of the first test. *)
Definition on_interval (n : test_name) : T unit :=
  let! v := get_vars n in
  if negb (wasPreviouslyCalled v) then
    do! set_vars n (Variables true (ctr v) (saved v)) in
    let! handle := saved_handle n in
    do! clear_interval handle in
    let! _h := setTimeout n (Plain Done) (Some (Num (of_Z 750))) in ret tt
  else unreached_here Undefined.

(** The callback of the last two. *)
Definition count (n : test_name) : T unit :=
  let! v := get_vars n in
  do! set_vars n (Variables (wasPreviouslyCalled v) (ctr v + 1) (saved v)) in
  if ctr v + 1 =? 2 then let! h := saved_handle n in do! clear_interval h in test_done
  else ret tt.

Definition timeout_trampoline : T unit := step_timeout Outer (Num (of_Z 100)).

Definition counted_test (n : test_name) (interval : option val) : T unit :=
  let! f := stepped Callback in
  let! h := setInterval n f interval in
  do! save n h in
  timeout_trampoline.

Definition body (n : test_name) : T unit :=
  match n with
  | ClearInCallback =>
      let! f := stepped Callback in
      let! handle := setInterval n f (Some (Num (of_Z 500))) in
      save n handle
  | ClearTimeoutByInterval =>
      let! f := stepped Callback in
      let! handle := setTimeout n f (Some (Num (of_Z 0))) in
      do! clear_interval handle in
      let! _h := setTimeout n (Plain Done) (Some (Num (of_Z 100))) in ret tt
  | ClearIntervalByTimeout =>
      let! f := stepped Callback in
      let! handle := setInterval n f (Some (Num (of_Z 0))) in
      do! clear_timeout handle in
      let! _h := setTimeout n (Plain Done) (Some (Num (of_Z 100))) in ret tt
  | NoInterval => counted_test n None
  | UndefinedInterval => counted_test n (Some Undefined)
  end.

Definition timer_callback (n : test_name) : T unit :=
  match n with
  | ClearInCallback => on_interval n
  | ClearTimeoutByInterval => unreached_here (Str (js "Timeout was not canceled"))
  | ClearIntervalByTimeout => unreached_here (Str (js "Interval was not canceled"))
  | NoInterval | UndefinedInterval => count n
  end.

(** Calling a function of a test. *)
Definition call (n : test_name) (f : func) : T unit :=
  match f with
  | Body => body n
  | Callback => timer_callback n
  | Done => test_done
  | Outer => step_timeout Inner (Num (of_Z 100))
  | Inner => unreached_here (Str (js "Expected setInterval callback to be called two times"))
  end.

Definition run_handler (n : test_name) (h : handler) : T unit :=
  match h with
  | Step f => guarded (call n) f
  | Nothing => ret tt
  | Plain f => call n f
  end.

(** ** All of them *)

(** What the handler of the request awaits: the tests whose promises it waits
    for and those it starts after them, or nothing once it has answered. *)
Inductive progress : Type :=
| Waiting (awaited rest : list test_name)
| Answered (r : outcome thrown unit).

Record state : Type := State {
  prog : program;
  status : test_name -> bool * settlement thrown;
  phase : progress }.

(** The timers a turn starts with [step_timeout]: no function of this file also
    starts others after them. *)
Definition start_step_timeouts (n : test_name) (ts : list (func * val)) (p : program) : program :=
  fold_left (fun p '(f, d) => Program (add_timer false (n, Step f) (delay_of native (Some d)) (event_loop p)).1 (vars p)) ts p.

Definition store_test (n : test_name) (s : @test_state thrown func program) (g : state) : state :=
  State (start_step_timeouts n (timers s) (world s)) (update n (finished s, promise s) (status g)) (phase g).

(** [async_test(...)]. *)
Definition start_test (n : test_name) (g : state) : state * outcome thrown unit :=
  let '(s, r) := async_test (call n) Body (prog g) in (store_test n s g, r).

(** Calling a function of a test that has started. *)
Definition in_test (n : test_name) (h : handler) (g : state) : state :=
  store_test n (run_handler n h (TestState (status g n).1 (status g n).2 [] (prog g))).1 g.

Definition fulfilled (g : state) (n : test_name) : bool := match (status g n).2 with Fulfilled => true | _ => false end.
Fixpoint rejection (g : state) (l : list test_name) : option thrown :=
  match l with
  | [] => None
  | n :: l => match (status g n).2 with Rejected e => Some e | _ => rejection g l end
  end.

Definition with_phase (g : state) (p : progress) : state := State (prog g) (status g) p.

(** [await] of the tests: goes on when all have settled, or one has failed. *)
Fixpoint proceed (rest awaited : list test_name) (g : state) : state :=
  match rejection g awaited with
  | Some e => with_phase g (Answered (Throw e))
  | None =>
      if forallb (fulfilled g) awaited then
        match rest with
        | [] => with_phase g (Answered (Ok tt))
        | n :: rest =>
            match start_test n g with
            | (g, Ok _) => proceed rest [n] g
            | (g, Throw e) => with_phase g (Answered (Throw e))
            end
        end
      else with_phase g (Waiting awaited rest)
  end.

Definition resume (g : state) : state :=
  match phase g with Waiting awaited rest => proceed rest awaited g | Answered _ => g end.

(** The tests of [Promise.all], then the handler waits. *)
Fixpoint start_all (l : list test_name) (g : state) : state * outcome thrown unit :=
  match l with
  | [] => (g, Ok tt)
  | n :: l => match start_test n g with
              | (g, Ok _) => start_all l g
              | r => r
              end
  end.

Definition together : list test_name := [ClearInCallback; ClearTimeoutByInterval; ClearIntervalByTimeout].

Definition handleRequest (l : loop (test_name * handler)) : state :=
  match start_all together (State (Program l (fun _ => Variables false 0 None)) (fun _ => (false, Pending)) (Waiting together [NoInterval; UndefinedInterval])) with
  | (g, Ok _) => resume g
  | (g, Throw e) => with_phase g (Answered (Throw e))
  end.

(** The turn of a timer; what a plain callback throws is reported and no more. *)
Definition turn (i : nat) (g : state) : state :=
  match take_timer i (event_loop (prog g)) with
  | Some (t, l) =>
      let '(n, h) := callback t in
      let g := resume (in_test n h (State (Program l (vars (prog g))) (status g) (phase g))) in
      State (Program (rearm t (event_loop (prog g))) (vars (prog g))) (status g) (phase g)
  | None => g
  end.

Inductive fires (g : state) : state -> Prop :=
| fires_turn i : fires_next native (pending (event_loop (prog g))) i -> fires g (turn i g).

Definition response (g : state) : option (Z * (string + thrown)) :=
  match phase g with Answered r => Some (respond r) | Waiting _ _ => None end.

End TimerTest.
