(* ===== verification/TimerFacts.v ===== *)
(** What the test of the timers accepts: on every service that does what the
    standard promises, every order of events ends in a success. *)

From Stdlib Require Import String.
From stdpp Require Import base numbers list relations.
From S2P Require Import Prelude JsNumber JsValue Streams TestSuite Async PromiseTest Timers TimerTest.

Local Open Scope Z_scope.
Local Open Scope js_scope.

Abbreviation T A := (comp (@test_state thrown func program) thrown A).

(** The service that takes every liberty. *)
Abbreviation any := (@any_service (test_name * handler)).

(** ** The service matters only through what is documented *)

Section Agree.
Variable s : service (test_name * handler).
Hypothesis D : documented s.

Create HintDb agree.
Create HintDb asking.

(** Two programs that do the same. *)
Definition same {A} (m m' : T A) : Prop := forall st, m st = m' st.

Lemma same_refl {A} (m : T A) : same m m.
Proof. intros st. reflexivity. Qed.

Lemma same_bind {A B} (m m' : T A) (k k' : A -> T B) : same m m' -> (forall a, same (k a) (k' a)) -> same (bind m k) (bind m' k').
Proof. intros H K st. unfold bind. rewrite H. destruct (m' st) as [st' [a|e]]; [apply K|reflexivity]. Qed.

Lemma same_if {A} (b : bool) (m m' k k' : T A) : same m m' -> same k k' -> same (if b then m else k) (if b then m' else k').
Proof. destruct b; auto. Qed.

Lemma same_clear_timeout h : same (clear_timeout s h) (clear_timeout any h).
Proof. intros st. unfold clear_timeout, on_loop, on_program. rewrite (clears_timeout s D). reflexivity. Qed.

Lemma same_clear_interval h : same (clear_interval s h) (clear_interval any h).
Proof. intros st. unfold clear_interval, on_loop, on_program. rewrite (clears_interval s D). reflexivity. Qed.

(** The delays the tests ask for. *)
Definition known_delay (d : option val) : Prop :=
  d = None \/ d = Some Undefined \/ exists z, 0 <= z < 2 ^ 31 /\ d = Some (Num (of_Z z)).

Lemma same_delay d : known_delay d -> delay_of s d = delay_of any d.
Proof.
  intros [->|[->|(z & Hz & ->)]].
  - apply (delay_missing s D).
  - apply (delay_undefined s D).
  - rewrite (delay_number s D z Hz). symmetry. apply (delay_number any any_documented z Hz).
Qed.

Lemma same_setTimeout n h d : known_delay d -> same (setTimeout s n h d) (setTimeout any n h d).
Proof. intros K st. unfold setTimeout. rewrite same_delay by exact K. reflexivity. Qed.
Lemma same_setInterval n h d : known_delay d -> same (setInterval s n h d) (setInterval any n h d).
Proof. intros K st. unfold setInterval. rewrite same_delay by exact K. reflexivity. Qed.

Lemma known_number z : 0 <= z < 2 ^ 31 -> known_delay (Some (Num (of_Z z))).
Proof. intros H. right. right. eauto. Qed.
Lemma known_missing : known_delay None.
Proof. left. reflexivity. Qed.
Lemma known_undefined : known_delay (Some Undefined).
Proof. right. left. reflexivity. Qed.

#[local] Hint Resolve same_refl same_clear_timeout same_clear_interval same_setTimeout same_setInterval
  known_missing known_undefined : agree.
#[local] Hint Extern 1 (known_delay (Some (Num (of_Z _)))) => apply known_number; lia : agree.

Ltac agree :=
  repeat first [ solve [auto with agree] | apply same_bind; [|intros] | apply same_if ].

Lemma same_call n f : same (call s n f) (call any n f).
Proof.
  destruct n, f; cbn [call body timer_callback]; unfold counted_test, on_interval, count; agree.
Qed.

Lemma same_run_handler n h : same (run_handler s n h) (run_handler any n h).
Proof.
  destruct h as [f| |f]; intros st; cbn [run_handler]; [|reflexivity|apply same_call].
  unfold guarded. rewrite same_call. reflexivity.
Qed.

(** What [step_timeout] is given. *)
Definition asks (ts : list (func * val)) : Prop := Forall (fun t => known_delay (Some t.2)) ts.

Lemma same_store n (st : @test_state thrown func program) g : asks (timers st) -> store_test s n st g = store_test any n st g.
Proof.
  intros H. unfold store_test. f_equal. generalize (world st). induction H as [|[f d] ts K _ IH]; intros p; [reflexivity|].
  unfold start_step_timeouts. cbn [fold_left]. rewrite same_delay by exact K. apply IH.
Qed.

(** A program that adds to [timers] only what [asks] allows. *)
Definition asking {A} (m : T A) : Prop := forall st, asks (timers st) -> asks (timers (m st).1).

Lemma asking_bind {A B} (m : T A) (k : A -> T B) : asking m -> (forall a, asking (k a)) -> asking (bind m k).
Proof.
  intros H K st A0. specialize (H st A0). unfold bind. destruct (m st) as [st' [a|e]]; [apply K, H|exact H].
Qed.

Lemma asking_if {A} (b : bool) (m k : T A) : asking m -> asking k -> asking (if b then m else k).
Proof. destruct b; auto. Qed.

Lemma asking_program {A} (f : program -> program * A) : asking (on_program f).
Proof. intros st H. unfold on_program. destruct (f (world st)). exact H. Qed.
Lemma asking_loop {A} f : asking (@on_loop A f).
Proof. apply asking_program. Qed.
Lemma asking_modify f : (forall st, timers (f st) = timers st) -> asking (modify f).
Proof. intros H st A0. cbn. rewrite H. exact A0. Qed.
Lemma asking_timeout f z : 0 <= z < 2 ^ 31 -> asking (step_timeout f (Num (of_Z z))).
Proof.
  intros Hz. apply asking_bind; [intros st H; exact H|]. intros [|]; [intros st H; exact H|].
  intros st H. cbn. apply Forall_app. split; [exact H|]. apply Forall_cons. split; [apply (known_number z), Hz|constructor].
Qed.
Lemma asking_saved n : asking (saved_handle n).
Proof. apply asking_bind; [intros st H; exact H|]. intros v. destruct (saved v); intros st H; exact H. Qed.
Lemma asking_done : asking test_done.
Proof. apply asking_bind; [intros st H; exact H|]. intros [|]; intros st H; exact H. Qed.

#[local] Hint Resolve asking_program asking_loop asking_saved asking_done : asking.
#[local] Hint Extern 1 (asking (step_timeout _ _)) => apply asking_timeout; lia : asking.

Ltac asking :=
  repeat first [ solve [auto with asking] | solve [intros ? ?; assumption] | apply asking_bind; [|intros] | apply asking_if ].

Lemma asking_call n f : asking (call any n f).
Proof.
  destruct n, f; cbn [call body timer_callback]; unfold counted_test, on_interval, count, setTimeout, setInterval, timeout_trampoline, save; asking.
Qed.

Lemma asking_handler n h : asking (run_handler any n h).
Proof.
  destruct h as [f| |f]; cbn [run_handler]; [|intros st H; exact H|apply asking_call].
  intros st H. pose proof (asking_call n f st H) as A0. unfold guarded.
  destruct (call any n f st) as [st' [[]|e]]; exact A0.
Qed.

Lemma same_start n g : start_test s n g = start_test any n g.
Proof.
  unfold start_test, async_test. rewrite same_call.
  pose proof (asking_call n Body (TestState false Pending [] (prog g)) (Forall_nil_2 _)) as A0.
  destruct (call any n Body _) as [st r]. rewrite same_store by exact A0. reflexivity.
Qed.

Lemma same_in_test n h g : in_test s n h g = in_test any n h g.
Proof.
  unfold in_test. rewrite same_run_handler. apply same_store, asking_handler. constructor.
Qed.

Lemma same_proceed rest : forall awaited g, proceed s rest awaited g = proceed any rest awaited g.
Proof.
  induction rest as [|n rest IH]; intros awaited g; cbn [proceed]; [reflexivity|].
  destruct (rejection g awaited); [reflexivity|]. destruct (forallb _ _); [|reflexivity].
  rewrite same_start. destruct (start_test any n g) as [g' [[]|e]]; [apply IH|reflexivity].
Qed.

Lemma same_resume g : resume s g = resume any g.
Proof. unfold resume. destruct (phase g); [apply same_proceed|reflexivity]. Qed.

Lemma same_turn i g : turn s i g = turn any i g.
Proof.
  unfold turn. destruct (take_timer i _) as [[t l]|]; [|reflexivity]. destruct (callback t) as [n h].
  rewrite same_in_test, same_resume. reflexivity.
Qed.

Lemma same_start_all l : forall g, start_all s l g = start_all any l g.
Proof.
  induction l as [|n l IH]; intros g; cbn [start_all]; [reflexivity|]. rewrite same_start.
  destruct (start_test any n g) as [g' [[]|e]]; [apply IH|reflexivity].
Qed.

Lemma same_request l : handleRequest s l = handleRequest any l.
Proof.
  unfold handleRequest. rewrite same_start_all. destruct (start_all any _ _) as [g' [[]|e]]; [apply same_resume|reflexivity].
Qed.
End Agree.

(** ** Every order of events, explored

    From the request on the orders are finitely many, and none is longer than
    the fuel. *)

Definition waiting_timers (g : state) : list (timer (test_name * handler)) := pending (event_loop (prog g)).

(** [ok] holds of every state reached, [last] of those where nothing is pending. *)
Fixpoint explore (ok last : state -> bool) (fuel : nat) (g : state) : bool :=
  ok g &&
  match waiting_timers g with
  | [] => last g
  | ts =>
      match fuel with
      | O => false
      | S fuel => forallb (fun i => implb (in_order ts i) (explore ok last fuel (turn any i g))) (seq 0 (length ts))
      end
  end.

Section Explore.
Variables (ok last : state -> bool) (s : service (test_name * handler)).
Hypothesis D : documented s.

Lemma explore_ok fuel g : explore ok last fuel g = true -> ok g = true.
Proof. destruct fuel; cbn [explore]; intros H; apply andb_prop in H as [H _]; exact H. Qed.

Lemma in_order_lt {C} (l : list (timer C)) i : in_order l i = true -> (i < length l)%nat.
Proof. unfold in_order. destruct (l !! i) eqn:E; [|discriminate]. intros _. eapply lookup_lt_Some, E. Qed.

Lemma explore_turn fuel g i : explore ok last fuel g = true -> in_order (waiting_timers g) i = true ->
  exists fuel', fuel = S fuel' /\ explore ok last fuel' (turn any i g) = true.
Proof.
  intros H Hi. pose proof (in_order_lt _ _ Hi) as L.
  destruct fuel as [|fuel]; cbn [explore] in H; apply andb_prop in H as [_ H];
    (destruct (waiting_timers g) as [|t ts]; [cbn in L; lia|]); [discriminate|].
  exists fuel. split; [reflexivity|]. rewrite forallb_forall in H.
  specialize (H i). rewrite Hi in H. apply H. apply in_seq. lia.
Qed.

(** A turn is one of those explored. *)
Lemma explore_step fuel g g' : explore ok last fuel g = true -> fires s g g' ->
  exists fuel', fuel = S fuel' /\ explore ok last fuel' g' = true.
Proof.
  intros H [i Hi]. rewrite (same_turn s D). apply explore_turn; [exact H|]. apply (next_pending s D), Hi.
Qed.

Lemma explore_ends fuel : forall g, explore ok last fuel g = true -> sn (fires s) g.
Proof.
  induction fuel as [|fuel IH]; intros g H; constructor; intros g' F; unfold flip in F;
    destruct (explore_step _ _ _ H F) as (fuel' & E & H'); [discriminate|]. injection E as <-. apply IH, H'.
Qed.

Lemma explore_reaches g g' : rtc (fires s) g g' -> forall fuel, explore ok last fuel g = true ->
  exists fuel', explore ok last fuel' g' = true.
Proof.
  induction 1 as [g|g g1 g' F _ IH]; intros fuel H; [eauto|].
  destruct (explore_step _ _ _ H F) as (fuel' & _ & H'). apply (IH fuel' H').
Qed.

Lemma explore_last fuel g : explore ok last fuel g = true -> nf (fires s) g -> last g = true.
Proof.
  intros H N. assert (E : waiting_timers g = []).
  { destruct (waiting_timers g) as [|t l] eqn:E; [reflexivity|]. exfalso. apply N.
    destruct (next_exists s D (waiting_timers g)) as [i Hi]; [rewrite E; discriminate|]. eexists. apply (fires_turn s g i), Hi. }
  destruct fuel; cbn [explore] in H; rewrite E in H; apply andb_prop in H as [_ H]; exact H.
Qed.
End Explore.

(** The answer is missing or a success, and at the end it is there. *)
Definition no_failure (g : state) : bool := match phase g with Answered (Throw _) => false | _ => true end.
Definition passed (g : state) : bool := match phase g with Answered (Ok _) => true | _ => false end.

Lemma all_orders_pass : explore no_failure passed 12 (handleRequest any (Loop 0 [])) = true.
Proof. vm_compute. reflexivity. Qed.

(** C8: the test of the timers always answers, with a success, on every service
    that does what is documented: that clears timers and intervals with either
    function, takes a missing delay for 0 and fires no timer before an earlier one
    with the same delay or a shorter one.  Whatever order it chooses, the events
    come to an end, no state on the way has answered a failure, and at the end
    the answer is there. *)
Theorem timers_pass s : documented s ->
  sn (fires s) (handleRequest s (Loop 0 [])) /\
  (forall g, rtc (fires s) (handleRequest s (Loop 0 [])) g ->
     (response g = None \/ response g = Some (200, inl "All tests passed!"%string)) /\
     (nf (fires s) g -> response g = Some (200, inl "All tests passed!"%string))).
Proof.
  intros D. rewrite (same_request s D). split; [eapply (explore_ends _ _ s D), all_orders_pass|].
  intros g R. destruct (explore_reaches _ _ s D _ _ R _ all_orders_pass) as [fuel H].
  pose proof (explore_ok _ _ _ _ H) as O. unfold response, no_failure in *. split.
  - destruct (phase g) as [|[[]|e]]; [left|right|discriminate]; reflexivity.
  - intros N. pose proof (explore_last _ _ s D _ _ H N) as P. unfold passed in P.
    destruct (phase g) as [|[[]|e]]; [discriminate|reflexivity|discriminate].
Qed.

Lemma timers_pass_witness : exists g, rtc (fires any) (handleRequest any (Loop 0 [])) g /\
  response g = Some (200, inl "All tests passed!"%string).
Proof.
  destruct (timers_pass any any_documented) as [E P].
  assert (W : forall g, sn (fires any) g -> exists g', rtc (fires any) g g' /\ nf (fires any) g').
  { induction 1 as [g _ IH]. destruct (waiting_timers g) as [|t l] eqn:Et.
    - exists g. split; [constructor|]. intros [g' [i Hi]]. cbn in Hi. unfold waiting_timers in Et. rewrite Et in Hi. discriminate.
    - destruct (next_exists any any_documented (waiting_timers g)) as [i Hi]; [rewrite Et; discriminate|].
      destruct (IH (turn any i g) (fires_turn any g i Hi)) as (g' & R & N). exists g'. split; [|exact N].
      econstructor; [apply (fires_turn any g i Hi)|exact R]. }
  destruct (W _ E) as (g & R & N). exists g. split; [exact R|]. apply (P g R), N.
Defined.

(** ** What it does not accept *)

(** The state after the timers at the given places have fired. *)
Definition fired (s : service (test_name * handler)) (places : list nat) : state :=
  fold_left (fun g i => turn s i g) places (handleRequest s (Loop 0 [])).

(** [clearInterval] that leaves timeouts alone, and a missing delay of a second. *)
Definition keeps_timeouts : service (test_name * handler) :=
  Service any_delay remove_timer
    (fun h l => Loop (next_handle l) (filter (fun t => handle t <> h \/ repeats t = false) (pending l))) (fires_next any).
Definition slow_default : service (test_name * handler) :=
  Service (fun d => match d with None => 1000 | _ => any_delay d end) remove_timer remove_timer (fires_next any).

Example uncleared_timeout : option_map fst (response (fired keeps_timeouts [1%nat])) = Some 500.
Proof. vm_compute. reflexivity. Qed.

Example late_interval : option_map fst (response (fired slow_default [0; 0; 0; 0; 1; 1]%nat)) = Some 500.
Proof. vm_compute. reflexivity. Qed.
