(* ===== verification/UuidTest.v ===== *)
(** The test of random values (test-suite/js-test-app/src/test-files/16-crypto.js):
    the form of [crypto.randomUUID], which may not repeat itself, and the arrays
    [crypto.getRandomValues] fills and refuses.

    Both functions are native and are arguments. *)

From Stdlib Require Import SpecFloat String.
From stdpp Require Import base numbers list gmap.
From S2P Require Import Prelude JsNumber JsValue Encoding Streams TestSuite Async PromiseTest.

Local Open Scope Z_scope.
Local Open Scope js_scope.

(** ** Strings *)

(** A regular expression from start to end: classes of characters, each a number
    of times. *)
Definition regex : Type := list ((Z -> bool) * nat).

Fixpoint test_regex (r : regex) (s : jsstr) : bool :=
  match r with
  | [] => match s with [] => true | _ => false end
  | (c, n) :: r => Nat.leb n (length s) && forallb c (take n s) && test_regex r (drop n s)
  end.

(** [[a-f0-9]] and [-]. *)
Definition lower_hex (c : Z) : bool := ((97 <=? c) && (c <=? 102)) || ((48 <=? c) && (c <=? 57)).
Definition dash (c : Z) : bool := c =? 45.

Definition UUIDRegex : regex :=
  [(lower_hex, 8%nat); (dash, 1%nat); (lower_hex, 4%nat); (dash, 1%nat); (lower_hex, 4%nat); (dash, 1%nat);
   (lower_hex, 4%nat); (dash, 1%nat); (lower_hex, 12%nat)].

(** [s.split('-')]. *)
Fixpoint split_dash (s : jsstr) : list jsstr :=
  match s with
  | [] => [[]]
  | c :: s =>
      if c =? 45 then [] :: split_dash s
      else match split_dash s with
           | p :: ps => (c :: p) :: ps
           | [] => [[c]]
           end
  end.

(** [parseInt(s, 16)]: white space, a sign and [0x] are skipped, the digits end at
    the first character that is none. *)
Definition digit_value (c : Z) : option Z :=
  if (48 <=? c) && (c <=? 57) then Some (c - 48)
  else if (97 <=? c) && (c <=? 102) then Some (c - 87)
  else if (65 <=? c) && (c <=? 70) then Some (c - 55)
  else None.

Fixpoint digits_of (s : jsstr) : list Z :=
  match s with
  | c :: s => match digit_value c with Some d => d :: digits_of s | None => [] end
  | [] => []
  end.

Definition strip_sign (s : jsstr) : Z * jsstr :=
  match s with
  | c :: t => if c =? 45 then (-1, t) else if c =? 43 then (1, t) else (1, s)
  | [] => (1, s)
  end.

Definition strip_0x (s : jsstr) : jsstr :=
  match s with
  | c :: x :: t => if (c =? 48) && ((x =? 120) || (x =? 88)) then t else s
  | _ => s
  end.

Definition parseInt16 (s : jsstr) : num :=
  let '(sign, s) := strip_sign (trim_start s) in
  match digits_of (strip_0x s) with
  | [] => NaN
  | l => let v := of_Z (fold_left (fun a d => a * 16 + d) l 0) in if sign <? 0 then fopp v else v
  end.

(** ** Typed arrays *)

Inductive array_type : Type :=
| Int8Array | Int16Array | Int32Array | BigInt64Array | Uint8Array | Uint8ClampedArray | Uint16Array | Uint32Array
| BigUint64Array | Float32Array | Float64Array | DataView.

#[export] Instance array_type_eq_dec : EqDecision array_type.
Proof. solve_decision. Defined.

Definition array_name (a : array_type) : string :=
  match a with
  | Int8Array => "Int8Array" | Int16Array => "Int16Array" | Int32Array => "Int32Array" | BigInt64Array => "BigInt64Array"
  | Uint8Array => "Uint8Array" | Uint8ClampedArray => "Uint8ClampedArray" | Uint16Array => "Uint16Array"
  | Uint32Array => "Uint32Array" | BigUint64Array => "BigUint64Array" | Float32Array => "Float32Array"
  | Float64Array => "Float64Array" | DataView => "DataView"
  end.

(** A view of bytes counts as one byte an element. *)
Definition BYTES_PER_ELEMENT (a : array_type) : Z :=
  match a with
  | Int8Array | Uint8Array | Uint8ClampedArray | DataView => 1
  | Int16Array | Uint16Array => 2
  | Int32Array | Uint32Array | Float32Array => 4
  | BigInt64Array | BigUint64Array | Float64Array => 8
  end.

Definition arrays : list array_type :=
  [Int8Array; Int16Array; Int32Array; BigInt64Array; Uint8Array; Uint8ClampedArray; Uint16Array; Uint32Array; BigUint64Array].

(** ** The test *)

Section UuidTest.
(** What each call of [crypto.randomUUID] answers, and what
    [crypto.getRandomValues] throws or answers, by its constructor and length,
    for an array of a type and a length. *)
Variable randomUUIDs : nat -> jsstr.
Variable getRandomValues : array_type -> Z -> outcome thrown (array_type * Z).

(** How often [crypto.randomUUID] was called, and [uuids]. *)
Record state : Type := State { calls : nat; uuids : gset jsstr }.

Abbreviation Run A := (comp state thrown A).

Definition iterations : Z := 256.

Definition randomUUID : Run jsstr :=
  fun s => let uuid := randomUUIDs (calls s) in
           let s := State (S (calls s)) (uuids s) in
           if bool_decide (uuid ∈ uuids s) then (s, Throw (NewError [Text "uuid collision "; PVal (Str uuid)]))
           else (State (calls s) ({[ uuid ]} ∪ uuids s), Ok uuid).

Definition lift (r : result) : Run unit := fun s => (s, r).

Definition each_uuid (check : jsstr -> result) : Run unit :=
  for_each (indices 0 iterations 1) (fun _ => let! uuid := randomUUID in lift (check uuid)).

Definition check_format (uuid : jsstr) : result := assert_true (Bool (test_regex UUIDRegex uuid)) Undefined.

(** [parseInt(uuid.split('-')[field].slice(0, 2), 16) & mask === bits]. *)
Definition check_bits (field : nat) (mask bits : Z) (uuid : jsstr) : result :=
  match split_dash uuid !! field with
  | None => Throw (LangError "TypeError" "uuid.split(...)[field] is undefined")
  | Some part =>
      let value := and32 (ToInt32 (parseInt16 (take 2 part))) mask in
      assert_true (Bool (value =? bits)) Undefined
  end.

Definition check_version : jsstr -> result := check_bits 2 240 64.
Definition check_variant : jsstr -> result := check_bits 3 192 128.

(** A call of [getRandomValues] for what it throws. *)
Definition random_call (a : array_type) (n : Z) : result :=
  match getRandomValues a n with Ok _ => Ok tt | Throw e => Throw e end.

Definition text (s : string) : val := Str (js s).

Definition float_arrays : Run unit :=
  do! lift (assert_throws_js (random_call Float32Array 6) (text "Float32Array")) in
  do! lift (assert_throws_js (random_call Float64Array 6) (text "Float64Array")) in
  do! lift (assert_throws_js (random_call Float32Array (65536 / BYTES_PER_ELEMENT Float32Array + 1)) (text "Float32Array (too long)")) in
  lift (assert_throws_js (random_call Float64Array (65536 / BYTES_PER_ELEMENT Float64Array + 1)) (text "Float64Array (too long)")).

Definition data_views : Run unit :=
  do! lift (assert_throws_js (random_call DataView 6) (text "DataView")) in
  lift (assert_throws_js (random_call DataView (65536 + 1)) (text "DataView (too long)")).

(** The comparison of two constructors by [===]; a constructor is shown as the
    string of its name. *)
Definition same_constructor (array : array_type) : result :=
  match getRandomValues array 8 with
  | Ok (c, _) => assert_equals (text (array_name c)) (text (array_name array))
                   (Str (js "crypto.getRandomValues(new " ++ js (array_name array) ++ js "(8))"))
  | Throw e => Throw e
  end.

Definition too_long (array : array_type) : result :=
  assert_throws_js (random_call array (65536 / BYTES_PER_ELEMENT array + 1)) (text "crypto.getRandomValues length over 65536").

Definition null_array (array : array_type) : result :=
  match getRandomValues array 0 with
  | Ok (_, length) => assert_true (Bool (length =? 0)) Undefined
  | Throw e => Throw e
  end.

(** [test(f, desc)] for an [f] that takes no argument. *)
Definition plain_test (f : Run unit) (desc : jsstr) : Run unit := test (fun _ => f) (Str desc).

Definition array_tests (array : array_type) : Run unit :=
  do! plain_test (lift (same_constructor array)) (js "Integer array: " ++ js (array_name array)) in
  do! plain_test (lift (too_long array)) (js "Large length: " ++ js (array_name array)) in
  plain_test (lift (null_array array)) (js "Null arrays: " ++ js (array_name array)).

Fixpoint all_arrays (l : list array_type) : Run unit :=
  match l with
  | [] => ret tt
  | a :: l => do! array_tests a in all_arrays l
  end.

Definition handleRequest : Run unit :=
  do! plain_test (each_uuid check_format) (js "namespace format") in
  do! plain_test (each_uuid check_version) (js "version set") in
  do! plain_test (each_uuid check_variant) (js "variant set") in
  do! plain_test float_arrays (js "Float arrays") in
  do! plain_test data_views (js "DataView") in
  all_arrays arrays.

Definition response : Z * (string + thrown) := respond (handleRequest (State 0 ∅)).2.

End UuidTest.
