(* ===== verification/UuidFacts.v ===== *)
(** What the test of random values accepts. *)

From Stdlib Require Import SpecFloat String.
From stdpp Require Import base numbers list gmap.
From S2P Require Import Prelude JsNumber JsValue Encoding EncodingFacts Streams TestSuite Async PromiseTest UuidTest.

Local Open Scope Z_scope.
Local Open Scope js_scope.

(** ** The text of a UUID *)

Definition hexes (l : list Z) : jsstr := concat (map hex_pair l).

(** Sixteen bytes in the groups of a UUID. *)
Record uuid_bytes : Type := UuidBytes { low : list Z; mid : list Z; high : list Z; clock : list Z; node : list Z }.

Definition format_uuid (b : uuid_bytes) : jsstr :=
  hexes (low b) ++ js "-" ++ hexes (mid b) ++ js "-" ++ hexes (high b) ++ js "-" ++ hexes (clock b) ++ js "-" ++ hexes (node b).

Definition group_ok (n : nat) (l : list Z) : Prop := length l = n /\ Forall byte l.

Definition uuid_ok (b : uuid_bytes) : Prop :=
  group_ok 4 (low b) /\ group_ok 2 (mid b) /\ group_ok 2 (high b) /\ group_ok 2 (clock b) /\ group_ok 6 (node b).

(** The four bits of the version and the two of the variant. *)
Definition version (b : uuid_bytes) : Z := at_ (high b) 0 / 16.
Definition variant (b : uuid_bytes) : Z := at_ (clock b) 0 / 64.

Lemma hex_of_digit d : 0 <= d < 16 -> lower_hex (hex_digit d) = true.
Proof. intros H. unfold lower_hex, hex_digit. destruct (Z.ltb_spec d 10); zbool; reflexivity. Qed.

Lemma digit_of_hex c : lower_hex c = true -> exists d, 0 <= d < 16 /\ c = hex_digit d.
Proof.
  unfold lower_hex. rewrite orb_true_iff, !andb_true_iff, !Z.leb_le. unfold hex_digit. intros [H|H].
  - exists (c - 87). split; [lia|]. destruct (Z.ltb_spec (c - 87) 10); lia.
  - exists (c - 48). split; [lia|]. destruct (Z.ltb_spec (c - 48) 10); lia.
Qed.

Lemma hexes_length l : length (hexes l) = (2 * length l)%nat.
Proof. induction l as [|x l IH]; [reflexivity|]. change (hexes (x :: l)) with (hex_pair x ++ hexes l). rewrite length_app, IH. cbn. lia. Qed.

Lemma hexes_lower l : Forall byte l -> forallb lower_hex (hexes l) = true.
Proof.
  induction 1 as [|x l Hx _ IH]; [reflexivity|]. unfold byte in Hx. cbn.
  rewrite !hex_of_digit by (split; [apply Z.div_pos || apply Z.mod_pos_bound|apply Z.div_lt_upper_bound || apply Z.mod_pos_bound]; lia).
  exact IH.
Qed.

Lemma lower_hexes n : forall s, length s = (2 * n)%nat -> forallb lower_hex s = true -> exists l, group_ok n l /\ s = hexes l.
Proof.
  induction n as [|n IH]; intros s L H.
  { destruct s; [|cbn in L; lia]. exists []. repeat constructor. }
  destruct s as [|c [|d s]]; try (cbn in L; lia). cbn in H. apply andb_prop in H as [Hc H]. apply andb_prop in H as [Hd H].
  destruct (IH s ltac:(cbn in L; lia) H) as (l & [Ll Lb] & ->).
  destruct (digit_of_hex c Hc) as (x & Hx & ->). destruct (digit_of_hex d Hd) as (y & Hy & ->).
  exists ((x * 16 + y) :: l). split; [split; [cbn; lia|constructor; [unfold byte; lia|exact Lb]]|].
  unfold hexes. cbn [map concat hex_pair app]. rewrite Z.div_add_l, (Z.div_small y 16), Z.add_0_r by lia.
  rewrite Z.add_comm, Z.mod_add, (Z.mod_small y 16) by lia. reflexivity.
Qed.

(** A group of a regular expression at the head of a string. *)
Lemma test_group c n r s t : length s = n -> forallb c s = true -> test_regex ((c, n) :: r) (s ++ t) = test_regex r t.
Proof.
  intros L H. cbn [test_regex]. rewrite take_app_length', drop_app_length' by (symmetry; exact L).
  rewrite H, length_app, L, (proj2 (Nat.leb_le _ _)) by lia. reflexivity.
Qed.

Lemma test_hexes n r l t : group_ok n l -> test_regex ((lower_hex, (2 * n)%nat) :: r) (hexes l ++ t) = test_regex r t.
Proof. intros [L B]. apply test_group; [rewrite hexes_length; lia|apply hexes_lower, B]. Qed.

Lemma test_dash r t : test_regex ((dash, 1%nat) :: r) (js "-" ++ t) = test_regex r t.
Proof. apply test_group; reflexivity. Qed.

Lemma match_group c n r s : test_regex ((c, n) :: r) s = true ->
  exists g t, s = g ++ t /\ length g = n /\ forallb c g = true /\ test_regex r t = true.
Proof.
  cbn [test_regex]. rewrite !andb_true_iff, Nat.leb_le. intros [[L H] T].
  exists (take n s), (drop n s). split; [symmetry; apply take_drop|]. split; [apply length_take_le, L|auto].
Qed.

Lemma match_hexes n r s : test_regex ((lower_hex, (2 * n)%nat) :: r) s = true ->
  exists l t, s = hexes l ++ t /\ group_ok n l /\ test_regex r t = true.
Proof.
  intros H. apply match_group in H as (g & t & -> & L & G & T). destruct (lower_hexes n g L G) as (l & Hl & ->). eauto.
Qed.

Lemma match_dash r s : test_regex ((dash, 1%nat) :: r) s = true -> exists t, s = js "-" ++ t /\ test_regex r t = true.
Proof.
  intros H. apply match_group in H as (g & t & -> & L & G & T). destruct g as [|c [|d g]]; try discriminate.
  cbn in G. unfold dash in G. rewrite andb_true_r, Z.eqb_eq in G. subst c. eauto.
Qed.

(** The expression matches the texts of UUIDs and no other strings. *)
Lemma regex_uuid s : test_regex UUIDRegex s = true <-> exists b, uuid_ok b /\ s = format_uuid b.
Proof.
  split.
  - intros H. apply (match_hexes 4) in H as (a & t1 & -> & Ga & H). apply match_dash in H as (t2 & -> & H).
    apply (match_hexes 2) in H as (b & t3 & -> & Gb & H). apply match_dash in H as (t4 & -> & H).
    apply (match_hexes 2) in H as (c & t5 & -> & Gc & H). apply match_dash in H as (t6 & -> & H).
    apply (match_hexes 2) in H as (d & t7 & -> & Gd & H). apply match_dash in H as (t8 & -> & H).
    apply (match_hexes 6) in H as (e & t9 & -> & Ge & H). destruct t9 as [|x t9]; [|discriminate].
    exists (UuidBytes a b c d e). split; [repeat split; apply Ga || apply Gb || apply Gc || apply Gd || apply Ge|].
    unfold format_uuid. cbn [low mid high clock node]. rewrite (app_nil_r (hexes e)). reflexivity.
  - intros (b & (Ga & Gb & Gc & Gd & Ge) & ->). unfold format_uuid, UUIDRegex.
    rewrite (test_hexes 4) by exact Ga. rewrite test_dash, (test_hexes 2) by exact Gb.
    rewrite test_dash, (test_hexes 2) by exact Gc. rewrite test_dash, (test_hexes 2) by exact Gd.
    rewrite test_dash. rewrite <- (app_nil_r (hexes (node b))). rewrite (test_hexes 6) by exact Ge. reflexivity.
Qed.

(** *** Its fields *)

Lemma split_group l t : forallb lower_hex l = true -> split_dash (l ++ js "-" ++ t) = l :: split_dash t.
Proof.
  induction l as [|c l IH]; intros H; [reflexivity|]. cbn [forallb] in H. apply andb_prop in H as [Hc H].
  cbn [app split_dash]. assert (N : (c =? 45) = false).
  { apply Z.eqb_neq. intros ->. discriminate. }
  rewrite N, IH by exact H. reflexivity.
Qed.

Lemma parse_pair x : byte x -> ToInt32 (parseInt16 (hex_pair x)) = x.
Proof.
  intros H. apply Z.eqb_eq. revert x H. apply (forall_byte (fun x => ToInt32 (parseInt16 (hex_pair x)) =? x)).
  vm_compute. reflexivity.
Qed.

Lemma first_pair l : (0 < length l)%nat -> take 2 (hexes l) = hex_pair (at_ l 0).
Proof. destruct l as [|x l]; cbn; [lia|reflexivity]. Qed.

Lemma version_bits x : byte x -> (and32 x 240 =? 64) = (x / 16 =? 4).
Proof.
  intros H. apply eqb_prop. revert x H. apply (forall_byte (fun x => eqb (and32 x 240 =? 64) (x / 16 =? 4))).
  vm_compute. reflexivity.
Qed.
Lemma variant_bits x : byte x -> (and32 x 192 =? 128) = (x / 64 =? 2).
Proof.
  intros H. apply eqb_prop. revert x H. apply (forall_byte (fun x => eqb (and32 x 192 =? 128) (x / 64 =? 2))).
  vm_compute. reflexivity.
Qed.

Lemma check_field b field l : split_dash (format_uuid b) !! field = Some (hexes l) -> group_ok 2 l -> forall mask bits,
  check_bits field mask bits (format_uuid b) = Ok tt <-> (and32 (at_ l 0) mask =? bits) = true.
Proof.
  intros E [L B] mask bits. unfold check_bits. rewrite E, first_pair by lia.
  assert (Bx : byte (at_ l 0)) by (destruct l as [|x l]; [discriminate|inversion B; assumption]).
  rewrite parse_pair by exact Bx. rewrite assert_true_ok. split; [intros [= H]; exact H|intros ->; reflexivity].
Qed.

Lemma fields b : uuid_ok b ->
  split_dash (format_uuid b) !! 2%nat = Some (hexes (high b)) /\ split_dash (format_uuid b) !! 3%nat = Some (hexes (clock b)).
Proof.
  intros (A & B & C & D & _). unfold format_uuid. rewrite !split_group by (apply hexes_lower; apply A || apply B || apply C || apply D).
  split; reflexivity.
Qed.

(** ** What passes *)

(** From [s] the code passes exactly when [P], and then leaves [s']. *)
Definition passes_if (m : comp state thrown unit) (s : state) (P : Prop) (s' : state) : Prop :=
  ((m s).2 = Ok tt <-> P) /\ ((m s).2 = Ok tt -> (m s).1 = s').

Lemma passes_bind m k s P s' Q s'' : passes_if m s P s' -> passes_if k s' Q s'' -> passes_if (do! m in k) s (P /\ Q) s''.
Proof.
  unfold passes_if, bind. destruct (m s) as [t [[]|e]]; cbn [fst snd].
  - intros [H E] [K F]. rewrite (E eq_refl). split; [rewrite K, <- H; tauto|exact F].
  - intros [H _] _. split; [|discriminate]. rewrite <- H. split; [discriminate|intros [? _]; discriminate].
Qed.

Lemma passes_test m d s P s' : passes_if m s P s' -> passes_if (plain_test m d) s P s'.
Proof.
  unfold passes_if, plain_test, test. destruct (m s) as [t [[]|e]]; cbn [fst snd]; [auto|].
  intros [H _]. split; [|discriminate]. rewrite <- H. split; discriminate.
Qed.

Lemma passes_lift r s P : (r = Ok tt <-> P) -> passes_if (lift r) s P s.
Proof. intros H. split; [exact H|reflexivity]. Qed.

Lemma passes_iff m s P Q s' : (P <-> Q) -> passes_if m s P s' -> passes_if m s Q s'.
Proof. unfold passes_if. intros H [K E]. split; [rewrite K; exact H|exact E]. Qed.

Section Accepts.
Variable randomUUIDs : nat -> jsstr.
Variable getRandomValues : array_type -> Z -> outcome thrown (array_type * Z).

(** The UUIDs of the first calls. *)
Definition seen (k : nat) : gset jsstr := list_to_set (map randomUUIDs (seq 0 k)).

Lemma seen_S k : seen (S k) = {[ randomUUIDs k ]} ∪ seen k.
Proof. unfold seen. rewrite seq_S, map_app, list_to_set_app_L. cbn. rewrite union_empty_r_L, union_comm_L. reflexivity. Qed.

Lemma elem_of_seen x k : x ∈ seen k <-> exists i, (i < k)%nat /\ randomUUIDs i = x.
Proof.
  unfold seen. rewrite elem_of_list_to_set, list_elem_of_In, in_map_iff. setoid_rewrite in_seq. split.
  - intros (i & E & H). exists i. split; [lia|exact E].
  - intros (i & H & E). exists i. split; [exact E|lia].
Qed.

Definition new_uuid (j : nat) : Prop := forall i, (i < j)%nat -> randomUUIDs i <> randomUUIDs j.

Lemma passes_uuid k check : passes_if (let! uuid := randomUUID randomUUIDs in lift (check uuid)) (State k (seen k))
  (new_uuid k /\ check (randomUUIDs k) = Ok tt) (State (S k) (seen (S k))).
Proof.
  unfold passes_if, bind, randomUUID. cbn [calls uuids]. case_bool_decide as H; cbn [fst snd lift calls uuids].
  - split; [|discriminate]. split; [discriminate|]. intros [N _]. apply elem_of_seen in H as (i & Hi & E). destruct (N i Hi E).
  - rewrite seen_S. split; [|reflexivity]. split; [|intros [_ C]; exact C]. intros C. split; [|exact C].
    intros i Hi E. apply H, elem_of_seen. eauto.
Qed.

Lemma passes_loop check l : forall k, passes_if (for_each l (fun _ => let! uuid := randomUUID randomUUIDs in lift (check uuid)))
  (State k (seen k)) (forall j, (k <= j < k + length l)%nat -> new_uuid j /\ check (randomUUIDs j) = Ok tt)
  (State (k + length l) (seen (k + length l))).
Proof.
  induction l as [|i l IH]; intros k; cbn [for_each length].
  - rewrite Nat.add_0_r. split; [|reflexivity]. split; [intros _ j; lia|reflexivity].
  - rewrite Nat.add_succ_r, <- Nat.add_succ_l. eapply passes_iff; [|eapply passes_bind; [apply passes_uuid|apply IH]]. split.
    + intros [H K] j Hj. destruct (decide (j = k)) as [->|N]; [exact H|apply K; lia].
    + intros H. split; [apply H; lia|intros j Hj; apply H; lia].
Qed.

Lemma passes_each check k : passes_if (each_uuid randomUUIDs check) (State k (seen k))
  (forall j, (k <= j < k + 256)%nat -> new_uuid j /\ check (randomUUIDs j) = Ok tt) (State (k + 256) (seen (k + 256))).
Proof. apply (passes_loop check (indices 0 iterations 1)). Qed.

(** [getRandomValues] throws. *)
Definition refuses (a : array_type) (n : Z) : Prop := exists e, getRandomValues a n = Throw e /\ e <> Value Undefined.

Lemma refused a n m : assert_throws_js (random_call getRandomValues a n) m = Ok tt <-> refuses a n.
Proof.
  rewrite assert_throws_js_ok. unfold random_call, refuses. destruct (getRandomValues a n) as [x|e]; split; intros (e' & H & N);
    try discriminate; injection H as ->; eauto.
Qed.

(** What it should do with an array of integers of a type. *)
Definition fills (a : array_type) : Prop :=
  (exists n, getRandomValues a 8 = Ok (a, n)) /\ refuses a (65536 / BYTES_PER_ELEMENT a + 1) /\
  (exists c, getRandomValues a 0 = Ok (c, 0)).

Lemma same_constructor_ok a : same_constructor getRandomValues a = Ok tt <-> exists n, getRandomValues a 8 = Ok (a, n).
Proof.
  unfold same_constructor. destruct (getRandomValues a 8) as [[c n]|e]; [|split; [discriminate|intros [? ?]; discriminate]].
  rewrite assert_equals_ok. cbn [strict_eq text]. split.
  - intros H. exists n. destruct a, c; try reflexivity; discriminate H.
  - intros [m [= -> ->]]. destruct a; reflexivity.
Qed.

Lemma null_array_ok a : null_array getRandomValues a = Ok tt <-> exists c, getRandomValues a 0 = Ok (c, 0).
Proof.
  unfold null_array. destruct (getRandomValues a 0) as [[c n]|e]; [|split; [discriminate|intros [? ?]; discriminate]].
  rewrite assert_true_ok. split; [intros [= ->%Z.eqb_eq]; eauto|intros [c' [= -> ->]]; reflexivity].
Qed.

Lemma passes_array a s : passes_if (array_tests getRandomValues a) s (fills a) s.
Proof.
  eapply passes_iff; [|repeat (eapply passes_bind; [apply passes_test, passes_lift; reflexivity|]); apply passes_test, passes_lift; reflexivity].
  unfold fills, too_long. rewrite same_constructor_ok, null_array_ok, refused. reflexivity.
Qed.

Lemma passes_arrays l s : passes_if (all_arrays getRandomValues l) s (Forall fills l) s.
Proof.
  induction l as [|a l IH]; cbn [all_arrays].
  - split; [|reflexivity]. split; [constructor|reflexivity].
  - eapply passes_iff; [symmetry; apply Forall_cons|]. eapply passes_bind; [apply passes_array|exact IH].
Qed.

(** *** The whole test *)

Definition refuses_floats : Prop :=
  refuses Float32Array 6 /\ refuses Float64Array 6 /\ refuses Float32Array 16385 /\ refuses Float64Array 8193 /\
  refuses DataView 6 /\ refuses DataView 65537.

Definition uuids_pass (check : jsstr -> result) (lo hi : nat) : Prop :=
  forall j, (lo <= j < hi)%nat -> new_uuid j /\ check (randomUUIDs j) = Ok tt.

Lemma passes_handler : passes_if (handleRequest randomUUIDs getRandomValues) (State 0 (seen 0))
  (uuids_pass check_format 0 256 /\ uuids_pass check_version 256 512 /\ uuids_pass check_variant 512 768 /\
   (refuses Float32Array 6 /\ refuses Float64Array 6 /\ refuses Float32Array 16385 /\ refuses Float64Array 8193) /\
   (refuses DataView 6 /\ refuses DataView 65537) /\ Forall fills arrays) (State 768 (seen 768)).
Proof.
  unfold handleRequest.
  eapply passes_bind; [apply passes_test, (passes_each check_format 0)|].
  eapply passes_bind; [apply passes_test, (passes_each check_version 256)|].
  eapply passes_bind; [apply passes_test, (passes_each check_variant 512)|].
  eapply passes_bind; [apply passes_test; repeat (eapply passes_bind; [apply passes_lift, refused|]); apply passes_lift, refused|].
  eapply passes_bind; [apply passes_test; eapply passes_bind; [apply passes_lift, refused|apply passes_lift, refused]|].
  apply passes_arrays.
Qed.

(** C9: the test of random values answers a success exactly when 768 calls of
    [crypto.randomUUID] never repeat an answer, the first 256 answers are sixteen
    bytes written in the form of a UUID, the next 256 have the version and the
    last the variant the test looks for, and [crypto.getRandomValues] refuses
    arrays of floats, views of bytes and more than 65536 bytes and fills the nine
    kinds of integer arrays.  On the form of a UUID the two later checks are those
    of the version 4 and the variant 2. *)
Theorem uuid_response :
  (response randomUUIDs getRandomValues = (200, inl "All tests passed!"%string) <->
     (forall i j, (i < j < 768)%nat -> randomUUIDs i <> randomUUIDs j) /\
     (forall k, (k < 256)%nat -> exists b, uuid_ok b /\ randomUUIDs k = format_uuid b) /\
     (forall k, (256 <= k < 512)%nat -> check_version (randomUUIDs k) = Ok tt) /\
     (forall k, (512 <= k < 768)%nat -> check_variant (randomUUIDs k) = Ok tt) /\
     refuses_floats /\ Forall fills arrays) /\
  (forall b, uuid_ok b ->
     (check_version (format_uuid b) = Ok tt <-> version b = 4) /\
     (check_variant (format_uuid b) = Ok tt <-> variant b = 2)).
Proof.
  split.
  - unfold response. destruct passes_handler as [H _]. change (State 0 ∅) with (State 0 (seen 0)).
    assert (R : forall o : outcome thrown unit, respond o = (200, inl "All tests passed!"%string) <-> o = Ok tt).
    { intros [[]|e]; cbn; split; congruence. }
    rewrite R, H. unfold uuids_pass, refuses_floats, new_uuid, check_format. split.
    + intros (A & B & C & F & V & L). split; [|split; [|split; [|split; [|tauto]]]].
      * intros i j Hij. destruct (decide (j < 256)%nat); [apply A; lia|].
        destruct (decide (j < 512)%nat); [apply B; lia|apply C; lia].
      * intros k Hk. destruct (A k ltac:(lia)) as [_ E]. apply assert_true_ok in E. injection E as E. apply regex_uuid, E.
      * intros k Hk. apply B, Hk.
      * intros k Hk. apply C, Hk.
    + intros (N & A & B & C & F & L). repeat (split; [try (intros j Hj; split; [intros i Hi; apply N; lia|])|]); try tauto.
      * apply assert_true_ok. f_equal. apply regex_uuid, A. lia.
      * apply B, Hj.
      * apply C, Hj.
  - intros b Hb. destruct (fields b Hb) as [E2 E3]. pose proof Hb as (_ & _ & H & K & _).
    assert (By : forall l, group_ok 2 l -> byte (at_ l 0)).
    { intros l [Ll Lb]. destruct l as [|x l]; [discriminate|inversion Lb; assumption]. }
    unfold check_version, check_variant. rewrite (check_field b 2 (high b) E2 H), (check_field b 3 (clock b) E3 K).
    rewrite version_bits, variant_bits, !Z.eqb_eq by (apply By; assumption). split; reflexivity.
Qed.
End Accepts.

(** ** An instance *)

(** UUIDs of version 4 that count the calls, and arrays filled as they should be. *)
Definition counted (k : nat) : uuid_bytes :=
  UuidBytes [Z.of_nat k / 256 mod 256; Z.of_nat k mod 256; 0; 0] [0; 0] [64; 0] [128; 0] [0; 0; 0; 0; 0; 0].

Definition sample_random (a : array_type) (n : Z) : outcome thrown (array_type * Z) :=
  if existsb (fun b => bool_decide (a = b)) arrays && (n * BYTES_PER_ELEMENT a <=? 65536) then Ok (a, n)
  else Throw (LangError "TypeMismatchError" "The type of the array or its length is wrong").

Lemma counted_ok k : uuid_ok (counted k).
Proof.
  assert (B : forall x, 0 <= x < 256 -> byte x) by auto.
  unfold uuid_ok, group_ok, counted. cbn [low mid high clock node length].
  repeat split; repeat (apply Forall_cons; split); try apply Forall_nil; try apply B; try (apply Z.mod_pos_bound); lia.
Qed.

Lemma first_bytes x y l rest : byte x -> byte y ->
  ToInt32 (parseInt16 (take 2 (hexes (x :: y :: l) ++ rest))) = x /\
  ToInt32 (parseInt16 (take 2 (drop 2 (hexes (x :: y :: l) ++ rest)))) = y.
Proof.
  intros Hx Hy. change (take 2 (hexes (x :: y :: l) ++ rest)) with (hex_pair x).
  change (take 2 (drop 2 (hexes (x :: y :: l) ++ rest))) with (hex_pair y). split; apply parse_pair; assumption.
Qed.

Lemma counted_distinct i j : (i < j < 768)%nat -> format_uuid (counted i) <> format_uuid (counted j).
Proof.
  intros H E.
  assert (F : forall k, (k < 768)%nat ->
    ToInt32 (parseInt16 (take 2 (format_uuid (counted k)))) = Z.of_nat k / 256 /\
    ToInt32 (parseInt16 (take 2 (drop 2 (format_uuid (counted k))))) = Z.of_nat k mod 256).
  { intros k Hk. assert (M : Z.of_nat k / 256 mod 256 = Z.of_nat k / 256).
    { apply Z.mod_small. split; [apply Z.div_pos; lia|apply Z.div_lt_upper_bound; lia]. }
    rewrite <- M. apply first_bytes; apply Z.mod_pos_bound; lia. }
  destruct (F i ltac:(lia)) as [A1 A2]. destruct (F j ltac:(lia)) as [B1 B2]. rewrite E in A1, A2.
  pose proof (Z.div_mod (Z.of_nat i) 256 ltac:(lia)). pose proof (Z.div_mod (Z.of_nat j) 256 ltac:(lia)). lia.
Qed.

Lemma uuid_response_witness :
  response (fun k => format_uuid (counted k)) sample_random = (200, inl "All tests passed!"%string) /\
  check_version (format_uuid (counted 0)) = Ok tt.
Proof.
  destruct (uuid_response (fun k => format_uuid (counted k)) sample_random) as [R F]. split.
  - apply R. split; [exact counted_distinct|]. split; [intros k _; exists (counted k); split; [apply counted_ok|reflexivity]|].
    split; [intros k _; apply (F (counted k) (counted_ok k)); reflexivity|].
    split; [intros k _; apply (F (counted k) (counted_ok k)); reflexivity|].
    split; [repeat split; eexists; (split; [reflexivity|discriminate])|].
    unfold arrays. repeat first [apply Forall_nil_2|apply Forall_cons_2];
      (split; [eexists; reflexivity|]); (split; [eexists; (split; [reflexivity|discriminate])|eexists; reflexivity]).
  - apply (F (counted 0) (counted_ok 0)). reflexivity.
Defined.
