(* ===== verification/Script.v ===== *)
(** Test bodies as programs over native objects: a script asks operations of a
    family [op] and goes on with their answers.  It runs on an implementation of the
    operations, with a state of its own, and on a specification of them.

    [script_refines] says that a script does on an implementation what it does on a
    specification the implementation [agrees] with. *)

From Stdlib Require Import String.
From stdpp Require Import base list.
From S2P Require Import Prelude JsNumber JsValue TestSuite PromiseTest.

Local Open Scope js_scope.

(** ** Scripts *)

Section Script.
Context {op : Type -> Type}.

(** [Ask o k] goes on with what [o] answers and throws what [o] throws; [Try o k h]
    goes on with [h] when [o] throws, its argument telling whether that is [undefined]. *)
Inductive script (A : Type) : Type :=
| Done (a : A)
| Fail (e : thrown)
| Ask {T : Type} (o : op T) (k : T -> script A)
| Try {T : Type} (o : op T) (k : T -> script A) (h : bool -> script A).
Arguments Done {A}. Arguments Fail {A}. Arguments Ask {A T}. Arguments Try {A T}.

Fixpoint sbind {A B} (m : script A) (f : A -> script B) : script B :=
  match m with
  | Done a => f a
  | Fail e => Fail e
  | Ask o k => Ask o (fun t => sbind (k t) f)
  | Try o k h => Try o (fun t => sbind (k t) f) (fun u => sbind (h u) f)
  end.

Definition call {T} (o : op T) : script T := Ask o Done.

(** An assertion. *)
Definition asserted (r : result) : script unit := match r with Ok _ => Done tt | Throw e => Fail e end.

(** What the assertions on errors see of one. *)
Definition undefined_error (e : thrown) : bool := match e with Value Undefined => true | _ => false end.
Definition some_thrown (u : bool) : thrown := if u then Value Undefined else NewError [].

(** [try { m } catch]: one continuation for the value, one for an error. *)
Fixpoint attempt {A B} (m : script A) (f : A -> script B) (h : bool -> script B) : script B :=
  match m with
  | Done a => f a
  | Fail e => h (undefined_error e)
  | Ask o k => Try o (fun t => attempt (k t) f h) h
  | Try o k g => Try o (fun t => attempt (k t) f h) (fun u => attempt (g u) f h)
  end.

(** [assert_throws_js(() => m, description)], and the awaited
    [promise_rejects_js(m, description)] of a promise that would answer [undefined]. *)
Definition refuse {A} (m : script A) (description : val) : script unit :=
  attempt m (fun _ => asserted (assert_throws_js (Ok tt) description))
            (fun u => asserted (assert_throws_js (Throw (some_thrown u)) description)).
Definition rejects {A} (m : script A) (description : val) : script unit :=
  attempt m (fun _ => asserted (promise_rejects_js (Ok Undefined) description))
            (fun _ => asserted (promise_rejects_js (Throw Undefined) description)).

(** [for (const x of iterator) b = body(b, x)]; the fuel bounds the number of turns.  A
    loop that has not ended by then fails, with an error no program throws: a script
    that succeeds has run all its loops to their end. *)
Definition endless : thrown := LangError "Endless" "a loop goes on".
Fixpoint for_of {X B} (turns : nat) (next : op (option X)) (body : B -> X -> script B) (b : B) : script B :=
  match turns with
  | O => Fail endless
  | S turns =>
      Ask next (fun x => match x with
                         | None => Done b
                         | Some x => sbind (body b x) (for_of turns next body)
                         end)
  end.

(** ** Running a script *)

(** What answers the operations: each may change the state, answer or throw. *)
Definition implementation (N : Type) : Type := forall T, op T -> comp N thrown T.

Fixpoint run {N A} (I : implementation N) (m : script A) : comp N thrown A :=
  match m with
  | Done a => ret a
  | Fail e => throw e
  | Ask o k => let! t := I _ o in run I (k t)
  | Try o k h =>
      fun n => match I _ o n with
               | (n', Ok t) => run I (k t) n'
               | (n', Throw e) => run I (h (undefined_error e)) n'
               end
  end.

(** [test(f, desc)] for each in turn. *)
Fixpoint run_scripts {N} (I : implementation N) (l : list (script unit * val)) : comp N thrown unit :=
  match l with
  | [] => ret tt
  | (f, desc) :: l => do! test (fun _ => run I f) desc in run_scripts I l
  end.

(** ** Specifications *)

(** A specification answers [None] where it says nothing, and [Some (s, None)] for a
    call that throws an error. *)
Definition specification (M : Type) : Type := forall T, op T -> M -> option (M * option T).

(** A relation between the states under which the implementation answers as it is
    specified. *)
Definition agrees {N M} (I : implementation N) (J : specification M) (R : N -> M -> Prop) : Prop :=
  forall T (o : op T) n s, R n s ->
    match J T o s with
    | None => True
    | Some (s', Some t) => exists n', I T o n = (n', Ok t) /\ R n' s'
    | Some (s', None) => exists n' e, I T o n = (n', Throw e) /\ e <> Value Undefined /\ R n' s'
    end.

(** What a script does as far as it is specified: [Some (s, None)] when it throws. *)
Fixpoint specified {M A} (J : specification M) (m : script A) (s : M) : option (M * option A) :=
  match m with
  | Done a => Some (s, Some a)
  | Fail _ => Some (s, None)
  | Ask o k =>
      match J _ o s with
      | None => None
      | Some (s', None) => Some (s', None)
      | Some (s', Some t) => specified J (k t) s'
      end
  | Try o k h =>
      match J _ o s with
      | None => None
      | Some (s', None) => specified J (h false) s'
      | Some (s', Some t) => specified J (k t) s'
      end
  end.

Fixpoint specified_all {M} (J : specification M) (l : list (script unit)) (s : M) : option (M * option unit) :=
  match l with
  | [] => Some (s, Some tt)
  | f :: l =>
      match specified J f s with
      | Some (s', Some _) => specified_all J l s'
      | r => r
      end
  end.

Lemma specified_sbind {M A B} (J : specification M) (m : script A) (f : A -> script B) : forall s,
  specified J (sbind m f) s =
    match specified J m s with
    | Some (s', Some a) => specified J (f a) s'
    | Some (s', None) => Some (s', None)
    | None => None
    end.
Proof.
  induction m as [a|e|T o k IH|T o k IH h IHh]; intros s; cbn; [reflexivity|reflexivity| |].
  - destruct (J T o s) as [[s' [x|]]|]; [apply IH|reflexivity|reflexivity].
  - destruct (J T o s) as [[s' [x|]]|]; [apply IH|apply IHh|reflexivity].
Qed.

Lemma script_refines {N M A} (I : implementation N) (J : specification M) (R : N -> M -> Prop) (m : script A) :
  agrees I J R -> forall n s, R n s ->
  match specified J m s with
  | None => True
  | Some (s', Some a) => exists n', run I m n = (n', Ok a) /\ R n' s'
  | Some (s', None) => exists n' e, run I m n = (n', Throw e) /\ R n' s'
  end.
Proof.
  intros Ag. induction m as [a|e|T o k IH|T o k IH h IHh]; intros n s H; cbn [specified run].
  - eauto.
  - eauto.
  - specialize (Ag T o n s H). destruct (J T o s) as [[s' [x|]]|]; [| |exact Logic.I].
    + destruct Ag as (n' & E & H'). unfold bind. rewrite E. apply IH, H'.
    + destruct Ag as (n' & e & E & _ & H'). unfold bind. rewrite E. eauto.
  - specialize (Ag T o n s H). destruct (J T o s) as [[s' [x|]]|]; [| |exact Logic.I].
    + destruct Ag as (n' & E & H'). rewrite E. apply IH, H'.
    + destruct Ag as (n' & e & E & N0 & H'). rewrite E. replace (undefined_error e) with false; [apply IHh, H'|].
      destruct e as [[]| | |]; try reflexivity. congruence.
Qed.

Lemma scripts_refine {N M} (I : implementation N) (J : specification M) (R : N -> M -> Prop) l :
  agrees I J R -> forall n s, R n s ->
  match specified_all J (map fst l) s with
  | None => True
  | Some (s', Some _) => exists n', run_scripts I l n = (n', Ok tt) /\ R n' s'
  | Some (s', None) => exists n' e, run_scripts I l n = (n', Throw e) /\ R n' s'
  end.
Proof.
  intros Ag. induction l as [|[f desc] l IH]; intros n s H; cbn [map fst specified_all run_scripts]; [eauto|].
  pose proof (script_refines I J R f Ag n s H) as Sf. unfold bind, test.
  destruct (specified J f s) as [[s' [[]|]]|]; [| |exact Logic.I].
  - destruct Sf as (n' & E & H'). rewrite E. apply IH, H'.
  - destruct Sf as (n' & e & E & H'). rewrite E. eauto.
Qed.

(** An implementation made from a specification: where nothing is said it throws. *)
Definition by_specification {M} (J : specification M) : implementation M :=
  fun T o s =>
    match J T o s with
    | None => (s, Throw (LangError "InternalError" "not specified"))
    | Some (s', Some t) => (s', Ok t)
    | Some (s', None) => (s', Throw (LangError "TypeError" "refused"))
    end.

Lemma by_specification_agrees {M} (J : specification M) : agrees (by_specification J) J eq.
Proof.
  intros T o n s ->. unfold by_specification. destruct (J T o s) as [[s' [t|]]|]; [eauto| |exact Logic.I].
  eexists _, _. split; [reflexivity|]. split; [discriminate|reflexivity].
Qed.

End Script.

Arguments script : clear implicits. Arguments Done {op A}. Arguments Fail {op A}. Arguments Ask {op A T}. Arguments Try {op A T}.
Arguments implementation : clear implicits. Arguments specification : clear implicits.

Declare Scope script_scope.
Delimit Scope script_scope with script.
Notation "'let*' x := m 'in' k" := (sbind m (fun x => k)) (at level 10, x pattern, m at level 200, k at level 200) : script_scope.
Notation "'do*' m 'in' k" := (sbind m (fun _ => k)) (at level 10, m at level 200, k at level 200) : script_scope.
