(* ===== verification/UrlTest.v ===== *)
(** The test of [URLSearchParams]
    (test-suite/js-test-app/src/test-files/8.1-search-params.js).

    The classes [URLSearchParams], [URL] and [FormData] are native: their methods are
    the operations of scripts, and the objects of each class are numbered in the order
    they are made. *)

From Stdlib Require Import String.
From stdpp Require Import base numbers list.
From S2P Require Import Prelude JsNumber JsValue Streams TestSuite PromiseTest Script.

Local Open Scope Z_scope.
Local Open Scope js_scope.
Local Open Scope script_scope.
Local Open Scope string_scope.

(** ** The operations *)

(** The argument of [new URLSearchParams]: none, a value, another object of the class,
    a FormData, an array of arrays, a record. *)
Inductive params_init : Type :=
| NoInit
| InitValue (v : val)
| InitParams (p : nat)
| InitForm (f : nat)
| InitSequence (l : list (list val))
| InitRecord (l : list (val * val)).

(** A second argument of [delete] and [has], and the base of a URL, is [Undefined]
    when it is missing.  [EntriesOf p] is the iterator of [p], whose [Next] answers
    an array; [ForEach p] answers the arguments of the calls of [p.forEach] to a
    function that does not touch [p]; [ToText] is the conversion to a string. *)
Inductive url_op : Type -> Type :=
| NewParams (init : params_init) : url_op nat
| ParamsPrototype (p : nat) : url_op val
| Append (p : nat) (name value : val) : url_op unit
| Delete (p : nat) (name value : val) : url_op unit
| Get (p : nat) (name : val) : url_op val
| GetAll (p : nat) (name : val) : url_op (list val)
| Has (p : nat) (name value : val) : url_op val
| SetValue (p : nat) (name value : val) : url_op unit
| SortParams (p : nat) : url_op unit
| Size (p : nat) : url_op val
| ToText (p : nat) : url_op val
| EntriesOf (p : nat) : url_op nat
| Next (i : nat) : url_op (option (list val))
| ForEach (p : nat) : url_op (list (val * val))
| NewURL (url base : val) : url_op nat
| SearchParams (u : nat) : url_op nat
| Href (u : nat) : url_op val
| URLText (u : nat) : url_op val
| Search (u : nat) : url_op val
| Pathname (u : nat) : url_op val
| SetSearch (u : nat) (v : val) : url_op unit
| NewForm : url_op nat
| FormAppend (f : nat) (name value : val) : url_op unit
| FormHas (f : nat) (name : val) : url_op val.

Abbreviation script := (script url_op).

(** ** Parts of the tests *)

Local Coercion txt (s : string) : val := Str (js s).
Local Coercion int (z : Z) : val := Num (of_Z z).
Definition none : val := Undefined.
Definition texts (l : list string) : list val := map txt l.

Definition params_of (s : val) : script nat := call (NewParams (InitValue s)).
Definition equal_to (actual expected m : val) : script unit := asserted (assert_equals actual expected m).

(** [assert_equals(params + '', expected)]. *)
Definition text_is (p : nat) (expected : val) : script unit := let* t := call (ToText p) in equal_to t expected none.
Definition get_is (p : nat) (name expected m : val) : script unit := let* v := call (Get p name) in equal_to v expected m.
Definition getAll_is (p : nat) (name : val) (expected : list val) : script unit :=
  let* l := call (GetAll p name) in asserted (assert_array_equals l expected none).
Definition has_it (p : nat) (name value m : val) : script unit :=
  let* b := call (Has p name value) in asserted (assert_true b m).
Definition has_not (p : nat) (name value m : val) : script unit :=
  let* b := call (Has p name value) in asserted (assert_false b m).
Definition size_is (p : nat) (n : Z) : script unit := let* s := call (Size p) in equal_to s n none.

(** [assert_true(params != null, ...)]: an object. *)
Definition non_null (p : nat) : script unit := asserted (assert_true (Bool true) "constructor returned non-null value.").

Definition has_named (p : nat) (name : string) : script unit :=
  has_it p name none (String.append "Search params object has name " name).

(** [assert_array_equals(l[i], expected)] and [assert_array_equals(entry, l[i])]:
    reading the length of [undefined] throws. *)
Definition no_length : thrown := LangError "TypeError" "undefined has no properties".
Definition nth_equals (l : list (list val)) (i : nat) (expected : list val) : result :=
  match l !! i with Some e => assert_array_equals e expected none | None => Throw no_length end.
Definition equals_nth (e : list val) (l : list (list val)) (i : nat) : result :=
  match l !! i with Some expected => assert_array_equals e expected none | None => Throw no_length end.

(** ** The tests *)

Section Tests.
(** Turns of the loops over an iterator. *)
Variable turns : nat.

Definition for_entries {B} (p : nat) (body : B -> list val -> script B) (b : B) : script B :=
  let* i := call (EntriesOf p) in for_of turns (Next i) body b.

Definition append_same_name : script unit :=
  let* params := call (NewParams NoInit) in
  do* call (Append params "a" "b") in
  do* text_is params "a=b" in
  do* call (Append params "a" "b") in
  do* text_is params "a=b&a=b" in
  do* call (Append params "a" "c") in
  text_is params "a=b&a=b&a=c".

(** [params.append(x, x)] twice. *)
Definition append_twice (x : val) (once twice : val) : script unit :=
  let* params := call (NewParams NoInit) in
  do* call (Append params x x) in
  do* text_is params once in
  do* call (Append params x x) in
  text_is params twice.

Definition append_multiple : script unit :=
  let* params := call (NewParams NoInit) in
  do* call (Append params "first" 1) in
  do* call (Append params "second" 2) in
  do* call (Append params "third" "") in
  do* call (Append params "first" 10) in
  do* has_named params "first" in
  do* get_is params "first" "1" "Search params object has name first with value 1" in
  do* get_is params "second" "2" "Search params object has name second with value 2" in
  do* get_is params "third" "" "Search params object has name third with value " in
  do* call (Append params "first" 10) in
  get_is params "first" "1" "Search params object has name first with value 1".

Definition basic_construction : script unit :=
  let* params := call (NewParams NoInit) in
  do* text_is params "" in
  let* params := params_of "" in
  do* text_is params "" in
  let* params := params_of "a=b" in
  do* text_is params "a=b" in
  let* params := call (NewParams (InitParams params)) in
  text_is params "a=b".

Definition no_arguments : script unit := let* params := call (NewParams NoInit) in text_is params "".
Definition leading_mark : script unit := let* params := params_of "?a=b" in text_is params "a=b".

(** [Object.getPrototypeOf(params)] against [URLSearchParams.prototype]. *)
Definition empty_string : script unit :=
  let* params := params_of "" in
  do* non_null params in
  let* same := call (ParamsPrototype params) in
  asserted (assert (strict_eq same (Bool true)) (MVal "expected URLSearchParams.prototype as prototype.")).

Definition empty_record : script unit := let* params := call (NewParams (InitRecord [])) in text_is params "".

(** A string with characters beyond ASCII, by their code units. *)
Definition moo : jsstr := [109; 248; 248].

Definition string_argument : script unit :=
  let* params := params_of "a=b" in
  do* non_null params in
  do* has_named params "a" in
  do* has_not params "b" none "Search params object has not got name b" in
  let* params := params_of "a=b&c" in
  do* non_null params in
  do* has_named params "a" in
  do* has_named params "c" in
  let* params := params_of "&a&&& &&&&&a+b=& c&m%c3%b8%c3%b8" in
  do* non_null params in
  do* has_named params "a" in
  do* has_named params "a b" in
  do* has_named params " " in
  do* has_not params "c" none "Search params object did not have the name c" in
  do* has_named params " c" in
  do* has_it params (Str moo) none (Str (js "Search params object has name " ++ moo)%list) in
  let* params := params_of "id=0&value=%" in
  do* non_null params in
  do* has_named params "id" in
  do* has_named params "value" in
  do* get_is params "id" "0" none in
  do* get_is params "value" "%" none in
  let* params := params_of "b=%2sf%2a" in
  do* non_null params in
  do* has_named params "b" in
  do* get_is params "b" "%2sf*" none in
  let* params := params_of "b=%2%2af%2a" in
  do* non_null params in
  do* has_named params "b" in
  do* get_is params "b" "%2*f*" none in
  let* params := params_of "b=%%2a" in
  do* non_null params in
  do* has_named params "b" in
  get_is params "b" "%*" none.

Definition params_argument : script unit :=
  let* seed := params_of "a=b&c=d" in
  let* params := call (NewParams (InitParams seed)) in
  do* non_null params in
  do* get_is params "a" "b" none in
  do* get_is params "c" "d" none in
  do* has_not params "d" none none in
  do* call (Append seed "e" "f") in
  do* has_not params "e" none none in
  do* call (Append params "g" "h") in
  has_not seed "g" none none.

Definition form_argument : script unit :=
  let* formData := call NewForm in
  do* call (FormAppend formData "a" "b") in
  do* call (FormAppend formData "c" "d") in
  let* params := call (NewParams (InitForm formData)) in
  do* non_null params in
  do* get_is params "a" "b" none in
  do* get_is params "c" "d" none in
  do* has_not params "d" none none in
  do* call (FormAppend formData "e" "f") in
  do* has_not params "e" none none in
  do* call (Append params "g" "h") in
  let* b := call (FormHas formData "g") in
  asserted (assert_false b none).

(** The tests named "Parse ...": a value, then a name. *)
Definition parses (s1 name1 value1 s2 name2 value2 : val) : script unit :=
  let* params := params_of s1 in
  do* get_is params name1 value1 none in
  let* params := params_of s2 in
  get_is params name2 value2 none.

(** The same two strings around a character: [x] in the string, [y] in what it means. *)
Definition parses_char (x y z : jsstr) : script unit :=
  parses (Str (js "a=b" ++ x ++ z)%list) "a" (Str (js "b" ++ y ++ z)%list)
         (Str (js "a" ++ x ++ js "b=c")%list) (Str (js "a" ++ y ++ js "b")%list) "c".

Definition parse_encoded_plus : script unit :=
  let testValue := txt "+15555555555" in
  let* params := call (NewParams NoInit) in
  do* call (SetValue params "query" testValue) in
  let* t := call (ToText params) in
  let* newParams := params_of t in
  let* t := call (ToText params) in
  do* equal_to t "query=%2B15555555555" none in
  do* get_is params "query" testValue none in
  get_is newParams "query" testValue none.

Definition sequence_argument : script unit :=
  let* params := call (NewParams (InitSequence [])) in
  do* non_null params in
  let* params := call (NewParams (InitSequence [(texts ["a"; "b"]); (texts ["c"; "d"])])) in
  do* get_is params "a" "b" none in
  do* get_is params "c" "d" none in
  do* refuse (call (NewParams (InitSequence [[1 : val]]))) none in
  refuse (call (NewParams (InitSequence [[1 : val; 2 : val; 3 : val]]))) none.

(** The loops that compare the entries with [val.output]. *)
Definition entries_are (p : nat) (output : list (list val)) : script unit :=
  do* for_entries p (fun i param => do* asserted (equals_nth param output i) in Done (S i)) O in Done tt.

Definition construct_with (input : params_init) (output : list (list val)) : script unit :=
  let* params := call (NewParams input) in entries_are params output.

Definition delete_basics : script unit :=
  let* params := params_of "a=b&c=d" in
  do* call (Delete params "a" none) in
  do* text_is params "c=d" in
  let* params := params_of "a=a&b=b&a=a&c=c" in
  do* call (Delete params "a" none) in
  do* text_is params "b=b&c=c" in
  let* params := params_of "a=a&=&b=b&c=c" in
  do* call (Delete params "" none) in
  do* text_is params "a=a&b=b&c=c" in
  let* params := params_of "a=a&null=null&b=b" in
  do* call (Delete params Null none) in
  do* text_is params "a=a&b=b" in
  let* params := params_of "a=a&undefined=undefined&b=b" in
  do* call (Delete params Undefined none) in
  text_is params "a=a&b=b".

Definition delete_appended : script unit :=
  let* params := call (NewParams NoInit) in
  do* call (Append params "first" 1) in
  do* has_named params "first" in
  do* get_is params "first" "1" "Search params object has name first with value 1" in
  do* call (Delete params "first" none) in
  do* has_not params "first" none "Search params object has no first name" in
  do* call (Append params "first" 1) in
  do* call (Append params "first" 10) in
  do* call (Delete params "first" none) in
  has_not params "first" none "Search params object has no first name".

(** [url.searchParams], the parts of a URL, and a removal. *)
Definition delete_from (url : nat) (name : val) : script unit :=
  let* p := call (SearchParams url) in call (Delete p name none).
Definition href_is (url : nat) (expected m : val) : script unit := let* v := call (Href url) in equal_to v expected m.
Definition search_is (url : nat) (expected m : val) : script unit := let* v := call (Search url) in equal_to v expected m.
Definition pathname_is (url : nat) (expected : val) : script unit := let* v := call (Pathname url) in equal_to v expected none.
Definition new_URL (s : val) : script nat := call (NewURL s none).

Definition no_mark (url : nat) : script unit :=
  do* href_is url "http://example.com/" "url.href does not have ?" in search_is url "" "url.search does not have ?".

Definition delete_all : script unit :=
  let* url := new_URL "http://example.com/?param1&param2" in
  do* delete_from url "param1" in
  do* delete_from url "param2" in
  no_mark url.

Definition delete_missing : script unit :=
  let* url := new_URL "http://example.com/?" in
  do* delete_from url "param1" in
  no_mark url.

Definition opaque_path : script unit :=
  let* url := new_URL "data:space    ?test" in
  let* p := call (SearchParams url) in
  do* has_it p "test" none none in
  do* delete_from url "test" in
  let* p := call (SearchParams url) in
  do* has_not p "test" none none in
  do* search_is url "" none in
  do* pathname_is url "space" in
  href_is url "data:space" none.

Definition opaque_path_fragment : script unit :=
  let* url := new_URL "data:space    ?test#test" in
  do* delete_from url "test" in
  do* search_is url "" none in
  do* pathname_is url "space    " in
  href_is url "data:space    #test" none.

Definition delete_value : script unit :=
  let* params := call (NewParams NoInit) in
  do* call (Append params "a" "b") in
  do* call (Append params "a" "c") in
  do* call (Append params "a" "d") in
  do* call (Delete params "a" "c") in
  text_is params "a=b&a=d".

Definition delete_undefined : script unit :=
  let* params := call (NewParams NoInit) in
  do* call (Append params "a" "b") in
  do* call (Append params "a" "c") in
  do* call (Append params "b" "c") in
  do* call (Append params "b" "d") in
  do* call (Delete params "b" "c") in
  do* call (Delete params "a" Undefined) in
  text_is params "b=d".

Definition for_each_check : script unit :=
  let* params := params_of "a=1&b=2&c=3" in
  let* calls := call (ForEach params) in
  let keys := map snd calls in
  let values := map fst calls in
  do* asserted (assert_array_equals keys (texts ["a"; "b"; "c"]) none) in
  asserted (assert_array_equals values (texts ["1"; "2"; "3"]) none).

(** The loop body sets the search of the URL at each turn. *)
Definition for_of_check : script unit :=
  let* a := new_URL "http://a.b/c?a=1&b=2&c=3&d=4" in
  let* b := call (SearchParams a) in
  let* c := for_entries b (fun c i => do* call (SetSearch a "x=1&y=2&z=3") in Done (c ++ [i])%list) [] in
  do* asserted (nth_equals c 0 (texts ["a"; "1"])) in
  do* asserted (nth_equals c 1 (texts ["y"; "2"])) in
  asserted (nth_equals c 2 (texts ["z"; "3"])).

(** [assert_unreached] is not imported. *)
Definition for_of_empty : script unit :=
  let* a := new_URL "http://a.b/c" in
  let* b := call (SearchParams a) in
  for_entries b (fun _ _ => Fail (LangError "ReferenceError" "assert_unreached is not defined")) tt.

Definition three_params : val := "http://localhost/query?param0=0&param1=1&param2=2".
Definition is_first (param : list val) : bool := strict_eq (at_index param 0) "param0".

Definition delete_next : script unit :=
  let* url := new_URL three_params in
  let* searchParams := call (SearchParams url) in
  let* seen := for_entries searchParams (fun seen param =>
      do* (if is_first param then call (Delete searchParams "param1" none) else Done tt) in
      Done (seen ++ [param])%list) [] in
  do* asserted (nth_equals seen 0 (texts ["param0"; "0"])) in
  asserted (nth_equals seen 1 (texts ["param2"; "2"])).

Definition delete_current : script unit :=
  let* url := new_URL three_params in
  let* searchParams := call (SearchParams url) in
  let* seen := for_entries searchParams (fun seen param =>
      if is_first param then do* call (Delete searchParams "param0" none) in Done seen
      else Done (seen ++ [param])%list) [] in
  asserted (nth_equals seen 0 (texts ["param2"; "2"])).

Definition delete_every : script unit :=
  let* url := new_URL three_params in
  let* searchParams := call (SearchParams url) in
  let* seen := for_entries searchParams (fun seen param =>
      do* call (Delete searchParams (at_index param 0) none) in
      Done (seen ++ [at_index param 0])%list) [] in
  do* asserted (assert_array_equals seen (texts ["param0"; "param2"]) "param1 should not have been seen by the loop") in
  let* t := call (ToText searchParams) in
  equal_to t "param1=1" "param1 should remain".

Definition get_basics : script unit :=
  let* params := params_of "a=b&c=d" in
  do* get_is params "a" "b" none in
  do* get_is params "c" "d" none in
  do* get_is params "e" Null none in
  let* params := params_of "a=b&c=d&a=e" in
  do* get_is params "a" "b" none in
  let* params := params_of "=b&c=d" in
  do* get_is params "" "b" none in
  let* params := params_of "a=&c=d&a=e" in
  get_is params "a" "" none.

Definition more_get : script unit :=
  let* params := params_of "first=second&third&&" in
  do* non_null params in
  do* has_named params "first" in
  do* get_is params "first" "second" "Search params object has name first with value second" in
  do* get_is params "third" "" "Search params object has name third with the empty value." in
  get_is params "fourth" Null "Search params object has no fourth name and value.".

Definition getAll_basics : script unit :=
  let* params := params_of "a=b&c=d" in
  do* getAll_is params "a" (texts ["b"]) in
  do* getAll_is params "c" (texts ["d"]) in
  do* getAll_is params "e" [] in
  let* params := params_of "a=b&c=d&a=e" in
  do* getAll_is params "a" (texts ["b"; "e"]) in
  let* params := params_of "=b&c=d" in
  do* getAll_is params "" (texts ["b"]) in
  let* params := params_of "a=&c=d&a=e" in
  getAll_is params "a" (texts [""; "e"]).

(** [matches && matches.length == n]. *)
Definition count_is (matches : list val) (n : nat) : script unit :=
  asserted (assert_true (Bool (Nat.eqb (length matches) n)) "Search params object has values for name a").

Definition getAll_multiples : script unit :=
  let* params := params_of "a=1&a=2&a=3&a" in
  do* has_named params "a" in
  let* matches := call (GetAll params "a") in
  do* count_is matches 4 in
  do* asserted (assert_array_equals matches (texts ["1"; "2"; "3"; ""])
               "Search params object has expected name a values") in
  do* call (SetValue params "a" "one") in
  do* get_is params "a" "one" "Search params object has name a with value one" in
  let* matches := call (GetAll params "a") in
  do* count_is matches 1 in
  asserted (assert_array_equals matches (texts ["one"]) "Search params object has expected name a values").

Definition has_basics : script unit :=
  let* params := params_of "a=b&c=d" in
  do* has_it params "a" none none in
  do* has_it params "c" none none in
  do* has_not params "e" none none in
  let* params := params_of "a=b&c=d&a=e" in
  do* has_it params "a" none none in
  let* params := params_of "=b&c=d" in
  do* has_it params "" none none in
  let* params := params_of "null=a" in
  has_it params Null none none.

Definition has_after_delete : script unit :=
  let* params := params_of "a=b&c=d&&" in
  do* call (Append params "first" 1) in
  do* call (Append params "first" 2) in
  do* has_named params "a" in
  do* has_named params "c" in
  do* has_named params "first" in
  do* has_not params "d" none "Search params object has no name d" in
  do* call (Delete params "first" none) in
  has_not params "first" none "Search params object has no name first".

Definition has_value : script unit :=
  let* params := params_of "a=b&a=d&c&e&" in
  do* has_it params "a" "b" none in
  do* has_not params "a" "c" none in
  do* has_it params "a" "d" none in
  do* has_it params "e" "" none in
  do* call (Append params "first" Null) in
  do* has_not params "first" "" none in
  do* has_it params "first" "null" none in
  do* call (Delete params "a" "b") in
  has_it params "a" "d" none.

Definition has_undefined : script unit :=
  let* params := params_of "a=b&a=d&c&e&" in
  do* has_it params "a" "b" none in
  do* has_not params "a" "c" none in
  do* has_it params "a" "d" none in
  has_it params "a" Undefined none.

Definition set_basics : script unit :=
  let* params := params_of "a=b&c=d" in
  do* call (SetValue params "a" "B") in
  do* text_is params "a=B&c=d" in
  let* params := params_of "a=b&c=d&a=e" in
  do* call (SetValue params "a" "B") in
  do* text_is params "a=B&c=d" in
  do* call (SetValue params "e" "f") in
  text_is params "a=B&c=d&e=f".

Definition set_value : script unit :=
  let* params := params_of "a=1&a=2&a=3" in
  do* has_named params "a" in
  do* get_is params "a" "1" "Search params object has name a with value 1" in
  do* call (SetValue params "first" 4) in
  do* has_named params "a" in
  do* get_is params "a" "1" "Search params object has name a with value 1" in
  do* call (SetValue params "a" 4) in
  do* has_named params "a" in
  get_is params "a" "4" "Search params object has name a with value 4".

Definition size_delete : script unit :=
  let* params := params_of "a=1&b=2&a=3" in
  do* size_is params 3 in
  do* call (Delete params "a" none) in
  size_is params 1.

Definition size_append : script unit :=
  let* params := params_of "a=1&b=2&a=3" in
  do* size_is params 3 in
  do* call (Append params "b" "4") in
  size_is params 4.

(** [url.searchParams.size]. *)
Definition url_size_is (url : nat) (n : Z) : script unit := let* p := call (SearchParams url) in size_is p n.
Definition three_values : val := "http://localhost/query?a=1&b=2&a=3".

Definition size_url : script unit :=
  let* url := new_URL three_values in
  do* url_size_is url 3 in
  do* delete_from url "a" in
  do* url_size_is url 1 in
  let* p := call (SearchParams url) in
  do* call (Append p "b" 4) in
  url_size_is url 2.

Definition size_search : script unit :=
  let* url := new_URL three_values in
  do* url_size_is url 3 in
  do* call (SetSearch url "?") in
  url_size_is url 0.

(** The cases of sorting: an input and the entries sorted. *)
Definition unit_pairs (l : list (jsstr * jsstr)) : list (list val) := map (fun '(n, v) => [Str n; Str v]) l.
Definition rainbow : jsstr := [55356; 57096].
Definition poo : jsstr := [55357; 56489].

Definition sort_cases : list (jsstr * list (list val)) :=
  let u := js in
  [(u "z=b&a=b&z=a&a=a", unit_pairs [(u "a", u "b"); (u "a", u "a"); (u "z", u "b"); (u "z", u "a")]);
   ([65533] ++ u "=x&" ++ [65532] ++ u "&" ++ [65533] ++ u "=a",
      unit_pairs [([65532], []); ([65533], u "x"); ([65533], u "a")]);
   ([64259] ++ u "&" ++ rainbow, unit_pairs [(rainbow, []); ([64259], [])]);
   ([233] ++ u "&e" ++ [65533] ++ u "&e" ++ [769],
      unit_pairs [(u "e" ++ [769], []); (u "e" ++ [65533], []); ([233], [])]);
   (u "z=z&a=a&z=y&a=b&z=x&a=c&z=w&a=d&z=v&a=e&z=u&a=f&z=t&a=g",
      unit_pairs (map (pair (u "a")) [u "a"; u "b"; u "c"; u "d"; u "e"; u "f"; u "g"] ++
                  map (pair (u "z")) [u "z"; u "y"; u "x"; u "w"; u "v"; u "u"; u "t"]));
   (u "bbb&bb&aaa&aa=x&aa=y", unit_pairs [(u "aa", u "x"); (u "aa", u "y"); (u "aaa", []); (u "bb", []); (u "bbb", [])]);
   (u "z=z&=f&=t&=x", unit_pairs [([], u "f"); ([], u "t"); ([], u "x"); (u "z", u "z")]);
   (u "a" ++ rainbow ++ u "&a" ++ poo, unit_pairs [(u "a" ++ rainbow, []); (u "a" ++ poo, [])])]%list.

Definition parse_and_sort (input : jsstr) (output : list (list val)) : script unit :=
  let* params := params_of (Str input) in
  do* call (SortParams params) in
  entries_are params output.

Definition url_parse_and_sort (input : jsstr) (output : list (list val)) : script unit :=
  let* url := call (NewURL (Str (js "?" ++ input)%list) "https://example/") in
  let* p := call (SearchParams url) in
  do* call (SortParams p) in
  let* search := call (Search url) in
  let* params := params_of search in
  entries_are params output.

Definition sort_missing : script unit :=
  let* url := new_URL "http://example.com/?" in
  let* p := call (SearchParams url) in
  do* call (SortParams p) in
  do* href_is url "http://example.com/" none in
  search_is url "" none.

(** A value, then, once it is removed, a name. *)
Definition serializes (value once name : val) (twice : val) : script unit :=
  let* params := call (NewParams NoInit) in
  do* call (Append params "a" value) in
  do* text_is params once in
  do* call (Delete params "a" none) in
  do* call (Append params name "c") in
  text_is params twice.

(** Appended one after the other, with the text after each. *)
Fixpoint append_all (params : nat) (l : list (val * val * val)) : script unit :=
  match l with
  | [] => Done tt
  | (name, value, text) :: l =>
      do* call (Append params name value) in
      do* text_is params text in
      append_all params l
  end.
Definition serialize_each (l : list (val * val * val)) : script unit :=
  let* params := call (NewParams NoInit) in append_all params l.

Definition serialize_percent : script unit :=
  do* serializes "b%c" "a=b%25c" "a%b" "a%25b=c" in
  let* params := params_of "id=0&value=%" in
  text_is params "id=0&value=%25".

Definition to_string : script unit :=
  let round s t := let* params := params_of s in text_is params t in
  do* round "a=b&c=d&&e&&" "a=b&c=d&e=" in
  do* round "a = b &a=b&c=d%20" "a+=+b+&a=b&c=d+" in
  do* round "a=&a=b" "a=&a=b" in
  do* round "b=%2sf%2a" "b=%252sf*" in
  do* round "b=%2%2af%2a" "b=%252*f*" in
  round "b=%%2a" "b=%25*".

Definition connected : script unit :=
  let url_text url expected := let* t := call (URLText url) in equal_to t expected none in
  let* url := new_URL "http://www.example.com/?a=b,c" in
  let* params := call (SearchParams url) in
  do* url_text url "http://www.example.com/?a=b,c" in
  do* text_is params "a=b%2Cc" in
  do* call (Append params "x" "y") in
  do* url_text url "http://www.example.com/?a=b%2Cc&x=y" in
  text_is params "a=b%2Cc&x=y".

Definition no_normalization : script unit :=
  let* url := new_URL "http://www.example.com/" in
  let* params := call (SearchParams url) in
  do* call (Append params (Str (js "a" ++ [10] ++ js "b")%list) (Str (js "c" ++ [13] ++ js "d")%list)) in
  do* call (Append params (Str (js "e" ++ [10; 13] ++ js "f")%list) (Str (js "g" ++ [13; 10] ++ js "h")%list)) in
  text_is params "a%0Ab=c%0Dd&e%0A%0Df=g%0D%0Ah".

(** Strings around a character. *)
Definition between (a : string) (c : jsstr) (b : string) : val := Str (js a ++ c ++ js b)%list.

Definition serialize_char (c : jsstr) (text : string) : script unit :=
  serializes (between "b" c "c") (String.append "a=b" (String.append text "c")) (between "a" c "b")
    (String.append "a" (String.append text "b=c")).

(** The tests of the file with their descriptions, in order. *)
Definition url_tests : list (script unit * val) :=
  [(append_same_name, txt "Append same name");
   (append_twice "" "=" "=&=", txt "Append empty strings");
   (append_twice Null "null=null" "null=null&null=null", txt "Append null");
   (append_multiple, txt "Append multiple");
   (basic_construction, txt "Basic URLSearchParams construction");
   (no_arguments, txt "URLSearchParams constructor, no arguments");
   (leading_mark, txt "URLSearchParams constructor, remove leading ?");
   (empty_string, txt "URLSearchParams constructor, empty string as argument");
   (empty_record, txt "URLSearchParams constructor, {} as argument");
   (string_argument, txt "URLSearchParams constructor, string.");
   (params_argument, txt "URLSearchParams constructor, object.");
   (form_argument, txt "URLSearchParams constructor, FormData.");
   (parses_char (js "+") (js " ") (js "c"), txt "Parse +");
   (parse_encoded_plus, txt "Parse encoded +");
   (parses_char (js " ") (js " ") (js "c"), txt "Parse space");
   (parses_char (js "%20") (js " ") (js "c"), txt "Parse %20");
   (parses_char [0] [0] (js "c"), txt "Parse \0");
   (parses_char (js "%00") [0] (js "c"), txt "Parse %00");
   (parses_char [9092] [9092] [], between "Parse " [9092] "");
   (parses_char (js "%e2%8e%84") [9092] [], txt "Parse %e2%8e%84");
   (parses_char poo poo (js "c"), between "Parse " poo "");
   (parses_char (js "%f0%9f%92%a9") poo (js "c"), txt "Parse %f0%9f%92%a9");
   (sequence_argument, txt "Constructor with sequence of sequences of strings");
   (construct_with (InitRecord [(txt "+", txt "%C2")]) [(texts ["+"; "%C2"])], txt "Construct with object with +");
   (construct_with (InitRecord [(txt "c", txt "x"); (txt "a", txt "?")]) [(texts ["c"; "x"]); (texts ["a"; "?"])],
      txt "Construct with object with two keys");
   (construct_with (InitSequence [(texts ["c"; "x"]); (texts ["a"; "?"])]) [(texts ["c"; "x"]); (texts ["a"; "?"])],
      txt "Construct with array with two keys");
   (delete_basics, txt "Delete basics");
   (delete_appended, txt "Deleting appended multiple");
   (delete_all, txt "Deleting all params removes ? from URL");
   (delete_missing, txt "Removing non-existent param removes ? from URL");
   (opaque_path, txt "Changing the query of a URL with an opaque path can impact the path");
   (opaque_path_fragment, txt "Changing the query of a URL with an opaque path can impact the path if the URL has no fragment");
   (delete_value, txt "Two-argument delete()");
   (delete_undefined, txt "Two-argument delete() respects undefined as second arg");
   (for_each_check, txt "ForEach Check");
   (for_of_check, txt "For-of Check");
   (for_of_empty, txt "empty");
   (delete_next, txt "delete next param during iteration");
   (delete_current, txt "delete current param during iteration");
   (delete_every, txt "delete every param seen during iteration");
   (get_basics, txt "Get basics");
   (more_get, txt "More get() basics");
   (getAll_basics, txt "getAll() basics");
   (getAll_multiples, txt "getAll() multiples");
   (has_basics, txt "Has basics");
   (has_after_delete, txt "has() following delete()");
   (has_value, txt "Two-argument has()");
   (has_undefined, txt "Two-argument has() respects undefined as second arg");
   (set_basics, txt "Set basics");
   (set_value, txt "URLSearchParams.set");
   (size_delete, txt "URLSearchParams's size and deletion");
   (size_append, txt "URLSearchParams's size and addition");
   (size_url, txt "URLSearchParams's size when obtained from a URL");
   (size_search, txt "URLSearchParams's size when obtained from a URL and using .search")] ++
  flat_map (fun '(input, output) =>
    [(parse_and_sort input output, between "Parse and sort: " input "");
     (url_parse_and_sort input output, between "URL parse and sort: " input "")]) sort_cases ++
  [(sort_missing, txt "Sorting non-existent params removes ? from URL");
   (serializes "b c" "a=b+c" "a b" "a+b=c", txt "Serialize space");
   (serialize_each [(txt "a", txt "", txt "a="); (txt "a", txt "", txt "a=&a="); (txt "", txt "b", txt "a=&a=&=b");
                    (txt "", txt "", txt "a=&a=&=b&="); (txt "", txt "", txt "a=&a=&=b&=&=")], txt "Serialize empty value");
   (serialize_each [(txt "", txt "b", txt "=b"); (txt "", txt "b", txt "=b&=b")], txt "Serialize empty name");
   (append_twice "" "=" "=&=", txt "Serialize empty name and value");
   (serializes "b+c" "a=b%2Bc" "a+b" "a%2Bb=c", txt "Serialize +");
   (serialize_each [(txt "=", txt "a", txt "%3D=a"); (txt "b", txt "=", txt "%3D=a&b=%3D")], txt "Serialize =");
   (serialize_each [(txt "&", txt "a", txt "%26=a"); (txt "b", txt "&", txt "%26=a&b=%26")], txt "Serialize &");
   (serializes "*-._" "a=*-._" "*-._" "*-._=c", txt "Serialize *-._");
   (serialize_percent, txt "Serialize %");
   (serialize_char [0] "%00", txt "Serialize \0");
   (serialize_char poo "%F0%9F%92%A9", between "Serialize " poo "");
   (to_string, txt "URLSearchParams.toString");
   (connected, txt "URLSearchParams connected to URL");
   (no_normalization, txt "URLSearchParams must not do newline normalization")]%list.

End Tests.

(** [handleRequest(request)] from the state of the native classes. *)
Definition handleRequest {N} (I : implementation url_op N) (turns : nat) (n : N) : Z * (string + thrown) :=
  respond (run_scripts I (url_tests turns) n).2.
