(* ===== verification/UrlSpec.v ===== *)
(** The documented behaviour of [URLSearchParams], with as much of [URL] and
    [FormData] as its test uses: a specification of the operations of [UrlTest].

    An object of the first class is a list of pairs, and may belong to a URL, whose
    query follows it.  The standard is that of the time of the test, in which the
    spaces at the end of an opaque path are kept until there is neither query nor
    fragment.  Where the specification says nothing the answer is [None]: for the
    text of an object and of a Number that is no integer up to 2^53, for
    percent-encoded bytes that are not UTF-8, for records whose keys are no plain
    distinct names, and for URLs that are not written as [written] and [plain] say. *)

From Stdlib Require Import String.
From stdpp Require Import base numbers list option.
From S2P Require Import Prelude JsNumber JsValue Base64 Encoding Codecs BufferInt Streams TestSuite Script UrlTest.

Local Open Scope Z_scope.

(** ** Text *)

(** The UTF-8 text of a string. *)
Definition utf8_text (s : jsstr) : list Z := List.concat (map utf8_enc (scalars s)).

(** The conversion to a string without lone surrogates. *)
Definition usv (v : val) : option jsstr :=
  match v with
  | Undefined => Some (js "undefined")
  | Null => Some (js "null")
  | Bool true => Some (js "true")
  | Bool false => Some (js "false")
  | Str s => Some (toWellFormed s)
  | Num n => let z := to_integer n in if feq n (of_Z z) && (Z.abs z <=? 2 ^ 53) then Some (int_text z) else None
  | _ => None
  end.

Definition usv_pair (n v : val) : option (jsstr * jsstr) := n ← usv n; v ← usv v; Some (n, v).

(** [%XX], in upper case. *)
Definition upper_digit (d : Z) : Z := if d <? 10 then 48 + d else 55 + d.
Definition percent (b : Z) : jsstr := [37; upper_digit (b / 16); upper_digit (b mod 16)].

(** Bytes of a form-encoded text. *)
Definition kept (b : Z) : bool :=
  ((97 <=? b) && (b <=? 122)) || ((65 <=? b) && (b <=? 90)) || ((48 <=? b) && (b <=? 57)) || existsb (Z.eqb b) [42; 45; 46; 95].
Definition form_byte (b : Z) : jsstr := if b =? 32 then [43] else if kept b then [b] else percent b.
Definition form_text (s : jsstr) : jsstr := flat_map form_byte (utf8_text s).

Fixpoint join (sep : jsstr) (l : list jsstr) : jsstr :=
  match l with
  | [] => []
  | [s] => s
  | s :: l => (s ++ sep ++ join sep l)%list
  end.
Definition serialize (l : list (jsstr * jsstr)) : jsstr :=
  join [38] (map (fun '(n, v) => form_text n ++ [61] ++ form_text v)%list l).

(** The parts of a string between separators, and the two parts around the first. *)
Fixpoint split (sep : Z) (s : jsstr) : list jsstr :=
  match s with
  | [] => [[]]
  | c :: t =>
      match split sep t with
      | p :: l => if c =? sep then [] :: p :: l else (c :: p) :: l
      | [] => []
      end
  end.
Fixpoint cut (sep : Z) (s : jsstr) : jsstr * option jsstr :=
  match s with
  | [] => ([], None)
  | c :: t => if c =? sep then ([], Some t) else let '(a, b) := cut sep t in (c :: a, b)
  end.

Definition hex_of (c : Z) : option Z :=
  if (48 <=? c) && (c <=? 57) then Some (c - 48)
  else if (97 <=? c) && (c <=? 102) then Some (c - 87)
  else if (65 <=? c) && (c <=? 70) then Some (c - 55)
  else None.
Fixpoint percent_decode (bs : list Z) : list Z :=
  match bs with
  | [] => []
  | 37 :: ((x :: y :: t) as rest) =>
      match hex_of x, hex_of y with
      | Some a, Some b => 16 * a + b :: percent_decode t
      | _, _ => 37 :: percent_decode rest
      end
  | b :: t => b :: percent_decode t
  end.

(** The string of a UTF-8 text. *)
Definition utf8_string (bs : list Z) : option jsstr :=
  let s := utf8_decode bs in if bool_decide (utf8_text s = bs) then Some s else None.

Definition form_string (bs : list Z) : option jsstr :=
  utf8_string (percent_decode (map (fun b => if b =? 43 then 32 else b) bs)).
Definition parse_pair (bs : list Z) : option (jsstr * jsstr) :=
  let '(n, v) := cut 61 bs in
  n ← form_string n;
  v ← form_string (default [] v);
  Some (n, v).
Definition parse (s : jsstr) : option (list (jsstr * jsstr)) :=
  mapM parse_pair (List.filter (fun p => negb (bool_decide (p = []))) (split 38 (utf8_text s))).

(** The order of names, by code units, and a stable sort. *)
Fixpoint units_le (a b : jsstr) : bool :=
  match a, b with
  | [], _ => true
  | _ :: _, [] => false
  | x :: a, y :: b => (x <? y) || ((x =? y) && units_le a b)
  end.
Fixpoint insert_pair (p : jsstr * jsstr) (l : list (jsstr * jsstr)) : list (jsstr * jsstr) :=
  match l with
  | [] => [p]
  | q :: t => if units_le p.1 q.1 then p :: l else q :: insert_pair p t
  end.
Definition sort_pairs (l : list (jsstr * jsstr)) : list (jsstr * jsstr) := foldr insert_pair [] l.

(** ** URLs *)

(** [front] is the URL up to its query; [opaque] says that its path is no list. *)
Record url_object : Type := Url {
  front : jsstr; scheme_end : nat; opaque : bool; query : option jsstr; fragment : option jsstr; own_params : nat }.

(** The URLs that are read as they are written: a path of letters after data:, or
    a host of letters and dots after http:// or https:// and a path of letters. *)
Definition letter (c : Z) : bool := (97 <=? c) && (c <=? 122).
Definition written (s : jsstr) : option (nat * bool) :=
  let after p := if startsWith p s then Some (drop (length p) s) else None in
  match after (js "data:") with
  | Some t => if forallb (fun c => letter c || (c =? 32)) t && match t with c :: _ => letter c | [] => false end then Some (5%nat, true) else None
  | None =>
      match match after (js "http://") with Some t => Some t | None => after (js "https://") end with
      | Some t =>
          match cut 47 t with
          | (h :: host, Some path) =>
              if letter h && forallb (fun c => letter c || (c =? 46)) host && forallb letter path
              then Some ((length s - length path - 1)%nat, false) else None
          | _ => None
          end
      | None => None
      end
  end.

(** The query of a URL: what is not printable ASCII, and four characters, is
    percent-encoded, and the apostrophe too where the scheme is http or https. *)
Definition query_byte (special : bool) (b : Z) : jsstr :=
  if (b <=? 32) || (126 <? b) || existsb (Z.eqb b) [34; 35; 60; 62] || (special && (b =? 39)) then percent b else [b].
Definition query_text (special : bool) (s : jsstr) : jsstr := flat_map (query_byte special) (utf8_text s).

(** No tabs and newlines, which are dropped, and nothing at the end that is. *)
Definition plain (s : jsstr) : bool :=
  forallb (fun c => negb (existsb (Z.eqb c) [9; 10; 13])) s && match reverse s with c :: _ => 32 <? c | [] => true end.

Definition parse_url (s : jsstr) (own : nat) : option url_object :=
  if plain s then
    let '(s, f) := cut 35 s in
    let '(p, q) := cut 63 s in
    w ← written p;
    if match f with Some f => forallb letter f | None => true end
    then Some (Url p w.1 w.2 (query_text (negb w.2) <$> q) f own) else None
  else None.

(** A reference that is only a query, to a base whose path is a list. *)
Definition parse_reference (s base : jsstr) (own : nat) : option url_object :=
  match s with
  | 63 :: q =>
      b ← parse_url base own;
      if bool_decide (35 ∈ q) || opaque b || negb (plain s) then None
      else Some (Url (front b) (scheme_end b) false (Some (query_text true q)) None own)
  | _ => None
  end.

Definition search_of (u : url_object) : jsstr := match query u with None | Some [] => [] | Some q => 63 :: q end.
Definition href_of (u : url_object) : jsstr :=
  (front u ++ match query u with None => [] | Some q => 63 :: q end ++ match fragment u with None => [] | Some f => 35 :: f end)%list.
Definition pathname_of (u : url_object) : jsstr := drop (scheme_end u) (front u).

(** The spaces at the end of an opaque path go with the query and the fragment. *)
Fixpoint strip_front (s : jsstr) : jsstr := match s with 32 :: t => strip_front t | _ => s end.
Definition strip_path (u : url_object) : url_object :=
  match query u, fragment u with
  | None, None => if opaque u then Url (reverse (strip_front (reverse (front u)))) (scheme_end u) true None None (own_params u) else u
  | _, _ => u
  end.
Definition set_query (q : option jsstr) (u : url_object) : url_object :=
  Url (front u) (scheme_end u) (opaque u) q (fragment u) (own_params u).

(** ** The objects *)

Record params_object : Type := Params { pairs : list (jsstr * jsstr); owner : option nat }.
Record iterator : Type := Iter { over : nat; position : nat }.
Record web : Type := Web {
  params : list params_object; urls : list url_object; iters : list iterator; forms : list (list (jsstr * jsstr)) }.

Definition no_objects : web := Web [] [] [] [].

Definition with_params (l : list params_object) (w : web) : web := Web l (urls w) (iters w) (forms w).
Definition with_urls (l : list url_object) (w : web) : web := Web (params w) l (iters w) (forms w).

Definition pairs_of (p : nat) (w : web) : option (list (jsstr * jsstr)) := pairs <$> params w !! p.

Definition new_params (l : list (jsstr * jsstr)) (o : option nat) (w : web) : web * nat :=
  (with_params (params w ++ [Params l o]) w, length (params w)).

(** A change of the pairs, and of the URL they belong to. *)
Definition update_url (u : nat) (l : list (jsstr * jsstr)) (w : web) : web :=
  let q := match serialize l with [] => None | q => Some q end in
  with_urls (alter (fun x => strip_path (set_query q x)) u (urls w)) w.
Definition change (p : nat) (f : list (jsstr * jsstr) -> list (jsstr * jsstr)) (w : web) : option (web * option unit) :=
  x ← params w !! p;
  let l := f (pairs x) in
  let w' := with_params (<[p := Params l (owner x)]> (params w)) w in
  Some (match owner x with Some u => update_url u l w' | None => w' end, Some tt).

(** An optional second argument. *)
Definition pair_matches (n : jsstr) (v : option jsstr) (q : jsstr * jsstr) : bool :=
  str_eqb q.1 n && match v with Some v => str_eqb q.2 v | None => true end.
Definition optional (v : val) : option (option jsstr) := match v with Undefined => Some None | _ => s ← usv v; Some (Some s) end.

Fixpoint set_pair (n v : jsstr) (l : list (jsstr * jsstr)) : list (jsstr * jsstr) :=
  match l with
  | [] => [(n, v)]
  | q :: t => if str_eqb q.1 n then (n, v) :: List.filter (fun q => negb (str_eqb q.1 n)) t else q :: set_pair n v t
  end.

Definition pair_of (l : list val) : option (option (jsstr * jsstr)) :=
  l ← mapM usv l;
  match l with
  | [n; v] => Some (Some (n, v))
  | _ => Some None
  end.

(** A record in the order of its keys, when they are distinct and none is an index. *)
Definition record_pairs (l : list (val * val)) : option (list (jsstr * jsstr)) :=
  l ← mapM (fun '(n, v) => match n with Str _ => usv_pair n v | _ => None end) l;
  if bool_decide (NoDup (map fst l)) && forallb (fun q => match q.1 with c :: _ => negb ((48 <=? c) && (c <=? 57)) | [] => true end) l
  then Some l else None.

(** What the constructor makes of its argument: [Some None] when it throws. *)
Definition init_pairs (i : params_init) (w : web) : option (option (list (jsstr * jsstr))) :=
  match i with
  | NoInit => Some (Some [])
  | InitValue Undefined => Some (Some [])
  | InitValue v => Some <$> (s ← usv v; parse (match s with 63 :: t => t | _ => s end))
  | InitParams p => Some <$> pairs_of p w
  | InitForm f => Some <$> forms w !! f
  | InitSequence l => option_map (mapM id) (mapM pair_of l)
  | InitRecord l => Some <$> record_pairs l
  end.

Definition entry_vals (q : jsstr * jsstr) : list val := [Str q.1; Str q.2].

(** [url.search = v]. *)
Definition change_search (u : nat) (s : jsstr) (w : web) : option (web * option unit) :=
  x ← urls w !! u;
  let t := match s with 63 :: t => t | _ => s end in
  l ← parse t;
  if existsb (fun c => existsb (Z.eqb c) [9; 10; 13]) s then None else
  let x' := match s with [] => strip_path (set_query None x) | _ => set_query (Some (query_text (negb (opaque x)) t)) x end in
  Some (with_params (alter (fun p => Params l (owner p)) (own_params x) (params w)) (with_urls (<[u := x']> (urls w)) w), Some tt).

(** ** The operations *)

Definition answered {T} (w : web) (t : T) : option (web * option T) := Some (w, Some t).
Definition on_url {T} (u : nat) (f : url_object -> T) (w : web) : option (web * option T) := x ← urls w !! u; answered w (f x).
Definition on_params {T} (p : nat) (f : list (jsstr * jsstr) -> T) (w : web) : option (web * option T) :=
  l ← pairs_of p w; answered w (f l).

Definition url_standard : specification url_op web := fun T o w =>
  match o in url_op T return option (web * option T) with
  | NewParams i =>
      l ← init_pairs i w;
      match l with
      | Some l => let '(w, p) := new_params l None w in answered w p
      | None => Some (w, None)
      end
  | ParamsPrototype p => on_params p (fun _ => Bool true) w
  | Append p n v => q ← usv_pair n v; change p (fun l => l ++ [q])%list w
  | Delete p n v => n ← usv n; v ← optional v; change p (List.filter (fun q => negb (pair_matches n v q))) w
  | Get p n => n ← usv n; on_params p (fun l => match find (pair_matches n None) l with Some q => Str q.2 | None => Null end) w
  | GetAll p n => n ← usv n; on_params p (fun l => map (fun q => Str q.2) (List.filter (pair_matches n None) l)) w
  | Has p n v => n ← usv n; v ← optional v; on_params p (fun l => Bool (existsb (pair_matches n v) l)) w
  | SetValue p n v => q ← usv_pair n v; change p (set_pair q.1 q.2) w
  | SortParams p => change p sort_pairs w
  | Size p => on_params p (fun l => Num (of_Z (Z.of_nat (length l)))) w
  | ToText p => on_params p (fun l => Str (serialize l)) w
  | EntriesOf p => _ ← pairs_of p w; answered (Web (params w) (urls w) (iters w ++ [Iter p 0]) (forms w)) (length (iters w))
  | Next i =>
      x ← iters w !! i;
      l ← pairs_of (over x) w;
      match l !! position x with
      | Some q =>
          answered (Web (params w) (urls w) (<[i := Iter (over x) (S (position x))]> (iters w)) (forms w)) (Some (entry_vals q))
      | None => answered w None
      end
  | ForEach p => on_params p (map (fun q => (Str q.2, Str q.1))) w
  | NewURL s base =>
      s ← usv s;
      b ← optional base;
      u ← match b with
          | None => parse_url s (length (params w))
          | Some b => parse_reference s b (length (params w))
          end;
      l ← parse (default [] (query u));
      let '(w, _) := new_params l (Some (length (urls w))) w in
      answered (with_urls (urls w ++ [u]) w) (length (urls w))
  | SearchParams u => on_url u own_params w
  | Href u => on_url u (fun x => Str (href_of x)) w
  | URLText u => on_url u (fun x => Str (href_of x)) w
  | Search u => on_url u (fun x => Str (search_of x)) w
  | Pathname u => on_url u (fun x => Str (pathname_of x)) w
  | SetSearch u v => s ← usv v; change_search u s w
  | NewForm => answered (Web (params w) (urls w) (iters w) (forms w ++ [[]])) (length (forms w))
  | FormAppend f n v =>
      q ← usv_pair n v;
      l ← forms w !! f;
      answered (Web (params w) (urls w) (iters w) (<[f := l ++ [q]]> (forms w))) tt
  | FormHas f n => n ← usv n; l ← forms w !! f; answered w (Bool (existsb (pair_matches n None) l))
  end%list.
