(* ===== verification/UrlFacts.v ===== *)
(** The test of [URLSearchParams] answers a success on every implementation that
    behaves as documented; and what its loops over entries accept. *)

From Stdlib Require Import String.
From stdpp Require Import base numbers list option.
From S2P Require Import Prelude JsNumber JsValue TestSuite PromiseTest Script UrlTest UrlSpec.

Local Open Scope Z_scope.

(** ** The whole test *)

(** On the specification every test passes, when the loops may take fifteen turns. *)
Lemma url_tests_pass k : exists w, specified_all url_standard (map fst (url_tests (15 + k))) no_objects = Some (w, Some tt).
Proof. eexists. vm_compute. reflexivity. Qed.

(** C11: the test of [URLSearchParams] answers a success on every implementation of
    the classes whose operations answer as [url_standard] specifies, from a state
    related to the one without objects.  Every loop ends after at most fifteen turns:
    one that went on for longer than the turns it is given would fail. *)
Theorem params_response {N} (I : implementation url_op N) (R : N -> web -> Prop) (n : N) (turns : nat) :
  agrees I url_standard R -> R n no_objects -> (15 <= turns)%nat ->
  UrlTest.handleRequest I turns n = (200, inl "All tests passed!"%string).
Proof.
  intros Ag Rn H. unfold UrlTest.handleRequest. replace turns with (15 + (turns - 15))%nat by lia.
  destruct (url_tests_pass (turns - 15)) as [w E].
  pose proof (scripts_refine I url_standard R (url_tests (15 + (turns - 15))) Ag n no_objects Rn) as S.
  rewrite E in S. destruct S as (n' & -> & _). reflexivity.
Qed.

Lemma params_response_witness :
  UrlTest.handleRequest (by_specification url_standard) 20 no_objects = (200, inl "All tests passed!"%string).
Proof. apply (params_response _ eq _ 20 (by_specification_agrees url_standard) eq_refl). lia. Defined.

(** ** The loops over entries *)

Lemma equals_nth_ok q out k :
  equals_nth (entry_vals q) (unit_pairs out) k = Ok tt <-> out !! k = Some q.
Proof.
  unfold equals_nth, unit_pairs. rewrite list_lookup_fmap. destruct (out !! k) as [[n v]|]; cbn; [|split; discriminate].
  destruct q as [m u]. unfold assert_array_equals, all_equal, entry_vals. cbn.
  destruct (str_eqb_spec m n) as [->|N1]; cbn; [|split; [discriminate|intros [=]; congruence]].
  destruct (str_eqb_spec u v) as [->|N2]; cbn; [|split; [discriminate|intros [=]; congruence]].
  split; reflexivity.
Qed.

Lemma next_entry i p k l w : iters w !! i = Some (Iter p k) -> pairs_of p w = Some l ->
  url_standard _ (Next i) w =
    match l !! k with
    | Some q => Some (Web (params w) (urls w) (<[i := Iter p (S k)]> (iters w)) (forms w), Some (Some (entry_vals q)))
    | None => Some (w, Some None)
    end.
Proof. intros Hi Hp. cbn. rewrite Hi. cbn. rewrite Hp. cbn. destruct (l !! k); reflexivity. Qed.

(** A loop that compares the entries with [unit_pairs out] from place [k] on. *)
Lemma entries_loop out i p l turns : forall k w, iters w !! i = Some (Iter p k) -> pairs_of p w = Some l -> (k <= length l < turns + k)%nat ->
  exists w', specified url_standard (for_of turns (Next i) (fun j param => sbind (asserted (equals_nth param (unit_pairs out) j)) (fun _ => Done (S j))) k) w =
    Some (w', if bool_decide (drop k l `prefix_of` drop k out) then Some (Nat.max k (length l)) else None).
Proof.
  induction turns as [|turns IH]; intros k w Hi Hp L.
  { lia. }
  cbn [for_of specified]. rewrite (next_entry i p k l w Hi Hp).
  destruct (l !! k) as [q|] eqn:Q.
  - rewrite (drop_S l q k Q). set (w1 := Web _ _ _ _).
    assert (P1 : pairs_of p w1 = Some l) by exact Hp.
    assert (I1 : iters w1 !! i = Some (Iter p (S k))).
    { cbn. apply list_lookup_insert_eq, lookup_lt_is_Some. eauto. }
    destruct (equals_nth (entry_vals q) (unit_pairs out) k) as [[]|e] eqn:E.
    + assert (K : (k < length l)%nat) by (apply lookup_lt_is_Some; eauto).
      apply equals_nth_ok in E. cbn [asserted sbind]. destruct (IH (S k) w1 I1 P1 ltac:(lia)) as [w' ->].
      eexists. rewrite (drop_S out q k E). do 2 f_equal. rewrite !Nat.max_r by lia.
      rewrite (bool_decide_ext (q :: drop (S k) l `prefix_of` q :: drop (S k) out) (drop (S k) l `prefix_of` drop (S k) out)); [reflexivity|].
      split; [apply prefix_cons_inv_2|apply prefix_cons].
    + cbn [asserted sbind specified]. eexists. rewrite bool_decide_false; [reflexivity|]. intros [r F].
      assert (X : out !! k = Some q) by (rewrite <- (Nat.add_0_r k), <- lookup_drop, F; reflexivity).
      apply equals_nth_ok in X. congruence.
  - apply lookup_ge_None in Q. cbn [specified]. eexists. rewrite drop_ge by lia. rewrite bool_decide_true by apply prefix_nil.
    rewrite Nat.max_l by lia. reflexivity.
Qed.

(** The comparison of the entries with an expected list passes for every prefix of
    it, the empty one included: the tests of the constructor and of sorting notice no
    entry that is missing at the end. *)
Theorem entries_prefix p l out w turns : pairs_of p w = Some l -> (length l < turns)%nat ->
  exists w', specified url_standard (entries_are turns p (unit_pairs out)) w =
    Some (w', if bool_decide (l `prefix_of` out) then Some tt else None).
Proof.
  intros Hp L. unfold entries_are, for_entries, call. set (w1 := Web (params w) (urls w) (iters w ++ [Iter p 0]) (forms w)).
  assert (E0 : url_standard _ (EntriesOf p) w = Some (w1, Some (length (iters w)))) by (cbn; rewrite Hp; reflexivity).
  cbn [sbind specified]. rewrite E0.
  destruct (entries_loop out (length (iters w)) p l turns 0 w1) as [w' E]; [|exact Hp|lia|].
  { cbn. rewrite lookup_app_r, Nat.sub_diag by lia. reflexivity. }
  exists w'. rewrite specified_sbind, E. rewrite !drop_0. destruct (bool_decide _); reflexivity.
Qed.
