(* ===== verification/FormTest.v ===== *)
(** The test of [FormData]
    (test-suite/js-test-app/src/test-files/14-form-data.js).

    The classes [FormData], [Blob] and [File] and the clock are native: their methods
    are the operations of scripts.  Objects of [FormData] and iterators are numbered in
    the order they are made, Blobs and Files together in the order they are made or
    first handed out. *)

From Stdlib Require Import String.
From stdpp Require Import base numbers list.
From S2P Require Import Prelude JsNumber JsValue Streams TestSuite PromiseTest Script.

Local Open Scope Z_scope.
Local Open Scope js_scope.
Local Open Scope script_scope.
Local Open Scope string_scope.

(** ** The operations *)

(** An entry's value and what the tests compare: a primitive value, a Blob or File. *)
Inductive form_item : Type := Prim (v : val) | Obj (k : nat).

(** A third argument of [append] and [set], and the options of the constructors, are
    [Undefined] when they are missing.  [IterDefault f] is [f[Symbol.iterator]()];
    [NextEntry] answers an array of an iterator of pairs, [NextItem] what an iterator of
    names or of values gives.  [Instance c x] is [x instanceof c], and [Now] the time
    that [Date.now()] and [new Date()] take. *)
Inductive form_op : Type -> Type :=
| NewForm : form_op nat
| AppendItem (f : nat) (name : val) (value : form_item) (filename : val) : form_op unit
| SetItem (f : nat) (name : val) (value : form_item) (filename : val) : form_op unit
| DeleteName (f : nat) (name : val) : form_op unit
| GetItem (f : nat) (name : val) : form_op form_item
| GetItems (f : nat) (name : val) : form_op (list form_item)
| HasName (f : nat) (name : val) : form_op val
| IterDefault (f : nat) : form_op nat
| IterEntries (f : nat) : form_op nat
| IterKeys (f : nat) : form_op nat
| IterValues (f : nat) : form_op nat
| NextEntry (i : nat) : form_op (option (list form_item))
| NextItem (i : nat) : form_op (option form_item)
| NewBlob (parts : list val) (type : val) : form_op nat
| NewFile (parts : list val) (name lastModified : val) : form_op nat
| Instance (c : string) (x : form_item) : form_op val
| ConstructorName (x : form_item) : form_op val
| FileName (x : form_item) : form_op val
| FileType (x : form_item) : form_op val
| FileSize (x : form_item) : form_op val
| LastModified (x : form_item) : form_op val
| Now : form_op num.

Abbreviation script := (script form_op).

(** ** Assertions on items *)

(** What a message shows of an item. *)
Definition shown_item (x : form_item) : val := match x with Prim v => v | Obj _ => VObj [] None None end.

(** [===] and [==]; an object is only equal to itself. *)
Definition same_item (x y : form_item) : bool :=
  match x, y with
  | Prim v, Prim w => strict_eq v w
  | Obj j, Obj k => Nat.eqb j k
  | _, _ => false
  end.
Definition equal_item (x y : form_item) : bool :=
  match x, y with Prim v, Prim w => loose_eq v w | _, _ => same_item x y end.

Definition item_equals (actual expected : form_item) (m : val) : result :=
  assert (same_item actual expected)
    (MFn [Text "Expected "; PVal (shown_item expected); Text " but got "; PVal (shown_item actual); Text ": "; PVal m]).
Definition item_not_equals (actual expected : form_item) (m : val) : result :=
  assert (negb (same_item actual expected))
    (MFn [Text "Expected "; PVal (shown_item expected); Text " to be unequal to "; PVal (shown_item actual); Text ": "; PVal m]).

Definition item_at (l : list form_item) (i : nat) : form_item := default (Prim Undefined) (l !! i).
Definition all_items (array1 array2 : list form_item) (n : nat) : bool :=
  forallb (fun i => equal_item (item_at array1 i) (item_at array2 i)) (seq 0 n).
Definition item_arrays (array1 array2 : list form_item) (m : val) : result :=
  let differ : result := Throw (NewError [Text "Expected "; PVal (VArray (map shown_item array1)); Text " to be equal to ";
                                 PVal (VArray (map shown_item array2)); Text ": "; PVal m]) in
  if negb (Nat.eqb (length array1) (length array2)) then differ
  else if negb (all_items array1 array2 (length array1)) then differ
  else if negb (all_items array1 array2 (length array2)) then differ
  else Ok tt.

(** ** Parts of the tests *)

Local Coercion txt (s : string) : val := Str (js s).
Local Coercion int (z : Z) : val := Num (of_Z z).
Local Coercion Prim : val >-> form_item.
Definition missing : val := Undefined.
Definition words (l : list string) : list form_item := map (fun s => Prim (txt s)) l.

(** The arguments of [append] and [set], and their calls in order. *)
Definition arguments : Type := val * form_item * val.
Definition pair_args (name : val) (value : form_item) : arguments := (name, value, missing).

Fixpoint each_argument (f : arguments -> script unit) (l : list arguments) : script unit :=
  match l with
  | [] => Done tt
  | a :: l => do* f a in each_argument f l
  end.
Definition create_formdata (l : list arguments) : script nat :=
  let* fd := call NewForm in
  do* each_argument (fun '(n, v, name) => call (AppendItem fd n v name)) l in
  Done fd.
Definition create_formdata_set (l : list arguments) : script nat :=
  let* fd := call NewForm in
  do* each_argument (fun '(n, v, name) => call (SetItem fd n v name)) l in
  Done fd.
Definition createFormData (l : list (string * string)) : script nat :=
  let* formData := call NewForm in
  do* each_argument (fun '(n, v, name) => call (AppendItem formData n v name))
    (map (fun '(n, v) => pair_args (txt n) (txt v)) l) in
  Done formData.

Definition item_is (fd : nat) (name : val) (expected : form_item) : script unit :=
  let* v := call (GetItem fd name) in asserted (item_equals v expected missing).
Definition getAll_are (fd : nat) (name : val) (expected : list form_item) : script unit :=
  let* l := call (GetItems fd name) in asserted (item_arrays l expected missing).
Definition has_is (fd : nat) (name expected : val) : script unit :=
  let* b := call (HasName fd name) in asserted (assert_equals b expected missing).

(** [create_formdata(...).get('key')] against the expected value; [set] for the other. *)
Definition appended (l : list arguments) (expected : form_item) : script unit :=
  let* fd := create_formdata l in item_is fd "key" expected.
Definition set_gives (l : list arguments) (expected : form_item) : script unit :=
  let* fd := create_formdata_set l in item_is fd "key" expected.

Definition key (v : val) : arguments := pair_args "key" v.
Definition two_values : list arguments := [key "value1"; key "value2"].

Definition attribute_is (o : form_item -> form_op val) (x : form_item) (expected : val) : script unit :=
  let* v := call (o x) in asserted (assert_equals v expected missing).

(** ** The tests *)

Definition append_blob : script unit :=
  let* now := call Now in
  let before := Num (fsub now (of_Z 2000)) in
  let* b := call (NewBlob [] missing) in
  let* form := create_formdata [(txt "key", Obj b, txt "blank.txt")] in
  let* fd := call (GetItem form "key") in
  let* c := call (Instance "File" fd) in
  do* asserted (assert (truthy c) (MVal "OOPS!")) in
  let* c := call (Instance "Blob" fd) in
  do* asserted (assert (truthy c) (MVal "DOUBLE OOPS!")) in
  do* attribute_is FileName fd "blank.txt" in
  do* attribute_is FileType fd "" in
  do* attribute_is FileSize fd 0 in
  let* t := call (LastModified fd) in
  do* asserted (assert_greater_than_equal t before missing) in
  let* t := call (LastModified fd) in
  let* now := call Now in
  asserted (assert_less_than_equal t (Num now) missing).

Definition delete_key : script unit :=
  let* fd := create_formdata two_values in
  do* call (DeleteName fd "key") in
  item_is fd "key" Null.
Definition delete_nonexistent : script unit :=
  let* fd := create_formdata two_values in
  do* call (DeleteName fd "nil") in
  item_is fd "key" "value1".
Definition delete_other : script unit :=
  let* fd := create_formdata [pair_args "key1" "value1"; pair_args "key2" "value2"] in
  do* call (DeleteName fd "key1") in
  do* item_is fd "key1" Null in
  item_is fd "key2" "value2".

Definition first_tests : list (script unit * val) :=
  [(appended [key "value1"] "value1", txt "testFormDataAppend1");
   (appended [key "value2"; key "value1"] "value2", txt "testFormDataAppend2");
   (appended [key Undefined] "undefined", txt "testFormDataAppendUndefined1");
   (appended [key Undefined; key "value1"] "undefined", txt "testFormDataAppendUndefined2");
   (appended [key Null] "null", txt "testFormDataAppendNull1");
   (appended [key Null; key "value1"] "null", txt "testFormDataAppendNull2");
   (append_blob, txt "testFormDataAppendEmptyBlob");
   (delete_key, txt "testFormDataDelete");
   (delete_nonexistent, txt "testFormDataDeleteNonExistentKey");
   (delete_other, txt "testFormDataDeleteOtherKey")].

(** [fd] and [file], which the tests of the iterators share. *)
Definition make_shared : script (nat * nat) :=
  let* fd := call NewForm in
  let append (n v : string) := call (AppendItem fd n (txt v) missing) in
  do* append "n1" "v1" in
  do* append "n2" "v2" in
  do* append "n3" "v3" in
  do* append "n1" "v4" in
  do* append "n2" "v5" in
  do* append "n3" "v6" in
  do* call (DeleteName fd "n2") in
  let* file := call (NewFile [txt "hello"] "hello.txt" missing) in
  do* call (AppendItem fd "f1" (Obj file) missing) in
  Done (fd, file).

Definition expected_keys : list form_item := words ["n1"; "n3"; "n1"; "n3"; "f1"].
Definition expected_values (file : nat) : list form_item := (words ["v1"; "v3"; "v4"; "v6"] ++ [Obj file])%list.

Section Iterators.
(** Turns of the loops over an iterator. *)
Variable turns : nat.

(** The loops that gather keys and values; [iter] makes the iterator. *)
Definition gather_entries (iter : form_op nat) (mLength mKeys mValues : val) (file : nat) : script unit :=
  let* i := call iter in
  let* seen := for_of turns (NextEntry i) (fun '(mykeys, myvalues) entry =>
      do* asserted (assert_equals (Z.of_nat (length entry)) 2 mLength) in
      Done (mykeys ++ [item_at entry 0], myvalues ++ [item_at entry 1])%list) ([], []) in
  do* asserted (item_arrays seen.1 expected_keys mKeys) in
  asserted (item_arrays seen.2 (expected_values file) mValues).

Definition gather_items (iter : form_op nat) (expected : list form_item) (m : val) : script unit :=
  let* i := call iter in
  let* seen := for_of turns (NextItem i) (fun seen x => Done (seen ++ [x])%list) [] in
  asserted (item_arrays seen expected m).

(** [for (const [name, value] of formData)] with a change of the form at the end of
    each turn. *)
Definition while_iterating (pairs : list (string * string)) (each : nat -> form_item -> script unit)
    (keys values : list string) : script unit :=
  let* formData := createFormData pairs in
  let* i := call (IterDefault formData) in
  let* seen := for_of turns (NextEntry i) (fun '(actualKeys, actualValues) entry =>
      let name := item_at entry 0 in
      do* each formData name in
      Done (actualKeys ++ [name], actualValues ++ [item_at entry 1])%list) ([], []) in
  do* asserted (item_arrays seen.1 (words keys) missing) in
  asserted (item_arrays seen.2 (words values) missing).

Definition three_pairs : list (string * string) := [("foo", "0"); ("baz", "1"); ("BAR", "2")].
Definition four_pairs : list (string * string) := (three_pairs ++ [("quux", "3")])%list.

Definition skip_removed : script unit :=
  while_iterating three_pairs (fun f _ => call (DeleteName f "baz")) ["foo"; "BAR"] ["0"; "2"].
Definition remove_passed : script unit :=
  while_iterating four_pairs (fun f name => if same_item name (txt "baz") then call (DeleteName f "foo") else Done tt)
    ["foo"; "baz"; "quux"] ["0"; "1"; "3"].
Definition append_ahead : script unit :=
  while_iterating four_pairs
    (fun f name => if same_item name (txt "baz") then call (AppendItem f "X-yZ" (txt "4") missing) else Done tt)
    ["foo"; "baz"; "BAR"; "quux"; "X-yZ"] ["0"; "1"; "2"; "3"; "4"].

Definition with_form (l : list arguments) (f : nat -> script unit) : script unit :=
  let* fd := create_formdata l in f fd.

Definition set_empty_blob : script unit :=
  let* fd := call NewForm in
  let* b := call (NewBlob [] missing) in
  do* call (SetItem fd "key" (Obj b) "blank.txt") in
  let* file := call (GetItem fd "key") in
  let* c := call (Instance "File" file) in
  do* asserted (assert_true c missing) in
  attribute_is FileName file "blank.txt".

Definition shared_tests (fd file : nat) : list (script unit * val) :=
  [(gather_entries (IterDefault fd) "Default iterator should yield key/value pairs"
      "Default iterator should see duplicate keys" "Default iterator should see non-deleted values" file,
    txt "Iterator should return duplicate keys and non-deleted values");
   (gather_entries (IterEntries fd) "entries() iterator should yield key/value pairs"
      "entries() iterator should see duplicate keys" "entries() iterator should see non-deleted values" file,
    txt "Entries iterator should return duplicate keys and non-deleted values");
   (gather_items (IterKeys fd) expected_keys "keys() iterator should see duplicate keys",
    txt "Keys iterator should return duplicates");
   (gather_items (IterValues fd) (expected_values file) "values() iterator should see non-deleted values",
    txt "Values iterator should return non-deleted values");
   (appended two_values "value1", txt "testFormDataGet");
   (with_form two_values (fun fd => item_is fd "nil" Null), txt "testFormDataGetNull1");
   (appended [] Null, txt "testFormDataGetNull2");
   (with_form two_values (fun fd => getAll_are fd "key" (words ["value1"; "value2"])), txt "testFormDataGetAll");
   (with_form two_values (fun fd => getAll_are fd "nil" []), txt "testFormDataGetAllEmpty1");
   (with_form [] (fun fd => getAll_are fd "key" []), txt "testFormDataGetAllEmpty2");
   (with_form two_values (fun fd => has_is fd "key" (Bool true)), txt "testFormDataHas");
   (with_form two_values (fun fd => has_is fd "nil" (Bool false)), txt "testFormDataHasEmpty1");
   (with_form [] (fun fd => has_is fd "key" (Bool false)), txt "testFormDataHasEmpty2");
   (skip_removed, txt "Iteration skips elements removed while iterating");
   (remove_passed, txt "Removing elements already iterated over causes an element to be skipped during iteration");
   (append_ahead, txt "Appending a value pair during iteration causes it to be reached during iteration");
   (set_gives [key "value1"] "value1", txt "testFormDataSet1");
   (set_gives [key "value2"; key "value1"] "value1", txt "testFormDataSet2");
   (set_gives [key Undefined] "undefined", txt "testFormDataSetUndefined1");
   (set_gives [key Undefined; key "value1"] "value1", txt "testFormDataSetUndefined2");
   (set_gives [key Null] "null", txt "testFormDataSetNull1");
   (set_gives [key Null; key "value1"] "value1", txt "testFormDataSetNull2");
   (set_empty_blob, txt "testFormDataSetEmptyBlob")].

End Iterators.

(** [assert_less_than(Math.abs(x.lastModified - Date.now()), 200, ...)]. *)
Definition modified_now (x : form_item) : script unit :=
  let* t := call (LastModified x) in
  let* now := call Now in
  asserted (assert_less_than (Num (fabs (fsub (num_of t) now))) 200 "lastModified should be now").

(** What is read of the entry. *)
Definition entry_is (x : form_item) (name type : string) : script unit :=
  do* attribute_is ConstructorName x "File" in
  do* attribute_is FileName x name in
  attribute_is FileType x type.

(** Sets a Blob under a name; [twice] for the test that reads the entry again. *)
Definition blob_entry (formData : nat) (type : val) (name filename : val) (shown_name shown_type : string) (twice : bool) : script unit :=
  let* value := call (NewBlob [] type) in
  do* call (SetItem formData name (Obj value) filename) in
  let* blob := call (GetItem formData name) in
  do* asserted (item_not_equals blob (Obj value) missing) in
  do* entry_is blob shown_name shown_type in
  do* (if twice then
         let* x := call (GetItem formData name) in
         let* y := call (GetItem formData name) in
         asserted (assert_equals (Bool (same_item x y)) (Bool true) "should return the same value when get the same blob entry from FormData")
       else Done tt) in
  modified_now blob.

Definition file_entry (formData : nat) : script unit :=
  let* value := call (NewFile [] "name" missing) in
  do* call (SetItem formData "file-1" (Obj value) missing) in
  let* file1 := call (GetItem formData "file-1") in
  do* asserted (item_equals file1 (Obj value) missing) in
  do* entry_is file1 "name" "" in
  modified_now file1.

Definition renamed_file (formData : nat) : script unit :=
  let* value := call (NewFile [] "name" 123) in
  do* call (SetItem formData "file-2" (Obj value) "custom name") in
  let* file2 := call (GetItem formData "file-2") in
  do* asserted (item_not_equals file2 (Obj value) missing) in
  do* entry_is file2 "custom name" "" in
  let* t := call (LastModified file2) in
  asserted (assert_equals t 123 "lastModified should be 123").

Definition last_tests (formData : nat) : list (script unit * val) :=
  [(blob_entry formData missing "blob-1" missing "blob" "" true, txt "blob without type");
   (blob_entry formData "text/plain" "blob-2" missing "blob" "text/plain" false, txt "blob with type");
   (blob_entry formData missing "blob-3" "custom name" "custom name" "" false, txt "blob with custom name");
   (file_entry formData, txt "file without lastModified or custom name");
   (renamed_file formData, txt "file with lastModified and custom name")].

(** [handleRequest(request)] from the state of the native classes. *)
Definition form_body {N} (I : implementation form_op N) (turns : nat) : comp N thrown unit :=
  do! run_scripts I first_tests in
  let! shared := run I make_shared in
  do! run_scripts I (shared_tests turns shared.1 shared.2) in
  let! formData := run I (call NewForm) in
  run_scripts I (last_tests formData).

Definition handleRequest {N} (I : implementation form_op N) (turns : nat) (n : N) : Z * (string + thrown) :=
  respond (form_body I turns n).2.
