(* ===== verification/FormSpec.v ===== *)
(** The documented behaviour of [FormData] and of the attributes of Blob and File: a
    specification of the operations of [FormTest].

    A form is a list of names with texts or files; an iterator is a place in one, which
    follows its changes.  A File made without a time takes the one the clock shows,
    which is given by the times it shows at each reading.  The standard does not say
    what the time of a File is that is made of another by giving it a new name: that
    is a parameter, [renamed].  Where the specification says nothing the answer is
    [None]: for the text of objects and of Numbers that are no integers up to 2^53, for
    times beyond that, for types that are not printable ASCII. *)

From Stdlib Require Import String.
From stdpp Require Import base numbers list option.
From S2P Require Import Prelude JsNumber JsValue Streams TestSuite Script UrlSpec FormTest.

Local Open Scope Z_scope.
Local Open Scope js_scope.

(** ** The objects *)

(** The name and the time of a Blob mean nothing. *)
Record blob_object : Type := BlobObject { is_file : bool; b_name : jsstr; b_type : jsstr; b_size : Z; b_modified : num }.

Inductive form_value : Type := TextValue (s : jsstr) | FileValue (k : nat).
Definition form_list : Type := list (jsstr * form_value).

Inductive kind : Type := Entries | Keys | Values.

(** [readings] counts those of the clock. *)
Record fworld : Type := FWorld {
  form_lists : list form_list; blobs : list blob_object; places : list (kind * nat * nat); readings : nat }.

Definition no_forms : fworld := FWorld [] [] [] 0.

Definition with_forms (l : list form_list) (w : fworld) : fworld := FWorld l (blobs w) (places w) (readings w).
Definition add_blob (b : blob_object) (w : fworld) : fworld * nat :=
  (FWorld (form_lists w) (blobs w ++ [b]) (places w) (readings w), length (blobs w)).
Definition add_place (k : kind) (f : nat) (w : fworld) : fworld * nat :=
  (FWorld (form_lists w) (blobs w) (places w ++ [(k, f, 0%nat)]) (readings w), length (places w)).
Definition tick (w : fworld) : fworld := FWorld (form_lists w) (blobs w) (places w) (S (readings w)).

Abbreviation form_answer T := (option (fworld * option T)).
Definition form_answers {T} (w : fworld) (t : T) : form_answer T := Some (w, Some t).

(** ** Blobs and files *)

(** The bytes of texts. *)
Definition parts_size (parts : list val) : option Z :=
  l ← mapM usv parts; Some (Z.of_nat (length (flat_map utf8_text l))).

Definition type_of_blob (v : val) : option jsstr :=
  match v with
  | Undefined => Some []
  | Str s => if forallb (fun c => (32 <=? c) && (c <=? 126)) s then Some (toLowerCase s) else None
  | _ => None
  end.

Definition item_of (v : form_value) : form_item := match v with TextValue s => Prim (Str s) | FileValue k => Obj k end.

(** A change of the list that a method makes with a text, whose name is [n]. *)
Fixpoint set_entry (n : jsstr) (v : form_value) (l : form_list) : form_list :=
  match l with
  | [] => [(n, v)]
  | q :: t => if str_eqb q.1 n then (n, v) :: List.filter (fun q => negb (str_eqb q.1 n)) t else q :: set_entry n v t
  end.

Definition has_name (n : jsstr) (q : jsstr * form_value) : bool := str_eqb q.1 n.

Section Standard.
(** What the clock shows at each reading. *)
Variable clock : nat -> num.

(** The time of a renamed File, by its number, the time of the File it is made of and
    the time of the call. *)
Variable renamed : nat -> num -> num -> num.

Definition now (w : fworld) : num := clock (readings w).

(** The value of an entry: a Blob becomes a File of its own, and so does a File that is
    given another name; [Some None] where the call throws. *)
Definition make_value (x : form_item) (filename : val) (w : fworld) : option (option (fworld * form_value)) :=
  match x, filename with
  | Prim v, Undefined => s ← usv v; Some (Some (w, TextValue s))
  | Prim _, _ => Some None
  | Obj k, _ =>
      b ← blobs w !! k;
      match is_file b, filename with
      | true, Undefined => Some (Some (w, FileValue k))
      | true, _ =>
          n ← usv filename;
          let t := renamed (length (blobs w)) (b_modified b) (now w) in
          let '(w, j) := add_blob (BlobObject true n (b_type b) (b_size b) t) w in Some (Some (tick w, FileValue j))
      | false, _ =>
          n ← match filename with Undefined => Some (js "blob") | _ => usv filename end;
          let '(w', j) := add_blob (BlobObject true n (b_type b) (b_size b) (now w)) w in Some (Some (tick w', FileValue j))
      end
  end.

Definition change_form (f : nat) (name : val) (x : form_item) (filename : val)
    (change : jsstr -> form_value -> form_list -> form_list) (w : fworld) : form_answer unit :=
  n ← usv name;
  r ← make_value x filename w;
  match r with
  | None => Some (w, None)
  | Some (w, v) => l ← form_lists w !! f; form_answers (with_forms (<[f := change n v l]> (form_lists w)) w) tt
  end.

Definition on_form {T} (f : nat) (g : form_list -> T) (w : fworld) : form_answer T := l ← form_lists w !! f; form_answers w (g l).
Definition on_blob {T} (x : form_item) (g : blob_object -> option T) (w : fworld) : form_answer T :=
  match x with
  | Prim _ => None
  | Obj k => b ← blobs w !! k; t ← g b; form_answers w t
  end.
Definition on_file (x : form_item) (g : blob_object -> val) : fworld -> form_answer val :=
  on_blob x (fun b => Some (if is_file b then g b else Undefined)).

(** The entry at the place of an iterator, which moves on. *)
Definition next_place {T} (i : nat) (g : kind -> jsstr * form_value -> option T) (w : fworld) : form_answer (option T) :=
  p ← places w !! i;
  let '(k, f, n) := p in
  l ← form_lists w !! f;
  match l !! n with
  | None => form_answers w None
  | Some q => t ← g k q; form_answers (FWorld (form_lists w) (blobs w) (<[i := (k, f, S n)]> (places w)) (readings w)) (Some t)
  end.

Definition with_new {A B T} (r : A * B) (f : A -> B -> T) : T := f r.1 r.2.

Definition form_standard : specification form_op fworld := fun T o w =>
  match o in form_op T return form_answer T with
  | NewForm => form_answers (with_forms (form_lists w ++ [[]]) w) (length (form_lists w))
  | AppendItem f n x name => change_form f n x name (fun n v l => l ++ [(n, v)]) w
  | SetItem f n x name => change_form f n x name set_entry w
  | DeleteName f n =>
      n ← usv n; l ← form_lists w !! f; form_answers (with_forms (<[f := List.filter (fun q => negb (has_name n q)) l]> (form_lists w)) w) tt
  | GetItem f n => n ← usv n; on_form f (fun l => match find (has_name n) l with Some q => item_of q.2 | None => Prim Null end) w
  | GetItems f n => n ← usv n; on_form f (fun l => map (fun q => item_of q.2) (List.filter (has_name n) l)) w
  | HasName f n => n ← usv n; on_form f (fun l => Bool (existsb (has_name n) l)) w
  | IterDefault f | IterEntries f => with_new (add_place Entries f w) form_answers
  | IterKeys f => with_new (add_place Keys f w) form_answers
  | IterValues f => with_new (add_place Values f w) form_answers
  | NextEntry i =>
      next_place i (fun k q => match k with Entries => Some [Prim (Str q.1); item_of q.2] | _ => None end) w
  | NextItem i =>
      next_place i (fun k q => match k with Keys => Some (Prim (Str q.1)) | Values => Some (item_of q.2) | Entries => None end) w
  | NewBlob parts type =>
      n ← parts_size parts; t ← type_of_blob type; with_new (add_blob (BlobObject false [] t n (of_Z 0)) w) form_answers
  | NewFile parts name time =>
      n ← parts_size parts; s ← usv name;
      match time with
      | Undefined => with_new (add_blob (BlobObject true s [] n (now w)) (tick w)) form_answers
      | Num t => if Z.abs (to_integer t) <=? 2 ^ 53
                 then with_new (add_blob (BlobObject true s [] n (of_Z (to_integer t))) w) form_answers else None
      | _ => None
      end
  | Instance c x =>
      match x with
      | Prim _ => form_answers w (Bool false)
      | Obj _ => on_blob x (fun b => if String.eqb c "Blob" then Some (Bool true)
                                     else if String.eqb c "File" then Some (Bool (is_file b)) else None) w
      end
  | ConstructorName x => on_blob x (fun b => Some (Str (js (if is_file b then "File" else "Blob")))) w
  | FileName x => on_file x (fun b => Str (b_name b)) w
  | FileType x => on_blob x (fun b => Some (Str (b_type b))) w
  | FileSize x => on_blob x (fun b => Some (Num (of_Z (b_size b)))) w
  | LastModified x => on_file x (fun b => Num (b_modified b)) w
  | Now => form_answers (tick w) (now w)
  end.

End Standard.

(** The clock shows whole milliseconds and does not go back, and two readings in a row
    are less than a fifth of a second apart. *)
Definition steady_clock (clock : nat -> num) : Prop :=
  exists time : nat -> Z, forall i,
    clock i = of_Z (time i) /\ 0 <= time i <= 2 ^ 52 /\ time i <= time (S i) < time i + 200.
