(* ===== verification/FormFacts.v ===== *)
(** The test of [FormData] answers a success on every implementation that behaves as
    documented and whose clock is steady. *)

From Stdlib Require Import String.
From stdpp Require Import base numbers list option.
From S2P Require Import Prelude JsNumber JsValue Ieee754Facts TestSuite PromiseTest Script FormTest FormSpec.

Local Open Scope Z_scope.
Local Open Scope js_scope.

(** ** One operation at a time *)

(** A test whose result depends on the clock is run by the lemmas of this section, the
    others by computation. *)
Section Steps.
Context {M : Type} (J : specification form_op M).

Lemma specified_ask {A T} (o : form_op T) (k : T -> script A) w w' t r :
  J T o w = Some (w', Some t) -> specified J (k t) w' = r -> specified J (Ask o k) w = r.
Proof. intros E H. cbn [specified]. rewrite E. exact H. Qed.

Lemma specified_asserted {A} (x : result) (f : unit -> script A) w r :
  x = Ok tt -> specified J (f tt) w = r -> specified J (sbind (asserted x) f) w = r.
Proof. intros -> H. exact H. Qed.

Lemma specified_last (x : result) w : x = Ok tt -> specified J (asserted x) w = Some (w, Some tt).
Proof. intros ->. reflexivity. Qed.

Lemma specified_assert (b : bool) m w : specified J (asserted (assert b m)) w = Some (w, if b then Some tt else None).
Proof. destruct b; reflexivity. Qed.

Lemma specified_assoc {A B C} (m : script A) (f : A -> script B) (g : B -> script C) w r :
  specified J (sbind m (fun a => sbind (f a) g)) w = r -> specified J (sbind (sbind m f) g) w = r.
Proof.
  intros <-. rewrite !specified_sbind. destruct (specified J m w) as [[w' [a|]]|]; [|reflexivity|reflexivity].
  symmetry. apply specified_sbind.
Qed.

Lemma specified_all_last (f : script unit) w r :
  specified J f w = r -> specified_all J [f] w = r.
Proof. intros E. cbn [specified_all]. rewrite E. destruct r as [[w' [[]|]]|]; reflexivity. Qed.

Lemma specified_all_cons (f : script unit) l w w' r :
  specified J f w = Some (w', Some tt) -> specified_all J l w' = r -> specified_all J (f :: l) w = r.
Proof. intros E H. cbn [specified_all]. rewrite E. exact H. Qed.

End Steps.

(** ** The clock *)

Lemma fabs_of_Z z : Z.abs z <= 2 ^ 53 -> fabs (of_Z z) = of_Z (Z.abs z).
Proof.
  intros H. assert (F : fits (Z.abs z) 0) by (apply fits_int; lia).
  destruct (Z.eq_dec z 0) as [->|N]; [reflexivity|].
  pose proof (fabs_signed (z <? 0) (Z.abs z) 0 ltac:(lia) F) as E. unfold signed_num in E.
  rewrite (proj2 (Z.eqb_neq (Z.abs z) 0)) in E by lia. unfold of_Z. rewrite <- E.
  do 2 f_equal. destruct (Z.ltb_spec z 0); lia.
Qed.

Section Clock.
Context (clock : nat -> num) (clock_ok : steady_clock clock) (renamed : nat -> num -> num -> num).

Lemma shown_before i : js_le (Num (fsub (clock i) (of_Z 2000))) (Num (clock (S i))) = true.
Proof.
  destruct clock_ok as [time T]. destruct (T i) as (-> & ? & ?), (T (S i)) as (-> & ? & _).
  rewrite fsub_of_Z, js_le_num by lia. apply Z.leb_le. lia.
Qed.

Lemma shown_after i : js_le (Num (clock i)) (Num (clock (S i))) = true.
Proof.
  destruct clock_ok as [time T]. destruct (T i) as (-> & ? & ?), (T (S i)) as (-> & ? & _).
  rewrite js_le_num by lia. apply Z.leb_le. lia.
Qed.

Lemma shown_close i : js_lt (Num (fabs (fsub (clock i) (clock (S i))))) (Num (of_Z 200)) = true.
Proof.
  destruct clock_ok as [time T]. destruct (T i) as (-> & ? & ?), (T (S i)) as (-> & ? & _).
  rewrite fsub_of_Z by lia. rewrite fabs_of_Z by lia. rewrite js_lt_num by lia. apply Z.ltb_lt. lia.
Qed.

(** The checks of a test, those on the clock included. *)
Ltac check_clock :=
  match goal with
  | |- assert_greater_than_equal _ _ _ = _ => unfold assert_greater_than_equal; rewrite shown_before; reflexivity
  | |- assert_less_than_equal _ _ _ = _ => unfold assert_less_than_equal; rewrite shown_after; reflexivity
  | |- assert_less_than _ _ _ = _ => unfold assert_less_than; cbn [num_of]; rewrite shown_close; reflexivity
  | |- _ => vm_compute; reflexivity
  end.

(** One operation or assertion. *)
Ltac test_step :=
  lazymatch goal with
  | |- specified _ (Ask _ _) _ = _ => eapply specified_ask; [vm_compute; reflexivity|cbv beta]
  | |- specified _ (sbind (Ask _ _) _) _ = _ => cbn [sbind]
  | |- specified _ (sbind (Done _) _) _ = _ => cbn [sbind]
  | |- specified _ (sbind (sbind _ _) _) _ = _ => apply specified_assoc
  | |- specified _ (sbind (asserted _) _) _ = _ => eapply specified_asserted; [check_clock|cbv beta]
  | |- specified ?J (sbind ?m ?f) ?w = ?r =>
      let m' := eval hnf in m in first [constr_eq m m'; fail 1 | change (specified J (sbind m' f) w = r)]
  | |- specified _ (asserted _) _ = _ => apply specified_last; check_clock
  end.

(** The tests of a list, each by computation or step by step. *)
Ltac by_steps :=
  unfold append_blob, blob_entry, file_entry, entry_is, modified_now, attribute_is, create_formdata, call; repeat test_step.
Ltac by_running := vm_compute; reflexivity.

(** On the specification every test passes, when the loops may take six turns. *)
Lemma form_passes k : exists w1 w2 w3 w4 w5 shared formData,
  specified_all (form_standard clock renamed) (map fst first_tests) no_forms = Some (w1, Some tt) /\
  specified (form_standard clock renamed) make_shared w1 = Some (w2, Some shared) /\
  specified_all (form_standard clock renamed) (map fst (shared_tests (6 + k) shared.1 shared.2)) w2 = Some (w3, Some tt) /\
  specified (form_standard clock renamed) (call NewForm) w3 = Some (w4, Some formData) /\
  (exists j i, specified_all (form_standard clock renamed) (map fst (last_tests formData)) w4 =
     Some (w5, if feq (renamed j (of_Z 123) (clock i)) (of_Z 123) then Some tt else None)).
Proof.
  do 7 eexists. split.
  { unfold first_tests. cbn [map fst]. do 6 (eapply specified_all_cons; [by_running|]).
    eapply specified_all_cons; [by_steps|by_running]. }
  split; [by_running|]. split; [by_running|]. split; [by_running|].
  do 2 eexists. unfold last_tests. cbn [map fst]. do 4 (eapply specified_all_cons; [by_steps|]).
  eapply specified_all_last. by_steps. apply specified_assert.
Qed.

End Clock.

(** ** The whole test *)

(** C15: the test of [FormData] on every implementation of the classes whose operations
    answer as [form_standard] specifies with a steady clock, from a state related to
    the one without objects.  It answers a success when a File keeps its time as it
    is given another name, and 500 when it does not, which the standard leaves
    open.  Every loop ends after at most six turns: one that went on for longer than
    the turns it is given would fail. *)
Theorem form_response {N} (I : implementation form_op N) (R : N -> fworld -> Prop) (n : N) (clock : nat -> num)
    (renamed : nat -> num -> num -> num) (turns : nat) :
  agrees I (form_standard clock renamed) R -> steady_clock clock -> R n no_forms -> (6 <= turns)%nat ->
  ((forall j i, renamed j (of_Z 123) (clock i) = of_Z 123) ->
     FormTest.handleRequest I turns n = (200, inl "All tests passed!"%string)) /\
  ((forall j i, feq (renamed j (of_Z 123) (clock i)) (of_Z 123) = false) ->
     exists e, FormTest.handleRequest I turns n = (500, inr e)).
Proof.
  intros Ag St R0 H. replace turns with (6 + (turns - 6))%nat by lia.
  destruct (form_passes clock St renamed (turns - 6))
    as (w1 & w2 & w3 & w4 & w5 & shared & formData & E1 & E2 & E3 & E4 & j & i & E5).
  pose proof (scripts_refine I _ R first_tests Ag n no_forms R0) as S. rewrite E1 in S. destruct S as (n1 & S1 & R1).
  pose proof (script_refines I _ R make_shared Ag n1 w1 R1) as S. rewrite E2 in S. destruct S as (n2 & S2 & R2).
  pose proof (scripts_refine I _ R (shared_tests (6 + (turns - 6)) shared.1 shared.2) Ag n2 w2 R2) as S.
  rewrite E3 in S. destruct S as (n3 & S3 & R3).
  pose proof (script_refines I _ R (call NewForm) Ag n3 w3 R3) as S. rewrite E4 in S. destruct S as (n4 & S4 & R4).
  pose proof (scripts_refine I _ R (last_tests formData) Ag n4 w4 R4) as S. rewrite E5 in S.
  unfold FormTest.handleRequest, form_body. unfold bind at 1 5. rewrite S1. unfold bind at 1 4. rewrite S2.
  unfold bind at 1 3. rewrite S3. unfold bind at 1 2. rewrite S4. split; intros K.
  - rewrite K in S. destruct S as (n5 & S5 & _). rewrite S5. reflexivity.
  - rewrite K in S. destruct S as (n5 & e & S5 & _). rewrite S5. eexists. reflexivity.
Qed.

(** A clock that shows a millisecond more at each reading. *)
Definition counting (i : nat) : num := of_Z (5000 + Z.of_nat (Nat.min i 1000)).

Lemma counting_steady : steady_clock counting.
Proof. exists (fun i => 5000 + Z.of_nat (Nat.min i 1000)). intros i. repeat split; lia. Qed.

(** A renamed File that keeps its time, and one that takes the time of the call. *)
Definition keeps_time (j : nat) (time call : num) : num := time.
Definition takes_time (j : nat) (time call : num) : num := call.

Lemma form_response_witness :
  FormTest.handleRequest (by_specification (form_standard counting keeps_time)) 10 no_forms = (200, inl "All tests passed!"%string) /\
  (FormTest.handleRequest (by_specification (form_standard counting takes_time)) 10 no_forms).1 = 500.
Proof.
  split.
  - apply (form_response _ eq _ counting keeps_time 10 (by_specification_agrees _) counting_steady eq_refl ltac:(lia)). reflexivity.
  - destruct (proj2 (form_response _ eq _ counting takes_time 10 (by_specification_agrees _) counting_steady eq_refl ltac:(lia))
      ltac:(intros j i; unfold takes_time, counting; rewrite feq_of_Z by lia; apply Z.eqb_neq; lia)) as [e E].
    rewrite E. reflexivity.
Defined.
