(* ===== verification/DecoderTest.v ===== *)
(** The test of [TextDecoderStream]
    (test-suite/js-test-app/src/test-files/12.3-text-decoder-stream.js).

    The class and the streams are native: their methods are the operations of scripts.
    Decoder streams are numbered in the order they are made, and so are the promises of
    the calls that are not waited for at once. *)

From Stdlib Require Import String.
From stdpp Require Import base numbers list.
From S2P Require Import Prelude JsNumber JsValue Streams TestSuite PromiseTest Script.

Local Open Scope Z_scope.
Local Open Scope js_scope.
Local Open Scope script_scope.
Local Open Scope string_scope.

(** ** The operations *)

(** The label: missing, a text, an object whose [toString] gives an object. *)
Inductive label_arg : Type := NoLabel | Label (s : string) | BadLabel.
(** A member of the options: missing, a value, a getter that throws. *)
Inductive flag_arg : Type := NoFlag | Flag (v : val) | ThrowingFlag.

(** What is written: an array of bytes, or another value. *)
Inductive chunk_arg : Type := Bytes (l : list Z) | OtherChunk (v : val).

(** [Feed l d] is [readableStreamFromArray(l).pipeThrough(d)] for arrays of bytes, and
    [ReadAll d] the awaited [readableStreamToArray] of the result, whose chunks are
    texts; [StartWrite], [StartClose] and [StartRead] are calls of the writer and of the
    reader, whose promises are waited for in [Written], [AllWritten] and [ReadResult],
    which answers [value] and [done].  [ReaderType d] is the type of what
    [ReadableStream.prototype.getReader] gives for [d.readable], [WriterType] that of
    the other. *)
Inductive decoder_op : Type -> Type :=
| NewDecoder (label : label_arg) (fatal ignoreBOM : flag_arg) : decoder_op nat
| EncodingOf (d : nat) : decoder_op val
| FatalOf (d : nat) : decoder_op val
| IgnoreBOMOf (d : nat) : decoder_op val
| Feed (chunks : list (list Z)) (d : nat) : decoder_op unit
| ReadAll (d : nat) : decoder_op (list jsstr)
| StartWrite (d : nat) (chunk : chunk_arg) : decoder_op nat
| StartClose (d : nat) : decoder_op nat
| StartRead (d : nat) : decoder_op nat
| Written (p : nat) : decoder_op unit
| AllWritten (p q : nat) : decoder_op unit
| ReadResult (p : nat) : decoder_op (val * val)
| ReaderType (d : nat) : decoder_op val
| WriterType (d : nat) : decoder_op val.

Abbreviation script := (script decoder_op).

(** ** Parts of the tests *)

Local Coercion txt (s : string) : val := Str (js s).
Local Coercion int (z : Z) : val := Num (of_Z z).

Definition decoder_stream : script nat := call (NewDecoder NoLabel NoFlag NoFlag).
Definition labelled (s : string) : script nat := call (NewDecoder (Label s) NoFlag NoFlag).
Definition fatal_stream (s : string) : script nat := call (NewDecoder (Label s) (Flag (Bool true)) NoFlag).

(** [await promise_rejects_js(p, description)]. *)
Definition promise_rejects {A} (m : script A) (description : string) : script unit := rejects m (txt description).

Definition text_vals (l : list jsstr) : list val := map Str l.

(** ** The tests *)

(** [labelToName], in the order of its keys. *)
Definition labelToName : list (string * string) :=
  [("unicode-1-1-utf-8", "utf-8"); ("iso-8859-2", "iso-8859-2"); ("ascii", "windows-1252"); ("utf-16", "utf-16le")].

Definition encoding_matches (label name : string) : script unit :=
  let* stream := labelled label in
  let* e := call (EncodingOf stream) in
  asserted (assert_equals e name "encoding should match").

Definition fatal_is (v : val) (expected : bool) : script unit :=
  let* stream := call (NewDecoder (Label "utf-8") (Flag v) NoFlag) in
  let* f := call (FatalOf stream) in
  asserted (if expected then assert_true f "fatal should be true" else assert_false f "fatal should be false").
Definition ignoreBOM_is (v : val) (expected : bool) : script unit :=
  let* stream := call (NewDecoder (Label "utf-8") NoFlag (Flag v)) in
  let* f := call (IgnoreBOMOf stream) in
  asserted (if expected then assert_true f "ignoreBOM should be true" else assert_false f "ignoreBOM should be false").

Definition empty_object : val := VObj [] None None.

Definition false_values : list (val * string) :=
  [(Bool false, "false"); (int 0, "0"); (txt "", ""); (Undefined, "undefined"); (Null, "null")].
Definition true_values : list (val * string) :=
  [(Bool true, "true"); (int 1, "1"); (empty_object, "[object Object]"); (VArray [], ""); (txt "yes", "yes")].

Definition constructor_throws (label : label_arg) (fatal ignoreBOM : flag_arg) : script unit :=
  refuse (call (NewDecoder label fatal ignoreBOM)) "the constructor should throw".

(** The chunk 3.14. *)
Definition pi_chunk : val := Num (fdiv (of_Z 314) (of_Z 100)).
Definition badChunks : list (string * val) :=
  [("undefined", Undefined); ("null", Null); ("numeric", pi_chunk); ("object, not BufferSource", empty_object); ("array", VArray [int 65])].

Definition bad_chunk (v : val) : script unit :=
  let* tds := decoder_stream in
  let* writePromise := call (StartWrite tds (OtherChunk v)) in
  let* readPromise := call (StartRead tds) in
  do* promise_rejects (call (Written writePromise)) "write should reject" in
  promise_rejects (call (ReadResult readPromise)) "read should reject".

(** The cases of the byte order mark. *)
Definition bom_cases : list (string * list Z) :=
  [("utf-8", [239; 187; 191; 97; 98; 99]);
   ("utf-16le", [255; 254; 97; 0; 98; 0; 99; 0]);
   ("utf-16be", [254; 255; 0; 97; 0; 98; 0; 99])].
Definition BOM : jsstr := [65279].

Definition pipeAndAssemble (inputChunks : list (list Z)) (encoding : string) (ignoreBOM : bool) : script jsstr :=
  let* d := call (NewDecoder (Label encoding) NoFlag (Flag (Bool ignoreBOM))) in
  do* call (Feed inputChunks d) in
  let* outputArray := call (ReadAll d) in
  Done (List.concat outputArray).

(** [bytes.slice(0, i)] and [bytes.slice(i)]. *)
Definition split_at (i : nat) (bytes : list Z) : list (list Z) := [take i bytes; drop i bytes].

Definition bom_test (encoding : string) (bytes : list Z) (splitPoint : nat) : script unit :=
  let inputChunks := split_at splitPoint bytes in
  let* withIgnoreBOM := pipeAndAssemble inputChunks encoding true in
  do* asserted (assert_equals (Str withIgnoreBOM) (Str (BOM ++ js "abc")%list) "BOM should be preserved") in
  let* withoutIgnoreBOM := pipeAndAssemble inputChunks encoding false in
  asserted (assert_equals (Str withoutIgnoreBOM) "abc" "BOM should be stripped").

(** The array a stream of default options makes of the chunks. *)
Definition array_of (chunks : list (list Z)) : script (list jsstr) :=
  let* d := decoder_stream in
  do* call (Feed chunks d) in
  call (ReadAll d).

Definition incomplete_replaced : script unit :=
  let* array := array_of [[229]] in
  asserted (assert_array_equals (text_vals array) [Str [65533]] "array should have one element").

Definition incomplete_fatal : script unit :=
  let* d := fatal_stream "utf-8" in
  do* call (Feed [[229]] d) in
  let* p := call (StartRead d) in
  promise_rejects (call (ReadResult p)) "read should reject".

(** The encodings: a text and bytes that are invalid. *)
Record encoding_case : Type := EncodingCase {
  case_name : string; case_value : list Z; case_expected : jsstr; case_invalid : option (list Z) }.
Definition encodings : list encoding_case :=
  [EncodingCase "UTF-16BE" [108; 52] [27700] (Some [216; 0]);
   EncodingCase "UTF-16LE" [52; 108] [27700] (Some [0; 216]);
   EncodingCase "Shift_JIS" [144; 133] [27700] (Some [255]);
   EncodingCase "ISO-2022-JP" [65; 66; 67; 27; 65; 66; 67] (js "ABC" ++ [65533] ++ js "ABC")%list (Some [14]);
   EncodingCase "ISO-8859-14" [100; 240; 114] [100; 373; 114] None].

Definition read_chunk (d : nat) (expected : jsstr) (m : string) : script unit :=
  let* p := call (StartRead d) in
  let* r := call (ReadResult p) in
  do* asserted (assert_false r.2 "readable should not be closed") in
  asserted (assert_equals r.1 (Str expected) m).

Definition decodes_text (e : encoding_case) : script unit :=
  let* stream := labelled (case_name e) in
  let* writePromise := call (StartWrite stream (Bytes (case_value e))) in
  do* read_chunk stream (case_expected e) "chunk should match expected" in
  call (Written writePromise).

Definition decodes_invalid (e : encoding_case) (invalid : list Z) : script unit :=
  let* stream := labelled (case_name e) in
  let* writePromise := call (StartWrite stream (Bytes invalid)) in
  let* closePromise := call (StartClose stream) in
  do* read_chunk stream [65533] "output should be replacement character" in
  call (AllWritten writePromise closePromise).

Definition rejects_invalid (e : encoding_case) (invalid : list Z) : script unit :=
  let* stream := fatal_stream (case_name e) in
  let* writePromise := call (StartWrite stream (Bytes invalid)) in
  let* closePromise := call (StartClose stream) in
  let* p := call (StartRead stream) in
  do* promise_rejects (call (ReadResult p)) "readable should be errored" in
  promise_rejects (call (AllWritten writePromise closePromise)) "writable should be errored".

(** "I ", a character of four bytes, " streams". *)
Definition inputBytes : list Z := [73; 32; 240; 159; 146; 153; 32; 115; 116; 114; 101; 97; 109; 115].
Definition heart : jsstr := [55357; 56473].

Definition split_character (splitPoint : nat) : script unit :=
  let* array := array_of (split_at splitPoint inputBytes) in
  asserted (assert_array_equals (text_vals array) [txt "I "; Str (heart ++ js " streams")%list]
    "the split code point should be in the second chunk of the output").

Definition early_character : script unit :=
  let* array := array_of (split_at 6 inputBytes) in
  asserted (assert_array_equals (text_vals array) [Str (js "I " ++ heart)%list; txt " streams"]
    "the multibyte character should be in the first chunk of the output").

(** [array[0].concat(array[1])], once there are two. *)
Definition empty_chunk (splitPoint : nat) : script unit :=
  let* array := array_of [take splitPoint inputBytes; []; drop splitPoint inputBytes] in
  do* asserted (assert_equals (Z.of_nat (length array)) 2 "two chunks should be output") in
  match array with
  | [a; b] => asserted (assert_equals (Str (a ++ b)%list) (Str (js "I " ++ heart ++ js " streams")%list)
                 "output should be unchanged by the empty chunk")
  | _ => Done tt
  end.

Definition brand_checks : script unit :=
  let* td := decoder_stream in
  let* r := call (ReaderType td) in
  do* asserted (assert_equals r "object" "readable property must pass brand check") in
  let* w := call (WriterType td) in
  asserted (assert_equals w "object" "writable property must pass brand check").

(** [a + b] of texts in a description. *)
Definition described_by (a b c : string) : val := txt (String.append a (String.append b c)).
Definition digit_text (n : nat) : string :=
  match n with 0 => "0" | 1 => "1" | 2 => "2" | 3 => "3" | 4 => "4" | 5 => "5" | _ => "6" end%nat.

(** The tests in order; those with promises are waited for, so each ends before the
    next begins. *)
Definition decoder_tests : list (script unit * val) :=
  map (fun '(label, name) => (encoding_matches label name, described_by "encoding attribute should have correct value for '" label "'")) labelToName ++
  flat_map (fun '(v, shown) =>
    [(fatal_is v false, described_by "setting fatal to '" shown "' should set the attribute to false");
     (ignoreBOM_is v false, described_by "setting ignoreBOM to '" shown "' should set the attribute to false")]) false_values ++
  flat_map (fun '(v, shown) =>
    [(fatal_is v true, described_by "setting fatal to '" shown "' should set the attribute to true");
     (ignoreBOM_is v true, described_by "setting ignoreBOM to '" shown "' should set the attribute to true")]) true_values ++
  [(constructor_throws (Label "") NoFlag NoFlag, txt "constructing with an invalid encoding should throw");
   (constructor_throws BadLabel NoFlag NoFlag, txt "constructing with a non-stringifiable encoding should throw");
   (constructor_throws (Label "utf-8") ThrowingFlag NoFlag, txt "a throwing fatal member should cause the constructor to throw");
   (constructor_throws (Label "utf-8") NoFlag ThrowingFlag, txt "a throwing ignoreBOM member should cause the constructor to throw")] ++
  map (fun '(name, v) => (bad_chunk v, described_by "chunk of type " name " should error the stream")) badChunks ++
  flat_map (fun '(encoding, bytes) =>
    map (fun splitPoint =>
           (bom_test encoding bytes splitPoint,
            described_by "ignoreBOM should work for encoding " encoding (String.append ", split at character " (digit_text splitPoint))))
        [0; 1; 2; 3]%nat) bom_cases ++
  [(incomplete_replaced, described_by "incomplete input with error mode 'replacement' should end with a " "replacement character" "");
   (incomplete_fatal, txt "incomplete input with error mode 'fatal' should error the stream")] ++
  flat_map (fun e =>
    (decodes_text e, described_by "TextDecoderStream should be able to decode " (case_name e) "") ::
    match case_invalid e with
    | None => []
    | Some invalid =>
        [(decodes_invalid e invalid, described_by "TextDecoderStream should be able to decode invalid sequences in " (case_name e) "");
         (rejects_invalid e invalid, described_by "TextDecoderStream should be able to reject invalid sequences in " (case_name e) "")]
    end) encodings ++
  map (fun splitPoint =>
         (split_character splitPoint,
          described_by "a code point split between chunks should not be emitted until all bytes are available; split point = "
            (digit_text splitPoint) "")) [2; 3; 4; 5]%nat ++
  [(early_character, txt "a code point should be emitted as soon as all bytes are available")] ++
  map (fun splitPoint =>
         (empty_chunk splitPoint,
          described_by "an empty chunk inside a code point split between chunks should not change the output; split point = "
            (digit_text splitPoint) "")) [1; 2; 3; 4; 5; 6]%nat ++
  [(brand_checks, txt "TextDecoderStream readable and writable properties must pass brand checks")].

(** [handleRequest(request)] from the state of the native classes. *)
Definition handleRequest {N} (I : implementation decoder_op N) (n : N) : Z * (string + thrown) :=
  respond (run_scripts I decoder_tests n).2.
