(* ===== verification/DecoderSpec.v ===== *)
(** The documented behaviour of [TextDecoderStream] with a reader or a writer, as far as
    its test uses it: a specification of the operations of [DecoderTest].

    A stream keeps the bytes it cannot decode yet, and the chunks it has given that are
    not read yet.  Of the encodings other than UTF-8 and UTF-16 only ASCII and the few
    bytes of [legacy_text] are specified, and of the labels those of [encoding_labels];
    nothing is written to a stream that is closed.  Where the specification says
    nothing the answer is [None]. *)

From Stdlib Require Import String.
From stdpp Require Import base numbers list option.
From S2P Require Import Prelude JsNumber JsValue Base64 Encoding Codecs TestSuite Script UrlSpec DecoderTest.

Local Open Scope Z_scope.
Local Open Scope js_scope.

(** ** Encodings *)

Inductive encoding_name : Type := UTF_8 | UTF_16LE | UTF_16BE | Shift_JIS | ISO_2022_JP | ISO_8859_14 | ISO_8859_2 | Windows_1252.

(** The names that the attribute [encoding] gives, and other labels. *)
Definition encoding_text (e : encoding_name) : string :=
  match e with
  | UTF_8 => "utf-8" | UTF_16LE => "utf-16le" | UTF_16BE => "utf-16be" | Shift_JIS => "shift_jis"
  | ISO_2022_JP => "iso-2022-jp" | ISO_8859_14 => "iso-8859-14" | ISO_8859_2 => "iso-8859-2" | Windows_1252 => "windows-1252"
  end.
Definition encoding_labels : list (string * encoding_name) :=
  map (fun e => (encoding_text e, e)) [UTF_8; UTF_16LE; UTF_16BE; Shift_JIS; ISO_2022_JP; ISO_8859_14; ISO_8859_2; Windows_1252] ++
  [("unicode-1-1-utf-8", UTF_8); ("utf8", UTF_8); ("ascii", Windows_1252); ("utf-16", UTF_16LE)]%string.
Definition encoding_of_label (s : string) : option encoding_name :=
  snd <$> find (fun p => str_eqb (js p.1) (toLowerCase (js s))) encoding_labels.

(** The bytes at the end that begin a character of UTF-8 which they do not complete. *)
Definition trail (b : Z) : bool := (128 <=? b) && (b <=? 191).
Definition starts_character (l : list Z) : bool :=
  match l with
  | [a] => (194 <=? a) && (a <=? 244)
  | [a; b] => (224 <=? a) && (a <=? 244) && trail b && negb ((a =? 224) && (b <? 160)) && negb ((a =? 237) && (159 <? b)) &&
              negb ((a =? 240) && (b <? 144)) && negb ((a =? 244) && (143 <? b))
  | [a; b; c] => (240 <=? a) && (a <=? 244) && trail b && trail c && negb ((a =? 240) && (b <? 144)) && negb ((a =? 244) && (143 <? b))
  | _ => false
  end.
Definition unfinished (l : list Z) : nat :=
  match find (fun n => Nat.leb n (length l) && starts_character (drop (length l - n) l)) [1; 2; 3]%nat with
  | Some n => n
  | None => O
  end.

(** The code units of bytes, most significant byte first or last; the bytes over. *)
Fixpoint units_of (big : bool) (l : list Z) : jsstr * list Z :=
  match l with
  | a :: b :: t => let '(u, r) := units_of big t in ((if big then 256 * a + b else a + 256 * b) :: u, r)
  | r => ([], r)
  end.
Definition lead_unit (u : Z) : bool := (55296 <=? u) && (u <=? 56319).

(** Characters of the other encodings: [Some None] is an error. *)
Definition legacy_text (e : encoding_name) (l : list Z) : option (list (option Z)) :=
  let ascii b := (32 <=? b) && (b <=? 126) in
  match e, l with
  | Shift_JIS, [144; 133] => Some [Some 27700]
  | Shift_JIS, [255] => Some [None]
  | ISO_2022_JP, [14] => Some [None]
  | ISO_2022_JP, [x; y; z; 27; a; b; c] =>
      if forallb ascii [x; y; z; a; b; c] && negb (existsb (Z.eqb a) [36; 40])
      then Some (map Some [x; y; z] ++ None :: map Some [a; b; c]) else None
  | ISO_8859_14, _ =>
      mapM (fun b => if ascii b then Some (Some b) else if b =? 240 then Some (Some 373) else None) l
  | _, _ => if forallb ascii l then Some (map Some l) else None
  end.

(** The text of the bytes of a chunk, whether it is free of errors, and the bytes kept
    for the next one; [flush] keeps none. *)
Record decoded : Type := Decoded { d_text : jsstr; d_valid : bool; d_rest : list Z }.

Definition decode_utf8 (flush : bool) (l : list Z) : decoded :=
  let n := if flush then O else unfinished l in
  let whole := take (length l - n) l in
  let s := utf8_decode whole in
  Decoded s (bool_decide (utf8_text s = whole)) (drop (length l - n) l).

Definition decode_utf16 (big flush : bool) (l : list Z) : decoded :=
  let '(u, r) := units_of big l in
  if flush then
    let s := toWellFormed u in
    Decoded (match r with [] => s | _ => s ++ [65533] end) (bool_decide (s = u) && bool_decide (r = [])) []
  else
    let keep := match rev u with x :: _ => lead_unit x | [] => false end in
    let v := if keep then take (length u - 1) u else u in
    let s := toWellFormed v in
    Decoded s (bool_decide (s = v)) (drop (2 * length v) l).

Definition decode_bytes (e : encoding_name) (flush : bool) (l : list Z) : option decoded :=
  match e with
  | UTF_8 => Some (decode_utf8 flush l)
  | UTF_16LE => Some (decode_utf16 false flush l)
  | UTF_16BE => Some (decode_utf16 true flush l)
  | _ => t ← legacy_text e l; Some (Decoded (map (default 65533) t) (forallb (fun c => bool_decide (is_Some c)) t) [])
  end.

(** ** The objects *)

(** [bom_over] is set once a text has been given. *)
Record decoder : Type := Decoder {
  dec_name : encoding_name; dec_fatal : bool; dec_ignoreBOM : bool; bom_over : bool; kept : list Z;
  queued : list jsstr; errored : bool; ended : bool }.

(** The promises: a write or a close that succeeded or not, a read of a stream. *)
Inductive promise : Type := Wrote (ok : bool) | Reading (d : nat).

Record dstate : Type := DState { decoders : list decoder; awaited : list promise }.
Definition no_decoders : dstate := DState [] [].

Abbreviation answer T := (option (dstate * option T)).
Definition gives {T} (s : dstate) (t : T) : answer T := Some (s, Some t).
Definition refuses {T} (s : dstate) : answer T := Some (s, None).

Definition update (d : nat) (x : decoder) (s : dstate) : dstate := DState (<[d := x]> (decoders s)) (awaited s).
Definition promised (p : promise) (s : dstate) : answer nat :=
  gives (DState (decoders s) (awaited s ++ [p])) (length (awaited s)).

(** A flag: [None] where reading it throws. *)
Definition flag (f : flag_arg) : option bool :=
  match f with NoFlag => Some false | Flag v => Some (truthy v) | ThrowingFlag => None end.
Definition label_encoding (l : label_arg) : option encoding_name :=
  match l with NoLabel => Some UTF_8 | Label s => encoding_of_label s | BadLabel => None end.
(** Whether a label is one of those above or the empty text, which is none, or is no text. *)
Definition label_known (l : label_arg) : bool :=
  match l with Label s => str_eqb (js s) [] || bool_decide (is_Some (encoding_of_label s)) | _ => true end.

(** A text that is given: nothing when it is empty. *)
Definition give (t : jsstr) (x : decoder) : decoder :=
  let t' := if bom_over x || dec_ignoreBOM x then t else match t with 65279 :: r => r | _ => t end in
  Decoder (dec_name x) (dec_fatal x) (dec_ignoreBOM x) (bom_over x || negb (bool_decide (t = []))) (kept x)
    (match t' with [] => queued x | _ => queued x ++ [t'] end) (errored x) (ended x).
Definition fail_decoder (x : decoder) : decoder :=
  Decoder (dec_name x) (dec_fatal x) (dec_ignoreBOM x) (bom_over x) [] [] true (ended x).
Definition keep_bytes (l : list Z) (x : decoder) : decoder :=
  Decoder (dec_name x) (dec_fatal x) (dec_ignoreBOM x) (bom_over x) l (queued x) (errored x) (ended x).
Definition end_decoder (x : decoder) : decoder :=
  Decoder (dec_name x) (dec_fatal x) (dec_ignoreBOM x) (bom_over x) (kept x) (queued x) (errored x) true.

(** Writing bytes; closing decodes what was kept. *)
Definition take_bytes (flush : bool) (l : list Z) (x : decoder) : option decoder :=
  if ended x then None
  else if errored x then Some x
  else r ← decode_bytes (dec_name x) flush (kept x ++ l);
       Some (if dec_fatal x && negb (d_valid r) then fail_decoder x else give (d_text r) (keep_bytes (d_rest r) x)).
Definition write_chunk (c : chunk_arg) (x : decoder) : option decoder :=
  match c with
  | Bytes l => take_bytes false l x
  | OtherChunk _ => if ended x then None else Some (fail_decoder x)
  end.
Definition close_decoder (x : decoder) : option decoder := x ← take_bytes true [] x; Some (end_decoder x).

Definition feed (l : list (list Z)) (x : decoder) : option decoder :=
  x ← foldl (fun x c => x ← x; take_bytes false c x) (Some x) l; close_decoder x.

(** ** The operations *)

Definition on_decoder {T} (d : nat) (f : decoder -> T) (s : dstate) : answer T := x ← decoders s !! d; gives s (f x).

Definition decoder_standard : specification decoder_op dstate := fun T o s =>
  match o in decoder_op T return answer T with
  | NewDecoder l fatal ignoreBOM =>
      if negb (label_known l) then None
      else match label_encoding l, flag fatal, flag ignoreBOM with
      | Some e, Some f, Some i =>
          gives (DState (decoders s ++ [Decoder e f i false [] [] false false]) (awaited s)) (length (decoders s))
      | _, _, _ => refuses s
      end
  | EncodingOf d => on_decoder d (fun x => Str (js (encoding_text (dec_name x)))) s
  | FatalOf d => on_decoder d (fun x => Bool (dec_fatal x)) s
  | IgnoreBOMOf d => on_decoder d (fun x => Bool (dec_ignoreBOM x)) s
  | Feed l d => x ← decoders s !! d; x ← feed l x; gives (update d x s) tt
  | ReadAll d =>
      x ← decoders s !! d;
      if errored x then refuses s
      else if ended x then
        gives (update d (Decoder (dec_name x) (dec_fatal x) (dec_ignoreBOM x) (bom_over x) (kept x) [] false true) s) (queued x)
      else None
  | StartWrite d c => x ← decoders s !! d; x ← write_chunk c x; promised (Wrote (negb (errored x))) (update d x s)
  | StartClose d => x ← decoders s !! d; x ← close_decoder x; promised (Wrote (negb (errored x))) (update d x s)
  | StartRead d => promised (Reading d) s
  | Written p =>
      w ← awaited s !! p;
      match w with Wrote true => gives s tt | Wrote false => refuses s | Reading _ => None end
  | AllWritten p q =>
      v ← awaited s !! p; w ← awaited s !! q;
      match v, w with
      | Wrote true, Wrote true => gives s tt
      | Wrote _, Wrote _ => refuses s
      | _, _ => None
      end
  | ReadResult p =>
      w ← awaited s !! p;
      match w with
      | Reading d =>
          x ← decoders s !! d;
          if errored x then refuses s
          else match queued x with
               | t :: q =>
                   gives (update d (Decoder (dec_name x) (dec_fatal x) (dec_ignoreBOM x) (bom_over x) (kept x) q false (ended x)) s)
                     (Str t, Bool false)
               | [] => if ended x then gives s (Undefined, Bool true) else None
               end
      | Wrote _ => None
      end
  | ReaderType d | WriterType d => on_decoder d (fun _ => Str (js "object")) s
  end.
