(* ===== verification/DecoderFacts.v ===== *)
(** The test of [TextDecoderStream] answers a success on every implementation that
    behaves as documented. *)

From Stdlib Require Import String.
From stdpp Require Import base numbers list option.
From S2P Require Import Prelude JsNumber JsValue TestSuite PromiseTest Script DecoderTest DecoderSpec.

Local Open Scope Z_scope.

(** On the specification every test passes. *)
Lemma decoder_tests_pass : exists s, specified_all decoder_standard (map fst decoder_tests) no_decoders = Some (s, Some tt).
Proof. eexists. vm_compute. reflexivity. Qed.

(** The test of [TextDecoderStream] answers a success on every implementation of the
    class whose operations answer as [decoder_standard] specifies, from a state related
    to the one without streams. *)
Theorem decoder_response {N} (I : implementation decoder_op N) (R : N -> dstate -> Prop) (n : N) :
  agrees I decoder_standard R -> R n no_decoders ->
  DecoderTest.handleRequest I n = (200, inl "All tests passed!"%string).
Proof.
  intros Ag Rn. unfold DecoderTest.handleRequest. destruct decoder_tests_pass as [s E].
  pose proof (scripts_refine I decoder_standard R decoder_tests Ag n no_decoders Rn) as S.
  rewrite E in S. destruct S as (n' & -> & _). reflexivity.
Qed.

Lemma decoder_response_witness :
  DecoderTest.handleRequest (by_specification decoder_standard) no_decoders = (200, inl "All tests passed!"%string).
Proof. apply (decoder_response _ eq _ (by_specification_agrees decoder_standard) eq_refl). Defined.
