(* ===== verification/NativeTests.v ===== *)
(** The test files that call a native class a few times
    (in test-suite/js-test-app/src/test-files/): 2-blob.js, 2.1-file.js,
    5-response.js, 6-text-encoder.js, 7-text-decoder.js, 8-url.js, 10-atob-btoa.js and
    11-fetch.js.

    The native functions are arguments; those whose objects do not change answer by
    their arguments alone.  That a constructor which does not throw gives an object is not tested
    here. *)

From Stdlib Require Import String.
From stdpp Require Import base numbers list.
From S2P Require Import Prelude JsNumber JsValue Streams TestSuite PromiseTest.

Local Open Scope Z_scope.

(** ** Bodies that answer or throw *)

Abbreviation body_run A := (outcome thrown A).

Definition obind {A B} (m : body_run A) (f : A -> body_run B) : body_run B :=
  match m with Ok a => f a | Throw e => Throw e end.
Definition catching {A} (m : body_run A) (h : thrown -> body_run A) : body_run A :=
  match m with Ok a => Ok a | Throw e => h e end.

Declare Scope run_scope.
Notation "'let?' x := m 'in' k" := (obind m (fun x => k)) (at level 10, x name, m at level 200, k at level 200) : run_scope.
Notation "'do?' m 'in' k" := (obind m (fun _ => k)) (at level 10, m at level 200, k at level 200) : run_scope.
Local Open Scope run_scope.

(** A response with a text: its status and the parts of the text. *)
Abbreviation reply := (Z * list piece)%type.
Definition all_passed : reply := (200, [Text "All tests passed!"]).

(** [catch (error) { return new Response(error.message, { status: 500 }) }]. *)
Definition or_failure (m : body_run reply) : reply :=
  match m with Ok r => r | Throw e => (500, error_message e) end.

(** A block that may return a response, then the rest of the body. *)
Definition unless_returned (m : body_run (option reply)) (k : body_run reply) : body_run reply :=
  let? r := m in match r with Some r => Ok r | None => k end.

(** [throw new Error(t)]. *)
Definition fail {A} (t : list piece) : body_run A := Throw (NewError t).
Definition throw_unless (b : bool) (t : list piece) : body_run unit := if negb b then fail t else Ok tt.

(** [e instanceof C] for a class of errors of the language. *)
Definition is_error (name : string) (e : thrown) : bool :=
  match e with LangError n _ => String.eqb n name | _ => false end.

Definition txt (s : string) : val := Str (js s).
Definition is_text (v : val) (s : string) : bool := strict_eq v (txt s).

(** The [assert] and [assertEquals] that three of the files define for themselves. *)
Definition assertEquals (actual expected : val) (m : message) : result :=
  assert (strict_eq actual expected)
    (MTemplate (match m with
                | MVal v => if truthy v then [PVal v] else [Text "Expected "; PVal expected; Text " but got "; PVal actual]
                | MTemplate t | MFn t => t
                end)).

(** ** 10-atob-btoa.js *)

Section AtobBtoa.
Variables btoa atob : jsstr -> body_run val.

Definition hello : jsstr := js "Hello, world!".
Definition hello_base64 : jsstr := js "SGVsbG8sIHdvcmxkIQ==".

Definition base64_test : body_run reply :=
  let? encoded := btoa hello in
  do? assertEquals encoded (Str hello_base64) (MVal (txt "btoa did not encode the string correctly")) in
  let? decoded := atob hello_base64 in
  do? assertEquals decoded (Str hello) (MVal (txt "atob did not decode the string correctly")) in
  do? catching
        (do? btoa [0; 1; 2] in assert true (MVal (txt "btoa handled binary data without throwing error")))
        (fun e => assert false (MVal (txt "btoa should not throw error with binary data"))) in
  do? catching
        (do? atob (js "Invalid base64 string") in
         assert false (MVal (txt "atob should throw error with invalid base64 input")))
        (fun e => assert true (MVal (txt "atob threw error as expected with invalid base64 input"))) in
  Ok all_passed.

Definition handleAtobBtoA : reply := or_failure base64_test.
End AtobBtoa.

(** ** 8-url.js *)

Section Url.
Context {U : Type}.

(** The class [URL] as the test uses it; the base is a text or a URL. *)
Record url_class : Type := UrlClass {
  new_url : jsstr -> option (jsstr + U) -> body_run U;
  protocol : U -> val; port : U -> val; host : U -> val; pathname : U -> val; search : U -> val; hash : U -> val;
  searchParams_get : U -> jsstr -> body_run val; toJSON : U -> body_run val }.

Variable C : url_class.

Definition wrong (name expected : string) (v : val) : list piece :=
  [Text "Failed: URL '"; Text name; Text "' attribute is not '"; Text expected; Text "', it is '"; PVal v; Text "'."].

Definition url_attribute (name expected : string) (v : val) : body_run unit := throw_unless (is_text v expected) (wrong name expected v).

(** [try { new URL(...) } catch { throw new Error(...) }]. *)
Definition must_succeed {A} (m : body_run A) (t : string) : body_run unit :=
  catching (do? m in Ok tt) (fun _ => fail [Text t]).

(** U+1F525 after the slash. *)
Definition fire_text : jsstr := [55357; 56613].

(** The message of the failing test of [searchParams.get] names a variable that is not
    defined. *)
Definition url_test : body_run reply :=
  let? myURL := new_url C (js "https://example.org:443/foo?bar=baz#qux") None in
  do? url_attribute "protocol" "https:" (protocol C myURL) in
  do? url_attribute "port" "443" (port C myURL) in
  do? url_attribute "host" "example.org" (host C myURL) in
  do? url_attribute "pathname" "/foo" (pathname C myURL) in
  do? url_attribute "search" "?bar=baz" (search C myURL) in
  do? url_attribute "hash" "#qux" (hash C myURL) in
  let? bar := searchParams_get C myURL (js "bar") in
  do? (if negb (is_text bar "baz") then Throw (LangError "ReferenceError" "searchParams is not defined") else Ok tt) in
  do? catching
        (let? urlJSON := toJSON C myURL in
         throw_unless (truthy urlJSON) [Text "URL 'toJSON' method does not return an object."])
        (fun _ => fail [Text "Failed: URL 'toJSON' method does not return a json object."]) in
  do? must_succeed (new_url C (js "/path") (Some (inl (js "https://example.com"))))
        "Failed: URL constructor does not create an object with a base." in
  do? must_succeed (let? baseURL := new_url C (js "https://example.com/base") None in new_url C (js "path") (Some (inr baseURL)))
        "Failed: URL constructor does not create an object with URL as its base." in
  do? must_succeed (new_url C (js "https://example.org/" ++ fire_text) None)
        "Failed: URL constructor does not create an object with unicode characters." in
  unless_returned
    (catching
       (do? new_url C (js "/path") None in
        Ok (Some (500, [Text "Creating relative URL without a base succeeded when it should have failed"])))
       (fun _ => Ok None))
    (Ok all_passed).

Definition handleURL : reply := or_failure url_test.
End Url.
Arguments url_class : clear implicits.

(** ** 6-text-encoder.js *)

Section TextEncoder.
(** What [encode] answers and whether it is a [Uint8Array]; [encodeInto] a destination
    of a length gives the members [read] and [written]. *)
Variables (encoding : val) (encode : jsstr -> body_run val) (is_Uint8Array : val -> bool) (encodeInto : jsstr -> Z -> body_run (val * val)).

Definition is_number (v : val) : bool := str_eqb (typeof v) (js "number").
Definition encode_into_failed : list piece := [Text "Failed: TextEncoder 'encodeInto' method does not return the expected object."].

Definition text_encoder_test : body_run reply :=
  do? throw_unless (is_text encoding "utf-8")
        [Text "Failed: TextEncoder 'encoding' attribute is not 'utf-8', it is '"; PVal encoding; Text "'."] in
  let text := js "Hello, world!" in
  let? encoded := encode text in
  do? throw_unless (is_Uint8Array encoded) [Text "Failed: TextEncoder 'encode' method does not return a Uint8Array."] in
  let source := js "Hello, world!" in
  let n := Z.of_nat (length source) in
  let? result := encodeInto source (n * 3) in
  do? (if negb (is_number result.1) || negb (is_number result.2) then fail encode_into_failed else Ok tt) in
  let? result2 := encodeInto source n in
  do? (if negb (strict_eq result2.1 (Num (of_Z n))) || negb (strict_eq result2.2 (Num (of_Z n))) then fail encode_into_failed
       else Ok tt) in
  Ok all_passed.

Definition handleTextEncoder : reply := or_failure text_encoder_test.
End TextEncoder.

(** ** 7-text-decoder.js *)

Section TextDecoder.
Context {D B : Type}.

(** [encode] is that of a TextEncoder; [decode d b stream] also answers the decoder
    after the call. *)
Variables (encode : jsstr -> body_run B) (new_decoder : jsstr -> bool -> body_run D) (decode : D -> B -> bool -> D * body_run jsstr).
(** [new Uint8Array([0xff, 0xff, 0xff])]. *)
Variable invalidData : B.

Definition CHUNK_SIZE : Z := 10.

(** The generator: its text, and the place where it goes on. *)
Record chunker : Type := Chunker { textSource : jsstr; currentPosition : Z }.

Definition nextChunk (s : jsstr) : chunker := Chunker s 0.

(** [next()] on it: [None] when it is done. *)
Definition generator_next (g : chunker) : chunker * body_run (option B) :=
  if currentPosition g <? Z.of_nat (length (textSource g)) then
    let chunk := take (Z.to_nat CHUNK_SIZE) (drop (Z.to_nat (currentPosition g)) (textSource g)) in
    let g' := Chunker (textSource g) (currentPosition g + CHUNK_SIZE) in
    (g', let? encodedChunk := encode chunk in Ok (Some encodedChunk))
  else (g, Ok None).

(** The loop over the generator; the fuel bounds its turns, and a loop that has not
    ended by then fails. *)
Fixpoint decode_chunks (turns : nat) (d : D) (g : chunker) (string : jsstr) : body_run jsstr :=
  match turns with
  | O => Throw (LangError "Endless" "a loop goes on")
  | S turns =>
      let '(g, r) := generator_next g in
      let? result := r in
      match result with
      | None => Ok string
      | Some buffer =>
          let '(d, t) := decode d buffer true in
          let? t := t in
          decode_chunks turns d g (string ++ t)
      end
  end.

Definition complete_text : jsstr := js "This is the complete text from which we will take chunks.".

Definition text_decoder_test (turns : nat) : body_run reply :=
  unless_returned
    (catching
       (do? new_decoder (js "invalid-encoding") false in
        Ok (Some (500, [Text "Failed: The constructor should throw a RangeError for an invalid encoding."])))
       (fun e => if negb (is_error "RangeError" e) then fail [Text "Failed: The error thrown is not a RangeError."] else Ok None))
  (do? must_succeed (new_decoder (js "utf-8") false) "Failed: The constructor should not throw an error for a valid encoding." in
   do? catching
         (let? decoder := new_decoder (js "utf-8") false in
          let? string := decode_chunks turns decoder (nextChunk complete_text) [] in
          throw_unless (str_eqb string complete_text) [Text "Failed: The decoded string does not match the source string."])
         (fun e => fail (Text "Failed: " :: error_message e)) in
   unless_returned
     (catching
        (let? decoder := new_decoder (js "utf-8") true in
         do? (decode decoder invalidData false).2 in
         Ok (Some (500, [Text "Failed: Decoding should throw a TypeError in fatal error mode."])))
        (fun e => if negb (is_error "TypeError" e) then fail [Text "Failed: The error thrown is not a TypeError."] else Ok None))
   (Ok all_passed)).

Definition handleTextDecoder (turns : nat) : reply := or_failure (text_decoder_test turns).
End TextDecoder.

(** ** 5-response.js *)

Section Response.
Context {R : Type}.

Record response_class : Type := ResponseClass {
  new_response : jsstr -> Z -> string -> list (string * string) -> body_run R;
  response_error : body_run R; response_redirect : jsstr -> Z -> body_run R;
  response_json : string * string -> body_run R;
  status : R -> val; statusText : R -> val; response_type : R -> val; headers_get : R -> string -> body_run val;
  (** [JSON.stringify(await r.json())]. *)
  json_text : R -> body_run jsstr }.

Variable C : response_class.

Definition whole_val (z : Z) : val := Num (of_Z z).

(** The text of an object with one member. *)
Definition object_text (m : string * string) : jsstr :=
  [123; 34] ++ js m.1 ++ [34; 58; 34] ++ js m.2 ++ [34; 125].

(** One block: its error is reported with a line of its own before it. *)
Definition reported (m : body_run unit) (t : string) : body_run (option reply) :=
  catching (do? m in Ok None) (fun e => Ok (Some (500, Text t :: Text "\n" :: error_message e))).

Definition response_basic : body_run unit :=
  let? r := new_response C (js "body content") 200 "OK" [("X-Custom-Header", "Test")]%string in
  do? throw_unless (strict_eq (status C r) (whole_val 200)) [Text "Status should be 200"] in
  do? throw_unless (is_text (statusText C r) "OK") [Text "Status text should be OK"] in
  let? h := headers_get C r "X-Custom-Header" in
  throw_unless (is_text h "Test") [Text "Custom header should be set"].

Definition response_error_test : body_run unit :=
  let? r := response_error C in
  do? throw_unless (is_text (response_type C r) "error") [Text "Response type should be error"] in
  throw_unless (strict_eq (status C r) (whole_val 0)) [Text "Status for error response should be 0"].

Definition testUrl : jsstr := js "https://example.com".
Definition testData : string * string := ("key", "value")%string.

Definition response_redirect_test : body_run unit :=
  let? r := response_redirect C testUrl 301 in
  do? throw_unless (strict_eq (status C r) (whole_val 301)) [Text "Redirect status should be 301"] in
  let? l := headers_get C r "Location" in
  throw_unless (strict_eq l (Str testUrl)) [Text "Location header should match the test URL"].

Definition response_json_test : body_run unit :=
  let? r := response_json C testData in
  let? t := json_text C r in
  throw_unless (str_eqb t (object_text testData)) [Text "Body data should match the test data"].

Definition response_test : body_run reply :=
  unless_returned (reported response_basic "Error while basic construction of response")
  (unless_returned (reported response_error_test "Error while testing error response")
  (unless_returned (reported response_redirect_test "Error while testing redirect response")
  (unless_returned (reported response_json_test "Error while testing JSON response")
  (Ok (200, [Text "All tests passed"]))))).
End Response.
Arguments response_class : clear implicits.

(** ** 11-fetch.js *)

Section Fetch.
(** What [fetch] gets: the method, the headers, the body. *)
Record fetch_init : Type := FetchInit { method : string; fetch_headers : list (string * string); body : option jsstr }.

(** What the test reads of a response; [fetched_json] is
    what [response.json()] answers and [JSON.stringify] of it. *)
Record fetch_result : Type := Fetched {
  fetched_status : val; fetched_text : body_run val; fetched_json : body_run (val * jsstr); allow : val }.

(** The calls are numbered in their order. *)
Variable fetch : nat -> jsstr -> fetch_init -> body_run fetch_result.
(** [process.env.TESTS_BACKEND_URL]. *)
Variable url : jsstr.

Definition plain_init (m : string) : fetch_init := FetchInit m [] None.

(** The body [JSON.stringify({ name: "Winter" })], with or without the header Accept. *)
Definition winter : string * string := ("name", "Winter")%string.
Definition with_body (m : string) (accept : bool) : fetch_init :=
  FetchInit m (("Content-Type", "application/json") :: if accept then [("Accept", "application/json")] else [])%string
    (Some (object_text winter)).

Definition status_is (method : string) (v : val) (expected : Z) (shown : string) : result :=
  assertEquals v (whole_val expected)
    (MTemplate [Text "Status code mismatch for "; Text method; Text ", expected "; Text shown; Text " but got "; PVal v]).

Definition fetched_body_is (method : string) (v : val) (expected : string) (shown : string) : result :=
  assertEquals v (txt expected)
    (MTemplate [Text "Unexpected response body for "; Text method; Text " request. Expected "; Text shown; Text " but got "; PVal v]).

(** [try { ... } catch (error) { assert(false, `... request failed: ${error}`) }]. *)
Definition fetch_block (method : string) (m : body_run unit) : body_run unit :=
  catching m (fun e => assert false (MTemplate [Text method; Text " request failed: "; PThrown e])).

Definition fetch_text (k : nat) (method expected shown : string) : body_run unit :=
  fetch_block method
    (let? response := fetch k url (plain_init method) in
     do? status_is method (fetched_status response) 200 "200" in
     let? text := fetched_text response in
     fetched_body_is method text expected shown).

Definition fetch_json (k : nat) (method : string) (accept : bool) (shown : string) : body_run unit :=
  fetch_block method
    (let? response := fetch k url (with_body method accept) in
     do? status_is method (fetched_status response) 201 shown in
     let? text := fetched_json response in
     assertEquals (Str text.2) (Str (object_text winter))
       (MTemplate [Text "Unexpected response body for "; Text method; Text " request. Expected { name: 'Winter' } but got "; PVal text.1])).

(** The two methods that must not be sent. *)
Definition fetch_refused (k : nat) (method : string) : body_run (option reply) :=
  catching
    (do? fetch k (url ++ js "?name=Winter") (plain_init method) in
     Ok (Some (500, [Text method; Text " request succeeded when it should have failed"])))
    (fun _ => Ok None).

Definition allowed : string := "GET, POST, PUT, PATCH, DELETE, HEAD, OPTIONS,  TRACE".

Definition fetch_options (k : nat) : body_run unit :=
  fetch_block "OPTIONS"
    (let? response := fetch k url (plain_init "OPTIONS") in
     do? status_is "OPTIONS" (fetched_status response) 200 "200" in
     let? text := fetched_text response in
     do? fetched_body_is "OPTIONS" text "" "empty string" in
     assertEquals (allow response) (txt allowed)
       (MTemplate [Text "Allow header is incorrect for OPTIONS request. Expected '"; Text allowed; Text "' but got "; PVal (allow response)])).

Definition fetch_test : body_run reply :=
  do? fetch_text 0 "GET" "GET request successful" "'GET request successful'" in
  do? fetch_json 1 "POST" true "201" in
  do? fetch_json 2 "PUT" true "200" in
  do? fetch_json 3 "PATCH" false "201" in
  do? fetch_text 4 "DELETE" "DELETE request successful" "'DELETE request successful'" in
  do? fetch_text 5 "HEAD" "" "empty string" in
  unless_returned (fetch_refused 6 "TRACE")
  (unless_returned (fetch_refused 7 "CONNECT")
  (do? fetch_options 8 in Ok all_passed)).

Definition handleFetch : reply := or_failure fetch_test.
End Fetch.

(** ** 2-blob.js and 2.1-file.js *)

Section Blob.
Context {B : Type}.

(** Blobs and Files: the constructors get the texts of the parts and the type, a File
    also its name and time; [stream_text] is [readStream] of the stream of one. *)
Record blob_class : Type := BlobClass {
  new_blob : list string -> string -> body_run B;
  new_file : list string -> string -> string -> Z -> body_run B;
  text : B -> body_run val; blob_type : B -> val; size : B -> num; lastModified : B -> val; name : B -> val;
  stream_is_ReadableStream : B -> body_run bool; slice : B -> Z -> Z -> string -> body_run B; stream_text : B -> body_run val }.

Variable C : blob_class.

(** The response: its text, then its two headers, or the error. *)
Definition handleBlob : Z * (val * (val * num) + list piece) :=
  let m :=
    let? myBlob := new_blob C ["Hello,"; " world!"]%string "text/plain" in
    let? t := text C myBlob in
    Ok (t, (blob_type C myBlob, size C myBlob)) in
  match m with Ok r => (200, inl r) | Throw e => (500, inr (error_message e)) end.

Definition file_equals (v : val) (expected : val) : body_run unit := assert_equals v expected Undefined.

Definition file_test : body_run reply :=
  let? file := new_file C ["abc"; "def"]%string "file.txt" "text/plain" 123 in
  let? t := text C file in
  do? file_equals t (txt "abcdef") in
  do? file_equals (lastModified C file) (whole_val 123) in
  do? file_equals (name C file) (txt "file.txt") in
  do? file_equals (blob_type C file) (txt "text/plain") in
  let? b := stream_is_ReadableStream C file in
  do? assert b (MVal (txt "File.stream() should return an instance of ReadableStream")) in
  let? sliced := slice C file 2 4 "application/json" in
  let? t := text C sliced in
  do? file_equals t (txt "cd") in
  do? file_equals (blob_type C sliced) (txt "application/json") in
  let? read := stream_text C sliced in
  do? file_equals read (txt "cd") in
  Ok all_passed.

Definition handleFile : reply := or_failure file_test.
End Blob.
Arguments blob_class : clear implicits.
