(* ===== verification/NativeFacts.v ===== *)
(** What the test files of [NativeTests] accept: each answers a success exactly when
    the native functions answer its calls in a way that is stated here. *)

From Stdlib Require Import String.
From stdpp Require Import base numbers list.
From S2P Require Import Prelude JsNumber JsValue Streams TestSuite PromiseTest NativeTests.

Local Open Scope Z_scope.

(** ** Bodies that pass *)

Lemma obind_ok {A B} (m : body_run A) (f : A -> body_run B) r : obind m f = Ok r <-> exists a, m = Ok a /\ f a = Ok r.
Proof.
  destruct m as [a|e]; cbn; split.
  - eauto.
  - intros (a' & [= <-] & E). exact E.
  - discriminate.
  - intros (a' & [=] & _).
Qed.

Lemma then_ok {B} (m : body_run unit) (k : body_run B) r : obind m (fun _ => k) = Ok r <-> m = Ok tt /\ k = Ok r.
Proof. rewrite obind_ok. split; [intros ([] & ? & ?)|intros [? ?]; exists tt]; auto. Qed.

Lemma catching_ok {A} (m : body_run A) h r : catching m h = Ok r <-> m = Ok r \/ exists e, m = Throw e /\ h e = Ok r.
Proof.
  destruct m as [a|e]; cbn; split.
  - auto.
  - intros [E|(e & [=] & _)]. exact E.
  - eauto.
  - intros [[=]|(e' & [= <-] & E)]. exact E.
Qed.

Lemma unless_returned_ok m k r :
  unless_returned m k = Ok r <-> m = Ok (Some r) \/ m = Ok None /\ k = Ok r.
Proof.
  unfold unless_returned. rewrite obind_ok. split.
  - intros ([x|] & E & H); [injection H as ->; auto|auto].
  - intros [E|[E H]]; eauto.
Qed.

Lemma throw_unless_ok b t : throw_unless b t = Ok tt <-> b = true.
Proof. destruct b; split; intros H; first [reflexivity|discriminate H]. Qed.
Lemma assert_ok b m : assert b m = Ok tt <-> b = true.
Proof. destruct b; split; intros H; first [reflexivity|discriminate H]. Qed.
Lemma fail_ok {A} t (r : A) : fail t = Ok r <-> False.
Proof. split; [discriminate|intros []]. Qed.

Lemma or_failure_passed m : or_failure m = all_passed <-> m = Ok all_passed.
Proof.
  destruct m as [r|e]; cbn; split; try congruence. intros [=].
Qed.

Lemma text_eq v s : strict_eq v (Str s) = true <-> v = Str s.
Proof.
  destruct v; cbn; try (split; discriminate).
  destruct (str_eqb_spec s0 s) as [->|N]; split; congruence.
Qed.
Lemma is_text_ok v s : is_text v s = true <-> v = txt s.
Proof. apply text_eq. Qed.

Lemma assertEquals_text v s m : assertEquals v (Str s) m = Ok tt <-> v = Str s.
Proof. unfold assertEquals. rewrite assert_ok. apply text_eq. Qed.

Lemma assertEquals_same s m : assertEquals (Str s) (Str s) m = Ok tt.
Proof. apply assertEquals_text. reflexivity. Qed.

Lemma catch_fails {A} (m : body_run A) h r : (forall e, h e <> Ok r) -> catching m h = Ok r <-> m = Ok r.
Proof. intros H. rewrite catching_ok. split; [intros [E|(e & _ & E)]; [exact E|destruct (H e E)]|auto]. Qed.

Lemma must_ok {A} (m : body_run A) t : must_succeed m t = Ok tt <-> exists a, m = Ok a.
Proof.
  unfold must_succeed. rewrite catch_fails by discriminate. rewrite obind_ok.
  split; [intros (a & E & _)|intros [a E]]; eauto.
Qed.

(** What a body that passed has done. *)
Ltac passed_by :=
  repeat match goal with
  | H : obind _ (fun _ => _) = Ok _ |- _ => apply obind_ok in H; destruct H as (? & ? & ?)
  | H : assertEquals _ (Str _) _ = Ok ?u |- _ => destruct u; apply assertEquals_text in H
  | H : assert _ _ = Ok ?u |- _ => destruct u; apply assert_ok in H
  | H : throw_unless _ _ = Ok ?u |- _ => destruct u; apply throw_unless_ok in H
  | H : is_text _ _ = true |- _ => apply is_text_ok in H
  | H : strict_eq _ (Str _) = true |- _ => apply text_eq in H
  end.

(** A block that returns a failure unless its call throws an error of a class. *)
Lemma must_throw {A} (m : body_run A) name t x k r : x <> r ->
  unless_returned (catching (obind m (fun _ => Ok (Some x))) (fun e => if negb (is_error name e) then fail t else Ok None)) k = Ok r <->
  (exists e, m = Throw e /\ is_error name e = true) /\ k = Ok r.
Proof.
  intros N. rewrite unless_returned_ok. destruct m as [a|e]; cbn [obind catching].
  - split; [intros [[= E]|[[=] _]]; congruence|intros [(e & [=] & _) _]].
  - destruct (is_error name e) eqn:T; cbn [negb]; split.
    + intros [[=]|[_ H]]; eauto.
    + intros [_ H]; auto.
    + intros [[=]|[[=] _]].
    + intros [(e' & [= <-] & H) _]; congruence.
Qed.

Lemma obind_assoc {A B C} (m : body_run A) (f : A -> body_run B) (g : B -> body_run C) :
  obind (obind m f) g = obind m (fun a => obind (f a) g).
Proof. destruct m; reflexivity. Qed.

Lemma expects_text {D} (m : body_run D) (f : D -> body_run jsstr) x t :
  obind m (fun d => obind (f d) (fun s => throw_unless (str_eqb s x) t)) = Ok tt <-> exists d, m = Ok d /\ f d = Ok x.
Proof.
  rewrite obind_ok. split; intros (d & E & H); exists d; (split; [exact E|]).
  - apply obind_ok in H. destruct H as (s & E2 & H). apply throw_unless_ok in H. destruct (str_eqb_spec s x); congruence.
  - rewrite H. cbn [obind]. apply throw_unless_ok. destruct (str_eqb_spec x x); congruence.
Qed.

(** ** The tests *)

(** The test of [atob] and [btoa] answers a success exactly when the two functions are
    right on its text and [btoa] takes bytes below 32; it does not depend on what [atob]
    does with a text that is not base64, since the assertion that the call must fail
    throws inside the block that catches its errors. *)
Theorem base64_accepts btoa atob :
  handleAtobBtoA btoa atob = all_passed <->
  btoa hello = Ok (Str hello_base64) /\ atob hello_base64 = Ok (Str hello) /\ exists v, btoa [0; 1; 2] = Ok v.
Proof.
  unfold handleAtobBtoA. rewrite or_failure_passed. unfold base64_test. split.
  - intros E. passed_by. subst.
    match goal with H : catching (obind (btoa _) _) _ = _ |- _ => rewrite catch_fails in H by discriminate end.
    passed_by. eauto.
  - intros (-> & -> & v & ->). cbn [obind]. rewrite !assertEquals_same. cbn [obind].
    destruct (atob (js "Invalid base64 string")); reflexivity.
Qed.

(** The host of a URL is its host name, and its port after a colon when it has one. *)
Definition host_with_port {U} (C : url_class U) : Prop :=
  forall u p, port C u = Str p -> exists h, host C u = Str (h ++ match p with [] => [] | _ => 58 :: p end).

(** The test of [URL] answers no success on a class whose attribute [host] shows the
    port when there is one: it expects the port 443 and a host without it. *)
Theorem url_contradicts {U} (C : url_class U) : host_with_port C -> handleURL C <> all_passed.
Proof.
  intros H E. unfold handleURL in E. rewrite or_failure_passed in E. unfold url_test, url_attribute in E. passed_by.
  match goal with P : port C ?u = _, Q : host C ?u = _ |- _ => destruct (H u _ P) as [h Hh]; rewrite Hh in Q; injection Q as Ho end.
  apply (f_equal (@rev Z)) in Ho. rewrite rev_app_distr in Ho. discriminate Ho.
Qed.

(** The number of a [Num] that is equal to a whole one. *)
Abbreviation equals_whole v z := (strict_eq v (whole_val z) = true).

Lemma typeof_number v : is_number v = true <-> exists n, v = Num n.
Proof. destruct v; cbn; split; try discriminate; try (intros [? [=]]); eauto. Qed.

(** The test of TextEncoder looks at its encoding, at the class of what [encode]
    answers but not at its bytes, and at the counts of [encodeInto] but not at what is
    written. *)
Theorem encoder_accepts encoding encode is_Uint8Array encodeInto :
  handleTextEncoder encoding encode is_Uint8Array encodeInto = all_passed <->
  encoding = txt "utf-8" /\ (exists v, encode hello = Ok v /\ is_Uint8Array v = true) /\
  (exists m n, encodeInto hello 39 = Ok (Num m, Num n)) /\
  (exists r w, encodeInto hello 13 = Ok (r, w) /\ equals_whole r 13 /\ equals_whole w 13).
Proof.
  unfold handleTextEncoder. rewrite or_failure_passed. unfold text_encoder_test, encode_into_failed. split.
  - intros E. passed_by. subst.
    repeat match goal with
    | H : (if negb ?a || negb ?b then _ else _) = _ |- _ => destruct a eqn:?, b eqn:?; try discriminate H; clear H
    end.
    repeat match goal with H : is_number _ = true |- _ => apply typeof_number in H; destruct H as [? ?] end.
    split; [reflexivity|]. split; [eauto|].
    repeat match goal with x : (val * val)%type |- _ => destruct x; cbn [fst snd] in * end. subst.
    split; eauto 10.
  - intros (-> & (v & E & U) & (m & n & E2) & r & w & E3 & R & W).
    change (throw_unless (is_text (txt "utf-8") "utf-8") _) with (Ok tt : body_run unit). cbn [obind]. change (js "Hello, world!") with hello.
    rewrite E. cbn [obind]. rewrite U. cbn [throw_unless negb obind].
    change (Z.of_nat (length hello) * 3) with 39. change (Z.of_nat (length hello)) with 13.
    rewrite E2. cbn [obind fst snd]. cbn [is_number typeof]. 
    change (str_eqb (js "number") (js "number")) with true. cbn [negb orb obind].
    rewrite E3. cbn [obind fst snd]. unfold whole_val in R, W. rewrite R, W. reflexivity.
Qed.

(** *** The decoder *)

(** A text in pieces of ten units. *)
Fixpoint pieces (n : nat) (s : jsstr) : list jsstr :=
  match n, s with
  | O, _ | _, [] => []
  | S n, _ => take 10 s :: pieces n (drop 10 s)
  end.

Lemma pieces_cover n : forall s, (length s <= 10 * n)%nat -> concat (pieces n s) = s /\ Forall (fun c => (0 < length c <= 10)%nat) (pieces n s).
Proof.
  induction n as [|n IH]; intros s L.
  - destruct s; [split; [reflexivity|constructor]|cbn in L; lia].
  - destruct s as [|c s]; [split; [reflexivity|constructor]|].
    destruct (IH (drop 10 (c :: s))) as [C F]; [rewrite length_drop; lia|].
    cbn [pieces concat]. rewrite C. split; [apply take_drop|]. constructor; [|exact F].
    rewrite length_take. cbn [length]. lia.
Qed.

Lemma complete_length : length complete_text = 57%nat.
Proof. reflexivity. Qed.

Lemma pieces_all k : pieces (6 + k) complete_text = pieces 6 complete_text.
Proof. destruct k; reflexivity. Qed.

Section Decoder.
Context {D B : Type} (encode : jsstr -> body_run B) (decode : D -> B -> bool -> D * body_run jsstr).

Fixpoint decode_each (l : list jsstr) (d : D) (string : jsstr) : body_run jsstr :=
  match l with
  | [] => Ok string
  | c :: l =>
      obind (encode c) (fun b => let '(d, t) := decode d b true in obind t (fun t => decode_each l d (string ++ t)))
  end.

(** The loop over the generator decodes the pieces of the text, each of ten units but
    for the last, which cover it. *)
Lemma chunks_decoded s n : forall k d string, (length s < 10 * n + k)%nat ->
  decode_chunks encode decode (S n) d (Chunker s (Z.of_nat k)) string = decode_each (pieces n (drop k s)) d string.
Proof.
  induction n as [|n IH]; intros k d string L; cbn [decode_chunks]; unfold generator_next at 1; cbn [currentPosition textSource].
  - rewrite (proj2 (Z.ltb_ge _ _)) by lia. rewrite drop_ge by lia. reflexivity.
  - destruct (Z.ltb_spec (Z.of_nat k) (Z.of_nat (length s))) as [K|K].
    + rewrite Nat2Z.id. change (Z.to_nat CHUNK_SIZE) with 10%nat.
      destruct (drop k s) as [|c r] eqn:Q; [apply (f_equal length) in Q; rewrite length_drop in Q; cbn in Q; lia|].
      cbn [pieces decode_each]. destruct (encode _) as [b|e]; [|reflexivity]. cbn [obind].
      destruct (decode d b true) as [d' [t|e]]; [|reflexivity]. cbn [obind].
      replace (Z.of_nat k + CHUNK_SIZE) with (Z.of_nat (k + 10)) by (unfold CHUNK_SIZE; lia).
      rewrite <- Q, drop_drop. apply IH. lia.
    + rewrite drop_ge by lia. destruct n; reflexivity.
Qed.

Context (new_decoder : jsstr -> bool -> body_run D) (invalidData : B).

(** The test of TextDecoder: an unknown encoding is a RangeError, a text decoded by
    pieces is the text, and bad bytes are a TypeError of a fatal decoder, or of its
    constructor. *)
Theorem decoder_accepts turns : (7 <= turns)%nat ->
  handleTextDecoder encode new_decoder decode invalidData turns = all_passed <->
  (exists e, new_decoder (js "invalid-encoding") false = Throw e /\ is_error "RangeError" e = true) /\
  (exists d, new_decoder (js "utf-8") false = Ok d /\ decode_each (pieces 6 complete_text) d [] = Ok complete_text) /\
  (exists e, obind (new_decoder (js "utf-8") true) (fun d => (decode d invalidData false).2) = Throw e /\ is_error "TypeError" e = true).
Proof.
  intros T. replace turns with (S (6 + (turns - 7))) by lia.
  unfold handleTextDecoder. rewrite or_failure_passed. unfold text_decoder_test, nextChunk.
  rewrite must_throw by discriminate. rewrite !then_ok, must_ok.
  rewrite <- (obind_assoc (new_decoder (js "utf-8") true)). rewrite must_throw by discriminate.
  rewrite catch_fails by discriminate. rewrite expects_text.
  pose proof (chunks_decoded complete_text (6 + (turns - 7)) 0) as K. change (Z.of_nat 0) with 0 in K.
  rewrite drop_0, pieces_all, complete_length in K. split.
  - intros (H1 & _ & (d & E & E2) & H4 & _). rewrite K in E2 by lia. eauto.
  - intros (H1 & (d & E & E2) & H4). split; [exact H1|]. split; [eauto|]. split; [|split; [exact H4|reflexivity]].
    exists d. rewrite K by lia. auto.
Qed.
End Decoder.

(** *** Responses *)

Section Response.
Context {R : Type} (C : response_class R).

(** What each block asks of the class. *)
Definition basic_ok : Prop :=
  exists r, new_response C (js "body content") 200 "OK" [("X-Custom-Header", "Test")]%string = Ok r /\
    equals_whole (status C r) 200 /\ statusText C r = txt "OK" /\ headers_get C r "X-Custom-Header" = Ok (txt "Test").
Definition error_ok : Prop :=
  exists r, response_error C = Ok r /\ response_type C r = txt "error" /\ equals_whole (status C r) 0.
Definition redirect_ok : Prop :=
  exists r, response_redirect C testUrl 301 = Ok r /\ equals_whole (status C r) 301 /\ headers_get C r "Location" = Ok (Str testUrl).
Definition json_ok : Prop :=
  exists r, response_json C testData = Ok r /\ json_text C r = Ok (object_text testData).

Lemma reported_ok m t : reported m t = Ok None <-> m = Ok tt.
Proof. unfold reported. destruct m as [[]|e]; cbn; split; congruence. Qed.

Lemma reported_next m t k r : fst r <> 500 -> unless_returned (reported m t) k = Ok r <-> m = Ok tt /\ k = Ok r.
Proof.
  intros N. rewrite unless_returned_ok, reported_ok. split; [intros [E|E]; [|exact E]|auto].
  unfold reported in E. destruct m as [[]|e]; cbn in E; [discriminate|]. injection E as <-. cbn in N. congruence.
Qed.

Lemma basic_passes : response_basic C = Ok tt <-> basic_ok.
Proof.
  unfold response_basic, basic_ok. split.
  - intros E. passed_by. subst. eauto 10.
  - intros (r & -> & S & T & H). cbn [obind]. unfold is_text. rewrite S, T. cbn [throw_unless negb obind]. rewrite H. reflexivity.
Qed.
Lemma error_passes : response_error_test C = Ok tt <-> error_ok.
Proof.
  unfold response_error_test, error_ok. split.
  - intros E. passed_by. eauto 10.
  - intros (r & -> & T & S). cbn [obind]. unfold is_text. rewrite T. cbn [throw_unless negb obind]. rewrite S. reflexivity.
Qed.
Lemma redirect_passes : response_redirect_test C = Ok tt <-> redirect_ok.
Proof.
  unfold response_redirect_test, redirect_ok. split.
  - intros E. passed_by. subst. eauto 10.
  - intros (r & -> & S & L). cbn [obind]. rewrite S. cbn [throw_unless negb obind]. rewrite L. reflexivity.
Qed.
Lemma json_passes : response_json_test C = Ok tt <-> json_ok.
Proof.
  unfold response_json_test, json_ok. split.
  - intros E. passed_by. match goal with H : str_eqb ?t _ = true |- _ => destruct (str_eqb_spec t (object_text testData)) end;
      [subst; eauto|discriminate].
  - intros (r & -> & E). cbn [obind]. rewrite E. reflexivity.
Qed.

(** The test of Response throws nothing, and answers a success exactly when the four
    ways to make a response give what it reads. *)
Theorem response_accepts :
  (exists r, response_test C = Ok r) /\
  (response_test C = Ok (200, [Text "All tests passed"]) <-> basic_ok /\ error_ok /\ redirect_ok /\ json_ok).
Proof.
  unfold response_test. split.
  - unfold unless_returned, reported.
    destruct (response_basic C) as [[]|]; [|eexists; reflexivity]. destruct (response_error_test C) as [[]|]; [|eexists; reflexivity].
    destruct (response_redirect_test C) as [[]|]; [|eexists; reflexivity]. destruct (response_json_test C) as [[]|]; eexists; reflexivity.
  - rewrite !reported_next by discriminate. rewrite basic_passes, error_passes, redirect_passes, json_passes. tauto.
Qed.
End Response.

(** *** Requests *)

Section Fetch.
Context (fetch : nat -> jsstr -> fetch_init -> body_run fetch_result) (url : jsstr).

(** A call that gives a status and a text, and one that gives the sent object back. *)
Definition gives_text (k : nat) (method text : string) : Prop :=
  exists r, fetch k url (plain_init method) = Ok r /\ equals_whole (fetched_status r) 200 /\ fetched_text r = Ok (txt text).
Definition gives_back (k : nat) (method : string) (accept : bool) : Prop :=
  exists r v, fetch k url (with_body method accept) = Ok r /\ equals_whole (fetched_status r) 201 /\
    fetched_json r = Ok (v, object_text winter).
Definition refused (k : nat) (method : string) : Prop := exists e, fetch k (url ++ js "?name=Winter") (plain_init method) = Throw e.

Lemma fetch_block_ok method m : fetch_block method m = Ok tt <-> m = Ok tt.
Proof. unfold fetch_block. apply catch_fails. discriminate. Qed.

Lemma status_ok method v z t : status_is method v z t = Ok tt <-> equals_whole v z.
Proof. apply assert_ok. Qed.
Lemma body_ok method v e t : fetched_body_is method v e t = Ok tt <-> v = txt e.
Proof. apply assertEquals_text. Qed.

Lemma text_passes k method text t : fetch_text fetch url k method text t = Ok tt <-> gives_text k method text.
Proof.
  unfold fetch_text, gives_text. rewrite fetch_block_ok. split.
  - intros E. apply obind_ok in E. destruct E as (r & E & H). apply then_ok in H. destruct H as [S H]. apply status_ok in S.
    apply obind_ok in H. destruct H as (v & T & H). apply body_ok in H. subst. eauto.
  - intros (r & -> & S & T). cbn [obind]. apply then_ok. split; [apply status_ok, S|]. rewrite T. apply body_ok. reflexivity.
Qed.

Lemma json_back k method a t : fetch_json fetch url k method a t = Ok tt <-> gives_back k method a.
Proof.
  unfold fetch_json, gives_back. rewrite fetch_block_ok. split.
  - intros E. apply obind_ok in E. destruct E as (r & E & H). apply then_ok in H. destruct H as [S H]. apply status_ok in S.
    apply obind_ok in H. destruct H as ([v x] & T & H). apply assertEquals_text in H. injection H as ->. eauto.
  - intros (r & v & -> & S & T). cbn [obind]. apply then_ok. split; [apply status_ok, S|]. rewrite T. apply assertEquals_same.
Qed.

Lemma refused_next k method rest r : fst r <> 500 ->
  unless_returned (fetch_refused fetch url k method) rest = Ok r <-> refused k method /\ rest = Ok r.
Proof.
  intros N. rewrite unless_returned_ok. unfold fetch_refused, refused.
  destruct (fetch k _ _) as [x|e]; cbn [obind catching].
  - split; [intros [[= <-]|[[=] _]]; cbn in N; congruence|intros [[e [=]] _]].
  - split; [intros [[=]|[_ H]]; eauto|intros [_ H]; auto].
Qed.

Lemma options_passes k : fetch_options fetch url k = Ok tt <->
  exists r, fetch k url (plain_init "OPTIONS") = Ok r /\ equals_whole (fetched_status r) 200 /\ fetched_text r = Ok (txt "") /\ allow r = txt allowed.
Proof.
  unfold fetch_options. rewrite fetch_block_ok. split.
  - intros E. apply obind_ok in E. destruct E as (r & E & H). apply then_ok in H. destruct H as [S H]. apply status_ok in S.
    apply obind_ok in H. destruct H as (v & T & H). apply then_ok in H. destruct H as [B A]. apply body_ok in B.
    apply assertEquals_text in A. subst. eauto.
  - intros (r & -> & S & T & A). cbn [obind]. apply then_ok. split; [apply status_ok, S|]. rewrite T. cbn [obind].
    apply then_ok. split; [apply body_ok; reflexivity|]. rewrite A. apply assertEquals_same.
Qed.

(** The test of fetch answers a success exactly when GET, DELETE and HEAD give their
    texts, POST, PUT and PATCH give back the object they send with status 201, TRACE and
    CONNECT fail, in whatever way, and OPTIONS gives an empty text and the methods. *)
Theorem fetch_accepts :
  handleFetch fetch url = all_passed <->
  gives_text 0 "GET" "GET request successful" /\ gives_back 1 "POST" true /\ gives_back 2 "PUT" true /\
  gives_back 3 "PATCH" false /\ gives_text 4 "DELETE" "DELETE request successful" /\ gives_text 5 "HEAD" "" /\
  refused 6 "TRACE" /\ refused 7 "CONNECT" /\
  exists r, fetch 8%nat url (plain_init "OPTIONS") = Ok r /\ equals_whole (fetched_status r) 200 /\
    fetched_text r = Ok (txt "") /\ allow r = txt allowed.
Proof.
  unfold handleFetch. rewrite or_failure_passed. unfold fetch_test.
  rewrite !then_ok, !refused_next by discriminate. rewrite then_ok, !text_passes, !json_back, options_passes. tauto.
Qed.
End Fetch.

(** *** Blobs and files *)

Theorem blob_response {B} (C : blob_class B) b t :
  new_blob C ["Hello,"; " world!"]%string "text/plain" = Ok b -> text C b = Ok t ->
  handleBlob C = (200, inl (t, (blob_type C b, size C b))).
Proof. intros E T. unfold handleBlob. rewrite E. cbn [obind]. rewrite T. reflexivity. Qed.

Lemma equals_text v s : file_equals v (txt s) = Ok tt <-> v = txt s.
Proof. unfold file_equals, assert_equals. rewrite assert_ok. apply text_eq. Qed.

(** The test of File answers a success exactly when the file and its slice have their
    texts, attributes and stream. *)
Theorem file_accepts {B} (C : blob_class B) :
  handleFile C = all_passed <->
  exists f, new_file C ["abc"; "def"]%string "file.txt" "text/plain" 123 = Ok f /\ text C f = Ok (txt "abcdef") /\
    equals_whole (lastModified C f) 123 /\ name C f = txt "file.txt" /\ blob_type C f = txt "text/plain" /\
    stream_is_ReadableStream C f = Ok true /\
    exists s, slice C f 2 4 "application/json" = Ok s /\ text C s = Ok (txt "cd") /\ blob_type C s = txt "application/json" /\
      stream_text C s = Ok (txt "cd").
Proof.
  unfold handleFile. rewrite or_failure_passed. unfold file_test. split.
  - intros E. apply obind_ok in E. destruct E as (f & E & H). apply obind_ok in H. destruct H as (t & T & H).
    rewrite !then_ok, !equals_text in H. destruct H as (-> & L & N & Ty & H). apply assert_ok in L.
    apply obind_ok in H. destruct H as (b & Sb & H). rewrite then_ok, assert_ok in H. destruct H as [-> H].
    apply obind_ok in H. destruct H as (s & Es & H). apply obind_ok in H. destruct H as (t & Ts & H).
    rewrite !then_ok, !equals_text in H. destruct H as (-> & Tj & H).
    apply obind_ok in H. destruct H as (r & Rs & H). rewrite then_ok, equals_text in H. destruct H as [-> _]. eauto 20.
  - intros (f & -> & T & L & N & Ty & Sb & s & Es & Ts & Tj & Rs). cbn [obind]. rewrite T. cbn [obind].
    rewrite !then_ok, !equals_text. repeat split; try assumption; [apply assert_ok, L|]. rewrite Sb. cbn [obind].
    apply then_ok. split; [reflexivity|]. rewrite Es. cbn [obind]. rewrite Ts. cbn [obind].
    rewrite !then_ok, !equals_text. repeat split; [assumption|]. rewrite Rs. cbn [obind]. apply then_ok.
    split; [apply equals_text|]; reflexivity.
Qed.
