(* ===== verification/BodyTests.v ===== *)
(** The tests of Headers and of the bodies of responses
    (in test-suite/js-test-app/src/test-files/): 3-headers.js and 11.1-fetch-body.js.

    The native classes are arguments, and answer by their arguments alone; a method that
    changes a Headers object gives the object after the change. *)

From Stdlib Require Import String.
From stdpp Require Import base numbers list.
From S2P Require Import Prelude JsNumber JsValue Streams TestSuite PromiseTest NativeTests.

Local Open Scope Z_scope.
Local Open Scope run_scope.

(** ** 3-headers.js *)

Section Headers.
Context {H : Type}.

(** [headers_entries] is what iterating an object gives. *)
Record headers_class : Type := HeadersClass {
  new_headers : list (string * string) -> body_run H;
  headers_append : H -> string -> string -> body_run H;
  headers_delete : H -> string -> body_run H;
  headers_value : H -> string -> body_run val;
  headers_has : H -> string -> body_run val;
  headers_set : H -> string -> string -> body_run H;
  headers_entries : H -> body_run (list (jsstr * jsstr)) }.

Variable C : headers_class.
(** [new URL(request.url).pathname]. *)
Variable path : body_run jsstr.

(** [path.includes(t)]. *)
Fixpoint text_includes (s t : jsstr) : bool :=
  startsWith t s || match s with [] => false | _ :: s => text_includes s t end.
Definition on_route (p : jsstr) (t : string) : bool := text_includes p (js t).

(** The lines of the loop that collects the headers. *)
Definition header_row (e : jsstr * jsstr) : list piece := [PVal (Str e.1); Text ": "; PVal (Str e.2); Text "
"].
Definition header_lines (l : list (jsstr * jsstr)) : list piece := flat_map header_row l.

(** The text and the headers of the response; nothing is caught. *)
Definition handleHeaders : body_run (list piece * H) :=
  let? path := path in
  let? headers := new_headers C [("Content-Type", "text/plain"); ("X-Custom-Header", "CustomValue")]%string in
  if on_route path "/append" then
    let? headers := headers_append C headers "X-Appended-Header" "AppendedValue" in Ok ([Text "Header appended"], headers)
  else if on_route path "/delete" then
    let? headers := headers_delete C headers "X-Custom-Header" in Ok ([Text "Header deleted"], headers)
  else if on_route path "/get" then
    let? contentType := headers_value C headers "Content-Type" in Ok ([Text "Content-Type is "; PVal contentType], headers)
  else if on_route path "/has" then
    let? hasContentType := headers_has C headers "Content-Type" in
    Ok ([Text "Has Content-Type: "; PVal hasContentType], headers)
  else if on_route path "/set" then
    let? headers := headers_set C headers "Content-Type" "text/html" in Ok ([Text "Content-Type set to text/html"], headers)
  else if on_route path "/iterate" then
    let? l := headers_entries C headers in Ok (Text "Headers iterated:
" :: header_lines l, headers)
  else
    let? l := headers_entries C headers in Ok (Text "All Headers:
" :: header_lines l, headers).
End Headers.
Arguments headers_class : clear implicits.

(** ** 11.1-fetch-body.js *)

Section Body.
Context {R O : Type}.

(** Responses and the other objects: [made d o] is [o instanceof C] for a class; [decode]
    is that of a TextDecoder. *)
Record body_class : Type := BodyClass {
  text_response : jsstr -> option string -> body_run R;
  arrayBuffer : R -> body_run O; blob : R -> body_run O; json : R -> body_run O; formData : R -> body_run O;
  instance_of : string -> O -> bool; decode_buffer : O -> body_run val; blob_text : O -> body_run val;
  member : O -> string -> val; form_get : O -> string -> body_run (val + O) }.

Variable C : body_class.

Definition crlf : jsstr := [13; 10].
(** A quoted text. *)
Definition quoted (s : string) : jsstr := ([34] ++ js s ++ [34])%list.

Definition multipartBody : jsstr :=
  (js "--BOUNDARY" ++ crlf ++
   js "Content-Disposition: form-data; name=" ++ quoted "a" ++ crlf ++
   crlf ++
   js "b" ++ crlf ++
   js "--BOUNDARY" ++ crlf ++
   js "Content-Disposition: form-data; name=" ++ quoted "c" ++ js "; filename=" ++ quoted "d.txt" ++ crlf ++
   js "Content-Type: text/plain" ++ crlf ++
   crlf ++
   js "e, f, g" ++ crlf ++
   js "h, i, j" ++ crlf ++
   js "--BOUNDARY--" ++ crlf)%list.

Definition no_message : message := MVal Undefined.
Definition equal_text (v : val) (s : jsstr) : body_run unit := assert_equals v (Str s) Undefined.

(** The awaited [promise_test] of a body. *)
Definition awaited_test (m : body_run unit) (desc : string) : body_run unit :=
  catching m (fun e => Throw (failed (txt desc) e)).

Definition array_buffer_test : body_run unit :=
  let? response := text_response C (js "1234") None in
  let? body := arrayBuffer C response in
  do? assert (instance_of C "ArrayBuffer" body) no_message in
  let? t := decode_buffer C body in
  equal_text t (js "1234").

Definition blob_test : body_run unit :=
  let? response := text_response C (js "1234") None in
  let? body := blob C response in
  do? assert (instance_of C "Blob" body) no_message in
  let? t := blob_text C body in
  equal_text t (js "1234").

(** The text of an object with two members. *)
Definition two_members : jsstr :=
  ([123] ++ quoted "a" ++ [58] ++ quoted "b" ++ [44] ++ quoted "c" ++ [58] ++ quoted "d" ++ [125])%list.

Definition json_test : body_run unit :=
  let? response := text_response C two_members None in
  let? body := json C response in
  do? equal_text (member C body "a") (js "b") in
  equal_text (member C body "c") (js "d").

(** [assert_equals(formData.get(...), ...)]: an object is no text. *)
Definition entry_val (x : val + O) : val := match x with inl v => v | inr _ => VObj [] None None end.

Definition urlencoded_test : body_run unit :=
  let? response := text_response C (js "a=b&c=d") (Some "application/x-www-form-urlencoded"%string) in
  let? form := formData C response in
  let? a := form_get C form "a" in
  do? equal_text (entry_val a) (js "b") in
  let? c := form_get C form "c" in
  equal_text (entry_val c) (js "d").

Definition multipart_test : body_run unit :=
  let? response := text_response C multipartBody (Some "multipart/form-data; boundary=BOUNDARY"%string) in
  let? form := formData C response in
  let? a := form_get C form "a" in
  do? equal_text (Str (typeof (entry_val a))) (js "string") in
  do? equal_text (entry_val a) (js "b") in
  let? c := form_get C form "c" in
  match c with
  | inl _ => assert false (MVal (txt "c must be a File"))
  | inr c =>
      do? assert (instance_of C "File" c) (MVal (txt "c must be a File")) in
      do? equal_text (member C c "name") (js "d.txt") in
      do? equal_text (member C c "type") (js "text/plain") in
      let? t := blob_text C c in
      equal_text t (js "e, f, g" ++ crlf ++ js "h, i, j")%list
  end.

Definition fetch_body_tests : body_run reply :=
  do? awaited_test array_buffer_test "arrayBuffer" in
  do? awaited_test blob_test "blob" in
  do? awaited_test json_test "json" in
  do? awaited_test urlencoded_test "x-www-form-urlencoded body" in
  do? awaited_test multipart_test "multipart/form-data body" in
  Ok all_passed.

Definition handleFetchBody : reply := or_failure fetch_body_tests.
End Body.
Arguments body_class : clear implicits.
