(* ===== verification/BodyFacts.v ===== *)
(** What the tests of [BodyTests] answer: the response of every route on Headers that
    behave as documented, and the exact condition under which the test of bodies answers
    a success. *)

From Stdlib Require Import String.
From stdpp Require Import base numbers list.
From S2P Require Import Prelude JsNumber JsValue Streams TestSuite PromiseTest UrlSpec NativeTests NativeFacts BodyTests.

Local Open Scope Z_scope.

(** ** Documented headers *)

Definition header_char (c : Z) : bool := letter c || ((65 <=? c) && (c <=? 90)) || (c =? 45).
(** Names of letters and hyphens, but for Set-Cookie, whose values are not combined. *)
Definition valid_name (n : string) : bool :=
  negb (str_eqb (js n) []) && forallb header_char (js n) && negb (str_eqb (toLowerCase (js n)) (js "set-cookie")).
Definition valid_value (v : string) : bool := negb (str_eqb (js v) []) && forallb (fun c => header_char c || (c =? 47)) (js v).
Definition lower_name (n : string) : jsstr := toLowerCase (js n).

(** Headers as a list of names with a value each, in the order of the names. *)
Definition header_map : Type := list (jsstr * jsstr).

Fixpoint put_header (combine : jsstr -> jsstr) (n v : jsstr) (l : header_map) : header_map :=
  match l with
  | [] => [(n, v)]
  | q :: t => if str_eqb q.1 n then (n, combine q.2) :: t
              else if units_le n q.1 then (n, v) :: l else q :: put_header combine n v t
  end.
Definition append_header (n v : string) : header_map -> header_map :=
  put_header (fun w => w ++ js ", " ++ js v)%list (lower_name n) (js v).
Definition set_header (n v : string) : header_map -> header_map := put_header (fun _ => js v) (lower_name n) (js v).
Definition find_header (n : string) (l : header_map) : option jsstr := snd <$> find (fun q => str_eqb q.1 (lower_name n)) l.

(** A class whose objects are such lists, made of an object whose names differ. *)
Record documented_headers {H} (C : headers_class H) (list_of : H -> header_map) : Prop := DocumentedHeaders {
  doc_new l : forallb (fun q => valid_name q.1 && valid_value q.2) l = true -> NoDup (lower_name <$> (fst <$> l)) ->
    exists h, new_headers C l = Ok h /\ list_of h = foldl (fun m q => append_header q.1 q.2 m) [] l;
  doc_append h n v : valid_name n = true -> valid_value v = true ->
    exists h', headers_append C h n v = Ok h' /\ list_of h' = append_header n v (list_of h);
  doc_delete h n : valid_name n = true ->
    exists h', headers_delete C h n = Ok h' /\ list_of h' = List.filter (fun q => negb (str_eqb q.1 (lower_name n))) (list_of h);
  doc_value h n : valid_name n = true ->
    headers_value C h n = Ok (match find_header n (list_of h) with Some v => Str v | None => Null end);
  doc_has h n : valid_name n = true -> headers_has C h n = Ok (Bool (bool_decide (is_Some (find_header n (list_of h)))));
  doc_set h n v : valid_name n = true -> valid_value v = true ->
    exists h', headers_set C h n v = Ok h' /\ list_of h' = set_header n v (list_of h);
  doc_entries h : headers_entries C h = Ok (list_of h) }.

(** ** The routes *)

Definition header_entry (n v : string) : jsstr * jsstr := (js n, js v).
Definition plain_type : jsstr * jsstr := header_entry "content-type" "text/plain".
Definition custom_header : jsstr * jsstr := header_entry "x-custom-header" "CustomValue".

Definition contains (p : jsstr) (name : string) : Prop := exists a b, p = (a ++ js name ++ b)%list.
Definition text_line (s : string) : list piece := [PVal (txt "content-type"); Text ": "; PVal (txt s); Text "
"].
Definition custom_line : list piece := [PVal (txt "x-custom-header"); Text ": "; PVal (txt "CustomValue"); Text "
"].

(** The routes in the order in which they are tried, with their responses; the last
    response is that of every other path. *)
Definition header_routes : list (string * (list piece * header_map)) :=
  [("/append"%string, ([Text "Header appended"], [plain_type; header_entry "x-appended-header" "AppendedValue"; custom_header]));
   ("/delete"%string, ([Text "Header deleted"], [plain_type]));
   ("/get"%string, ([Text "Content-Type is "; PVal (txt "text/plain")], [plain_type; custom_header]));
   ("/has"%string, ([Text "Has Content-Type: "; PVal (Bool true)], [plain_type; custom_header]));
   ("/set"%string, ([Text "Content-Type set to text/html"], [header_entry "content-type" "text/html"; custom_header]));
   ("/iterate"%string, (Text "Headers iterated:
" :: text_line "text/plain" ++ custom_line, [plain_type; custom_header]))].
Definition other_route : list piece * header_map :=
  (Text "All Headers:
" :: text_line "text/plain" ++ custom_line, [plain_type; custom_header]).

(** The answer to a path is that of the first route of a list whose name it contains. *)
Inductive route_answer (p : jsstr) : list (string * (list piece * header_map)) -> list piece * header_map -> Prop :=
| on_no_route : route_answer p [] other_route
| on_this_route name a l : contains p name -> route_answer p ((name, a) :: l) a
| on_later_route name a l b : ~ contains p name -> route_answer p l b -> route_answer p ((name, a) :: l) b.

Lemma starts_spec t : forall s, startsWith t s = true <-> exists b, s = (t ++ b)%list.
Proof.
  induction t as [|x t IH]; intros s.
  - destruct s; split; try reflexivity; intros _; eexists; reflexivity.
  - destruct s as [|y s]; cbn.
    + split; [discriminate|intros [b [=]]].
    + rewrite andb_true_iff, Z.eqb_eq, IH. split.
      * intros [-> [b ->]]. exists b. reflexivity.
      * intros [b [= -> ->]]. eauto.
Qed.

Lemma on_route_spec p name : on_route p name = true <-> contains p name.
Proof.
  unfold on_route, contains. generalize (js name) as t. intros t. induction p as [|x p IH]; cbn [text_includes]; rewrite orb_true_iff.
  - rewrite starts_spec. split.
    + intros [[b E]|[=]]. exists [], b. exact E.
    + intros (a & b & E). left. destruct a; [eauto|discriminate].
  - rewrite starts_spec, IH. split.
    + intros [[b E]|(a & b & ->)]; [exists [], b; exact E|exists (x :: a), b; reflexivity].
    + intros ([|y a] & b & E); [left; eauto|]. injection E as -> ->. right. eauto.
Qed.

Ltac find_route :=
  repeat first [apply on_no_route | apply on_this_route, on_route_spec; assumption
               | apply on_later_route; [rewrite <- on_route_spec; congruence|]].

(** C6: the test of Headers answers every path, on Headers that behave as documented: it
    builds the text and the headers of the first of the routes of append, delete, get,
    has, set and iterate whose name the path contains, and of the listing of all
    headers when it contains none. *)
Theorem headers_response {H} (C : headers_class H) (list_of : H -> header_map) p :
  documented_headers C list_of ->
  exists t h, handleHeaders C (Ok p) = Ok (t, h) /\ route_answer p header_routes (t, list_of h).
Proof.
  intros D. unfold handleHeaders. cbn [obind].
  destruct (doc_new C list_of D [("Content-Type", "text/plain"); ("X-Custom-Header", "CustomValue")]%string eq_refl) as (h & -> & L).
  { apply (bool_decide_eq_true_1 (NoDup _)). vm_compute. reflexivity. }
  cbn [obind]. assert (L0 : list_of h = [plain_type; custom_header]) by (rewrite L; reflexivity). clear L.
  unfold header_routes.
  destruct (on_route p "/append") eqn:E1.
  { destruct (doc_append C list_of D h "X-Appended-Header" "AppendedValue" eq_refl eq_refl) as (h' & -> & L').
    rewrite L0 in L'. do 2 eexists. split; [reflexivity|]. rewrite L'. find_route. }
  destruct (on_route p "/delete") eqn:E2.
  { destruct (doc_delete C list_of D h "X-Custom-Header" eq_refl) as (h' & -> & L').
    rewrite L0 in L'. do 2 eexists. split; [reflexivity|]. rewrite L'. find_route. }
  destruct (on_route p "/get") eqn:E3.
  { rewrite (doc_value C list_of D h "Content-Type" eq_refl), L0.
    do 2 eexists. split; [reflexivity|]. rewrite L0. find_route. }
  destruct (on_route p "/has") eqn:E4.
  { rewrite (doc_has C list_of D h "Content-Type" eq_refl), L0.
    do 2 eexists. split; [reflexivity|]. rewrite L0. find_route. }
  destruct (on_route p "/set") eqn:E5.
  { destruct (doc_set C list_of D h "Content-Type" "text/html" eq_refl eq_refl) as (h' & -> & L').
    rewrite L0 in L'. do 2 eexists. split; [reflexivity|]. rewrite L'. find_route. }
  rewrite (doc_entries C list_of D h), L0.
  destruct (on_route p "/iterate") eqn:E6; cbn [obind]; do 2 eexists; (split; [reflexivity|]); rewrite L0; find_route.
Qed.

(** The lists themselves are documented. *)
Definition list_headers : headers_class header_map :=
  HeadersClass (fun l => Ok (foldl (fun m q => append_header q.1 q.2 m) [] l)) (fun h n v => Ok (append_header n v h))
    (fun h n => Ok (List.filter (fun q => negb (str_eqb q.1 (lower_name n))) h))
    (fun h n => Ok (match find_header n h with Some v => Str v | None => Null end))
    (fun h n => Ok (Bool (bool_decide (is_Some (find_header n h))))) (fun h n v => Ok (set_header n v h)) Ok.

Lemma headers_response_witness : exists t h,
  handleHeaders list_headers (Ok (js "/3-headers/append")) = Ok (t, h) /\
  route_answer (js "/3-headers/append") header_routes (t, h).
Proof.
  apply (headers_response list_headers (fun h => h)). constructor; intros; try reflexivity; eexists; split; reflexivity.
Defined.

(** ** Bodies *)

Section Body.
Context {R O : Type} (C : body_class R O).

(** A response of a text, and what one of its methods makes of the body. *)
Definition body_of (t : jsstr) (type : option string) (f : R -> body_run O) (P : O -> Prop) : Prop :=
  exists r b, text_response C t type = Ok r /\ f r = Ok b /\ P b.

Definition form_gives (f : O) (n : string) (t : jsstr) : Prop := form_get C f n = Ok (inl (Str t)).

Lemma awaited_ok m d : awaited_test m d = Ok tt <-> m = Ok tt.
Proof. apply catch_fails. discriminate. Qed.

Lemma equal_text_ok v s : equal_text v s = Ok tt <-> v = Str s.
Proof. unfold equal_text, assert_equals. rewrite assert_ok. apply text_eq. Qed.

Lemma body_of_ok t type f (g : O -> body_run unit) P : (forall b, g b = Ok tt <-> P b) ->
  obind (text_response C t type) (fun r => obind (f r) g) = Ok tt <-> body_of t type f P.
Proof.
  intros G. unfold body_of. rewrite obind_ok. split.
  - intros (r & E & B). apply obind_ok in B. destruct B as (b & B & Q). exists r, b. rewrite <- G. auto.
  - intros (r & b & E & B & Q). exists r. split; [exact E|]. apply obind_ok. exists b. rewrite G. auto.
Qed.

Lemma text_ok (m : body_run val) s : obind m (fun t => equal_text t s) = Ok tt <-> m = Ok (Str s).
Proof.
  rewrite obind_ok. split; [intros (v & -> & E); apply equal_text_ok in E; congruence|].
  intros ->. exists (Str s). split; [reflexivity|]. apply equal_text_ok. reflexivity.
Qed.

Lemma entry_ok (m : body_run (val + O)) s : obind m (fun a => equal_text (entry_val a) s) = Ok tt <-> m = Ok (inl (Str s)).
Proof.
  rewrite obind_ok. split.
  - intros ([v|o] & -> & E); apply equal_text_ok in E; cbn in E; congruence.
  - intros ->. eexists. split; [reflexivity|]. apply equal_text_ok. reflexivity.
Qed.

Lemma entry_then (m : body_run (val + O)) s (k : body_run unit) :
  obind m (fun a => obind (equal_text (entry_val a) s) (fun _ => k)) = Ok tt <-> m = Ok (inl (Str s)) /\ k = Ok tt.
Proof.
  rewrite <- entry_ok, !obind_ok. split.
  - intros (a & -> & E). apply then_ok in E. destruct E as [E K]. split; [eauto|exact K].
  - intros [(a & -> & E) K]. exists a. split; [reflexivity|]. apply then_ok. auto.
Qed.

(** The file of the multipart body. *)
Definition is_d_txt (c : O) : Prop :=
  instance_of C "File" c = true /\ member C c "name" = txt "d.txt" /\ member C c "type" = txt "text/plain" /\
  blob_text C c = Ok (Str (js "e, f, g" ++ crlf ++ js "h, i, j")).

Lemma multipart_ok f :
  obind (form_get C f "a") (fun a =>
    obind (equal_text (Str (typeof (entry_val a))) (js "string")) (fun _ =>
    obind (equal_text (entry_val a) (js "b")) (fun _ =>
    obind (form_get C f "c") (fun c =>
      match c with
      | inl _ => assert false (MVal (txt "c must be a File"))
      | inr c =>
          obind (assert (instance_of C "File" c) (MVal (txt "c must be a File"))) (fun _ =>
          obind (equal_text (member C c "name") (js "d.txt")) (fun _ =>
          obind (equal_text (member C c "type") (js "text/plain")) (fun _ =>
          obind (blob_text C c) (fun t => equal_text t (js "e, f, g" ++ crlf ++ js "h, i, j")%list))))
      end)))) = Ok tt <->
  form_gives f "a" (js "b") /\ exists c, form_get C f "c" = Ok (inr c) /\ is_d_txt c.
Proof.
  unfold form_gives, is_d_txt. split.
  - intros E. apply obind_ok in E. destruct E as (a & A & E). rewrite !then_ok, !equal_text_ok in E. destruct E as (_ & B & E).
    split; [destruct a as [v|o]; unfold entry_val in B; congruence|]. apply obind_ok in E. destruct E as ([v|c] & F & E); [discriminate E|].
    exists c. split; [exact F|]. rewrite !then_ok, assert_ok, !equal_text_ok, text_ok in E. exact E.
  - intros (A & c & F & E). rewrite A. cbn [obind entry_val]. rewrite then_ok, equal_text_ok. split; [reflexivity|].
    rewrite then_ok, equal_text_ok. split; [reflexivity|]. rewrite F. cbn [obind].
    rewrite !then_ok, assert_ok, !equal_text_ok, text_ok. exact E.
Qed.

(** The test of bodies answers a success exactly when the text of a response is read as
    an array buffer, a Blob, a JSON object, and as a form in its two encodings. *)
Theorem bodies_accept :
  handleFetchBody C = all_passed <->
  body_of (js "1234") None (arrayBuffer C) (fun b => instance_of C "ArrayBuffer" b = true /\ decode_buffer C b = Ok (txt "1234")) /\
  body_of (js "1234") None (blob C) (fun b => instance_of C "Blob" b = true /\ blob_text C b = Ok (txt "1234")) /\
  body_of two_members None (json C) (fun b => member C b "a" = txt "b" /\ member C b "c" = txt "d") /\
  body_of (js "a=b&c=d") (Some "application/x-www-form-urlencoded"%string) (formData C)
    (fun f => form_gives f "a" (js "b") /\ form_gives f "c" (js "d")) /\
  body_of multipartBody (Some "multipart/form-data; boundary=BOUNDARY"%string) (formData C)
    (fun f => form_gives f "a" (js "b") /\ exists c, form_get C f "c" = Ok (inr c) /\ is_d_txt c).
Proof.
  unfold handleFetchBody. rewrite or_failure_passed. unfold fetch_body_tests. rewrite !then_ok, !awaited_ok.
  unfold array_buffer_test, blob_test, json_test, urlencoded_test, multipart_test.
  rewrite (body_of_ok _ _ _ _ _ multipart_ok).
  rewrite (body_of_ok _ _ (arrayBuffer C) _ (fun b => instance_of C "ArrayBuffer" b = true /\ decode_buffer C b = Ok (txt "1234")))
    by (intros b; rewrite then_ok, assert_ok, text_ok; reflexivity).
  rewrite (body_of_ok _ _ (blob C) _ (fun b => instance_of C "Blob" b = true /\ blob_text C b = Ok (txt "1234")))
    by (intros b; rewrite then_ok, assert_ok, text_ok; reflexivity).
  rewrite (body_of_ok _ _ (json C) _ (fun b => member C b "a" = txt "b" /\ member C b "c" = txt "d"))
    by (intros b; rewrite then_ok, !equal_text_ok; reflexivity).
  rewrite (body_of_ok _ _ (formData C) _ (fun f => form_gives f "a" (js "b") /\ form_gives f "c" (js "d")))
    by (intros b; rewrite entry_then, entry_ok; reflexivity).
  tauto.
Qed.
End Body.
