(* ===== verification/LipFuzz.v ===== *)
(** The transformers of the transform stream tests
    (test-suite/js-test-app/src/test-files/12.1-transform-stream.js): the class
    [LipFuzzTransformer], which replaces the tags of a text that arrives in chunks,
    its test cases, and the test of a case.

    The TransformStream is native.  What the tests rely on is [pipe]: it calls
    [start], then [transform] for every chunk in order, then [flush], and the chunks
    they enqueue come out in order. *)

From Stdlib Require Import String.
From stdpp Require Import base numbers list.
From S2P Require Import Prelude JsNumber JsValue Streams TestSuite.

Local Open Scope Z_scope.
Local Open Scope js_scope.

(** ** Tags *)

(** [[a-zA-Z0-9_-]]. *)
Definition name_char (c : Z) : bool :=
  ((97 <=? c) && (c <=? 122)) || ((65 <=? c) && (c <=? 90)) || ((48 <=? c) && (c <=? 57)) || (c =? 95) || (c =? 45).

(** The longest run of such characters at the head of a string, and the rest. *)
Fixpoint name_prefix (s : jsstr) : jsstr * jsstr :=
  match s with
  | [] => ([], [])
  | c :: t => if name_char c then let '(n, r) := name_prefix t in (c :: n, r) else ([], s)
  end.

(** A match of [\{\{([a-zA-Z0-9_-]+)\}\}] at the head of a string: the group and
    what follows the match. *)
Definition tag_at (s : jsstr) : option (jsstr * jsstr) :=
  match s with
  | a :: b :: t =>
      if (a =? 123) && (b =? 123) then
        match name_prefix t with
        | (n :: ns, c :: d :: r) => if (c =? 125) && (d =? 125) then Some (n :: ns, r) else None
        | _ => None
        end
      else None
  | _ => None
  end.

(** A match of [\{(\{([a-zA-Z0-9_-]+(\})?)?)?$] at the head of a string, which then
    is the match. *)
Definition partial_at (s : jsstr) : bool :=
  match s with
  | [a] => a =? 123
  | a :: b :: t =>
      (a =? 123) && (b =? 123) &&
      match name_prefix t with
      | ([], []) => true
      | (_ :: _, []) => true
      | (_ :: _, [c]) => c =? 125
      | _ => false
      end
  | [] => false
  end.

(** The first match in a string: its index. *)
Fixpoint find_partial (s : jsstr) : option nat :=
  match s with
  | [] => None
  | _ :: t => if partial_at s then Some O else option_map S (find_partial t)
  end.

(** [exec] of the regular expression with the flag g from an index: [None] when it
    is past the end. *)
Definition exec_partial (lastIndex : Z) (s : jsstr) : option nat :=
  if Z.of_nat (length s) <? lastIndex then None
  else option_map (fun i => (Z.to_nat lastIndex + i)%nat) (find_partial (drop (Z.to_nat lastIndex) s)).

(** ** The transformer *)

Section LipFuzzTransformer.
(** [this.substitutions[name]], [None] for [undefined]. *)
Variable substitutions : jsstr -> option jsstr.

Definition tag_text (name : jsstr) : jsstr := default [] (substitutions name).

(** [chunk.replace(..., this.replaceTag)] from an offset: the text, and
    [this.lastIndex] after the calls of [replaceTag]. *)
Fixpoint replace_tags (fuel : nat) (s : jsstr) (offset lastIndex : Z) : jsstr * Z :=
  match fuel with
  | O => ([], lastIndex)
  | S fuel =>
      match tag_at s with
      | Some (name, rest) =>
          let r := tag_text name in
          let '(t, l) := replace_tags fuel rest (offset + Z.of_nat (length name) + 4) (offset + Z.of_nat (length r)) in
          (r ++ t, l)
      | None =>
          match s with
          | [] => ([], lastIndex)
          | c :: rest => let '(t, l) := replace_tags fuel rest (offset + 1) lastIndex in (c :: t, l)
          end
      end
  end.

(** [transform(chunk, controller)]: [this.partialChunk] after it, and what it
    enqueues. *)
Definition transform (partialChunk chunk : jsstr) : jsstr * jsstr :=
  let chunk := partialChunk ++ chunk in
  let '(chunk, lastIndex) := replace_tags (S (length chunk)) chunk 0 0 in
  match exec_partial lastIndex chunk with
  | Some i => (drop i chunk, take i chunk)
  | None => ([], chunk)
  end.

(** [flush(controller)]. *)
Definition flush (partialChunk : jsstr) : list jsstr :=
  match partialChunk with [] => [] | _ => [partialChunk] end.

(** The chunks that come out, from a state and the chunks that go in. *)
Fixpoint fuzz_from (partialChunk : jsstr) (chunks : list jsstr) : list jsstr :=
  match chunks with
  | [] => flush partialChunk
  | c :: chunks => let '(p, out) := transform partialChunk c in out :: fuzz_from p chunks
  end.
Definition fuzz (chunks : list jsstr) : list jsstr := fuzz_from [] chunks.

End LipFuzzTransformer.

(** ** The test cases *)

Definition substitutions (name : jsstr) : option jsstr :=
  if str_eqb name (js "in1") then Some (js "out1")
  else if str_eqb name (js "in2") then Some (js "out2")
  else if str_eqb name (js "quine") then Some (js "{{quine}}")
  else if str_eqb name (js "bogusPartial") then Some (js "{{incompleteResult}")
  else None.

Definition case (input output : list string) : list jsstr * list jsstr := (map js input, map js output).

Definition lipFuzzTestCases : list (list jsstr * list jsstr) :=
  [case [""] [""]; case [] []; case ["{{in1}}"] ["out1"]; case ["z{{in1}}"] ["zout1"]; case ["{{in1}}q"] ["out1q"];
   case ["{{in1}}{{in1}"] ["out1"; "{{in1}"]; case ["{{in1}}{{in1}"; "}"] ["out1"; "out1"];
   case ["{{in1"; "}}"] [""; "out1"]; case ["{{"; "in1}}"] [""; "out1"]; case ["{"; "{in1}}"] [""; "out1"];
   case ["{{"; "in1}"] [""; ""; "{{in1}"]; case ["{"] [""; "{"]; case ["{"; ""] [""; ""; "{"];
   case ["{"; "{"; "i"; "n"; "1"; "}"; "}"] [""; ""; ""; ""; ""; ""; "out1"];
   case ["{{in1}}{{in2}}{{in1}}"] ["out1out2out1"]; case ["{{wrong}}"] [""]; case ["{{wron"; "g}}"] [""; ""];
   case ["{{quine}}"] ["{{quine}}"]; case ["{{bogusPartial}}"] ["{{incompleteResult}"];
   case ["{{bogusPartial}}}"] ["{{incompleteResult}}"]]%string.

(** ** The test of a case *)

Section LipFuzzTest.
Context {S : Type}.
(** [reader.read()] of the readable side. *)
Variable reader_read : comp S thrown iter_result.

(** [readerChain]: a read for every output chunk, and one more. *)
Fixpoint readerChain (outputChunks : list jsstr) : comp S thrown unit :=
  match outputChunks with
  | [] =>
      let! r := reader_read in
      fun s => (s, assert_true (Bool (done r)) (Str (js "done should be true")))
  | outputChunk :: outputChunks =>
      let! r := reader_read in
      do! (fun s => (s, assert_false (Bool (done r)) (Str (js "done should be false when reading " ++ outputChunk)))) in
      do! (fun s => (s, assert_equals (rvalue r) (Str outputChunk) (Str (js "value should match outputChunk")))) in
      readerChain outputChunks
  end.
End LipFuzzTest.

(** The readable side of [pipe]: the chunks to come. *)
Definition pipe_read : comp (list jsstr) thrown iter_result :=
  fun chunks => match chunks with
                | [] => ([], Ok (IterResult true Undefined))
                | c :: chunks => (chunks, Ok (IterResult false (Str c)))
                end.

(** The test of a case on [pipe]; [desc] is the text of its name. *)
Definition lip_test (desc : jsstr) (testCase : list jsstr * list jsstr) : result :=
  snd (promise_test (fun _ => readerChain pipe_read testCase.2) (Str desc) (fuzz substitutions testCase.1)).
