(* ===== verification/LipFuzzFacts.v ===== *)
(** [LipFuzzTransformer] replaces the tags of the whole text, however it is cut into
    chunks, as long as its record of the end of the last substitution is right; and
    inputs on which it is not. *)

From Stdlib Require Import String.
From stdpp Require Import base numbers list.
From S2P Require Import Prelude JsNumber JsValue Streams TestSuite PromiseTest LipFuzz.

Local Open Scope Z_scope.
Local Open Scope js_scope.

(** ** Tags *)

Definition tag (n : jsstr) : jsstr := 123 :: 123 :: n ++ [125; 125].
Definition is_name (n : jsstr) : Prop := n <> [] /\ Forall (fun c => name_char c = true) n.

Lemma length_tag n : length (tag n) = (length n + 4)%nat.
Proof. unfold tag. cbn [length]. rewrite length_app. cbn. lia. Qed.

Lemma name_prefix_spec s n r : name_prefix s = (n, r) <->
  s = n ++ r /\ Forall (fun c => name_char c = true) n /\ match r with c :: _ => name_char c = false | [] => True end.
Proof.
  revert n r. induction s as [|c s IH]; intros n r; cbn [name_prefix].
  - split; [intros [= <- <-]; auto|]. intros (E & _ & _). destruct n; [|discriminate]. cbn in E. subst. reflexivity.
  - destruct (name_char c) eqn:Hc.
    + destruct (name_prefix s) as [m q] eqn:E. split.
      * intros [= <- <-]. destruct (proj1 (IH m q) eq_refl) as (-> & F & Hq). auto.
      * intros (E' & F & Hr). destruct n as [|d n]; cbn in E'.
        -- subst r. congruence.
        -- injection E' as <- ->. apply Forall_cons in F as [_ F].
           assert (X : (m, q) = (n, r)) by (apply IH; auto). congruence.
    + split; [intros [= <- <-]; auto|]. intros (E' & F & _). destruct n as [|d n]; cbn in E'; [congruence|].
      injection E' as <- ->. apply Forall_cons in F as [F _]. congruence.
Qed.

Lemma name_prefix_run n r : Forall (fun c => name_char c = true) n ->
  match r with c :: _ => name_char c = false | [] => True end -> name_prefix (n ++ r) = (n, r).
Proof. intros F H. apply name_prefix_spec. auto. Qed.

Lemma tag_at_spec s n r : tag_at s = Some (n, r) <-> s = tag n ++ r /\ is_name n.
Proof.
  unfold tag, is_name. split.
  - destruct s as [|a [|b t]]; try discriminate. cbn [tag_at].
    destruct (Z.eqb_spec a 123) as [->|]; [|discriminate]. destruct (Z.eqb_spec b 123) as [->|]; [|discriminate]. cbn [andb].
    destruct (name_prefix t) as [m q] eqn:E. apply name_prefix_spec in E as (-> & F & _).
    destruct m as [|m0 m], q as [|c [|d q]]; try discriminate.
    destruct (Z.eqb_spec c 125) as [->|]; [|discriminate]. destruct (Z.eqb_spec d 125) as [->|]; [|discriminate].
    intros [= <- <-]. split; [|split; [discriminate|exact F]]. cbn. rewrite <- app_assoc. reflexivity.
  - intros (-> & N & F). cbn [tag_at app]. rewrite !Z.eqb_refl. cbn [andb]. rewrite <- app_assoc.
    rewrite name_prefix_run by (auto || reflexivity). destruct n; [contradiction|]. reflexivity.
Qed.

(** The parts of a tag that do not end it. *)
Lemma partial_spec s : partial_at s = true <->
  s = [123] \/ s = [123; 123] \/ (exists n, is_name n /\ (s = 123 :: 123 :: n \/ s = 123 :: 123 :: n ++ [125])).
Proof.
  unfold is_name. split.
  - destruct s as [|a [|b t]]; [discriminate| |].
    + cbn. intros H. apply Z.eqb_eq in H as ->. auto.
    + cbn [partial_at]. rewrite !andb_true_iff, !Z.eqb_eq. intros [[-> ->] H].
      destruct (name_prefix t) as [m q] eqn:E. apply name_prefix_spec in E as (-> & F & _).
      destruct m as [|m0 m], q as [|c [|d q]]; try discriminate; [auto|right; right..].
      * exists (m0 :: m). rewrite app_nil_r. split; [split; [discriminate|exact F]|auto].
      * apply Z.eqb_eq in H as ->. exists (m0 :: m). split; [split; [discriminate|exact F]|auto].
  - intros [->|[->|(n & (N & F) & [->| ->])]]; try reflexivity; cbn [partial_at]; rewrite !Z.eqb_refl; cbn [andb].
    + rewrite <- (app_nil_r n), name_prefix_run by auto. destruct n; [contradiction|reflexivity].
    + rewrite name_prefix_run by (auto || reflexivity). destruct n; [contradiction|reflexivity].
Qed.

(** A string that a longer one continues to a tag is a part of it. *)
Lemma tag_prefix_partial x w n r : tag_at (x ++ w) = Some (n, r) -> x <> [] -> (length x < length (tag n))%nat -> partial_at x = true.
Proof.
  intros T X L. apply tag_at_spec in T as (E & N). apply partial_spec.
  assert (P : x = take (length x) (tag n)).
  { apply (f_equal (take (length x))) in E. rewrite take_app_length, take_app_le in E by lia. exact E. }
  rewrite P. clear E P. rewrite length_tag in L. unfold tag.
  destruct x as [|a [|b x]]; [contradiction|left; reflexivity|right]. cbn [length] in *. cbn [take].
  destruct x as [|c x]; [left; reflexivity|right]. destruct N as [N F].
  destruct (decide (length (c :: x) <= length n)%nat).
  - exists (take (length (c :: x)) n). rewrite take_app_le by lia. split; [|left; reflexivity].
    split; [destruct n; [contradiction|discriminate]|apply Forall_take, F].
  - exists n. split; [split; assumption|right]. do 2 f_equal.
    rewrite take_app_ge by lia. cbn [length] in *. replace (S (length x) - length n)%nat with 1%nat by lia. reflexivity.
Qed.

(** A tag stays one when more text comes. *)
Lemma tag_at_app s n r t : tag_at s = Some (n, r) -> tag_at (s ++ t) = Some (n, r ++ t).
Proof. rewrite !tag_at_spec. intros (-> & N). rewrite <- app_assoc. auto. Qed.

Lemma tag_at_within u t n r : tag_at (u ++ t) = Some (n, r) -> (length (tag n) <= length u)%nat ->
  exists r', tag_at u = Some (n, r') /\ r = r' ++ t.
Proof.
  rewrite tag_at_spec. intros (E & N) L. exists (drop (length (tag n)) u).
  assert (P : u = tag n ++ drop (length (tag n)) u).
  { rewrite <- (take_drop (length (tag n)) u) at 1. f_equal. apply (f_equal (take (length (tag n)))) in E.
    rewrite take_app_le, take_app_length in E by lia. exact E. }
  split; [apply tag_at_spec; auto|]. rewrite P, <- app_assoc in E. apply app_inv_head in E. auto.
Qed.

(** ** Replacing the tags of a whole text *)

Section Facts.
Variable substitutions : jsstr -> option jsstr.
Abbreviation tag_text := (tag_text substitutions).
Abbreviation replace_tags := (replace_tags substitutions).

Lemma tag_at_shorter s n r : tag_at s = Some (n, r) -> (length r < length s)%nat.
Proof. intros H. apply tag_at_spec in H as (-> & _). rewrite length_app, length_tag. lia. Qed.

Lemma replace_fuel f : forall g s o l, (length s < f)%nat -> (length s < g)%nat -> replace_tags f s o l = replace_tags g s o l.
Proof.
  induction f as [|f IH]; intros g s o l F G; [lia|]. destruct g as [|g]; [lia|]. cbn [LipFuzz.replace_tags].
  destruct (tag_at s) as [[n r]|] eqn:T.
  - pose proof (tag_at_shorter s n r T). rewrite (IH g) by lia. reflexivity.
  - destruct s as [|c s]; [reflexivity|]. cbn [length] in *. rewrite (IH g) by lia. reflexivity.
Qed.

(** The text and the record of the last substitution. *)
Definition scan (s : jsstr) (o l : Z) : jsstr * Z := replace_tags (S (length s)) s o l.

Lemma scan_nil o l : scan [] o l = ([], l).
Proof. reflexivity. Qed.

Lemma scan_tag s n r o l : tag_at s = Some (n, r) ->
  scan s o l = let '(t, l) := scan r (o + Z.of_nat (length n) + 4) (o + Z.of_nat (length (tag_text n))) in (tag_text n ++ t, l).
Proof.
  intros T. unfold scan at 1. cbn [LipFuzz.replace_tags]. rewrite T. unfold scan.
  pose proof (tag_at_shorter s n r T). rewrite (replace_fuel _ (S (length r))) by lia. reflexivity.
Qed.

Lemma scan_char c s o l : tag_at (c :: s) = None -> scan (c :: s) o l = let '(t, l) := scan s (o + 1) l in (c :: t, l).
Proof. intros T. unfold scan at 1. cbn [LipFuzz.replace_tags]. rewrite T. reflexivity. Qed.

(** Induction along the scan of a text. *)
Lemma scan_ind (P : jsstr -> Prop) : P [] -> (forall c s, tag_at (c :: s) = None -> P s -> P (c :: s)) ->
  (forall s n r, tag_at s = Some (n, r) -> P r -> P s) -> forall s, P s.
Proof.
  intros N C T s. induction s as [s IH] using (induction_ltof1 _ (@length Z)). unfold ltof in IH.
  destruct (tag_at s) as [[n r]|] eqn:E.
  - apply (T s n r E), IH, (tag_at_shorter s n r E).
  - destruct s as [|c s]; [exact N|]. apply C; [exact E|]. apply IH. cbn. lia.
Qed.

(** [text.replace(regexp, tag_text)] on a whole text. *)
Definition replace_all (s : jsstr) : jsstr := fst (scan s 0 0).

Lemma scan_text s : forall o l, fst (scan s o l) = replace_all s.
Proof.
  unfold replace_all. pattern s. revert s. apply scan_ind.
  - reflexivity.
  - intros c s T IH o l. rewrite !scan_char by exact T. specialize (IH (o + 1) l) as E. specialize (IH (0 + 1) 0).
    destruct (scan s (o + 1) l), (scan s (0 + 1) 0). cbn in *. congruence.
  - intros s n r T IH o l. rewrite !(scan_tag _ _ _ _ _ T).
    specialize (IH (o + Z.of_nat (length n) + 4) (o + Z.of_nat (length (tag_text n)))) as E.
    specialize (IH (0 + Z.of_nat (length n) + 4) (0 + Z.of_nat (length (tag_text n)))).
    destruct (scan r (o + _ + 4) _), (scan r (0 + _ + 4) _). cbn in *. congruence.
Qed.

Lemma replace_all_tag s n r : tag_at s = Some (n, r) -> replace_all s = tag_text n ++ replace_all r.
Proof.
  intros T. unfold replace_all at 1. rewrite (scan_tag _ _ _ _ _ T).
  rewrite <- (scan_text r (0 + Z.of_nat (length n) + 4) (0 + Z.of_nat (length (tag_text n)))). destruct (scan _ _ _). reflexivity.
Qed.

Lemma replace_all_char c s : tag_at (c :: s) = None -> replace_all (c :: s) = c :: replace_all s.
Proof. intros T. unfold replace_all at 1. rewrite scan_char by exact T. rewrite <- (scan_text s (0 + 1) 0). destruct (scan _ _ _). reflexivity. Qed.

(** *** Cutting a text *)

(** No tag that starts in the first part ends past it. *)
Definition clean_cut (u w : jsstr) : Prop := forall v x n r, u = x ++ v -> v <> [] -> tag_at (v ++ w) = Some (n, r) ->
  (length (tag n) <= length v)%nat.

Lemma clean_cut_tail x u w : clean_cut (x ++ u) w -> clean_cut u w.
Proof. intros C v y n r -> V T. apply (C v (x ++ y) n r); [rewrite app_assoc; reflexivity|exact V|exact T]. Qed.

Lemma replace_all_cut u w : clean_cut u w -> replace_all (u ++ w) = replace_all u ++ replace_all w.
Proof.
  revert u. apply (scan_ind (fun u => clean_cut u w -> replace_all (u ++ w) = replace_all u ++ replace_all w)).
  - reflexivity.
  - intros c u T IH C. rewrite (replace_all_char c u T). cbn [app].
    assert (T' : tag_at (c :: u ++ w) = None).
    { destruct (tag_at (c :: u ++ w)) as [[n r]|] eqn:E; [exfalso|reflexivity].
      pose proof (C (c :: u) [] n r eq_refl ltac:(discriminate) E) as L.
      destruct (tag_at_within (c :: u) w n r E L) as (r' & E' & _). congruence. }
    rewrite (replace_all_char c _ T'). f_equal. apply IH, (clean_cut_tail [c]), C.
  - intros u n r T IH C. rewrite (replace_all_tag u n r T).
    rewrite (replace_all_tag _ n (r ++ w)) by apply tag_at_app, T. rewrite <- app_assoc. f_equal.
    apply IH. apply tag_at_spec in T as (-> & _). eapply clean_cut_tail, C.
Qed.

(** A text without tags. *)
Definition tagless (s : jsstr) : Prop := forall x v, s = x ++ v -> tag_at v = None.

Lemma replace_all_tagless s : tagless s -> replace_all s = s.
Proof.
  induction s as [|c s IH]; intros H; [reflexivity|]. rewrite replace_all_char by apply (H [] _ eq_refl). f_equal.
  apply IH. intros x v ->. apply (H (c :: x) v eq_refl).
Qed.

Lemma tagless_prefix u w : tagless (u ++ w) -> tagless u.
Proof.
  intros H x v ->. destruct (tag_at v) as [[n r]|] eqn:E; [|reflexivity].
  specialize (H x (v ++ w) ltac:(rewrite app_assoc; reflexivity)). rewrite (tag_at_app _ _ _ w E) in H. discriminate.
Qed.

(** Texts that end with the end of a tag, or are empty: nothing crosses their end. *)
Definition closed (a : jsstr) : Prop := a = [] \/ exists b, a = b ++ [125; 125].

Lemma partial_braces x v : partial_at (x ++ 125 :: v) = true -> v = [] /\ x <> [] /\ forall y, x <> y ++ [125].
Proof.
  assert (N : forall n y z, is_name n -> n = y ++ 125 :: z -> False).
  { intros n y z [_ F] ->. apply Forall_app in F as [_ F]. apply Forall_cons in F as [F _]. discriminate. }
  intros H. apply partial_spec in H as [E|[E|(n & Hn & [E|E])]].
  - destruct x as [|a [|b x]]; discriminate.
  - destruct x as [|a [|b [|c x]]]; discriminate.
  - destruct x as [|a [|b x]]; try discriminate. injection E as _ _ E. exfalso. eapply N; [exact Hn|symmetry; exact E].
  - destruct x as [|a [|b x]]; try discriminate. injection E as -> -> E.
    assert (V : v = []).
    { destruct v as [|d v _] using rev_ind; [reflexivity|]. exfalso. rewrite app_comm_cons, app_assoc in E.
      apply app_inj_tail in E as [E _]. eapply N; [exact Hn|symmetry; exact E]. }
    subst v. apply app_inj_tail in E as [-> _]. split; [reflexivity|]. split; [discriminate|]. intros y E.
    destruct y as [|e [|f y]]; try discriminate. injection E as _ _ E. eapply N; [exact Hn|exact E].
Qed.

Lemma closed_cut a w : closed a -> clean_cut a w.
Proof.
  intros [->|(b & ->)] v x n r E V T.
  { destruct x, v; try discriminate. contradiction. }
  destruct (Nat.le_gt_cases (length (tag n)) (length v)) as [L|L]; [exact L|exfalso].
  pose proof (tag_prefix_partial v w n r T V L) as P.
  destruct v as [|d v _] using rev_ind; [contradiction|]. rewrite app_assoc in E. change [125; 125] with ([125] ++ [125]) in E.
  rewrite app_assoc in E. apply app_inj_tail in E as [E <-]. apply partial_braces in P as (_ & X & Y).
  destruct v as [|d v _] using rev_ind; [contradiction|]. rewrite app_assoc in E. apply app_inj_tail in E as [_ <-].
  apply (Y v). reflexivity.
Qed.

Lemma closed_text a w : closed a -> replace_all (a ++ w) = replace_all a ++ replace_all w.
Proof. intros C. apply replace_all_cut, closed_cut, C. Qed.

(** How much longer than its tag each substitution is. *)
Fixpoint shifts_from (fuel : nat) (s : jsstr) : list Z :=
  match fuel with
  | O => []
  | S fuel =>
      match tag_at s with
      | Some (n, r) => (Z.of_nat (length (tag_text n)) - Z.of_nat (length (tag n))) :: shifts_from fuel r
      | None => match s with [] => [] | _ :: s => shifts_from fuel s end
      end
  end.
Definition shifts (s : jsstr) : list Z := shifts_from (S (length s)) s.

Definition sum (l : list Z) : Z := foldr Z.add 0 l.

(** The substitutions of a text before the last have the length of their tags, all
    together: then the record of where the last one ends is right. *)
Definition steady (s : jsstr) : Prop := sum (removelast (shifts s)) = 0.

Lemma shifts_fuel f : forall g s, (length s < f)%nat -> (length s < g)%nat -> shifts_from f s = shifts_from g s.
Proof.
  induction f as [|f IH]; intros g s F G; [lia|]. destruct g as [|g]; [lia|]. cbn [shifts_from].
  destruct (tag_at s) as [[n r]|] eqn:T.
  - pose proof (tag_at_shorter s n r T). rewrite (IH g) by lia. reflexivity.
  - destruct s as [|c s]; [reflexivity|]. cbn [length] in *. apply IH; lia.
Qed.

Lemma shifts_tag s n r : tag_at s = Some (n, r) ->
  shifts s = (Z.of_nat (length (tag_text n)) - Z.of_nat (length (tag n))) :: shifts r.
Proof.
  intros T. unfold shifts at 1. cbn [shifts_from]. rewrite T. f_equal. pose proof (tag_at_shorter s n r T).
  apply shifts_fuel; lia.
Qed.
Lemma shifts_char c s : tag_at (c :: s) = None -> shifts (c :: s) = shifts s.
Proof. intros T. unfold shifts at 1. cbn [shifts_from]. rewrite T. reflexivity. Qed.

(** A text up to the end of its last tag, and the rest. *)
Record decomposed (s a r : jsstr) : Prop := {
  dec_parts : s = a ++ r;
  dec_closed : closed a;
  dec_rest : tagless r;
  dec_empty : shifts s = [] <-> a = [];
  dec_last o l : snd (scan s o l) =
    match shifts s with [] => l | _ => o + Z.of_nat (length (replace_all a)) - sum (removelast (shifts s)) end }.

Lemma decompose s : exists a r, decomposed s a r.
Proof.
  pattern s. revert s. apply scan_ind.
  - exists [], []. split; try easy; [left; reflexivity|]. intros [|] [|] E; try discriminate. reflexivity.
  - intros c s T (a & r & [-> C R [E1 E2] L]). destruct (shifts (a ++ r)) as [|d ds] eqn:Sh.
    + rewrite (E1 eq_refl) in *. exists [], (c :: r). split; [reflexivity|left; reflexivity| | |].
      * intros [|x0 x] v E; cbn in E; [subst v; exact T|]. injection E as _ E. apply (R _ _ E).
      * cbn [app] in *. rewrite shifts_char, Sh by exact T. tauto.
      * intros o l. cbn [app] in *. rewrite shifts_char, Sh, scan_char by exact T. specialize (L (o + 1) l).
        destruct (scan r (o + 1) l). exact L.
    + assert (A : a <> []) by (intros A; specialize (E2 A); discriminate).
      assert (T' : tag_at (c :: a) = None).
      { destruct (tag_at (c :: a)) as [[n q]|] eqn:E; [|reflexivity].
        pose proof (tag_at_app (c :: a) n q r E) as X. cbn [app] in X. congruence. }
      exists (c :: a), r. cbn [app] in *. split; [reflexivity| |exact R| |].
      * right. destruct C as [C|(b & ->)]; [contradiction|]. exists (c :: b). reflexivity.
      * rewrite shifts_char, Sh by exact T. split; discriminate.
      * intros o l. rewrite shifts_char, Sh, scan_char, (replace_all_char c a) by assumption. specialize (L (o + 1) l).
        destruct (scan (a ++ r) (o + 1) l). cbn [snd] in *. rewrite L. cbn [length]. lia.
  - intros s n q T (a & r & [-> C R [E1 E2] L]). apply tag_at_spec in T as T'. destruct T' as [-> N].
    assert (Ta : tag_at (tag n ++ a) = Some (n, a)) by (apply tag_at_spec; auto).
    exists (tag n ++ a), r. split; [apply app_assoc| |exact R| |].
    + right. destruct C as [->|(b & ->)].
      * exists (123 :: 123 :: n). rewrite app_nil_r. reflexivity.
      * exists (tag n ++ b). rewrite app_assoc. reflexivity.
    + rewrite (shifts_tag _ _ _ T). split; discriminate.
    + intros o l. rewrite (shifts_tag _ _ _ T), (scan_tag _ _ _ _ _ T), (replace_all_tag _ _ _ Ta), length_app, length_tag.
      match goal with |- context [scan (a ++ r) ?o ?l] => specialize (L o l); destruct (scan (a ++ r) o l) as [t last] end.
      cbn [snd] in *. rewrite L. destruct (shifts (a ++ r)) as [|d ds].
      * rewrite (E1 eq_refl). cbn. lia.
      * change (removelast (?x :: d :: ds)) with (x :: removelast (d :: ds)). unfold sum. cbn [foldr]. lia.
Qed.

(** *** Where a text may be cut *)

Lemma find_partial_some s i : find_partial s = Some i -> (i < length s)%nat /\ partial_at (drop i s) = true /\
  forall x v, s = x ++ v -> (length x < i)%nat -> partial_at v = false.
Proof.
  revert i. induction s as [|c s IH]; intros i; [discriminate|]. cbn [find_partial]. destruct (partial_at (c :: s)) eqn:P.
  - intros [= <-]. cbn. split; [lia|]. split; [exact P|lia].
  - destruct (find_partial s) as [j|]; [|discriminate]. intros [= <-]. destruct (IH j eq_refl) as (L & D & F).
    split; [cbn; lia|]. split; [exact D|]. intros [|x0 x] v E H; cbn in E; [subst v; exact P|].
    injection E as _ E. apply (F x v E). cbn in H. lia.
Qed.

Lemma find_partial_none s : find_partial s = None -> forall x v, s = x ++ v -> partial_at v = false.
Proof.
  induction s as [|c s IH]; intros H x v E; cbn [find_partial] in H.
  - destruct x, v; try discriminate. reflexivity.
  - destruct (partial_at (c :: s)) eqn:P; [discriminate|]. destruct (find_partial s); [discriminate|].
    destruct x as [|x0 x]; cbn in E; [subst v; exact P|]. injection E as _ E. apply (IH eq_refl x v E).
Qed.

(** What begins inside a tag, past its first characters, is no part of a tag. *)
Lemma partial_inside_tag v p n q : partial_at p = true -> v <> [] -> v ++ p = tag n ++ q -> is_name n ->
  (length v < length (tag n))%nat -> False.
Proof.
  intros P V E [N F] L. destruct v as [|a [|b v]]; [contradiction| |].
  - destruct n as [|c n]; [contradiction|]. apply Forall_cons in F as [Hc _]. cbn in E. injection E as _ ->.
    apply partial_spec in P as [E|[E|(m & _ & [E|E])]]; injection E; intros; subst; discriminate.
  - assert (H : forall x z, n ++ [125; 125] = x ++ 123 :: z -> False).
    { intros x z X. assert (M : 123 ∈ n ++ [125; 125]) by (rewrite X; apply elem_of_app; right; left).
      apply elem_of_app in M as [M|M]; [|apply list_elem_of_In in M; cbn in M; lia].
      rewrite Forall_forall in F. specialize (F _ M). discriminate. }
    assert (P' : exists z, p = 123 :: z).
    { apply partial_spec in P as [->|[->|(m & _ & [->| ->])]]; eauto. }
    destruct P' as [z ->]. unfold tag in E, L. cbn [app length] in E, L. injection E as _ _ E.
    assert (Le : (length v < length (n ++ [125; 125]%Z))%nat) by (cbn in *; lia). clear L. revert E Le H.
    generalize (n ++ [125; 125]). intros e E Le H. apply (H v (take (length e - length v - 1) z)).
    apply (f_equal (take (length e))) in E. rewrite take_app_length, take_app_ge in E by lia.
    replace (length e - length v)%nat with (S (length e - length v - 1)) in E by lia. symmetry. exact E.
Qed.

Lemma cut_here a r i w : closed a -> (i <= length r)%nat ->
  (forall x v, r = x ++ v -> (length x < i)%nat -> partial_at v = false) -> (drop i r = [] \/ partial_at (drop i r) = true) ->
  clean_cut (a ++ take i r) (drop i r ++ w).
Proof.
  intros C Hi F D v x n q E V T. destruct (Nat.le_gt_cases (length (tag n)) (length v)) as [L|L]; [exact L|exfalso].
  rewrite app_assoc in T. destruct (Nat.le_gt_cases (length (tag n)) (length (v ++ drop i r))) as [L'|L'].
  - destruct D as [D|D]; [rewrite D, app_nil_r in L'; lia|].
    apply tag_at_within in T as (q' & T & _); [|exact L']. apply tag_at_spec in T as (T & N).
    eapply partial_inside_tag; eassumption.
  - assert (P : partial_at (v ++ drop i r) = true).
    { eapply tag_prefix_partial; [exact T| |exact L']. destruct v; [contradiction|discriminate]. }
    assert (S : (exists y, take i r = y ++ v) \/ (exists v', v = v' ++ take i r /\ a = x ++ v' /\ v' <> [])).
    { apply app_eq_inv in E as [(k & Ea & Ev)|(k & _ & Ev)]; [|left; exists k; exact Ev].
      destruct k as [|d k]; [left; exists []; symmetry; exact Ev|right; exists (d :: k); auto]. }
    destruct S as [[y R]|(v' & -> & Ea & Z)].
    + rewrite (F y (v ++ drop i r)) in P; [discriminate| |].
      * rewrite app_assoc, <- R. symmetry. apply take_drop.
      * apply (f_equal length) in R. rewrite length_app, length_take_le in R by exact Hi. destruct v; [contradiction|cbn in R; lia].
    + rewrite <- app_assoc, take_drop in P.
      destruct C as [->|(b & ->)]; [destruct x, v'; discriminate || contradiction|].
      destruct v' as [|d v' _] using rev_ind; [contradiction|]. change [125; 125] with ([125] ++ [125]) in Ea.
      rewrite !app_assoc in Ea. apply app_inj_tail in Ea as [Ea <-]. rewrite <- app_assoc in P.
      apply partial_braces in P as (_ & X & Y). destruct v' as [|e v' _] using rev_ind; [contradiction|].
      rewrite app_assoc in Ea. apply app_inj_tail in Ea as [_ <-]. apply (Y v'). reflexivity.
Qed.

(** ** The transformer *)

(** A call of [transform] on a steady text: what is enqueued is what the whole text
    gives up to there, and what is kept has no tag yet. *)
Lemma transform_step p c p' out : steady (p ++ c) -> transform substitutions p c = (p', out) ->
  tagless p' /\ forall w, replace_all (p ++ c ++ w) = out ++ replace_all (p' ++ w).
Proof.
  intros St. unfold transform. fold (scan (p ++ c) 0 0). destruct (decompose (p ++ c)) as (a & r & [E C R [E1 _] L]).
  pose proof (scan_text (p ++ c) 0 0) as Tx. specialize (L 0 0). destruct (scan (p ++ c) 0 0) as [t last]. cbn [fst snd] in *.
  assert (Tr : t = replace_all a ++ r).
  { rewrite Tx, E, closed_text by exact C. f_equal. apply replace_all_tagless, R. }
  assert (Lr : last = Z.of_nat (length (replace_all a))).
  { unfold steady in St. destruct (shifts (p ++ c)); [rewrite (E1 eq_refl)|]; cbn in *; lia. }
  clear Tx L E1 St. subst t last.
  unfold exec_partial. rewrite (proj2 (Z.ltb_ge _ _)) by (rewrite length_app; lia). rewrite Nat2Z.id, drop_app_length.
  assert (K : forall i, (i <= length r)%nat -> (forall x v, r = x ++ v -> (length x < i)%nat -> partial_at v = false) ->
     (drop i r = [] \/ partial_at (drop i r) = true) -> tagless (drop i r) /\
     forall w, replace_all (p ++ c ++ w) = (replace_all a ++ take i r) ++ replace_all (drop i r ++ w)).
  { intros i Hi F D. split.
    - intros x v X. apply (R (take i r ++ x)). rewrite <- app_assoc, <- X. symmetry. apply take_drop.
    - intros w. rewrite app_assoc, E. rewrite <- (take_drop i r) at 1. rewrite <- app_assoc, <- app_assoc, app_assoc.
      rewrite replace_all_cut by (apply cut_here; assumption). f_equal. rewrite closed_text by exact C. f_equal.
      apply replace_all_tagless. apply (tagless_prefix _ (drop i r)). rewrite take_drop. exact R. }
  destruct (find_partial r) as [i|] eqn:F; cbn [option_map]; intros [= <- <-].
  - apply find_partial_some in F as (Li & Pi & Fi). rewrite <- drop_drop, drop_app_length, take_app_add. apply K; [lia|exact Fi|right; exact Pi].
  - pose proof (find_partial_none r F) as Fn. specialize (K (length r)). rewrite drop_all, firstn_all in K.
    apply K; [lia|intros x v X _; apply (Fn x v X)|left; reflexivity].
Qed.

(** Every text [transform] replaces the tags of is steady. *)
Fixpoint steady_run (p : jsstr) (chunks : list jsstr) : Prop :=
  match chunks with
  | [] => True
  | c :: chunks => steady (p ++ c) /\ steady_run (fst (transform substitutions p c)) chunks
  end.

Lemma fuzz_from_text chunks : forall p, tagless p -> steady_run p chunks ->
  List.concat (fuzz_from substitutions p chunks) = replace_all (p ++ List.concat chunks).
Proof.
  induction chunks as [|c chunks IH]; intros p T St; cbn [fuzz_from List.concat].
  - rewrite app_nil_r, replace_all_tagless by exact T. destruct p; [reflexivity|]. cbn. rewrite app_nil_r. reflexivity.
  - destruct St as [St R]. destruct (transform substitutions p c) as [p' out] eqn:E. cbn [fst] in R.
    destruct (transform_step p c p' out St E) as [T' W]. cbn [List.concat]. rewrite W, (IH p' T' R). reflexivity.
Qed.

(** A text with at most one tag is steady, and so is every text when the
    substitutions are as long as their tags. *)
Lemma steady_one s : (length (shifts s) <= 1)%nat -> steady s.
Proof. unfold steady. destruct (shifts s) as [|d [|e l]]; cbn; [reflexivity|reflexivity|lia]. Qed.

Lemma steady_same s : (forall n, is_name n -> length (tag_text n) = length (tag n)) -> steady s.
Proof.
  intros H. unfold steady. assert (Z : Forall (eq 0) (shifts s)).
  { pattern s. revert s. apply scan_ind.
    - constructor.
    - intros c s T IH. rewrite shifts_char by exact T. exact IH.
    - intros s n r T IH. rewrite (shifts_tag s n r T). constructor; [|exact IH].
      apply tag_at_spec in T as [_ N]. rewrite (H n N). lia. }
  induction Z as [|d l <- Z IH]; [reflexivity|]. destruct l as [|e l]; [reflexivity|]. exact IH.
Qed.

Lemma steady_run_same chunks : (forall n, is_name n -> length (tag_text n) = length (tag n)) -> forall p, steady_run p chunks.
Proof. intros H. induction chunks as [|c chunks IH]; intros p; cbn; [exact I|]. split; [apply steady_same, H|apply IH]. Qed.

(** How many chunks come out: one for each chunk that goes in, and what [flush]
    adds. *)
Lemma fuzz_from_length chunks : forall p, 
  length (fuzz_from substitutions p chunks) = (length chunks + length (flush (fold_left (fun p c => fst (transform substitutions p c)) chunks p)))%nat.
Proof.
  induction chunks as [|c chunks IH]; intros p; [reflexivity|]. cbn [fuzz_from fold_left].
  destruct (transform substitutions p c) as [p' out]. cbn [length fst]. rewrite IH. reflexivity.
Qed.

End Facts.

(** C12: whatever the cuts of a text into chunks, the transformer gives in all the
    text whose tags have been replaced as [String.prototype.replace] does on the
    whole of it, provided that in every call of [transform] the substitutions before
    the last have, together, the length of the tags they replace: then the index it
    keeps is that of the end of the last one. *)
Theorem lipfuzz_chunking (subs : jsstr -> option jsstr) (chunks : list jsstr) : steady_run subs [] chunks ->
  List.concat (fuzz subs chunks) = replace_all subs (List.concat chunks).
Proof. intros H. apply (fuzz_from_text subs chunks [] (fun x v E => ltac:(destruct x, v; [reflexivity|discriminate..])) H). Qed.

Lemma lipfuzz_chunking_witness :
  List.concat (fuzz substitutions [js "a{{in"; js "1}"; js "}b{"; js "{in2}} {{wrong}"]) = js "aout1bout2 {{wrong}".
Proof.
  rewrite (lipfuzz_chunking substitutions [js "a{{in"; js "1}"; js "}b{"; js "{in2}} {{wrong}"]) by (repeat split; vm_compute; reflexivity).
  vm_compute. reflexivity.
Defined.

(** ** The test *)

(** The test of a case passes exactly when the chunks that come out are the output
    chunks of the case. *)
Lemma readerChain_pipe expected : forall chunks,
  snd (readerChain pipe_read expected chunks) = Ok tt <-> chunks = expected.
Proof.
  induction expected as [|o expected IH]; intros [|c chunks]; cbn [readerChain].
  - cbn. split; reflexivity.
  - cbn. split; discriminate.
  - cbn. split; discriminate.
  - unfold bind, pipe_read at 1. cbn [snd]. cbn [done rvalue].
    change (assert_false (Bool false) _) with (@Ok thrown unit tt). cbn.
    unfold assert_equals. cbn [strict_eq]. destruct (str_eqb_spec c o) as [->|N]; cbn.
    + rewrite IH. split; congruence.
    + split; [discriminate|congruence].
Qed.

Lemma lip_test_ok desc c : lip_test desc c = Ok tt <-> fuzz substitutions c.1 = c.2.
Proof.
  rewrite <- readerChain_pipe. unfold lip_test, promise_test, test.
  destruct (readerChain pipe_read c.2 (fuzz substitutions c.1)) as [s [[]|e]]; cbn; split; congruence.
Qed.

(** Every case of the test passes on a stream that pipes the chunks as the
    standard says, and the output chunks of the case are, put together, the input
    with its tags replaced. *)
Theorem lipfuzz_cases : Forall (fun c => (forall desc, lip_test desc c = Ok tt) /\
  List.concat c.2 = replace_all substitutions (List.concat c.1)) lipFuzzTestCases.
Proof. repeat constructor; try (intros desc; apply lip_test_ok); vm_compute; reflexivity. Qed.

(** The index that [replaceTag] keeps is that of the tag in the text before the
    substitutions: after shorter ones a cut tag is looked for too far on and lost,
    after longer ones a substituted text is taken for the beginning of a tag. *)
Example short_substitutions :
  fuzz substitutions [js "{{in1}}{{in1}}{{in"; js "1}}"] = [js "out1out1{{in"; js "1}}"] /\
  replace_all substitutions (js "{{in1}}{{in1}}{{in1}}") = js "out1out1out1".
Proof. split; vm_compute; reflexivity. Qed.

Example long_substitutions :
  let text := concat (repeat (js "{{bogusPartial}}") 8) in
  let done := concat (repeat (js "{{incompleteResult}") 8) in
  fuzz substitutions [text; js "}"] = [take 133 done; []] /\
  replace_all substitutions (text ++ js "}") = done ++ js "}".
Proof. split; vm_compute; reflexivity. Qed.
