(* ===== verification/AbortTest.v ===== *)
(** The test of [AbortController] and [AbortSignal]
    (test-suite/js-test-app/src/test-files/19-abort.js), and what it accepts.

    The two classes are native and are an argument, [api]: functions on a state of
    their own, which may answer and throw what they like. *)

From Stdlib Require Import String.
From stdpp Require Import base numbers list gmap.
From S2P Require Import Prelude JsNumber JsValue Streams TestSuite Async PromiseTest.

Local Open Scope Z_scope.
Local Open Scope js_scope.

(** ** Reasons *)

(** An error object: the [n]th the test made, or one of the runtime's. *)
Inductive error_object : Type := Made (n : nat) | Native (n : nat).

#[export] Instance object_eq_dec : EqDecision error_object.
Proof. solve_decision. Defined.

(** The reason of an abort: a primitive value or an error object. *)
Inductive reason_value : Type := Prim (v : val) | Object (o : error_object).

(** [a === b]. *)
Definition same_value (a b : reason_value) : bool :=
  match a, b with
  | Prim v, Prim w => strict_eq v w
  | Object o, Object p => bool_decide (o = p)
  | _, _ => false
  end.

(** A reason in a text. *)
Definition reason_text (a : reason_value) : val := match a with Prim v => v | Object _ => VObj [] None None end.

(** [assert_equals] of two reasons. *)
Definition assert_same (actual expected : reason_value) (m : val) : result :=
  assert (same_value actual expected)
    (MFn [Text "Expected "; PVal (reason_text expected); Text " but got "; PVal (reason_text actual); Text ": "; PVal m]).

(** ** The classes under test *)

Record api (N Sig : Type) : Type := Api {
  new_controller : comp N thrown nat;
  controller_signal : nat -> comp N thrown Sig;
  controller_abort : nat -> option reason_value -> comp N thrown unit;
  signal_abort : option reason_value -> comp N thrown Sig;
  signal_timeout : Z -> comp N thrown Sig;
  is_signal : Sig -> bool;
  aborted : Sig -> comp N thrown val;
  has_reason : Sig -> comp N thrown bool;
  reason : Sig -> comp N thrown reason_value;
  throwIfAborted : Sig -> comp N thrown unit;
  native_message : nat -> comp N thrown reason_value }.
Arguments new_controller {N Sig}. Arguments controller_signal {N Sig}. Arguments controller_abort {N Sig}.
Arguments signal_abort {N Sig}. Arguments signal_timeout {N Sig}. Arguments is_signal {N Sig}. Arguments aborted {N Sig}.
Arguments has_reason {N Sig}. Arguments reason {N Sig}. Arguments throwIfAborted {N Sig}. Arguments native_message {N Sig}.

(** ** The tests *)

Section AbortTest.
Context {N Sig : Type} (A : api N Sig).

(** The state of the classes, and the messages of the errors the test made. *)
Record state : Type := State { native : N; made : list jsstr }.

Abbreviation Run T := (comp state thrown T).

Definition ask {T} (m : comp N thrown T) : Run T :=
  fun s => let '(n, r) := m (native s) in (State n (made s), r).

Definition claim (r : result) : Run unit := fun s => (s, r).

(** [Error(message)]. *)
Definition new_error (message : jsstr) : Run reason_value :=
  fun s => (State (native s) (made s ++ [message]), Ok (Object (Made (length (made s))))).

(** [reason.message]. *)
Definition message_of (a : reason_value) : Run reason_value :=
  match a with
  | Prim v => if nullish v then throw (LangError "TypeError" "reason has no properties") else ret (Prim Undefined)
  | Object (Made i) => Prelude.read (fun s => match made s !! i with Some m => Prim (Str m) | None => Prim Undefined end)
  | Object (Native i) => ask (native_message A i)
  end.

Definition txt (s : string) : val := Str (js s).
Definition undefined_reason : reason_value := Prim Undefined.

Definition expect_aborted (s : Sig) (m : val) : Run unit := let! b := ask (aborted A s) in claim (assert_true b m).
Definition expect_live (s : Sig) (m : val) : Run unit := let! b := ask (aborted A s) in claim (assert_false b m).
Definition expect_reason (s : Sig) (expected : reason_value) (m : string) : Run unit :=
  let! r := ask (reason A s) in claim (assert_same r expected (txt m)).

(** The two assertions on the reason of a new signal. *)
Definition no_reason_yet (s : Sig) : Run unit :=
  do! (let! b := ask (has_reason A s) in claim (assert_true (Bool b) (txt "signal has reason property"))) in
  expect_reason s undefined_reason "signal.reason is initially undefined".

(** [assert_equals(s.reason.message, 'AbortError', ...)]. *)
Definition expect_abort_error (s : Sig) : Run unit :=
  let! r := ask (reason A s) in
  let! m := message_of r in
  claim (assert_same m (Prim (txt "AbortError")) (txt "signal.reason is AbortError")).

Definition abort_fires : Run unit :=
  let! c := ask (new_controller A) in
  let! s := ask (controller_signal A c) in
  do! expect_live s Undefined in
  do! no_reason_yet s in
  do! ask (controller_abort A c None) in
  do! expect_aborted s Undefined in
  do! expect_abort_error s in
  ask (controller_abort A c None).

Definition abort_twice : Run unit :=
  let! controller := ask (new_controller A) in
  let! signal := ask (controller_signal A controller) in
  do! ask (controller_abort A controller None) in
  do! expect_aborted signal Undefined in
  do! ask (controller_abort A controller None) in
  expect_aborted signal Undefined.

Definition abort_reason : Run unit :=
  let! controller := ask (new_controller A) in
  let! signal := ask (controller_signal A controller) in
  do! no_reason_yet signal in
  let! reason := new_error (js "hello") in
  do! ask (controller_abort A controller (Some reason)) in
  do! expect_aborted signal (txt "signal.aborted") in
  expect_reason signal reason "signal.reason".

(** The tests of [abort()] and [abort(undefined)]: they differ in the argument. *)
Definition abort_default (argument : option reason_value) : Run unit :=
  let! controller := ask (new_controller A) in
  let! signal := ask (controller_signal A controller) in
  do! no_reason_yet signal in
  do! ask (controller_abort A controller argument) in
  do! expect_aborted signal (txt "signal.aborted") in
  expect_abort_error signal.

Definition abort_null : Run unit :=
  let! controller := ask (new_controller A) in
  let! signal := ask (controller_signal A controller) in
  do! no_reason_yet signal in
  do! ask (controller_abort A controller (Some (Prim Null))) in
  do! expect_aborted signal (txt "signal.aborted") in
  expect_reason signal (Prim Null) "signal.reason".

Definition static_abort : Run unit :=
  let! signal := ask (signal_abort A None) in
  do! expect_aborted signal (txt "signal.aborted") in
  expect_abort_error signal.

Definition static_reason : Run unit :=
  let! reason := new_error (js "hello") in
  let! signal := ask (signal_abort A (Some reason)) in
  do! expect_aborted signal (txt "signal.aborted") in
  expect_reason signal reason "signal.reason".

(** The arguments of [assert_throws_js] are swapped: it calls the Error, which is
    no function, and the function that would throw is its message. *)
Definition throws_reason : Run unit :=
  let! reason := new_error (js "boom") in
  let! signal := ask (signal_abort A (Some reason)) in
  do! expect_aborted signal Undefined in
  claim (assert_throws_js (Throw (LangError "TypeError" "f is not a function")) (VObj [] None None)).

(** [assert] is not among the imports: after a call that does not throw, its name
    is a ReferenceError, caught like the reason. *)
Definition throws_primitive : Run unit :=
  let! signal := ask (signal_abort A (Some (Prim (txt "hello")))) in
  do! expect_aborted signal Undefined in
  fun s =>
    let attempt := (do! ask (throwIfAborted A signal) in throw (LangError "ReferenceError" "assert is not defined")) in
    match attempt s with
    | (s, Ok tt) => (s, Ok tt)
    | (s, Throw _) => expect_reason signal (Prim (txt "hello")) "Should throw primitive reason" s
    end.

Definition throws_nothing : Run unit :=
  let! controller := ask (new_controller A) in
  do! (let! signal := ask (controller_signal A controller) in expect_live signal Undefined) in
  let! signal := ask (controller_signal A controller) in
  ask (throwIfAborted A signal).

Definition same_reason : Run unit :=
  let! signal := ask (signal_abort A None) in
  let! a := ask (reason A signal) in
  let! b := ask (reason A signal) in
  claim (assert_same a b (txt "signal.reason returns the same DOMException")).

Definition same_controller_reason : Run unit :=
  let! controller := ask (new_controller A) in
  do! ask (controller_abort A controller None) in
  let! a := (let! signal := ask (controller_signal A controller) in ask (reason A signal)) in
  let! b := (let! signal := ask (controller_signal A controller) in ask (reason A signal)) in
  claim (assert_same a b (txt "signal.reason returns the same DOMException")).

Definition static_signal : Run unit :=
  let! signal := ask (signal_abort A None) in
  do! claim (assert_true (Bool (is_signal A signal)) (txt "returned object is an AbortSignal")) in
  expect_aborted signal (txt "returned signal is already aborted").

Definition timeout_signal : Run unit :=
  let! signal := ask (signal_timeout A 0) in
  do! claim (assert_true (Bool (is_signal A signal)) (txt "returned object is an AbortSignal")) in
  expect_live signal (txt "returned signal is not already aborted").

(** The tests of the file with their descriptions, in order. *)
Definition abort_tests : list (Run unit * string) :=
  [(abort_fires, "AbortController abort() should fire event synchronously");
   (abort_twice, "controller.abort() should do nothing the second time it is called");
   (abort_reason, "AbortController abort(reason) should set signal.reason");
   (abort_default None, "aborting AbortController without reason creates an AbortError DOMException");
   (abort_default (Some undefined_reason), "AbortController abort(undefined) creates an AbortError DOMException");
   (abort_null, "AbortController abort(null) should set signal.reason");
   (static_abort, "static aborting signal should have right properties");
   (static_reason, "static aborting signal with reason should set signal.reason");
   (throws_reason, "throwIfAborted() should throw abort.reason if signal aborted");
   (throws_primitive, "throwIfAborted() should throw primitive abort.reason if signal aborted");
   (throws_nothing, "throwIfAborted() should not throw if signal not aborted");
   (same_reason, "AbortSignal.reason returns the same DOMException");
   (same_controller_reason, "AbortController.signal.reason returns the same DOMException");
   (static_signal, "the AbortSignal.abort() static returns an already aborted signal");
   (timeout_signal, "AbortSignal.timeout() returns a non-aborted signal")]%string.

(** [test(f, desc)] for each in turn. *)
Fixpoint run_tests (l : list (Run unit * string)) : Run unit :=
  match l with
  | [] => ret tt
  | (f, desc) :: l => do! test (fun _ => f) (txt desc) in run_tests l
  end.

Definition handleRequest (n : N) : Z * (string + thrown) := respond (run_tests abort_tests (State n [])).2.

End AbortTest.
