(* ===== verification/AbortFacts.v ===== *)
(** What the test of aborting accepts. *)

From Stdlib Require Import String.
From stdpp Require Import base numbers list gmap.
From S2P Require Import Prelude JsNumber JsValue Streams TestSuite Async PromiseTest AbortTest.

Local Open Scope Z_scope.
Local Open Scope js_scope.

(** ** The classes as documented

    A controller and its signals show one source; its status is [None] until it is
    aborted, then the reason.  A controller may make a new signal object every time
    it is asked for one.  An abort without a reason has an error object of the
    runtime for its reason: the DOM standard fixes the name of that error and not
    its message, which is the parameter [text].  Nothing is said of what
    [throwIfAborted] answers for a signal that is aborted. *)
Section Documented.
Context {N Sig : Type} (A : api N Sig) (status : N -> nat -> option reason_value) (source : Sig -> nat)
  (text : nat -> jsstr).

Definition abort_error (n : N) (r : reason_value) : Prop :=
  exists o, r = Object (Native o) /\ native_message A o n = (n, Ok (Prim (Str (text o)))).

(** The reason an abort with an argument gives. *)
Definition reason_for (argument : option reason_value) (n : N) (r : reason_value) : Prop :=
  match argument with
  | None | Some (Prim Undefined) => abort_error n r
  | Some r' => r = r'
  end.

Class documented : Prop := {
  doc_new n : exists n' c, new_controller A n = (n', Ok c) /\ status n' c = None;
  doc_signal n c : exists n' s, controller_signal A c n = (n', Ok s) /\ source s = c /\ is_signal A s = true /\
    status n' c = status n c;
  doc_abort n c argument : exists n' r, controller_abort A c argument n = (n', Ok tt) /\ status n' c = Some r /\
    match status n c with Some r' => r = r' | None => reason_for argument n' r end;
  doc_static n argument : exists n' s r, signal_abort A argument n = (n', Ok s) /\ is_signal A s = true /\
    status n' (source s) = Some r /\ reason_for argument n' r;
  doc_timeout n ms : exists n' s, signal_timeout A ms n = (n', Ok s) /\ is_signal A s = true /\ status n' (source s) = None;
  doc_aborted n s : aborted A s n = (n, Ok (Bool (bool_decide (is_Some (status n (source s))))));
  doc_has_reason n s : has_reason A s n = (n, Ok true);
  doc_reason n s : reason A s n = (n, Ok (default (Prim Undefined) (status n (source s))));
  doc_throw n s : exists r, throwIfAborted A s n = (n, r) /\ (status n (source s) = None -> r = Ok tt) }.

Context {doc : documented}.

(** ** The steps of a test *)

(** A run that answers without an error, in a state that satisfies [P]. *)
Definition runs {T} (m : comp (state (N := N)) thrown T) (s : state (N := N)) (P : T -> state (N := N) -> Prop) : Prop :=
  exists s' a, m s = (s', Ok a) /\ P a s'.

Lemma runs_bind {T U} (m : comp (state (N := N)) thrown T) (k : T -> comp (state (N := N)) thrown U) s P :
  runs m s (fun a s' => runs (k a) s' P) -> runs (bind m k) s P.
Proof. intros (s1 & a & E & s2 & b & E' & H). exists s2, b. split; [|exact H]. unfold bind. rewrite E. exact E'. Qed.

Lemma runs_weaken {T} (m : comp (state (N := N)) thrown T) s (P Q : T -> state (N := N) -> Prop) :
  runs m s P -> (forall a s', P a s' -> Q a s') -> runs m s Q.
Proof. intros (s' & a & E & H) W. exists s', a. auto. Qed.

(** Where the source of a signal or a controller stands. *)
Abbreviation stands s c r := (status (native s) c = r).

Lemma runs_new s P : (forall n c, status n c = None -> P c (State n (made s))) -> runs (ask (new_controller A)) s P.
Proof.
  intros H. destruct (doc_new (native s)) as (n & c & E & Hc). exists (State n (made s)), c.
  split; [unfold ask; rewrite E; reflexivity|apply H, Hc].
Qed.

Lemma runs_signal c r s P : stands s c r ->
  (forall n g, source g = c -> status n c = r -> P g (State n (made s))) -> runs (ask (controller_signal A c)) s P.
Proof.
  intros R H. destruct (doc_signal (native s) c) as (n & g & E & Hg & _ & Hn). exists (State n (made s)), g.
  split; [unfold ask; rewrite E; reflexivity|apply H; [exact Hg|congruence]].
Qed.

Lemma runs_abort c argument s P : stands s c None ->
  (forall n r, status n c = Some r -> reason_for argument n r -> P tt (State n (made s))) ->
  runs (ask (controller_abort A c argument)) s P.
Proof.
  intros R H. destruct (doc_abort (native s) c argument) as (n & r & E & Hn & Hr). rewrite R in Hr.
  exists (State n (made s)), tt. split; [unfold ask; rewrite E; reflexivity|apply (H n r); assumption].
Qed.

Lemma runs_abort_again c r argument s P : stands s c (Some r) ->
  (forall n, status n c = Some r -> P tt (State n (made s))) -> runs (ask (controller_abort A c argument)) s P.
Proof.
  intros R H. destruct (doc_abort (native s) c argument) as (n & r' & E & Hn & Hr). rewrite R in Hr. subst r'.
  exists (State n (made s)), tt. split; [unfold ask; rewrite E; reflexivity|apply H, Hn].
Qed.

Lemma runs_static argument s P :
  (forall n g r, status n (source g) = Some r -> reason_for argument n r -> is_signal A g = true -> P g (State n (made s))) ->
  runs (ask (signal_abort A argument)) s P.
Proof.
  intros H. destruct (doc_static (native s) argument) as (n & g & r & E & Hi & Hn & Hr). exists (State n (made s)), g.
  split; [unfold ask; rewrite E; reflexivity|eapply H; eassumption].
Qed.

Lemma runs_timeout ms s P :
  (forall n g, status n (source g) = None -> is_signal A g = true -> P g (State n (made s))) ->
  runs (ask (signal_timeout A ms)) s P.
Proof.
  intros H. destruct (doc_timeout (native s) ms) as (n & g & E & Hi & Hn). exists (State n (made s)), g.
  split; [unfold ask; rewrite E; reflexivity|apply H; assumption].
Qed.

Lemma runs_error m s (P : reason_value -> state (N := N) -> Prop) :
  P (Object (Made (length (made s)))) (State (native s) (made s ++ [m])) -> runs (new_error m) s P.
Proof. intros H. eexists _, _. split; [reflexivity|exact H]. Qed.

Lemma runs_claim b m s (P : unit -> state (N := N) -> Prop) : b = true -> P tt s -> runs (claim (assert b m)) s P.
Proof. intros -> H. exists s, tt. split; [reflexivity|exact H]. Qed.

(** *** Assertions *)

Lemma runs_aborted g r m s (P : unit -> state (N := N) -> Prop) : stands s (source g) (Some r) -> P tt s ->
  runs (expect_aborted A g m) s P.
Proof.
  intros R H. destruct s as [n l]. cbn in R. exists (State n l), tt. split; [|exact H].
  unfold expect_aborted, bind, ask. cbn [native made]. rewrite doc_aborted, R. reflexivity.
Qed.

Lemma runs_live g m s (P : unit -> state (N := N) -> Prop) : stands s (source g) None -> P tt s -> runs (expect_live A g m) s P.
Proof.
  intros R H. destruct s as [n l]. cbn in R. exists (State n l), tt. split; [|exact H].
  unfold expect_live, bind, ask. cbn [native made]. rewrite doc_aborted, R. reflexivity.
Qed.

Lemma runs_reason g s (P : reason_value -> state (N := N) -> Prop) :
  P (default (Prim Undefined) (status (native s) (source g))) s -> runs (ask (reason A g)) s P.
Proof.
  intros H. destruct s as [n l]. eexists (State n l), _. split; [|exact H].
  unfold ask. cbn [native made]. rewrite doc_reason. reflexivity.
Qed.

Lemma runs_same a b m s (P : unit -> state (N := N) -> Prop) : same_value a b = true -> P tt s -> runs (claim (assert_same a b m)) s P.
Proof. apply runs_claim. Qed.

Lemma runs_expect g r e m s (P : unit -> state (N := N) -> Prop) :
  default (Prim Undefined) (status (native s) (source g)) = r -> same_value r e = true -> P tt s ->
  runs (expect_reason A g e m) s P.
Proof. intros R E H. apply runs_bind, runs_reason. rewrite R. apply runs_same; assumption. Qed.

Lemma runs_no_reason g s (P : unit -> state (N := N) -> Prop) : stands s (source g) None -> P tt s -> runs (no_reason_yet A g) s P.
Proof.
  intros R H. apply runs_bind. exists s, tt. split.
  - destruct s as [n l]. unfold bind, ask. cbn [native made]. rewrite doc_has_reason. reflexivity.
  - eapply runs_expect; [rewrite R; reflexivity|reflexivity|exact H].
Qed.

(** A run that throws. *)
Definition fails {T} (m : comp (state (N := N)) thrown T) (s : state (N := N)) : Prop := exists s' e, m s = (s', Throw e).

Lemma fails_bind {T U} (m : comp (state (N := N)) thrown T) (k : T -> comp (state (N := N)) thrown U) s :
  runs m s (fun a s' => fails (k a) s') -> fails (bind m k) s.
Proof. intros (s1 & a & E & s2 & e & E'). exists s2, e. unfold bind. rewrite E. exact E'. Qed.

Lemma fails_first {T U} (m : comp (state (N := N)) thrown T) (k : T -> comp (state (N := N)) thrown U) s :
  fails m s -> fails (bind m k) s.
Proof. intros (s1 & e & E). exists s1, e. unfold bind. rewrite E. reflexivity. Qed.

(** The message of the default reason is what the file calls its name. *)
Definition named_message : Prop := forall o, text o = js "AbortError".

Lemma fails_abort_error g r s : stands s (source g) (Some r) -> abort_error (native s) r ->
  (forall o, text o <> js "AbortError") -> fails (expect_abort_error A g) s.
Proof.
  intros R (o & -> & M) N0. apply fails_bind, runs_reason. rewrite R. cbn [default from_option]. unfold id.
  apply fails_bind. exists s, (Prim (Str (text o))). split.
  - destruct s as [n l]. unfold message_of, ask. cbn [native made] in *. rewrite M. reflexivity.
  - eexists _, _. unfold claim, assert_same, assert. cbn [same_value]. unfold txt. cbn [strict_eq].
    destruct (str_eqb_spec (text o) (js "AbortError")) as [E|_]; [destruct (N0 o E)|reflexivity].
Qed.

Section Named.
Hypothesis named : named_message.

Lemma runs_abort_error g r s (P : unit -> state (N := N) -> Prop) : stands s (source g) (Some r) -> abort_error (native s) r -> P tt s ->
  runs (expect_abort_error A g) s P.
Proof.
  intros R (o & -> & M) H. apply runs_bind, runs_reason. rewrite R. cbn [default from_option]. unfold id.
  apply runs_bind. exists s, (Prim (Str (js "AbortError"))). split.
  - destruct s as [n l]. unfold message_of, ask. cbn [native made] in *. rewrite M, named. reflexivity.
  - apply runs_same; [reflexivity|exact H].
Qed.

Lemma same_refl_object o : same_value (Object o) (Object o) = true.
Proof. apply bool_decide_eq_true_2. reflexivity. Qed.

(** ** The tests pass *)

Abbreviation passes f := (forall s, runs f s (fun _ _ => True)).

(** Take the step at the head of a test. *)
Ltac step :=
  first
    [ match goal with |- runs (bind _ _) _ _ => apply runs_bind end
    | apply runs_new; intros ? ? ?
    | eapply runs_signal; [cbn [native]; eassumption|intros ? ? ? ?]; subst
    | apply runs_abort; [cbn [native]; assumption|intros ? ? ? ?]
    | eapply runs_abort_again; [cbn [native]; eassumption|intros ? ?]
    | apply runs_static; intros ? ? ? ? ? ?
    | apply runs_timeout; intros ? ? ? ?
    | apply runs_error
    | eapply runs_aborted; [cbn [native]; eassumption|]
    | apply runs_live; [cbn [native]; assumption|]
    | apply runs_no_reason; [cbn [native]; assumption|]
    | eapply runs_abort_error; [cbn [native]; eassumption|cbn [native]; assumption|]
    | eapply runs_expect;
      [cbn [native]; match goal with R : status _ _ = _ |- _ => rewrite R end; reflexivity|subst; first [reflexivity|apply same_refl_object]|] ].
Ltac steps := intros; repeat (step; cbn [reason_for] in *); try exact I.

Lemma abort_fires_passes : passes (abort_fires A).
Proof. unfold abort_fires. steps. Qed.

Lemma abort_twice_passes : passes (abort_twice A).
Proof. unfold abort_twice. steps. Qed.

Lemma abort_reason_passes : passes (abort_reason A).
Proof. unfold abort_reason. steps. Qed.

Lemma abort_default_passes argument : argument = None \/ argument = Some undefined_reason -> passes (abort_default A argument).
Proof. intros [->| ->]; unfold abort_default; steps. Qed.

Lemma abort_null_passes : passes (abort_null A).
Proof. unfold abort_null. steps. Qed.

Lemma static_abort_passes : passes (static_abort A).
Proof. unfold static_abort. steps. Qed.

Lemma static_reason_passes : passes (static_reason A).
Proof. unfold static_reason. steps. Qed.

Lemma throws_reason_passes : passes (throws_reason A).
Proof. unfold throws_reason. steps. eexists _, tt. split; [reflexivity|exact I]. Qed.

Lemma runs_is_signal g m s (P : unit -> state (N := N) -> Prop) : is_signal A g = true -> P tt s ->
  runs (claim (assert_true (Bool (is_signal A g)) m)) s P.
Proof. intros -> H. exists s, tt. split; [reflexivity|exact H]. Qed.

Lemma static_signal_passes : passes (static_signal A).
Proof. unfold static_signal. steps. apply runs_is_signal; [assumption|]. steps. Qed.

Lemma timeout_signal_passes : passes (timeout_signal A).
Proof. unfold timeout_signal. steps. apply runs_is_signal; [assumption|]. steps. Qed.

(** A runtime's error is read as the same object twice. *)
Lemma abort_error_same n r : abort_error n r -> same_value r r = true.
Proof. intros (o & -> & _). apply same_refl_object. Qed.

Lemma same_reason_passes : passes (same_reason A).
Proof.
  unfold same_reason. steps. apply runs_reason, runs_bind, runs_reason. cbn [native] in *.
  match goal with R : status _ _ = Some _ |- _ => rewrite R end.
  apply runs_same; [eapply abort_error_same; eassumption|exact I].
Qed.

Lemma same_controller_reason_passes : passes (same_controller_reason A).
Proof.
  unfold same_controller_reason. steps. apply runs_reason. cbn [native]. steps. apply runs_reason. cbn [native].
  repeat match goal with R : source _ = _ |- _ => rewrite R; clear R end.
  repeat match goal with R : status _ _ = Some _ |- _ => rewrite R; clear R end.
  apply runs_same; [eapply abort_error_same; eassumption|exact I].
Qed.

(** Whatever the call of [throwIfAborted] does, the reason is what is compared. *)
Lemma throws_primitive_passes : passes (throws_primitive A).
Proof.
  unfold throws_primitive. intros s. apply runs_bind, runs_static. intros n g r R F _. cbn in F. subst r.
  apply runs_bind. eapply runs_aborted; [exact R|]. destruct (doc_throw n g) as (r & E & _).
  assert (X : runs (expect_reason A g (Prim (txt "hello")) "Should throw primitive reason") (State n (made s)) (fun _ _ => True)).
  { eapply runs_expect; [cbn [native]; rewrite R; reflexivity|reflexivity|exact I]. }
  unfold runs, bind, ask in *. cbn [native made]. rewrite E. destruct r as [[]|e]; exact X.
Qed.

Lemma throws_nothing_passes : passes (throws_nothing A).
Proof.
  unfold throws_nothing. steps. match goal with |- runs (ask (throwIfAborted A ?g)) (State ?n _) _ =>
    destruct (doc_throw n g) as (r & E & T) end.
  rewrite T in E by congruence. eexists _, tt. split; [unfold ask; cbn [native]; rewrite E; reflexivity|exact I].
Qed.

Lemma test_passes f desc s : passes f -> runs (test (fun _ => f) desc) s (fun _ _ => True).
Proof. intros H. destruct (H s) as (s' & a & E & _). exists s', a. split; [|exact I]. unfold test. rewrite E. reflexivity. Qed.

Lemma run_tests_pass l : Forall (fun t => passes t.1) l -> passes (run_tests l).
Proof.
  induction 1 as [|[f desc] l F _ IH]; intros s; cbn [run_tests].
  - exists s, tt. auto.
  - apply runs_bind. eapply runs_weaken; [apply test_passes, F|]. intros _ s' _. apply IH.
Qed.

Hint Resolve abort_fires_passes abort_twice_passes abort_reason_passes abort_null_passes static_abort_passes
  static_reason_passes throws_reason_passes throws_primitive_passes throws_nothing_passes same_reason_passes
  same_controller_reason_passes static_signal_passes timeout_signal_passes abort_default_passes : core.

Lemma tests_pass : Forall (fun t => passes t.1) (abort_tests A).
Proof. unfold abort_tests. repeat apply Forall_cons_2; cbn [fst]; auto. Qed.

End Named.

(** The first test asks for the message. *)
Lemma abort_fires_fails s : (forall o, text o <> js "AbortError") -> fails (abort_fires A) s.
Proof.
  intros N0. unfold abort_fires. apply fails_bind, runs_new. intros n c Hc.
  apply fails_bind. eapply runs_signal; [exact Hc|]. intros n1 g Hg Hn. subst c.
  apply fails_bind, runs_live; [exact Hn|]. apply fails_bind, runs_no_reason; [exact Hn|].
  apply fails_bind, runs_abort; [exact Hn|]. intros n2 r Hr F.
  apply fails_bind. eapply runs_aborted; [exact Hr|].
  apply fails_first. eapply fails_abort_error; [exact Hr|exact F|exact N0].
Qed.

(** C10: the test of aborting, on classes that abort as documented: a signal is live
    until its controller is aborted or it is made aborted, has then the reason
    given or an error of the runtime, keeps it, and shows it by the same object.
    The test answers a success when the message of the runtime's error is always
    "AbortError", and 500, from its first test on, when it never is: the file
    compares the message where the standard fixes the name. What
    [throwIfAborted] does with an aborted signal is left open in [documented]: the
    file has two tests of it, and neither can fail. *)
Theorem abort_response n :
  ((forall o, text o = js "AbortError") -> handleRequest A n = (200, inl "All tests passed!"%string)) /\
  ((forall o, text o <> js "AbortError") -> exists e,
     handleRequest A n = (500, inr (failed (txt "AbortController abort() should fire event synchronously") e))).
Proof.
  split.
  - intros H. destruct (run_tests_pass (abort_tests A) (tests_pass H) (State n [])) as (s & a & E & _).
    unfold handleRequest. rewrite E. reflexivity.
  - intros H. destruct (abort_fires_fails (State n []) H) as (s & e & E). exists e.
    unfold handleRequest, abort_tests. cbn [run_tests]. unfold bind at 1, test at 1. rewrite E. reflexivity.
Qed.
End Documented.

(** ** An implementation *)

(** The reasons of the sources that are aborted; [serial] numbers the sources and
    the signals, so that a controller makes a new signal every time. *)
Record runtime : Type := Runtime { reasons : list (nat * reason_value); serial : nat }.

Fixpoint status_in (l : list (nat * reason_value)) (c : nat) : option reason_value :=
  match l with
  | [] => None
  | (k, r) :: l => if Nat.eqb k c then Some r else status_in l c
  end.
Definition status_of (n : runtime) : nat -> option reason_value := status_in (reasons n).

Definition next (n : runtime) : nat := Nat.max (serial n) (S (list_max (map fst (reasons n)))).
Definition after (n : runtime) : runtime := Runtime (reasons n) (S (next n)).

Definition given (argument : option reason_value) (o : nat) : reason_value :=
  match argument with None | Some (Prim Undefined) => Object (Native o) | Some r => r end.

Definition set_reason (c : nat) (argument : option reason_value) (n : runtime) : runtime :=
  match status_of n c with
  | Some _ => n
  | None => Runtime ((c, given argument c) :: reasons n) (serial n)
  end.

(** [text] is the message of the errors of the runtime, and [throws] what
    [throwIfAborted] does with a signal that is aborted. *)
Definition sample_api (text : jsstr) (throws : reason_value -> result) : api runtime (nat * nat) :=
  {| new_controller := fun n => (after n, Ok (next n));
     controller_signal := fun c n => (after n, Ok (c, next n));
     controller_abort := fun c argument n => (set_reason c argument n, Ok tt);
     signal_abort := fun argument n => (set_reason (next n) argument (after n), Ok (next n, next n));
     signal_timeout := fun _ n => (after n, Ok (next n, next n));
     is_signal := fun _ => true;
     aborted := fun s n => (n, Ok (Bool (bool_decide (is_Some (status_of n s.1)))));
     has_reason := fun _ n => (n, Ok true);
     reason := fun s n => (n, Ok (default (Prim Undefined) (status_of n s.1)));
     throwIfAborted := fun s n => (n, match status_of n s.1 with Some r => throws r | None => Ok tt end);
     native_message := fun _ n => (n, Ok (Prim (Str text))) |}.

Lemma status_in_above l c : (list_max (map fst l) < c)%nat -> status_in l c = None.
Proof.
  induction l as [|[k r] l IH]; intros H; [reflexivity|].
  change (Nat.max k (list_max (map fst l)) < c)%nat in H. cbn [status_in].
  destruct (Nat.eqb_spec k c); [lia|]. apply IH. lia.
Qed.

Lemma next_live n : status_of n (next n) = None.
Proof. apply status_in_above. unfold next. lia. Qed.

Lemma status_set c argument n : status_of (set_reason c argument n) c =
  Some (match status_of n c with Some r => r | None => given argument c end).
Proof.
  unfold set_reason. destruct (status_of n c) eqn:E; [exact E|]. unfold status_of. cbn. rewrite Nat.eqb_refl. reflexivity.
Qed.

Lemma given_reason text throws argument n c : reason_for (sample_api text throws) (fun _ => text) argument n (given argument c).
Proof.
  destruct argument as [[v|o]|]; cbn; [destruct v; cbn; try reflexivity| reflexivity|]; exists c; split; reflexivity.
Qed.

#[export] Instance sample_documented text throws : documented (sample_api text throws) status_of fst (fun _ => text).
Proof.
  split; cbn.
  - intros n. exists (after n), (next n). split; [reflexivity|apply (next_live n)].
  - intros n c. exists (after n), (c, next n). auto.
  - intros n c argument. eexists _, _. split; [reflexivity|]. split; [apply status_set|].
    destruct (status_of n c); [reflexivity|apply given_reason].
  - intros n argument. eexists _, (next n, next n), _. split; [reflexivity|]. split; [reflexivity|].
    split; [apply status_set|]. change (status_of (after n)) with (status_of n). rewrite next_live. apply given_reason.
  - intros n ms. exists (after n), (next n, next n). split; [reflexivity|]. split; [reflexivity|apply (next_live n)].
  - reflexivity.
  - reflexivity.
  - reflexivity.
  - intros n s. eexists. split; [reflexivity|]. intros ->. reflexivity.
Qed.

(** Classes whose [throwIfAborted] never throws are accepted, and classes whose
    error has the message of the standard's text are not. *)
Lemma abort_response_witness :
  handleRequest (sample_api (js "AbortError") (fun _ => Ok tt)) (Runtime [] 0) = (200, inl "All tests passed!"%string) /\
  (handleRequest (sample_api (js "signal is aborted without reason") (fun _ => Ok tt)) (Runtime [] 0)).1 = 500.
Proof.
  split; [exact (proj1 (abort_response (sample_api (js "AbortError") (fun _ => Ok tt)) status_of fst (fun _ => js "AbortError")
    (Runtime [] 0)) (fun _ => eq_refl))|].
  destruct (proj2 (abort_response (sample_api (js "signal is aborted without reason") (fun _ => Ok tt)) status_of fst
    (fun _ => js "signal is aborted without reason") (Runtime [] 0)) ltac:(intros o; discriminate)) as [e E].
  rewrite E. reflexivity.
Defined.

(** A controller that does not abort is found out. *)
Definition deaf_api : api runtime (nat * nat) :=
  let a := sample_api (js "AbortError") (fun _ => Ok tt) in
  Api _ _ (new_controller a) (controller_signal a) (fun _ _ n => (n, Ok tt)) (signal_abort a) (signal_timeout a)
    (is_signal a) (aborted a) (has_reason a) (reason a) (throwIfAborted a) (native_message a).

Example deaf_response : (handleRequest deaf_api (Runtime [] 0)).1 = 500.
Proof. vm_compute. reflexivity. Qed.
