(* ===== verification/CacheTest.v ===== *)
(** The helpers of the test of the cache
    (test-suite/js-test-app/src/test-files/17-cache.js): caches of their own for
    every test, caches filled in advance, and the comparison of requests,
    responses and arrays of them.

    [caches], a cache's [put], [clone] and the constructors are native and are
    arguments. *)

From Stdlib Require Import String.
From stdpp Require Import base numbers list gmap pretty.
From S2P Require Import Prelude JsNumber JsValue Streams TestSuite Async PromiseTest.

Local Open Scope Z_scope.
Local Open Scope js_scope.

(** ** What is compared *)

(** The headers as iterating them gives them, a name and a value each. *)
Abbreviation headers := (list (jsstr * jsstr)).

Record request : Type := Request { request_url : jsstr; request_headers : headers }.

Record response : Type := Response {
  response_type : jsstr; response_url : jsstr; response_status : Z; response_ok : bool; response_statusText : jsstr;
  response_headers : headers }.

(** An argument of the assertions: an object of one of three classes, or a
    primitive value. *)
Inductive thing : Type :=
| Prim (v : val)
| AHeaders (l : headers)
| ARequest (r : request)
| AResponse (r : response).

Definition type_error (t : string) : thrown := LangError "TypeError" t.

(** The argument as [typeof] sees it, and [obj.constructor.name]. *)
Definition shown (t : thing) : val := match t with Prim v => v | _ => VObj [] None None end.

Definition class_name (t : thing) : outcome thrown jsstr :=
  match t with
  | AHeaders _ => Ok (js "Headers")
  | ARequest _ => Ok (js "Request")
  | AResponse _ => Ok (js "Response")
  | Prim v => if nullish v then Throw (type_error "constructor of null or undefined") else Ok (js "Object")
  end.

(** [actual[attribute]]. *)
Definition attribute (t : thing) (name : string) : outcome thrown val :=
  match t with
  | Prim v => if nullish v then Throw (type_error "property of null or undefined") else Ok Undefined
  | AHeaders _ => Ok Undefined
  | ARequest r => Ok (if String.eqb name "url" then Str (request_url r) else Undefined)
  | AResponse r => Ok (if String.eqb name "type" then Str (response_type r)
                       else if String.eqb name "url" then Str (response_url r)
                       else if String.eqb name "status" then Num (of_Z (response_status r))
                       else if String.eqb name "ok" then Bool (response_ok r)
                       else if String.eqb name "statusText" then Str (response_statusText r)
                       else Undefined)
  end.

(** [actual.headers]. *)
Definition get_headers (t : thing) : outcome thrown thing :=
  match t with
  | Prim v => if nullish v then Throw (type_error "property of null or undefined") else Ok (Prim Undefined)
  | AHeaders _ => Ok (Prim Undefined)
  | ARequest r => Ok (AHeaders (request_headers r))
  | AResponse r => Ok (AHeaders (response_headers r))
  end.

(** What [for (header of t)] gives for [header[0]] and [header[1]]; the elements
    of a string are its characters. *)
Definition iterate (t : thing) : outcome thrown headers :=
  match t with
  | AHeaders l => Ok l
  | Prim (Str s) => Ok (map (fun c => ([c], js "undefined")) s)
  | _ => Throw (type_error "not iterable")
  end.

(** A description that may be missing: as an argument, and in a text. *)
Definition as_arg (d : option jsstr) : val := match d with Some s => Str s | None => Undefined end.
Definition as_text (d : option jsstr) : jsstr := match d with Some s => s | None => js "undefined" end.

(** One assertion after another. *)
Definition andThen {A} (r : outcome thrown A) (k : A -> result) : result :=
  match r with Ok a => k a | Throw e => Throw e end.

Definition class_string (t : thing) (cls : string) (d : option jsstr) : result :=
  assert_class_string (fun _ => class_name t) (shown t) (js cls) (as_arg d).

Definition header_line (h : jsstr * jsstr) : jsstr := h.1 ++ js ": " ++ h.2.

Definition assert_header_equals (actual expected : thing) (description : option jsstr) : result :=
  andThen (class_string actual "Headers" description) (fun _ =>
  andThen (iterate actual) (fun actual =>
  andThen (iterate expected) (fun expected =>
  assert_array_equals (map (fun h => Str (header_line h)) actual) (map (fun h => Str (header_line h)) expected)
    (Str (as_text description ++ js " Headers differ."))))).

(** The loop over the names of attributes. *)
Fixpoint same_attributes (names : list string) (actual expected : thing) (description : option jsstr) : result :=
  match names with
  | [] => Ok tt
  | name :: names =>
      andThen (attribute actual name) (fun a =>
      andThen (attribute expected name) (fun e =>
      andThen (assert_equals a e (Str (as_text description ++ js " Attributes differ: " ++ js name ++ js "."))) (fun _ =>
      same_attributes names actual expected description)))
  end.

Definition same_headers (actual expected : thing) (description : option jsstr) : result :=
  andThen (get_headers actual) (fun a => andThen (get_headers expected) (fun e => assert_header_equals a e description)).

Definition assert_response_equals (actual expected : thing) (description : option jsstr) : result :=
  andThen (class_string actual "Response" description) (fun _ =>
  andThen (same_attributes ["type"; "url"; "status"; "ok"; "statusText"]%string actual expected description) (fun _ =>
  same_headers actual expected description)).

Definition assert_request_equals (actual expected : thing) (description : option jsstr) : result :=
  andThen (class_string actual "Request" description) (fun _ =>
  andThen (same_attributes ["url"%string] actual expected description) (fun _ =>
  same_headers actual expected description)).

(** ** Arrays *)

(** An argument that should be an array. *)
Inductive value : Type := One (t : thing) | Many (l : list thing).

Definition isArray (v : value) : bool := match v with Many _ => true | One _ => false end.
Definition elements (v : value) : list thing := match v with Many l => l | One _ => [] end.

Definition count {A} (l : list A) : val := Num (of_Z (Z.of_nat (length l))).

Definition assert_response_in_array (actual : thing) (expected_array : list thing) (description : option jsstr) : result :=
  assert_true (Bool (existsb (fun element => match assert_response_equals actual element None with Ok _ => true | Throw _ => false end)
                       expected_array)) (as_arg description).

Fixpoint for_each_thing (f : thing -> result) (l : list thing) : result :=
  match l with
  | [] => Ok tt
  | t :: l => andThen (f t) (fun _ => for_each_thing f l)
  end.

Definition assert_response_array_equivalent (actual : value) (expected : list thing) (description : option jsstr) : result :=
  andThen (assert_true (Bool (isArray actual)) (as_arg description)) (fun _ =>
  andThen (assert_equals (count (elements actual)) (count expected) (as_arg description)) (fun _ =>
  for_each_thing (fun expected_element => assert_response_in_array expected_element (elements actual) description) expected)).

(** [forEach] with the index; an element that is not there is [undefined]. *)
Fixpoint for_each_index (f : thing -> nat -> result) (l : list thing) (i : nat) : result :=
  match l with
  | [] => Ok tt
  | t :: l => andThen (f t i) (fun _ => for_each_index f l (S i))
  end.

Definition array_equals (equals : thing -> thing -> option jsstr -> result) (actual : value) (expected : list thing)
    (description : option jsstr) : result :=
  andThen (assert_true (Bool (isArray actual)) (as_arg description)) (fun _ =>
  andThen (assert_equals (count (elements actual)) (count expected) (as_arg description)) (fun _ =>
  for_each_index (fun value index =>
    equals value (default (Prim Undefined) (expected !! index))
      (Some (as_text description ++ js " : object[" ++ js (pretty index) ++ js "]"))) (elements actual) 0)).

Definition assert_response_array_equals : value -> list thing -> option jsstr -> result := array_equals assert_response_equals.
Definition assert_request_array_equals : value -> list thing -> option jsstr -> result := array_equals assert_request_equals.

(** ** Caches *)

Section Caches.
(** The native state and objects: caches, requests and responses. *)
Context {N Cache Req Res : Type}.

(** The native functions; [clone] throws on an object whose body has been used. *)
Record natives : Type := Natives {
  caches_delete : jsstr -> starts N thrown bool;
  caches_open : jsstr -> starts N thrown Cache;
  caches_keys : starts N thrown (list jsstr);
  cache_put : Cache -> Req -> Res -> starts N thrown unit;
  clone_request : Req -> comp N thrown Req;
  clone_response : Res -> comp N thrown Res }.
Variable native : natives.

(** [next_cache_index], and the native state. *)
Record world : Type := World { next_cache_index : Z; storage : N }.

Abbreviation Run A := (comp world thrown A).
Abbreviation Chain A := (async world thrown A).
Abbreviation Starts A := (starts world thrown A).

Definition in_storage {A} (m : comp N thrown A) : Run A :=
  fun w => let '(n, r) := m (storage w) in (World (next_cache_index w) n, r).

(** A native promise, which leaves the variables of the program alone. *)
Fixpoint native_promise {A} (p : async N thrown A) : Chain A :=
  match p with
  | Settled r => Settled r
  | Turn k => Turn (fun w => let '(n, p) := k (storage w) in (World (next_cache_index w) n, native_promise p))
  end.

Definition native_call {A} (f : starts N thrown A) : Starts A :=
  fun w => let '(n, p) := f (storage w) in (World (next_cache_index w) n, native_promise p).

Definition cache_name (index : Z) : jsstr := js "temporary_cache/" ++ js (pretty index).

(** [f().then(k)] and, in an [async] function, [await f()] and what follows. *)
Definition create_temporary_cache : Starts Cache :=
  first (modify (fun w => World (next_cache_index w + 1) (storage w))) (fun _ w =>
    let cache_name := cache_name (next_cache_index w) in
    await_call (native_call (caches_delete native cache_name)) (fun _ => native_call (caches_open native cache_name)) w).

Definition cache_test (test_function : Cache -> Starts unit) (description : jsstr) : Starts unit :=
  promise_test_chain
    (fun _ => await_call create_temporary_cache (fun cache => await_call (test_function cache) (fun _ => at_once (ret tt))))
    (Str description).

(** An object of [simple_entries] and [vary_entries]. *)
Record entry : Type := Entry { entry_name : jsstr; entry_request : Req; entry_response : Res }.

(** The callback of one entry; [catch] passes a fulfilled promise through. *)
Definition put_entry (cache : Cache) (e : entry) : Starts unit :=
  first (in_storage (clone_request native (entry_request e))) (fun rq =>
  first (in_storage (clone_response native (entry_response e))) (fun rs w =>
    let '(w, p) := native_call (cache_put native cache rq rs) w in
    (w, then_ p (fun _ => at_once (ret tt))
          (fun err => check (unreached [Text "Test setup failed for entry "; PVal (Str (entry_name e)); Text ": "; PThrown err]))))).

(** The turn of [entries.forEach]: the entry by its name, and the chain so far. *)
Definition add_entry (cache : Cache) (s : gmap jsstr entry * Chain unit) (e : entry) : gmap jsstr entry * Chain unit :=
  (<[entry_name e := e]> s.1, and_then s.2 (fun _ => put_entry cache e)).

Definition prepopulated_cache_test (entries : list entry) (test_function : Cache -> gmap jsstr entry -> Starts unit)
    (description : jsstr) : Starts unit :=
  cache_test (fun cache w =>
    let '(hash, p) := fold_left (add_entry cache) entries (∅, Settled (Ok tt)) in
    (w, and_then
          (and_then p (fun _ => check (assert_equals (Num (of_Z (Z.of_nat (size hash)))) (Num (of_Z (Z.of_nat (length entries)))) Undefined)))
          (fun _ => test_function cache hash))) description.

(** [delete_all_caches]: the promises it hands to [Promise.all]. *)
Definition winterJsBuiltInDefaultCacheName : jsstr := js "_____WINTERJS_DEFAULT_CACHE_____".

Fixpoint delete_each (keys : list jsstr) : Run (list (Chain bool)) :=
  match keys with
  | [] => ret []
  | key :: keys => fun w => let '(w, p) := native_call (caches_delete native key) w in
                            (let! ps := delete_each keys in ret (p :: ps)) w
  end.

Definition delete_all_caches : Starts (list (Chain bool)) :=
  await_call (native_call (caches_keys native)) (fun keys =>
    at_once (delete_each (filter (fun key => key <> winterJsBuiltInDefaultCacheName) keys))).

(** ** The entries *)

(** [new Request(url, { headers })], [new Response('', init)] and [Response.error()]. *)
Record response_init : Type := ResponseInit { init_status : option Z; init_statusText : option jsstr; init_headers : headers }.
Variable new_Request : jsstr -> headers -> Req.
Variable new_Response : jsstr -> response_init -> Res.
Variable Response_error : Res.

Definition no_init : response_init := ResponseInit None None [].
Definition plain_entry (name url : string) : entry := Entry (js name) (new_Request (js url) []) (new_Response [] no_init).

Definition simple_entries : list entry :=
  [plain_entry "a" "http://example.com/a";
   plain_entry "b" "http://example.com/b";
   plain_entry "a_with_query" "http://example.com/a?q=r";
   plain_entry "A" "http://example.com/A";
   plain_entry "a_https" "https://example.com/a";
   plain_entry "a_org" "http://example.org/a";
   plain_entry "cat" "http://example.com/cat";
   plain_entry "catmandu" "http://example.com/catmandu";
   plain_entry "cat_num_lives" "http://example.com/cat?lives=9";
   plain_entry "cat_in_the_hat" "http://example.com/cat/in/the/hat";
   Entry (js "non_2xx_response") (new_Request (js "http://example.com/non2xx") [])
     (new_Response [] (ResponseInit (Some 404) (Some (js "nope")) []));
   Entry (js "error_response") (new_Request (js "http://example.com/error") []) Response_error].

Definition vary_entry (name : string) (cookies : headers) : entry :=
  Entry (js name) (new_Request (js "http://example.com/c") cookies)
    (new_Response [] (ResponseInit None None [(js "Vary", js "Cookies")])).

Definition vary_entries : list entry :=
  [vary_entry "vary_cookie_is_cookie" [(js "Cookies", js "is-for-cookie")];
   vary_entry "vary_cookie_is_good" [(js "Cookies", js "is-good-enough-for-me")];
   vary_entry "vary_cookie_absent" []].

End Caches.
