(* ===== verification/CacheFacts.v ===== *)
(** What the helpers of the test of the cache guarantee. *)

From Stdlib Require Import Ascii String.
From stdpp Require Import base numbers list gmap pretty.
From S2P Require Import Prelude JsNumber JsValue Streams TestSuite TestFacts Async PromiseTest CacheTest.

Local Open Scope Z_scope.
Local Open Scope js_scope.

(** ** The comparisons *)

(** What two equal responses and two equal requests have in common. *)
Record response_key : Type := ResponseKey {
  key_type : jsstr; key_url : jsstr; key_status : Z; key_ok : bool; key_statusText : jsstr; key_lines : list jsstr }.

#[export] Instance response_key_eq_dec : EqDecision response_key.
Proof. solve_decision. Defined.

Definition key_of (r : response) : response_key :=
  ResponseKey (response_type r) (response_url r) (response_status r) (response_ok r) (response_statusText r)
    (map header_line (response_headers r)).

Definition request_key (r : request) : jsstr * list jsstr := (request_url r, map header_line (request_headers r)).

Lemma andThen_ok {A} (r : outcome thrown A) (k : A -> result) : andThen r k = Ok tt <-> exists a, r = Ok a /\ k a = Ok tt.
Proof. destruct r as [a|e]; cbn; split; [eauto|intros (b & [= <-] & H); exact H|discriminate|intros (b & H & _); discriminate]. Qed.

Lemma andThen_both (r q : result) : andThen r (fun _ => q) = Ok tt <-> r = Ok tt /\ q = Ok tt.
Proof. rewrite andThen_ok. split; [intros ([] & H); exact H|intros H; exists tt; exact H]. Qed.

Lemma andThen_run {A} (a : A) (k : A -> result) : andThen (Ok a) k = k a.
Proof. reflexivity. Qed.

Lemma strings_equal (l k : list jsstr) : Forall2 (fun x y => loose_eq x y = true) (map Str l) (map Str k) <-> l = k.
Proof.
  revert k. induction l as [|s l IH]; intros [|t k]; cbn [map]; try (split; intros H; (inversion H || discriminate); fail).
  - split; [reflexivity|constructor].
  - rewrite Forall2_cons, IH. cbn. unfold str_eqb, primitive. rewrite bool_decide_eq_true. split; [intros [-> ->]; reflexivity|intros [= -> ->]; auto].
Qed.

Lemma lines_equal a b m : assert_array_equals (map (fun h => Str (header_line h)) a) (map (fun h => Str (header_line h)) b) m = Ok tt <->
  map header_line a = map header_line b.
Proof.
  rewrite (proj1 (array_equals_spec _ _ m)).
  replace (map (fun h => Str (header_line h)) a) with (map Str (map header_line a)) by apply map_map.
  replace (map (fun h => Str (header_line h)) b) with (map Str (map header_line b)) by apply map_map. apply strings_equal.
Qed.

Lemma headers_equal a b d : assert_header_equals (AHeaders a) (AHeaders b) d = Ok tt <-> map header_line a = map header_line b.
Proof. apply lines_equal. Qed.

Lemma attribute_equal a b m (k : unit -> result) : andThen (assert_equals a b m) k = Ok tt <-> strict_eq a b = true /\ k tt = Ok tt.
Proof. rewrite andThen_ok. split; [intros ([] & H & K); apply assert_equals_ok in H; auto|intros [H K]; exists tt; rewrite assert_equals_ok; auto]. Qed.

Lemma str_equal s t : strict_eq (Str s) (Str t) = true <-> s = t.
Proof. apply bool_decide_eq_true. Qed.

Definition status_ok (r : response) : Prop := Z.abs (response_status r) <= 2 ^ 53.

Lemma response_class a d : class_string (AResponse a) "Response" d = Ok tt.
Proof. reflexivity. Qed.
Lemma request_class a d : class_string (ARequest a) "Request" d = Ok tt.
Proof. reflexivity. Qed.

Lemma response_equals a b d : status_ok a -> status_ok b ->
  assert_response_equals (AResponse a) (AResponse b) d = Ok tt <-> key_of a = key_of b.
Proof.
  intros Ha Hb. unfold assert_response_equals. rewrite response_class, andThen_run, andThen_both.
  unfold same_headers. cbn [get_headers]. rewrite !andThen_run, headers_equal. cbn [same_attributes attribute String.eqb Ascii.eqb Bool.eqb].
  rewrite !andThen_run. unfold key_of. split.
  - intros [H L]. rewrite !attribute_equal, !str_equal, strict_eq_num in H by assumption.
    destruct H as (-> & -> & H3 & H4 & -> & _). apply Z.eqb_eq in H3 as ->. apply eqb_prop in H4 as ->. rewrite L. reflexivity.
  - intros [= E1 E2 E3 E4 E5 L]. split; [|exact L].
    rewrite !attribute_equal, !str_equal, strict_eq_num by assumption. cbn [strict_eq].
    rewrite E1, E2, E3, E4, E5, Z.eqb_refl, eqb_reflx. auto 10.
Qed.

Lemma request_equals a b d : assert_request_equals (ARequest a) (ARequest b) d = Ok tt <-> request_key a = request_key b.
Proof.
  unfold assert_request_equals. rewrite request_class, andThen_run, andThen_both.
  unfold same_headers. cbn [get_headers]. rewrite !andThen_run, headers_equal. cbn [same_attributes attribute String.eqb Ascii.eqb Bool.eqb].
  rewrite !andThen_run. unfold request_key. split.
  - intros [H L]. rewrite attribute_equal, str_equal in H. destruct H as [-> _]. rewrite L. reflexivity.
  - intros [= E L]. split; [|exact L]. rewrite attribute_equal, str_equal. auto.
Qed.

(** *** Arrays *)

Lemma for_each_ok f l : for_each_thing f l = Ok tt <-> Forall (fun t => f t = Ok tt) l.
Proof.
  induction l as [|t l IH]; cbn [for_each_thing]; [split; [constructor|reflexivity]|].
  rewrite andThen_ok, Forall_cons, <- IH. split; [intros ([] & H & K); auto|intros [H K]; exists tt; auto].
Qed.

Lemma for_each_index_ok f l : forall i, for_each_index f l i = Ok tt <-> forall j t, l !! j = Some t -> f t (i + j)%nat = Ok tt.
Proof.
  induction l as [|t l IH]; intros i; cbn [for_each_index]; [split; [intros _ j t H; discriminate|reflexivity]|].
  rewrite andThen_ok. split.
  - intros ([] & H & K) [|j] u E; cbn in E.
    + injection E as <-. rewrite Nat.add_0_r. exact H.
    + rewrite Nat.add_succ_r. apply (proj1 (IH (S i)) K j u E).
  - intros H. exists tt. split; [rewrite <- (Nat.add_0_r i); apply (H 0%nat t eq_refl)|].
    apply IH. intros j u E. rewrite Nat.add_succ_l, <- Nat.add_succ_r. apply (H (S j) u E).
Qed.

Lemma count_equal {A B} (l : list A) (k : list B) : Z.of_nat (length l) <= 2 ^ 53 -> Z.of_nat (length k) <= 2 ^ 53 ->
  strict_eq (CacheTest.count l) (CacheTest.count k) = true <-> length l = length k.
Proof. intros Hl Hk. unfold CacheTest.count. rewrite strict_eq_num, Z.eqb_eq by lia. lia. Qed.

Lemma in_array a l d : status_ok a -> Forall status_ok l ->
  assert_response_in_array (AResponse a) (AResponse <$> l) d = Ok tt <-> key_of a ∈ key_of <$> l.
Proof.
  intros Ha Hl. unfold assert_response_in_array. rewrite assert_true_ok.
  assert (E : existsb (fun element => match assert_response_equals (AResponse a) element None with Ok _ => true | Throw _ => false end)
                (AResponse <$> l) = true <-> key_of a ∈ key_of <$> l).
  { rewrite existsb_exists, list_elem_of_fmap. setoid_rewrite <- list_elem_of_In. setoid_rewrite list_elem_of_fmap. split.
    - intros (t & (b & -> & Hb) & H). exists b. split; [|exact Hb]. rewrite Forall_forall in Hl.
      apply (response_equals a b None Ha (Hl b Hb)). destruct (assert_response_equals _ _ _) as [[]|]; [reflexivity|discriminate].
    - intros (b & E & Hb). exists (AResponse b). split; [eauto|]. rewrite Forall_forall in Hl.
      rewrite (proj2 (response_equals a b None Ha (Hl b Hb)) E). reflexivity. }
  rewrite <- E. split; [intros [= H]; exact H|intros ->; reflexivity].
Qed.

Lemma array_equals_keys {A K} (mk : A -> thing) (key : A -> K) equals (ok : A -> Prop) a e d :
  (forall x y d, ok x -> ok y -> equals (mk x) (mk y) d = Ok tt <-> key x = key y) ->
  Forall ok a -> Forall ok e -> Z.of_nat (length a) <= 2 ^ 53 -> Z.of_nat (length e) <= 2 ^ 53 ->
  array_equals equals (Many (mk <$> a)) (mk <$> e) d = Ok tt <-> key <$> a = key <$> e.
Proof.
  intros Heq Ha He La Le. unfold array_equals. cbn [isArray elements]. rewrite andThen_both.
  assert (T : assert_true (Bool true) (as_arg d) = Ok tt) by (apply assert_true_ok; reflexivity).
  rewrite andThen_both, assert_equals_ok, count_equal, !length_fmap, for_each_index_ok by (rewrite length_fmap; assumption).
  rewrite Forall_forall in Ha, He. split.
  - intros (_ & L & H). apply list_eq. intros j. rewrite !list_lookup_fmap.
    destruct (a !! j) as [x|] eqn:Ex; destruct (e !! j) as [y|] eqn:Ey; cbn; [|exfalso..|reflexivity].
    + specialize (H j (mk x)). cbn [plus] in H. rewrite !list_lookup_fmap, Ex, Ey in H. specialize (H eq_refl). cbn [default] in H. apply Heq in H; [congruence|apply Ha|apply He]; eapply list_elem_of_lookup_2; eassumption.
    + apply lookup_lt_Some in Ex. apply lookup_ge_None in Ey. lia.
    + apply lookup_lt_Some in Ey. apply lookup_ge_None in Ex. lia.
  - intros E. split; [exact T|]. assert (L : length a = length e) by (rewrite <- (length_fmap key a), E; apply length_fmap).
    split; [exact L|]. intros j t Hj. rewrite list_lookup_fmap in Hj. destruct (a !! j) as [x|] eqn:Ex; [|discriminate].
    injection Hj as <-. cbn [plus]. rewrite list_lookup_fmap. pose proof (f_equal (fun l => l !! j) E) as Ej. cbv beta in Ej.
    rewrite !list_lookup_fmap, Ex in Ej. destruct (e !! j) as [y|] eqn:Ey; [|discriminate]. injection Ej as Ej. cbn.
    apply Heq; [apply Ha|apply He|exact Ej]; eapply list_elem_of_lookup_2; eassumption.
Qed.

(** C14: the comparisons of arrays.  Two arrays of responses are accepted as equal
    exactly when their elements agree, place by place, in type, url, status, [ok],
    text and lines of headers, and two arrays of requests when they agree in url and
    headers; bodies do not count.  Two arrays of responses are accepted as
    equivalent exactly when they are as long and every expected response is among
    the actual ones, which for expected responses without duplicates makes the one
    array a permutation of the other. *)
Theorem array_comparisons a e ra re d :
  Forall status_ok a -> Forall status_ok e ->
  Z.of_nat (length a) <= 2 ^ 53 -> Z.of_nat (length e) <= 2 ^ 53 ->
  Z.of_nat (length ra) <= 2 ^ 53 -> Z.of_nat (length re) <= 2 ^ 53 ->
  (assert_response_array_equals (Many (AResponse <$> a)) (AResponse <$> e) d = Ok tt <-> key_of <$> a = key_of <$> e) /\
  (assert_request_array_equals (Many (ARequest <$> ra)) (ARequest <$> re) d = Ok tt <-> request_key <$> ra = request_key <$> re) /\
  (assert_response_array_equivalent (Many (AResponse <$> a)) (AResponse <$> e) d = Ok tt <->
     length a = length e /\ key_of <$> e ⊆ key_of <$> a) /\
  (NoDup (key_of <$> e) ->
     assert_response_array_equivalent (Many (AResponse <$> a)) (AResponse <$> e) d = Ok tt <-> key_of <$> a ≡ₚ key_of <$> e).
Proof.
  intros Ha He La Le Lra Lre.
  assert (E : assert_response_array_equivalent (Many (AResponse <$> a)) (AResponse <$> e) d = Ok tt <->
     length a = length e /\ key_of <$> e ⊆ key_of <$> a).
  { unfold assert_response_array_equivalent. cbn [isArray elements].
    rewrite !andThen_both, assert_true_ok, assert_equals_ok, count_equal, !length_fmap, for_each_ok, Forall_fmap by (rewrite length_fmap; assumption).
    assert (F : Forall ((fun t => assert_response_in_array t (AResponse <$> a) d = Ok tt) ∘ AResponse) e <-> key_of <$> e ⊆ key_of <$> a).
    { rewrite Forall_forall in He |- *. split.
      - intros H k Hk. apply list_elem_of_fmap in Hk as (x & -> & Hx). apply (in_array x a d (He x Hx) Ha), H, Hx.
      - intros H x Hx. apply (in_array x a d (He x Hx) Ha), H, list_elem_of_fmap. eauto. }
    rewrite F. tauto. }
  split; [apply (array_equals_keys AResponse key_of _ status_ok); try assumption; apply response_equals|].
  split; [apply (array_equals_keys ARequest request_key _ (fun _ => True)); try apply Forall_forall; try assumption; auto; intros; apply request_equals|].
  split; [exact E|]. intros N. rewrite E. split.
  - intros [L S]. symmetry. apply submseteq_length_Permutation; [apply NoDup_submseteq; [exact N|exact S]|].
    rewrite !length_fmap. lia.
  - intros P. split; [rewrite <- (length_fmap key_of a), P; apply length_fmap|]. intros k Hk. rewrite P. exact Hk.
Qed.

Definition sample_response (status : Z) : response := Response (js "default") [] status true [] [(js "Vary", js "Cookies")].

Lemma array_comparisons_witness :
  assert_response_array_equivalent (Many (AResponse <$> [sample_response 200; sample_response 204]))
    (AResponse <$> [sample_response 204; sample_response 200]) None = Ok tt /\
  assert_response_array_equals (Many (AResponse <$> [sample_response 200; sample_response 204]))
    (AResponse <$> [sample_response 204; sample_response 200]) None <> Ok tt.
Proof.
  destruct (array_comparisons [sample_response 200; sample_response 204] [sample_response 204; sample_response 200] [] [] None)
    as (E & _ & _ & Q); try (repeat apply Forall_cons_2; try apply Forall_nil_2; unfold status_ok); try (cbn; lia).
  split.
  - apply Q; [|apply Permutation_swap]. cbn. apply NoDup_cons_2; [|apply NoDup_singleton]. intros H.
    apply list_elem_of_singleton in H. discriminate.
  - rewrite E. discriminate.
Defined.

(** ** Caches filled in advance *)

Lemma js_inj s t : js s = js t -> s = t.
Proof.
  unfold js. intros E. rewrite <- (string_of_list_ascii_of_string s), <- (string_of_list_ascii_of_string t). f_equal.
  revert E. generalize (list_ascii_of_string s), (list_ascii_of_string t). intros l. induction l as [|c l IH]; intros [|d k] E; try discriminate; [reflexivity|].
  cbn in E. injection E as E1 E2. apply N2Z.inj in E1. rewrite <- (ascii_N_embedding c), <- (ascii_N_embedding d), E1. f_equal. apply IH, E2.
Qed.

Section Prepopulated.
Context {N Cache Req Res : Type} (native : @natives N Cache Req Res).

Abbreviation entry := (@entry Req Res).
Abbreviation Run A := (comp (@world N) thrown A).

(** The entries by their names: the last of a name counts. *)
Definition by_name (entries : list entry) : gmap jsstr entry := fold_left (fun h e => <[entry_name e := e]> h) entries ∅.

(** The puts, one after the other. *)
Fixpoint put_all (cache : Cache) (entries : list entry) : Run unit :=
  match entries with
  | [] => ret tt
  | e :: entries => do! run_alone (put_entry native cache e) in put_all cache entries
  end.

(** The test as code without promises. *)
Definition prepopulated (entries : list entry) (test_function : Cache -> gmap jsstr entry -> starts (@world N) thrown unit) (description : jsstr) : Run unit :=
  test (fun _ =>
    let! cache := run_alone (create_temporary_cache native) in
    do! put_all cache entries in
    do! (fun w => (w, assert_equals (Num (of_Z (Z.of_nat (size (by_name entries))))) (Num (of_Z (Z.of_nat (length entries)))) Undefined)) in
    run_alone (test_function cache (by_name entries))) (Str description).

Lemma fold_entries cache entries : forall h p s,
  (fold_left (add_entry native cache) entries (h, p)).1 = fold_left (fun h e => <[entry_name e := e]> h) entries h /\
  settle_alone (fold_left (add_entry native cache) entries (h, p)).2 s = bind (settle_alone p) (fun _ => put_all cache entries) s.
Proof.
  induction entries as [|e entries IH]; intros h p s; cbn [fold_left put_all].
  - split; [reflexivity|]. cbn [snd]. unfold bind. destruct (settle_alone p s) as [s' [[]|x]]; reflexivity.
  - unfold add_entry at 2 4. cbn [fst snd]. destruct (IH (<[entry_name e := e]> h) (and_then p (fun _ => put_entry native cache e)) s) as [E1 E2].
    split; [exact E1|]. rewrite E2. unfold bind at 1. rewrite settle_and_then. unfold bind.
    destruct (settle_alone p s) as [s' [[]|x]]; [|reflexivity].
    destruct (run_alone (put_entry native cache e) s') as [s'' [[]|x]]; reflexivity.
Qed.

Lemma prepopulated_run entries test_function description w :
  run_alone (prepopulated_cache_test native entries test_function description) w = prepopulated entries test_function description w.
Proof.
  unfold prepopulated_cache_test, cache_test, prepopulated, run_alone at 1. rewrite promise_test_alone.
  unfold promise_test, test.
  set (body := fun cache : Cache => _ : starts world thrown unit).
  change (let '(s', p) := await_call (create_temporary_cache native) body w in settle_alone p s')
    with (run_alone (await_call (create_temporary_cache native) body) w).
  rewrite run_await.
  erewrite (bind_ext _ (run_alone (create_temporary_cache native)) _
    (fun cache => do! put_all cache entries in
       do! (fun w => (w, assert_equals (Num (of_Z (Z.of_nat (size (by_name entries))))) (Num (of_Z (Z.of_nat (length entries)))) Undefined)) in
       run_alone (test_function cache (by_name entries)))); [reflexivity|reflexivity|].
  intros cache s. unfold body. rewrite run_await.
  destruct (fold_left (add_entry native cache) entries (∅, Settled (Ok tt))) as [h p] eqn:F.
  destruct (fold_entries cache entries ∅ (Settled (Ok tt)) s) as [E1 E2]. rewrite F in E1, E2. cbn [fst snd] in E1, E2. subst h.
  unfold bind at 1, run_alone at 1. rewrite !settle_and_then. unfold bind. rewrite !settle_and_then. unfold bind. rewrite E2. unfold bind. cbn [settle_alone].
  fold (by_name entries).
  destruct (put_all cache entries s) as [s1 [[]|x]]; [|reflexivity]. unfold run_alone, check, at_once. cbn [settle_alone].
  destruct (assert_equals _ _ _) as [[]|x]; [|reflexivity].
  destruct (test_function cache (by_name entries) s1) as [s2 q]. destruct (settle_alone q s2) as [s3 [[]|x]]; reflexivity.
Qed.

Lemma set_union_in x (l : list jsstr) : x ∈ l -> list_to_set (C := gset jsstr) (x :: l) = list_to_set l.
Proof. intros Hx. cbn. apply subseteq_union_1_L, singleton_subseteq_l, elem_of_list_to_set, Hx. Qed.
Lemma set_union_new x (l : list jsstr) : x ∉ l -> size (list_to_set (C := gset jsstr) (x :: l)) = S (size (list_to_set (C := gset jsstr) l)).
Proof.
  intros Hx. cbn. rewrite size_union by (apply disjoint_singleton_l; rewrite elem_of_list_to_set; exact Hx).
  rewrite size_singleton. reflexivity.
Qed.

Lemma size_set_le (l : list jsstr) : (size (list_to_set (C := gset jsstr) l) <= length l)%nat.
Proof.
  induction l as [|x l IH]; [cbn; rewrite size_empty; lia|]. destruct (decide (x ∈ l)) as [Hx|Hx].
  - rewrite set_union_in by exact Hx. cbn. lia.
  - rewrite set_union_new by exact Hx. cbn. lia.
Qed.

Lemma size_set (l : list jsstr) : size (list_to_set (C := gset jsstr) l) = length l <-> NoDup l.
Proof.
  split; [|apply size_list_to_set].
  induction l as [|x l IH]; intros E; [constructor|]. destruct (decide (x ∈ l)) as [Hx|Hx].
  - rewrite set_union_in in E by exact Hx. pose proof (size_set_le l). cbn in E. lia.
  - rewrite set_union_new in E by exact Hx. constructor; [exact Hx|apply IH; cbn in E; lia].
Qed.

Lemma fold_dom (es : list entry) : forall h : gmap jsstr entry,
  dom (fold_left (fun h e => <[entry_name e := e]> h) es h) = dom h ∪ list_to_set (entry_name <$> es).
Proof.
  induction es as [|e es IH]; intros h; cbn [fold_left fmap list_fmap list_to_set]; [rewrite union_empty_r_L; reflexivity|].
  rewrite IH, dom_insert_L, (union_comm_L _ (dom h)), <- (assoc_L (∪)). reflexivity.
Qed.

Lemma by_name_size es : size (by_name es) = length es <-> NoDup (entry_name <$> es).
Proof.
  rewrite <- size_set, <- size_dom. unfold by_name. rewrite fold_dom, dom_empty_L, union_empty_l_L, length_fmap. reflexivity.
Qed.

Lemma fold_other (es : list entry) : forall (h : gmap jsstr entry) k, k ∉ entry_name <$> es ->
  fold_left (fun h e => <[entry_name e := e]> h) es h !! k = h !! k.
Proof.
  induction es as [|e es IH]; intros h k Hk; cbn [fold_left]; [reflexivity|]. cbn in Hk. apply not_elem_of_cons in Hk as [Nk Hk].
  rewrite IH by exact Hk. apply lookup_insert_ne. congruence.
Qed.

Lemma by_name_lookup es e : NoDup (entry_name <$> es) -> e ∈ es -> by_name es !! entry_name e = Some e.
Proof.
  unfold by_name. generalize (∅ : gmap jsstr entry). induction es as [|x es IH]; intros h D He; [inversion He|].
  cbn [fold_left]. cbn in D. apply NoDup_cons in D as [Nx D]. apply elem_of_cons in He as [->|He]; [|apply IH; assumption].
  rewrite fold_other by exact Nx. apply lookup_insert_eq.
Qed.

(** The error of entries that share a name. *)
Definition names_clash (entries : list entry) : thrown :=
  NewError [Text "Expected "; PVal (Num (of_Z (Z.of_nat (length entries)))); Text " but got ";
            PVal (Num (of_Z (Z.of_nat (size (by_name entries))))); Text ": "; PVal Undefined].

(** A test on a cache filled in advance does what its code says without
    promises: it makes a cache of a name no other test gets, puts the entries one
    after the other in the order of the list, each a failure of the test when it
    fails, and runs the test function on the cache and the entries by their names;
    two entries of one name fail the test before its function runs. *)
Theorem prepopulated_cache entries test_function description w : Z.of_nat (length entries) <= 2 ^ 53 ->
  run_alone (prepopulated_cache_test native entries test_function description) w =
    test (fun _ =>
      let! cache := run_alone (create_temporary_cache native) in
      do! put_all cache entries in
      if decide (NoDup (entry_name <$> entries)) then run_alone (test_function cache (by_name entries))
      else throw (names_clash entries)) (Str description) w /\
  (NoDup (entry_name <$> entries) -> forall e, e ∈ entries -> by_name entries !! entry_name e = Some e) /\
  (forall i j, cache_name i = cache_name j -> i = j).
Proof.
  intros L. split; [|split; [intros D e; apply by_name_lookup, D|]].
  - rewrite prepopulated_run. unfold prepopulated, test. erewrite (bind_ext _ (run_alone (create_temporary_cache native))); [reflexivity|reflexivity|].
    intros cache s. apply bind_ext; [reflexivity|]. intros [] s1. unfold bind.
    assert (B : (size (by_name entries) <= length entries)%nat).
    { rewrite <- size_dom. unfold by_name. rewrite fold_dom, dom_empty_L, union_empty_l_L, <- (length_fmap entry_name entries).
      apply size_set_le. }
    unfold assert_equals, assert. rewrite strict_eq_num by lia. pose proof (by_name_size entries) as E.
    destruct (decide (NoDup (entry_name <$> entries))) as [D|D].
    + rewrite (proj2 E D), Z.eqb_refl. reflexivity.
    + destruct (Z.eqb_spec (Z.of_nat (size (by_name entries))) (Z.of_nat (length entries))) as [Q|Q]; [|reflexivity].
      destruct D. apply E. lia.
  - intros i j E. unfold cache_name in E. apply app_inv_head in E.
    apply (inj pretty). apply js_inj, E.
Qed.
End Prepopulated.

(** ** Instances *)

(** The entries of the file have names of their own. *)
Lemma entries_apart {Req Res} (q : jsstr -> headers -> Req) (p : jsstr -> response_init -> Res) r :
  NoDup (entry_name <$> simple_entries q p r) /\ NoDup (entry_name <$> vary_entries q p).
Proof. split; apply (bool_decide_unpack _); vm_compute; exact I. Qed.

(** Caches that write down what is asked of them. *)
Definition sample_natives : @natives (list jsstr) unit jsstr unit :=
  Natives (fun _ => at_once (ret true)) (fun name => at_once (do! modify (fun l => l ++ [name]) in ret tt)) (at_once (ret []))
    (fun _ rq _ => at_once (modify (fun l => l ++ [rq]))) ret ret.

Lemma prepopulated_cache_witness :
  run_alone (prepopulated_cache_test sample_natives (vary_entries (fun url _ => url) (fun _ _ => tt))
    (fun _ hash => check (assert_equals (Num (of_Z (Z.of_nat (size hash)))) (Num (of_Z 3)) Undefined)) []) (World 1 []) =
  (World 2 [js "temporary_cache/2"; js "http://example.com/c"; js "http://example.com/c"; js "http://example.com/c"], Ok tt).
Proof.
  destruct (prepopulated_cache sample_natives (vary_entries (fun url _ => url) (fun _ _ => tt))
    (fun _ hash => check (assert_equals (Num (of_Z (Z.of_nat (size hash)))) (Num (of_Z 3)) Undefined)) [] (World 1 [])) as [E _];
    [vm_compute; discriminate|].
  rewrite E. vm_compute. reflexivity.
Defined.
