(* ===== verification/CacheSuite.v ===== *)
(** The tests of the cache (test-suite/js-test-app/src/test-files/17-cache.js), on
    the helpers of [CacheTest].

    [caches], [fetch], [AbortController] and the classes Cache, Request and Response
    are native: their methods are the operations of scripts, and the objects of each
    class are numbered in the order they are made.  An operation that answers a promise
    stands for the call and the wait for its promise. *)

From Stdlib Require Import String.
From stdpp Require Import base numbers list gmap pretty.
From S2P Require Import Prelude JsNumber JsValue Streams TestSuite Async PromiseTest Script CacheTest.

Local Open Scope Z_scope.
Local Open Scope js_scope.
Local Open Scope script_scope.
Local Open Scope string_scope.

(** ** The operations *)

(** [new Request(url, init)]; the method and the body may be missing, and the signal is
    that of a controller. *)
Record request_init : Type := RequestInit {
  init_url : jsstr; init_method : option jsstr; request_init_headers : headers; init_body : option jsstr; init_signal : option nat }.

(** The body given to [new Response]: missing, a text, a Blob of one text, a FormData of
    one pair. *)
Inductive body_init : Type := NoBody | TextBody (s : jsstr) | BlobBody (s : jsstr) | FormBody (name value : jsstr).

(** The first argument of the methods of a cache, and of [fetch]. *)
Inductive input : Type := AtURL (url : jsstr) | AtRequest (r : nat).

(** CacheQueryOptions, and those of [caches.match]. *)
Record query_options : Type := Options {
  ignoreSearch : bool; ignoreMethod : bool; ignoreVary : bool; cacheName : option jsstr }.

(** [SeeRequest] and [SeeResponse] read the attributes that are compared;
    [ResponseTextHas r s] is [(await r.text()).indexOf(s) !== -1], [BlobType r] the type
    of [await r.blob()], [BlobSlice] the text of a slice of it, [CacheMatchWatched]
    tells whether [match] has read the [cacheName] of its options, and [StartFetch] to
    [StartAddAll] are calls whose promise is waited for in [Settle] or [SettleFetch]. *)
Inductive cache_op : Type -> Type :=
| NewRequest (i : request_init) : cache_op nat
| NewRequestFrom (r : nat) (method : jsstr) : cache_op nat
| CloneRequest (r : nat) : cache_op nat
| SeeRequest (r : nat) : cache_op request
| RequestText (r : nat) : cache_op unit
| RequestBodyUsed (r : nat) : cache_op val
| NewResponse (b : body_init) (i : response_init) : cache_op nat
| ResponseError : cache_op nat
| ResponseRedirect (url : jsstr) : cache_op nat
| CloneResponse (r : nat) : cache_op nat
| SeeResponse (r : nat) : cache_op response
| ResponseText (r : nat) : cache_op val
| ResponseTextHas (r : nat) (s : jsstr) : cache_op val
| ResponseBodyUsed (r : nat) : cache_op val
| BlobType (r : nat) : cache_op jsstr
| BlobSlice (r : nat) (first last : Z) : cache_op val
| GetReader (r : nat) : cache_op unit
| HeaderGet (r : nat) (name : jsstr) : cache_op val
| HeaderSet (r : nat) (name value : jsstr) : cache_op unit
| NewController : cache_op nat
| AbortController (c : nat) : cache_op unit
| Fetch (i : input) : cache_op nat
| StartFetch (i : input) : cache_op nat
| StartAdd (c : nat) (i : input) : cache_op nat
| StartAddAll (c : nat) (l : list input) : cache_op nat
| SettleFetch (p : nat) : cache_op nat
| Settle (p : nat) : cache_op unit
| CachesOpen (name : jsstr) : cache_op nat
| CachesDelete (name : jsstr) : cache_op val
| CachesHas (name : jsstr) : cache_op val
| CachesKeys : cache_op (list jsstr)
| CachesMatch (i : input) (o : query_options) : cache_op (option nat)
| IsCache (c : nat) : cache_op val
| CacheAdd (c : nat) (i : input) : cache_op val
| CacheAddAll (c : nat) (l : list input) : cache_op val
| CachePut (c : nat) (i : input) (r : nat) : cache_op val
| CacheDelete (c : nat) (i : input) (o : query_options) : cache_op val
| CacheKeys (c : nat) (i : option input) (o : query_options) : cache_op (list nat)
| CacheMatch (c : nat) (i : input) (o : query_options) : cache_op (option nat)
| CacheMatchWatched (c : nat) (i : input) : cache_op val
| CacheMatchAll (c : nat) (i : option input) (o : query_options) : cache_op (list nat).

Abbreviation script := (script cache_op).
Abbreviation entries := (gmap jsstr (@entry nat nat)).

(** ** Parts of the tests *)

Local Coercion js : string >-> jsstr.
Definition str (s : string) : val := Str s.

Definition no_options : query_options := Options false false false None.
Definition without_search : query_options := Options true false false None.
Definition without_method : query_options := Options false true false None.
Definition without_vary : query_options := Options false false true None.
Definition in_cache_named (name : jsstr) : query_options := Options false false false (Some name).

Definition get_init (url : jsstr) : request_init := RequestInit url None [] None None.
Definition with_method (url method : jsstr) (body : option jsstr) : request_init := RequestInit url (Some method) [] body None.
Definition with_headers (url : jsstr) (h : headers) : request_init := RequestInit url None h None None.

Definition new_request (url : jsstr) : script nat := call (NewRequest (get_init url)).
Definition head_request (url : jsstr) : script nat := call (NewRequest (with_method url "HEAD" None)).
Definition new_response (text : jsstr) : script nat := call (NewResponse (TextBody text) no_init).
Definition vary_cookies : response_init := ResponseInit None None [(js "Vary", js "Cookies")].
Definition cookie_request : script nat := call (NewRequest (with_headers "http://example.com/c" [(js "Cookies", js "is-for-cookie")])).
Definition vary_response : script nat := call (NewResponse (TextBody []) vary_cookies).

(** [r.url] of a request. *)
Definition url_of (r : nat) : script jsstr := let* s := call (SeeRequest r) in Done (request_url s).

(** A result that may be [undefined], as the assertions see it, and as an object whose
    methods are called. *)
Definition see (r : option nat) : script thing :=
  match r with
  | Some r => let* s := call (SeeResponse r) in Done (AResponse s)
  | None => Done (Prim Undefined)
  end.
Definition needed {A} (r : option A) : script A := match r with Some a => Done a | None => Fail (type_error "undefined has no properties") end.

Fixpoint see_all (l : list nat) : script (list thing) :=
  match l with
  | [] => Done []
  | r :: l => let* t := see (Some r) in let* l := see_all l in Done (t :: l)
  end.
Fixpoint see_requests (l : list nat) : script (list thing) :=
  match l with
  | [] => Done []
  | r :: l => let* s := call (SeeRequest r) in let* l := see_requests l in Done (ARequest s :: l)
  end.

Definition response_is (result : option nat) (expected : nat) (d : jsstr) : script unit :=
  let* a := see result in let* e := see (Some expected) in asserted (assert_response_equals a e (Some d)).
Definition response_in (result : option nat) (expected : list nat) (d : jsstr) : script unit :=
  let* a := see result in let* e := see_all expected in asserted (assert_response_in_array a e (Some d)).
Definition responses_are (result expected : list nat) (d : option jsstr) : script unit :=
  let* a := see_all result in let* e := see_all expected in asserted (assert_response_array_equals (Many a) e d).
Definition requests_are (result expected : list nat) (d : jsstr) : script unit :=
  let* a := see_requests result in let* e := see_requests expected in asserted (assert_request_array_equals (Many a) e (Some d)).

Definition is_value (a e : val) (d : jsstr) : script unit := asserted (assert_equals a e (Str d)).
Definition is_true (v : val) (d : jsstr) : script unit := asserted (assert_true v (Str d)).
Definition is_false (v : val) (d : jsstr) : script unit := asserted (assert_false v (Str d)).

(** [assert_equals(result, undefined, d)] of a response, of the answer of a method. *)
Definition no_response (result : option nat) (d : jsstr) : script unit := let* t := see result in is_value (shown t) Undefined d.
Definition resolves_undefined (v : val) (d : jsstr) : script unit := is_value v Undefined d.
Definition length_is {A} (l : list A) (n : Z) (d : jsstr) : script unit := is_value (count l) (Num (of_Z n)) d.

(** [entries.name.request] and [entries.name.response]. *)
Definition entry_of (e : entries) (name : string) : script (@entry nat nat) := needed (e !! js name).
Definition request_of (e : entries) (name : string) : script nat := let* x := entry_of e name in Done (entry_request x).
Definition response_of (e : entries) (name : string) : script nat := let* x := entry_of e name in Done (entry_response x).
Fixpoint each_of {A} (f : entries -> string -> script A) (e : entries) (names : list string) : script (list A) :=
  match names with
  | [] => Done []
  | n :: names => let* x := f e n in let* l := each_of f e names in Done (x :: l)
  end.

(** The body of a result as text. *)
Definition body_is (result : option nat) (expected : val) (d : jsstr) : script unit :=
  let* r := needed result in let* t := call (ResponseText r) in is_value t expected d.

(** ** The tests *)

Section Tests.
(** The address of the backend of the tests. *)
Variable winterTestsBaseUrl : jsstr.

Definition backend (query : jsstr) : jsstr := (winterTestsBaseUrl ++ query)%list.

(** *** [add] and [addAll] *)

Definition added : jsstr := "Cache.add should resolve with undefined on success.".

Definition add_non_http (cache : nat) : script unit :=
  rejects (call (CacheAdd cache (AtURL "javascript://this-is-not-http-mmkay")))
    (str "Cache.add should throw a TypeError for non-HTTP/HTTPS URLs.").

Definition add_request (cache : nat) : script unit :=
  let* request := new_request winterTestsBaseUrl in
  let* result := call (CacheAdd cache (AtRequest request)) in
  resolves_undefined result added.

Definition add_post (cache : nat) : script unit :=
  let* request := call (NewRequest (with_method winterTestsBaseUrl "POST" (Some (js "This is a body.")))) in
  rejects (call (CacheAdd cache (AtRequest request))) (str "Cache.add should throw a TypeError for non-GET requests.").

Definition add_twice (cache : nat) : script unit :=
  let* request := new_request winterTestsBaseUrl in
  let* result := call (CacheAdd cache (AtRequest request)) in
  do* resolves_undefined result added in
  let* result := call (CacheAdd cache (AtRequest request)) in
  resolves_undefined result added.

Definition add_null_body (cache : nat) : script unit :=
  let* request := new_request winterTestsBaseUrl in
  do* call (RequestText request) in
  let* used := call (RequestBodyUsed request) in
  do* asserted (assert_false used Undefined) in
  do* call (CacheAdd cache (AtRequest request)) in Done tt.

Definition add_status (query d : jsstr) (cache : nat) : script unit :=
  rejects (call (CacheAdd cache (AtURL (backend query)))) (Str d).

Definition add_206 : nat -> script unit := add_status "?status=206" "Cache.add should reject on partial response".
(** The two tests of a response that is not ok. *)
Definition add_not_ok (query : jsstr) : nat -> script unit := add_status query "Cache.add should reject if response is !ok".

(** [urls.map((url) => new Request(url))]. *)
Fixpoint new_requests (urls : list jsstr) : script (list nat) :=
  match urls with
  | [] => Done []
  | u :: urls => let* r := new_request u in let* l := new_requests urls in Done (r :: l)
  end.

Definition addAll_206 (cache : nat) : script unit :=
  let* requests := new_requests [backend "?status=206"; backend "?status=200"] in
  rejects (call (CacheAddAll cache (map AtRequest requests))) (str "Cache.addAll should reject with TypeError if any request fails").

Definition all_added : jsstr := "Cache.addAll should resolve with undefined on success.".

Definition addAll_empty (cache : nat) : script unit :=
  let* result := call (CacheAddAll cache []) in
  do* resolves_undefined result all_added in
  let* result := call (CacheKeys cache None no_options) in
  length_is result 0 "There should be no entry in the cache.".

(** [Promise.all(urls.map((url) => cache.match(url)))]. *)
Fixpoint match_all (cache : nat) (urls : list jsstr) : script (list (option nat)) :=
  match urls with
  | [] => Done []
  | u :: urls => let* r := call (CacheMatch cache (AtURL u) no_options) in let* l := match_all cache urls in Done (r :: l)
  end.

Fixpoint each_response (l : list (option nat)) : script unit :=
  match l with
  | [] => Done tt
  | r :: l =>
      let* t := see r in
      do* asserted (class_string t "Response" (Some (js "Cache.addAll should put a resource in the cache."))) in
      each_response l
  end.
Fixpoint response_texts (l : list (option nat)) : script (list val) :=
  match l with
  | [] => Done []
  | r :: l => let* r := needed r in let* t := call (ResponseText r) in let* l := response_texts l in Done (t :: l)
  end.
Fixpoint each_text (l : list val) : script unit :=
  match l with
  | [] => Done tt
  | t :: l => do* is_value t (str "GET request successful") "Cache.add should retrieve the correct body." in each_text l
  end.

Definition three_urls : list jsstr := [backend "?status=200"; backend "?status=201"; backend "?status=202"].

(** After [addAll] of the three, as strings or as requests. *)
Definition addAll_check (cache : nat) (l : list input) : script unit :=
  let* result := call (CacheAddAll cache l) in
  do* resolves_undefined result all_added in
  let* responses := match_all cache three_urls in
  do* each_response responses in
  let* bodies := response_texts responses in
  each_text bodies.

Definition addAll_strings (cache : nat) : script unit := addAll_check cache (map AtURL three_urls).
Definition addAll_requests (cache : nat) : script unit :=
  let* requests := new_requests three_urls in addAll_check cache (map AtRequest requests).

Definition addAll_mixed (cache : nat) : script unit :=
  let urls := [backend "?status=200"; backend "?status=404"; backend "?status=202"] in
  let* requests := new_requests urls in
  do* rejects (call (CacheAddAll cache (map AtRequest requests))) (str "Cache.addAll should reject with TypeError if any request fails") in
  let* matches := match_all cache urls in
  asserted (assert_array_equals (map (fun r => match r with Some _ => VObj [] None None | None => Undefined end) matches)
           [Undefined; Undefined; Undefined] (str "If any response fails, no response should be added to cache")).

Definition addAll_same (cache : nat) : script unit :=
  let* request := new_request (backend "?status=200") in
  rejects (call (CacheAddAll cache [AtRequest request; AtRequest request]))
    (str "Cache.addAll should throw InvalidStateError if the same request is added twice.").

Definition shape_request (shape : jsstr) : script nat :=
  call (NewRequest (with_headers (backend "?vary=x-shape") [(js "x-shape", shape)])).

Definition addAll_vary (cache : nat) : script unit :=
  let* circle := shape_request "circle" in
  let* square := shape_request "square" in
  let* result := call (CacheAddAll cache [AtRequest circle; AtRequest square]) in
  resolves_undefined result "Cache.addAll() should succeed".

Definition addAll_vary_same (cache : nat) : script unit :=
  let* first := shape_request "circle" in
  let* second := shape_request "circle" in
  rejects (call (CacheAddAll cache [AtRequest first; AtRequest second]))
    (str "Cache.addAll() should reject when entries are duplicate by vary header").

(** *** Aborted requests *)

Inductive method : Type := put | add | addAll.
Definition method_name (m : method) : jsstr := match m with put => "put" | add => "add" | addAll => "addAll" end.

(** [methodsToTest[method](cache, request)]. *)
Definition perform_method (m : method) (cache request : nat) : script unit :=
  match m with
  | put => let* response := call (Fetch (AtRequest request)) in do* call (CachePut cache (AtRequest request) response) in Done tt
  | add => do* call (CacheAdd cache (AtRequest request)) in Done tt
  | addAll => do* call (CacheAddAll cache [AtRequest request]) in Done tt
  end.

(** The call alone, and the rest of it once its promise is waited for. *)
Definition start (m : method) (cache request : nat) : script nat :=
  match m with
  | put => call (StartFetch (AtRequest request))
  | add => call (StartAdd cache (AtRequest request))
  | addAll => call (StartAddAll cache [AtRequest request])
  end.
Definition finish (m : method) (cache request promise : nat) : script unit :=
  match m with
  | put => let* response := call (SettleFetch promise) in do* call (CachePut cache (AtRequest request) response) in Done tt
  | _ => call (Settle promise)
  end.

Definition should_reject (m : method) : val := Str (method_name m ++ js " should reject")%list.

Definition aborted_before (m : method) (cache : nat) : script unit :=
  let* controller := call NewController in
  do* call (AbortController controller) in
  let* request := call (NewRequest (RequestInit winterTestsBaseUrl None [] None (Some controller))) in
  rejects (perform_method m cache request) (should_reject m).

Definition aborted_after (m : method) (cache : nat) : script unit :=
  let* controller := call NewController in
  let* request := call (NewRequest (RequestInit winterTestsBaseUrl None [] None (Some controller))) in
  let* promise := start m cache request in
  do* call (AbortController controller) in
  rejects (finish m cache request promise) (should_reject m).

(** *** [delete] *)

Definition test_url : jsstr := "https://example.com/foo".
Definition new_test_request : script nat := new_request test_url.
Definition new_test_response : script nat := call (NewResponse (TextBody "Hello world!") (ResponseInit (Some 200) None [])).
Definition deleted : jsstr := "Cache.delete should resolve with true if an entry was successfully deleted.".

Definition delete_string (cache : nat) : script unit :=
  let* request := new_test_request in
  let* response := new_test_response in
  do* call (CachePut cache (AtRequest request) response) in
  let* result := call (CacheDelete cache (AtURL test_url) no_options) in
  do* is_true result deleted in
  let* result := call (CacheMatch cache (AtURL test_url) no_options) in
  no_response result "Cache.delete should remove matching entries from cache.".

Definition delete_request (cache : nat) : script unit :=
  let* request := new_request test_url in
  let* response := new_test_response in
  do* call (CachePut cache (AtRequest request) response) in
  let* result := call (CacheDelete cache (AtRequest request) no_options) in
  is_true result deleted.

Definition delete_head (cache : nat) : script unit :=
  let* request := new_request test_url in
  let* response := new_test_response in
  do* call (CachePut cache (AtRequest request) response) in
  let* head := head_request test_url in
  let* result := call (CacheDelete cache (AtRequest head) no_options) in
  do* is_false result "Cache.delete should not match a non-GET request unless ignoreMethod option is set." in
  let* result := call (CacheMatch cache (AtURL test_url) no_options) in
  do* response_is result response "Cache.delete should leave non-matching response in the cache." in
  let* head := head_request test_url in
  let* result := call (CacheDelete cache (AtRequest head) without_method) in
  is_true result "Cache.delete should match a non-GET request  if ignoreMethod is true.".

(** [cache.put(request.clone(), response.clone())], and the clone of a request that is
    passed to a method. *)
Definition put_clones (cache request response : nat) : script unit :=
  let* rq := call (CloneRequest request) in
  let* rs := call (CloneResponse response) in
  do* call (CachePut cache (AtRequest rq) rs) in Done tt.
Definition cloned (request : nat) : script input := let* r := call (CloneRequest request) in Done (AtRequest r).

Definition delete_vary (cache : nat) : script unit :=
  let* vary_request := cookie_request in
  let* vary_response := vary_response in
  let* mismatched := new_request "http://example.com/c" in
  do* put_clones cache vary_request vary_response in
  let* i := cloned mismatched in
  let* result := call (CacheDelete cache i no_options) in
  do* is_false result "Cache.delete should not delete if vary does not match unless ignoreVary is true" in
  let* i := cloned mismatched in
  let* result := call (CacheDelete cache i without_vary) in
  is_true result "Cache.delete should ignore vary if ignoreVary is true".

Definition delete_none (cache : nat) : script unit :=
  let* result := call (CacheDelete cache (AtURL test_url) no_options) in
  is_false result "Cache.delete should resolve with false if there are no matching entries.".

(** The two tests of [delete] with [ignoreSearch]: what is left. *)
Definition delete_search (o : query_options) (left : list string) (cache : nat) (e : entries) : script unit :=
  let* q := request_of e "a_with_query" in
  let* result := call (CacheMatchAll cache (Some (AtRequest q)) without_search) in
  let* expected := each_of response_of e ["a"; "a_with_query"] in
  do* responses_are result expected None in
  do* call (CacheDelete cache (AtRequest q) o) in
  let* result := call (CacheMatchAll cache (Some (AtRequest q)) without_search) in
  let* expected := each_of response_of e left in
  responses_are result expected None.

(** *** [keys] *)

Definition no_entries : jsstr := "Cache.keys should resolve to an empty array for an empty cache".

(** [cache.keys(...)] on an empty cache. *)
Definition keys_empty (cache : nat) : script unit :=
  let* requests := call (CacheKeys cache None no_options) in length_is requests 0 no_entries.

(** [cache.keys(undefined, {})]. *)
Definition keys_undefined : nat -> script unit := keys_empty.

(** A call of [keys] and the requests it should answer. *)
Definition keys_are (cache : nat) (i : option input) (o : query_options) (expected : script (list nat)) (d : jsstr) : script unit :=
  let* result := call (CacheKeys cache i o) in
  let* expected := expected in
  requests_are result expected d.

Definition url_plus (e : entries) (name : string) (suffix : jsstr) : script input :=
  let* r := request_of e name in let* u := url_of r in Done (AtURL (u ++ suffix)%list).

Definition nowhere : input := AtURL "http://something-something-we-dont-have-this.com".

Definition keys_no_match (cache : nat) (e : entries) : script unit :=
  keys_are cache (Some nowhere) no_options (Done []) "Cache.keys should resolve with an empty array on failure.".

Definition keys_url (cache : nat) (e : entries) : script unit :=
  let* i := url_plus e "a" [] in
  keys_are cache (Some i) no_options (each_of request_of e ["a"]) "Cache.keys should match by URL.".

Definition by_request : jsstr := "Cache.keys should match by Request.".
Definition keys_request (cache : nat) (e : entries) : script unit :=
  let* a := request_of e "a" in
  keys_are cache (Some (AtRequest a)) no_options (each_of request_of e ["a"]) by_request.

(** [new Request(entries.name.request.url)], with the method HEAD or without. *)
Definition request_again (e : entries) (name : string) : script nat :=
  let* r := request_of e name in let* u := url_of r in new_request u.
Definition head_again (e : entries) (name : string) : script nat :=
  let* r := request_of e name in let* u := url_of r in head_request u.

Definition keys_new_request (cache : nat) (e : entries) : script unit :=
  let* r := request_again e "a" in
  keys_are cache (Some (AtRequest r)) no_options (each_of request_of e ["a"]) by_request.

Definition keys_search (name : string) (d : jsstr) (cache : nat) (e : entries) : script unit :=
  let* r := request_of e name in
  keys_are cache (Some (AtRequest r)) without_search (each_of request_of e ["a"; "a_with_query"]) d.

Definition keys_method (cache : nat) : script unit :=
  let* request := new_request "http://example.com/" in
  let* head := head_request "http://example.com/" in
  let* response := new_response "foo" in
  do* put_clones cache request response in
  let* i := cloned head in
  do* keys_are cache (Some i) no_options (Done []) "Cache.keys should resolve with an empty array with a mismatched method." in
  let* i := cloned head in
  keys_are cache (Some i) without_method (Done [request]) "Cache.keys with ignoreMethod should ignore the method of request.".

Definition keys_vary (cache : nat) : script unit :=
  let* vary_request := cookie_request in
  let* vary_response := vary_response in
  let* mismatched := new_request "http://example.com/c" in
  do* put_clones cache vary_request vary_response in
  let* i := cloned mismatched in
  do* keys_are cache (Some i) no_options (Done []) "Cache.keys should resolve with an empty array with a mismatched vary." in
  let* i := cloned mismatched in
  keys_are cache (Some i) without_vary (Done [vary_request]) "Cache.keys with ignoreVary should ignore the vary of request.".

Definition keys_fragment (cache : nat) (e : entries) : script unit :=
  let* i := url_plus e "cat" "#mouse" in
  keys_are cache (Some i) no_options (each_of request_of e ["cat"]) "Cache.keys should ignore URL fragment.".

(** [cache.keys()] and [cache.keys(undefined)]: [simple_entries] themselves. *)
Definition keys_all (simple : list (@entry nat nat)) (d : jsstr) (cache : nat) (e : entries) : script unit :=
  keys_are cache None no_options (Done (map entry_request simple)) d.

Definition keys_all_vary (cache : nat) (e : entries) : script unit :=
  keys_are cache None no_options (each_of request_of e ["vary_cookie_is_cookie"; "vary_cookie_is_good"; "vary_cookie_absent"])
    "Cache.keys without parameters should match all entries.".

Definition keys_head (cache : nat) (e : entries) : script unit :=
  let* r := head_again e "cat" in
  keys_are cache (Some (AtRequest r)) no_options (Done []) "Cache.keys should not match HEAD request unless ignoreMethod option is set.".

(** *** [match] *)

Definition match_none (cache : nat) (e : entries) : script unit :=
  let* result := call (CacheMatch cache nowhere no_options) in
  no_response result "Cache.match failures should resolve with undefined.".

(** A call of [match] that should find the response of an entry. *)
Definition match_is (cache : nat) (i : input) (e : entries) (name : string) (d : jsstr) : script unit :=
  let* result := call (CacheMatch cache i no_options) in
  let* expected := response_of e name in
  response_is result expected d.

Definition match_url (cache : nat) (e : entries) : script unit :=
  let* i := url_plus e "a" [] in match_is cache i e "a" "Cache.match should match by URL.".

Definition match_request (cache : nat) (e : entries) : script unit :=
  let* a := request_of e "a" in match_is cache (AtRequest a) e "a" "Cache.match should match by Request.".

Definition match_many (cache : nat) (e : entries) : script unit :=
  let* alt_response := call (NewResponse (TextBody []) (ResponseInit (Some 201) None [])) in
  let* second := call (CachesOpen "second_matching_cache") in
  let* a := request_of e "a" in
  let* c := call (CloneResponse alt_response) in
  do* call (CachePut second (AtRequest a) c) in
  let* a := request_of e "a" in
  match_is cache (AtRequest a) e "a" "Cache.match should match the first cache.".

Definition match_new_request (cache : nat) (e : entries) : script unit :=
  let* r := request_again e "a" in match_is cache (AtRequest r) e "a" "Cache.match should match by Request.".

Definition match_head (cache : nat) (e : entries) : script unit :=
  let* r := head_again e "a" in
  let* result := call (CacheMatch cache (AtRequest r) no_options) in
  no_response result "Cache.match should not match HEAD Request.".

Definition match_search (name : string) (d : jsstr) (cache : nat) (e : entries) : script unit :=
  let* r := request_of e name in
  let* result := call (CacheMatch cache (AtRequest r) without_search) in
  let* expected := each_of response_of e ["a"; "a_with_query"] in
  response_in result expected d.

(** A call that finds nothing, and the same with an option, which finds the response. *)
Definition match_method (matches : input -> query_options -> script (option nat)) (cache : nat) (d1 d2 : jsstr) : script unit :=
  let* request := new_request "http://example.com/" in
  let* head := head_request "http://example.com/" in
  let* response := new_response "foo" in
  do* put_clones cache request response in
  let* i := cloned head in
  let* result := matches i no_options in
  do* no_response result d1 in
  let* i := cloned head in
  let* result := matches i without_method in
  response_is result response d2.

Definition match_vary (matches : input -> query_options -> script (option nat)) (cache : nat) (d1 d2 : jsstr) : script unit :=
  let* vary_request := cookie_request in
  let* vary_response := vary_response in
  let* mismatched := new_request "http://example.com/c" in
  do* put_clones cache vary_request vary_response in
  let* i := cloned mismatched in
  let* result := matches i no_options in
  do* no_response result d1 in
  let* i := cloned mismatched in
  let* result := matches i without_vary in
  response_is result vary_response d2.

Definition cache_match (cache : nat) (i : input) (o : query_options) : script (option nat) := call (CacheMatch cache i o).
Definition caches_match (i : input) (o : query_options) : script (option nat) := call (CachesMatch i o).

Definition match_ignoring_method (cache : nat) : script unit :=
  match_method (cache_match cache) cache "Cache.match should resolve as undefined with a mismatched method."
    "Cache.match with ignoreMethod should ignore the method of request.".
Definition match_ignoring_vary (cache : nat) : script unit :=
  match_vary (cache_match cache) cache "Cache.match should resolve as undefined with a mismatched vary."
    "Cache.match with ignoreVary should ignore the vary of request.".

Definition match_cacheName (cache : nat) : script unit :=
  do* call (CachesOpen "foo") in
  let* has_cache_name := call (CacheMatchWatched cache (AtURL "http://bar")) in
  is_false has_cache_name "Cache.match does not support cacheName option which was removed in CacheQueryOptions.".

Definition match_fragment (cache : nat) (e : entries) : script unit :=
  let* i := url_plus e "cat" "#mouse" in match_is cache i e "cat" "Cache.match should ignore URL fragment.".

Definition match_vary_entries (cache : nat) (e : entries) : script unit :=
  let* result := call (CacheMatch cache (AtURL "http://example.com/c") no_options) in
  let* expected := each_of response_of e ["vary_cookie_absent"] in
  response_in result expected "Cache.match should honor Vary header.".

Definition response_url_of (r : nat) : script val := let* s := call (SeeResponse r) in Done (Str (response_url s)).

Definition match_other_url (cache : nat) : script unit :=
  let* request := new_request "http://example.com" in
  let* response := call (Fetch (AtURL winterTestsBaseUrl)) in
  let* u := response_url_of response in
  do* is_value u (Str winterTestsBaseUrl)
        "[https://fetch.spec.whatwg.org/#dom-response-url] Reponse.url should return the URL of the response." in
  let* c := call (CloneResponse response) in
  do* call (CachePut cache (AtRequest request) c) in
  let* u := url_of request in
  let* result := call (CacheMatch cache (AtURL u) no_options) in
  do* response_is result response
        "Cache.match should return a Response object that has the same properties as the stored response." in
  let* s := call (SeeResponse response) in
  let* result := call (CacheMatch cache (AtURL (response_url s)) no_options) in
  no_response result "Cache.match should not match cache entry based on response URL.".

(** [fetch(url)] and [cache.put(new Request(url), ...)]. *)
Definition put_fetched (cache : nat) : script unit :=
  let* fetch_result := call (Fetch (AtURL winterTestsBaseUrl)) in
  let* request := new_request winterTestsBaseUrl in
  do* call (CachePut cache (AtRequest request) fetch_result) in Done tt.

Definition match_twice (cache : nat) : script unit :=
  do* put_fetched cache in
  let* result := call (CacheMatch cache (AtURL winterTestsBaseUrl) no_options) in
  do* body_is result (str "GET request successful") "Cache.match should return a Response object with a valid body." in
  let* result := call (CacheMatch cache (AtURL winterTestsBaseUrl) no_options) in
  body_is result (str "GET request successful") "Cache.match should return a Response object with a valid body each time it is called.".

Definition match_blob (cache : nat) : script unit :=
  do* put_fetched cache in
  let* result := call (CacheMatch cache (AtURL winterTestsBaseUrl) no_options) in
  let* r := needed result in
  let* text := call (BlobSlice r 4 11) in
  is_value text (str "request") "A Response blob returned by Cache.match should be sliceable.".

Definition match_post (cache : nat) (e : entries) : script unit :=
  let* a := request_of e "a" in
  let* c := call (CloneRequest a) in
  let* request := call (NewRequestFrom c "POST") in
  let* result := call (CacheMatch cache (AtRequest request) no_options) in
  no_response result "Cache.match should not find a match".

Definition match_stored (name : string) (d : jsstr) (cache : nat) (e : entries) : script unit :=
  do* response_of e name in
  let* i := url_plus e name [] in match_is cache i e name d.

(** [data.toString()] of an array of so many times F. *)
Fixpoint large_text (n : nat) : jsstr :=
  match n with O => [] | S O => js "F" | S n => (js "F," ++ large_text n)%list end.

Definition large_read (data : jsstr) (cache : nat) : script val :=
  let* response := new_response data in
  do* call (CachePut cache (AtURL "http://example.com") response) in
  let* r := call (CacheMatch cache (AtURL "http://example.com") no_options) in
  let* response := needed r in
  let* clone := call (CloneResponse response) in
  call (ResponseText clone).
Definition match_large (data : jsstr) (cache : nat) : script unit :=
  let* text := large_read data cache in
  is_value text (Str data) "cloned body text can be read correctly".

(** [s.includes(t)]. *)
Fixpoint contains_text (t s : jsstr) : bool :=
  startsWith t s || match s with [] => false | _ :: s => contains_text t s end.

Definition mime_network (cache : nat) : script unit :=
  let url := backend "?mime=text/html" in
  let* net_response := call (Fetch (AtURL url)) in
  let* net_mime_type := call (BlobType net_response) in
  do* is_true (Bool (contains_text "text/html" net_mime_type)) "network response should include the expected mime type" in
  do* call (CacheAdd cache (AtURL url)) in
  let* r := call (CacheMatch cache (AtURL url) no_options) in
  let* cache_response := needed r in
  let* cache_mime_type := call (BlobType cache_response) in
  is_value (Str cache_mime_type) (Str net_mime_type) "network and cache response mime types should match".

Definition hello_html : script nat :=
  call (NewResponse (TextBody "hello world") (ResponseInit None None [(js "content-type", js "text/html")])).

Definition mime_override (cache : nat) : script unit :=
  let url := js "http://example.com" in
  let override_type := js "text/plain" in
  let* response := hello_html in
  let* original_response_type := call (BlobType response) in
  do* is_true (Bool (contains_text "text/html" original_response_type)) "original response should include the expected mime type" in
  let* overwritten_response := hello_html in
  do* call (HeaderSet overwritten_response "content-type" override_type) in
  let* overwritten_response_type := call (BlobType overwritten_response) in
  do* is_value (Str overwritten_response_type) (Str override_type) "mime type can be overridden" in
  let* tmp := hello_html in
  do* call (HeaderSet tmp "content-type" override_type) in
  do* call (CachePut cache (AtURL url) tmp) in
  let* r := call (CacheMatch cache (AtURL url) no_options) in
  let* cache_response := needed r in
  let* cache_mime_type := call (BlobType cache_response) in
  is_value (Str cache_mime_type) (Str override_type) "overwritten and cached response mime types should match".

(** *** [matchAll] *)

(** A call of [matchAll] and the responses it should answer. *)
Definition matchAll_are (cache : nat) (i : option input) (o : query_options) (expected : script (list nat)) (d : jsstr) : script unit :=
  let* result := call (CacheMatchAll cache i o) in
  let* expected := expected in
  responses_are result expected (Some d).

Definition matchAll_none (cache : nat) (e : entries) : script unit :=
  matchAll_are cache (Some nowhere) no_options (Done []) "Cache.matchAll should resolve with an empty array on failure.".
Definition matchAll_url (cache : nat) (e : entries) : script unit :=
  let* i := url_plus e "a" [] in
  matchAll_are cache (Some i) no_options (each_of response_of e ["a"]) "Cache.matchAll should match by URL.".
Definition matchAll_request (cache : nat) (e : entries) : script unit :=
  let* a := request_of e "a" in
  matchAll_are cache (Some (AtRequest a)) no_options (each_of response_of e ["a"]) "Cache.matchAll should match by Request.".
Definition matchAll_new_request (cache : nat) (e : entries) : script unit :=
  let* r := request_again e "a" in
  matchAll_are cache (Some (AtRequest r)) no_options (each_of response_of e ["a"]) "Cache.matchAll should match by Request.".
Definition matchAll_head (cache : nat) (e : entries) : script unit :=
  let* r := head_again e "a" in
  matchAll_are cache (Some (AtRequest r)) without_search (Done []) "Cache.matchAll should not match HEAD Request.".
Definition matchAll_search (name : string) (d : jsstr) (cache : nat) (e : entries) : script unit :=
  let* r := request_of e name in
  matchAll_are cache (Some (AtRequest r)) without_search (each_of response_of e ["a"; "a_with_query"]) d.

Definition matchAll_method (cache : nat) : script unit :=
  let* request := new_request "http://example.com/" in
  let* head := head_request "http://example.com/" in
  let* response := new_response "foo" in
  do* put_clones cache request response in
  let* i := cloned head in
  do* matchAll_are cache (Some i) no_options (Done []) "Cache.matchAll should resolve with empty array for a mismatched method." in
  let* i := cloned head in
  matchAll_are cache (Some i) without_method (Done [response]) "Cache.matchAll with ignoreMethod should ignore the method of request.".

Definition matchAll_vary (cache : nat) : script unit :=
  let* vary_request := cookie_request in
  let* vary_response := vary_response in
  let* mismatched := new_request "http://example.com/c" in
  do* put_clones cache vary_request vary_response in
  let* i := cloned mismatched in
  do* matchAll_are cache (Some i) no_options (Done []) "Cache.matchAll should resolve as undefined with a mismatched vary." in
  let* i := cloned mismatched in
  matchAll_are cache (Some i) without_vary (Done [vary_response]) "Cache.matchAll with ignoreVary should ignore the vary of request.".

Definition matchAll_fragment (cache : nat) (e : entries) : script unit :=
  let* i := url_plus e "cat" "#mouse" in
  matchAll_are cache (Some i) no_options (each_of response_of e ["cat"]) "Cache.matchAll should ignore URL fragment.".

Definition matchAll_all (simple : list (@entry nat nat)) (d : jsstr) (cache : nat) (e : entries) : script unit :=
  matchAll_are cache None no_options (Done (map entry_response simple)) d.

Definition cookies (value : jsstr) : script nat := call (NewRequest (with_headers "http://example.com/c" [(js "Cookies", value)])).

Definition matchAll_vary_entries (cache : nat) (e : entries) : script unit :=
  do* matchAll_are cache (Some (AtURL "http://example.com/c")) no_options (each_of response_of e ["vary_cookie_absent"])
        "Cache.matchAll should exclude matches if a vary header is missing in the query request, but is present in the cached request." in
  let* r := cookies "none-of-the-above" in
  do* matchAll_are cache (Some (AtRequest r)) no_options (Done [])
        "Cache.matchAll should exclude matches if a vary header is missing in the cached request, but is present in the query request." in
  let* r := cookies "is-for-cookie" in
  matchAll_are cache (Some (AtRequest r)) no_options (each_of response_of e ["vary_cookie_is_cookie"])
    "Cache.matchAll should match the entire header if a vary header is present in both the query and cached requests.".

Definition matchAll_vary_pairs (cache : nat) (e : entries) : script unit :=
  matchAll_are cache (Some (AtURL "http://example.com/c")) without_vary
    (each_of response_of e ["vary_cookie_is_cookie"; "vary_cookie_is_good"; "vary_cookie_absent"])
    "Cache.matchAll should support multiple vary request/response pairs.".

(** *** [put] *)

Definition test_body : jsstr := "Hello world!".

Definition put_simple (cache : nat) : script unit :=
  let* request := new_request test_url in
  let* response := new_response test_body in
  let* result := call (CachePut cache (AtRequest request) response) in
  resolves_undefined result "Cache.put should resolve with undefined on success.".

(** [match] of a URL, which should find the response, and the text of its body. *)
Definition found (cache : nat) (url : jsstr) (response : nat) (d1 : jsstr) (body : val) (d2 : jsstr) : script unit :=
  let* result := call (CacheMatch cache (AtURL url) no_options) in
  do* response_is result response d1 in
  body_is result body d2.

Definition updated : jsstr := "Cache.put should update the cache with new request and response.".
Definition body_stored : jsstr := "Cache.put should store response body.".

(** [fetch(test_url)], after which the response is cloned, put and looked for; the
    status is asserted when there is one.  [new URL(address).href] of the addresses is
    the address. *)
Definition put_from_fetch (url : jsstr) (status : option Z) (cache : nat) : script unit :=
  let* request := new_request url in
  let* fetch_result := call (Fetch (AtURL url)) in
  do* match status with
      | Some n =>
          let* s := call (SeeResponse fetch_result) in
          is_value (Num (of_Z (response_status s))) (Num (of_Z n)) "Test framework error: The status code should be 500."
      | None => Done tt
      end in
  let* response := call (CloneResponse fetch_result) in
  do* call (CachePut cache (AtRequest request) fetch_result) in
  found cache url response updated (str "GET request successful") body_stored.

Definition put_request_unused (cache : nat) : script unit :=
  let* request := new_request test_url in
  let* response := new_response test_body in
  let* used := call (RequestBodyUsed request) in
  do* is_false used "[https://fetch.spec.whatwg.org/#dom-body-bodyused] Request.bodyUsed should be initially false." in
  do* call (CachePut cache (AtRequest request) response) in
  let* used := call (RequestBodyUsed request) in
  is_false used "Cache.put should not mark empty request's body used".

Definition response_unused : jsstr :=
  "[https://fetch.spec.whatwg.org/#dom-body-bodyused] Response.bodyUsed should be initially false.".

Definition put_response_unused (cache : nat) : script unit :=
  let* request := new_request test_url in
  let* response := call (NewResponse NoBody no_init) in
  let* used := call (ResponseBodyUsed response) in
  do* is_false used response_unused in
  do* call (CachePut cache (AtRequest request) response) in
  let* used := call (ResponseBodyUsed response) in
  is_false used "Cache.put should not mark empty response's body used".

Definition put_clone (cache : nat) : script unit :=
  let* request := new_request test_url in
  let* response := new_response test_body in
  let* c := call (CloneResponse response) in
  do* call (CachePut cache (AtRequest request) c) in
  let* result := call (CacheMatch cache (AtURL test_url) no_options) in
  response_is result response "Cache.put should update the cache with new Request and Response.".

Definition plain_text (status : Z) : response_init := ResponseInit (Some status) None [(js "Content-Type", js "text/plain")].

Definition put_empty_body (cache : nat) : script unit :=
  let* request := new_request test_url in
  let* response := call (NewResponse (TextBody []) (plain_text 200)) in
  do* call (CachePut cache (AtRequest request) response) in
  let* result := call (CacheMatch cache (AtURL test_url) no_options) in
  let* r := needed result in
  let* s := call (SeeResponse r) in
  do* is_value (Num (of_Z (response_status s))) (Num (of_Z 200)) "Cache.put should store status." in
  let* t := call (HeaderGet r "Content-Type") in
  do* is_value t (str "text/plain") "Cache.put should store headers." in
  body_is result (Str []) body_stored.

Definition put_206 (cache : nat) : script unit :=
  let* request := new_request test_url in
  let* response := call (NewResponse (TextBody []) (plain_text 206)) in
  rejects (call (CachePut cache (AtRequest request) response)) (str "Cache.put should reject 206 Responses with a TypeError.").

Definition put_http_206 (cache : nat) : script unit :=
  let url := backend "?status=206" in
  let* request := new_request url in
  let* fetch_result := call (Fetch (AtURL url)) in
  let* s := call (SeeResponse fetch_result) in
  do* is_value (Num (of_Z (response_status s))) (Num (of_Z 206)) "Test framework error: The status code should be 206." in
  let* response := call (CloneResponse fetch_result) in
  rejects (call (CachePut cache (AtRequest request) fetch_result)) Undefined.

Definition put_500 : nat -> script unit := put_from_fetch (backend "?status=500") (Some 500).

Definition with_text (body status : jsstr) : script nat := call (NewResponse (TextBody body) (ResponseInit None (Some status) [])).
Definition new_body : jsstr := "New body".
Definition replaced : jsstr := "Cache.put should replace existing response with new response.".
Definition new_stored : jsstr := "Cache put should store new response body.".

(** A response under one URL, then another under a second URL. *)
Definition put_over (cache : nat) (url1 url2 : jsstr) : script nat :=
  let* alternate_response := with_text new_body "New status" in
  let* request := new_request url1 in
  let* old := with_text "Old body" "Old status" in
  do* call (CachePut cache (AtRequest request) old) in
  let* request := new_request url2 in
  let* c := call (CloneResponse alternate_response) in
  do* call (CachePut cache (AtRequest request) c) in
  do* found cache test_url alternate_response replaced (Str new_body) new_stored in
  Done alternate_response.

Definition put_twice (cache : nat) : script unit := do* put_over cache test_url test_url in Done tt.

Definition put_fragments (cache : nat) : script unit :=
  let second_url := (test_url ++ js "#(O_o)")%list in
  let third_url := (test_url ++ js "#fragment")%list in
  let* alternate_response := put_over cache test_url second_url in
  let* request := new_request third_url in
  let* c := call (CloneResponse alternate_response) in
  do* call (CachePut cache (AtRequest request) c) in
  let* results := call (CacheKeys cache None no_options) in
  let* r := needed (results !! 0%nat) in
  let* u := url_of r in
  asserted (assert_equals (Str u) (Str third_url) Undefined).

Definition put_string (cache : nat) : script unit :=
  let* response := new_response "some body" in
  do* call (CachePut cache (AtURL "http://example.com/foo") response) in
  let* r := call (CacheMatch cache (AtURL "http://example.com/foo") no_options) in
  body_is r (str "some body") "Cache.put should accept a string as request.".

(** A [put] that should be rejected. *)
Definition put_rejected (i : request_init) (d : jsstr) (cache : nat) : script unit :=
  let* request := call (NewRequest i) in
  let* response := new_response test_body in
  rejects (call (CachePut cache (AtRequest request) response)) (Str d).

Definition put_file : nat -> script unit :=
  put_rejected (get_init "file:///etc/passwd") "Cache.put should reject non-HTTP/HTTPS requests with a TypeError.".
Definition put_head : nat -> script unit :=
  put_rejected (with_method "http://example.com/foo" "HEAD" None) "Cache.put should throw a TypeError for non-GET requests.".
Definition put_post : nat -> script unit :=
  put_rejected (with_method test_url "POST" (Some test_body)) "Cache.put should throw a TypeError for a POST request.".

Definition put_used (cache : nat) : script unit :=
  let* response := new_response test_body in
  let* used := call (ResponseBodyUsed response) in
  do* is_false used response_unused in
  do* call (ResponseText response) in
  let* used := call (ResponseBodyUsed response) in
  do* is_true used
        "[https://fetch.spec.whatwg.org/#concept-body-consume-body] The text() method should make the body disturbed." in
  let* request := new_request test_url in
  attempt (call (CachePut cache (AtRequest request) response))
    (fun _ => asserted (assert_unreached (MVal (str "cache.put should be rejected")))) (fun _ => Done tt).

Definition put_locks (cache : nat) : script unit :=
  let* response := new_response test_body in
  let* request := new_request test_url in
  do* call (CachePut cache (AtRequest request) response) in
  refuse (call (GetReader response)) Undefined.

Definition put_vary (value d : jsstr) (cache : nat) : script unit :=
  let* request := new_request test_url in
  let* response := call (NewResponse (TextBody test_body) (ResponseInit None None [(js "VARY", value)])) in
  rejects (call (CachePut cache (AtRequest request) response)) (Str d).

Definition put_redirect (cache : nat) : script unit :=
  let url := js "http://example.com/foo.html" in
  let redirectURL := js "http://example.com/foo-bar.html" in
  let* redirectResponse := call (ResponseRedirect redirectURL) in
  let* location := call (HeaderGet redirectResponse "Location") in
  do* is_value location (Str redirectURL) "Response.redirect() should set Location header." in
  let* c := call (CloneResponse redirectResponse) in
  do* call (CachePut cache (AtURL url) c) in
  let* response := call (CacheMatch cache (AtURL url) no_options) in
  do* response_is response redirectResponse "Redirect response is reproduced by the Cache API" in
  let* r := needed response in
  let* location := call (HeaderGet r "Location") in
  is_value location (Str redirectURL) "Location header is preserved by Cache API.".

(** A body of another kind, and the check of its text. *)
Definition put_body (b : body_init) (check : nat -> script unit) (cache : nat) : script unit :=
  let* request := new_request test_url in
  let* response := call (NewResponse b no_init) in
  do* call (CachePut cache (AtRequest request) response) in
  let* r := call (CacheMatch cache (AtRequest request) no_options) in
  let* cachedResponse := needed r in
  check cachedResponse.

Definition put_blob : nat -> script unit :=
  put_body (BlobBody test_body) (fun r => let* t := call (ResponseText r) in asserted (assert_equals t (Str test_body) Undefined)).

Definition form_part : jsstr := (js "name=" ++ [34] ++ js "name" ++ [34; 13; 10; 13; 10] ++ js "value")%list.
Definition put_form : nat -> script unit :=
  put_body (FormBody "name" "value") (fun r => let* b := call (ResponseTextHas r form_part) in asserted (assert_true b Undefined)).

(** *** [caches] *)

Definition test_cache_list : list jsstr := [js ""; js "example"; js "Another cache name"; js "A"; js "a"; js "ex ample"].

Fixpoint open_each (names : list jsstr) : script unit :=
  match names with
  | [] => Done tt
  | n :: names => do* call (CachesOpen n) in open_each names
  end.
Fixpoint delete_each_key (names : list jsstr) : script unit :=
  match names with
  | [] => Done tt
  | n :: names => do* call (CachesDelete n) in delete_each_key names
  end.

(** [keys.indexOf(name)], and [keys.splice(keys.indexOf(name), 1)]: from -1 on it takes
    the last away. *)
Fixpoint index_of (name : jsstr) (keys : list jsstr) : option nat :=
  match keys with
  | [] => None
  | k :: keys => if str_eqb k name then Some O else option_map S (index_of name keys)
  end.
Definition splice_out (name : jsstr) (keys : list jsstr) : list jsstr :=
  match index_of name keys with
  | Some i => take i keys ++ drop (S i) keys
  | None => take (length keys - 1) keys
  end%list.

Definition caches_keys_test : script unit :=
  let* keys := call CachesKeys in
  do* is_true (Bool true) "CacheStorage.keys should return an Array." in
  do* delete_each_key (List.filter (fun key => negb (str_eqb key winterJsBuiltInDefaultCacheName)) keys) in
  do* open_each test_cache_list in
  let* keys := call CachesKeys in
  do* is_true (Bool true) "CacheStorage.keys should return an Array." in
  let keys := splice_out winterJsBuiltInDefaultCacheName keys in
  asserted (assert_array_equals (map Str keys) (map Str test_cache_list) (str "CacheStorage.keys should only return existing caches.")).

(** [create_unique_transaction()], at its call of this number. *)
Definition transaction_url (index : nat) : jsstr := ("http://example.com/" ++ js (pretty index))%list.
Definition create_unique_transaction (index : nat) : script (nat * nat * jsstr) :=
  let url := transaction_url index in
  let* request := new_request url in
  let* response := new_response "hello" in
  Done (request, response, url).

Definition unchanged : jsstr := "The response should not have changed.".

Definition storage_match (index : nat) (others : list jsstr) (cache : nat) : script unit :=
  let* t := create_unique_transaction index in let '(request, response, _) := t in
  do* put_clones cache request response in
  do* open_each others in
  let* r := call (CachesMatch (AtRequest request) no_options) in
  response_is r response unchanged.

Definition storage_by_name : script unit :=
  let* t := create_unique_transaction 3 in let '(request, response, _) := t in
  do* open_each [js "x"; js "y"; js "z"] in
  let* cache := call (CachesOpen "x") in
  do* put_clones cache request response in
  let* r := call (CachesMatch (AtRequest request) (in_cache_named "x")) in
  do* response_is r response unchanged in
  let* r := call (CachesMatch (AtRequest request) (in_cache_named "y")) in
  no_response r "Cache y should not have a response for the request.".

Definition storage_string (cache : nat) : script unit :=
  let* t := create_unique_transaction 4 in let '(request, response, url) := t in
  let* c := call (CloneResponse response) in
  do* call (CachePut cache (AtURL url) c) in
  let* r := call (CachesMatch (AtRequest request) no_options) in
  response_is r response unchanged.

Definition storage_head (cache : nat) : script unit :=
  let* t := create_unique_transaction 5 in let '(request, response, _) := t in
  do* put_clones cache request response in
  let* u := url_of request in
  let* head := head_request u in
  let* r := call (CachesMatch (AtRequest head) no_options) in
  no_response r "A HEAD request should not be matched".

Definition not_found : jsstr := "The response should not be found.".

Definition storage_none : script unit :=
  let* t := create_unique_transaction 6 in let '(request, _, _) := t in
  let* r := call (CachesMatch (AtRequest request) no_options) in
  no_response r not_found.

Definition storage_no_cache : script unit :=
  let* t := create_unique_transaction 7 in let '(request, _, _) := t in
  do* call (CachesDelete "foo") in
  let* has_foo := call (CachesHas "foo") in
  do* is_false has_foo "The cache should not exist." in
  let* r := call (CachesMatch (AtRequest request) (in_cache_named "foo")) in
  do* no_response r "The match with bad cache name should resolve to undefined." in
  let* has_foo := call (CachesHas "foo") in
  is_false has_foo "The cache should still not exist.".

Definition storage_empty_name (cache : nat) : script unit :=
  let* t := create_unique_transaction 8 in let '(request, response, _) := t in
  do* call (CachesDelete "") in
  let* has_cache := call (CachesHas "") in
  do* is_false has_cache "The cache should not exist." in
  let* c := call (CloneResponse response) in
  do* call (CachePut cache (AtRequest request) c) in
  let* r := call (CachesMatch (AtRequest request) (in_cache_named "")) in
  do* no_response r not_found in
  let* other := call (CachesOpen "") in
  do* call (CachePut other (AtRequest request) response) in
  let* r := call (CachesMatch (AtRequest request) (in_cache_named "")) in
  do* response_is r response "The response should be matched." in
  do* call (CachesDelete "") in Done tt.

Definition storage_search (cache : nat) : script unit :=
  let* request := new_request "http://example.com/?foo" in
  let* no_query_request := new_request "http://example.com/" in
  let* response := new_response "foo" in
  do* put_clones cache request response in
  let* i := cloned no_query_request in
  let* r := call (CachesMatch i no_options) in
  do* no_response r "CacheStorageMatch should resolve as undefined with a mismatched query." in
  let* i := cloned no_query_request in
  let* r := call (CachesMatch i without_search) in
  response_is r response "CacheStorageMatch with ignoreSearch should ignore the query of the request.".

Definition storage_method (cache : nat) : script unit :=
  match_method caches_match cache "CacheStorageMatch should resolve as undefined with a mismatched method."
    "CacheStorageMatch with ignoreMethod should ignore the method of request.".
Definition storage_vary (cache : nat) : script unit :=
  match_vary caches_match cache "CacheStorageMatch should resolve as undefined with a  mismatched vary."
    "CacheStorageMatch with ignoreVary should ignore the vary of request.".

(** [caches.delete(name).then(() => caches.open(name))]. *)
Definition reopen (name : jsstr) : script nat := do* call (CachesDelete name) in call (CachesOpen name).

Definition storage_open (name d : jsstr) : script unit :=
  let* cache := reopen name in
  let* b := call (IsCache cache) in
  is_true b d.

Definition storage_open_empty : script unit := storage_open "" "CacheStorage.open should accept an empty name.".

Definition storage_doomed : script unit :=
  let cache_name := js "cache-storage/bar" in
  let* first_cache := call (CachesOpen cache_name) in
  do* call (CachesDelete cache_name) in
  do* call (CacheAdd first_cache (AtURL winterTestsBaseUrl)) in
  let* cache_names := call CachesKeys in
  let index := match index_of cache_name cache_names with Some i => Z.of_nat i | None => -1 end in
  do* asserted (assert_equals (Num (of_Z index)) (Num (of_Z (-1))) Undefined) in
  let* second_cache := call (CachesOpen cache_name) in
  let* keys := call (CacheKeys second_cache None no_options) in
  do* asserted (assert_equals (count keys) (Num (of_Z 0)) Undefined) in
  let* keys := call (CacheKeys first_cache None no_options) in
  do* asserted (assert_equals (count keys) (Num (of_Z 1)) Undefined) in
  do* call (CachesDelete cache_name) in Done tt.

Fixpoint has_none (names : list jsstr) : script unit :=
  match names with
  | [] => Done tt
  | n :: names =>
      let* result := call (CachesHas n) in
      do* is_false result "CacheStorage.has should only perform exact matches on cache names." in
      has_none names
  end.

Definition has_cases : list (jsstr * list jsstr) :=
  [(js "cache-storage/lowercase", [js "cache-storage/Lowercase"; js " cache-storage/lowercase"; js "cache-storage/lowercase "]);
   (js "cache-storage/has a space", [js "cache-storage/has"]);
   ((js "cache-storage/has" ++ [0] ++ js "_in_the_name")%list, [js "cache-storage/has"; js "cache-storage/has_in_the_name"])].

Fixpoint storage_has (cases : list (jsstr * list jsstr)) : script unit :=
  match cases with
  | [] => Done tt
  | (cache_name, should_not_match) :: cases =>
      do* reopen cache_name in
      let* result := call (CachesHas cache_name) in
      do* is_true result "CacheStorage.has should return true for existing cache." in
      do* has_none should_not_match in
      do* call (CachesDelete cache_name) in
      storage_has cases
  end.

Definition storage_has_not : script unit :=
  let* result := call (CachesHas "cheezburger") in
  is_false result "CacheStorage.has should return false for nonexistent cache.".

Fixpoint urls_of (l : list nat) : script (list val) :=
  match l with
  | [] => Done []
  | r :: l => let* u := url_of r in let* l := urls_of l in Done (Str u :: l)
  end.

Definition storage_open_existing : script unit :=
  let cache_name := js "cache-storage/open" in
  let* cache := reopen cache_name in
  do* call (CacheAdd cache (AtURL winterTestsBaseUrl)) in
  let* result := call (CachesOpen cache_name) in
  let* b := call (IsCache result) in
  do* is_true b "CacheStorage.open should return a Cache object" in
  do* asserted (assert (negb (Nat.eqb result cache))
        (MFn [Text "Expected "; PVal (VObj [] None None); Text " to be unequal to "; PVal (VObj [] None None); Text ": ";
              PVal (str "CacheStorage.open should return a new Cache object each time its called.")])) in
  let* keys := call (CacheKeys cache None no_options) in
  let* others := call (CacheKeys result None no_options) in
  let* expected_urls := urls_of keys in
  let* actual_urls := urls_of others in
  asserted (assert_array_equals actual_urls expected_urls
    (str "CacheStorage.open should return a new Cache object for the same backing store.")).

Definition storage_delete : script unit :=
  let cache_name := js "cache-storage/delete" in
  do* reopen cache_name in
  let* result := call (CachesDelete cache_name) in
  do* is_true result "CacheStorage.delete should return true after deleting an existing cache." in
  let* cache_exists := call (CachesHas cache_name) in
  is_false cache_exists "CacheStorage.has should return false after fulfillment of CacheStorage.delete promise.".

Definition storage_delete_none : script unit :=
  let* result := call (CachesDelete "cheezburger") in
  is_false result "CacheStorage.delete should return false for a nonexistent cache.".

(** ** The file *)

(** A test on a cache of its own, on one filled with entries, or on none; one that is
    not waited for. *)
Inductive cache_case : Type :=
| OnCache (f : nat -> script unit)
| OnEntries (l : list (@entry nat nat)) (f : nat -> entries -> script unit)
| OnStorage (f : script unit)
| NotAwaited (l : list (@entry nat nat)) (f : nat -> entries -> script unit).

Definition on_methods (m : method) : list (cache_case * jsstr) :=
  [(OnCache (aborted_before m), (method_name m ++ js "() on an already-aborted request should reject with AbortError")%list);
   (OnCache (aborted_after m), (method_name m ++ js "() synchronously followed by abort should reject with AbortError")%list)].

Definition add_tests : list (cache_case * jsstr) :=
  [(OnCache add_non_http, js "Cache.add called with non-HTTP/HTTPS URL");
   (OnCache add_request, js "Cache.add called with Request object");
   (OnCache add_post, js "Cache.add called with POST request");
   (OnCache add_twice, js "Cache.add called twice with the same Request object");
   (OnCache add_null_body, js "Cache.add with request with null body (not consumed)");
   (OnCache add_206, js "Cache.add with 206 response");
   (OnCache addAll_206, js "Cache.addAll with 206 response");
   (OnCache (add_not_ok "?status=404"),
      js "Cache.add with request that results in a status of 404");
   (OnCache (add_not_ok "?status=500"),
      js "Cache.add with request that results in a status of 500");
   (OnCache addAll_empty, js "Cache.addAll with an empty array");
   (OnCache addAll_strings, js "Cache.addAll with string URL arguments");
   (OnCache addAll_requests, js "Cache.addAll with Request arguments");
   (OnCache addAll_mixed, js "Cache.addAll with a mix of succeeding and failing requests");
   (OnCache addAll_same, js "Cache.addAll called with the same Request object specified twice");
   (OnCache addAll_vary, js "Cache.addAll should succeed when entries differ by vary header");
   (OnCache addAll_vary_same, js "Cache.addAll should reject when entries are duplicate by vary header")]
  ++ (on_methods put ++ on_methods add ++ on_methods addAll)%list.

Section Entries.
(** [simple_entries] and [vary_entries]. *)
Variables simple vary : list (@entry nat nat).

Definition on_simple (f : nat -> entries -> script unit) : cache_case := OnEntries simple f.
Definition on_vary (f : nat -> entries -> script unit) : cache_case := OnEntries vary f.

Definition delete_tests : list (cache_case * jsstr) :=
  [(OnCache delete_string, js "Cache.delete called with a string URL");
   (OnCache delete_request, js "Cache.delete called with a Request object");
   (OnCache delete_head, js "Cache.delete called with a HEAD request");
   (OnCache delete_vary, js "Cache.delete supports ignoreVary");
   (OnCache delete_none, js "Cache.delete with a non-existent entry");
   (on_simple (delete_search without_search []), js "Cache.delete with ignoreSearch option (request with search parameters)");
   (on_simple (delete_search no_options ["a"]), js "Cache.delete with ignoreSearch option (when it is specified as false)")].

Definition keys_tests : list (cache_case * jsstr) :=
  [(OnCache keys_empty, js "Cache.keys() called on an empty cache");
   (on_simple keys_no_match, js "Cache.keys with no matching entries");
   (on_simple keys_url, js "Cache.keys with URL");
   (on_simple keys_request, js "Cache.keys with Request");
   (on_simple keys_new_request, js "Cache.keys with new Request");
   (on_simple (keys_search "a" "Cache.keys with ignoreSearch should ignore the search parameters of cached request."),
      js "Cache.keys with ignoreSearch option (request with no search parameters)");
   (on_simple (keys_search "a_with_query" "Cache.keys with ignoreSearch should ignore the search parameters of request."),
      js "Cache.keys with ignoreSearch option (request with search parameters)");
   (OnCache keys_method, js "Cache.keys supports ignoreMethod");
   (OnCache keys_vary, js "Cache.keys supports ignoreVary");
   (on_simple keys_fragment, js "Cache.keys with URL containing fragment");
   (on_simple (keys_all simple "Cache.keys without parameters should match all entries."), js "Cache.keys without parameters");
   (on_simple (keys_all simple "Cache.keys with undefined request should match all entries."),
      js "Cache.keys with explicitly undefined request");
   (OnCache keys_undefined, js "Cache.keys with explicitly undefined request and empty options");
   (on_vary keys_all_vary, js "Cache.keys without parameters and VARY entries");
   (on_simple keys_head, js "Cache.keys with a HEAD Request")].

Definition match_tests : list (cache_case * jsstr) :=
  [(on_simple match_none, js "Cache.match with no matching entries");
   (on_simple match_url, js "Cache.match with URL");
   (on_simple match_request, js "Cache.match with Request");
   (on_simple match_many, js "Cache.match with multiple cache hits");
   (on_simple match_new_request, js "Cache.match with new Request");
   (on_simple match_head, js "Cache.match with HEAD");
   (on_simple (match_search "a" "Cache.match with ignoreSearch should ignore the search parameters of cached request."),
      js "Cache.match with ignoreSearch option (request with no search parameters)");
   (on_simple (match_search "a_with_query" "Cache.match with ignoreSearch should ignore the search parameters of request."),
      js "Cache.match with ignoreSearch option (request with search parameter)");
   (OnCache match_ignoring_method, js "Cache.match supports ignoreMethod");
   (OnCache match_ignoring_vary, js "Cache.match supports ignoreVary");
   (OnCache match_cacheName, js "Cache.match does not support cacheName option");
   (on_simple match_fragment, js "Cache.match with URL containing fragment");
   (on_vary match_vary_entries, js "Cache.match with responses containing Vary header");
   (OnCache match_other_url, js "Cache.match with Request and Response objects with different URLs");
   (OnCache match_twice, js "Cache.match invoked multiple times for the same Request/Response");
   (OnCache match_blob, js "Cache.match blob should be sliceable");
   (on_simple match_post, js "Cache.match with POST Request");
   (on_simple (match_stored "non_2xx_response"
                 "Cache.match should return a Response object that has the same properties as a stored non-2xx response."),
      js "Cache.match with a non-2xx Response");
   (NotAwaited simple (match_stored "error_response"
                 "Cache.match should return a Response object that has the same properties as a stored network error response."),
      js "Cache.match with a network error Response")].

Definition body_tests (data : jsstr) : list (cache_case * jsstr) :=
  [(OnCache (match_large data), js "Cache produces large Responses that can be cloned and read correctly.");
   (OnCache mime_network, js "MIME type should be set from content-header correctly.");
   (OnCache mime_override, js "MIME type should reflect Content-Type headers of response.")].

Definition matchAll_tests : list (cache_case * jsstr) :=
  [(on_simple matchAll_none, js "Cache.matchAll with no matching entries");
   (on_simple matchAll_url, js "Cache.matchAll with URL");
   (on_simple matchAll_request, js "Cache.matchAll with Request");
   (on_simple matchAll_new_request, js "Cache.matchAll with new Request");
   (on_simple matchAll_head, js "Cache.matchAll with HEAD");
   (on_simple (matchAll_search "a" "Cache.matchAll with ignoreSearch should ignore the search parameters of cached request."),
      js "Cache.matchAll with ignoreSearch option (request with no search parameters)");
   (on_simple (matchAll_search "a_with_query" "Cache.matchAll with ignoreSearch should ignore the search parameters of request."),
      js "Cache.matchAll with ignoreSearch option (request with search parameters)");
   (OnCache matchAll_method, js "Cache.matchAll supports ignoreMethod");
   (OnCache matchAll_vary, js "Cache.matchAll supports ignoreVary");
   (on_simple matchAll_fragment, js "Cache.matchAll with URL containing fragment");
   (on_simple (matchAll_all simple "Cache.matchAll without parameters should match all entries."), js "Cache.matchAll without parameters");
   (on_simple (matchAll_all simple "Cache.matchAll with undefined request should match all entries."),
      js "Cache.matchAll with explicitly undefined request");
   (on_simple (matchAll_all simple "Cache.matchAll with undefined request should match all entries."),
      js "Cache.matchAll with explicitly undefined request and empty options");
   (on_vary matchAll_vary_entries, js "Cache.matchAll with responses containing Vary header");
   (on_vary matchAll_vary_pairs, js "Cache.matchAll with multiple vary pairs")].

Definition put_tests : list (cache_case * jsstr) :=
  [(OnCache put_simple, js "Cache.put called with simple Request and Response");
   (OnCache (put_from_fetch winterTestsBaseUrl None), js "Cache.put called with Request and Response from fetch()");
   (OnCache put_request_unused, js "Cache.put with Request without a body");
   (OnCache put_response_unused, js "Cache.put with Response without a body");
   (OnCache put_clone, js "Cache.put with a Response containing an empty URL");
   (OnCache put_empty_body, js "Cache.put with an empty response body");
   (OnCache put_206, js "Cache.put with synthetic 206 response");
   (OnCache put_http_206, js "Cache.put with HTTP 206 response");
   (OnCache put_500, js "Cache.put with HTTP 500 response");
   (OnCache put_twice, js "Cache.put called twice with matching Requests and different Responses");
   (OnCache put_fragments, js "Cache.put called multiple times with request URLs that differ only by a fragment");
   (OnCache put_string, js "Cache.put with a string request");
   (OnCache put_file, js "Cache.put with a non-HTTP/HTTPS request");
   (OnCache put_head, js "Cache.put with a non-GET request");
   (OnCache put_post, js "Cache.put with a POST request");
   (OnCache put_used, js "Cache.put with a used response body");
   (OnCache put_locks, js "getReader() after Cache.put");
   (OnCache (put_vary "*" "Cache.put should reject VARY:* Responses with a TypeError."), js "Cache.put with a VARY:* Response");
   (OnCache (put_vary "Accept-Language,*" "Cache.put should reject Responses with an embedded VARY:* with a TypeError."),
      js "Cache.put with an embedded VARY:* Response");
   (OnCache put_redirect, js "Cache.put should store Response.redirect() correctly");
   (OnCache put_blob, js "Cache.put called with simple Request and blob Response");
   (OnCache put_form, js "Cache.put called with simple Request and form data Response")].

Definition storage_tests : list (cache_case * jsstr) :=
  [(OnStorage caches_keys_test, js "CacheStorage keys");
   (OnCache (storage_match 1 []), js "CacheStorageMatch with no cache name provided");
   (OnCache (storage_match 2 [js "a"; js "b"; js "c"]), js "CacheStorageMatch from one of many caches");
   (OnStorage storage_by_name, js "CacheStorageMatch from one of many caches by name");
   (OnCache storage_string, js "CacheStorageMatch a string request");
   (OnCache storage_head, js "CacheStorageMatch a HEAD request");
   (OnStorage storage_none, js "CacheStorageMatch with no cached entry");
   (OnStorage storage_no_cache, js "CacheStorageMatch with no caches available but name provided");
   (OnCache storage_empty_name, js "CacheStorageMatch with empty cache name provided");
   (OnCache storage_search, js "CacheStorageMatch supports ignoreSearch");
   (OnCache storage_method, js "Cache.match supports ignoreMethod");
   (OnCache storage_vary, js "CacheStorageMatch supports ignoreVary");
   (OnStorage (storage_open "cache-storage/foo" "CacheStorage.open should return a Cache."), js "CacheStorage.open");
   (OnStorage storage_doomed, js "CacheStorage.delete dooms, but does not delete immediately");
   (OnStorage storage_open_empty, js "CacheStorage.open with an empty name");
   (OnStorage (storage_has has_cases), js "CacheStorage.has with existing cache");
   (OnStorage storage_has_not, js "CacheStorage.has with nonexistent cache");
   (OnStorage storage_open_existing, js "CacheStorage.open with existing cache");
   (OnStorage storage_delete, js "CacheStorage.delete with existing cache");
   (OnStorage storage_delete_none, js "CacheStorage.delete with nonexistent cache")].

Definition cache_tests (data : jsstr) : list (cache_case * jsstr) :=
  (add_tests ++ delete_tests ++ keys_tests ++ match_tests ++ body_tests data ++ matchAll_tests ++ put_tests ++ storage_tests)%list.

End Entries.
End Tests.
