(* ===== verification/CacheSpec.v ===== *)
(** The documented behaviour of [caches], of Request and Response as far as the test
    of the cache uses them, and of the backend of the tests: a specification of the
    operations of [CacheSuite].

    A cache is a list of pairs of a request and a response; a name of [caches] stands
    for one, which lives on under the objects that were opened on it when the name is
    deleted.  Where the specification says nothing the answer is [None]: for URLs that
    are not written as [url_normal] says, for header names that are no words or that a
    runtime may refuse, given twice or to an object whose headers are fixed, for
    header values that are not trimmed printable ASCII, for parts of the text of a FormData
    other than its pair, and for what happens while a promise is not waited for other
    than an abort.  An operation that answers a promise never throws by itself. *)

From Stdlib Require Import String.
From stdpp Require Import base numbers list option.
From S2P Require Import Prelude JsNumber JsValue BufferInt Encoding UrlSpec TestSuite Script CacheTest CacheSuite.

Local Open Scope Z_scope.
Local Open Scope js_scope.

(** ** URLs and headers *)

Definition is_http (s : jsstr) : bool := startsWith (js "http://") s || startsWith (js "https://") s.

(** A host of words of letters with dots and single hyphens. *)
Definition plain_host (s : jsstr) : bool :=
  match s with c :: _ => letter c | [] => false end && forallb (fun c => letter c || (c =? 46) || (c =? 45)) s &&
  negb (contains_text (js "--") s).
Definition url_char (c : Z) : bool := (33 <=? c) && (c <=? 126) && negb (existsb (Z.eqb c) [34; 37; 39; 60; 62; 92; 94; 96; 123; 124; 125]).

(** The URL as a request gives it back: a host alone gets a path. *)
Definition url_normal (s : jsstr) : option jsstr :=
  let after p := if startsWith p s then Some (drop (length p) s) else None in
  if is_http s then
    let rest := drop (if startsWith (js "https://") s then 8 else 7) s in
    let '(host, path) := cut 47 rest in
    if (plain_host host || str_eqb host (js "localhost:8081")) && forallb url_char rest && negb (contains_text (js "/.") rest) then
      match path with Some _ => Some s | None => Some (s ++ [47]) end
    else None
  else match after (js "file:///"), after (js "javascript://") with
       | Some (c :: p), _ => if letter c && forallb (fun c => letter c || (c =? 47)) p then Some s else None
       | _, Some (c :: p) => if letter c && forallb (fun c => letter c || (c =? 45)) p then Some s else None
       | _, _ => None
       end.

Definition without_fragment (u : jsstr) : jsstr := (cut 35 u).1.
Definition without_query (u : jsstr) : jsstr := (cut 63 (without_fragment u)).1.

(** Names and values that every runtime takes and keeps as they are. *)
Definition forbidden_names : list jsstr :=
  map js ["accept-charset"; "accept-encoding"; "connection"; "content-length"; "cookie"; "cookie2"; "date"; "dnt"; "expect"; "host";
          "keep-alive"; "origin"; "referer"; "set-cookie"; "set-cookie2"; "te"; "trailer"; "transfer-encoding"; "upgrade"; "via"]%string.
Definition forbidden_prefixes : list jsstr := map js ["access-control-"; "proxy-"; "sec-"; "x-http-method"; "x-method"]%string.
Definition clean_name (n : jsstr) : bool :=
  let n := toLowerCase n in
  match n with c :: _ => letter c | [] => false end && forallb (fun c => letter c || (c =? 45)) n &&
  negb (existsb (str_eqb n) forbidden_names) && negb (existsb (fun p => startsWith p n) forbidden_prefixes).
Definition clean_value (v : jsstr) : bool := forallb (fun c => (32 <=? c) && (c <=? 126)) v && str_eqb (trim v) v.

(** Names in lower case, sorted. *)
Definition header_list (h : headers) : option headers :=
  let l := sort_pairs (map (fun '(n, v) => (toLowerCase n, v)) h) in
  if bool_decide (NoDup (map fst l)) && forallb (fun q => clean_name q.1 && clean_value q.2) h then Some l else None.
Definition header (name : jsstr) (h : headers) : option jsstr := option_map snd (find (fun q => str_eqb q.1 name) h).
Definition with_header (name value : jsstr) (h : headers) : headers :=
  insert_pair (name, value) (List.filter (fun q => negb (str_eqb q.1 name)) h).
Definition with_default (name value : jsstr) (h : headers) : headers :=
  match header name h with Some _ => h | None => with_header name value h end.

Definition content_type : jsstr := js "content-type".
Definition text_plain : jsstr := js "text/plain;charset=UTF-8".

(** ** Objects *)

Record request_object : Type := ReqObject {
  q_url : jsstr; q_method : jsstr; q_headers : headers; q_body : option jsstr; q_used : bool; q_signal : option nat }.

Inductive stored_body : Type := Empty | Holds (s : jsstr) | HoldsForm (name value : jsstr).

(** [s_open] tells whether its headers may be changed. *)
Record response_object : Type := ResObject {
  s_type : jsstr; s_url : jsstr; s_status : Z; s_text : jsstr; s_headers : headers; s_open : bool; s_body : stored_body; s_used : bool }.

(** An entry of a cache: the request's URL and headers, and the response. *)
Record item : Type := Item { i_url : jsstr; i_headers : headers; i_response : response_object }.

(** A promise that is not waited for yet, and one that has been. *)
Inductive promise : Type := PFetch (i : input) | PAdd (c : nat) (i : input) | PAddAll (c : nat) (l : list input) | PDone.

(** [names] are those of [caches] in order with the places of their entries; [handles]
    are the Cache objects. *)
Record cstate : Type := CState {
  reqs : list request_object; ress : list response_object; signals : list bool; promises : list promise;
  names : list (jsstr * nat); handles : list nat; contents : list (list item) }.

(** Before the test: no cache of the program's.  The standard has no others; the runtime
    the test is written for lists the name of a default cache, which is empty. *)
Definition fresh_storage (default_listed : bool) : cstate :=
  CState [] [] [] [] (if default_listed then [(winterJsBuiltInDefaultCacheName, 0%nat)] else []) [] [[]].

Abbreviation answer T := (option (cstate * option T)).
Definition answers {T} (s : cstate) (t : T) : answer T := Some (s, Some t).
Definition throws {T} (s : cstate) : answer T := Some (s, None).

Definition with_reqs (l : list request_object) (s : cstate) : cstate :=
  CState l (ress s) (signals s) (promises s) (names s) (handles s) (contents s).
Definition with_ress (l : list response_object) (s : cstate) : cstate :=
  CState (reqs s) l (signals s) (promises s) (names s) (handles s) (contents s).
Definition with_contents (l : list (list item)) (s : cstate) : cstate :=
  CState (reqs s) (ress s) (signals s) (promises s) (names s) (handles s) l.
Definition with_names (l : list (jsstr * nat)) (s : cstate) : cstate :=
  CState (reqs s) (ress s) (signals s) (promises s) l (handles s) (contents s).

Definition add_req (q : request_object) (s : cstate) : answer nat := answers (with_reqs (reqs s ++ [q]) s) (length (reqs s)).
Definition add_res (r : response_object) (s : cstate) : answer nat := answers (with_ress (ress s ++ [r]) s) (length (ress s)).
Definition set_res (i : nat) (r : response_object) (s : cstate) : cstate := with_ress (<[i := r]> (ress s)) s.

(** *** Requests *)

Definition known_method (m : jsstr) : bool := existsb (str_eqb m) [js "GET"; js "HEAD"; js "POST"].
Definition is_get (m : jsstr) : bool := str_eqb m (js "GET").

Definition make_request (i : request_init) (s : cstate) : answer nat :=
  u ← url_normal (init_url i);
  h ← header_list (request_init_headers i);
  let m := default (js "GET") (init_method i) in
  if negb (known_method m) then None
  else match init_body i with
       | Some b =>
           if str_eqb m (js "POST") then add_req (ReqObject u m (with_default content_type text_plain h) (Some b) false (init_signal i)) s
           else throws s
       | None => add_req (ReqObject u m h None false (init_signal i)) s
       end.

Definition aborted (signal : option nat) (s : cstate) : bool :=
  match signal with Some c => default false (signals s !! c) | None => false end.

(** A request that is an argument. *)
Definition resolve_input (i : input) (s : cstate) : option request_object :=
  match i with
  | AtURL u => u ← url_normal u; Some (ReqObject u (js "GET") [] None false None)
  | AtRequest r => reqs s !! r
  end.

(** *** Responses *)

Definition ok_status (n : Z) : bool := (200 <=? n) && (n <=? 299).
Definition null_body_status (n : Z) : bool := existsb (Z.eqb n) [204; 205; 304].

Definition make_response (b : body_init) (i : response_init) (s : cstate) : answer nat :=
  h ← header_list (CacheTest.init_headers i);
  let n := default 200 (init_status i) in
  let make h b := add_res (ResObject (js "default") [] n (default [] (init_statusText i)) h true b false) s in
  if negb (clean_value (default [] (init_statusText i))) then None
  else if (n <? 200) || (599 <? n) then throws s
  else match b with
       | NoBody => make h Empty
       | TextBody t => if null_body_status n then throws s else make (with_default content_type text_plain h) (Holds (toWellFormed t))
       | BlobBody t => if null_body_status n then throws s else make h (Holds (toWellFormed t))
       | FormBody name v => if null_body_status n then throws s else make h (HoldsForm name v)
       end.

(** Its attributes; those of one made from a FormData hold its boundary. *)
Definition seen_as (r : response_object) : option response :=
  match s_body r with
  | HoldsForm _ _ => None
  | _ => Some (Response (s_type r) (s_url r) (s_status r) (ok_status (s_status r)) (s_text r) (s_headers r))
  end.

Definition used (r : response_object) : response_object :=
  ResObject (s_type r) (s_url r) (s_status r) (s_text r) (s_headers r) (s_open r) (s_body r) (match s_body r with Empty => s_used r | _ => true end).

(** The body read by a method that answers a promise. *)
Definition consume {T} (r : nat) (f : response_object -> option T) (s : cstate) : answer T :=
  x ← ress s !! r;
  if s_used x then throws s else t ← f x; answers (set_res r (used x) s) t.

(** A byte order mark at the beginning is no part of the text that is read. *)
Definition without_mark (t : jsstr) : jsstr := match t with 65279 :: t => t | _ => t end.
Definition body_text (r : response_object) : option jsstr :=
  match s_body r with Empty => Some [] | Holds t => Some (without_mark t) | HoldsForm _ _ => None end.

(** The pair of a FormData as it is written, when both are words. *)
Definition form_pair (n v : jsstr) : jsstr := js "name=" ++ [34] ++ n ++ [34; 13; 10; 13; 10] ++ v.
Definition body_has (t : jsstr) (r : response_object) : option val :=
  match s_body r with
  | Empty => Some (Bool (contains_text t []))
  | Holds b => Some (Bool (contains_text t (without_mark b)))
  | HoldsForm n v => if forallb letter n && forallb letter v && str_eqb t (form_pair n v) then Some (Bool true) else None
  end.

Definition blob_type (r : response_object) : option jsstr :=
  match s_body r with
  | HoldsForm _ _ => None
  | _ => match header content_type (s_headers r) with
         | None => Some []
         | Some t =>
             match cut 47 t with
             | (_ :: _ as a, Some (_ :: _ as b)) => if forallb letter a && forallb letter b then Some t else None
             | _ => None
             end
         end
  end.

(** ** The backend *)

Section Standard.
(** The backend: its address, the type of its responses in the runtime, and whether it
    sends the phrase of a status. *)
Record backend : Type := Backend { address : jsstr; net_type : jsstr; phrases : bool }.
Variable net : backend.
Abbreviation base := (address net).

Definition phrase (n : Z) : jsstr :=
  if phrases net then
    js (if n =? 200 then "OK" else if n =? 201 then "Created" else if n =? 202 then "Accepted"
        else if n =? 206 then "Partial Content" else if n =? 404 then "Not Found" else "Internal Server Error")
  else [].

(** [base?status=N] answers with this status, [base?vary=H] with the header Vary: H,
    [base?mime=T] with the header Content-Type: T; the text is always the same, and no
    other header is sent. *)
Definition network (url : jsstr) : option response_object :=
  let u := without_fragment url in
  let reply n h := Some (ResObject (net_type net) u n (phrase n) h false (Holds (js "GET request successful")) false) in
  let after p := if startsWith p u then Some (drop (length p) u) else None in
  if str_eqb u base then reply 200 []
  else match after (base ++ js "?status=") with
       | Some n =>
           match find (fun k => str_eqb n (int_text k)) [200; 201; 202; 206; 404; 500] with
           | Some k => reply k []
           | None => None
           end
       | None =>
           match after (base ++ js "?vary=") with
           | Some h => if clean_value h then reply 200 [(js "vary", h)] else None
           | None => match after (base ++ js "?mime=") with
                     | Some t => if clean_value t then reply 200 [(content_type, t)] else None
                     | None => None
                     end
           end
       end.

Definition fetched (q : request_object) (s : cstate) : option (option response_object) :=
  if aborted (q_signal q) s then Some None
  else if is_get (q_method q) then r ← network (q_url q); Some (Some r) else None.

Definition do_fetch (i : input) (s : cstate) : answer nat :=
  q ← resolve_input i s;
  r ← fetched q s;
  match r with Some r => add_res r s | None => throws s end.

(** ** Caches *)

(** The names in a Vary header. *)
Definition vary_names (r : response_object) : list jsstr :=
  match header (js "vary") (s_headers r) with
  | None => []
  | Some v => map (fun n => toLowerCase (trim n)) (split 44 v)
  end.
Definition varies_on_all (r : response_object) : bool := existsb (str_eqb [42]) (vary_names r).

(** Whether an entry is found for a request: "request matches cached item". *)
Definition matches_item (q : request_object) (o : query_options) (i : item) : bool :=
  let key u := if ignoreSearch o then without_query u else without_fragment u in
  (is_get (q_method q) || ignoreMethod o) && str_eqb (key (q_url q)) (key (i_url i)) &&
  (ignoreVary o || negb (varies_on_all (i_response i)) &&
     forallb (fun n => bool_decide (header n (q_headers q) = header n (i_headers i))) (vary_names (i_response i))).

Definition entries_in (c : nat) (s : cstate) : option (list item) := b ← handles s !! c; contents s !! b.

(** The entries a method finds; all of them without a request. *)
Definition query (i : option input) (o : query_options) (l : list item) (s : cstate) : option (list item) :=
  match i with
  | None => Some l
  | Some i => q ← resolve_input i s; Some (List.filter (matches_item q o) l)
  end.

(** The headers of what a cache gives back are fixed. *)
Definition given_back (i : item) : response_object :=
  let r := i_response i in ResObject (s_type r) (s_url r) (s_status r) (s_text r) (s_headers r) false (s_body r) (s_used r).

Definition give_responses (l : list item) (s : cstate) : answer (list nat) :=
  let ids := seq (length (ress s)) (length l) in
  answers (with_ress (ress s ++ map given_back l) s) ids.

Definition give_requests (l : list item) (s : cstate) : answer (list nat) :=
  answers (with_reqs (reqs s ++ map (fun i => ReqObject (i_url i) (js "GET") (i_headers i) None false None) l) s)
    (seq (length (reqs s)) (length l)).

Definition give_first (l : list item) (s : cstate) : answer (option nat) :=
  match l with
  | [] => answers s None
  | i :: _ => answers (with_ress (ress s ++ [given_back i]) s) (Some (length (ress s)))
  end.

(** A request and a response a cache may hold. *)
Definition storable (q : request_object) (r : response_object) : bool :=
  is_http (q_url q) && is_get (q_method q) && negb (s_status r =? 206) && negb (varies_on_all r) && negb (s_used r).

(** An entry in the place of those it is found for. *)
Definition store_item (q : request_object) (r : response_object) (l : list item) : list item :=
  List.filter (fun i => negb (matches_item q no_options i)) l ++ [Item (q_url q) (q_headers q) r].

Definition set_items (c : nat) (l : list item) (s : cstate) : option cstate :=
  b ← handles s !! c; Some (with_contents (<[b := l]> (contents s)) s).

Definition do_put (c : nat) (i : input) (r : nat) (s : cstate) : answer val :=
  q ← resolve_input i s;
  x ← ress s !! r;
  l ← entries_in c s;
  if storable q x then s' ← set_items c (store_item q x l) s; answers (set_res r (used x) s') Undefined
  else throws s.

(** The requests of [addAll] with what they fetch, or [None] for a rejection. *)
Definition fetch_one (i : input) (s : cstate) : option (option (request_object * response_object)) :=
  q ← resolve_input i s;
  if negb (is_http (q_url q)) || negb (is_get (q_method q)) then Some None
  else r ← fetched q s;
       Some (match r with
             | Some r => if ok_status (s_status r) && storable q r then Some (q, r) else None
             | None => None
             end).

(** The entries after all of them; [None] when one is found for another. *)
Fixpoint store_all (l : list (request_object * response_object)) (new old : list item) : option (list item) :=
  match l with
  | [] => Some (old ++ new)
  | (q, r) :: l =>
      if existsb (matches_item q no_options) new then None
      else store_all l (new ++ [Item (q_url q) (q_headers q) r]) (List.filter (fun i => negb (matches_item q no_options i)) old)
  end.

Definition do_add (c : nat) (inputs : list input) (s : cstate) : answer val :=
  old ← entries_in c s;
  fetched ← mapM (fun i => fetch_one i s) inputs;
  match mapM id fetched with
  | None => throws s
  | Some l => match store_all l [] old with
              | None => throws s
              | Some l => s' ← set_items c l s; answers s' Undefined
              end
  end.

Definition place (name : jsstr) (s : cstate) : option nat := option_map snd (find (fun q => str_eqb q.1 name) (names s)).

Definition do_open (name : jsstr) (s : cstate) : answer nat :=
  match place name s with
  | Some b => answers (CState (reqs s) (ress s) (signals s) (promises s) (names s) (handles s ++ [b]) (contents s)) (length (handles s))
  | None =>
      let b := length (contents s) in
      answers (CState (reqs s) (ress s) (signals s) (promises s) (names s ++ [(name, b)]) (handles s ++ [b]) (contents s ++ [[]]))
        (length (handles s))
  end.

(** [caches.match]: the first entry in the order of the names, or in one cache. *)
Definition do_match (i : input) (o : query_options) (s : cstate) : answer (option nat) :=
  let places := match cacheName o with
                | None => map snd (names s)
                | Some n => match place n s with Some b => [b] | None => [] end
                end in
  l ← mapM (fun b => contents s !! b) places;
  l ← query (Some i) o (List.concat l) s;
  give_first l s.

(** A promise that was started and is not waited for yet. *)
Definition waiting (s : cstate) : bool := existsb (fun p => match p with PDone => false | _ => true end) (promises s).
Definition may_overlap {T} (o : cache_op T) : bool :=
  match o with AbortController _ | SettleFetch _ | Settle _ => true | _ => false end.
Definition settled (p : nat) (s : cstate) : cstate :=
  CState (reqs s) (ress s) (signals s) (<[p := PDone]> (promises s)) (names s) (handles s) (contents s).

Definition start_promise (p : promise) (s : cstate) : answer nat :=
  answers (CState (reqs s) (ress s) (signals s) (promises s ++ [p]) (names s) (handles s) (contents s)) (length (promises s)).

(** ** The operations *)

Definition on_response {T} (r : nat) (f : response_object -> option T) (s : cstate) : answer T :=
  x ← ress s !! r; t ← f x; answers s t.

Definition cache_standard : specification cache_op cstate := fun T o s =>
  if waiting s && negb (may_overlap o) then None else
  match o in cache_op T return answer T with
  | NewRequest i => make_request i s
  | NewRequestFrom r m =>
      q ← reqs s !! r;
      if known_method m && bool_decide (q_body q = None) then add_req (ReqObject (q_url q) m (q_headers q) None false (q_signal q)) s else None
  | CloneRequest r => q ← reqs s !! r; if q_used q then throws s else add_req q s
  | SeeRequest r => q ← reqs s !! r; answers s (Request (q_url q) (q_headers q))
  | RequestText r => q ← reqs s !! r; match q_body q with None => answers s tt | Some _ => None end
  | RequestBodyUsed r => q ← reqs s !! r; answers s (Bool (q_used q))
  | NewResponse b i => make_response b i s
  | ResponseError => add_res (ResObject (js "error") [] 0 [] [] false Empty false) s
  | ResponseRedirect u => u ← url_normal u; add_res (ResObject (js "default") [] 302 [] [(js "location", u)] false Empty false) s
  | CloneResponse r => x ← ress s !! r; if s_used x then throws s else add_res x s
  | SeeResponse r => on_response r seen_as s
  | ResponseText r => consume r (fun x => option_map Str (body_text x)) s
  | ResponseTextHas r t => consume r (body_has t) s
  | ResponseBodyUsed r => on_response r (fun x => Some (Bool (s_used x))) s
  | BlobType r => consume r blob_type s
  | BlobSlice r a b =>
      consume r (fun x => t ← body_text x; if forallb (fun c => c <? 128) t && (0 <=? a) && (a <=? b) then Some (Str (take (Z.to_nat (b - a)) (drop (Z.to_nat a) t))) else None) s
  | GetReader r => x ← ress s !! r; if s_used x || match s_body x with Empty => true | _ => false end then throws s else None
  | HeaderGet r n =>
      if negb (clean_name n) then None else
      on_response r (fun x => match s_body x with
                              | HoldsForm _ _ => None
                              | _ => Some (match header (toLowerCase n) (s_headers x) with Some v => Str v | None => Null end)
                              end) s
  | HeaderSet r n v =>
      x ← ress s !! r;
      if s_open x && clean_name n && clean_value v && match s_body x with HoldsForm _ _ => false | _ => true end then
        answers (set_res r (ResObject (s_type x) (s_url x) (s_status x) (s_text x) (with_header (toLowerCase n) v (s_headers x)) true (s_body x) (s_used x)) s) tt
      else None
  | NewController =>
      answers (CState (reqs s) (ress s) (signals s ++ [false]) (promises s) (names s) (handles s) (contents s)) (length (signals s))
  | AbortController c =>
      _ ← signals s !! c; answers (CState (reqs s) (ress s) (<[c := true]> (signals s)) (promises s) (names s) (handles s) (contents s)) tt
  | Fetch i => do_fetch i s
  | StartFetch i => start_promise (PFetch i) s
  | StartAdd c i => _ ← handles s !! c; start_promise (PAdd c i) s
  | StartAddAll c l => _ ← handles s !! c; start_promise (PAddAll c l) s
  | SettleFetch p => x ← promises s !! p; match x with PFetch i => do_fetch i (settled p s) | _ => None end
  | Settle p =>
      x ← promises s !! p;
      r ← match x with PAdd c i => do_add c [i] (settled p s) | PAddAll c l => do_add c l (settled p s) | _ => None end;
      match r with (s', Some _) => answers s' tt | (s', None) => throws s' end
  | CachesOpen n => do_open n s
  | CachesDelete n =>
      if str_eqb n winterJsBuiltInDefaultCacheName then None
      else answers (with_names (List.filter (fun q => negb (str_eqb q.1 n)) (names s)) s) (Bool (bool_decide (is_Some (place n s))))
  | CachesHas n => answers s (Bool (bool_decide (is_Some (place n s))))
  | CachesKeys => answers s (map fst (names s))
  | CachesMatch i o => do_match i o s
  | IsCache c => if bool_decide (is_Some (handles s !! c)) then answers s (Bool true) else None
  | CacheAdd c i => do_add c [i] s
  | CacheAddAll c l => do_add c l s
  | CachePut c i r => do_put c i r s
  | CacheDelete c i o =>
      l ← entries_in c s;
      q ← resolve_input i s;
      s' ← set_items c (List.filter (fun i => negb (matches_item q o i)) l) s;
      answers s' (Bool (existsb (matches_item q o) l))
  | CacheKeys c i o => l ← entries_in c s; l ← query i o l s; give_requests l s
  | CacheMatch c i o => l ← entries_in c s; l ← query (Some i) o l s; give_first l s
  | CacheMatchWatched c i => l ← entries_in c s; answers s (Bool false)
  | CacheMatchAll c i o => l ← entries_in c s; l ← query i o l s; give_responses l s
  end.

End Standard.
