(* ===== verification/CacheRun.v ===== *)
(** The test of the cache as a whole: the tests of [CacheSuite] on the helpers of
    [CacheTest], one after the other. *)

From Stdlib Require Import String.
From stdpp Require Import base numbers list gmap.
From S2P Require Import Prelude JsNumber JsValue Streams TestSuite Async PromiseTest Script CacheTest CacheSuite.

Local Open Scope Z_scope.
Local Open Scope js_scope.
Local Open Scope script_scope.

(** ** The entries *)

(** [simple_entries] and [vary_entries] with what is given to the constructors; no
    response is that of [Response.error()]. *)
Definition described : Type := @entry (jsstr * headers) (option (jsstr * response_init)).
Definition described_simple : list described := simple_entries pair (fun b i => Some (b, i)) None.
Definition described_vary : list described := vary_entries pair (fun b i => Some (b, i)).

Fixpoint make_entries (l : list described) : script (list (@entry nat nat)) :=
  match l with
  | [] => Done []
  | e :: l =>
      let* rq := call (NewRequest (with_headers (entry_request e).1 (entry_request e).2)) in
      let* rs := match entry_response e with
                 | Some (b, i) => call (NewResponse (TextBody b) i)
                 | None => call ResponseError
                 end in
      let* l := make_entries l in
      Done (Entry (entry_name e) rq rs :: l)
  end.

(** ** On an implementation *)

Section Run.
Context {N : Type} (I : implementation cache_op N).

Definition native_of : @natives N nat nat nat :=
  Natives (fun name => at_once (let! b := I _ (CachesDelete name) in ret (truthy b)))
          (fun name => at_once (I _ (CachesOpen name)))
          (at_once (I _ CachesKeys))
          (fun cache rq rs => at_once (let! _ := I _ (CachePut cache (AtRequest rq) rs) in ret tt))
          (fun r => I _ (CloneRequest r))
          (fun r => I _ (CloneResponse r)).

Definition on_storage {A} (m : script A) : starts (@world N) thrown A := at_once (in_storage (run I m)).

(** The call of a test.  The turns of the test that is not waited for are taken before
    those of the next one, which uses another cache, and its result is lost. *)
Definition run_case (c : cache_case) (description : jsstr) : starts (@world N) thrown unit :=
  match c with
  | OnCache f => cache_test native_of (fun cache => on_storage (f cache)) description
  | OnEntries l f => prepopulated_cache_test native_of l (fun cache e => on_storage (f cache e)) description
  | OnStorage f => promise_test_chain (fun _ => on_storage f) (Str description)
  | NotAwaited l f => fun w =>
      let '(w, _) := run_alone (prepopulated_cache_test native_of l (fun cache e => on_storage (f cache e)) description) w in
      (w, Settled (Ok tt))
  end.

(** [await] of each in turn. *)
Fixpoint run_cases (l : list (cache_case * jsstr)) : comp (@world N) thrown unit :=
  match l with
  | [] => ret tt
  | (c, description) :: l => do! run_alone (run_case c description) in run_cases l
  end.

Definition cache_body (winterTestsBaseUrl data : jsstr) : comp (@world N) thrown unit :=
  let! simple := in_storage (run I (make_entries described_simple)) in
  let! vary := in_storage (run I (make_entries described_vary)) in
  run_cases (cache_tests winterTestsBaseUrl simple vary data).

(** [handleRequest(request)]; the large text is that of the code. *)
Definition handleRequest (winterTestsBaseUrl : jsstr) (n : N) : Z * (string + thrown) :=
  respond (cache_body winterTestsBaseUrl (large_text (Z.to_nat (80 * 1024))) (World 1 n)).2.
End Run.
