(* ===== verification/CacheRunFacts.v ===== *)
(** The test of the cache on the implementations that behave as documented: it answers a
    success on those that list a default cache among the names, and on no others. *)

From Stdlib Require Import String.
From stdpp Require Import base numbers list gmap.
From S2P Require Import Prelude JsNumber JsValue Encoding Streams TestSuite TestFacts Async PromiseTest Script CacheTest CacheFacts CacheSuite CacheRun CacheSpec.

Local Open Scope Z_scope.
Local Open Scope js_scope.

(** ** A test as a script *)

Definition next_index (k : Z) (c : cache_case) : Z := match c with OnStorage _ => k | _ => k + 1 end.

Definition in_new_cache {A} (k : Z) (f : nat -> script A) : script A :=
  sbind (call (CachesDelete (cache_name (k + 1)))) (fun _ => sbind (call (CachesOpen (cache_name (k + 1)))) f).

Fixpoint fill_cache (cache : nat) (l : list (@entry nat nat)) : script unit :=
  match l with
  | [] => Done tt
  | e :: l => sbind (put_clones cache (entry_request e) (entry_response e)) (fun _ => fill_cache cache l)
  end.

Definition case_script (k : Z) (c : cache_case) : script unit :=
  match c with
  | OnCache f => in_new_cache k f
  | OnEntries l f | NotAwaited l f => in_new_cache k (fun cache => sbind (fill_cache cache l) (fun _ => f cache (by_name l)))
  | OnStorage f => f
  end.

(** The entries of a test have names of their own. *)
Definition case_names (c : cache_case) : Prop :=
  match c with OnEntries l _ | NotAwaited l _ => NoDup (entry_name <$> l) /\ Z.of_nat (length l) <= 2 ^ 53 | _ => True end.

Section Run.
Context {N : Type} (I : implementation cache_op N).

Lemma run_sbind {op} (J : implementation op N) {A B} (m : Script.script op A) (f : A -> Script.script op B) : forall n,
  run J (sbind m f) n = bind (run J m) (fun a => run J (f a)) n.
Proof.
  induction m as [a|e|T o k IH|T o k IH h IHh]; intros n; cbn [sbind run]; [reflexivity|reflexivity| |].
  - unfold bind. destruct (J T o n) as [n' [t|e]]; [|reflexivity]. rewrite IH. reflexivity.
  - unfold bind. destruct (J T o n) as [n' [t|e]]; [rewrite IH|rewrite IHh]; reflexivity.
Qed.

Lemma run_asked {T} (o : cache_op T) n : run I (call o) n = I T o n.
Proof. cbn. unfold bind. destruct (I T o n) as [n' [t|e]]; reflexivity. Qed.

Lemma run_native {A} (m : comp N thrown A) w : run_alone (native_call (at_once m)) w = in_storage m w.
Proof. unfold run_alone, native_call, at_once, in_storage. destruct (m (storage w)) as [n r]. reflexivity. Qed.

Lemma run_on_storage {A} (m : script A) w : run_alone (on_storage I m) w = in_storage (run I m) w.
Proof. unfold on_storage, run_alone, at_once. destruct (in_storage (run I m) w). reflexivity. Qed.

(** Success of a sequence is that of its parts. *)
Lemma bind_success {S E A B} (m : comp S E A) (f : A -> comp S E B) s s' b : bind m f s = (s', Ok b) <->
  exists s1 a, m s = (s1, Ok a) /\ f a s1 = (s', Ok b).
Proof.
  unfold bind. destruct (m s) as [s1 [a|e]]; split.
  - eauto.
  - intros (s2 & a' & [= <- <-] & H). exact H.
  - discriminate.
  - intros (s2 & a' & H & _). discriminate.
Qed.

Lemma test_success {S} (f : comp S thrown unit) desc s s' : test (fun _ => f) desc s = (s', Ok tt) <-> f s = (s', Ok tt).
Proof. unfold test. destruct (f s) as [s1 [[]|e]]; split; congruence. Qed.

Lemma in_storage_ok {A} (m : comp N thrown A) k n n' a : m n = (n', Ok a) -> in_storage m (World k n) = (World k n', Ok a).
Proof. intros E. unfold in_storage. cbn. rewrite E. reflexivity. Qed.

Lemma create_ok k n n1 n2 b c : I _ (CachesDelete (cache_name (k + 1))) n = (n1, Ok b) ->
  I _ (CachesOpen (cache_name (k + 1))) n1 = (n2, Ok c) ->
  run_alone (create_temporary_cache (native_of I)) (World k n) = (World (k + 1) n2, Ok c).
Proof.
  intros E1 E2. unfold create_temporary_cache. rewrite run_first. apply bind_success. eexists _, tt. split; [reflexivity|].
  change (run_alone (await_call (native_call (at_once (let! b := I _ (CachesDelete (cache_name (k + 1))) in ret (truthy b))))
            (fun _ => native_call (at_once (I _ (CachesOpen (cache_name (k + 1))))))) (World (k + 1) n) = (World (k + 1) n2, Ok c)).
  rewrite run_await. apply bind_success.
  exists (World (k + 1) n1), (truthy b). split.
  - rewrite run_native. apply in_storage_ok, bind_success. eauto.
  - rewrite run_native. apply in_storage_ok, E2.
Qed.

Lemma put_entry_ok cache e k n n' : run I (put_clones cache (entry_request e) (entry_response e)) n = (n', Ok tt) ->
  run_alone (put_entry (native_of I) cache e) (World k n) = (World k n', Ok tt).
Proof.
  unfold put_clones. rewrite run_sbind. intros H. apply bind_success in H as (n1 & rq & E1 & H).
  rewrite run_sbind in H. apply bind_success in H as (n2 & rs & E2 & H).
  rewrite run_sbind in H. apply bind_success in H as (n3 & v & E3 & [= <-]).
  rewrite run_asked in E1. rewrite run_asked in E2. rewrite run_asked in E3.
  unfold put_entry. rewrite run_first. apply bind_success. exists (World k n1), rq. split; [apply in_storage_ok, E1|].
  rewrite run_first. apply bind_success. exists (World k n2), rs. split; [apply in_storage_ok, E2|].
  unfold run_alone, native_call, cache_put, native_of, at_once. cbn [storage]. unfold bind. rewrite E3. reflexivity.
Qed.

Lemma fill_ok cache l k : forall n n', run I (fill_cache cache l) n = (n', Ok tt) ->
  put_all (native_of I) cache l (World k n) = (World k n', Ok tt).
Proof.
  induction l as [|e l IH]; intros n n' H; cbn [fill_cache put_all] in *; [injection H as ->; reflexivity|].
  rewrite run_sbind in H. apply bind_success in H as (n1 & [] & E & H). apply bind_success. exists (World k n1), tt.
  split; [apply put_entry_ok, E|apply IH, H].
Qed.

Lemma new_cache_ok k (f : nat -> script unit) n n' : run I (in_new_cache k f) n = (n', Ok tt) -> exists c n1,
  run_alone (create_temporary_cache (native_of I)) (World k n) = (World (k + 1) n1, Ok c) /\ run I (f c) n1 = (n', Ok tt).
Proof.
  unfold in_new_cache. rewrite run_sbind. intros H. apply bind_success in H as (n1 & b & E1 & H).
  rewrite run_sbind in H. apply bind_success in H as (n2 & c & E2 & H).
  rewrite run_asked in E1. rewrite run_asked in E2.
  exists c, n2. split; [eapply create_ok; eassumption|exact H].
Qed.

Lemma entries_ok l f d k n n' : NoDup (entry_name <$> l) -> Z.of_nat (length l) <= 2 ^ 53 ->
  run I (case_script k (OnEntries l f)) n = (n', Ok tt) ->
  run_alone (prepopulated_cache_test (native_of I) l (fun cache e => on_storage I (f cache e)) d) (World k n) = (World (k + 1) n', Ok tt).
Proof.
  intros D L H. cbn [case_script] in H. apply new_cache_ok in H as (c & n1 & E1 & H).
  rewrite run_sbind in H. apply bind_success in H as (n2 & [] & E2 & H).
  rewrite prepopulated_run. apply test_success, bind_success. exists (World (k + 1) n1), c. split; [exact E1|].
  apply bind_success. exists (World (k + 1) n2), tt. split; [apply fill_ok, E2|].
  apply bind_success. exists (World (k + 1) n2), tt. split.
  - f_equal. apply assert_equals_ok. rewrite (proj2 (by_name_size l) D), strict_eq_num by lia. apply Z.eqb_refl.
  - rewrite run_on_storage. apply in_storage_ok, H.
Qed.

(** A test passes when its script does. *)
Lemma run_case_ok c d k n n' : case_names c -> run I (case_script k c) n = (n', Ok tt) ->
  run_alone (run_case I c d) (World k n) = (World (next_index k c) n', Ok tt).
Proof.
  destruct c as [f|l f|f|l f]; cbn [case_names run_case next_index].
  - intros _ H. apply new_cache_ok in H as (c & n1 & E1 & H). unfold cache_test, run_alone at 1. rewrite promise_test_alone.
    apply test_success. change (run_alone (await_call (create_temporary_cache (native_of I)) (fun cache => await_call (on_storage I (f cache)) (fun _ => at_once (ret tt)))) (World k n) = (World (k + 1) n', Ok tt)).
    rewrite run_await. apply bind_success. exists (World (k + 1) n1), c. split; [exact E1|].
    rewrite run_await. apply bind_success. exists (World (k + 1) n'), tt. split; [|reflexivity].
    rewrite run_on_storage. apply in_storage_ok, H.
  - intros [D L]. apply entries_ok; assumption.
  - intros _ H. unfold run_alone at 1. rewrite promise_test_alone. apply test_success.
    change (run_alone (on_storage I f) (World k n) = (World k n', Ok tt)). rewrite run_on_storage. apply in_storage_ok, H.
  - intros [D L] H. unfold run_alone at 1. rewrite (entries_ok l f d k n n' D L H). reflexivity.
Qed.

End Run.

(** ** The whole test *)

Fixpoint specified_cases {M} (J : specification cache_op M) (k : Z) (l : list cache_case) (s : M) : option M :=
  match l with
  | [] => Some s
  | c :: l =>
      match specified J (case_script k c) s with
      | Some (s', Some _) => specified_cases J (next_index k c) l s'
      | _ => None
      end
  end.

Lemma cases_refine {N M} (I : implementation cache_op N) (J : specification cache_op M) (R : N -> M -> Prop) l :
  agrees I J R -> Forall (fun c => case_names c.1) l -> forall k n s s', R n s -> specified_cases J k (map fst l) s = Some s' ->
  exists n' k', run_cases I l (World k n) = (World k' n', Ok tt) /\ R n' s'.
Proof.
  intros Ag. induction 1 as [|[c d] l Hc _ IH]; intros k n s s' Rn E; cbn [map fst specified_cases run_cases] in *.
  - injection E as <-. exists n, k. auto.
  - pose proof (script_refines I J R (case_script k c) Ag n s Rn) as S.
    destruct (specified J (case_script k c) s) as [[s1 [[]|]]|]; [|discriminate|discriminate].
    destruct S as (n1 & E1 & R1). destruct (IH (next_index k c) n1 s1 s' R1 E) as (n' & k' & E2 & R2).
    exists n', k'. split; [|exact R2]. apply bind_success. exists (World (next_index k c) n1), tt. split; [|exact E2].
    apply run_case_ok; assumption.
Qed.

Lemma run_cases_app {N} (I : implementation cache_op N) l l' w :
  run_cases I (l ++ l') w = bind (run_cases I l) (fun _ => run_cases I l') w.
Proof.
  revert w. induction l as [|[c d] l IH]; intros w; cbn [app run_cases]; [reflexivity|].
  unfold bind at 1 3. destruct (run_alone (run_case I c d) w) as [w' [[]|e]] eqn:E.
  - rewrite IH. unfold bind. rewrite E. reflexivity.
  - unfold bind. rewrite E. reflexivity.
Qed.

(** A test over the storage that throws ends the run. *)
Lemma cases_fail {N M} (I : implementation cache_op N) (J : specification cache_op M) (R : N -> M -> Prop) l f d l' :
  agrees I J R -> Forall (fun c => case_names c.1) l -> forall k n s s1 s2, R n s ->
  specified_cases J k (map fst l) s = Some s1 -> specified J f s1 = Some (s2, None) ->
  exists w e, run_cases I (l ++ (OnStorage f, d) :: l') (World k n) = (w, Throw e).
Proof.
  intros Ag Hl k n s s1 s2 Rn E F. destruct (cases_refine I J R l Ag Hl k n s s1 Rn E) as (n1 & k1 & E1 & R1).
  pose proof (script_refines I J R f Ag n1 s1 R1) as S. rewrite F in S. destruct S as (n2 & e & S & _).
  rewrite run_cases_app. unfold bind at 1. rewrite E1. cbn [run_cases run_case].
  assert (T : exists e', run_alone (promise_test_chain (fun _ => on_storage I f) (Str d)) (World k1 n1) = (World k1 n2, Throw e')).
  { unfold run_alone at 1. rewrite promise_test_alone. unfold promise_test, test. cbv beta.
    assert (G : run_alone (on_storage I f) (World k1 n1) = (World k1 n2, Throw e)).
    { rewrite run_on_storage. unfold in_storage. cbn. rewrite S. reflexivity. }
    unfold run_alone in G. rewrite G. eexists. reflexivity. }
  destruct T as [e' T]. unfold bind. rewrite T. eauto.
Qed.

(** The backends the tests are built for: two addresses, and what the replies look like
    in a runtime. *)
Definition backends : list backend :=
  a ← [js "http://localhost:8081/"; js "https://winter-tests.wasmer.app/"];
  [Backend a (js "default") false; Backend a (js "basic") true; Backend a (js "cors") false].

(** The large text of the code. *)
Definition large : jsstr := large_text (Z.to_nat (80 * 1024)).

(** The entries, numbered in the order they are made. *)
Definition made_simple : list (@entry nat nat) := imap (fun i e => Entry (entry_name e) i i) described_simple.
Definition made_vary : list (@entry nat nat) := imap (fun i e => Entry (entry_name e) (12 + i)%nat (12 + i)%nat) described_vary.
Definition all_tests (b : jsstr) : list (cache_case * jsstr) := cache_tests b made_simple made_vary large.

#[export] Instance entry_eq_dec : EqDecision (@entry nat nat).
Proof. solve_decision. Defined.

(** The states of the specification before and after the entries are made. *)
Definition made_entries (net : backend) (listed : bool) (s1 s : cstate) : Prop :=
  specified (cache_standard net) (make_entries described_simple) (fresh_storage listed) = Some (s1, Some made_simple) /\
  specified (cache_standard net) (make_entries described_vary) s1 = Some (s, Some made_vary).

(** A check of the specification after the entries are made. *)
Definition checked (net : backend) (listed : bool) (f : cstate -> bool) : bool :=
  match specified (cache_standard net) (make_entries described_simple) (fresh_storage listed) with
  | Some (s, Some simple) =>
      match specified (cache_standard net) (make_entries described_vary) s with
      | Some (s, Some vary) => bool_decide (simple = made_simple) && bool_decide (vary = made_vary) && f s
      | _ => false
      end
  | _ => false
  end.

Lemma checked_entries net listed f : checked net listed f = true -> exists s1 s, made_entries net listed s1 s /\ f s = true.
Proof.
  unfold checked, made_entries. destruct (specified _ (make_entries described_simple) _) as [[s1 [simple|]]|]; [|discriminate..].
  destruct (specified _ (make_entries described_vary) s1) as [[s [vary|]]|] eqn:E; [|discriminate..].
  rewrite !andb_true_iff, !bool_decide_eq_true. intros [[-> ->] F]. exists s1, s. auto.
Qed.

(** All tests pass, when a default cache is listed. *)
Definition passes_all (net : backend) (s : cstate) : bool :=
  bool_decide (is_Some (specified_cases (cache_standard net) 1 (map fst (all_tests (address net))) s)).

Lemma all_tests_pass : forallb (fun net => checked net true (passes_all net)) backends = true.
Proof. vm_compute. reflexivity. Qed.

(** The tests before that of [caches.keys] pass, and that one fails, when none is. *)
Definition fails_keys (net : backend) (s : cstate) : bool :=
  match specified_cases (cache_standard net) 1 (map fst (take 103 (all_tests (address net)))) s with
  | Some s => match specified (cache_standard net) caches_keys_test s with Some (_, None) => true | _ => false end
  | None => false
  end.

Lemma keys_fail : forallb (fun net => checked net false (fails_keys net)) backends = true.
Proof. vm_compute. reflexivity. Qed.

Lemma all_tests_keys b : exists d l, all_tests b = take 103 (all_tests b) ++ (OnStorage caches_keys_test, d) :: l.
Proof.
  assert (K : forall simple vary data, exists d l, drop 103 (cache_tests b simple vary data) = (OnStorage caches_keys_test, d) :: l)
    by (intros; eexists _, _; reflexivity).
  destruct (K made_simple made_vary large) as (d & l & E). exists d, l.
  rewrite <- (take_drop 103 (all_tests b)) at 1. f_equal. exact E.
Qed.

Lemma cache_tests_names b simple vary data : case_names (OnEntries simple (fun _ _ => Done tt)) ->
  case_names (OnEntries vary (fun _ _ => Done tt)) -> Forall (fun c => case_names c.1) (cache_tests b simple vary data).
Proof.
  intros S V. unfold cache_tests. repeat apply Forall_app_2; repeat (apply Forall_cons_2; [exact I || exact S || exact V|]);
    apply Forall_nil_2.
Qed.

Lemma names_simple : case_names (OnEntries made_simple (fun _ _ => Done tt)).
Proof.
  cbn [case_names]. split; [|vm_compute; discriminate].
  apply (bool_decide_eq_true_1 (NoDup (entry_name <$> made_simple))). vm_compute. reflexivity.
Qed.

Lemma names_vary : case_names (OnEntries made_vary (fun _ _ => Done tt)).
Proof.
  cbn [case_names]. split; [|vm_compute; discriminate].
  apply (bool_decide_eq_true_1 (NoDup (entry_name <$> made_vary))). vm_compute. reflexivity.
Qed.

Lemma all_tests_names b : Forall (fun c => case_names c.1) (all_tests b).
Proof. exact (cache_tests_names b made_simple made_vary large names_simple names_vary). Qed.

(** The run up to the tests, from a state that is related to a fresh one. *)
Lemma run_to_tests {N} (I : implementation cache_op N) net (R : N -> cstate -> Prop) n listed s1 s :
  agrees I (cache_standard net) R -> R n (fresh_storage listed) -> made_entries net listed s1 s ->
  exists n2, R n2 s /\ cache_body I (address net) large (World 1 n) = run_cases I (all_tests (address net)) (World 1 n2).
Proof.
  intros Ag Rn [E1 E2].
  pose proof (script_refines I _ R (make_entries described_simple) Ag n _ Rn) as S1. rewrite E1 in S1. destruct S1 as (n1 & Q1 & R1).
  pose proof (script_refines I _ R (make_entries described_vary) Ag n1 _ R1) as S2. rewrite E2 in S2. destruct S2 as (n2 & Q2 & R2).
  exists n2. split; [exact R2|]. unfold cache_body. unfold bind at 1. rewrite (in_storage_ok _ _ _ _ _ Q1).
  unfold bind at 1. rewrite (in_storage_ok _ _ _ _ _ Q2). reflexivity.
Qed.


